(* ===== verification/_CoqProject ===== *)
-Q . S2P
Prelude.v
ServerGuards.v
Json.v
Ids.v
Types.v
Bfs.v
Datetime.v
IndexKeys.v
Intents.v
AuditLog.v
Schema.v
PolicyPlan.v
PolicyCycles.v
PolicyCompile.v
PolicyTyping.v
Rules.v
Gates.v
JsonOps.v
AuthStore.v
Roles.v
AuthPipeline.v
Storage.v
Catalog.v
PolicyEval.v
PolicyDecide.v
PolicyStatic.v
PolicyEnforce.v
Interface.v
MemoryTx.v
MemoryRows.v
PolicyExamples.v
Transactions.v
Requests.v
IntentCanon.v
IntentService.v
IntentCommit.v
EntityWrites.v
EntityReads.v
Graph.v
QueryPlan.v
Queries.v
QueryProofs.v
IndexQueries.v
EntityProofs.v
MemoryCommit.v
IntentProofs.v
IntentHistories.v
EntitySpec.v
Histories.v
CommitExamples.v
Evolution.v
Rollback.v
RollbackProofs.v
Explain.v
ExplainProofs.v
Templates.v
Collections.v
AuditReads.v
AuditReadProofs.v
Beads.v
BeadSearch.v
BeadProofs.v
IntentApi.v
IntentExamples.v
HandlerExamples.v
CypherAst.v
CypherLexer.v
CypherParser.v
ReadApi.v
CypherTotal.v
CypherPrint.v
CypherRoundtrip.v
CypherPlan.v
CypherLimits.v
CypherStore.v
CypherExec.v
CypherProofs.v
NamedQueries.v
CypherExamples.v
