(* ===== verification/Prelude.v ===== *)
(** * Axon: a model of the entity-graph data store and its correctness

    Axon stores JSON entities and typed links in collections with schemas,
    secondary indexes, optimistic multi-entity transactions, an append-only
    audit log, access policies, reviewable mutation intents and validation
    rules.  This library models the engine under [src/crates/], from the
    identifiers up to the request handler and the intent service over the
    in-memory storage adapter, and proves what makes each part correct.

    ** Parts of the program and files of the library

    Foundations:
    - [Prelude.v] (this file): results with a panic outcome, the state and error
      monad, sorting, machine integers, bytes, the tactics and the hint database.
    - [Json.v]: [serde_json::Value]; its number type is a class, with a concrete
      instance for examples.
    - [Ids.v], [Types.v]: [axon-core/src/id.rs], [types.rs] and [error.rs],
      namespaces, reserved collections, entities, links and their keys.
    - [Datetime.v], [IndexKeys.v]: [axon-esf/src/index_key.rs] and the index
      values of [axon-storage/src/adapter.rs], RFC 3339 parsing, the
      order-preserving encodings, compound keys and prefix ranges.
    - [AuditLog.v]: [axon-audit/src/entry.rs], [log.rs], [cdc.rs], audit entries,
      diffs, the log, pagination and replay as change events.
    - [Schema.v], [Rules.v], [Gates.v]: the data of
      [axon-schema/src/schema.rs], rule evaluation, rule definitions, gates.
    - [Evolution.v]: [axon-schema/src/evolution.rs], the
      differences of two schemas and their classification.

    Access policies:
    - [PolicyPlan.v], [PolicyCycles.v], [PolicyCompile.v], [PolicyTyping.v]:
      [axon-schema/src/policy.rs], compiled plans, the cycle detector, the
      compiler and its type discipline.
    - [PolicyEval.v], [PolicyDecide.v], [PolicyStatic.v], [PolicyEnforce.v],
      [PolicyExamples.v]: subjects, predicates, decisions and their enforcement in
      [axon-api/src/handler.rs] and [policy.rs].
    - [JsonOps.v]: document paths, merge patches and redaction of the handler.
    - [Roles.v], [AuthPipeline.v], [AuthStore.v]: [axon-core/src/auth.rs],
      [axon-server/src/auth_pipeline.rs] and the tenancy stores of
      [axon-storage/src/memory.rs].

    Storage and transactions:
    - [Storage.v], [Catalog.v]: [MemoryStorageAdapter]: one record field per field
      of the struct, one definition per method.
    - [Interface.v]: the part of the [StorageAdapter] trait that a commit calls,
      as a class with the laws a backend promises.
    - [MemoryTx.v], [MemoryRows.v]: the in-memory adapter satisfies the laws; the
      effect of every row operation and the index invariant.
    - [Transactions.v]: [axon-api/src/transaction.rs], written against the
      interface.
    - [MemoryCommit.v], [Histories.v], [CommitExamples.v]: commits on the
      in-memory adapter, sequences of commits, and concrete runs.

    Request handler ([axon-api/src/handler.rs], [request.rs], [response.rs]):
    - [Requests.v]: requests, responses, guards, lifecycles.
    - [EntityWrites.v], [EntityProofs.v], [EntitySpec.v]:
      create, update, patch, delete, transitions, links, transactions.
    - [EntityReads.v], [Bfs.v], [Graph.v]: reads under a policy
      and the graph searches.
    - [QueryPlan.v], [Queries.v], [QueryProofs.v], [IndexQueries.v]:
      filters, index use, counts, pages, snapshots.
    - [Rollback.v], [RollbackProofs.v]: reverting audit
      entries, rolling back entities, collections and transactions.
    - [Explain.v], [ExplainProofs.v]: explanations of policy
      decisions, effective capabilities, dry runs of a proposed schema.
    - [Templates.v]: [axon-render] and the handler's cache of compiled templates.
    - [AuditReads.v], [AuditReadProofs.v]: audit queries and
      the redaction of entries, diffs and intents.
    - [Collections.v]: collections,
      schemas and their changes, namespaces and databases, templates.
    - [ReadApi.v]: aggregates, neighbours, candidates for links, recorded reads.
    - [IntentApi.v]: intents through the handler, the governed commit.
    - [HandlerExamples.v]: concrete runs of all of these.

    Beads ([axon-api/src/bead.rs]):
    - [Beads.v], [BeadSearch.v], [BeadProofs.v]: work items in a system collection,
      the exactness of their searches, and why dependencies have no cycles.

    Mutation intents:
    - [Intents.v]: [axon-core/src/intent.rs], records, tokens, commit-time checks.
    - [IntentCanon.v], [IntentService.v], [IntentCommit.v]:
      [axon-api/src/intent.rs], canonical operations and their hash, the life
      cycle, commits.
    - [IntentProofs.v], [IntentHistories.v], [IntentExamples.v]: the service on the
      in-memory adapter, through histories of calls.

    Graph queries ([axon-cypher-ast], [axon-cypher]):
    - [CypherAst.v], [CypherLexer.v], [CypherParser.v]: syntax, tokens, the
      recursive descent parser; [CypherTotal.v], [CypherPrint.v],
      [CypherRoundtrip.v]: termination, a printer and the round trip.
    - [CypherPlan.v], [CypherLimits.v]: the validator and the planner, and the
      limits of plans.
    - [CypherStore.v], [CypherExec.v], [CypherProofs.v]: the stores that queries
      run on, the executor, and what planned queries return.
    - [NamedQueries.v]:
      [axon-schema/src/named_queries.rs], snapshots of schemas, declared queries
      and the check against read policies.
    - [CypherExamples.v]: concrete queries.
    Server guards:
    - [ServerGuards.v]: [axon-server/src/rate_limit.rs] and [idempotency.rs].

    A request passes the authentication pipeline, then the handler: it resolves
    the caller's policies, reads or stages writes, and commits them as a
    transaction that calls the storage through the interface.  The adapter calls
    the index-key and identifier code; audit entries and intents live in the
    adapter's state and are rolled back with it; structural versions and the
    tenancy stores are not.  An intent stores the hash of an operation that was
    previewed; its commit checks the bindings again and marks the intent inside
    the transaction it executes.

    ** What the theorems show

    - Commits (C1 to C6): atomicity for every backend
      that keeps the laws; no stale write or read commits; over any history of
      successful and failed commits no update is lost and
      serializable scans see no phantoms; the exact effect on rows and on the
      audit log; C37.
    - Entity writes (C7 to C9): the handler
      refines an abstract map of entities with versions, its failures change
      nothing (but for a storage that fails to commit), and lifecycle states stay inside the declared ones;
      C10 (beads never depend on each other in a circle).
    - Indexes: C11 (indexes hold exactly the stored rows),
      C12 (a query answered from an index is the scan),
      C35 (encoded keys compare as the values do).
    - Access policies: C16, C17,
      C18, C19, C20,
      C28 (audit reads redact fields);
      C14 (an explanation says what enforcement does).
    - Reads: C21, C22, C23.
    - Authentication: C24, C25.
    - Intents: C31, C32,
      C33, C34.
    - Recovery: C13 (a collection returns to what it was at
      a moment of its history), C15.
    - Rules, gates and schemas: C29, C30,
      C27, C26.
    - Cypher: C36 (a planned query returns what it asks for,
      through any index), C38, C39 (printed queries
      are read back), C40 (every text is answered).
    - The files of examples also hold behaviours that contradict the
      documentation, as theorems about the model of the code as it is.

    ** Conventions, bounds and parameters

    Machine integers are [Z] with the wrap-around or saturation written out;
    floats are their bit patterns; strings are byte strings; maps with unique
    keys are [gmap], and iteration order is fixed by sorting where the source
    uses an ordered map.  Panics are the outcome [Panic].  Clocks and fresh ids
    are arguments.  Parameters stand for third-party code: JSON numbers
    ([SerdeNumber], [NumberText]), SHA-256 and base64 ([TokenCodec]), signed
    tokens ([JwtCodec]), regular expressions and text forms ([RuleEnv],
    [TextFormat], [OperationText]), UUID text ([UuidText]), derived serialization
    ([IntentSerde]), the unspecified default hasher ([ContentHasher]), the
    earliest instant of the platform's clock, lower-casing of Unicode text, the
    template engine ([TemplateEngine]), the [Debug] text of values ([DebugText]),
    character classes and number texts of the standard library ([CypherText]),
    and the JSON Schema compiler and validator (arguments); their laws are
    classes, each with an instance.

    Fuel appears where the recursion of the source is not structural, and each
    bound is proved sufficient: fix interpolation (one iteration more than the
    template has opening braces, or no bound at all when it diverges), gate
    inclusion (one more than the include entries), the drain of a paginated
    query (one page more than entries), policy decisions across related
    collections (the depth of the acyclic relation graph), breadth-first search
    (one more than the links), and the depth of a filter (its node count).
    The Cypher lexer and parser recurse on bounds taken from the number of
    characters and of tokens.
    The operations on beads page through the collection with one page per row and
    one more, and search with one node per link and one more.
    ** Not modelled

    The SQL adapters, the control plane, the
    servers and protocol surfaces, and tooling. *)

From Stdlib Require Export ZArith Lia.
From stdpp Require Export base gmap strings list sorting fin_maps option.
From Stdlib Require Import Ascii.
Export Stdlib.Strings.Ascii (ascii(..)).

(** ** Results

    Rust's [Result<A, E>] with the third outcome a call can have, a panic.
    The error type differs between crates ([AxonError], [IndexKeyError], ...),
    so it stays a parameter. *)

Inductive result (A E : Type) : Type :=
| Ok (a : A)
| Err (e : E)
| Panic.
Arguments Ok {A E} _.
Arguments Err {A E} _.
Arguments Panic {A E}.

Declare Scope axon_scope.
Delimit Scope axon_scope with axon.

Definition result_bind {A B E} (m : result A E) (f : A -> result B E) : result B E :=
  match m with
  | Ok a => f a
  | Err e => Err e
  | Panic => Panic
  end.

Notation "'let?' x ':=' c 'in' k" := (result_bind c (fun x => k))
  (at level 10, x pattern, c at level 100, k at level 200) : axon_scope.

(** [Option::ok_or] *)
Definition ok_or {A E} (o : option A) (e : E) : result A E :=
  match o with Some a => Ok a | None => Err e end.

(** [Result::ok]: an error becomes [None], a panic goes on. *)
Definition result_ok {A E E'} (r : result A E) : result (option A) E' :=
  match r with Ok a => Ok (Some a) | Err _ => Ok None | Panic => Panic end.

(** [iter().map(f).collect()] for an [f] that can panic. *)
Fixpoint result_map {A B E} (f : A -> result B E) (l : list A) : result (list B) E :=
  match l with
  | [] => Ok []
  | a :: l' => result_bind (f a) (fun b => result_bind (result_map f l') (fun bs => Ok (b :: bs)))
  end.

(** The values of a list of options, in order ([Iterator::filter_map]). *)
Definition somes {A} (l : list (option A)) : list A := omap id l.

(** [slice::sort_by_key]: a stable sort on an integer key. *)
Fixpoint insert_by_key {A} (key : A -> Z) (a : A) (l : list A) : list A :=
  match l with
  | [] => [a]
  | b :: l' => if (key a <=? key b)%Z then a :: l else b :: insert_by_key key a l'
  end.
Definition sort_by_key {A} (key : A -> Z) (l : list A) : list A :=
  foldr (insert_by_key key) [] l.

(** [slice::sort_by] with a comparison function; stable. *)
Fixpoint insert_by {A} (cmp : A -> A -> comparison) (a : A) (l : list A) : list A :=
  match l with
  | [] => [a]
  | b :: l' => match cmp a b with Gt => b :: insert_by cmp a l' | _ => a :: l end
  end.
Definition sort_by {A} (cmp : A -> A -> comparison) (l : list A) : list A :=
  foldr (insert_by cmp) [] l.

(** [Ordering::then] *)
Definition then_cmp (a b : comparison) : comparison := match a with Eq => b | _ => a end.

(** ** State with errors

    A Rust method taking [&mut self] and returning [Result<A, E>] can fail
    (or panic) after having written part of [self]; the model therefore
    returns the state on every branch. *)

Definition M (S E A : Type) : Type := S -> S * result A E.

Definition ret {S E A} (a : A) : M S E A := fun s => (s, Ok a).
Definition fail {S E A} (e : E) : M S E A := fun s => (s, Err e).
Definition bind {S E A B} (m : M S E A) (f : A -> M S E B) : M S E B :=
  fun s =>
    match m s with
    | (s', Ok a) => f a s'
    | (s', Err e) => (s', Err e)
    | (s', Panic) => (s', Panic)
    end.
Definition gets {S E A} (f : S -> A) : M S E A := fun s => (s, Ok (f s)).
Definition reads {S E A} (f : S -> result A E) : M S E A := fun s => (s, f s).
Definition lift {S E A} (r : result A E) : M S E A := fun s => (s, r).
Definition modify {S E} (f : S -> S) : M S E unit := fun s => (f s, Ok tt).

Notation "'do' x '<-' c ';' k" := (bind c (fun x => k))
  (at level 10, x pattern, c at level 100, k at level 200) : axon_scope.
Notation "'do!' c ';' k" := (bind c (fun _ => k))
  (at level 10, c at level 100, k at level 200) : axon_scope.

(** A loop over a vector whose body may fail: the first error stops it. *)
Fixpoint for_each {S E A} (f : A -> M S E unit) (l : list A) : M S E unit :=
  match l with
  | [] => ret tt
  | a :: l' => bind (f a) (fun _ => for_each f l')
  end.

(** ** Machine integers *)

Definition u64_max : Z := 2 ^ 64 - 1.
Definition wrap64 (z : Z) : Z := z mod 2 ^ 64.
Definition u64_ok (z : Z) : bool := (0 <=? z)%Z && (z <=? u64_max)%Z.
Definition saturating_add64 (a b : Z) : Z := Z.min (a + b) u64_max.
Definition i64_ok (z : Z) : bool := (- 2 ^ 63 <=? z)%Z && (z <? 2 ^ 63)%Z.

(** ** Tactics *)

(** Splits the first [match] found in a hypothesis or in the goal. *)
Ltac case_match_any :=
  match goal with
  | H : context [match ?x with _ => _ end] |- _ => destruct x eqn:?; try discriminate H
  | |- context [match ?x with _ => _ end] => destruct x eqn:?
  end.

(** Inverts an equation between results or state/result pairs. *)
Ltac inv_res :=
  repeat match goal with
  | H : Ok _ = Ok _ |- _ => injection H; clear H; intros; subst
  | H : Err _ = Err _ |- _ => injection H; clear H; intros; subst
  | H : Ok _ = Err _ |- _ => discriminate H
  | H : Ok _ = Panic |- _ => discriminate H
  | H : Err _ = Panic |- _ => discriminate H
  | H : Panic = Ok _ |- _ => discriminate H
  | H : Panic = Err _ |- _ => discriminate H
  | H : Err _ = Ok _ |- _ => discriminate H
  | H : (_, _) = (_, _) |- _ => injection H; clear H; intros; subst
  end.

(** Equations that hold by evaluation, checked by the virtual machine without
    normalising the types they mention. *)
Ltac vm_refl := match goal with |- _ = ?b => vm_cast_no_check (@eq_refl _ b) end.

Create HintDb axon discriminated.

(** ** Lemmas on results and on the monad *)

Lemma result_bind_ok {A B E} (m : result A E) (f : A -> result B E) b :
  result_bind m f = Ok b <-> exists a, m = Ok a /\ f a = Ok b.
Proof. destruct m; simpl; naive_solver. Qed.

Lemma result_seq_ok {A E} (m : result unit E) (k : result A E) a :
  result_bind m (fun _ => k) = Ok a <-> m = Ok tt /\ k = Ok a.
Proof. rewrite result_bind_ok. split; [by intros ([] & ? & ?) | intros []; by exists tt]. Qed.

Lemma result_bind_no_panic {A B E} (m : result A E) (f : A -> result B E) :
  m <> Panic -> (forall a, m = Ok a -> f a <> Panic) -> result_bind m f <> Panic.
Proof. destruct m; simpl; auto. Qed.

Lemma ok_or_ok {A E} (o : option A) (e : E) a : ok_or o e = Ok a <-> o = Some a.
Proof. destruct o; simpl; naive_solver. Qed.


Section Monad.
Context {S E : Type}.

Lemma bind_ok {A B} (m : M S E A) (f : A -> M S E B) s s' b :
  bind m f s = (s', Ok b) ->
  exists s1 a, m s = (s1, Ok a) /\ f a s1 = (s', Ok b).
Proof. unfold bind. destruct (m s) as [s1 [a|e|]]; [eauto | intros [=]..]. Qed.

Lemma bind_err {A B} (m : M S E A) (f : A -> M S E B) s s' e :
  bind m f s = (s', Err e) ->
  m s = (s', Err e) \/ exists s1 a, m s = (s1, Ok a) /\ f a s1 = (s', Err e).
Proof. unfold bind. destruct (m s) as [s1 [a|e'|]]; [eauto | intros [= -> ->]; eauto | intros [=]]. Qed.

(** A property of states kept by every run of [m], on every branch. *)
Definition keeps {A} (P : S -> Prop) (m : M S E A) : Prop :=
  forall s, P s -> P (fst (m s)).

Lemma keeps_ret {A} P (a : A) : keeps P (ret a).
Proof. intros s; done. Qed.

Lemma keeps_fail {A} P e : keeps P (fail (A := A) e).
Proof. intros s; done. Qed.

Lemma keeps_gets {A} P (f : S -> A) : keeps P (gets f).
Proof. intros s; done. Qed.

Lemma keeps_reads {A} P (f : S -> result A E) : keeps P (reads f).
Proof. intros s; done. Qed.

Lemma keeps_lift {A} P (r : result A E) : keeps P (lift r).
Proof. intros s; done. Qed.

Lemma keeps_modify P f : (forall s, P s -> P (f s)) -> keeps P (modify f).
Proof. intros Hf s; apply Hf. Qed.

Lemma keeps_bind {A B} P (m : M S E A) (f : A -> M S E B) :
  keeps P m -> (forall a, keeps P (f a)) -> keeps P (bind m f).
Proof.
  intros Hm Hf s Hs. unfold bind. specialize (Hm s Hs).
  destruct (m s) as [s1 [a|e|]]; simpl in *; [by apply Hf | done..].
Qed.

Lemma keeps_for_each {A} P (f : A -> M S E unit) l :
  (forall a, keeps P (f a)) -> keeps P (for_each f l).
Proof.
  intros Hf. induction l as [|a l IH]; simpl; [apply keeps_ret|].
  by apply keeps_bind.
Qed.
End Monad.

#[export] Hint Resolve keeps_ret keeps_fail keeps_gets keeps_reads keeps_lift keeps_modify
  keeps_bind keeps_for_each : axon.

(** One step through a monadic body: every primitive keeps the property; the
    assignments are left as goals. *)
Ltac keeps_step :=
  match goal with
  | |- keeps _ (bind _ _) => apply keeps_bind
  | |- keeps _ (for_each _ _) => apply keeps_for_each
  | |- keeps _ (ret _) => apply keeps_ret
  | |- keeps _ (fail _) => apply keeps_fail
  | |- keeps _ (gets _) => apply keeps_gets
  | |- keeps _ (reads _) => apply keeps_reads
  | |- keeps _ (lift _) => apply keeps_lift
  | |- keeps _ (modify _) => apply keeps_modify
  | |- keeps _ (match ?x with _ => _ end) => destruct x
  | |- forall _ : ?A, keeps _ _ => intro
  end.

(** ** Filtering and sorting *)

Lemma filter_all {A} (p : A -> bool) (l : list A) :
  (forall x, In x l -> p x = true) -> List.filter p l = l.
Proof.
  induction l as [|a l IH]; simpl; [done|]. intros Hp. rewrite Hp by by left.
  rewrite IH; auto.
Qed.

Lemma filter_none {A} (p : A -> bool) (l : list A) :
  (forall x, In x l -> p x = false) -> List.filter p l = [].
Proof.
  induction l as [|a l IH]; simpl; [done|]. intros Hp. rewrite Hp by by left. auto.
Qed.

Lemma filter_and {A} (p r : A -> bool) (l : list A) :
  List.filter (fun x => p x && r x) l = List.filter p (List.filter r l).
Proof.
  induction l as [|a l IH]; simpl; [done|].
  destruct (r a); simpl; [by destruct (p a); simpl; rewrite IH | by rewrite andb_false_r].
Qed.

Lemma fold_left_map_comp {A B C} (f : C -> B -> C) (h : A -> B) (l : list A) (c : C) :
  fold_left f (map h l) c = fold_left (fun c a => f c (h a)) l c.
Proof. revert c. induction l as [|a l IH]; intros c; simpl; [done|]. apply IH. Qed.

Lemma StronglySorted_filter {A} (key : A -> Z) p (l : list A) :
  StronglySorted Z.lt (map key l) -> StronglySorted Z.lt (map key (List.filter p l)).
Proof.
  induction l as [|a l IH]; simpl; [done|]. intros Hs. inversion Hs as [|? ? Hl Ha]; subst.
  destruct (p a); simpl; [|auto]. constructor; [auto|].
  apply List.Forall_forall. intros x (b & <- & [Hb _]%filter_In)%in_map_iff.
  eapply List.Forall_forall in Ha; [exact Ha|]. by apply in_map.
Qed.

Lemma sort_by_key_sorted {A} (key : A -> Z) (l : list A) :
  StronglySorted Z.lt (map key l) -> sort_by_key key l = l.
Proof.
  induction l as [|a l IH]; simpl; [done|]. intros Hs. inversion Hs as [|? ? Hl Ha]; subst.
  rewrite IH by done. destruct l as [|b l]; [done|]. simpl in *.
  inversion Ha; subst. rewrite (proj2 (Z.leb_le _ _)) by lia. done.
Qed.

(** ** Byte strings

    A Rust [String] is its UTF-8 bytes; [string] is a sequence of 8-bit
    characters and stands for exactly those bytes. *)

Definition byte_of (c : ascii) : Z := Z.of_N (N_of_ascii c).

Fixpoint as_bytes (s : string) : list Z :=
  match s with
  | EmptyString => []
  | String c s' => byte_of c :: as_bytes s'
  end.

(** Lexicographic comparison of byte sequences ([memcmp], then length). *)
Fixpoint memcmp (a b : list Z) : comparison :=
  match a, b with
  | [], [] => Eq
  | [], _ :: _ => Lt
  | _ :: _, [] => Gt
  | x :: a', y :: b' =>
      match Z.compare x y with
      | Eq => memcmp a' b'
      | c => c
      end
  end.

(** [str::split(sep)]: always at least one piece. *)
Fixpoint split_on (sep : ascii) (s : string) : list string :=
  match s with
  | EmptyString => [""]
  | String c s' =>
      if decide (c = sep) then "" :: split_on sep s'
      else match split_on sep s' with
           | [] => [String c ""]
           | p :: ps => String c p :: ps
           end
  end.

(** [[..].join(sep)] *)
Fixpoint join_with (sep : ascii) (l : list string) : string :=
  match l with
  | [] => ""
  | [p] => p
  | p :: ps => p +:+ String sep (join_with sep ps)
  end.

Lemma string_app_nil_r (s : string) : s +:+ "" = s.
Proof. induction s as [|c s IH]; [done|]. change (String c (s +:+ "") = String c s). by rewrite IH. Qed.

Lemma string_app_assoc (a b c : string) : (a +:+ b) +:+ c = a +:+ (b +:+ c).
Proof.
  induction a as [|x a IH]; [done|].
  change (String x ((a +:+ b) +:+ c) = String x (a +:+ (b +:+ c))). by rewrite IH.
Qed.

Lemma string_app_nil_l (s : string) : "" +:+ s = s.
Proof. done. Qed.

Lemma string_app_cons c (a b : string) : (String c a) +:+ b = String c (a +:+ b).
Proof. done. Qed.

Lemma string_app_inj_l (a b c : string) : a +:+ b = a +:+ c -> b = c.
Proof.
  induction a as [|x a IH]; [done|]. rewrite !string_app_cons. intros [= H]. by apply IH.
Qed.

Lemma byte_of_range c : (0 <= byte_of c < 256)%Z.
Proof.
  unfold byte_of. pose proof (N_ascii_bounded c). lia.
Qed.

Lemma byte_of_inj c d : byte_of c = byte_of d -> c = d.
Proof.
  unfold byte_of. intros H%N2Z.inj.
  by rewrite <-(ascii_N_embedding c), <-(ascii_N_embedding d), H.
Qed.

Lemma split_on_nonempty sep s : split_on sep s <> [].
Proof. destruct s as [|c s]; simpl; [done|]. case_decide; [done|]. by destruct (split_on sep s). Qed.

(** Splitting and joining with the same separator is the identity. *)
Lemma join_split sep s : join_with sep (split_on sep s) = s.
Proof.
  induction s as [|c s IH]; simpl; [done|].
  pose proof (split_on_nonempty sep s) as Hne.
  case_decide as Hc; destruct (split_on sep s) as [|p ps] eqn:Hs; try done.
  - rewrite Hc, <-IH. done.
  - rewrite <-IH. by destruct ps.
Qed.

(** ** Lexicographic order *)

Lemma memcmp_refl a : memcmp a a = Eq.
Proof. induction a as [|x a IH]; simpl; [done|]. by rewrite Z.compare_refl. Qed.

Lemma memcmp_eq a b : memcmp a b = Eq -> a = b.
Proof.
  revert b. induction a as [|x a IH]; intros [|y b]; simpl; try done.
  destruct (Z.compare_spec x y); try done. intros H'%IH. by subst.
Qed.

Lemma memcmp_lt_trans a b c : memcmp a b = Lt -> memcmp b c = Lt -> memcmp a c = Lt.
Proof.
  revert b c. induction a as [|x a IH]; intros [|y b] [|z c]; simpl; try done.
  destruct (Z.compare_spec x y) as [->|Hxy|Hxy]; [| |done];
    destruct (Z.compare_spec y z) as [->|Hyz|Hyz]; try done.
  - apply IH.
  - by rewrite (proj2 (Z.compare_lt_iff x z)).
  - by rewrite (proj2 (Z.compare_lt_iff x z)) by lia.
Qed.

Lemma memcmp_app_prefix p a b : memcmp (p ++ a) (p ++ b) = memcmp a b.
Proof. induction p as [|x p IH]; simpl; [done|]. by rewrite Z.compare_refl. Qed.

Lemma memcmp_prefix_le p a : memcmp p (p ++ a) <> Gt.
Proof.
  rewrite <-(app_nil_r p) at 1. rewrite memcmp_app_prefix. by destruct a.
Qed.

(** Comparison of strings is [memcmp] of their bytes. *)
Lemma string_compare_memcmp s t : String.compare s t = memcmp (as_bytes s) (as_bytes t).
Proof.
  revert t. induction s as [|c s IH]; intros [|d t]; simpl; try done.
  unfold Ascii.compare, byte_of. rewrite N2Z.inj_compare.
  destruct (N_of_ascii c ?= N_of_ascii d)%N; [apply IH | done | done].
Qed.

(** ** Prefixes *)

(** [str::strip_prefix] *)
Fixpoint str_strip_prefix (prefix s : string) : option string :=
  match prefix, s with
  | EmptyString, _ => Some s
  | String a p, String b s' => if decide (a = b) then str_strip_prefix p s' else None
  | String _ _, EmptyString => None
  end.

Lemma str_strip_prefix_app p s : str_strip_prefix p (p +:+ s) = Some s.
Proof.
  induction p as [|a p IH]; [done|]. change (String a p +:+ s) with (String a (p +:+ s)). simpl.
  by rewrite decide_True.
Qed.

Lemma str_strip_prefix_Some p s t : str_strip_prefix p s = Some t -> s = p +:+ t.
Proof.
  revert s. induction p as [|a p IH]; intros s; simpl; [by intros [= ->]|].
  destruct s as [|b s]; [done|]. case_decide; [|done]. intros ->%IH. by subst.
Qed.

(** ** Sorted lists *)

Lemma sort_by_In {A} (cmp : A -> A -> comparison) (l : list A) x : In x (sort_by cmp l) <-> In x l.
Proof.
  induction l as [|a l IH]; simpl; [done|].
  assert (Hins : forall b l, In x (insert_by cmp b l) <-> b = x \/ In x l).
  { clear. intros b l. induction l as [|c l IH]; simpl; [done|].
    destruct (cmp b c); simpl; rewrite ?IH; tauto. }
  by rewrite Hins, IH.
Qed.

Lemma sort_by_key_In {A} (key : A -> Z) (l : list A) x : In x (sort_by_key key l) <-> In x l.
Proof.
  induction l as [|a l IH]; simpl; [done|].
  assert (Hins : forall b l, In x (insert_by_key key b l) <-> b = x \/ In x l).
  { clear. intros b l. induction l as [|c l IH]; simpl; [done|].
    destruct (_ <=? _)%Z; simpl; rewrite ?IH; tauto. }
  by rewrite Hins, IH.
Qed.

Lemma sort_by_key_length {A} (key : A -> Z) (l : list A) : length (sort_by_key key l) = length l.
Proof.
  induction l as [|a l IH]; simpl; [done|].
  assert (Hins : forall b l, length (insert_by_key key b l) = S (length l)).
  { clear. intros b l. induction l as [|c l IH]; simpl; [done|]. destruct (_ <=? _)%Z; simpl; lia. }
  by rewrite Hins, IH.
Qed.

Lemma filter_length_mono {A} (p q : A -> bool) (l : list A) :
  (forall x, p x = true -> q x = true) -> length (List.filter p l) <= length (List.filter q l).
Proof.
  intros Hpq. induction l as [|a l IH]; simpl; [done|]. pose proof (Hpq a).
  destruct (p a); [rewrite H by done; simpl; lia|]. destruct (q a); simpl; lia.
Qed.

Section Sorting.
Context {A : Type} (R : A -> A -> Prop).
Hypothesis R_trans : forall a b c, R a b -> R b c -> R a c.
Hypothesis R_irrefl : forall a, ~ R a a.

(** A strictly sorted list is determined by its elements. *)
Lemma sorted_unique (l1 l2 : list A) :
  StronglySorted R l1 -> StronglySorted R l2 -> (forall x, In x l1 <-> In x l2) -> l1 = l2.
Proof.
  revert l2. induction l1 as [|a l1 IH]; intros [|b l2] H1 H2 Hin; [done| | |].
  - exfalso. apply (proj2 (Hin b)). by left.
  - exfalso. apply (proj1 (Hin a)). by left.
  - apply StronglySorted_inv in H1 as [H1 Ha], H2 as [H2 Hb]. rewrite List.Forall_forall in Ha, Hb.
    assert (a = b) as ->.
    { destruct (proj1 (Hin a) (or_introl eq_refl)) as [|Hb2]; [done|].
      destruct (proj2 (Hin b) (or_introl eq_refl)) as [|Ha1]; [done|].
      exfalso. apply (R_irrefl a). by apply (R_trans _ b); [apply Ha|apply Hb]. }
    f_equal. apply IH; [done..|]. intros x. specialize (Hin x). simpl in Hin. split; intros Hx.
    + destruct (proj1 Hin (or_intror Hx)) as [<-|]; [|done]. exfalso. by apply (R_irrefl b), Ha.
    + destruct (proj2 Hin (or_intror Hx)) as [<-|]; [|done]. exfalso. by apply (R_irrefl b), Hb.
Qed.

Lemma sorted_filter (p : A -> bool) (l : list A) : StronglySorted R l -> StronglySorted R (List.filter p l).
Proof.
  induction 1 as [|a l Hl IH Ha]; simpl; [constructor|]. destruct (p a); [|done]. constructor; [done|].
  rewrite List.Forall_forall in *. intros x [Hx _]%filter_In. by apply Ha.
Qed.

Lemma sorted_NoDup (l : list A) : StronglySorted R l -> NoDup l.
Proof.
  induction 1 as [|a l Hl IH Ha]; constructor; [|done]. rewrite List.Forall_forall in Ha.
  intros Hin%list_elem_of_In. by apply (R_irrefl a), Ha.
Qed.

Variable cmp : A -> A -> comparison.
Hypothesis cmp_lt : forall a b, cmp a b = Lt <-> R a b.
Hypothesis cmp_gt : forall a b, cmp a b = Gt <-> R b a.

(** Insertion sort sorts strictly when no two elements compare equal. *)
Lemma sort_by_sorted (l : list A) :
  (forall a b, In a l -> In b l -> cmp a b = Eq -> a = b) -> List.NoDup l -> StronglySorted R (sort_by cmp l).
Proof.
  intros Heq Hnd. induction l as [|a l IH]; cbn [sort_by foldr]; [constructor|].
  apply NoDup_cons_iff in Hnd as [Ha Hnd].
  assert (Hs : StronglySorted R (sort_by cmp l)) by (apply IH; [|done]; intros; apply Heq; [by right..|done]).
  assert (Hout : forall x, In x (sort_by cmp l) -> cmp a x <> Eq).
  { intros x Hx E. apply sort_by_In in Hx. apply Ha.
    by rewrite (Heq a x (or_introl eq_refl) (or_intror Hx) E). }
  clear IH Ha Hnd Heq. fold (sort_by cmp l). induction Hs as [|b r Hr IH Hb]; cbn [insert_by].
  { repeat constructor. }
  destruct (cmp a b) eqn:E.
  - exfalso. apply (Hout b); [by left|done].
  - apply cmp_lt in E. constructor; [by constructor|]. constructor; [done|].
    rewrite List.Forall_forall in *. intros x Hx. by apply (R_trans _ b); [|apply Hb].
  - apply cmp_gt in E. constructor.
    + apply IH. intros x Hx. apply Hout. by right.
    + rewrite List.Forall_forall in *. intros x Hx.
      assert (Hx' : a = x \/ In x r).
      { clear -Hx. induction r as [|c r IHr]; simpl in *; [tauto|]. destruct (cmp a c); simpl in Hx; tauto. }
      destruct Hx' as [<-|Hx']; [done|by apply Hb].
Qed.
End Sorting.

(** The order of ids. *)
Definition id_lt (a b : string) : Prop := String.compare a b = Lt.

Lemma id_lt_trans a b c : id_lt a b -> id_lt b c -> id_lt a c.
Proof.
  unfold id_lt. rewrite !string_compare_memcmp. generalize (as_bytes a) (as_bytes b) (as_bytes c). clear.
  intros x. induction x as [|u x IH]; intros [|v y] [|w z]; simpl; try done.
  intros H1 H2. destruct (Z.compare_spec u v), (Z.compare_spec v w); subst; try done.
  - rewrite Z.compare_refl. by eapply IH.
  - by rewrite (proj2 (Z.compare_lt_iff v w)).
  - by rewrite (proj2 (Z.compare_lt_iff u w)).
  - by rewrite (proj2 (Z.compare_lt_iff u w)) by lia.
Qed.

Lemma id_lt_irrefl a : ~ id_lt a a.
Proof.
  unfold id_lt. rewrite string_compare_memcmp. induction (as_bytes a) as [|u x IH]; simpl; [done|].
  by rewrite Z.compare_refl.
Qed.

Lemma id_gt a b : String.compare a b = Gt <-> id_lt b a.
Proof. unfold id_lt. rewrite (String.compare_antisym a b). by destruct (String.compare b a). Qed.
