(* ===== verification/ServerGuards.v ===== *)
(** * Request guards of the server
    ([crates/axon-server/src/rate_limit.rs], [idempotency.rs])

    The sliding-window write limiter and the store of idempotency keys.  Both
    keep their state behind a mutex, so their operations run one at a time;
    instants are nanoseconds of the monotonic clock. *)

From S2P Require Import Prelude.
From stdpp Require Import sorting.

Definition NANOS_PER_SEC : Z := 1000000000.

(** ** Write rate limiter *)

Record RateLimitConfig : Type := {
  rl_max_writes : Z;
  rl_window : Z
}.

(** [RateLimitConfig::default] *)
Definition rate_limit_default : RateLimitConfig :=
  {| rl_max_writes := 1000; rl_window := 60 * NANOS_PER_SEC |}.

Section RateLimit.
Variable config : RateLimitConfig.

(** The earliest instant the platform can represent, below which
    [Instant::checked_sub] fails. *)
Variable instant_min : Z.

Abbreviation Windows := (gmap string (list Z)) (only parsing).

(** [now.checked_sub(window).unwrap_or(now)] *)
Definition cutoff_at (now : Z) : Z :=
  if (instant_min <=? now - rl_window config)%Z then (now - rl_window config)%Z else now.

(** [while front < cutoff { pop_front }] *)
Fixpoint prune (cutoff : Z) (window : list Z) : list Z :=
  match window with
  | ts :: rest => if (ts <? cutoff)%Z then prune cutoff rest else window
  | [] => []
  end.

(** Whole seconds, rounded up. *)
Definition ceil_secs (nanos : Z) : Z :=
  (nanos / NANOS_PER_SEC + (if 0 <? nanos mod NANOS_PER_SEC then 1 else 0))%Z.

(** [WriteRateLimiter::check_at]: the windows after the call, and the seconds to
    wait when the write is refused. *)
Definition check_at (windows : Windows) (actor : string) (now : Z) : Windows * option Z :=
  let window := prune (cutoff_at now) (default [] (windows !! actor)) in
  if (rl_max_writes config <=? Z.of_nat (length window))%Z
  then
    let oldest := match window with ts :: _ => ts | [] => now end in
    let expires_at := (oldest + rl_window config)%Z in
    let retry_after := if (now <? expires_at)%Z then (expires_at - now)%Z else NANOS_PER_SEC in
    (<[actor := window]> windows, Some (ceil_secs retry_after))
  else (<[actor := window ++ [now]]> windows, None).

(** *** Runs of the limiter *)

(** The writes [(actor, time)] that were accepted, oldest first. *)
Fixpoint accepted (windows : Windows) (calls : list (string * Z)) : list (string * Z) :=
  match calls with
  | [] => []
  | (actor, now) :: rest =>
      let '(windows', refused) := check_at windows actor now in
      match refused with
      | Some _ => accepted windows' rest
      | None => (actor, now) :: accepted windows' rest
      end
  end.

Fixpoint run_checks (windows : Windows) (calls : list (string * Z)) : Windows :=
  match calls with
  | [] => windows
  | (actor, now) :: rest => run_checks (fst (check_at windows actor now)) rest
  end.

(** The times of an actor's writes from [from] on. *)
Definition writes_since (actor : string) (from : Z) (ws : list (string * Z)) : list Z :=
  map snd (List.filter (fun w => bool_decide (fst w = actor) && (from <=? snd w)%Z) ws).

(** What the limiter counts: the actor's accepted writes in the window that ends
    now. *)
Definition recent (actor : string) (now : Z) (ws : list (string * Z)) : nat :=
  length (writes_since actor (now - rl_window config) ws).

(** The state after the accepted writes [ws], none later than [last]: each window
    holds the actor's writes from some point on, no later than the start of the
    window that ends at [last]. *)
Record windows_ok (windows : Windows) (last : Z) (ws : list (string * Z)) : Prop := {
  wok_past : forall w, In w ws -> (snd w <= last)%Z;
  wok_sorted : StronglySorted Z.le (map snd ws);
  wok_window : forall actor, exists from, (from <= last - rl_window config)%Z /\
    default [] (windows !! actor) = writes_since actor from ws;
  wok_limit : forall actor, (Z.of_nat (recent actor last ws) <= rl_max_writes config)%Z
}.

Lemma prune_sorted cutoff l :
  StronglySorted Z.le l -> prune cutoff l = List.filter (fun t => (cutoff <=? t)%Z) l.
Proof.
  induction 1 as [|t l Hl IH Ht]; cbn [prune List.filter]; [done|].
  destruct (Z.ltb_spec t cutoff), (Z.leb_spec cutoff t); try lia; [done|].
  f_equal. symmetry. apply filter_all. intros u Hu.
  pose proof (proj1 (List.Forall_forall _ _) Ht u Hu). lia.
Qed.

Lemma writes_since_later actor from to ws :
  (from <= to)%Z ->
  List.filter (fun t => (to <=? t)%Z) (writes_since actor from ws) = writes_since actor to ws.
Proof.
  intros Hft. unfold writes_since. induction ws as [|[a t] ws IH]; cbn [List.filter map]; [done|].
  cbn [fst snd]. destruct (bool_decide (a = actor)); cbn [andb]; [|exact IH].
  destruct (Z.leb_spec from t), (Z.leb_spec to t); try lia; cbn [map List.filter snd]; [| |exact IH].
  - destruct (Z.leb_spec to t); [|lia]. by rewrite IH.
  - destruct (Z.leb_spec to t); [lia|]. exact IH.
Qed.

Lemma writes_since_sorted actor from ws :
  StronglySorted Z.le (map snd ws) -> StronglySorted Z.le (writes_since actor from ws).
Proof.
  unfold writes_since. induction ws as [|[a t] ws IH]; cbn [map List.filter]; [constructor|].
  intros Hs. apply StronglySorted_inv in Hs as [Hs Ht]. cbn [fst snd].
  destruct (_ && _); [|auto]. cbn [map snd]. constructor; [auto|].
  apply List.Forall_forall. intros u Hu. apply in_map_iff in Hu as ([b v] & <- & [Hv _]%List.filter_In).
  apply (proj1 (List.Forall_forall _ _) Ht). apply in_map_iff. by exists (b, v).
Qed.

Lemma writes_since_app actor from ws ws' :
  writes_since actor from (ws ++ ws') = writes_since actor from ws ++ writes_since actor from ws'.
Proof. unfold writes_since. by rewrite List.filter_app, map_app. Qed.

Lemma recent_later actor last last' ws :
  (last <= last')%Z -> recent actor last' ws <= recent actor last ws.
Proof.
  intros Hl. unfold recent.
  rewrite <-(writes_since_later actor (last - rl_window config) (last' - rl_window config)) by lia.
  apply List.filter_length_le.
Qed.

Lemma windows_ok_later windows last last' ws :
  (last <= last')%Z -> windows_ok windows last ws -> windows_ok windows last' ws.
Proof.
  intros Hl [Hp Hs Hw Hm]. split; [|done| |].
  - intros w Hin. specialize (Hp w Hin). lia.
  - intros actor. destruct (Hw actor) as (from & Hf & Heq). exists from. split; [lia | done].
  - intros actor. pose proof (recent_later actor last last' ws Hl). specialize (Hm actor). lia.
Qed.

Definition written (refused : option Z) (actor : string) (now : Z) : list (string * Z) :=
  match refused with None => [(actor, now)] | Some _ => [] end.

Lemma sorted_snoc ws (actor : string) (now : Z) :
  StronglySorted Z.le (map snd ws) -> (forall w, In w ws -> (snd w <= now)%Z) ->
  StronglySorted Z.le (map snd (ws ++ [(actor, now)])).
Proof.
  induction ws as [|[a t] ws IH]; cbn [app map snd]; intros Hs Hle; [by repeat constructor|].
  apply StronglySorted_inv in Hs as [Hs Ht]. constructor.
  - apply IH; [done|]. intros w Hw. apply Hle. by right.
  - rewrite map_app. apply Forall_app. split; [exact Ht|]. repeat constructor.
    exact (Hle (a, t) (or_introl eq_refl)).
Qed.

Lemma writes_since_now actor from (now : Z) :
  (from <= now)%Z -> writes_since actor from [(actor, now)] = [now].
Proof.
  intros Hf. unfold writes_since. cbn [List.filter fst snd]. rewrite bool_decide_true by done.
  by destruct (Z.leb_spec from now); [|lia].
Qed.

Lemma writes_since_other actor other from (now : Z) :
  actor <> other -> writes_since actor from [(other, now)] = [].
Proof.
  intros Hne. unfold writes_since. cbn [List.filter fst snd]. by rewrite bool_decide_false by congruence.
Qed.

Lemma check_at_step windows last ws actor now :
  (0 <= rl_window config)%Z ->
  windows_ok windows last ws -> (last <= now)%Z -> (instant_min <= now - rl_window config)%Z ->
  let '(windows', refused) := check_at windows actor now in
  windows_ok windows' now (ws ++ written refused actor now) /\
  (refused = None <-> (Z.of_nat (recent actor now ws) < rl_max_writes config)%Z).
Proof.
  intros Hwin Hok Hn Hrep. pose proof Hok as [Hp Hs Hw Hm].
  destruct (Hw actor) as (from & Hf & Heq). unfold check_at, cutoff_at.
  destruct (Z.leb_spec instant_min (now - rl_window config)); [|lia].
  rewrite Heq, (prune_sorted _ _ (writes_since_sorted actor from ws Hs)),
    writes_since_later by lia.
  fold (recent actor now ws).
  assert (Hpast : forall w, In w ws -> (snd w <= now)%Z) by (intros w Hin; specialize (Hp w Hin); lia).
  destruct (Z.leb_spec (rl_max_writes config) (Z.of_nat (recent actor now ws))); cbn [written].
  - split; [|split; [done | lia]]. rewrite app_nil_r.
    split; [done | done | | by apply (windows_ok_later windows last now ws Hn Hok)]. intros b.
    destruct (decide (b = actor)) as [->|Hb].
    + exists (now - rl_window config)%Z. rewrite lookup_insert_eq. split; [lia | done].
    + destruct (Hw b) as (f & Hfl & Hfe). exists f. rewrite lookup_insert_ne by congruence.
      split; [lia | done].
  - split; [|done]. split.
    + intros w [Hin|[<-|[]]]%in_app_or; [auto | simpl; lia].
    + by apply sorted_snoc.
    + intros b. destruct (decide (b = actor)) as [->|Hb].
      * exists (now - rl_window config)%Z. rewrite lookup_insert_eq, writes_since_app, writes_since_now by lia.
        split; [lia | done].
      * destruct (Hw b) as (f & Hfl & Hfe). exists f.
        rewrite lookup_insert_ne, writes_since_app, writes_since_other by congruence.
        rewrite app_nil_r. split; [lia | done].
    + intros b. unfold recent. rewrite writes_since_app, length_app. destruct (decide (b = actor)) as [->|Hb].
      * rewrite writes_since_now by lia. unfold recent in *. simpl. lia.
      * rewrite writes_since_other by congruence. pose proof (recent_later b last now ws Hn).
        specialize (Hm b). unfold recent in *. simpl. lia.
Qed.

Lemma check_at_accepted windows actor now rest :
  accepted windows ((actor, now) :: rest) =
    written (snd (check_at windows actor now)) actor now ++
    accepted (fst (check_at windows actor now)) rest.
Proof. cbn [accepted]. by destruct (check_at windows actor now) as [w' [r|]]. Qed.

Lemma accepted_app windows calls calls' :
  accepted windows (calls ++ calls') = accepted windows calls ++ accepted (run_checks windows calls) calls'.
Proof.
  revert windows. induction calls as [|[actor t] calls IH]; intros windows; [done|].
  cbn [app]. rewrite !check_at_accepted. cbn [run_checks]. by rewrite IH, app_assoc.
Qed.

Lemma run_checks_ok windows last ws calls :
  (0 <= rl_window config)%Z -> windows_ok windows last ws ->
  StronglySorted Z.le (last :: map snd calls) ->
  Forall (fun c => (instant_min <= snd c - rl_window config)%Z) calls ->
  forall now, (last <= now)%Z -> Forall (fun c => (snd c <= now)%Z) calls ->
  windows_ok (run_checks windows calls) now (ws ++ accepted windows calls).
Proof.
  intros Hwin Hok Hs Hrep now Hn Hall. revert windows last ws Hok Hs Hn Hrep Hall.
  induction calls as [|[actor t] calls IH]; intros windows last ws Hok Hs Hn Hrep Hall.
  - cbn [accepted run_checks]. rewrite app_nil_r. by eapply windows_ok_later.
  - inversion Hrep as [|? ? Hr Hrs]; subst. inversion Hall as [|? ? Ht Hts]; subst. cbn [map snd] in *.
    apply StronglySorted_inv in Hs as [Hs Hl]. inversion Hl; subst.
    pose proof (check_at_step windows last ws actor t Hwin Hok ltac:(lia) Hr) as Hstep.
    rewrite check_at_accepted. cbn [run_checks].
    destruct (check_at windows actor t) as [w' r]. destruct Hstep as [Hok' _]. cbn [fst snd].
    rewrite app_assoc. by apply (IH w' t).
Qed.

(** The write limiter is an exact sliding window: when the calls come in the
    order of their times, a write is admitted if and only if the actor has had
    fewer than the configured number of admitted writes in the window that ends
    at the call, whatever the other actors did; so an actor never has more
    admitted writes in a window than the limit. *)
Theorem rate_limit_exact (calls : list (string * Z)) (actor : string) (now : Z)
    (Hwindow : (0 <= rl_window config)%Z) (Hlimit : (0 <= rl_max_writes config)%Z)
    (Hsorted : StronglySorted Z.le (map snd (calls ++ [(actor, now)])))
    (Hinstants : Forall (fun c => (instant_min <= snd c - rl_window config)%Z) (calls ++ [(actor, now)])) :
  (snd (check_at (run_checks ∅ calls) actor now) = None <->
   (Z.of_nat (recent actor now (accepted ∅ calls)) < rl_max_writes config)%Z) /\
  (Z.of_nat (recent actor now (accepted ∅ (calls ++ [(actor, now)]))) <= rl_max_writes config)%Z.
Proof.
  set (first := match calls with c :: _ => snd c | [] => now end).
  assert (Hinit : windows_ok ∅ first []).
  { split; [done | constructor | | intros b; unfold recent; simpl; lia].
    intros b. exists (first - rl_window config)%Z. by rewrite lookup_empty. }
  apply Forall_app in Hinstants as [Hreps Hrep]. inversion Hrep as [|? ? Hrep1 _]; subst.
  rewrite map_app in Hsorted. apply StronglySorted_app in Hsorted as (Hle & Hs & _).
  assert (Hpast : Forall (fun c => (snd c <= now)%Z) calls).
  { apply List.Forall_forall. intros c Hc.
    refine (Hle (snd c) now _ _); [apply list_elem_of_In; by apply in_map | by left]. }
  assert (Hfirst : (first <= now)%Z /\ StronglySorted Z.le (first :: map snd calls)).
  { unfold first. destruct calls as [|c calls]; [by repeat constructor; lia|].
    inversion Hpast; subst. split; [done|]. constructor; [exact Hs|]. cbn [map].
    apply StronglySorted_inv in Hs as [_ Hf]. constructor; [lia | exact Hf]. }
  destruct Hfirst as [Hfn Hfs].
  pose proof (run_checks_ok ∅ first [] calls Hwindow Hinit Hfs Hreps now Hfn Hpast) as Hok.
  pose proof (check_at_step _ _ _ actor now Hwindow Hok ltac:(lia) Hrep1) as Hstep.
  rewrite accepted_app. destruct (check_at (run_checks ∅ calls) actor now) as [w' r] eqn:Hc.
  destruct Hstep as [Hok' Hiff]. split; [exact Hiff|].
  rewrite check_at_accepted, Hc. cbn [fst snd accepted]. rewrite app_nil_r. apply (wok_limit _ _ _ Hok').
Qed.
End RateLimit.

(** ** Idempotency keys *)

(** [DEFAULT_IDEMPOTENCY_TTL] *)
Definition DEFAULT_IDEMPOTENCY_TTL : Z := 5 * 60 * NANOS_PER_SEC.

Section Idempotency.
Context {R : Type}.

Inductive ReservationResult : Type :=
| Reserved
| AlreadyCached (response : R)
| InFlight (retry_after_ms : Z).

Inductive EntryStatus : Type :=
| Pending
| Complete (response : R).

Record IdempotencyEntry : Type := {
  ie_status : EntryStatus;
  ie_expires_at : Z
}.

Abbreviation Entries := (gmap (string * string) IdempotencyEntry) (only parsing).

Variable ttl : Z.

(** [evict_expired_locked] *)
Definition evict_expired_locked (now : Z) (entries : Entries) : Entries :=
  filter (fun kv : (string * string) * IdempotencyEntry => (now < ie_expires_at kv.2)%Z) entries.

(** [IdempotencyStore::evict_expired]: the entries kept and the number removed. *)
Definition evict_expired (now : Z) (entries : Entries) : Entries * nat :=
  let kept := evict_expired_locked now entries in (kept, size entries - size kept).

(** [IdempotencyStore::try_reserve] *)
Definition try_reserve (now : Z) (db_id key : string) (entries : Entries)
  : Entries * ReservationResult :=
  let entries := evict_expired_locked now entries in
  match entries !! (db_id, key) with
  | Some e =>
      match ie_status e with
      | Pending => (entries, InFlight (wrap64 (ttl / 1000000)))
      | Complete response => (entries, AlreadyCached response)
      end
  | None =>
      (<[(db_id, key) := {| ie_status := Pending; ie_expires_at := now + ttl |}]> entries, Reserved)
  end.

(** [IdempotencyStore::store_response] *)
Definition store_response (now : Z) (db_id key : string) (response : R) (entries : Entries) : Entries :=
  <[(db_id, key) := {| ie_status := Complete response; ie_expires_at := now + ttl |}]> entries.

(** [IdempotencyStore::release] *)
Definition release (db_id key : string) (entries : Entries) : Entries :=
  match entries !! (db_id, key) with
  | Some e =>
      match ie_status e with
      | Pending => delete (db_id, key) entries
      | Complete _ => entries
      end
  | None => entries
  end.

(** *** Requests on the store *)

Inductive IdemOp : Type :=
| IReserve (now : Z) (db_id key : string)
| IStore (now : Z) (db_id key : string) (response : R)
| IRelease (db_id key : string)
| IEvict (now : Z).

Definition run_idem (entries : Entries) (op : IdemOp) : Entries :=
  match op with
  | IReserve now db key => fst (try_reserve now db key entries)
  | IStore now db key r => store_response now db key r entries
  | IRelease db key => release db key entries
  | IEvict now => fst (evict_expired now entries)
  end.

(** The operation comes before the deadline and does not finish the request
    [k]. *)
Definition leaves_key (k : string * string) (deadline : Z) (op : IdemOp) : Prop :=
  match op with
  | IReserve now _ _ | IEvict now => (now < deadline)%Z
  | IStore _ db key _ | IRelease db key => (db, key) <> k
  end.

Lemma evict_keeps (now : Z) (k : string * string) (e : IdempotencyEntry) (entries : Entries) :
  entries !! k = Some e -> (now < ie_expires_at e)%Z -> evict_expired_locked now entries !! k = Some e.
Proof. intros Hk Hn. unfold evict_expired_locked. by apply map_lookup_filter_Some. Qed.

Lemma run_idem_keeps (k : string * string) (e : IdempotencyEntry) (op : IdemOp) (entries : Entries) :
  entries !! k = Some e -> leaves_key k (ie_expires_at e) op -> run_idem entries op !! k = Some e.
Proof.
  intros Hk Hop. destruct op as [now db key|now db key r|db key|now]; cbn [run_idem leaves_key] in *.
  - unfold try_reserve. pose proof (evict_keeps now k e entries Hk Hop) as Hkept.
    destruct (evict_expired_locked now entries !! (db, key)) as [e'|] eqn:He.
    + by destruct (ie_status e').
    + cbn [fst]. rewrite lookup_insert_ne; [done|]. intros Heq. rewrite Heq in He. congruence.
  - unfold store_response. by rewrite lookup_insert_ne.
  - unfold release. destruct (entries !! (db, key)) as [e'|]; [|done].
    destruct (ie_status e'); [|done]. by rewrite lookup_delete_ne.
  - by apply evict_keeps.
Qed.

Lemma run_idems_keep (k : string * string) (e : IdempotencyEntry) (ops : list IdemOp) (entries : Entries) :
  entries !! k = Some e -> Forall (leaves_key k (ie_expires_at e)) ops ->
  fold_left run_idem ops entries !! k = Some e.
Proof.
  intros Hk Hops. revert entries Hk. induction Hops as [|op ops Hop _ IH]; intros entries Hk; [done|].
  apply IH. by apply run_idem_keeps.
Qed.

(** Retried requests are not executed twice within the time to live: while
    a request holds its key no other request with the same key is admitted, and
    once its response is stored every retry gets that response, whatever other
    requests do in between; a request released after a failure can be retried at
    once. *)
Theorem idempotency_exact (entries : Entries) (db_id key : string) (now later : Z) (response : R)
    (ops : list IdemOp)
    (Hops : Forall (leaves_key (db_id, key) (now + ttl)) ops) (Hlater : (later < now + ttl)%Z) :
  (snd (try_reserve now db_id key entries) = Reserved ->
     let during := fold_left run_idem ops (fst (try_reserve now db_id key entries)) in
     snd (try_reserve later db_id key during) = InFlight (wrap64 (ttl / 1000000)) /\
     snd (try_reserve later db_id key (release db_id key during)) = Reserved) /\
  snd (try_reserve later db_id key
         (fold_left run_idem ops (store_response now db_id key response entries))) =
    AlreadyCached response.
Proof.
  split.
  - intros Hres during.
    assert (Hk : fst (try_reserve now db_id key entries) !! (db_id, key) =
      Some {| ie_status := Pending; ie_expires_at := now + ttl |}).
    { unfold try_reserve in *. destruct (evict_expired_locked now entries !! (db_id, key)) as [e|].
      - by destruct (ie_status e).
      - apply lookup_insert_eq. }
    pose proof (run_idems_keep _ _ ops _ Hk Hops) as Hd. fold during in Hd.
    split.
    + unfold try_reserve. by rewrite (evict_keeps later _ _ during Hd Hlater).
    + unfold release, try_reserve. rewrite Hd. cbn [ie_status].
      replace (evict_expired_locked later (delete (db_id, key) during) !! (db_id, key)) with
        (@None IdempotencyEntry); [done|].
      symmetry. unfold evict_expired_locked. apply map_lookup_filter_None. left. apply lookup_delete_eq.
  - assert (Hk : store_response now db_id key response entries !! (db_id, key) =
      Some {| ie_status := Complete response; ie_expires_at := now + ttl |}) by apply lookup_insert_eq.
    pose proof (run_idems_keep _ _ ops _ Hk Hops) as Hd. unfold try_reserve.
    by rewrite (evict_keeps later _ _ _ Hd Hlater).
Qed.
End Idempotency.

(** ** Examples *)

Definition two_per_minute : RateLimitConfig :=
  {| rl_max_writes := 2; rl_window := 60 * NANOS_PER_SEC |}.

Definition at_sec (n : Z) : Z := (100 + n) * NANOS_PER_SEC.

Definition busy_minute : list (string * Z) :=
  [("ann", at_sec 0); ("bob", at_sec 1); ("ann", at_sec 5)].

Lemma rate_limit_exact_witness :
  snd (check_at two_per_minute 0 (run_checks two_per_minute 0 ∅ busy_minute) "ann" (at_sec 15)) <> None /\
  recent two_per_minute "ann" (at_sec 15) (accepted two_per_minute 0 ∅ (busy_minute ++ [("ann", at_sec 15)])) <= 2.
Proof.
  destruct (rate_limit_exact two_per_minute 0 busy_minute "ann" (at_sec 15)) as [Hiff Hle].
  - done.
  - done.
  - unfold at_sec, NANOS_PER_SEC. cbn [busy_minute app map snd].
    repeat apply SSorted_cons; try apply SSorted_nil; repeat constructor; unfold at_sec, NANOS_PER_SEC; lia.
  - repeat constructor; unfold at_sec, two_per_minute, NANOS_PER_SEC; simpl; lia.
  - split; [|apply Nat2Z.inj_le; exact Hle]. rewrite Hiff. vm_compute. done.
Defined.

(** A refused client that waits exactly the announced time is refused again: a
    write counts until its age exceeds the window. *)
Lemma retry_after_one_short :
  let ws := run_checks two_per_minute 0 ∅ busy_minute in
  let r := check_at two_per_minute 0 ws "ann" (at_sec 15) in
  snd r = Some 45%Z /\ snd (check_at two_per_minute 0 (fst r) "ann" (at_sec 60)) = Some 1%Z.
Proof. by vm_compute. Qed.

Lemma idempotency_exact_witness :
  snd (try_reserve 60 30 "db" "k1"
         (fold_left (run_idem 60) [IReserve 10 "db" "k2"; IRelease "db" "k2"; IReserve 20 "db" "k1"]
            (store_response 60 0 "db" "k1" "ok" ∅))) = AlreadyCached "ok".
Proof.
  apply (idempotency_exact 60 ∅ "db" "k1" 0 30 "ok"
    [IReserve 10 "db" "k2"; IRelease "db" "k2"; IReserve 20 "db" "k1"]).
  - repeat constructor; simpl; try lia. congruence.
  - lia.
Defined.
