(* ===== verification/Json.v ===== *)
(** * JSON values

    [serde_json::Value] as the sources use it: an enum that the code matches
    on, with [get] on objects.  [serde_json::Number] is an opaque type of a
    third-party crate; its operations are the class [SerdeNumber], and what
    the code relies on is the class [SerdeNumberLaws]. *)

From S2P Require Import Prelude.

(** ** Numbers *)

(** A 64-bit float is its IEEE-754 bit pattern. *)
Definition f64 : Type := Z.

Definition f64_ok (b : f64) : bool := (0 <=? b)%Z && (b <? 2 ^ 64)%Z.

(** Neither infinite nor NaN: the exponent field is not all ones. *)
Definition f64_is_finite (b : f64) : bool :=
  negb (Z.land (Z.shiftr b 52) 2047 =? 2047)%Z.

Class SerdeNumber : Type := {
  number : Type;
  number_eqb : number -> number -> bool;
  number_as_i64 : number -> option Z;
  number_as_f64 : number -> option f64;
  number_of_i64 : Z -> number;
  number_of_f64 : f64 -> option number
}.

(** Documented behaviour of [serde_json::Number]: conversions from a machine
    number are read back unchanged, [from_f64] accepts exactly the finite
    values, and the readers return values of the width they name. *)
Class SerdeNumberLaws `{SerdeNumber} : Prop := {
  as_i64_of_i64 : forall z, i64_ok z = true -> number_as_i64 (number_of_i64 z) = Some z;
  as_f64_of_f64 : forall b n, number_of_f64 b = Some n -> number_as_f64 n = Some b;
  of_f64_finite : forall b, f64_ok b = true -> f64_is_finite b = true -> is_Some (number_of_f64 b);
  as_i64_range : forall n z, number_as_i64 n = Some z -> i64_ok z = true;
  as_f64_range : forall n b, number_as_f64 n = Some b -> f64_ok b = true /\ f64_is_finite b = true
}.

(** ** Values *)

Set Warnings "-register-all".

Inductive Value `{SerdeNumber} : Type :=
| Null
| Bool (b : bool)
| Number (n : number)
| JString (s : string)
| Array (items : list Value)
| Object (fields : list (string * Value)).

Section Values.
Context `{SerdeNumber}.

(** [Map::get]: a JSON object holds one value per key. *)
Fixpoint assoc_get {A} (k : string) (l : list (string * A)) : option A :=
  match l with
  | [] => None
  | (k', v) :: l' => if decide (k = k') then Some v else assoc_get k l'
  end.

(** [Value::get(key)]: [None] on anything but an object. *)
Definition value_get (v : Value) (key : string) : option Value :=
  match v with
  | Object fields => assoc_get key fields
  | _ => None
  end.

Definition as_str (v : Value) : option string :=
  match v with JString s => Some s | _ => None end.
Definition as_bool (v : Value) : option bool :=
  match v with Bool b => Some b | _ => None end.
Definition as_i64 (v : Value) : option Z :=
  match v with Number n => number_as_i64 n | _ => None end.
Definition as_f64 (v : Value) : option f64 :=
  match v with Number n => number_as_f64 n | _ => None end.
Definition as_array (v : Value) : option (list Value) :=
  match v with Array items => Some items | _ => None end.
Definition as_object (v : Value) : option (list (string * Value)) :=
  match v with Object fields => Some fields | _ => None end.
Definition is_null (v : Value) : bool :=
  match v with Null => true | _ => false end.

(** [PartialEq] of [Value]; numbers compare as the number crate says. *)
Fixpoint value_eqb (a b : Value) {struct a} : bool :=
  let fix list_eqb (xs ys : list Value) : bool :=
    match xs, ys with
    | [], [] => true
    | x :: xs', y :: ys' => value_eqb x y && list_eqb xs' ys'
    | _, _ => false
    end in
  let fix obj_eqb (xs ys : list (string * Value)) : bool :=
    match xs, ys with
    | [], [] => true
    | (k, x) :: xs', (l, y) :: ys' => bool_decide (k = l) && value_eqb x y && obj_eqb xs' ys'
    | _, _ => false
    end in
  match a, b with
  | Null, Null => true
  | Bool x, Bool y => Bool.eqb x y
  | Number x, Number y => number_eqb x y
  | JString x, JString y => bool_decide (x = y)
  | Array xs, Array ys => list_eqb xs ys
  | Object xs, Object ys => obj_eqb xs ys
  | _, _ => false
  end.
End Values.

(** ** A concrete number type

    Used to evaluate the model on examples: integers and floats kept apart,
    integers readable as floats only up to 2^53, where the conversion is
    exact. *)

Inductive simple_number : Type :=
| SInt (z : Z)
| SFloat (b : f64).

(** Bit pattern of an integer of magnitude below 2^53. *)
Definition f64_of_small (z : Z) : f64 :=
  if (z =? 0)%Z then 0%Z
  else
    let m := Z.abs z in
    let e := Z.log2 m in
    ((if (z <? 0)%Z then 2 ^ 63 else 0) + (e + 1023) * 2 ^ 52 + (m * 2 ^ (52 - e) - 2 ^ 52))%Z.

Definition simple_as_f64 (n : simple_number) : option f64 :=
  match n with
  | SInt z =>
      let b := f64_of_small z in
      if (Z.abs z <? 2 ^ 53)%Z && f64_ok b && f64_is_finite b then Some b else None
  | SFloat b => if f64_ok b && f64_is_finite b then Some b else None
  end.

#[export] Instance simple_serde_number : SerdeNumber := {|
  number := simple_number;
  number_eqb a b :=
    match a, b with
    | SInt x, SInt y => (x =? y)%Z
    | SFloat x, SFloat y => (x =? y)%Z
    | _, _ => false
    end;
  number_as_i64 n :=
    match n with SInt z => if i64_ok z then Some z else None | SFloat _ => None end;
  number_as_f64 := simple_as_f64;
  number_of_i64 z := SInt z;
  number_of_f64 b := if f64_ok b && f64_is_finite b then Some (SFloat b) else None
|}.

#[export] Instance simple_serde_laws : SerdeNumberLaws.
Proof.
  split; simpl.
  - intros z Hz. by rewrite Hz.
  - intros b n Hb. destruct (f64_ok b && f64_is_finite b) eqn:E; [|done].
    injection Hb as <-. simpl. by rewrite E.
  - intros b H1 H2. rewrite H1, H2. by eexists.
  - intros [z|b] z'; [|done]. destruct (i64_ok z) eqn:E; [|done]. by intros [= <-].
  - intros [z|b] b'; simpl.
    + destruct (_ && _ && _) eqn:E; [|done]. intros [= <-].
      apply andb_prop in E as [[_ E1]%andb_prop E2]. done.
    + destruct (_ && _) eqn:E; [|done]. intros [= <-]. by apply andb_prop in E.
Qed.

(** Integer literals of that type. *)
Definition jint (z : Z) : @Value simple_serde_number := @Number simple_serde_number (SInt z).
