(* ===== verification/Ids.v ===== *)
(** * Identifiers ([crates/axon-core/src/id.rs])

    Namespaces, qualified collection names, the manifest of reserved system
    collections and the audit subjects built from them. *)

From S2P Require Import Prelude.

Definition DEFAULT_DATABASE : string := "default".
Definition DEFAULT_SCHEMA : string := "default".

(** [CollectionId] and [EntityId] are newtypes over a string. *)
Abbreviation CollectionId := string (only parsing).
Abbreviation EntityId := string (only parsing).

Definition dot : ascii := Eval compute in Stdlib.Strings.Ascii.ascii_of_nat 46.

(** ** Namespaces *)

Record Namespace : Type := { ns_database : string; ns_schema : string }.

#[export] Instance Namespace_eq_dec : EqDecision Namespace.
Proof. solve_decision. Defined.
#[export] Instance Namespace_countable : Countable Namespace.
Proof.
  apply (inj_countable' (fun n => (ns_database n, ns_schema n))
           (fun '(d, s) => {| ns_database := d; ns_schema := s |})).
  by intros [].
Defined.

Definition default_ns : Namespace :=
  {| ns_database := DEFAULT_DATABASE; ns_schema := DEFAULT_SCHEMA |}.

(** [Namespace::qualify] *)
Definition qualify (ns : Namespace) (collection : string) : string :=
  ns_database ns +:+ String dot (ns_schema ns +:+ String dot collection).

(** [Namespace::parse_with_database] *)
Definition parse_with_database (name current_database : string) : Namespace * string :=
  match split_on dot name with
  | [p0] => ({| ns_database := current_database; ns_schema := DEFAULT_SCHEMA |}, p0)
  | [p0; p1] => ({| ns_database := current_database; ns_schema := p0 |}, p1)
  | p0 :: p1 :: rest => ({| ns_database := p0; ns_schema := p1 |}, join_with dot rest)
  | [] => ({| ns_database := ""; ns_schema := "" |}, "")
  end.

(** [Namespace::parse] *)
Definition parse (name : string) : Namespace * string :=
  parse_with_database name DEFAULT_DATABASE.

(** [Namespace::qualify_with_database] *)
Definition qualify_with_database (name current_database : string) : string :=
  let '(ns, collection) := parse_with_database name current_database in
  qualify ns collection.

(** ** Qualified collection identifiers *)

Record QualifiedCollectionId : Type := {
  q_namespace : Namespace;
  q_collection : CollectionId
}.

#[export] Instance Qualified_eq_dec : EqDecision QualifiedCollectionId.
Proof. solve_decision. Defined.
#[export] Instance Qualified_countable : Countable QualifiedCollectionId.
Proof.
  apply (inj_countable' (fun q => (q_namespace q, q_collection q))
           (fun '(n, c) => {| q_namespace := n; q_collection := c |})).
  by intros [].
Defined.

(** [QualifiedCollectionId::from_parts] *)
Definition from_parts (ns : Namespace) (c : CollectionId) : QualifiedCollectionId :=
  {| q_namespace := ns; q_collection := c |}.

(** [QualifiedCollectionId::qualified_name] *)
Definition qualified_name (q : QualifiedCollectionId) : string :=
  qualify (q_namespace q) (q_collection q).

(** Derived [Ord]: database, then schema, then collection. *)
Definition qualified_compare (a b : QualifiedCollectionId) : comparison :=
  match String.compare (ns_database (q_namespace a)) (ns_database (q_namespace b)) with
  | Eq =>
      match String.compare (ns_schema (q_namespace a)) (ns_schema (q_namespace b)) with
      | Eq => String.compare (q_collection a) (q_collection b)
      | c => c
      end
  | c => c
  end.

(** ** Reserved system collections *)

Inductive SystemCollectionClass : Type :=
| LinkForwardStore
| LinkReverseIndex
| CheckpointCursorStore
| MutationIntentAuditSubject
| BeadCatalog
| LegacyPolicyAlias.

#[export] Instance SystemCollectionClass_eq_dec : EqDecision SystemCollectionClass.
Proof. solve_decision. Defined.

Record SystemCollection : Type := {
  sc_name : string;
  sc_class : SystemCollectionClass
}.

Definition sys_links : SystemCollection :=
  {| sc_name := "__axon_links__"; sc_class := LinkForwardStore |}.
Definition sys_links_rev : SystemCollection :=
  {| sc_name := "__axon_links_rev__"; sc_class := LinkReverseIndex |}.
Definition sys_cdc_cursors : SystemCollection :=
  {| sc_name := "_cdc_cursors"; sc_class := CheckpointCursorStore |}.
Definition sys_mutation_intents : SystemCollection :=
  {| sc_name := "__mutation_intents"; sc_class := MutationIntentAuditSubject |}.
Definition sys_beads : SystemCollection :=
  {| sc_name := "__axon_beads__"; sc_class := BeadCatalog |}.
Definition sys_legacy_policies : SystemCollection :=
  {| sc_name := "__axon_policies__"; sc_class := LegacyPolicyAlias |}.

(** [SystemCollection::ALL] *)
Definition sys_all : list SystemCollection :=
  [sys_links; sys_links_rev; sys_cdc_cursors; sys_mutation_intents; sys_beads;
   sys_legacy_policies].

(** [SystemCollection::from_reserved_name] *)
Definition from_reserved_name (name : string) : option SystemCollection :=
  if decide (name = "__axon_links__") then Some sys_links
  else if decide (name = "__axon_links_rev__") then Some sys_links_rev
  else if decide (name = "_cdc_cursors") then Some sys_cdc_cursors
  else if decide (name = "__mutation_intents") then Some sys_mutation_intents
  else if decide (name = "__axon_beads__") then Some sys_beads
  else if decide (name = "__axon_policies__") then Some sys_legacy_policies
  else None.

(** [SystemCollection::from_collection_name] *)
Definition from_collection_name (name : string) : option SystemCollection :=
  from_reserved_name (snd (parse name)).

(** ** Audit subjects *)

Inductive AuditSubjectClass : Type :=
| UserCollection
| SystemCollectionSubject (c : SystemCollectionClass)
| StorageCatalog
| AuthCatalog
| AuditLogSubject
| Idempotency
| Projection.

Record AuditSubject : Type := { as_name : string; as_class : AuditSubjectClass }.

(** [AuditSubject::user_collection] *)
Definition user_collection (c : CollectionId) : option AuditSubject :=
  match from_reserved_name c with
  | Some _ => None
  | None => Some {| as_name := c; as_class := UserCollection |}
  end.

(** [AuditSubject::system_collection] *)
Definition system_collection (c : SystemCollection) : AuditSubject :=
  {| as_name := sc_name c; as_class := SystemCollectionSubject (sc_class c) |}.

(** ** Properties *)

(** No separator occurs in [s]. *)
Definition no_dot (s : string) : Prop := split_on dot s = [s].

Lemma split_on_app_dot s t :
  no_dot s -> split_on dot (s +:+ String dot t) = s :: split_on dot t.
Proof.
  unfold no_dot. induction s as [|c s IH]; intros Hs.
  - done.
  - rewrite string_app_cons. simpl in *. case_decide; [done|].
    pose proof (split_on_nonempty dot s) as Hne.
    destruct (split_on dot s) as [|p ps] eqn:E; [done|].
    injection Hs as -> ->. by rewrite IH.
Qed.

Lemma split_qualify ns c :
  no_dot (ns_database ns) -> no_dot (ns_schema ns) ->
  split_on dot (qualify ns c) = ns_database ns :: ns_schema ns :: split_on dot c.
Proof. intros Hd Hs. unfold qualify. by rewrite !split_on_app_dot. Qed.

(** Parsing a qualified name gives its parts back, whatever the current
    database: the collection part may contain dots, the namespace parts not. *)
Lemma parse_qualify ns c db :
  no_dot (ns_database ns) -> no_dot (ns_schema ns) ->
  parse_with_database (qualify ns c) db = (ns, c).
Proof.
  intros Hd Hs. unfold parse_with_database. rewrite split_qualify by done.
  pose proof (split_on_nonempty dot c). destruct (split_on dot c) as [|p ps] eqn:E; [done|].
  rewrite <-E, join_split. by destruct ns.
Qed.

Lemma parse_namespace_no_dot name db :
  no_dot db ->
  no_dot (ns_database (fst (parse_with_database name db))) /\
  no_dot (ns_schema (fst (parse_with_database name db))).
Proof.
  intros Hdb.
  assert (Hpieces : Forall no_dot (split_on dot name)).
  { clear. unfold no_dot. induction name as [|c s IH]; simpl.
    - by repeat constructor.
    - case_decide as Hc; [by constructor|].
      destruct (split_on dot s) as [|p ps]; [repeat constructor; simpl; by rewrite decide_False|].
      inversion IH as [|? ? Hp Hps]; subst. constructor; [|done].
      simpl. rewrite decide_False by done. by rewrite Hp. }
  unfold parse_with_database.
  destruct (split_on dot name) as [|p0 [|p1 [|p2 ps]]]; simpl;
    decompose_Forall_hyps; split;
    first [assumption | reflexivity].
Qed.

(** Only a reserved name is classified, and by its own entry. *)
Lemma from_reserved_name_spec name sc :
  from_reserved_name name = Some sc <-> In sc sys_all /\ sc_name sc = name.
Proof.
  unfold from_reserved_name, sys_all. split.
  - intros Hn. repeat case_decide; simplify_eq; simpl; tauto.
  - intros [Hin <-]. simpl in Hin. repeat destruct Hin as [<-|Hin]; try done.
Qed.

(** ** Claims *)

(** Qualifying a name and parsing the result is the identity for every
    name a caller can write: [qualify_with_database] yields a fully qualified
    name that parses to the same namespace and collection under any other
    request database, so a request-scoped name keeps its meaning once
    qualified. *)
Theorem qualify_parse_roundtrip (name db db' : string) (Hdb : no_dot db) :
  parse_with_database (qualify_with_database name db) db' = parse_with_database name db.
Proof.
  unfold qualify_with_database.
  destruct (parse_with_database name db) as [ns c] eqn:E.
  pose proof (parse_namespace_no_dot name db Hdb) as [H1 H2]. rewrite E in H1, H2.
  by apply parse_qualify.
Qed.

Lemma qualify_parse_roundtrip_witness :
  parse_with_database (qualify_with_database "billing.invoices" "acme") "other"
  = ({| ns_database := "acme"; ns_schema := "billing" |}, "invoices").
Proof.
  rewrite (qualify_parse_roundtrip "billing.invoices" "acme" "other"); [|reflexivity].
  reflexivity.
Defined.

(** The reserved-name manifest is sealed: a user audit subject can be built
    for a collection name exactly when the name is not the name of one of the
    six system collections, and a qualified spelling of a reserved name is
    still recognised as that system collection in every namespace. *)
Theorem reserved_names_sealed (c : CollectionId) :
  (user_collection c = None <-> exists sc, In sc sys_all /\ sc_name sc = c) /\
  (forall ns sc, no_dot (ns_database ns) -> no_dot (ns_schema ns) ->
     In sc sys_all -> from_collection_name (qualify ns (sc_name sc)) = Some sc).
Proof.
  split.
  - unfold user_collection. destruct (from_reserved_name c) as [sc|] eqn:E.
    + apply from_reserved_name_spec in E. split; [by exists sc | done].
    + split; [done|]. intros (sc & Hsc). apply from_reserved_name_spec in Hsc. congruence.
  - intros ns sc Hd Hs Hin. unfold from_collection_name, parse.
    rewrite parse_qualify by done. simpl. by apply from_reserved_name_spec.
Qed.
