(* ===== verification/Types.v ===== *)
(** * Core types ([crates/axon-core/src/types.rs], [error.rs])

    Entities, links, the error type and the injective [LinkKey] encoding that
    names a link row in the two link stores. *)

From S2P Require Import Prelude Json Ids.
From Stdlib Require Import Ascii.

(** ** Data *)

Section Data.
Context `{SerdeNumber}.

Record RuleViolation : Type := {
  rv_rule : string;
  rv_field : string;
  rv_message : string;
  rv_fix : option string;
  rv_gate : option string;
  rv_advisory : bool;
  rv_context : option Value
}.

Record GateResult : Type := {
  gr_gate : string;
  gr_pass : bool;
  gr_failures : list RuleViolation
}.

Record Entity : Type := {
  e_collection : CollectionId;
  e_id : EntityId;
  e_version : Z;
  e_data : Value;
  e_created_at_ns : option Z;
  e_updated_at_ns : option Z;
  e_created_by : option string;
  e_updated_by : option string;
  e_schema_version : option Z;
  e_gate_results : gmap string GateResult
}.

(** [Entity::new] *)
Definition entity_new (collection : CollectionId) (id : EntityId) (data : Value) : Entity := {|
  e_collection := collection;
  e_id := id;
  e_version := 1;
  e_data := data;
  e_created_at_ns := None;
  e_updated_at_ns := None;
  e_created_by := None;
  e_updated_by := None;
  e_schema_version := None;
  e_gate_results := empty
|}.

(** Struct-update syntax [Entity { collection, ..entity }]. *)
Definition with_collection (c : CollectionId) (e : Entity) : Entity := {|
  e_collection := c;
  e_id := e_id e;
  e_version := e_version e;
  e_data := e_data e;
  e_created_at_ns := e_created_at_ns e;
  e_updated_at_ns := e_updated_at_ns e;
  e_created_by := e_created_by e;
  e_updated_by := e_updated_by e;
  e_schema_version := e_schema_version e;
  e_gate_results := e_gate_results e
|}.

(** Struct-update syntax [Entity { version, ..entity }]. *)
Definition with_version (v : Z) (e : Entity) : Entity := {|
  e_collection := e_collection e;
  e_id := e_id e;
  e_version := v;
  e_data := e_data e;
  e_created_at_ns := e_created_at_ns e;
  e_updated_at_ns := e_updated_at_ns e;
  e_created_by := e_created_by e;
  e_updated_by := e_updated_by e;
  e_schema_version := e_schema_version e;
  e_gate_results := e_gate_results e
|}.

Record Link : Type := {
  l_source_collection : CollectionId;
  l_source_id : EntityId;
  l_target_collection : CollectionId;
  l_target_id : EntityId;
  l_link_type : string;
  l_metadata : Value
}.

Record PolicyDenial : Type := {
  pd_reason : string;
  pd_collection : string;
  pd_entity_id : option string;
  pd_field_path : option string;
  pd_policy : option string;
  pd_operation_index : option Z;
  pd_missing_index : option string;
  pd_cost_limit : option Z;
  pd_candidate_count : option Z
}.

(** The error enum; [Serialization] carries the text of the JSON crate's
    error. *)
Inductive AxonError : Type :=
| NotFound (msg : string)
| SchemaValidation (msg : string)
| ConflictingVersion (expected actual : Z) (current_entity : option Entity)
| AlreadyExists (msg : string)
| UniqueViolation (field value : string)
| InvalidArgument (msg : string)
| InvalidOperation (msg : string)
| LifecycleNotFound (lifecycle_name : string)
| InvalidTransition (lifecycle_name current_state target_state : string)
    (valid_transitions : list string)
| LifecycleFieldMissing (field : string)
| LifecycleStateInvalid (field : string) (actual : Value)
| Forbidden (msg : string)
| PolicyDenied (denial : PolicyDenial)
| StorageError (msg : string)
| Serialization (msg : string)
| RateLimitExceeded (actor : string) (retry_after_ms : Z)
| ScopeViolation (actor entity_id filter_field : string) (filter_value : Value).
End Data.

(** ** Link keys *)

(** A lower-case hexadecimal digit. *)
Definition hex_digit (d : Z) : ascii :=
  ascii_of_N (Z.to_N (if (d <? 10)%Z then 48 + d else 87 + d)).

(** [{:02x}] of a byte. *)
Definition hex_byte (b : Z) : string :=
  String (hex_digit (b / 16)) (String (hex_digit (b mod 16)) "").

(** [{:0wx}] of a number below [16^w]. *)
Fixpoint hex_fixed (w : nat) (n : Z) : string :=
  match w with
  | O => ""
  | S w' => String (hex_digit ((n / 16 ^ Z.of_nat w') mod 16)) (hex_fixed w' n)
  end.

Fixpoint hex_bytes (bs : list Z) : string :=
  match bs with
  | [] => ""
  | b :: bs' => hex_byte b +:+ hex_bytes bs'
  end.

Definition LINK_KEY_VERSION : string := "lk1".
Definition LINK_KEY_FORWARD : string := "f".
Definition LINK_KEY_REVERSE : string := "r".

(** [LinkKey::start] *)
Definition link_key_start (direction : string) : string :=
  LINK_KEY_VERSION +:+ direction +:+ "|".

(** What [LinkKey::push_component] writes for one component. *)
Definition component (value : string) : string :=
  hex_fixed 16 (Z.of_nat (length (as_bytes value))) +:+ ":" +:+ hex_bytes (as_bytes value) +:+ "|".

(** [LinkKey::push_component] *)
Definition push_component (encoded value : string) : string := encoded +:+ component value.

(** [LinkKey::from_components] *)
Definition from_components (direction : string) (components : list string) : string :=
  fold_left push_component components (link_key_start direction).

(** [LinkKey::forward_parts] *)
Definition forward_parts (source_collection source_id link_type target_collection target_id : string)
  : string :=
  from_components LINK_KEY_FORWARD
    [source_collection; source_id; link_type; target_collection; target_id].

(** [LinkKey::reverse_parts] *)
Definition reverse_parts (target_collection target_id source_collection source_id link_type : string)
  : string :=
  from_components LINK_KEY_REVERSE
    [target_collection; target_id; source_collection; source_id; link_type].

(** [LinkKey::forward_prefix] *)
Definition forward_prefix (source_collection source_id : string) (link_type : option string)
  : string :=
  let encoded := link_key_start LINK_KEY_FORWARD in
  let encoded := push_component encoded source_collection in
  let encoded := push_component encoded source_id in
  match link_type with
  | Some lt => push_component encoded lt
  | None => encoded
  end.

(** [LinkKey::reverse_prefix] *)
Definition reverse_prefix (target_collection target_id : string) : string :=
  let encoded := link_key_start LINK_KEY_REVERSE in
  let encoded := push_component encoded target_collection in
  push_component encoded target_id.

Section Links.
Context `{SerdeNumber}.

(** [LinkKey::forward] and [LinkKey::reverse] *)
Definition link_key_forward (l : Link) : string :=
  forward_parts (l_source_collection l) (l_source_id l) (l_link_type l)
    (l_target_collection l) (l_target_id l).
Definition link_key_reverse (l : Link) : string :=
  reverse_parts (l_target_collection l) (l_target_id l) (l_source_collection l)
    (l_source_id l) (l_link_type l).

(** [Link::storage_id] and [Link::rev_storage_id] *)
Definition storage_id (source_col source_id link_type target_col target_id : string) : EntityId :=
  forward_parts source_col source_id link_type target_col target_id.
Definition rev_storage_id (target_col target_id source_col source_id link_type : string)
  : EntityId :=
  reverse_parts target_col target_id source_col source_id link_type.

Definition links_collection : CollectionId := sc_name sys_links.
Definition links_rev_collection : CollectionId := sc_name sys_links_rev.

(** [serde_json::to_value(link)]: one object field per struct field; the
    map keeps its keys in order. *)
Definition link_to_value (l : Link) : Value :=
  Object [("link_type", JString (l_link_type l));
          ("metadata", l_metadata l);
          ("source_collection", JString (l_source_collection l));
          ("source_id", JString (l_source_id l));
          ("target_collection", JString (l_target_collection l));
          ("target_id", JString (l_target_id l))].

(** [serde_json::from_value::<Link>]: every field but [metadata] is
    required, [metadata] defaults to null. *)
Definition link_from_value (v : Value) : option Link :=
  match value_get v "source_collection" ≫= as_str,
        value_get v "source_id" ≫= as_str,
        value_get v "target_collection" ≫= as_str,
        value_get v "target_id" ≫= as_str,
        value_get v "link_type" ≫= as_str with
  | Some sc, Some si, Some tc, Some ti, Some lt =>
      Some {| l_source_collection := sc;
              l_source_id := si;
              l_target_collection := tc;
              l_target_id := ti;
              l_link_type := lt;
              l_metadata := default Null (value_get v "metadata") |}
  | _, _, _, _, _ => None
  end.

(** [Link::to_entity], [Link::to_rev_entity] and [Link::from_entity] *)
Definition link_to_entity (l : Link) : Entity :=
  entity_new links_collection
    (storage_id (l_source_collection l) (l_source_id l) (l_link_type l)
       (l_target_collection l) (l_target_id l))
    (link_to_value l).
Definition link_to_rev_entity (l : Link) : Entity :=
  entity_new links_rev_collection
    (rev_storage_id (l_target_collection l) (l_target_id l) (l_source_collection l)
       (l_source_id l) (l_link_type l))
    (link_to_value l).
Definition link_from_entity (e : Entity) : option Link := link_from_value (e_data e).
End Links.

(** ** Lemmas on the encoding *)

Lemma hex_digit_code d :
  (0 <= d < 16)%Z -> byte_of (hex_digit d) = if (d <? 10)%Z then (48 + d)%Z else (87 + d)%Z.
Proof.
  intros Hd. unfold byte_of, hex_digit.
  rewrite N_ascii_embedding; destruct (_ <? _)%Z; lia.
Qed.

Lemma hex_digit_inj a b :
  (0 <= a < 16)%Z -> (0 <= b < 16)%Z -> hex_digit a = hex_digit b -> a = b.
Proof.
  intros Ha Hb E%(f_equal byte_of). rewrite !hex_digit_code in E by done.
  destruct (Z.ltb_spec a 10), (Z.ltb_spec b 10); lia.
Qed.

Lemma hex_digit_not_bar a : (0 <= a < 16)%Z -> hex_digit a <> "|"%char.
Proof.
  intros Ha E%(f_equal byte_of). rewrite hex_digit_code in E by done.
  change (byte_of "|") with 124%Z in E. destruct (Z.ltb_spec a 10); lia.
Qed.

(** The hexadecimal body is self-delimiting: it never contains the bar. *)
Lemma hex_bytes_delimited a b x y :
  Forall (fun z => 0 <= z < 256)%Z a -> Forall (fun z => 0 <= z < 256)%Z b ->
  hex_bytes a +:+ "|" +:+ x = hex_bytes b +:+ "|" +:+ y -> a = b /\ x = y.
Proof.
  assert (Hdiv : forall z, (0 <= z < 256 -> 0 <= z / 16 < 16)%Z)
    by (intros; split; [apply Z.div_pos; lia | apply Z.div_lt_upper_bound; lia]).
  assert (Hmod : forall z, (0 <= z mod 16 < 16)%Z) by (intros; apply Z.mod_pos_bound; lia).
  revert b. induction a as [|u a IH]; intros [|v b] Ha Hb E; cbn [hex_bytes] in E.
  - rewrite !string_app_nil_l in E. by apply string_app_inj_l in E.
  - inversion Hb. injection E as E _. by apply eq_sym, hex_digit_not_bar in E; [|apply Hdiv].
  - inversion Ha. injection E as E _. by apply hex_digit_not_bar in E; [|apply Hdiv].
  - inversion Ha; inversion Hb; subst. rewrite !string_app_assoc in E. unfold hex_byte in E.
    rewrite !string_app_cons, !string_app_nil_l in E. injection E as E1 E2 E3.
    apply hex_digit_inj in E1; [|by apply Hdiv..]. apply hex_digit_inj in E2; [|by apply Hmod..].
    destruct (IH b) as [-> ->]; [done..|]. split; [|done]. f_equal.
    rewrite (Z.div_mod u 16), (Z.div_mod v 16) by lia. by rewrite E1, E2.
Qed.

Lemma hex_fixed_app_inj w m n x y :
  hex_fixed w m +:+ x = hex_fixed w n +:+ y -> x = y.
Proof.
  induction w as [|w IH]; cbn [hex_fixed].
  - by rewrite !string_app_nil_l.
  - rewrite !string_app_cons. intros [= _ E]. by apply IH.
Qed.

Lemma as_bytes_inj s t : as_bytes s = as_bytes t -> s = t.
Proof.
  revert t. induction s as [|c s IH]; intros [|d t]; simpl; try done.
  intros [= E1 E2]. apply byte_of_inj in E1 as ->. by rewrite (IH t).
Qed.

Lemma as_bytes_range s : Forall (fun z => 0 <= z < 256)%Z (as_bytes s).
Proof. induction s as [|c s IH]; simpl; constructor; [apply byte_of_range | done]. Qed.

(** Components are prefix-free: equal texts start with the same component. *)
Lemma component_inj a b x y :
  component a +:+ x = component b +:+ y -> a = b /\ x = y.
Proof.
  unfold component. rewrite !string_app_assoc. intros E%hex_fixed_app_inj.
  apply string_app_inj_l in E.
  apply hex_bytes_delimited in E as [E ->]; auto using as_bytes_range, as_bytes_inj.
Qed.

Fixpoint components_text (l : list string) : string :=
  match l with
  | [] => ""
  | c :: l' => component c +:+ components_text l'
  end.

Lemma from_components_text d l :
  from_components d l = link_key_start d +:+ components_text l.
Proof.
  unfold from_components. generalize (link_key_start d) as acc.
  induction l as [|c l IH]; intros acc; cbn [fold_left components_text].
  - by rewrite string_app_nil_r.
  - rewrite IH. unfold push_component. by rewrite string_app_assoc.
Qed.

Lemma components_text_app u v :
  components_text (u ++ v) = components_text u +:+ components_text v.
Proof.
  induction u as [|c u IH]; [done|].
  cbn [app components_text]. by rewrite IH, string_app_assoc.
Qed.

Lemma components_text_inj l1 l2 x y :
  length l1 = length l2 ->
  components_text l1 +:+ x = components_text l2 +:+ y -> l1 = l2 /\ x = y.
Proof.
  revert l2. induction l1 as [|a l1 IH]; intros [|b l2] Hl; try discriminate Hl;
    cbn [components_text].
  - by rewrite !string_app_nil_l.
  - rewrite !string_app_assoc. intros [-> E]%component_inj.
    by apply IH in E as [-> ->]; [|simpl in Hl; lia].
Qed.

(** [starts_with]: the key is the prefix followed by something. *)
Definition starts_with (s p : string) : Prop := exists x, s = p +:+ x.

(** A text prefix made of whole components matches exactly the keys whose
    leading components are those. *)
Lemma components_prefix_iff d l p :
  length p <= length l ->
  starts_with (from_components d l) (from_components d p) <-> take (length p) l = p.
Proof.
  intros Hlen. unfold starts_with. rewrite !from_components_text. split.
  - intros [x E]. rewrite string_app_assoc in E. apply string_app_inj_l in E.
    rewrite <-(take_drop (length p) l) in E.
    rewrite components_text_app in E. apply components_text_inj in E as [-> _]; [done|].
    rewrite length_take. lia.
  - intros E. exists (components_text (drop (length p) l)).
    rewrite string_app_assoc. f_equal.
    by rewrite <-E at 1; rewrite <-components_text_app, take_drop.
Qed.

(** ** Claims *)

Section Claims.
Context `{SerdeNumber}.

(** A link key determines the link it names: two links have the same
    forward key (equivalently the same reverse key) exactly when source,
    type and target agree, for every choice of component strings (empty,
    containing separators, any bytes), and no forward key is a reverse key. *)
Theorem link_key_injective (a b : Link) :
  (link_key_forward a = link_key_forward b <->
     l_source_collection a = l_source_collection b /\ l_source_id a = l_source_id b /\
     l_link_type a = l_link_type b /\
     l_target_collection a = l_target_collection b /\ l_target_id a = l_target_id b) /\
  (link_key_reverse a = link_key_reverse b <-> link_key_forward a = link_key_forward b) /\
  link_key_forward a <> link_key_reverse b.
Proof.
  assert (Hinj : forall d l1 l2, length l1 = length l2 ->
    from_components d l1 = from_components d l2 -> l1 = l2).
  { intros d l1 l2 Hl E. rewrite !from_components_text in E. apply string_app_inj_l in E.
    rewrite <-(string_app_nil_r (components_text l1)),
      <-(string_app_nil_r (components_text l2)) in E.
    by apply components_text_inj in E as [-> _]. }
  unfold link_key_forward, link_key_reverse, forward_parts, reverse_parts.
  split_and!.
  - split; [by intros [= ]%Hinj | by intros (-> & -> & -> & -> & ->)].
  - split; intros [= -> -> -> -> ->]%Hinj; done.
  - rewrite !from_components_text. by intros [= ].
Qed.

(** Prefix scans are exact: the forward prefix of an entity (with or
    without a link type) is a prefix of a link's forward key exactly when
    the link leaves that entity (and has that type), and the reverse prefix
    of an entity selects exactly the links that point at it. *)
Theorem link_prefix_exact (l : Link) (sc si lt tc ti : string) :
  (starts_with (link_key_forward l) (forward_prefix sc si None) <->
     l_source_collection l = sc /\ l_source_id l = si) /\
  (starts_with (link_key_forward l) (forward_prefix sc si (Some lt)) <->
     l_source_collection l = sc /\ l_source_id l = si /\ l_link_type l = lt) /\
  (starts_with (link_key_reverse l) (reverse_prefix tc ti) <->
     l_target_collection l = tc /\ l_target_id l = ti).
Proof.
  unfold link_key_forward, link_key_reverse, forward_parts, reverse_parts.
  split_and!.
  - change (forward_prefix sc si None) with (from_components LINK_KEY_FORWARD [sc; si]).
    rewrite components_prefix_iff by (simpl; lia). simpl. naive_solver.
  - change (forward_prefix sc si (Some lt)) with (from_components LINK_KEY_FORWARD [sc; si; lt]).
    rewrite components_prefix_iff by (simpl; lia). simpl. naive_solver.
  - change (reverse_prefix tc ti) with (from_components LINK_KEY_REVERSE [tc; ti]).
    rewrite components_prefix_iff by (simpl; lia). simpl. naive_solver.
Qed.

(** A link survives storage: both the forward and the reverse row of a
    link decode to the link itself, metadata included. *)
Theorem link_entity_roundtrip (l : Link) :
  link_from_entity (link_to_entity l) = Some l /\
  link_from_entity (link_to_rev_entity l) = Some l.
Proof. by destruct l. Qed.
End Claims.
