(* ===== verification/Bfs.v ===== *)
(** * Breadth-first search over links

    The loop that the graph operations of the request handler share: a queue of
    nodes with their depth, a set of visited nodes, a probe that loads the node
    at the far end of a link (or finds it missing, hidden or filtered out), and
    an optional early exit.  The theorems of the graph operations follow from
    the specification proved here: the search ends, visits every node within
    the depth limit exactly once and at its shortest distance. *)

From S2P Require Import Prelude Types.
Local Open Scope axon_scope.

(** Sizes of finite sets. *)
Section Sizes.
Context {K : Type} `{Countable K}.

Lemma gset_size_disjoint (A B : gset K) : A ## B -> size (A ∪ B) = (size A + size B)%nat.
Proof. apply size_union. Qed.

Lemma gset_size_list (l : list K) : base.NoDup l -> size (list_to_set l : gset K) = length l.
Proof. apply size_list_to_set. Qed.

Lemma size_list_to_set_le (l : list K) : (size (list_to_set l : gset K) <= length l)%nat.
Proof.
  induction l as [|a l IH]; cbn [list_to_set length]; [by rewrite size_empty|].
  rewrite size_union_alt, size_singleton.
  pose proof (subseteq_size (list_to_set l ∖ {[a]}) (list_to_set l : gset K) ltac:(set_solver)). lia.
Qed.
End Sizes.

Section Search.
Context {K X P L E : Type} `{Countable K}.
Variable source target : L -> K.
Variable probe : K -> result (option X) E.
Variable stop : K -> bool.
Variable extend : P -> L -> X -> P.
Variable links : list L.
Variable max_depth : nat.

Definition Found : Type := list (L * X * P).
Definition Queue : Type := list (K * nat * P).

(** The loop over the links of one node. *)
Fixpoint search_links (ls : list L) (depth : nat) (path : P) (visited : gset K) (found : Found)
    (queue : Queue) : result (nat + (gset K * Found * Queue)) E :=
  match ls with
  | [] => Ok (inr (visited, found, queue))
  | l :: rest =>
      if bool_decide (target l ∈ visited) then search_links rest depth path visited found queue
      else
        let? o := probe (target l) in
        match o with
        | None => search_links rest depth path visited found queue
        | Some x =>
            if stop (target l) then Ok (inl (S depth))
            else
              let path' := extend path l x in
              search_links rest depth path ({[target l]} ∪ visited) (found ++ [(l, x, path')])
                (queue ++ [(target l, S depth, path')])
        end
  end.

(** [while let Some(..) = queue.pop_front()] *)
Fixpoint search (fuel : nat) (visited : gset K) (found : Found) (queue : Queue) : result (nat + Found) E :=
  match queue with
  | [] => Ok (inr found)
  | (k, depth, path) :: queue =>
      match fuel with
      | O => Panic
      | S fuel =>
          if (max_depth <=? depth)%nat then search fuel visited found queue
          else
            let? r := search_links (List.filter (fun l => bool_decide (source l = k)) links) depth path
                        visited found queue in
            match r with
            | inl d => Ok (inl d)
            | inr (visited, found, queue) => search fuel visited found queue
            end
      end
  end.

Definition breadth_first (start : K) (path : P) : result (nat + Found) E :=
  search (S (length links)) {[start]} [] [(start, O, path)].

(** ** Specification *)

(** One hop to a node that the probe finds. *)
Definition hop (a b : K) : Prop :=
  exists l x, In l links /\ source l = a /\ target l = b /\ probe b = Ok (Some x).

(** The length of a shortest walk. *)
Definition distance (a : K) (n : nat) (b : K) : Prop :=
  bsteps hop n a b /\ forall m, (m < n)%nat -> ~ bsteps hop m a b.

Definition found_keys (found : Found) : list K := map (fun f => target (fst (fst f))) found.
Definition queue_keys (queue : Queue) : list K := map (fun q => fst (fst q)) queue.

Lemma distance_0 a : distance a 0 a.
Proof. split; [apply bsteps_refl|lia]. Qed.

Lemma distance_hop a n b c : distance a n b -> hop b c -> ~ bsteps hop n a c -> distance a (S n) c.
Proof.
  intros [Hb _] Hh Hn. split; [by eapply bsteps_r|]. intros m Hm Hc. apply Hn.
  eapply bsteps_weaken; [|exact Hc]. lia.
Qed.

Variable start : K.
(** The probes that the search can come to answer. *)
Hypothesis probe_total : forall l n, In l links -> bsteps hop n start (source l) -> exists o, probe (target l) = Ok o.

(** A property of the paths that the search builds. *)
Variable good : nat -> K -> P -> Prop.
Hypothesis good_extend : forall n a p l x,
  good n a p -> In l links -> source l = a -> probe (target l) = Ok (Some x) ->
  good (S n) (target l) (extend p l x).

(** What the loop over the links [ls] of the node [k] adds. *)
Lemma search_links_spec k n0 depth path ls visited found queue :
  bsteps hop n0 start k ->
  (forall l, In l ls -> In l links /\ source l = k) -> good depth k path ->
  match search_links ls depth path visited found queue with
  | Ok (inl n) => n = S depth /\ exists b, hop k b /\ b ∉ visited /\ stop b = true
  | Ok (inr (visited', found', queue')) =>
      exists new, visited' = list_to_set (found_keys new) ∪ visited /\ found' = found ++ new /\
        queue' = queue ++ map (fun f => (target (fst (fst f)), S depth, snd f)) new /\
        base.NoDup (found_keys new) /\
        (forall f, In f new -> hop k (target (fst (fst f))) /\ target (fst (fst f)) ∉ visited /\
           stop (target (fst (fst f))) = false /\ In (fst (fst f)) ls /\ probe (target (fst (fst f))) = Ok (Some (snd (fst f))) /\
           good (S depth) (target (fst (fst f))) (snd f)) /\
        (forall l x, In l ls -> probe (target l) = Ok (Some x) -> target l ∈ visited')
  | _ => False
  end.
Proof.
  intros Hk Hls Hgood. revert visited found queue. induction ls as [|l ls IH]; intros visited found queue; cbn [search_links].
  { exists []. cbn [found_keys map list_to_set app]. rewrite !app_nil_r. split_and!; try done; [set_solver|constructor]. }
  assert (IH' := IH (fun l' Hl => Hls l' (or_intror Hl))). clear IH.
  destruct (Hls l (or_introl eq_refl)) as [Hl Hsrc].
  case_bool_decide as Hv.
  { specialize (IH' visited found queue). destruct (search_links ls depth path visited found queue) as [[n|[[v f] q]]| |]; try done.
    destruct IH' as (new & -> & -> & -> & Hnd & Hnew & Hall). exists new. split_and!; try done.
    - intros g Hg. destruct (Hnew g Hg) as (? & ? & ? & ? & ? & ?). split_and!; try done. by right.
    - intros l' x [<-|Hin] Hp; [set_solver|by eapply Hall]. }
  destruct (probe_total l n0 Hl) as [o Ho]; [by rewrite Hsrc|]. rewrite Ho. cbn [result_bind]. destruct o as [x|].
  2: { specialize (IH' visited found queue). destruct (search_links ls depth path visited found queue) as [[n|[[v f] q]]| |]; try done.
    destruct IH' as (new & -> & -> & -> & Hnd & Hnew & Hall). exists new. split_and!; try done.
    - intros g Hg. destruct (Hnew g Hg) as (? & ? & ? & ? & ? & ?). split_and!; try done. by right.
    - intros l' x [<-|Hin] Hp; [by rewrite Ho in Hp|by eapply Hall]. }
  assert (Hhop : hop k (target l)) by (by exists l, x).
  destruct (stop (target l)) eqn:Hstop; [split; [done|]; by exists (target l)|].
  specialize (IH' ({[target l]} ∪ visited) (found ++ [(l, x, extend path l x)])
    (queue ++ [(target l, S depth, extend path l x)])).
  destruct (search_links ls _ _ _ _ _) as [[n|[[v f] q]]| |]; try done.
  { destruct IH' as (-> & b & Hb & Hn & Hs). split; [done|]. exists b. set_solver. }
  destruct IH' as (new & -> & -> & -> & Hnd & Hnew & Hall).
  exists ((l, x, extend path l x) :: new). rewrite <-!app_assoc. cbn [found_keys map fst snd list_to_set app].
  fold (found_keys new). split_and!; try done.
  - set_solver.
  - apply list.NoDup_cons. split; [|done]. intros Hin. apply list_elem_of_In, in_map_iff in Hin as (g & Hg & Hin).
    destruct (Hnew g Hin) as (_ & Hn & _). rewrite Hg in Hn. set_solver.
  - intros g [<-|Hg]; cbn [fst snd].
    + split_and!; try done; [by left|]. by apply (good_extend _ k).
    + destruct (Hnew g Hg) as (? & ? & ? & ? & ? & ?). split_and!; try done; [set_solver|by right].
  - intros l' y [<-|Hin] Hp; [set_solver|]. apply (Hall l' y Hin) in Hp. set_solver.
Qed.

(** *** The invariant of the loop

    The queue holds nodes of the current depth [d], then nodes one deeper. *)
Record level (d : nat) (front back : Queue) (visited : gset K) (found : Found) : Prop := {
  lv_near : forall w, bsteps hop d start w -> w ∈ visited;
  lv_front : forall k n p, In (k, n, p) front -> n = d /\ distance start d k /\ good d k p;
  lv_back : forall k n p, In (k, n, p) back -> n = S d /\ distance start (S d) k /\ good (S d) k p;
  lv_closed : forall u, u ∈ visited -> In u (queue_keys (front ++ back)) \/ forall w, hop u w -> w ∈ visited;
  lv_stop : forall u, u ∈ visited -> stop u = false;
  lv_visited : visited = {[start]} ∪ list_to_set (found_keys found);
  lv_nodup : base.NoDup (start :: found_keys found);
  lv_found : forall f, In f found -> exists n, (0 < n <= max_depth)%nat /\
    distance start n (target (fst (fst f))) /\ good n (target (fst (fst f))) (snd f) /\
    probe (target (fst (fst f))) = Ok (Some (snd (fst f)));
  lv_depth : (d <= max_depth)%nat;
  lv_last : d = max_depth -> back = []
}.

(** Nodes that may still be found. *)
Definition unseen (visited : gset K) : nat := size (list_to_set (map target links) ∖ visited : gset K).

(** What the search returns. *)
Definition complete (found : Found) : Prop :=
  (forall b, bsteps hop max_depth start b -> stop b = false /\ b ∈ start :: found_keys found) /\
  base.NoDup (start :: found_keys found) /\
  (forall f, In f found -> exists n, (0 < n <= max_depth)%nat /\
     distance start n (target (fst (fst f))) /\ good n (target (fst (fst f))) (snd f) /\
     probe (target (fst (fst f))) = Ok (Some (snd (fst f)))).

Lemma level_complete d front back visited found :
  level d front back visited found -> (forall b, bsteps hop max_depth start b -> b ∈ visited) -> complete found.
Proof.
  intros Hl Hall. split_and!; [|apply Hl|apply Hl]. intros b Hb%Hall. split; [by apply Hl|].
  rewrite (lv_visited _ _ _ _ _ Hl) in Hb. set_solver.
Qed.

Lemma bsteps_last d x w : bsteps hop (S d) x w -> exists u, bsteps hop d x u /\ (u = w \/ hop u w).
Proof.
  revert x. induction d as [|d IH]; intros x Hw; inversion Hw as [|n ? y ? Hxy Hyz]; subst.
  - exists w. split; [constructor|by left].
  - inversion Hyz; subst. exists x. split; [constructor|by right].
  - exists w. split; [constructor|by left].
  - destruct (IH y Hyz) as (u & Hu & Hor). exists u. split; [by eapply bsteps_l|done].
Qed.

(** With an empty queue the visited nodes are closed under hops. *)
Lemma level_done d visited found : level d [] [] visited found -> complete found.
Proof.
  intros Hl. eapply level_complete; [exact Hl|]. intros b Hb.
  assert (Hclosed : forall u w, hop u w -> u ∈ visited -> w ∈ visited).
  { intros u w Hh Hu. destruct (lv_closed _ _ _ _ _ Hl u Hu) as [[]|Hc]. by apply Hc. }
  assert (Hs : start ∈ visited) by (apply Hl; constructor).
  clear -Hb Hclosed Hs. induction Hb as [|n x y z Hxy Hyz IHb]; [done|]. apply IHb. by eapply Hclosed.
Qed.

Lemma level_next d back visited found :
  level d [] back visited found -> (d < max_depth)%nat -> level (S d) back [] visited found.
Proof.
  intros Hl Hd. split; try apply Hl; try done.
  - intros w (u & Hu & Hor)%bsteps_last. pose proof (lv_near _ _ _ _ _ Hl u Hu) as Hvis.
    destruct Hor as [->|Hh]; [done|]. destruct (lv_closed _ _ _ _ _ Hl u Hvis) as [Hq|Hc]; [|by apply Hc].
    exfalso. apply in_map_iff in Hq as ([[k n'] p] & <- & Hin). simpl in Hin.
    destruct (lv_back _ _ _ _ _ Hl k n' p Hin) as (_ & [_ Hmin] & _). apply (Hmin d); [lia|done].
  - intros u Hu. rewrite app_nil_r. by apply Hl.
Qed.

Lemma drain fuel visited found (queue : Queue) :
  (forall k n p, In (k, n, p) queue -> (max_depth <= n)%nat) -> (length queue <= fuel)%nat ->
  search fuel visited found queue = Ok (inr found).
Proof.
  revert queue. induction fuel as [|fuel IH]; intros [|[[k n] p] queue] Hq Hf; simpl in *; try done; [lia|].
  rewrite (proj2 (Nat.leb_le max_depth n)) by (eapply Hq; by left).
  apply IH; [intros; eapply Hq; right; eassumption|lia].
Qed.

Lemma unseen_new new visited :
  base.NoDup (found_keys new) -> (forall f, In f new -> In (fst (fst f)) links /\ target (fst (fst f)) ∉ visited) ->
  (unseen (list_to_set (found_keys new) ∪ visited) + length new = unseen visited)%nat.
Proof.
  intros Hnd Hnew. unfold unseen. set (far := list_to_set (map target links) : gset K).
  assert (Hsplit : far ∖ visited = (far ∖ (list_to_set (found_keys new) ∪ visited)) ∪ list_to_set (found_keys new)).
  { assert (Hsub : forall x, x ∈ found_keys new -> x ∈ far /\ x ∉ visited).
    { intros x Hx. apply list_elem_of_In, in_map_iff in Hx as (f & <- & Hf).
      destruct (Hnew f Hf) as [Hl Hv]. split; [|done]. apply elem_of_list_to_set, list_elem_of_In.
      apply in_map_iff. by eexists. }
    apply set_eq. intros x. rewrite elem_of_union, !elem_of_difference, elem_of_union, elem_of_list_to_set.
    destruct (decide (x ∈ found_keys new)) as [Hin|Hin]; [specialize (Hsub x Hin)|]; tauto. }
  etrans; [|symmetry; exact (f_equal size Hsplit)].
  rewrite gset_size_disjoint by set_solver. rewrite gset_size_list by done.
  unfold found_keys at 3. by rewrite length_map.
Qed.

Definition outcome_ok (r : result (nat + Found) E) : Prop :=
  match r with
  | Ok (inl n) => (n <= max_depth)%nat /\ exists b, stop b = true /\ distance start n b
  | Ok (inr found) => complete found
  | _ => False
  end.

(** Expanding the first node of the queue. *)
Lemma level_expand d k p front back visited found new :
  level d ((k, d, p) :: front) back visited found -> (d < max_depth)%nat ->
  base.NoDup (found_keys new) ->
  (forall f, In f new -> hop k (target (fst (fst f))) /\ target (fst (fst f)) ∉ visited /\
     stop (target (fst (fst f))) = false /\ good (S d) (target (fst (fst f))) (snd f) /\
     probe (target (fst (fst f))) = Ok (Some (snd (fst f)))) ->
  (forall w, hop k w -> w ∈ list_to_set (found_keys new) ∪ visited) ->
  level d front (back ++ map (fun f => (target (fst (fst f)), S d, snd f)) new)
    (list_to_set (found_keys new) ∪ visited) (found ++ new).
Proof.
  intros Hl Hd Hnd Hnew Hall.
  destruct (lv_front _ _ _ _ _ Hl k d p (or_introl eq_refl)) as (_ & Hdist & _).
  assert (Hbn : forall f, In f new -> distance start (S d) (target (fst (fst f)))).
  { intros f Hin. destruct (Hnew f Hin) as (Hh & Hn & _). eapply distance_hop; [exact Hdist|done|].
    intros Hc. by apply Hn, Hl. }
  split.
  - intros w Hw. apply elem_of_union. right. by apply Hl.
  - intros k' n' p' Hin. apply Hl. by right.
  - intros k' n' p' [Hin|Hin]%in_app_iff; [by apply Hl|].
    apply in_map_iff in Hin as (f & [= <- <- <-] & Hin). split; [done|]. split; [by apply Hbn|].
    by apply (Hnew f Hin).
  - intros u [Hu|Hu]%elem_of_union.
    { left. apply elem_of_list_to_set, list_elem_of_In in Hu. unfold queue_keys. rewrite !map_app, map_map.
      apply in_app_iff. right. apply in_app_iff. by right. }
    destruct (lv_closed _ _ _ _ _ Hl u Hu) as [[<-|Hq]|Hc]; [right; exact Hall| |].
    { left. unfold queue_keys in *. rewrite !map_app in *. rewrite app_assoc. apply in_app_iff. by left. }
    { right. intros w Hw. apply elem_of_union. right. by apply Hc. }
  - intros u [Hu|Hu]%elem_of_union; [|by apply Hl].
    apply elem_of_list_to_set, list_elem_of_In, in_map_iff in Hu as (f & <- & Hin). by apply (Hnew f Hin).
  - rewrite (lv_visited _ _ _ _ _ Hl) at 1. unfold found_keys. rewrite map_app, list_to_set_app_L. set_solver.
  - pose proof (lv_nodup _ _ _ _ _ Hl) as Hnd0. unfold found_keys in *. rewrite map_app, app_comm_cons.
    apply list.NoDup_app. split_and!; [done| |done]. intros x Hx Hin.
    apply list_elem_of_In, in_map_iff in Hin as (f & <- & Hin). destruct (Hnew f Hin) as (_ & Hn & _).
    apply Hn. rewrite (lv_visited _ _ _ _ _ Hl). fold (found_keys found) in Hx. set_solver.
  - intros f [Hin|Hin]%in_app_iff; [by apply Hl|]. exists (S d). split; [lia|].
    split; [by apply Hbn|]. split; by apply (Hnew f Hin).
  - apply Hl.
  - intros ->. lia.
Qed.

(** One iteration with a non-empty front. *)
Lemma search_step fuel d k n p front back visited found :
  (forall d front back visited found,
     level d front back visited found -> (length (front ++ back) + unseen visited <= fuel)%nat ->
     outcome_ok (search fuel visited found (front ++ back))) ->
  level d ((k, n, p) :: front) back visited found ->
  (length (((k, n, p) :: front) ++ back) + unseen visited <= S fuel)%nat ->
  outcome_ok (search (S fuel) visited found (((k, n, p) :: front) ++ back)).
Proof.
  intros IH Hl Hf. destruct (lv_front _ _ _ _ _ Hl k n p (or_introl eq_refl)) as (-> & Hdist & Hgood).
  destruct (Nat.leb_spec max_depth d) as [Hmax|Hmax].
  - assert (d = max_depth) as -> by (pose proof (lv_depth _ _ _ _ _ Hl); lia).
    rewrite drain; [eapply level_complete; [exact Hl|apply Hl]| |lia].
    rewrite (lv_last _ _ _ _ _ Hl eq_refl), app_nil_r. intros k' n' p' Hin.
    destruct (lv_front _ _ _ _ _ Hl k' n' p' Hin) as (-> & _). lia.
  - cbn [app search]. rewrite (proj2 (Nat.leb_gt max_depth d)) by done.
    set (ls := List.filter (fun l => bool_decide (source l = k)) links).
    assert (Hls : forall l, In l ls -> In l links /\ source l = k).
    { intros l [Hl1 Hl2]%filter_In. by apply bool_decide_eq_true in Hl2. }
    pose proof (search_links_spec k d d p ls visited found (front ++ back) (proj1 Hdist) Hls Hgood) as Hsl.
    destruct (search_links ls d p visited found (front ++ back)) as [[m|[[v f] q]]| |]; try done; cbn [result_bind].
    + destruct Hsl as (-> & b & Hb & Hn & Hs). split; [lia|]. exists b. split; [done|].
      eapply distance_hop; [exact Hdist|done|]. intros Hc. by apply Hn, Hl.
    + destruct Hsl as (new & -> & -> & -> & Hnd & Hnew & Hall). rewrite <-app_assoc.
      assert (Hun := unseen_new new visited Hnd (fun f Hf => conj
        (proj1 (Hls _ (proj1 (proj2 (proj2 (proj2 (Hnew f Hf))))))) (proj1 (proj2 (Hnew f Hf))))).
      apply (IH d); [|rewrite !length_app, length_map in *; simpl in Hf; lia].
      apply (level_expand d k p); [done..| |].
      * intros f0 Hin. destruct (Hnew f0 Hin) as (? & ? & ? & ? & ? & ?). by split_and!.
      * intros w (l & x & Hin & Hs & <- & Hp). eapply Hall; [|exact Hp].
        apply filter_In. split; [done|]. by apply bool_decide_eq_true.
Qed.

Lemma search_level fuel : forall d front back visited found,
  level d front back visited found -> (length (front ++ back) + unseen visited <= fuel)%nat ->
  outcome_ok (search fuel visited found (front ++ back)).
Proof.
  induction fuel as [|fuel IH]; intros d front back visited found Hl Hf.
  - destruct front as [|f front]; [|simpl in Hf; lia]. destruct back as [|b back]; [|simpl in Hf; lia].
    by eapply level_done.
  - destruct front as [|[[k n] p] front]; [|by apply (search_step fuel d)].
    destruct back as [|[[k n] p] back]; [by eapply level_done|].
    assert (Hd : (d < max_depth)%nat).
    { pose proof (lv_depth _ _ _ _ _ Hl). destruct (decide (d = max_depth)) as [Hd|]; [|lia].
      by pose proof (lv_last _ _ _ _ _ Hl Hd). }
    pose proof (level_next _ _ _ _ Hl Hd) as Hl'.
    assert (Ho : outcome_ok (search (S fuel) visited found (((k, n, p) :: back) ++ []))).
    { apply (search_step fuel (S d)); [done|done|]. rewrite app_nil_r. exact Hf. }
    by rewrite app_nil_r in Ho.
Qed.

(** The whole search: the fuel, one more than there are links, is enough. *)
Lemma breadth_first_spec path :
  stop start = false -> good 0 start path -> outcome_ok (breadth_first start path).
Proof.
  intros Hstop Hgood. unfold breadth_first.
  change [(start, O, path)] with ([(start, O, path)] ++ ([] : Queue)). apply (search_level _ 0).
  - split; simpl; try done.
    + intros w Hw. inversion Hw; subst. set_solver.
    + intros k n p [[= <- <- <-]|[]]. split_and!; [done|apply distance_0|done].
    + intros u ->%elem_of_singleton. left. by left.
    + by intros u ->%elem_of_singleton.
    + set_solver.
    + apply list.NoDup_singleton.
    + lia.
  - simpl. unfold unseen. apply le_n_S.
    etrans; [apply (subseteq_size _ (list_to_set (map target links))); set_solver|].
    rewrite <-(length_map target links). apply size_list_to_set_le.
Qed.
End Search.
