(* ===== verification/Datetime.v ===== *)
(** * RFC 3339 datetimes ([crates/axon-esf/src/index_key.rs], parsing part)

    The self-contained parser that turns a datetime string into epoch
    nanoseconds, with Rust's string slicing: a slice whose end is not on a
    UTF-8 character boundary panics. *)

From S2P Require Import Prelude.
From Stdlib Require Import Ascii.
Local Open Scope Z_scope.
Local Open Scope axon_scope.

(** ** Checked machine arithmetic and string slices *)

Definition checked_i64 (z : Z) : option Z := if i64_ok z then Some z else None.
Definition checked_u32 (z : Z) : option Z := if (0 <=? z) && (z <? 2 ^ 32) then Some z else None.

(** The byte at [i], 0 past the end (every use is guarded by a length test). *)
Definition byte_at (bs : list Z) (i : nat) : Z := nth i bs 0.

(** [str::is_char_boundary] *)
Definition is_char_boundary (bs : list Z) (i : nat) : bool :=
  (i =? 0)%nat || (i =? length bs)%nat ||
  ((i <? length bs)%nat && negb ((128 <=? byte_at bs i) && (byte_at bs i <? 192))).

(** [&s[a..b]] *)
Definition slice {E} (bs : list Z) (a b : nat) : result (list Z) E :=
  if is_char_boundary bs a && is_char_boundary bs b && (a <=? b)%nat
  then Ok (take (b - a) (drop a bs)) else Panic.

Definition is_ascii_digit (b : Z) : bool := (48 <=? b) && (b <=? 57).

Definition digits_value (bs : list Z) : Z := fold_left (fun acc b => acc * 10 + (b - 48)) bs 0.

(** [parse_uint::<T>] for a type whose largest value is [max]. *)
Definition parse_uint (max : Z) (bs : list Z) : option Z :=
  if (length bs =? 0)%nat || negb (forallb is_ascii_digit bs) then None
  else let v := digits_value bs in if v <=? max then Some v else None.

Definition u32_max : Z := 2 ^ 32 - 1.
Definition i64_max : Z := 2 ^ 63 - 1.

(** ** The calendar *)

Definition is_leap_year (year : Z) : bool :=
  ((Z.rem year 4 =? 0) && negb (Z.rem year 100 =? 0)) || (Z.rem year 400 =? 0).

Definition days_in_month (year month : Z) : Z :=
  if (month =? 1) || (month =? 3) || (month =? 5) || (month =? 7) || (month =? 8)
     || (month =? 10) || (month =? 12) then 31
  else if (month =? 4) || (month =? 6) || (month =? 9) || (month =? 11) then 30
  else if (month =? 2) && is_leap_year year then 29
  else if month =? 2 then 28
  else 0.

Definition days_from_civil (year month day : Z) : Z :=
  let y := if month <=? 2 then year - 1 else year in
  let era := Z.quot (if 0 <=? y then y else y - 399) 400 in
  let yoe := y - era * 400 in
  let doy := Z.quot (153 * (if 2 <? month then month - 3 else month + 9) + 2) 5 + day - 1 in
  let doe := yoe * 365 + Z.quot yoe 4 - Z.quot yoe 100 + doy in
  era * 146097 + doe - 719468.

(** ** The parser *)

(** [while idx < len && bytes[idx].is_ascii_digit()] *)
Fixpoint count_digits (bs : list Z) : nat :=
  match bs with
  | b :: bs' => if is_ascii_digit b then S (count_digits bs') else O
  | [] => O
  end.

(** [for _ in 0..n { scaled = scaled.checked_mul(10)?; }] on [u32]. *)
Fixpoint scale_by_ten (n : nat) (scaled : Z) : option Z :=
  match n with
  | O => Some scaled
  | S n' => checked_u32 (scaled * 10) ≫= scale_by_ten n'
  end.

(** [None?] inside a function that returns [Option]. *)
Definition opt {A B E} (o : option A) (k : A -> result (option B) E) : result (option B) E :=
  match o with Some a => k a | None => Ok None end.
Notation "'try' x ':=' o 'in' k" := (opt o (fun x => k))
  (at level 10, x pattern, o at level 100, k at level 200) : axon_scope.

Definition guard_or_none {B E} (c : bool) (k : result (option B) E) : result (option B) E :=
  if c then Ok None else k.

(** Optional fractional seconds: the value in nanoseconds and the index after
    them. *)
Definition parse_fraction {E} (bs : list Z) : result (option (Z * nat)) E :=
  if (19 <? length bs)%nat && (byte_at bs 19 =? 46) then
    let start := 20%nat in
    let idx := (start + count_digits (drop start bs))%nat in
    if (idx =? start)%nat || (9 <? idx - start)%nat then Ok None
    else
      let? digits := slice bs start idx in
      try scaled := parse_uint u32_max digits in
      try scaled := scale_by_ten (9 - (idx - start)) scaled in
      Ok (Some (scaled, idx))
  else Ok (Some (0, 19%nat)).

(** Timezone offset in minutes and the index after it. *)
Definition parse_offset {E} (bs : list Z) (idx : nat) : result (option (Z * nat)) E :=
  if (length bs <=? idx)%nat then Ok (Some (0, idx))
  else
    let b := byte_at bs idx in
    if (b =? 90) || (b =? 122) then Ok (Some (0, S idx))
    else if (b =? 43) || (b =? 45) then
      let sign := if b =? 45 then -1 else 1 in
      let idx := S idx in
      if (length bs <? idx + 5)%nat then Ok None
      else
        let? hh := slice bs idx (idx + 2) in
        try oh := parse_uint i64_max hh in
        guard_or_none (negb (byte_at bs (idx + 2) =? 58)) (
        let? mm := slice bs (idx + 3) (idx + 5) in
        try om := parse_uint i64_max mm in
        Ok (Some (sign * (oh * 60 + om), (idx + 5)%nat)))
    else Ok None.

(** The part of [parse_rfc3339_nanos] after the fields have been read. *)
Definition assemble_nanos (year month day hour minute second frac_nanos offset_minutes : Z)
  : option Z :=
  if negb ((1 <=? month) && (month <=? 12)) || (day <? 1) || (23 <? hour) || (59 <? minute)
  then None
  else
    let second := if second =? 60 then 59 else second in
    if 59 <? second then None
    else if days_in_month year month <? day then None
    else
      let days := days_from_civil year month day in
      let secs_of_day := hour * 3600 + minute * 60 + second in
      checked_i64 (days * 86400) ≫= fun a =>
      checked_i64 (a + secs_of_day) ≫= fun b =>
      checked_i64 (offset_minutes * 60) ≫= fun o =>
      checked_i64 (b - o) ≫= fun utc_secs =>
      checked_i64 (utc_secs * 1000000000) ≫= fun n =>
      checked_i64 (n + frac_nanos).

(** [parse_rfc3339_nanos] *)
Definition parse_rfc3339_nanos {E} (s : string) : result (option Z) E :=
  let bs := as_bytes s in
  guard_or_none (length bs <? 19)%nat (
  let? f := slice bs 0 4 in
  try year := parse_uint i64_max f in
  guard_or_none (negb (byte_at bs 4 =? 45)) (
  let? f := slice bs 5 7 in
  try month := parse_uint u32_max f in
  guard_or_none (negb (byte_at bs 7 =? 45)) (
  let? f := slice bs 8 10 in
  try day := parse_uint u32_max f in
  guard_or_none (negb (byte_at bs 10 =? 84) && negb (byte_at bs 10 =? 116)
                 && negb (byte_at bs 10 =? 32)) (
  let? f := slice bs 11 13 in
  try hour := parse_uint u32_max f in
  guard_or_none (negb (byte_at bs 13 =? 58)) (
  let? f := slice bs 14 16 in
  try minute := parse_uint u32_max f in
  guard_or_none (negb (byte_at bs 16 =? 58)) (
  let? f := slice bs 17 19 in
  try second := parse_uint u32_max f in
  let? frac := parse_fraction bs in
  try (frac_nanos, idx) := frac in
  let? off := parse_offset bs idx in
  try (offset_minutes, idx) := off in
  guard_or_none (negb (idx =? length bs)%nat)
    (Ok (assemble_nanos year month day hour minute second frac_nanos offset_minutes)))))))).

Example parse_epoch : parse_rfc3339_nanos (E := unit) "1970-01-01T00:00:00Z" = Ok (Some 0).
Proof. vm_compute. reflexivity. Qed.

Example parse_offset_fraction :
  parse_rfc3339_nanos (E := unit) "2026-06-28T12:00:00.123456789+02:00"
  = Ok (Some 1782640800123456789).
Proof. vm_compute. reflexivity. Qed.

(** ** The calendar is the proleptic Gregorian one *)

Definition valid_date (y m d : Z) : Prop := 1 <= m <= 12 /\ 1 <= d <= days_in_month y m.

(** The day after a valid date. *)
Definition next_day (y m d : Z) : Z * Z * Z :=
  if d <? days_in_month y m then (y, m, d + 1)
  else if m <? 12 then (y, m + 1, 1) else (y + 1, 1, 1).

(** Days in the 400-year cycles and whole years before March of year [y]. *)
Definition year_base (y : Z) : Z :=
  y / 400 * 146097 + ((y mod 400) * 365 + (y mod 400) / 4 - (y mod 400) / 100).

Lemma year_base_step y :
  0 <= y -> year_base y = year_base (y - 1) + if is_leap_year y then 366 else 365.
Proof.
  intros Hy. unfold year_base, is_leap_year. rewrite !Z.rem_mod_nonneg by lia.
  destruct (Z.eqb_spec (y mod 4) 0), (Z.eqb_spec (y mod 100) 0), (Z.eqb_spec (y mod 400) 0);
    cbn [andb orb negb]; Z.to_euclidean_division_equations; lia.
Qed.

(** Hinnant's truncating divisions compute the floor form. *)
Lemma days_from_civil_base y m d :
  0 <= y -> 1 <= m <= 12 ->
  days_from_civil y m d =
  year_base (if m <=? 2 then y - 1 else y)
  + (153 * (if 2 <? m then m - 3 else m + 9) + 2) / 5 + d - 1 - 719468.
Proof.
  intros Hy Hm. unfold days_from_civil, year_base. cbv zeta.
  generalize (if m <=? 2 then y - 1 else y).
  intros z. rewrite (Z.quot_div_nonneg (153 * _ + 2)) by (destruct (Z.ltb_spec 2 m); lia).
  assert (Hera : Z.quot (if 0 <=? z then z else z - 399) 400 = z / 400).
  { destruct (Z.leb_spec 0 z).
    - by apply Z.quot_div_nonneg.
    - Z.to_euclidean_division_equations; lia. }
  rewrite Hera. replace (z - z / 400 * 400) with (z mod 400)
    by (Z.to_euclidean_division_equations; lia).
  pose proof (Z.mod_pos_bound z 400 ltac:(lia)) as Hmod.
  rewrite (Z.quot_div_nonneg (z mod 400) 4), (Z.quot_div_nonneg (z mod 400) 100) by lia. lia.
Qed.

(** The civil-date conversion is the proleptic Gregorian calendar: day 0
    is 1970-01-01 and stepping to the next calendar day, across month ends,
    leap days and year ends, adds exactly one. *)
Theorem days_from_civil_calendar :
  days_from_civil 1970 1 1 = 0 /\
  (forall y m d, 0 <= y -> valid_date y m d ->
     let '(y', m', d') := next_day y m d in
     valid_date y' m' d' /\ days_from_civil y' m' d' = days_from_civil y m d + 1).
Proof.
  split; [done|]. intros y m d Hy [Hm Hd].
  assert (Hcases : m = 1 \/ m = 2 \/ m = 3 \/ m = 4 \/ m = 5 \/ m = 6 \/ m = 7 \/ m = 8 \/
                   m = 9 \/ m = 10 \/ m = 11 \/ m = 12) by lia.
  assert (Hdim : forall y m, 1 <= m <= 12 -> 28 <= days_in_month y m).
  { intros y' m' Hm'. unfold days_in_month. repeat case_match; lia. }
  unfold next_day. destruct (Z.ltb_spec d (days_in_month y m)) as [Hlt|Hge].
  - split; [unfold valid_date; lia|]. rewrite !days_from_civil_base by lia. lia.
  - assert (d = days_in_month y m) as -> by lia. clear Hd Hge.
    destruct (Z.ltb_spec m 12).
    + split; [specialize (Hdim y (m + 1)); unfold valid_date; lia|].
      rewrite !days_from_civil_base by lia. pose proof (year_base_step y Hy) as Hstep.
      repeat destruct Hcases as [->|Hcases]; try lia;
        match goal with |- context [year_base (if ?a + 1 <=? 2 then _ else _)] =>
          let n := eval compute in (a + 1) in change (a + 1) with n end;
        unfold days_in_month; cbn -[Z.mul year_base is_leap_year];
        destruct (is_leap_year y) in *; Z.to_euclidean_division_equations; lia.
    + assert (m = 12) as -> by lia. split; [done|].
      rewrite !days_from_civil_base by lia. cbn -[Z.mul year_base].
      replace (y + 1 - 1) with y by lia. Z.to_euclidean_division_equations; lia.
Qed.

(** ** ASCII input never panics *)

Definition all_ascii (bs : list Z) : Prop := Forall (fun b => 0 <= b < 128) bs.

Lemma boundary_ascii bs i : all_ascii bs -> (i <= length bs)%nat -> is_char_boundary bs i = true.
Proof.
  intros Hb Hi. unfold is_char_boundary, byte_at.
  destruct (Nat.eqb_spec i (length bs)) as [->|Hne]; [by rewrite orb_true_r|].
  assert (Hlt : (i < length bs)%nat) by lia.
  apply (proj2 (Nat.ltb_lt _ _)) in Hlt as Hlt'. rewrite Hlt'. simpl.
  pose proof (proj1 (List.Forall_forall _ _) Hb _ (nth_In bs 0 Hlt)) as Hr. simpl in Hr.
  destruct (Z.leb_spec 128 (nth i bs 0)); [lia|]. simpl. by rewrite !orb_true_r.
Qed.

Lemma slice_ascii {E} bs a b :
  all_ascii bs -> (a <= b <= length bs)%nat ->
  slice (E := E) bs a b = Ok (take (b - a) (drop a bs)).
Proof.
  intros Hb Hab. unfold slice. rewrite !boundary_ascii by (done || lia).
  by rewrite (proj2 (Nat.leb_le a b)) by lia.
Qed.

Lemma count_digits_le bs : (count_digits bs <= length bs)%nat.
Proof. induction bs as [|b bs IH]; simpl; [lia|]. destruct (is_ascii_digit b); simpl; lia. Qed.

Lemma opt_no_panic {A B E} (o : option A) (k : A -> result (option B) E) :
  (forall a, o = Some a -> k a <> Panic) -> opt o k <> Panic.
Proof. destruct o; simpl; [by auto | done]. Qed.

Lemma guard_no_panic {B E} c (k : result (option B) E) :
  (c = false -> k <> Panic) -> guard_or_none c k <> Panic.
Proof. destruct c; simpl; [done | by auto]. Qed.

Lemma bind_no_panic {A B E} (m : result A E) (f : A -> result B E) :
  m <> Panic -> (forall a, m = Ok a -> f a <> Panic) -> result_bind m f <> Panic.
Proof. destruct m; simpl; [by auto | done | done]. Qed.

Lemma parse_fraction_ascii {E} bs :
  all_ascii bs -> parse_fraction (E := E) bs <> Panic /\
  (forall f i, parse_fraction (E := E) bs = Ok (Some (f, i)) -> (19 <= length bs -> 19 <= i <= length bs)%nat).
Proof.
  intros Hb. unfold parse_fraction.
  pose proof (count_digits_le (drop 20 bs)) as Hc. rewrite length_drop in Hc.
  destruct (_ && _) eqn:E1.
  - apply andb_prop in E1 as [E1%Nat.ltb_lt _]. destruct (_ || _); [split; [done|by intros]|].
    rewrite slice_ascii by (done || lia). simpl. split.
    + apply opt_no_panic. intros v _. by apply opt_no_panic.
    + intros f i. destruct (parse_uint _ _); simpl; [|done].
      destruct (scale_by_ten _ _); simpl; [|done]. intros [= <- <-] ?. lia.
  - split; [done|]. intros f i [= <- <-] ?. lia.
Qed.

Lemma parse_offset_ascii {E} bs idx :
  all_ascii bs -> (idx <= length bs)%nat -> parse_offset (E := E) bs idx <> Panic.
Proof.
  intros Hb Hi. unfold parse_offset. repeat case_match; try done.
  all: repeat match goal with H : (_ <? _)%nat = false |- _ => apply Nat.ltb_ge in H end.
  all: rewrite slice_ascii by (done || lia); simpl; apply opt_no_panic; intros; apply guard_no_panic; intros.
  all: rewrite slice_ascii by (done || lia); simpl; by apply opt_no_panic.
Qed.

Ltac ascii_field :=
  rewrite slice_ascii by (done || lia); cbn [result_bind];
  apply opt_no_panic; intros ? _; try (apply guard_no_panic; intros _).

(** Parsing an ASCII string as a datetime never panics, whatever its
    length and content: it returns a value or reports an invalid datetime. *)
Theorem parse_ascii_total (s : string) (Hs : all_ascii (as_bytes s)) :
  exists r : option Z, parse_rfc3339_nanos (E := Empty_set) s = Ok r.
Proof.
  assert (Hp : parse_rfc3339_nanos (E := Empty_set) s <> Panic).
  { unfold parse_rfc3339_nanos. apply guard_no_panic. intros Hlen%Nat.ltb_ge.
    do 6 ascii_field.
    destruct (parse_fraction_ascii (E := Empty_set) _ Hs) as [Hf Hidx].
    apply bind_no_panic; [done|]. intros [[f idx]|] Hfr; [|done]. simpl.
    apply bind_no_panic; [apply parse_offset_ascii; [done|]; destruct (Hidx _ _ Hfr); lia|].
    intros [[o idx']|] _; [|done]. by apply guard_no_panic. }
  destruct (parse_rfc3339_nanos s) as [r|[]|]; [by exists r | done].
Qed.

Lemma parse_ascii_total_witness :
  exists r : option Z, parse_rfc3339_nanos (E := Empty_set) "2026-13-01T00:00:00Z" = Ok r.
Proof. apply (parse_ascii_total "2026-13-01T00:00:00Z"). repeat constructor; done. Defined.

(** ** What the parser can return *)

(** [r] is not an error and its value, if any, satisfies [P]. *)
Definition returns {A E} (P : A -> Prop) (r : result (option A) E) : Prop :=
  match r with
  | Ok (Some a) => P a
  | Ok None | Panic => True
  | Err _ => False
  end.

Section Returns.
Context {A E : Type} (P : A -> Prop).

Lemma returns_guard c (k : result (option A) E) : returns P k -> returns P (guard_or_none c k).
Proof. by destruct c. Qed.

Lemma returns_opt {B} (o : option B) (k : B -> result (option A) E) :
  (forall b, returns P (k b)) -> returns P (opt o k).
Proof. destruct o; simpl; [by auto | done]. Qed.

Lemma returns_slice bs a b (f : list Z -> result (option A) E) :
  (forall x, returns P (f x)) -> returns P (result_bind (slice bs a b) f).
Proof. unfold slice. destruct (_ && _); simpl; [by auto | done]. Qed.

Lemma returns_bind {B} (Q : B -> Prop) (m : result (option B) E)
    (f : option B -> result (option A) E) :
  returns Q m -> (forall o, returns P (f o)) -> returns P (result_bind m f).
Proof. destruct m; simpl; by auto. Qed.
End Returns.

Ltac returns_steps :=
  repeat first [apply returns_guard | apply returns_opt; intros ? | apply returns_slice; intros ?];
  try done.

Lemma parse_fraction_returns {E} bs : returns (fun _ => True) (parse_fraction (E := E) bs).
Proof. unfold parse_fraction. case_match; [|done]. case_match; [done|]. by returns_steps. Qed.

Lemma parse_offset_returns {E} bs i : returns (fun _ => True) (parse_offset (E := E) bs i).
Proof. unfold parse_offset. repeat case_match; by returns_steps. Qed.

Lemma assemble_nanos_range y mo d h mi s fr o z :
  assemble_nanos y mo d h mi s fr o = Some z -> i64_ok z = true.
Proof.
  unfold assemble_nanos. do 4 (case_match; try done).
  all: repeat match goal with |- context [checked_i64 ?x ≫= _] =>
         destruct (checked_i64 x); cbn [mbind option_bind]; [|done] end.
  all: unfold checked_i64; case_match; [|done]; by intros [= <-].
Qed.

(** A parsed datetime fits in 64 bits, and parsing reports no error value. *)
Lemma parse_rfc3339_returns {E} s : returns (fun z => i64_ok z = true) (parse_rfc3339_nanos (E := E) s).
Proof.
  unfold parse_rfc3339_nanos. apply returns_guard.
  do 6 (apply returns_slice; intros ?; apply returns_opt; intros ?; try apply returns_guard).
  apply (returns_bind _ (fun _ => True)); [apply parse_fraction_returns|].
  intros [[f idx]|]; [|done]. cbn [opt].
  apply (returns_bind _ (fun _ => True)); [apply parse_offset_returns|].
  intros [[o idx']|]; [|done]. cbn [opt]. apply returns_guard. simpl.
  destruct (assemble_nanos _ _ _ _ _ _ _ _) eqn:Ea; [|done]. by eapply assemble_nanos_range.
Qed.

(** ** Reading back a printed datetime *)

Definition digit_char (d : Z) : ascii := ascii_of_N (Z.to_N (48 + d)).

Definition print2 (n : Z) (rest : string) : string :=
  String (digit_char (n / 10)) (String (digit_char (n mod 10)) rest).

Definition print4 (n : Z) (rest : string) : string := print2 (n / 100) (print2 (n mod 100) rest).

(** The canonical text of a UTC instant, [YYYY-MM-DDThh:mm:ssZ], or with an
    offset [(negative, hours, minutes)] in place of the [Z]. *)
Definition print_rfc3339 (y mo d h mi s : Z) (off : option (bool * Z * Z)) : string :=
  print4 y (String "-" (print2 mo (String "-" (print2 d (String "T"
    (print2 h (String ":" (print2 mi (String ":" (print2 s
      match off with
      | None => "Z"
      | Some (neg, oh, om) =>
          String (if neg then "-" else "+")%char (print2 oh (String ":" (print2 om "")))
      end)))))))))).

Definition offset_minutes_of (off : option (bool * Z * Z)) : Z :=
  match off with
  | None => 0
  | Some (neg, oh, om) => (if neg : bool then -1 else 1) * (oh * 60 + om)
  end.

Lemma digit_char_byte d : 0 <= d <= 9 -> byte_of (digit_char d) = 48 + d.
Proof.
  intros Hd. unfold byte_of, digit_char. rewrite N_ascii_embedding; lia.
Qed.

Lemma as_bytes_print2 n rest :
  0 <= n <= 99 -> as_bytes (print2 n rest) = (48 + n / 10) :: (48 + n mod 10) :: as_bytes rest.
Proof.
  intros Hn. unfold print2. cbn [as_bytes].
  rewrite !digit_char_byte by (Z.to_euclidean_division_equations; lia). done.
Qed.

(** Decides the comparisons in the goal that the context settles. *)
Ltac decide_leb :=
  repeat match goal with
  | |- context [?a <=? ?b] =>
      first [rewrite (proj2 (Z.leb_le a b)) by lia | rewrite (proj2 (Z.leb_gt a b)) by lia]
  | |- context [?a <? ?b] =>
      first [rewrite (proj2 (Z.ltb_lt a b)) by lia | rewrite (proj2 (Z.ltb_ge a b)) by lia]
  end.

Lemma parse_uint_two max n :
  0 <= n <= 99 -> 99 <= max -> parse_uint max [48 + n / 10; 48 + n mod 10] = Some n.
Proof.
  intros Hn Hmax. unfold parse_uint, is_ascii_digit, digits_value. cbn [length Nat.eqb orb forallb fold_left].
  assert (0 <= n / 10 <= 9 /\ 0 <= n mod 10 <= 9) as [H1 H2]
    by (Z.to_euclidean_division_equations; lia).
  decide_leb. cbn [andb negb].
  f_equal. Z.to_euclidean_division_equations; lia.
Qed.

Lemma parse_uint_four max n :
  0 <= n <= 9999 -> 9999 <= max ->
  parse_uint max [48 + n / 100 / 10; 48 + (n / 100) mod 10; 48 + n mod 100 / 10; 48 + n mod 100 mod 10]
  = Some n.
Proof.
  intros Hn Hmax. unfold parse_uint, is_ascii_digit, digits_value. cbn [length Nat.eqb orb forallb fold_left].
  assert (0 <= n / 100 / 10 <= 9 /\ 0 <= (n / 100) mod 10 <= 9 /\
          0 <= n mod 100 / 10 <= 9 /\ 0 <= n mod 100 mod 10 <= 9) as (H1 & H2 & H3 & H4)
    by (Z.to_euclidean_division_equations; lia).
  decide_leb. cbn [andb negb].
  f_equal. Z.to_euclidean_division_equations; lia.
Qed.

(** The field reads of [parse_rfc3339_nanos] on a text of the printed shape. *)
Lemma parse_print_fields {E} y mo d h mi s off :
  0 <= y <= 9999 -> 0 <= mo <= 99 -> 0 <= d <= 99 -> 0 <= h <= 99 -> 0 <= mi <= 99 ->
  0 <= s <= 99 ->
  match off with None => True | Some (_, oh, om) => 0 <= oh <= 99 /\ 0 <= om <= 99 end ->
  parse_rfc3339_nanos (E := E) (print_rfc3339 y mo d h mi s off)
  = Ok (assemble_nanos y mo d h mi s 0 (offset_minutes_of off)).
Proof.
  intros Hy Hmo Hd Hh Hmi Hs Hoff.
  assert (Hr : forall n, 0 <= n <= 99 -> 0 <= n / 10 <= 9 /\ 0 <= n mod 10 <= 9)
    by (intros; Z.to_euclidean_division_equations; lia).
  assert (Hbs : exists tail, as_bytes (print_rfc3339 y mo d h mi s off) =
    48 + y / 100 / 10 :: 48 + (y / 100) mod 10 :: 48 + y mod 100 / 10 :: 48 + y mod 100 mod 10 ::
    45 :: 48 + mo / 10 :: 48 + mo mod 10 :: 45 :: 48 + d / 10 :: 48 + d mod 10 :: 84 ::
    48 + h / 10 :: 48 + h mod 10 :: 58 :: 48 + mi / 10 :: 48 + mi mod 10 :: 58 ::
    48 + s / 10 :: 48 + s mod 10 :: tail /\
    tail = match off with
           | None => [90]
           | Some (neg, oh, om) =>
               [(if neg then 45 else 43); 48 + oh / 10; 48 + oh mod 10; 58;
                48 + om / 10; 48 + om mod 10]
           end).
  { eexists. split; [|done]. unfold print_rfc3339, print4.
    rewrite !as_bytes_print2 by (Z.to_euclidean_division_equations; lia).
    do 5 (cbn [as_bytes]; rewrite as_bytes_print2 by assumption).
    destruct off as [[[[] oh] om]|]; [destruct Hoff..|done];
      do 2 (cbn [as_bytes]; rewrite as_bytes_print2 by assumption); done. }
  destruct Hbs as (tail & Hbs & Htail).
  assert (Hmax : 99 <= u32_max /\ 99 <= i64_max /\ 9999 <= i64_max) by (unfold u32_max, i64_max; lia).
  destruct Hmax as (Hu & Hi & Hi4).
  assert (Hascii : all_ascii (as_bytes (print_rfc3339 y mo d h mi s off))).
  { rewrite Hbs, Htail. unfold all_ascii.
    pose proof (Hr _ Hmo). pose proof (Hr _ Hd). pose proof (Hr _ Hh). pose proof (Hr _ Hmi).
    pose proof (Hr _ Hs). pose proof (Hr (y / 100)). pose proof (Hr (y mod 100)).
    assert (0 <= y / 100 <= 99 /\ 0 <= y mod 100 <= 99) by (Z.to_euclidean_division_equations; lia).
    repeat (constructor; [lia|]).
    destruct off as [[[[] oh] om]|]; [destruct Hoff as [Ho1 Ho2]..|];
      try (pose proof (Hr _ Ho1); pose proof (Hr _ Ho2)); repeat (constructor; [lia|]); constructor. }
  assert (Hlen : (20 <= length (as_bytes (print_rfc3339 y mo d h mi s off)))%nat).
  { rewrite Hbs, Htail. destruct off as [[[? ?] ?]|]; simpl; lia. }
  unfold parse_rfc3339_nanos. rewrite (proj2 (Nat.ltb_ge _ _)) by lia. cbn [guard_or_none].
  rewrite !slice_ascii by (done || lia). revert Hascii. rewrite Hbs. clear Hbs Hlen. intros Hascii.
  cbn [result_bind opt drop take Nat.sub byte_at nth Z.eqb Pos.eqb negb andb guard_or_none].
  rewrite parse_uint_four, !parse_uint_two by assumption.
  cbn [result_bind opt drop take Nat.sub byte_at nth Z.eqb Pos.eqb negb andb guard_or_none].
  destruct off as [[[neg oh] om]|]; subst tail; [destruct Hoff as [Ho1 Ho2]|reflexivity].
  destruct neg; unfold parse_fraction, parse_offset;
    cbn [result_bind opt Nat.add byte_at nth Z.eqb Pos.eqb negb andb orb length Nat.ltb Nat.leb];
    rewrite !slice_ascii by (done || simpl; lia);
    cbn [result_bind opt drop take Nat.sub nth Nat.leb];
    by rewrite !parse_uint_two by assumption.
Qed.

(** Reading back a printed datetime gives the instant it denotes: for every
    valid date and time of the years 0 to 9999 and every offset, the parser
    returns the epoch nanoseconds of the local time minus the offset when they
    fit in 64 bits, and rejects the value otherwise. *)
Theorem parse_print_roundtrip (y mo d h mi s : Z) (off : option (bool * Z * Z))
    (Hy : 0 <= y <= 9999) (Hdate : valid_date y mo d)
    (Ht : 0 <= h <= 23 /\ 0 <= mi <= 59 /\ 0 <= s <= 59)
    (Hoff : match off with None => True | Some (_, oh, om) => 0 <= oh <= 23 /\ 0 <= om <= 59 end) :
  parse_rfc3339_nanos (E := Empty_set) (print_rfc3339 y mo d h mi s off) =
  Ok (checked_i64
        ((days_from_civil y mo d * 86400 + (h * 3600 + mi * 60 + s)
          - offset_minutes_of off * 60) * 1000000000)).
Proof.
  destruct Hdate as [Hm Hd].
  assert (Hdim : days_in_month y mo <= 31) by (unfold days_in_month; repeat case_match; lia).
  rewrite parse_print_fields by (try lia; destruct off as [[[? ?] ?]|]; lia). f_equal.
  assert (Ho : -1439 <= offset_minutes_of off <= 1439).
  { destruct off as [[[[] oh] om]|]; simpl; lia. }
  assert (Hdays : -800000 <= days_from_civil y mo d <= 4000000).
  { rewrite days_from_civil_base by lia. unfold year_base.
    assert (0 <= (153 * (if 2 <? mo then mo - 3 else mo + 9) + 2) / 5 <= 400)
      by (destruct (Z.ltb_spec 2 mo); Z.to_euclidean_division_equations; lia).
    assert (-1 <= (if mo <=? 2 then y - 1 else y) <= 9999) by (destruct (Z.leb_spec mo 2); lia).
    generalize dependent (if mo <=? 2 then y - 1 else y). intros z Hz.
    Z.to_euclidean_division_equations; lia. }
  unfold assemble_nanos. decide_leb. cbn [negb andb orb].
  replace (s =? 60) with false by (symmetry; apply Z.eqb_neq; lia). decide_leb.
  assert (Hok : forall z, - 10 ^ 15 <= z <= 10 ^ 15 -> checked_i64 z = Some z).
  { intros z Hz. unfold checked_i64, i64_ok. by decide_leb. }
  repeat (rewrite Hok by lia; cbn [mbind option_bind]).
  destruct (checked_i64 _) as [n|] eqn:En; cbn [mbind option_bind]; [|done].
  rewrite <-En. f_equal. unfold checked_i64 in En. case_match; [|done]. injection En as <-. lia.
Qed.

Lemma parse_print_roundtrip_witness :
  parse_rfc3339_nanos (E := Empty_set) (print_rfc3339 2026 6 28 12 0 0 (Some (false, 2, 0)))
  = Ok (Some 1782640800000000000).
Proof.
  rewrite (parse_print_roundtrip 2026 6 28 12 0 0 (Some (false, 2, 0)));
    [vm_compute; reflexivity | lia | split; vm_compute; intuition discriminate | lia | lia].
Defined.

(** A datetime that is not ASCII can make the parser panic: in this valid
    UTF-8 text of 25 bytes the fourth byte starts a two-byte character, so the
    slice of the year ends inside it.  The documented contract is that any
    string that is not RFC 3339 is reported as unencodable. *)
Theorem parse_non_ascii_panics :
  let s := "202" +:+ String "195" (String "169" "-01-01T00:00:00.000Z") in
  length (as_bytes s) = 25%nat /\ parse_rfc3339_nanos (E := Empty_set) s = Panic.
Proof. vm_compute. done. Qed.
