(* ===== verification/IndexKeys.v ===== *)
(** * Index keys ([crates/axon-esf/src/index_key.rs], [types.rs] and the typed
    index values of [crates/axon-storage/src/adapter.rs])

    The canonical byte encoding of indexed values, its framed composite form,
    the typed values the in-memory indexes are ordered by, and the extraction
    of both from a JSON record. *)

From S2P Require Import Prelude Json Ids Datetime.
Local Open Scope Z_scope.
Local Open Scope axon_scope.

(** ** Declarations *)

Inductive IndexType : Type := TString | TInteger | TFloat | TDatetime | TBoolean.

#[export] Instance IndexType_eq_dec : EqDecision IndexType.
Proof. solve_decision. Defined.

Record IndexDef : Type := {
  ix_field : string;
  ix_type : IndexType;
  ix_unique : bool
}.

Record CompoundIndexField : Type := {
  cf_field : string;
  cf_type : IndexType
}.

Record CompoundIndexDef : Type := {
  ci_fields : list CompoundIndexField;
  ci_unique : bool
}.

(** ** Byte encodings *)

(** [to_be_bytes] of an [n]-byte unsigned integer. *)
Fixpoint be_bytes (n : nat) (z : Z) : list Z :=
  match n with
  | O => []
  | S n' => Z.land (Z.shiftr z (8 * Z.of_nat n')) 255 :: be_bytes n' z
  end.

(** [encode_i64]: sign bit flipped, big-endian. *)
Definition encode_i64 (v : Z) : list Z := be_bytes 8 (Z.lxor (wrap64 v) (Z.shiftl 1 63)).

(** The order-preserving bit pattern of [encode_f64]. *)
Definition f64_ordered_bits (bits : f64) : Z :=
  if Z.land bits (Z.shiftl 1 63) =? 0 then Z.lor bits (Z.shiftl 1 63)
  else Z.lxor bits u64_max.

(** [encode_f64] *)
Definition encode_f64 (bits : f64) : list Z := be_bytes 8 (f64_ordered_bits bits).

Definition u8_from_bool (b : bool) : Z := if b then 1 else 0.

(** The integral value of a float whose fractional part is zero. *)
Definition f64_integral (bits : f64) : option Z :=
  let sign := if Z.testbit bits 63 then -1 else 1 in
  let e := Z.land (Z.shiftr bits 52) 2047 in
  let m := Z.land bits (2 ^ 52 - 1) in
  if e =? 2047 then None
  else if e =? 0 then if m =? 0 then Some 0 else None
  else
    let mant := 2 ^ 52 + m in
    if 1075 <=? e then Some (sign * (mant * 2 ^ (e - 1075)))
    else if mant mod 2 ^ (1075 - e) =? 0 then Some (sign * (mant / 2 ^ (1075 - e)))
    else None.

(** ** Errors *)

Inductive UnencodableReason : Type :=
| NotRfc3339 (s : string)
| NotIntegralNanos (f : f64)
| NumericOutOfRange.

(** [IndexKeyError]; the human-readable reason is kept structured. *)
Inductive IndexKeyError : Type :=
| TypeMismatch (field : string) (expected : IndexType) (found : string)
| Unencodable (field : string) (reason : UnencodableReason).

Section Encoders.
Context `{SerdeNumber}.

Definition json_type_name (v : Value) : string :=
  match v with
  | Null => "null"
  | Bool _ => "boolean"
  | Number _ => "number"
  | JString _ => "string"
  | Array _ => "array"
  | Object _ => "object"
  end.

Definition type_mismatch (field : string) (expected : IndexType) (v : Value) : IndexKeyError :=
  TypeMismatch field expected (json_type_name v).

(** [coerce_datetime_nanos_with_field] *)
Definition coerce_datetime_nanos_with_field (field : string) (v : Value)
  : result Z IndexKeyError :=
  match v with
  | JString s =>
      let? o := parse_rfc3339_nanos s in
      ok_or o (Unencodable field (NotRfc3339 s))
  | Number n =>
      match number_as_i64 n with
      | Some v => Ok v
      | None =>
          match number_as_f64 n with
          | Some f =>
              match f64_integral f with
              | Some z => if (- 2 ^ 63 <=? z) && (z <? 2 ^ 63) then Ok z
                          else Err (Unencodable field (NotIntegralNanos f))
              | None => Err (Unencodable field (NotIntegralNanos f))
              end
          | None => Err (Unencodable field NumericOutOfRange)
          end
      end
  | other => Err (type_mismatch field TDatetime other)
  end.

(** [coerce_datetime_nanos] *)
Definition coerce_datetime_nanos (v : Value) : result Z IndexKeyError :=
  coerce_datetime_nanos_with_field "datetime" v.

(** [encode_datetime] *)
Definition encode_datetime (field : string) (v : Value) : result (list Z) IndexKeyError :=
  let? n := coerce_datetime_nanos_with_field field v in Ok (encode_i64 n).

(** [encode_value] *)
Definition encode_value (field : string) (v : Value) (ty : IndexType)
  : result (list Z) IndexKeyError :=
  match ty with
  | TString =>
      match as_str v with
      | Some s => Ok (as_bytes s)
      | None => Err (type_mismatch field ty v)
      end
  | TInteger =>
      match as_i64 v with
      | Some n => Ok (encode_i64 n)
      | None => Err (type_mismatch field ty v)
      end
  | TFloat =>
      match as_f64 v with
      | Some f => Ok (encode_f64 f)
      | None => Err (type_mismatch field ty v)
      end
  | TBoolean =>
      match as_bool v with
      | Some b => Ok [u8_from_bool b]
      | None => Err (type_mismatch field ty v)
      end
  | TDatetime => encode_datetime field v
  end.

(** [encode_index_value] *)
Definition encode_index_value (v : Value) (ty : IndexType) : result (list Z) IndexKeyError :=
  encode_value "value" v ty.

(** [frame]: big-endian [u32] length, then the bytes. *)
Definition frame (encoded out : list Z) : list Z :=
  out ++ be_bytes 4 (Z.of_nat (length encoded) mod 2 ^ 32) ++ encoded.

(** The loop of [encode_compound_index_key]; [pos] is the enumeration index
    and [show] prints it ([pos.to_string()]). *)
Fixpoint encode_compound_from (show : nat -> string) (pos : nat)
    (fields : list (Value * IndexType)) (out : list Z)
  : result (option (list Z)) IndexKeyError :=
  match fields with
  | [] => Ok (Some out)
  | (v, ty) :: fields' =>
      if is_null v then Ok None
      else
        let? encoded := encode_value (show pos) v ty in
        encode_compound_from show (S pos) fields' (frame encoded out)
  end.

(** [usize::to_string] *)
Fixpoint decimal_from (fuel n : nat) (acc : string) : string :=
  match fuel with
  | O => acc
  | S fuel' =>
      let acc' := String (digit_char (Z.of_nat (Nat.modulo n 10))) acc in
      if (n <? 10)%nat then acc' else decimal_from fuel' (Nat.div n 10) acc'
  end.
Definition show_usize (n : nat) : string := decimal_from (S n) n "".

(** [encode_compound_index_key] *)
Definition encode_compound_index_key (fields : list (Value * IndexType))
  : result (option (list Z)) IndexKeyError :=
  encode_compound_from show_usize 0 fields [].

(** [extract_path] *)
Fixpoint get_path (v : Value) (segments : list string) : option Value :=
  match segments with
  | [] => Some v
  | seg :: segs => value_get v seg ≫= fun v' => get_path v' segs
  end.
Definition extract_path (v : Value) (path : string) : option Value :=
  if decide (path = "") then Some v else get_path v (split_on dot path).

(** [resolve_field_path] of the storage adapter *)
Definition resolve_field_path (v : Value) (path : string) : option Value :=
  get_path v (split_on dot path).

(** [IndexDef::index_key] *)
Definition index_def_key (d : IndexDef) (record : Value) : result (option (list Z)) IndexKeyError :=
  match extract_path record (ix_field d) with
  | None => Ok None
  | Some v =>
      if is_null v then Ok None
      else
        let? encoded := encode_value (ix_field d) v (ix_type d) in
        Ok (Some (frame encoded []))
  end.

(** The fields a compound index resolves before encoding; [None] when a path
    is missing. *)
Fixpoint resolve_fields (record : Value) (fields : list CompoundIndexField)
  : option (list (Value * IndexType)) :=
  match fields with
  | [] => Some []
  | f :: fs =>
      extract_path record (cf_field f) ≫= fun v =>
      resolve_fields record fs ≫= fun rest => Some ((v, cf_type f) :: rest)
  end.

(** [field_name_at]: the declared path of a positional error field. *)
Definition field_name_at (d : CompoundIndexDef) (positional : string) : option string :=
  match parse_uint u64_max (as_bytes positional) with
  | Some i => cf_field <$> (ci_fields d !! Z.to_nat i)
  | None => None
  end.

Definition rename_error (d : CompoundIndexDef) (e : IndexKeyError) : IndexKeyError :=
  match e with
  | TypeMismatch field expected found =>
      TypeMismatch (default field (field_name_at d field)) expected found
  | Unencodable field reason => Unencodable (default field (field_name_at d field)) reason
  end.

(** [CompoundIndexDef::index_key] *)
Definition compound_index_key (d : CompoundIndexDef) (record : Value)
  : result (option (list Z)) IndexKeyError :=
  match resolve_fields record (ci_fields d) with
  | None => Ok None
  | Some resolved =>
      match encode_compound_index_key resolved with
      | Ok r => Ok r
      | Err e => Err (rename_error d e)
      | Panic => Panic
      end
  end.
End Encoders.

(** ** Typed index values *)

(** [OrderedFloat] is the float's bit pattern. *)
Inductive IndexValue : Type :=
| IVString (s : string)
| IVInteger (n : Z)
| IVFloat (bits : f64)
| IVBoolean (b : bool)
| IVDatetime (nanos : Z).

#[export] Instance IndexValue_eq_dec : EqDecision IndexValue.
Proof. solve_decision. Defined.
#[export] Instance IndexValue_countable : Countable IndexValue.
Proof.
  apply (inj_countable'
    (fun v => match v with
              | IVString s => inl (inl (inl s))
              | IVInteger n => inl (inl (inr n))
              | IVFloat b => inl (inr b)
              | IVBoolean b => inr (inl b)
              | IVDatetime n => inr (inr n)
              end)
    (fun x : string + Z + Z + (bool + Z) => match x with
              | inl (inl (inl s)) => IVString s
              | inl (inl (inr n)) => IVInteger n
              | inl (inr b) => IVFloat b
              | inr (inl b) => IVBoolean b
              | inr (inr n) => IVDatetime n
              end)).
  by intros [].
Defined.

(** [bits as i64] *)
Definition as_signed (bits : Z) : Z := if bits <? 2 ^ 63 then bits else bits - 2 ^ 64.

(** [f64::total_cmp]: the signed bits with the 63 low bits of a negative
    number flipped, compared as signed integers. *)
Definition total_cmp_key (bits : f64) : Z :=
  let left := as_signed bits in
  Z.lxor left (Z.shiftr (wrap64 (Z.shiftr left 63)) 1).
Definition total_cmp (a b : f64) : comparison := Z.compare (total_cmp_key a) (total_cmp_key b).

Definition bool_compare (a b : bool) : comparison :=
  match a, b with
  | false, true => Lt
  | true, false => Gt
  | _, _ => Eq
  end.

Definition variant_rank (v : IndexValue) : Z :=
  match v with
  | IVString _ => 0
  | IVInteger _ => 1
  | IVFloat _ => 2
  | IVBoolean _ => 3
  | IVDatetime _ => 4
  end.

(** The derived [Ord] of [IndexValue]: by variant, then by payload. *)
Definition index_value_compare (a b : IndexValue) : comparison :=
  match a, b with
  | IVString s, IVString t => String.compare s t
  | IVInteger m, IVInteger n => Z.compare m n
  | IVFloat x, IVFloat y => total_cmp x y
  | IVBoolean x, IVBoolean y => bool_compare x y
  | IVDatetime m, IVDatetime n => Z.compare m n
  | _, _ => Z.compare (variant_rank a) (variant_rank b)
  end.

(** [IndexValue::index_type] *)
Definition index_type_of (v : IndexValue) : IndexType :=
  match v with
  | IVString _ => TString
  | IVInteger _ => TInteger
  | IVFloat _ => TFloat
  | IVBoolean _ => TBoolean
  | IVDatetime _ => TDatetime
  end.

(** [CompoundKey]: ordered lexicographically. *)
Definition CompoundKey : Type := list IndexValue.

Fixpoint compound_compare (a b : CompoundKey) : comparison :=
  match a, b with
  | [], [] => Eq
  | [], _ :: _ => Lt
  | _ :: _, [] => Gt
  | x :: a', y :: b' =>
      match index_value_compare x y with
      | Eq => compound_compare a' b'
      | c => c
      end
  end.

Section Typed.
Context `{SerdeNumber}.

(** [IndexValue::to_json] *)
Definition index_value_to_json (v : IndexValue) : Value :=
  match v with
  | IVString s => JString s
  | IVInteger n => Number (number_of_i64 n)
  | IVFloat b => match number_of_f64 b with Some n => Number n | None => Null end
  | IVBoolean b => Bool b
  | IVDatetime n => Number (number_of_i64 n)
  end.

(** [IndexValue::encode_key] *)
Definition encode_key (v : IndexValue) : result (list Z) IndexKeyError :=
  encode_index_value (index_value_to_json v) (index_type_of v).

(** [CompoundKey::encode_framed] *)
Definition encode_framed (k : CompoundKey) : result (option (list Z)) IndexKeyError :=
  encode_compound_index_key (map (fun v => (index_value_to_json v, index_type_of v)) k).

(** [extract_index_value] *)
Definition extract_index_value {E} (v : Value) (ty : IndexType) : result (option IndexValue) E :=
  match ty with
  | TString => Ok (IVString <$> as_str v)
  | TInteger => Ok (IVInteger <$> as_i64 v)
  | TFloat => Ok (IVFloat <$> as_f64 v)
  | TBoolean => Ok (IVBoolean <$> as_bool v)
  | TDatetime =>
      let? o := result_ok (coerce_datetime_nanos v) in
      Ok (IVDatetime <$> o)
  end.

(** [str::strip_suffix] with the array marker. *)
Fixpoint strip_brackets (s : string) : option string :=
  if decide (s = "[]") then Some ""
  else match s with
       | EmptyString => None
       | String c s' => String c <$> strip_brackets s'
       end.

(** [collect_index_json_values] *)
Fixpoint collect_index_json_values (v : Value) (segments : list string) : list Value :=
  match segments with
  | [] => [v]
  | segment :: rest =>
      match strip_brackets segment with
      | Some field =>
          match value_get v field ≫= as_array with
          | Some items => flat_map (fun item => collect_index_json_values item rest) items
          | None => []
          end
      | None =>
          match value_get v segment with
          | Some next => collect_index_json_values next rest
          | None => []
          end
      end
  end.

(** [extract_index_values] *)
Definition extract_index_values {E} (data : Value) (field : string) (ty : IndexType)
  : result (list IndexValue) E :=
  let? os := result_map (fun v => extract_index_value v ty)
               (collect_index_json_values data (split_on dot field)) in
  Ok (somes os).

(** [extract_index_key_bytes] *)
Definition extract_index_key_bytes {E} (data : Value) (field : string) (ty : IndexType)
  : result (list (list Z)) E :=
  let? os := result_map (fun v => if is_null v then Ok None
                                  else result_ok (encode_index_value v ty))
               (collect_index_json_values data (split_on dot field)) in
  Ok (somes os).

(** [extract_compound_key] *)
Fixpoint extract_compound_key {E} (data : Value) (fields : list CompoundIndexField)
  : result (option CompoundKey) E :=
  match fields with
  | [] => Ok (Some [])
  | f :: fs =>
      match resolve_field_path data (cf_field f) with
      | None => Ok None
      | Some v =>
          let? o := extract_index_value v (cf_type f) in
          match o with
          | None => Ok None
          | Some iv =>
              let? rest := extract_compound_key data fs in
              Ok ((fun ivs => iv :: ivs) <$> rest)
          end
      end
  end.
End Typed.

(** [prefix_successor]: works on the reversed bytes, popping trailing 0xFF. *)
Fixpoint bump_last (rev_bytes : list Z) : option (list Z) :=
  match rev_bytes with
  | [] => None
  | last :: rest => if last <? 255 then Some (rev (last + 1 :: rest)) else bump_last rest
  end.
Definition prefix_successor (p : list Z) : option (list Z) := bump_last (rev p).

(** ** Lemmas: big-endian bytes *)

Lemma be_bytes_digit n z :
  0 <= z -> Z.land (Z.shiftr z (8 * Z.of_nat n)) 255 = (z / 256 ^ Z.of_nat n) mod 256.
Proof.
  intros Hz. rewrite Z.shiftr_div_pow2 by lia.
  change 255 with (Z.ones 8). rewrite Z.land_ones by lia. rewrite Z.pow_mul_r by lia. done.
Qed.

Lemma mod_step n z :
  0 <= z -> z mod 256 ^ Z.of_nat (S n) =
  (z / 256 ^ Z.of_nat n) mod 256 * 256 ^ Z.of_nat n + z mod 256 ^ Z.of_nat n.
Proof.
  intros Hz. assert (Hp : 0 < 256 ^ Z.of_nat n) by (apply Z.pow_pos_nonneg; lia).
  rewrite Nat2Z.inj_succ, Z.pow_succ_r, (Z.mul_comm 256), Z.rem_mul_r by lia. lia.
Qed.

(** Byte order of big-endian bytes is numeric order. *)
Lemma memcmp_be_bytes n a b :
  0 <= a -> 0 <= b ->
  memcmp (be_bytes n a) (be_bytes n b) =
  Z.compare (a mod 256 ^ Z.of_nat n) (b mod 256 ^ Z.of_nat n).
Proof.
  intros Ha Hb. induction n as [|n IH]; cbn [be_bytes memcmp].
  - by rewrite !Z.mod_1_r.
  - rewrite !be_bytes_digit by done. rewrite !mod_step by done.
    assert (Hp : 0 < 256 ^ Z.of_nat n) by (apply Z.pow_pos_nonneg; lia).
    pose proof (Z.mod_pos_bound a _ Hp). pose proof (Z.mod_pos_bound b _ Hp).
    rewrite IH. clear IH.
    generalize dependent (256 ^ Z.of_nat n). intros p Hp Ha' Hb'.
    generalize ((a / p) mod 256) ((b / p) mod 256). intros x y.
    destruct (Z.compare_spec x y) as [->|Hlt|Hgt].
    + destruct (Z.compare_spec (a mod p) (b mod p)); symmetry;
        [apply Z.compare_eq_iff|apply Z.compare_lt_iff|apply Z.compare_gt_iff]; lia.
    + symmetry. apply Z.compare_lt_iff. nia.
    + symmetry. apply Z.compare_gt_iff. nia.
Qed.

Lemma memcmp_be8 a b :
  0 <= a < 2 ^ 64 -> 0 <= b < 2 ^ 64 -> memcmp (be_bytes 8 a) (be_bytes 8 b) = Z.compare a b.
Proof.
  intros Ha Hb. rewrite memcmp_be_bytes by lia.
  change (256 ^ Z.of_nat 8) with (2 ^ 64). by rewrite !Z.mod_small.
Qed.

(** ** Lemmas: bit patterns *)

Lemma testbit_high u k n : 0 <= u < 2 ^ k -> 0 <= k <= n -> Z.testbit u n = false.
Proof.
  intros Hu Hk. rewrite <-(Z.mod_small u (2 ^ k)) by done. apply Z.mod_pow2_bits_high. lia.
Qed.

Lemma land_pow2_small u k : 0 <= k -> 0 <= u < 2 ^ k -> Z.land u (2 ^ k) = 0.
Proof.
  intros Hk Hu. apply Z.bits_inj'. intros n Hn. rewrite Z.land_spec, Z.bits_0.
  rewrite Z.pow2_bits_eqb by lia. destruct (Z.eqb_spec k n) as [<-|]; [|by rewrite andb_false_r].
  by rewrite (testbit_high u k k) by lia.
Qed.

(** Flipping the top bit shifts by half the range. *)
Lemma lxor_top u k :
  0 <= k -> 0 <= u < 2 ^ (k + 1) ->
  Z.lxor u (2 ^ k) = if u <? 2 ^ k then u + 2 ^ k else u - 2 ^ k.
Proof.
  intros Hk Hu. rewrite Z.pow_add_r in Hu by lia. change (2 ^ 1) with 2 in Hu.
  destruct (Z.ltb_spec u (2 ^ k)).
  - rewrite Z.add_nocarry_lxor by (apply land_pow2_small; lia). done.
  - replace u with ((u - 2 ^ k) + 2 ^ k) at 1 by lia.
    rewrite (Z.add_nocarry_lxor (u - 2 ^ k)) by (apply land_pow2_small; lia).
    by rewrite Z.lxor_assoc, Z.lxor_nilpotent, Z.lxor_0_r.
Qed.

Lemma lxor_ones u k : 0 <= k -> 0 <= u < 2 ^ k -> Z.lxor u (2 ^ k - 1) = 2 ^ k - 1 - u.
Proof.
  intros Hk Hu. assert (Hones : 2 ^ k - 1 = Z.ones k) by (rewrite Z.ones_equiv; lia).
  rewrite Hones. symmetry. rewrite Z.sub_nocarry_ldiff.
  - apply Z.bits_inj'. intros n Hn. rewrite Z.ldiff_spec, Z.lxor_spec.
    destruct (Z.ltb_spec n k).
    + rewrite Z.ones_spec_low by lia. by destruct (Z.testbit u n).
    + by rewrite Z.ones_spec_high, (testbit_high u k n) by lia.
  - apply Z.bits_inj'. intros n Hn. rewrite Z.ldiff_spec, Z.bits_0.
    destruct (Z.ltb_spec n k).
    + rewrite Z.ones_spec_low by lia. by rewrite andb_false_r.
    + by rewrite (testbit_high u k n) by lia.
Qed.

Lemma i64_ok_spec z : i64_ok z = true <-> - 2 ^ 63 <= z < 2 ^ 63.
Proof. unfold i64_ok. rewrite andb_true_iff, Z.leb_le, Z.ltb_lt. done. Qed.

Lemma f64_ok_spec b : f64_ok b = true <-> 0 <= b < 2 ^ 64.
Proof. unfold f64_ok. rewrite andb_true_iff, Z.leb_le, Z.ltb_lt. done. Qed.

(** Flipping the sign bit of a two's complement integer adds 2^63. *)
Lemma encode_i64_bits v :
  i64_ok v = true -> Z.lxor (wrap64 v) (Z.shiftl 1 63) = v + 2 ^ 63.
Proof.
  intros Hv%i64_ok_spec. change (Z.shiftl 1 63) with (2 ^ 63). unfold wrap64.
  rewrite lxor_top by (try lia; apply Z.mod_pos_bound; lia).
  destruct (Z.ltb_spec v 0).
  - rewrite <-(Z.mod_add v 1), Z.mod_small by lia.
    destruct (Z.ltb_spec (v + 1 * 2 ^ 64) (2 ^ 63)); lia.
  - rewrite Z.mod_small by lia. destruct (Z.ltb_spec v (2 ^ 63)); lia.
Qed.

Lemma encode_i64_order a b :
  i64_ok a = true -> i64_ok b = true ->
  memcmp (encode_i64 a) (encode_i64 b) = Z.compare a b.
Proof.
  intros Ha Hb. unfold encode_i64. rewrite !encode_i64_bits by done.
  apply i64_ok_spec in Ha, Hb. rewrite memcmp_be8 by lia.
  rewrite (Z.add_comm a), (Z.add_comm b). apply Z.add_compare_mono_l.
Qed.

(** Both float orders are an affine image of the sign-magnitude value. *)
Lemma f64_ordered_bits_spec b :
  f64_ok b = true ->
  f64_ordered_bits b = if b <? 2 ^ 63 then b + 2 ^ 63 else 2 ^ 64 - 1 - b.
Proof.
  intros Hb%f64_ok_spec. unfold f64_ordered_bits. change (Z.shiftl 1 63) with (2 ^ 63).
  destruct (Z.ltb_spec b (2 ^ 63)).
  - rewrite land_pow2_small by lia. cbn [Z.eqb].
    by rewrite <-Z.lxor_lor, <-Z.add_nocarry_lxor by (apply land_pow2_small; lia).
  - assert (Hl : Z.land b (2 ^ 63) = 2 ^ 63).
    { apply Z.bits_inj'. intros n Hn. rewrite Z.land_spec, Z.pow2_bits_eqb by lia.
      destruct (Z.eqb_spec 63 n) as [<-|]; [|by rewrite andb_false_r]. rewrite andb_true_r.
      replace b with ((b - 2 ^ 63) + 2 ^ 63) by lia.
      rewrite Z.add_nocarry_lxor by (apply land_pow2_small; lia).
      by rewrite Z.lxor_spec, (testbit_high (b - 2 ^ 63) 63 63), Z.pow2_bits_eqb by lia. }
    rewrite Hl. change (2 ^ 63 =? 0) with false. unfold u64_max. apply lxor_ones; lia.
Qed.

Lemma total_cmp_key_spec b :
  f64_ok b = true -> total_cmp_key b = if b <? 2 ^ 63 then b else 2 ^ 63 - 1 - b.
Proof.
  intros Hb%f64_ok_spec. unfold total_cmp_key, as_signed.
  destruct (Z.ltb_spec b (2 ^ 63)).
  - rewrite (Z.shiftr_div_pow2 b), Z.div_small by lia. by rewrite Z.lxor_0_r.
  - assert (Hs : Z.shiftr (b - 2 ^ 64) 63 = -1).
    { rewrite Z.shiftr_div_pow2 by lia. symmetry.
      apply (Z.div_unique _ _ _ (b - 2 ^ 63)); lia. }
    rewrite Hs. change (Z.shiftr (wrap64 (-1)) 1) with (2 ^ 63 - 1).
    replace (b - 2 ^ 64) with (Z.lnot (2 ^ 64 - 1 - b)) by (unfold Z.lnot; lia).
    rewrite <-Z.lnot_lxor_l, lxor_ones by lia. unfold Z.lnot. lia.
Qed.

Lemma encode_f64_order a b :
  f64_ok a = true -> f64_ok b = true -> memcmp (encode_f64 a) (encode_f64 b) = total_cmp a b.
Proof.
  intros Ha Hb. unfold encode_f64, total_cmp.
  rewrite !f64_ordered_bits_spec, !total_cmp_key_spec by done.
  apply f64_ok_spec in Ha, Hb.
  rewrite memcmp_be8 by (destruct (Z.ltb_spec a (2 ^ 63)), (Z.ltb_spec b (2 ^ 63)); lia).
  destruct (Z.ltb_spec a (2 ^ 63)), (Z.ltb_spec b (2 ^ 63));
    match goal with |- (?x ?= ?y) = (?u ?= ?v) =>
      destruct (Z.compare_spec u v);
        [apply Z.compare_eq_iff|apply Z.compare_lt_iff|apply Z.compare_gt_iff] end; lia.
Qed.

(** ** The typed and the byte representation agree *)

(** The unframed bytes of a typed value. *)
Definition typed_bytes (v : IndexValue) : list Z :=
  match v with
  | IVString s => as_bytes s
  | IVInteger n => encode_i64 n
  | IVFloat b => encode_f64 b
  | IVBoolean b => [u8_from_bool b]
  | IVDatetime n => encode_i64 n
  end.

(** Payloads within the width of their Rust type; floats finite, as JSON
    numbers are. *)
Definition iv_ok (v : IndexValue) : bool :=
  match v with
  | IVInteger n | IVDatetime n => i64_ok n
  | IVFloat b => f64_ok b && f64_is_finite b
  | _ => true
  end.

#[local] Opaque parse_rfc3339_nanos f64_integral.

Section Agreement.
Context `{SerdeNumberLaws}.

Lemma coerce_range field v n :
  coerce_datetime_nanos_with_field field v = Ok n -> i64_ok n = true.
Proof.
  destruct v as [| |k|s| |]; simpl; try done.
  - destruct (number_as_i64 k) as [z|] eqn:E1; [intros [= <-]; by eapply as_i64_range|].
    destruct (number_as_f64 k) as [f|]; [|done]. destruct (f64_integral f) as [z|]; [|done].
    destruct (_ && _) eqn:E2; [|done]. by intros [= <-].
  - pose proof (parse_rfc3339_returns (E := IndexKeyError) s) as Hr.
    destruct (parse_rfc3339_nanos s) as [[z|]| |]; try done. simpl. by intros [= <-].
Qed.

Lemma coerce_field_irrelevant f g v :
  match coerce_datetime_nanos_with_field f v, coerce_datetime_nanos_with_field g v with
  | Ok a, Ok b => a = b
  | Err _, Err _ => True
  | Panic, Panic => True
  | _, _ => False
  end.
Proof.
  destruct v as [| |k|s| |]; simpl; try done.
  - destruct (number_as_i64 k); [done|]. destruct (number_as_f64 k) as [b|]; [|done].
    destruct (f64_integral b); [|done]. by destruct (_ && _).
  - pose proof (parse_rfc3339_returns (E := IndexKeyError) s) as Hr.
    by destruct (parse_rfc3339_nanos s) as [[z|]| |].
Qed.

(** Extraction of a typed value and byte encoding of the same JSON value
    succeed, skip and panic together. *)
Lemma extract_encode_agree {E} v ty :
  match extract_index_value (E := E) v ty with
  | Ok (Some iv) =>
      encode_index_value v ty = Ok (typed_bytes iv) /\ index_type_of iv = ty /\ iv_ok iv = true
  | Ok None => exists e, encode_index_value v ty = Err e
  | Err _ => False
  | Panic => encode_index_value v ty = Panic
  end.
Proof.
  unfold encode_index_value. destruct ty; cbn [extract_index_value encode_value].
  - destruct (as_str v); simpl; eauto.
  - destruct (as_i64 v) as [z|] eqn:Ez; simpl; [|eauto].
    destruct v; try done. simpl in Ez. split_and!; [done..|]. by eapply as_i64_range.
  - destruct (as_f64 v) as [z|] eqn:Ez; simpl; [|eauto].
    destruct v; try done. simpl in Ez. apply as_f64_range in Ez as [-> ->]. done.
  - unfold encode_datetime, coerce_datetime_nanos.
    pose proof (coerce_field_irrelevant "datetime" "value" v) as Hagree.
    destruct (coerce_datetime_nanos_with_field "datetime" v) as [n|e|] eqn:E1;
      destruct (coerce_datetime_nanos_with_field "value" v) as [n'|e'|] eqn:E2; try done; simpl; eauto.
    subst. split_and!; [done..|]. by eapply coerce_range.
  - destruct (as_bool v); simpl; eauto.
Qed.

(** Typed order is byte order, for values of one index type. *)
Lemma typed_bytes_order a b :
  index_type_of a = index_type_of b -> iv_ok a = true -> iv_ok b = true ->
  memcmp (typed_bytes a) (typed_bytes b) = index_value_compare a b.
Proof.
  destruct a as [s|m|x|x|m], b as [t|n|y|y|n]; intros Ht Ha Hb; try discriminate Ht;
    cbn [typed_bytes index_value_compare iv_ok] in *.
  - symmetry. apply string_compare_memcmp.
  - by apply encode_i64_order.
  - apply andb_prop in Ha as [? _], Hb as [? _]. by apply encode_f64_order.
  - by destruct x, y.
  - by apply encode_i64_order.
Qed.
End Agreement.

(** ** Lemmas: framing *)

Lemma index_value_compare_eq a b :
  iv_ok a = true -> iv_ok b = true -> index_value_compare a b = Eq -> a = b.
Proof.
  destruct a as [s|m|x|x|m], b as [t|n|y|y|n]; intros Ha Hb; cbn [index_value_compare iv_ok] in *;
    try discriminate.
  - by intros ->%String.compare_eq_iff.
  - by intros ->%Z.compare_eq_iff.
  - apply andb_prop in Ha as [Ha _], Hb as [Hb _]. unfold total_cmp.
    rewrite !total_cmp_key_spec by done. apply f64_ok_spec in Ha, Hb.
    intros E%Z.compare_eq_iff. f_equal.
    destruct (Z.ltb_spec x (2 ^ 63)), (Z.ltb_spec y (2 ^ 63)); lia.
  - by destruct x, y.
  - by intros ->%Z.compare_eq_iff.
Qed.

Lemma typed_bytes_inj `{SerdeNumberLaws} a b :
  index_type_of a = index_type_of b -> iv_ok a = true -> iv_ok b = true ->
  typed_bytes a = typed_bytes b -> a = b.
Proof.
  intros Ht Ha Hb E. apply index_value_compare_eq; [done..|].
  rewrite <-typed_bytes_order by done. rewrite E. apply memcmp_refl.
Qed.

(** The framed bytes of a list of encoded values. *)
Definition frames (l : list (list Z)) : list Z :=
  concat (map (fun e => be_bytes 4 (Z.of_nat (length e) mod 2 ^ 32) ++ e) l).

Lemma be_bytes_length n z : length (be_bytes n z) = n.
Proof. induction n as [|n IH]; simpl; [done|]. by rewrite IH. Qed.

Lemma be_bytes4_inj a b :
  0 <= a < 2 ^ 32 -> 0 <= b < 2 ^ 32 -> be_bytes 4 a = be_bytes 4 b -> a = b.
Proof.
  intros Ha Hb E. assert (Hc : memcmp (be_bytes 4 a) (be_bytes 4 b) = Eq)
    by (rewrite E; apply memcmp_refl).
  rewrite memcmp_be_bytes in Hc by lia. change (256 ^ Z.of_nat 4) with (2 ^ 32) in Hc.
  rewrite !Z.mod_small in Hc by done. by apply Z.compare_eq_iff in Hc.
Qed.

(** A length that the [u32] prefix represents. *)
Definition frame_ok (e : list Z) : Prop := Z.of_nat (length e) < 2 ^ 32.

Lemma frame_prefix_inj e1 e2 x y :
  frame_ok e1 -> frame_ok e2 ->
  (be_bytes 4 (Z.of_nat (length e1) mod 2 ^ 32) ++ e1) ++ x =
  (be_bytes 4 (Z.of_nat (length e2) mod 2 ^ 32) ++ e2) ++ y -> e1 = e2 /\ x = y.
Proof.
  unfold frame_ok. intros H1 H2 E. rewrite <-!app_assoc in E.
  apply app_inj_1 in E as [E1 E2]; [|by rewrite !be_bytes_length].
  rewrite !Z.mod_small in E1 by lia. apply be_bytes4_inj in E1; [|lia..].
  by apply app_inj_1 in E2; [|lia].
Qed.

(** Byte prefixes of framed keys are prefixes of the value lists. *)
Lemma frames_prefix l1 l2 :
  Forall frame_ok l1 -> Forall frame_ok l2 ->
  frames l1 `prefix_of` frames l2 <-> l1 `prefix_of` l2.
Proof.
  intros H1 H2. split.
  - revert l2 H2. induction H1 as [|e1 l1 He1 H1 IH]; intros l2 H2 [x E]; [by exists l2|].
    destruct H2 as [|e2 l2 He2 H2].
    + done.
    + unfold frames in E. cbn [map concat] in E. apply eq_sym in E.
      rewrite <-(app_assoc (be_bytes 4 (Z.of_nat (length e1) mod 2 ^ 32) ++ e1)) in E.
      apply frame_prefix_inj in E as [-> E]; [|done..].
      destruct (IH l2 H2) as [z ->]; [by exists x|]. by exists z.
  - intros [z ->]. exists (frames z). unfold frames. by rewrite map_app, concat_app.
Qed.

Section Framing.
Context `{SerdeNumberLaws}.

(** Re-encoding a typed value reproduces the stored bytes. *)
Lemma encode_key_bytes v field :
  iv_ok v = true ->
  encode_value field (index_value_to_json v) (index_type_of v) = Ok (typed_bytes v) /\
  is_null (index_value_to_json v) = false.
Proof.
  destruct v as [s|n|b|b|n]; intros Hv;
    cbn [index_value_to_json index_type_of encode_value typed_bytes iv_ok as_str as_bool] in *;
    try done.
  - unfold as_i64. by rewrite as_i64_of_i64.
  - apply andb_prop in Hv as [H1 H2]. destruct (of_f64_finite b H1 H2) as [n Hn]. rewrite Hn.
    unfold as_f64. by rewrite (as_f64_of_f64 _ _ Hn).
  - unfold encode_datetime. cbn [coerce_datetime_nanos_with_field].
    by rewrite as_i64_of_i64.
Qed.

Lemma encode_framed_from show pos k out :
  Forall (fun v => iv_ok v = true) k ->
  encode_compound_from show pos (map (fun v => (index_value_to_json v, index_type_of v)) k) out
  = Ok (Some (out ++ frames (map typed_bytes k))).
Proof.
  intros Hk. revert pos out. induction Hk as [|v k Hv Hk IH]; intros pos out; simpl.
  - by rewrite app_nil_r.
  - destruct (encode_key_bytes v (show pos) Hv) as [-> ->]. simpl. rewrite IH.
    unfold frame, frames. cbn [map concat]. by rewrite <-!app_assoc.
Qed.

Lemma encode_framed_frames k :
  Forall (fun v => iv_ok v = true) k ->
  encode_framed k = Ok (Some (frames (map typed_bytes k))).
Proof. intros Hk. unfold encode_framed, encode_compound_index_key. by rewrite encode_framed_from. Qed.

Lemma typed_prefix a b :
  Forall (fun v => iv_ok v = true) a -> Forall (fun v => iv_ok v = true) b ->
  map index_type_of a `prefix_of` map index_type_of b ->
  map typed_bytes a `prefix_of` map typed_bytes b <-> a `prefix_of` b.
Proof.
  intros Ha. revert b. induction Ha as [|v a Hv Ha IH]; intros b Hb Ht.
  - split; intros; apply prefix_nil.
  - destruct Hb as [|w b Hw Hb]; [by apply prefix_nil_not in Ht|].
    cbn [map] in *. apply prefix_cons_inv_1 in Ht as Ht1. apply prefix_cons_inv_2 in Ht as Ht2.
    split.
    + intros Hp. apply prefix_cons_inv_1 in Hp as Hp1. apply prefix_cons_inv_2 in Hp.
      apply typed_bytes_inj in Hp1 as ->; [|done..]. apply prefix_cons. by apply IH.
    + intros Hp. pose proof (prefix_cons_inv_1 _ _ _ _ Hp) as ->. apply prefix_cons_inv_2 in Hp.
      apply prefix_cons. by apply IH.
Qed.
End Framing.

(** ** Lemmas: prefix ranges *)

Definition byte_ok (b : Z) : Prop := 0 <= b <= 255.

Lemma memcmp_cons_lt x y a b : x < y -> memcmp (x :: a) (y :: b) = Lt.
Proof. intros Hlt. simpl. by rewrite (proj2 (Z.compare_lt_iff x y)). Qed.

Lemma memcmp_antisym a b : memcmp b a = CompOpp (memcmp a b).
Proof.
  revert b. induction a as [|x a IH]; intros [|y b]; simpl; try done.
  rewrite (Z.compare_antisym x y). destruct (x ?= y); simpl; [apply IH | done | done].
Qed.

Lemma bump_last_spec r :
  bump_last r = None /\ Forall (fun b => 255 <= b) r \/
  exists ffs x rest, r = ffs ++ x :: rest /\ Forall (fun b => 255 <= b) ffs /\ x < 255 /\
    bump_last r = Some (rev (x + 1 :: rest)).
Proof.
  induction r as [|x r IH]; simpl; [by left|].
  destruct (Z.ltb_spec x 255).
  - right. by exists [], x, r.
  - destruct IH as [[-> HF]|(ffs & y & rest & -> & HF & Hy & ->)].
    + left. split; [done|]. by constructor.
    + right. exists (x :: ffs), y, rest. split_and!; try done. by constructor.
Qed.

(** A string of 0xFF bytes is a lower bound only of its extensions. *)
Lemma memcmp_ffs f s :
  Forall (fun b => 255 <= b) f -> Forall byte_ok s -> Forall byte_ok f ->
  memcmp f s <> Gt <-> f `prefix_of` s.
Proof.
  intros Hf. revert s. induction Hf as [|x f Hx Hf IH]; intros s Hs Hfo.
  - split; [intros _; apply prefix_nil | intros _; by destruct s].
  - destruct Hs as [|y s Hy Hs]; simpl.
    + split; [done|]. intros Hp. by apply prefix_nil_not in Hp.
    + inversion Hfo as [|? ? Hxo Hfo']; subst. unfold byte_ok in *.
      destruct (Z.compare_spec x y) as [->|Hlt|Hgt].
      * rewrite (IH s) by done. split; [apply prefix_cons | apply prefix_cons_inv_2].
      * lia.
      * split; [done|]. intros Hp%prefix_cons_inv_1. lia.
Qed.

Lemma prefix_app_iff (p a b : list Z) : p ++ a `prefix_of` p ++ b <-> a `prefix_of` b.
Proof. split; [apply prefix_app_inv | apply prefix_app]. Qed.

Lemma prefix_range q x f s :
  Forall (fun b => 255 <= b) f -> Forall byte_ok f -> Forall byte_ok s -> x < 255 ->
  (memcmp (q ++ x :: f) s <> Gt /\ memcmp s (q ++ [x + 1]) = Lt) <-> q ++ x :: f `prefix_of` s.
Proof.
  intros Hf Hfo Hs Hx. revert s Hs. induction q as [|z q IH]; intros s Hs.
  - destruct Hs as [|y s Hy Hs]; simpl.
    + split; [tauto|]. intros Hp. by apply prefix_nil_not in Hp.
    + destruct (Z.compare_spec x y) as [->|Hlt|Hgt].
      * rewrite (proj2 (Z.compare_lt_iff y (y + 1))) by lia. rewrite memcmp_ffs by done.
        split; [intros [? _]; by apply prefix_cons | intros ?%prefix_cons_inv_2; done].
      * split; [|intros ?%prefix_cons_inv_1; lia]. intros [_ H2].
        destruct (Z.compare_spec y (x + 1)); [by destruct s | lia | done].
      * split; [tauto|]. intros ?%prefix_cons_inv_1. lia.
  - destruct Hs as [|y s Hy Hs]; simpl.
    + split; [tauto|]. intros Hp. by apply prefix_nil_not in Hp.
    + destruct (Z.compare_spec z y) as [->|Hlt|Hgt].
      * rewrite Z.compare_refl, IH by done.
        split; [apply prefix_cons | apply prefix_cons_inv_2].
      * rewrite (proj2 (Z.compare_gt_iff y z)) by lia.
        split; [by intros [_ ?]|]. intros ?%prefix_cons_inv_1. lia.
      * split; [tauto|]. intros ?%prefix_cons_inv_1. lia.
Qed.

(** ** Claims *)

Section Claims.
Context `{SerdeNumberLaws}.

(** C35. The typed index values and the canonical bytes order alike: whenever
    two JSON values are indexable under one declared type, both also have
    canonical byte keys, and comparing the bytes gives the order of the typed
    values (signed integers, IEEE total order, byte-wise strings, instants).
    This is the conformance that the sources pin by tests. *)
Theorem index_order_conformance (v w : Value) (ty : IndexType) (a b : IndexValue)
    (Hv : extract_index_value (E := Empty_set) v ty = Ok (Some a))
    (Hw : extract_index_value (E := Empty_set) w ty = Ok (Some b)) :
  exists ka kb,
    encode_index_value v ty = Ok ka /\ encode_index_value w ty = Ok kb /\
    memcmp ka kb = index_value_compare a b.
Proof.
  pose proof (extract_encode_agree (E := Empty_set) v ty) as H1. rewrite Hv in H1.
  pose proof (extract_encode_agree (E := Empty_set) w ty) as H2. rewrite Hw in H2.
  destruct H1 as (E1 & T1 & O1), H2 as (E2 & T2 & O2).
  exists (typed_bytes a), (typed_bytes b). split_and!; [done..|].
  apply typed_bytes_order; congruence.
Qed.

(** The byte keys a persisted backend stores for a record are, in order,
    the encodings of exactly the typed values the in-memory index holds, for
    every field path (nested and array paths included); a value that one
    representation skips, or panics on, the other does too. *)
Theorem index_key_bytes_correspond (data : Value) (field : string) (ty : IndexType) :
  extract_index_key_bytes (E := Empty_set) data field ty =
  result_bind (extract_index_values data field ty) (fun vs => Ok (map typed_bytes vs)).
Proof.
  unfold extract_index_key_bytes, extract_index_values.
  induction (collect_index_json_values data (split_on dot field)) as [|v l IH]; [done|].
  cbn [result_map].
  set (g := fun v : Value => if is_null v then Ok None else result_ok (encode_index_value v ty)) in *.
  assert (Hg : (if is_null v then Ok None else result_ok (encode_index_value v ty)) =
    result_bind (extract_index_value v ty) (fun o => Ok (E := Empty_set) (typed_bytes <$> o))).
  { pose proof (extract_encode_agree (E := Empty_set) v ty) as Ha.
    destruct (is_null v) eqn:Hn; [destruct v; try done; by destruct ty|].
    destruct (extract_index_value v ty) as [[iv|]|[]|]; simpl.
    - by destruct Ha as [-> _].
    - by destruct Ha as [e ->].
    - by rewrite Ha. }
  rewrite Hg. destruct (extract_index_value v ty) as [o|[]|]; simpl; [|done].
  destruct (result_map g l) as [bs|[]|], (result_map (fun v => extract_index_value v ty) l) as [os|[]|];
    simpl in *; try done.
  injection IH as IH. f_equal. destruct o; simpl; by rewrite ?IH.
Qed.

(** Looking a typed value up in byte form finds what was stored for it:
    re-encoding the typed value extracted from a JSON value gives the bytes
    stored for that JSON value. *)
Theorem encode_key_roundtrip (v : Value) (ty : IndexType) (a : IndexValue)
    (Hv : extract_index_value (E := Empty_set) v ty = Ok (Some a)) :
  encode_key a = encode_index_value v ty.
Proof.
  pose proof (extract_encode_agree (E := Empty_set) v ty) as H1. rewrite Hv in H1.
  destruct H1 as (-> & _ & O1). unfold encode_key, encode_index_value.
  by apply encode_key_bytes.
Qed.

(** Framed compound keys support leftmost-prefix matching exactly: the
    framed bytes of a partial key are a byte prefix of the framed bytes of a
    full key if and only if the partial key is a prefix of the full key
    value by value, when the value types line up and every encoded value has
    a length the four-byte prefix can hold. *)
Theorem framed_prefix_exact (p k : CompoundKey)
    (Hp : Forall (fun v => iv_ok v = true /\ frame_ok (typed_bytes v)) p)
    (Hk : Forall (fun v => iv_ok v = true /\ frame_ok (typed_bytes v)) k)
    (Ht : map index_type_of p `prefix_of` map index_type_of k) :
  exists bp bk, encode_framed p = Ok (Some bp) /\ encode_framed k = Ok (Some bk) /\
    (bp `prefix_of` bk <-> p `prefix_of` k).
Proof.
  assert (Hsplit : forall l, Forall (fun v => iv_ok v = true /\ frame_ok (typed_bytes v)) l ->
    Forall (fun v => iv_ok v = true) l /\ Forall frame_ok (map typed_bytes l)).
  { intros l Hl. split; [|apply Forall_fmap]; eapply Forall_impl; try exact Hl; naive_solver. }
  apply Hsplit in Hp as [Hp1 Hp2], Hk as [Hk1 Hk2].
  exists (frames (map typed_bytes p)), (frames (map typed_bytes k)).
  split_and!; [by apply encode_framed_frames..|].
  rewrite frames_prefix by done. by apply typed_prefix.
Qed.
End Claims.

Lemma index_order_conformance_witness :
  exists ka kb,
    encode_index_value (jint (-5)) TInteger = Ok ka /\
    encode_index_value (jint 3) TInteger = Ok kb /\ memcmp ka kb = Lt.
Proof.
  apply (index_order_conformance (jint (-5)) (jint 3) TInteger
           (IVInteger (-5)) (IVInteger 3)); reflexivity.
Defined.

Lemma index_key_bytes_correspond_witness :
  extract_index_key_bytes (E := Empty_set)
    (Object [("tags", Array [JString "b"; Null; JString "a"])]) "tags[]" TString
  = Ok [[98]; [97]].
Proof.
  rewrite (index_key_bytes_correspond
             (Object [("tags", Array [JString "b"; Null; JString "a"])]) "tags[]" TString).
  reflexivity.
Defined.

Lemma encode_key_roundtrip_witness :
  encode_key (IVDatetime 0) = encode_index_value (JString "1970-01-01T00:00:00Z") TDatetime.
Proof.
  apply (encode_key_roundtrip (JString "1970-01-01T00:00:00Z") TDatetime (IVDatetime 0)).
  vm_compute. reflexivity.
Defined.

Lemma framed_prefix_exact_witness :
  exists bp bk, encode_framed [IVString "a"] = Ok (Some bp) /\
    encode_framed [IVString "a"; IVInteger 7] = Ok (Some bk) /\
    (bp `prefix_of` bk <-> [IVString "a"] `prefix_of` [IVString "a"; IVInteger 7]).
Proof.
  apply (framed_prefix_exact [IVString "a"] [IVString "a"; IVInteger 7]).
  - repeat constructor.
  - repeat constructor.
  - by exists [TInteger].
Defined.

(** The exclusive upper bound of a prefix scan is exact: a byte string lies
    in the range from the prefix (inclusive) to its successor (exclusive, or
    unbounded when there is none) if and only if it starts with the prefix. *)
Theorem prefix_successor_exact (p s : list Z) (Hp : Forall byte_ok p) (Hs : Forall byte_ok s) :
  (memcmp p s <> Gt /\ match prefix_successor p with
                       | Some hi => memcmp s hi = Lt
                       | None => True
                       end) <-> p `prefix_of` s.
Proof.
  unfold prefix_successor. destruct (bump_last_spec (rev p)) as [[-> HF]|(ffs & x & rest & Hr & HF & Hx & ->)].
  - apply List.Forall_rev in HF. rewrite rev_involutive in HF. rewrite memcmp_ffs by done. tauto.
  - apply (f_equal (@rev Z)) in Hr. rewrite rev_involutive, rev_app_distr in Hr. simpl in Hr.
    rewrite <-app_assoc in Hr. subst p. simpl. set (q := rev rest) in *. set (f := rev ffs) in *.
    assert (HF' : Forall (fun b => 255 <= b) f) by by apply List.Forall_rev.
    apply Forall_app in Hp as [_ Hxf]. inversion Hxf; subst. by apply prefix_range.
Qed.

Lemma prefix_successor_exact_witness :
  [0; 0; 0; 1; 255] `prefix_of` [0; 0; 0; 1; 255; 7].
Proof.
  apply (prefix_successor_exact [0; 0; 0; 1; 255] [0; 0; 0; 1; 255; 7]);
    [repeat constructor; lia | repeat constructor; lia | done].
Defined.

(** The documented position of NaN keys does not hold for negative NaNs:
    the bit pattern of a NaN with the sign bit set encodes below the key of
    negative infinity, while the documentation of [encode_f64] states that all
    NaN bit patterns sort after positive infinity. *)
Theorem negative_nan_sorts_first :
  let neg_nan := 0xFFF8000000000000 in
  let neg_inf := 0xFFF0000000000000 in
  f64_ok neg_nan = true /\ f64_is_finite neg_nan = false /\
  memcmp (encode_f64 neg_nan) (encode_f64 neg_inf) = Lt.
Proof. vm_compute. done. Qed.
