(* ===== verification/Intents.v ===== *)
(** * Mutation intents ([crates/axon-core/src/intent.rs])

    The record a mutation preview leaves behind, its approval life cycle, and
    the signed token that a later commit presents: issuing, verification, and
    the scope and state checks of [resolve_for_commit].  SHA-256 and URL-safe
    base64 are third-party crates and enter as the class [TokenCodec]; the
    HMAC construction and the constant-time comparison are the source's own
    and are modelled byte by byte. *)

From S2P Require Import Prelude Json Ids Types.
From Stdlib Require Import Ascii.

(** ** Data *)

Record MutationIntentScopeBinding : Type := {
  tenant_id : string;
  database_id : string
}.

#[export] Instance Scope_eq_dec : EqDecision MutationIntentScopeBinding.
Proof. solve_decision. Defined.
#[export] Instance Scope_countable : Countable MutationIntentScopeBinding.
Proof.
  apply (inj_countable' (fun s => (tenant_id s, database_id s))
           (fun '(t, d) => {| tenant_id := t; database_id := d |})).
  by intros [].
Defined.

Inductive PreImageBinding : Type :=
| PreImageEntity (collection : CollectionId) (id : EntityId) (version : Z)
| PreImageLink (collection : CollectionId) (id : string) (version : Z).

Inductive MutationOperationKind : Type :=
| CreateEntity | UpdateEntity | PatchEntity | DeleteEntity | CreateLink | DeleteLink
| TransactionOp | Transition | Rollback | Revert.

Inductive MutationIntentDecision : Type := Allow | NeedsApproval | Deny.

Inductive ApprovalState : Type :=
| AS_None | Pending | Approved | Rejected | Expired | Committed.

#[export] Instance Decision_eq_dec : EqDecision MutationIntentDecision.
Proof. solve_decision. Defined.
#[export] Instance ApprovalState_eq_dec : EqDecision ApprovalState.
Proof. solve_decision. Defined.
#[export] Instance OperationKind_eq_dec : EqDecision MutationOperationKind.
Proof. solve_decision. Defined.

(** [MutationIntentDecision::can_have_executable_token] *)
Definition can_have_executable_token (d : MutationIntentDecision) : bool :=
  match d with Allow | NeedsApproval => true | Deny => false end.

(** [MutationIntentDecision::as_str] *)
Definition decision_as_str (d : MutationIntentDecision) : string :=
  match d with Allow => "allow" | NeedsApproval => "needs_approval" | Deny => "deny" end.

(** [ApprovalState::as_str] *)
Definition approval_state_as_str (s : ApprovalState) : string :=
  match s with
  | AS_None => "none" | Pending => "pending" | Approved => "approved"
  | Rejected => "rejected" | Expired => "expired" | Committed => "committed"
  end.

Record MutationApprovalRoute : Type := {
  ar_role : option string;
  ar_reason_required : bool;
  ar_deadline_seconds : option Z;
  ar_separation_of_duties : bool
}.

Section Data.
Context `{SerdeNumber}.

Record MutationIntentSubjectBinding : Type := {
  sb_user_id : option string;
  sb_agent_id : option string;
  sb_delegated_by : option string;
  sb_tenant_role : option string;
  sb_credential_id : option string;
  sb_grant_version : option Z;
  sb_attributes : gmap string Value
}.

Record CanonicalOperationMetadata : Type := {
  operation_kind : MutationOperationKind;
  operation_hash : string;
  canonical_operation : option Value
}.

Record MutationReviewSummary : Type := {
  rs_title : option string;
  rs_summary : string;
  rs_risk : option string;
  rs_affected_records : list PreImageBinding;
  rs_affected_fields : list string;
  rs_diff : Value;
  rs_policy_explanation : list string
}.

Record MutationIntent : Type := {
  intent_id : string;
  mi_scope : MutationIntentScopeBinding;
  mi_subject : MutationIntentSubjectBinding;
  mi_schema_version : Z;
  mi_policy_version : Z;
  mi_operation : CanonicalOperationMetadata;
  mi_pre_images : list PreImageBinding;
  mi_decision : MutationIntentDecision;
  mi_approval_state : ApprovalState;
  mi_approval_route : option MutationApprovalRoute;
  mi_expires_at : Z;
  mi_review_summary : MutationReviewSummary
}.

(** Assignment [intent.approval_state = s]. *)
Definition set_approval_state (s : ApprovalState) (i : MutationIntent) : MutationIntent := {|
  intent_id := intent_id i;
  mi_scope := mi_scope i;
  mi_subject := mi_subject i;
  mi_schema_version := mi_schema_version i;
  mi_policy_version := mi_policy_version i;
  mi_operation := mi_operation i;
  mi_pre_images := mi_pre_images i;
  mi_decision := mi_decision i;
  mi_approval_state := s;
  mi_approval_route := mi_approval_route i;
  mi_expires_at := mi_expires_at i;
  mi_review_summary := mi_review_summary i
|}.

Inductive MutationIntentModelError : Type :=
| DeniedIntentToken (id : string).

(** [ExecutableMutationIntent]: an intent with its opaque token. *)
Record ExecutableMutationIntent : Type := {
  xi_intent : MutationIntent;
  xi_token : string
}.

(** [ExecutableMutationIntent::new] *)
Definition executable_new (intent : MutationIntent) (token : string)
  : result ExecutableMutationIntent MutationIntentModelError :=
  if can_have_executable_token (mi_decision intent)
  then Ok {| xi_intent := intent; xi_token := token |}
  else Err (DeniedIntentToken (intent_id intent)).
End Data.

Inductive MutationIntentTokenLookupError : Type :=
| MalformedToken | InvalidSignature | TokenNotFound | TenantDatabaseMismatch
| TokenExpired | TokenRejected | AlreadyCommitted | ApprovalRequired | Unauthorized
| GrantVersionStale | SchemaVersionStale | PolicyVersionStale | PreImageStale
| OperationMismatch.

(** ** UTF-8

    [String::from_utf8] accepts the well-formed sequences of the Unicode
    standard (no overlong forms, no surrogates, nothing above U+10FFFF). *)

Definition in_range (lo hi b : Z) : bool := (lo <=? b)%Z && (b <=? hi)%Z.
Definition continuation (b : Z) : bool := in_range 128 191 b.

Fixpoint utf8_valid (bs : list Z) : bool :=
  match bs with
  | [] => true
  | b0 :: r0 =>
      if in_range 0 127 b0 then utf8_valid r0
      else match r0 with
      | b1 :: r1 =>
          if in_range 194 223 b0 then continuation b1 && utf8_valid r1
          else match r1 with
          | b2 :: r2 =>
              if in_range 224 239 b0 then
                in_range (if (b0 =? 224)%Z then 160 else 128)
                         (if (b0 =? 237)%Z then 159 else 191) b1
                && continuation b2 && utf8_valid r2
              else match r2 with
              | b3 :: r3 =>
                  in_range 240 244 b0
                  && in_range (if (b0 =? 240)%Z then 144 else 128)
                              (if (b0 =? 244)%Z then 143 else 191) b1
                  && continuation b2 && continuation b3 && utf8_valid r3
              | [] => false
              end
          | [] => false
          end
      | [] => false
      end
  end.

Fixpoint string_of_bytes (bs : list Z) : string :=
  match bs with
  | [] => ""
  | b :: bs' => String (ascii_of_N (Z.to_N b)) (string_of_bytes bs')
  end.

(** [String::from_utf8] *)
Definition from_utf8 (bs : list Z) : option string :=
  if utf8_valid bs then Some (string_of_bytes bs) else None.

Definition byte_list (bs : list Z) : Prop := Forall (fun b => (0 <= b < 256)%Z) bs.

(** ** Tokens *)

(** The third-party codec and digest. *)
Class TokenCodec : Type := {
  sha256 : list Z -> list Z;
  b64_encode : list Z -> string;
  b64_decode : string -> option (list Z)
}.

(** What their documentation says: a digest is 32 bytes, decoding inverts
    encoding, decoded data are bytes, the alphabet has no dot and only the
    empty input encodes to the empty string. *)
Class TokenCodecLaws `{TokenCodec} : Prop := {
  sha256_length : forall m, length (sha256 m) = 32;
  sha256_bytes : forall m, byte_list (sha256 m);
  b64_roundtrip : forall bs, byte_list bs -> b64_decode (b64_encode bs) = Some bs;
  b64_decode_bytes : forall s bs, b64_decode s = Some bs -> byte_list bs;
  b64_no_dot : forall bs, byte_list bs -> no_dot (b64_encode bs);
  b64_nonempty : forall bs, bs <> [] -> b64_encode bs <> ""
}.

Definition BLOCK_LEN : nat := 64.

Section Tokens.
Context `{SerdeNumber} `{TokenCodec}.

(** [MutationIntentTokenSigner]: the deployment secret. *)
Definition MutationIntentTokenSigner : Type := list Z.

(** [buf[..src.len()].copy_from_slice(src)] *)
Definition copy_prefix (buf src : list Z) : list Z := src ++ drop (length src) buf.

Definition xor_pad (pad key_block : list Z) : list Z := zip_with Z.lxor pad key_block.

Definition hmac_sha256 (secret message : list Z) : list Z :=
  let key_block :=
    copy_prefix (replicate BLOCK_LEN 0%Z)
      (if (BLOCK_LEN <? length secret)%nat then sha256 secret else secret) in
  let inner_pad := xor_pad (replicate BLOCK_LEN 54%Z) key_block in
  let outer_pad := xor_pad (replicate BLOCK_LEN 92%Z) key_block in
  let inner := sha256 (inner_pad ++ message) in
  sha256 (outer_pad ++ inner).

(** [constant_time_eq]: no early exit, the differences are or-ed together. *)
Definition constant_time_eq (actual expected : list Z) : bool :=
  if negb (length actual =? length expected)%nat then false
  else
    (fold_left (fun diff '(a, e) => Z.lor diff (Z.lxor a e)) (zip actual expected) 0 =? 0)%Z.

Definition split_token (token : string)
  : result (string * string) MutationIntentTokenLookupError :=
  match split_on dot token with
  | [] | [_] => Err MalformedToken
  | intent_id_part :: signature_part :: rest =>
      if match rest with [] => false | _ => true end
         || bool_decide (intent_id_part = "") || bool_decide (signature_part = "")
      then Err MalformedToken
      else Ok (intent_id_part, signature_part)
  end.

(** [MutationIntentTokenSigner::issue_for_id] *)
Definition issue_for_id (self : MutationIntentTokenSigner) (id : string) : string :=
  let intent_id_part := b64_encode (as_bytes id) in
  let signature := hmac_sha256 self (as_bytes id) in
  let signature_part := b64_encode signature in
  intent_id_part +:+ String dot signature_part.

(** [MutationIntentTokenSigner::issue] *)
Definition issue (self : MutationIntentTokenSigner) (intent : MutationIntent) : string :=
  issue_for_id self (intent_id intent).

Local Open Scope axon_scope.

(** [MutationIntentTokenSigner::verify] *)
Definition verify (self : MutationIntentTokenSigner) (token : string)
  : result string MutationIntentTokenLookupError :=
  let? (intent_id_part, signature_part) := split_token token in
  let? intent_id_bytes := ok_or (b64_decode intent_id_part) MalformedToken in
  if match intent_id_bytes with [] => true | _ => false end then Err MalformedToken
  else
  let? id := ok_or (from_utf8 intent_id_bytes) MalformedToken in
  let? signature := ok_or (b64_decode signature_part) MalformedToken in
  let expected := hmac_sha256 self (as_bytes id) in
  if negb (length signature =? length expected)%nat || negb (constant_time_eq signature expected)
  then Err InvalidSignature
  else Ok id.

Definition validate_intent_commit_state (intent : MutationIntent) (now_ns : Z)
  : result unit MutationIntentTokenLookupError :=
  if (mi_expires_at intent <=? now_ns)%Z || bool_decide (mi_approval_state intent = Expired)
  then Err TokenExpired
  else
    match mi_approval_state intent with
    | Rejected => Err TokenRejected
    | Committed => Err AlreadyCommitted
    | _ =>
        match mi_decision intent with
        | Deny => Err Unauthorized
        | NeedsApproval =>
            if negb (bool_decide (mi_approval_state intent = Approved))
            then Err ApprovalRequired
            else Ok tt
        | Allow => Ok tt
        end
    end.

(** [MutationIntentTokenSigner::resolve_for_commit] *)
Definition resolve_for_commit (self : MutationIntentTokenSigner) (token : string)
    (expected_scope : MutationIntentScopeBinding) (now_ns : Z)
    (lookup : string -> MutationIntentScopeBinding -> option MutationIntent)
  : result MutationIntent MutationIntentTokenLookupError :=
  let? id := verify self token in
  let? intent := ok_or (lookup id expected_scope) TokenNotFound in
  if negb (bool_decide (mi_scope intent = expected_scope)) then Err TenantDatabaseMismatch
  else
  let? _ := validate_intent_commit_state intent now_ns in
  Ok intent.
End Tokens.

(** ** Lemmas *)

Lemma string_of_as_bytes s : string_of_bytes (as_bytes s) = s.
Proof.
  induction s as [|c s IH]; simpl; [done|]. rewrite IH. f_equal.
  unfold byte_of. rewrite N2Z.id. apply ascii_N_embedding.
Qed.

Lemma as_bytes_of_bytes bs : byte_list bs -> as_bytes (string_of_bytes bs) = bs.
Proof.
  induction 1 as [|b bs Hb _ IH]; simpl; [done|]. rewrite IH. f_equal.
  unfold byte_of. rewrite N_ascii_embedding by lia. lia.
Qed.

Lemma constant_time_eq_spec a e : constant_time_eq a e = true <-> a = e.
Proof.
  unfold constant_time_eq. split.
  - destruct (Nat.eqb_spec (length a) (length e)) as [Hl|]; [|done]. simpl. rewrite Z.eqb_eq.
    assert (Hacc : forall d, fold_left (fun d '(x, y) => Z.lor d (Z.lxor x y)) (zip a e) d = 0%Z ->
              d = 0%Z /\ a = e).
    { revert e Hl. induction a as [|x a IH]; intros [|y e] Hl d; simpl in *; try done.
      intros Hf. apply IH in Hf as [[-> Hxy]%Z.lor_eq_0_iff ->]; [|lia].
      apply Z.lxor_eq in Hxy as ->. done. }
    intros H. by apply Hacc in H as [_ ?].
  - intros ->. rewrite Nat.eqb_refl. simpl. apply Z.eqb_eq.
    induction e as [|x e IH]; simpl; [done|]. by rewrite Z.lxor_nilpotent.
Qed.

Lemma no_dot_split_app s t : no_dot s -> no_dot t -> split_on dot (s +:+ String dot t) = [s; t].
Proof. intros Hs Ht. rewrite split_on_app_dot by done. by rewrite Ht. Qed.

(** A token that splits is exactly two non-empty dot-free parts. *)
Lemma split_token_ok token p q :
  split_token token = Ok (p, q) <->
  split_on dot token = [p; q] /\ p <> "" /\ q <> "".
Proof.
  unfold split_token. destruct (split_on dot token) as [|p' [|q' [|r rest]]]; simpl; try naive_solver.
  destruct (bool_decide_reflect (p' = "")), (bool_decide_reflect (q' = "")); naive_solver.
Qed.

Section Verification.
Context `{SerdeNumber} `{TokenCodecLaws}.

(** An intent that may be committed now. *)
Definition committable (i : MutationIntent) (now_ns : Z) : Prop :=
  (now_ns < mi_expires_at i)%Z /\
  (mi_approval_state i = Approved /\ mi_decision i <> Deny \/
   (mi_approval_state i = AS_None \/ mi_approval_state i = Pending) /\ mi_decision i = Allow).

Lemma validate_ok i now : validate_intent_commit_state i now = Ok tt <-> committable i now.
Proof.
  unfold validate_intent_commit_state, committable.
  destruct (Z.leb_spec (mi_expires_at i) now); simpl.
  - split; [done | lia].
  - destruct (mi_approval_state i), (mi_decision i); simpl; split; intros Hx; try done;
      first [split; [lia | naive_solver] | destruct Hx; naive_solver].
Qed.

(** A token verifies for an intent id exactly when it is two non-empty
    base64 parts, the first the UTF-8 bytes of that non-empty id and the
    second, bit for bit, the HMAC-SHA256 of the id under the deployment
    secret: nothing else is accepted, and everything of that form is. *)
Theorem token_verify_exact (secret : MutationIntentTokenSigner) (token id : string) :
  verify secret token = Ok id <->
  exists p q, split_on dot token = [p; q] /\ p <> "" /\ q <> "" /\ id <> "" /\
    utf8_valid (as_bytes id) = true /\
    b64_decode p = Some (as_bytes id) /\
    b64_decode q = Some (hmac_sha256 secret (as_bytes id)).
Proof.
  unfold verify. rewrite result_bind_ok. split.
  - intros ([p q] & Hs & Hv). apply split_token_ok in Hs as (Hs & Hp & Hq).
    apply result_bind_ok in Hv as (bs & Hb%ok_or_ok & Hv).
    destruct bs as [|b bs]; [done|].
    apply result_bind_ok in Hv as (id' & Hid%ok_or_ok & Hv).
    apply result_bind_ok in Hv as (sg & Hsg%ok_or_ok & Hv).
    unfold from_utf8 in Hid. destruct (utf8_valid (b :: bs)) eqn:Hu; [|done].
    injection Hid as Hid. destruct (orb _ _) eqn:Ho; [done|]. injection Hv as ->.
    apply orb_false_iff in Ho as [_ Hc%negb_false_iff%constant_time_eq_spec].
    assert (Heq : as_bytes id = b :: bs).
    { rewrite <-Hid. exact (as_bytes_of_bytes _ (b64_decode_bytes _ _ Hb)). }
    exists p, q. rewrite Heq. split_and!; try done; [by intros -> | by rewrite Hsg, Hc, Heq].
  - intros (p & q & Hs & Hp & Hq & Hid & Hu & Hb & Hsg). exists (p, q). split.
    { by apply split_token_ok. }
    rewrite Hb, Hsg. simpl. destruct (as_bytes id) as [|b bs] eqn:E.
    { by destruct id. }
    rewrite <-E in *. unfold from_utf8. rewrite Hu. simpl. rewrite string_of_as_bytes.
    rewrite (proj2 (constant_time_eq_spec _ _) eq_refl), Nat.eqb_refl. done.
Qed.

(** Every issued token verifies, and to the id it was issued for. *)
Theorem issue_verify_roundtrip (secret : MutationIntentTokenSigner) (id : string)
    (Hne : id <> "") (Hu : utf8_valid (as_bytes id) = true) :
  verify secret (issue_for_id secret id) = Ok id.
Proof.
  unfold verify, issue_for_id.
  assert (Hh : hmac_sha256 secret (as_bytes id) <> []).
  { intros Hx. apply (f_equal length) in Hx. unfold hmac_sha256 in Hx.
    by rewrite sha256_length in Hx. }
  assert (Hs : split_token (b64_encode (as_bytes id) +:+
      String dot (b64_encode (hmac_sha256 secret (as_bytes id)))) =
      Ok (b64_encode (as_bytes id), b64_encode (hmac_sha256 secret (as_bytes id)))).
  { apply split_token_ok. split_and!.
    - apply no_dot_split_app; apply b64_no_dot; [apply as_bytes_range | apply sha256_bytes].
    - apply b64_nonempty. by destruct id.
    - by apply b64_nonempty. }
  rewrite Hs. simpl. rewrite b64_roundtrip by apply as_bytes_range. simpl.
  destruct (as_bytes id) as [|b bs] eqn:E; [by destruct id|]. rewrite <-E in *.
  unfold from_utf8. rewrite Hu. simpl. rewrite string_of_as_bytes.
  rewrite b64_roundtrip by apply sha256_bytes. simpl.
  by rewrite (proj2 (constant_time_eq_spec _ _) eq_refl), Nat.eqb_refl.
Qed.

(** When a token resolves. *)
Lemma resolve_ok (secret : MutationIntentTokenSigner) (token : string)
    (scope : MutationIntentScopeBinding) (now_ns : Z)
    (lookup : string -> MutationIntentScopeBinding -> option MutationIntent)
    (i : MutationIntent) :
  resolve_for_commit secret token scope now_ns lookup = Ok i <->
  exists id, verify secret token = Ok id /\ lookup id scope = Some i /\
    mi_scope i = scope /\ committable i now_ns.
Proof.
  unfold resolve_for_commit. rewrite result_bind_ok. split.
  - intros (id & Hid & Hv). apply result_bind_ok in Hv as (i' & Hi%ok_or_ok & Hv).
    destruct (bool_decide_reflect (mi_scope i' = scope)); [|done]. simpl in Hv.
    apply result_bind_ok in Hv as ([] & Hc%validate_ok & [= ->]). eauto.
  - intros (id & Hid & Hi & Hs & Hc). exists id. split; [done|].
    rewrite Hi. simpl. rewrite bool_decide_true by done. simpl.
    by rewrite (proj2 (validate_ok _ _) Hc).
Qed.

(** A commit gets an intent exactly when its token verifies for an id the
    store knows in the caller's scope, the stored scope is the caller's, the
    intent has not expired, and it is either approved and not denied, or
    allowed without ever having been rejected, expired or committed. *)
Theorem resolve_for_commit_exact (secret : MutationIntentTokenSigner) (token : string)
    (scope : MutationIntentScopeBinding) (now_ns : Z)
    (lookup : string -> MutationIntentScopeBinding -> option MutationIntent)
    (i : MutationIntent) :
  resolve_for_commit secret token scope now_ns lookup = Ok i <->
  exists id, verify secret token = Ok id /\ lookup id scope = Some i /\
    mi_scope i = scope /\ committable i now_ns.
Proof. apply resolve_ok. Qed.
End Verification.

(** ** A concrete codec, used to evaluate the model on examples

    Hexadecimal text in place of base64 and a length-based digest in place of
    SHA-256. *)

Definition unhex_digit (c : ascii) : option Z :=
  let b := byte_of c in
  if in_range 48 57 b then Some (b - 48)%Z
  else if in_range 97 102 b then Some (b - 87)%Z
  else None.

Fixpoint unhex (s : string) : option (list Z) :=
  match s with
  | EmptyString => Some []
  | String c (String d s') =>
      match unhex_digit c, unhex_digit d, unhex s' with
      | Some x, Some y, Some l => Some ((16 * x + y)%Z :: l)
      | _, _, _ => None
      end
  | _ => None
  end.

#[export] Instance hex_codec : TokenCodec := {|
  sha256 m := replicate 32 (Z.of_nat (length m) mod 256)%Z;
  b64_encode := hex_bytes;
  b64_decode := unhex
|}.

Lemma unhex_hex_digit d : (0 <= d < 16)%Z -> unhex_digit (hex_digit d) = Some d.
Proof.
  intros Hd. unfold unhex_digit, in_range. rewrite hex_digit_code by done.
  repeat match goal with
  | |- context [(?a <? ?b)%Z] => destruct (Z.ltb_spec a b)
  | |- context [(?a <=? ?b)%Z] => destruct (Z.leb_spec a b)
  end; simpl; try (f_equal; lia); lia.
Qed.

Lemma unhex_digit_range c d : unhex_digit c = Some d -> (0 <= d < 16)%Z.
Proof.
  unfold unhex_digit, in_range. repeat match goal with
  | |- context [(?a <=? ?b)%Z] => destruct (Z.leb_spec a b)
  end; simpl; intros [= <-]; lia.
Qed.

Lemma hex_digit_not_dot d : (0 <= d < 16)%Z -> hex_digit d <> dot.
Proof.
  intros Hd E%(f_equal byte_of). rewrite hex_digit_code in E by done.
  change (byte_of dot) with 46%Z in E. destruct (Z.ltb_spec d 10); lia.
Qed.

Lemma no_dot_cons c s : c <> dot -> no_dot s -> no_dot (String c s).
Proof. intros Hc Hs. unfold no_dot. simpl. rewrite decide_False by done. by rewrite Hs. Qed.

#[export] Instance hex_codec_laws : TokenCodecLaws.
Proof.
  assert (Hbd : forall b, (0 <= b < 256 -> 0 <= b / 16 < 16 /\ 0 <= b mod 16 < 16)%Z)
    by (intros; Z.to_euclidean_division_equations; lia).
  split; simpl.
  - done.
  - intros m. apply (Forall_replicate _ 32). apply Z.mod_pos_bound. lia.
  - induction 1 as [|b bs Hb _ IH]; cbn [hex_bytes]; [done|].
    destruct (Hbd b Hb). unfold hex_byte. rewrite !string_app_cons, string_app_nil_l. cbn [unhex].
    rewrite !unhex_hex_digit, IH by done. do 2 f_equal. Z.to_euclidean_division_equations; lia.
  - fix IH 1. intros [|c [|d s]] bs; cbn [unhex]; [intros [= <-]; constructor | done|].
    destruct (unhex_digit c) as [x|] eqn:Ex; [|done].
    destruct (unhex_digit d) as [y|] eqn:Ey; [|done].
    specialize (IH s). destruct (unhex s); [|done]. intros [= <-].
    apply unhex_digit_range in Ex, Ey. constructor; [lia | by apply IH].
  - induction 1 as [|b bs Hb _ IH]; cbn [hex_bytes]; [done|].
    destruct (Hbd b Hb). unfold hex_byte. rewrite !string_app_cons, string_app_nil_l.
    auto using no_dot_cons, hex_digit_not_dot.
  - intros [|b bs] Hne; cbn [hex_bytes]; [done|]. by unfold hex_byte.
Qed.

Definition sample_intent (d : MutationIntentDecision) (st : ApprovalState)
  : MutationIntent (H := simple_serde_number) := {|
  intent_id := "mint_01H";
  mi_scope := {| tenant_id := "acme"; database_id := "finance" |};
  mi_subject := {| sb_user_id := Some "usr_finance_ops"; sb_agent_id := None; sb_delegated_by := None;
                   sb_tenant_role := Some "member"; sb_credential_id := None;
                   sb_grant_version := Some 7%Z; sb_attributes := empty |};
  mi_schema_version := 12; mi_policy_version := 12;
  mi_operation := {| operation_kind := UpdateEntity; operation_hash := "sha256:abc123";
                     canonical_operation := None |};
  mi_pre_images := [PreImageEntity "invoices" "inv_001" 5];
  mi_decision := d; mi_approval_state := st; mi_approval_route := None;
  mi_expires_at := 1000;
  mi_review_summary := {| rs_title := None; rs_summary := ""; rs_risk := None;
                          rs_affected_records := []; rs_affected_fields := [];
                          rs_diff := Null; rs_policy_explanation := [] |}
|}.

Lemma token_verify_exact_witness :
  verify (H0 := hex_codec) [1; 2; 3]%Z (issue_for_id [1; 2; 3]%Z "mint_01H") = Ok "mint_01H".
Proof.
  apply (token_verify_exact (H0 := hex_codec) [1; 2; 3]%Z).
  exists (hex_bytes (as_bytes "mint_01H")), (hex_bytes (hmac_sha256 [1; 2; 3]%Z (as_bytes "mint_01H"))).
  vm_compute. by split_and!.
Defined.

Lemma issue_verify_roundtrip_witness :
  verify (H0 := hex_codec) [1; 2; 3]%Z (issue_for_id [1; 2; 3]%Z "mint_01H") = Ok "mint_01H".
Proof. apply (issue_verify_roundtrip (H0 := hex_codec) [1; 2; 3]%Z "mint_01H"); done. Defined.

Lemma resolve_for_commit_exact_witness :
  resolve_for_commit (H0 := hex_codec) [1; 2; 3]%Z (issue_for_id [1; 2; 3]%Z "mint_01H")
    {| tenant_id := "acme"; database_id := "finance" |} 999
    (fun _ _ => Some (sample_intent NeedsApproval Approved))
  = Ok (sample_intent NeedsApproval Approved).
Proof.
  apply (resolve_for_commit_exact (H0 := hex_codec)). exists "mint_01H".
  split_and!; [vm_compute; done | done | done |].
  split; [done|]. left. by split.
Defined.
