(* ===== verification/AuditLog.v ===== *)
(** * The audit log ([crates/axon-audit/src/entry.rs], [log.rs], [cdc.rs])

    Audit entries and their field diffs, the in-memory append-only log with its
    queries and cursor pagination, the query filter shared with the SQL
    adapters ([crates/axon-storage/src/adapter.rs]), and the change-data-capture
    replay that is built on the paginated query. *)

From S2P Require Import Prelude Json Ids Types Intents.

(** ** Entries *)

Inductive MutationType : Type :=
| EntityCreate | EntityUpdate | EntityDelete | EntityRevert
| LinkCreate | LinkDelete
| CollectionCreate | CollectionDrop
| TemplateCreate | TemplateUpdate | TemplateDelete
| SchemaUpdate
| GuardrailRejection
| IntentPreview | IntentApprove | IntentReject | IntentExpire | IntentCommit.

#[export] Instance MutationType_eq_dec : EqDecision MutationType.
Proof. solve_decision. Defined.

(** [Display for MutationType] *)
Definition mutation_type_display (m : MutationType) : string :=
  match m with
  | EntityCreate => "entity.create"
  | EntityUpdate => "entity.update"
  | EntityDelete => "entity.delete"
  | EntityRevert => "entity.revert"
  | LinkCreate => "link.create"
  | LinkDelete => "link.delete"
  | CollectionCreate => "collection.create"
  | CollectionDrop => "collection.drop"
  | TemplateCreate => "template.create"
  | TemplateUpdate => "template.update"
  | TemplateDelete => "template.delete"
  | SchemaUpdate => "schema.update"
  | GuardrailRejection => "guardrail_rejection"
  | IntentPreview => "mutation_intent.preview"
  | IntentApprove => "intent.approve"
  | IntentReject => "intent.reject"
  | IntentExpire => "intent.expire"
  | IntentCommit => "intent.commit"
  end.

Record AuditAttribution : Type := {
  at_user_id : string;
  at_tenant_id : string;
  at_jti : option string;
  at_auth_method : string
}.

Record MutationIntentApproverMetadata : Type := {
  am_user_id : option string;
  am_actor : option string;
  am_tenant_role : option string;
  am_credential_id : option string
}.

Inductive MutationIntentAuditOriginSurface : Type := Graphql | Rest | Mcp | Cli | System.

Record MutationIntentAuditOrigin : Type := {
  ao_surface : MutationIntentAuditOriginSurface;
  ao_tool_name : option string;
  ao_request_id : option string;
  ao_operation_hash : option string
}.

Inductive MutationIntentLineageRelation : Type :=
| PreviewedBy | ApprovedBy | RejectedBy | ExpiredBy | CommittedBy | Supersedes | RelatedTo.

Record MutationIntentLineageLink : Type := {
  ll_relation : MutationIntentLineageRelation;
  ll_audit_id : option Z;
  ll_intent_id : option string;
  ll_approval_id : option string
}.

Section Entries.
Context `{SerdeNumber}.

Record FieldDiff : Type := { fd_before : option Value; fd_after : option Value }.

(** Equality of two optional values ([PartialEq for Option<&Value>]). *)
Definition opt_value_eqb (a b : option Value) : bool :=
  match a, b with
  | None, None => true
  | Some x, Some y => value_eqb x y
  | _, _ => false
  end.

(** One turn of the loop of [compute_diff]. *)
Definition diff_key (before_obj after_obj : list (string * Value)) (key : string)
    (diff : gmap string FieldDiff) : gmap string FieldDiff :=
  let b := assoc_get key before_obj in
  let a := assoc_get key after_obj in
  if negb (opt_value_eqb b a)
  then <[key := {| fd_before := b; fd_after := a |}]> diff
  else diff.

(** [compute_diff]; the loop runs over a [HashSet] of keys. *)
Definition compute_diff (before after : Value) : gmap string FieldDiff :=
  match as_object before, as_object after with
  | Some before_obj, Some after_obj =>
      let all_keys : gset string := list_to_set (map fst before_obj ++ map fst after_obj) in
      foldr (diff_key before_obj after_obj) ∅ (elements all_keys)
  | _, _ => ∅
  end.

Record MutationIntentAuditMetadata : Type := {
  im_intent_id : string;
  im_decision : MutationIntentDecision;
  im_approval_id : option string;
  im_policy_version : Z;
  im_schema_version : Z;
  im_subject_snapshot : MutationIntentSubjectBinding;
  im_approver : option MutationIntentApproverMetadata;
  im_reason : option string;
  im_origin : option MutationIntentAuditOrigin;
  im_lineage_links : list MutationIntentLineageLink
}.

Record AuditEntry : Type := {
  ae_id : Z;
  ae_timestamp_ns : Z;
  ae_collection : CollectionId;
  ae_entity_id : EntityId;
  ae_version : Z;
  ae_mutation : MutationType;
  ae_data_before : option Value;
  ae_data_after : option Value;
  ae_diff : option (gmap string FieldDiff);
  ae_actor : string;
  ae_metadata : gmap string string;
  ae_transaction_id : option string;
  ae_attribution : option AuditAttribution;
  ae_intent_lineage : option MutationIntentAuditMetadata
}.

(** [AuditEntry::new] *)
Definition audit_entry_new (collection : CollectionId) (entity_id : EntityId) (version : Z)
    (mutation : MutationType) (data_before data_after : option Value) (actor : option string)
  : AuditEntry :=
  let diff :=
    match data_before, data_after with
    | Some before, Some after =>
        let d := compute_diff before after in
        if decide (d = ∅) then None else Some d
    | _, _ => None
    end in
  {| ae_id := 0;
     ae_timestamp_ns := 0;
     ae_collection := collection;
     ae_entity_id := entity_id;
     ae_version := version;
     ae_mutation := mutation;
     ae_data_before := data_before;
     ae_data_after := data_after;
     ae_diff := diff;
     ae_actor := default "anonymous" actor;
     ae_metadata := ∅;
     ae_transaction_id := None;
     ae_attribution := None;
     ae_intent_lineage := None |}.

(** Assignments to the fields the builders and callers set. *)
Definition entry_set (id ts : Z) (metadata : gmap string string) (tx : option string)
    (attribution : option AuditAttribution) (lineage : option MutationIntentAuditMetadata)
    (e : AuditEntry) : AuditEntry :=
  {| ae_id := id;
     ae_timestamp_ns := ts;
     ae_collection := ae_collection e;
     ae_entity_id := ae_entity_id e;
     ae_version := ae_version e;
     ae_mutation := ae_mutation e;
     ae_data_before := ae_data_before e;
     ae_data_after := ae_data_after e;
     ae_diff := ae_diff e;
     ae_actor := ae_actor e;
     ae_metadata := metadata;
     ae_transaction_id := tx;
     ae_attribution := attribution;
     ae_intent_lineage := lineage |}.

(** [AuditEntry::with_metadata] *)
Definition with_metadata (m : gmap string string) (e : AuditEntry) : AuditEntry :=
  entry_set (ae_id e) (ae_timestamp_ns e) m (ae_transaction_id e) (ae_attribution e)
    (ae_intent_lineage e) e.
(** [AuditEntry::with_attribution] *)
Definition with_attribution (a : AuditAttribution) (e : AuditEntry) : AuditEntry :=
  entry_set (ae_id e) (ae_timestamp_ns e) (ae_metadata e) (ae_transaction_id e) (Some a)
    (ae_intent_lineage e) e.
(** [AuditEntry::with_intent_lineage] *)
Definition with_intent_lineage (l : MutationIntentAuditMetadata) (e : AuditEntry) : AuditEntry :=
  entry_set (ae_id e) (ae_timestamp_ns e) (ae_metadata e) (ae_transaction_id e)
    (ae_attribution e) (Some l) e.
(** [entry.transaction_id = Some(tx)] *)
Definition with_transaction_id (tx : string) (e : AuditEntry) : AuditEntry :=
  entry_set (ae_id e) (ae_timestamp_ns e) (ae_metadata e) (Some tx) (ae_attribution e)
    (ae_intent_lineage e) e.
(** The id and timestamp an append assigns. *)
Definition with_id_timestamp (id ts : Z) (e : AuditEntry) : AuditEntry :=
  entry_set id ts (ae_metadata e) (ae_transaction_id e) (ae_attribution e)
    (ae_intent_lineage e) e.
End Entries.

(** ** Queries *)

Record AuditQuery : Type := {
  aq_database : option string;
  aq_collection : option CollectionId;
  aq_collection_ids : list CollectionId;
  aq_entity_id : option EntityId;
  aq_actor : option string;
  aq_operation : option MutationType;
  aq_intent_id : option string;
  aq_approval_id : option string;
  aq_since_ns : option Z;
  aq_until_ns : option Z;
  aq_after_id : option Z;
  aq_limit : option nat
}.

(** [AuditQuery::default] *)
Definition audit_query_default : AuditQuery := {|
  aq_database := None; aq_collection := None; aq_collection_ids := [];
  aq_entity_id := None; aq_actor := None; aq_operation := None; aq_intent_id := None;
  aq_approval_id := None; aq_since_ns := None; aq_until_ns := None; aq_after_id := None;
  aq_limit := None
|}.

(** Struct-update syntax on the cursor. *)
Definition query_after (after : option Z) (q : AuditQuery) : AuditQuery := {|
  aq_database := aq_database q; aq_collection := aq_collection q;
  aq_collection_ids := aq_collection_ids q; aq_entity_id := aq_entity_id q;
  aq_actor := aq_actor q; aq_operation := aq_operation q; aq_intent_id := aq_intent_id q;
  aq_approval_id := aq_approval_id q; aq_since_ns := aq_since_ns q;
  aq_until_ns := aq_until_ns q; aq_after_id := after; aq_limit := aq_limit q
|}.

Definition DEFAULT_PAGE_SIZE : nat := 100.

Definition collection_is_in_database (collection : CollectionId) (database : string) : bool :=
  let '(namespace, _) := parse_with_database collection DEFAULT_DATABASE in
  bool_decide (ns_database namespace = database).

(** ** The log *)

Section Log.
Context `{SerdeNumber}.

Record AuditPage : Type := { ap_entries : list AuditEntry; ap_next_cursor : option Z }.

Record MemoryAuditLog : Type := { log_entries : list AuditEntry; log_next_id : Z }.

Definition audit_log_default : MemoryAuditLog := {| log_entries := []; log_next_id := 0 |}.

(** [SystemTime::now().duration_since(UNIX_EPOCH)] as nanoseconds in a [u64],
    0 when the clock reads before the epoch. *)
Definition timestamp_of (now : Z) : Z := if (now <? 0)%Z then 0%Z else wrap64 now.

(** [MemoryAuditLog::append]; [now] is the reading of the system clock. *)
Definition append (log : MemoryAuditLog) (now : Z) (entry : AuditEntry)
  : MemoryAuditLog * AuditEntry :=
  let next_id := wrap64 (log_next_id log + 1) in
  let entry := with_id_timestamp next_id (timestamp_of now) entry in
  ({| log_entries := log_entries log ++ [entry]; log_next_id := next_id |}, entry).

Definition query_by_entity (log : MemoryAuditLog) (collection : CollectionId)
    (entity_id : EntityId) : list AuditEntry :=
  List.filter (fun e => bool_decide (ae_collection e = collection)
                        && bool_decide (ae_entity_id e = entity_id)) (log_entries log).

Definition query_by_time_range (log : MemoryAuditLog) (start_ns end_ns : Z) : list AuditEntry :=
  List.filter (fun e => (start_ns <=? ae_timestamp_ns e)%Z && (ae_timestamp_ns e <=? end_ns)%Z)
    (log_entries log).

Definition query_by_actor (log : MemoryAuditLog) (actor : string) : list AuditEntry :=
  List.filter (fun e => bool_decide (ae_actor e = actor)) (log_entries log).

Definition query_by_operation (log : MemoryAuditLog) (operation : MutationType)
  : list AuditEntry :=
  List.filter (fun e => bool_decide (ae_mutation e = operation)) (log_entries log).

Definition find_by_id (log : MemoryAuditLog) (id : Z) : option AuditEntry :=
  List.find (fun e => (ae_id e =? id)%Z) (log_entries log).

Definition query_by_transaction_id (log : MemoryAuditLog) (tx : string) : list AuditEntry :=
  List.filter (fun e => bool_decide (ae_transaction_id e = Some tx)) (log_entries log).

Definition known_collections (log : MemoryAuditLog) : gset CollectionId :=
  list_to_set (map ae_collection (log_entries log)).

(** The union of [collection_ids] and [collection]. *)
Definition effective_collections (q : AuditQuery) : list CollectionId :=
  match aq_collection q with
  | Some col =>
      if bool_decide (col ∈ aq_collection_ids q) then aq_collection_ids q
      else aq_collection_ids q ++ [col]
  | None => aq_collection_ids q
  end.

(** An optional filter: absent means no restriction. *)
Definition when_some {A} (o : option A) (p : A -> bool) : bool :=
  match o with Some a => p a | None => true end.

Definition is_nil {A} (l : list A) : bool := match l with [] => true | _ => false end.

(** The filter closure of [query_paginated], with the cursor test apart. *)
Definition query_matches (q : AuditQuery) (e : AuditEntry) : bool :=
  when_some (aq_database q) (fun db => collection_is_in_database (ae_collection e) db)
  && (is_nil (effective_collections q)
      || bool_decide (ae_collection e ∈ effective_collections q))
  && when_some (aq_entity_id q) (fun eid => bool_decide (ae_entity_id e = eid))
  && when_some (aq_actor q) (fun a => bool_decide (ae_actor e = a))
  && when_some (aq_operation q) (fun op => bool_decide (ae_mutation e = op))
  && when_some (aq_intent_id q) (fun iid =>
       match ae_intent_lineage e with
       | Some lineage => bool_decide (im_intent_id lineage = iid)
       | None => false
       end)
  && when_some (aq_approval_id q) (fun aid =>
       match ae_intent_lineage e ≫= im_approval_id with
       | Some entry_approval_id => bool_decide (entry_approval_id = aid)
       | None => false
       end)
  && when_some (aq_since_ns q) (fun since => negb (ae_timestamp_ns e <? since)%Z)
  && when_some (aq_until_ns q) (fun until => negb (until <? ae_timestamp_ns e)%Z).

(** [filter_audit_entries_for_query], the semantics shared with the SQL
    adapters: filter, sort by id, cut at the limit, remember the cursor. *)
Definition filter_audit_entries_for_query (entries : list AuditEntry) (q : AuditQuery)
  : AuditPage :=
  let limit := default DEFAULT_PAGE_SIZE (aq_limit q) in
  let after_id := default 0%Z (aq_after_id q) in
  let filtered :=
    List.filter (fun e => negb (ae_id e <=? after_id)%Z && query_matches q e) entries in
  let filtered := sort_by_key ae_id filtered in
  let has_more := (limit <? length filtered)%nat in
  let filtered := take limit filtered in
  {| ap_entries := filtered;
     ap_next_cursor := if has_more then option_map ae_id (list.last filtered) else None |}.

(** [MemoryAuditLog::query_paginated] *)
Definition query_paginated (log : MemoryAuditLog) (q : AuditQuery) : AuditPage :=
  let limit := default DEFAULT_PAGE_SIZE (aq_limit q) in
  let after_id := default 0%Z (aq_after_id q) in
  let filtered :=
    List.filter (fun e => negb (ae_id e <=? after_id)%Z && query_matches q e)
      (log_entries log) in
  let filtered := sort_by_key ae_id filtered in
  let has_more := (limit <? length filtered)%nat in
  let filtered := take limit filtered in
  {| ap_entries := filtered;
     ap_next_cursor := if has_more then option_map ae_id (list.last filtered) else None |}.
End Log.

(** ** Change data capture *)

Record CdcContext : Type := {
  cx_instance_name : string;
  cx_tenant : string;
  cx_db : string;
  cx_schema : string;
  cx_axon_version : string
}.

(** [CdcContext::default]; the version is the crate version at build time. *)
Definition cdc_context_default (version : string) : CdcContext := {|
  cx_instance_name := "axon"; cx_tenant := "default"; cx_db := "default";
  cx_schema := "default"; cx_axon_version := version
|}.

Inductive CdcOp : Type := CdcCreate | CdcUpdate | CdcDelete | CdcRead.

Record CdcSource : Type := {
  src_version : string;
  src_connector : string;
  src_name : string;
  src_ts_ms : Z;
  src_tenant : string;
  src_db : string;
  src_schema : string;
  src_collection : string;
  src_entity_id : string;
  src_audit_id : Z;
  src_transaction_id : option string
}.

Section Cdc.
Context `{SerdeNumber}.

Record CdcEnvelope : Type := {
  env_source : CdcSource;
  env_op : CdcOp;
  env_ts_ms : Z;
  env_before : option Value;
  env_after : option Value
}.

(** [CdcEnvelope::from_audit_entry]; [now_ms] is the clock, read only for an
    entry without a timestamp. *)
Definition from_audit_entry (entry : AuditEntry) (ctx : CdcContext) (now_ms : Z)
  : option CdcEnvelope :=
  let op :=
    match ae_mutation entry with
    | EntityCreate | LinkCreate => Some CdcCreate
    | EntityUpdate | EntityRevert => Some CdcUpdate
    | EntityDelete | LinkDelete => Some CdcDelete
    | _ => None
    end in
  match op with
  | None => None
  | Some op =>
      let ts_ms :=
        if (0 <? ae_timestamp_ns entry)%Z then (ae_timestamp_ns entry / 1000000)%Z else now_ms in
      Some {| env_source := {|
                src_version := cx_axon_version ctx;
                src_connector := "axon";
                src_name := cx_instance_name ctx;
                src_ts_ms := ts_ms;
                src_tenant := cx_tenant ctx;
                src_db := cx_db ctx;
                src_schema := cx_schema ctx;
                src_collection := ae_collection entry;
                src_entity_id := ae_entity_id entry;
                src_audit_id := ae_id entry;
                src_transaction_id := ae_transaction_id entry |};
              env_op := op;
              env_ts_ms := ts_ms;
              env_before := ae_data_before entry;
              env_after := ae_data_after entry |}
  end.

(** [CdcEnvelope::snapshot] *)
Definition cdc_snapshot (ctx : CdcContext) (collection entity_id : string) (data : Value)
    (audit_id ts_ms : Z) : CdcEnvelope := {|
  env_source := {|
    src_version := cx_axon_version ctx; src_connector := "axon";
    src_name := cx_instance_name ctx; src_ts_ms := ts_ms; src_tenant := cx_tenant ctx;
    src_db := cx_db ctx; src_schema := cx_schema ctx; src_collection := collection;
    src_entity_id := entity_id; src_audit_id := audit_id; src_transaction_id := None |};
  env_op := CdcRead;
  env_ts_ms := ts_ms;
  env_before := None;
  env_after := Some data
|}.

(** [AuditLog::replay] *)
Definition replay (log : MemoryAuditLog) (version : string) (now_ms : Z) (after_id : option Z)
    (collection : option CollectionId) (limit : nat) : list CdcEnvelope * option Z :=
  let page := query_paginated log {|
    aq_database := None; aq_collection := collection; aq_collection_ids := [];
    aq_entity_id := None; aq_actor := None; aq_operation := None; aq_intent_id := None;
    aq_approval_id := None; aq_since_ns := None; aq_until_ns := None;
    aq_after_id := after_id; aq_limit := Some limit |} in
  let ctx := cdc_context_default version in
  (omap (fun e => from_audit_entry e ctx now_ms) (ap_entries page), ap_next_cursor page).
End Cdc.

(** ** Invariant of the log *)

Section LogInvariant.
Context `{SerdeNumber}.

(** Ids are 1, 2, ... in append order, and the counter is the last one. *)
Definition log_wf (log : MemoryAuditLog) : Prop :=
  map ae_id (log_entries log) = seqZ 1 (Z.of_nat (length (log_entries log))) /\
  log_next_id log = Z.of_nat (length (log_entries log)) /\
  (Z.of_nat (length (log_entries log)) <= u64_max)%Z.

Lemma log_wf_default : log_wf audit_log_default.
Proof. by repeat split. Qed.

Lemma append_wf log now entry :
  log_wf log -> (Z.of_nat (length (log_entries log)) < u64_max)%Z ->
  log_wf (fst (append log now entry)).
Proof.
  intros (Hids & Hn & _) Hmax. unfold log_wf, append, u64_max, wrap64 in *. simpl.
  rewrite map_app, length_app, Hids, Hn. simpl.
  rewrite Z.mod_small by lia. split_and!; [|lia..].
  rewrite Nat2Z.inj_add, (seqZ_app 1) by lia. f_equal.
  unfold seqZ. simpl. f_equal. lia.
Qed.

Lemma log_wf_sorted log : log_wf log -> StronglySorted Z.lt (map ae_id (log_entries log)).
Proof.
  intros (-> & _). generalize 1%Z as m.
  induction (length (log_entries log)) as [|n IH]; intros m; [constructor|].
  rewrite seqZ_cons, Nat2Z.inj_succ, Z.pred_succ by lia. constructor; [done|].
  apply list.Forall_forall. intros x Hx%elem_of_seqZ. lia.
Qed.
End LogInvariant.

(** ** Pagination *)

Section Pagination.
Context `{SerdeNumber}.

(** A client that follows the cursors from [after] on. *)
Fixpoint drain (fuel : nat) (log : MemoryAuditLog) (q : AuditQuery) (after : option Z)
  : option (list AuditEntry) :=
  match fuel with
  | O => None
  | S fuel' =>
      let page := query_paginated log (query_after after q) in
      match ap_next_cursor page with
      | None => Some (ap_entries page)
      | Some c => (fun rest => ap_entries page ++ rest) <$> drain fuel' log q (Some c)
      end
  end.

(** The entries a query selects, without pages: those after the cursor that
    satisfy every given filter, in log order. *)
Definition selected (log : MemoryAuditLog) (q : AuditQuery) (after : Z) : list AuditEntry :=
  List.filter (fun e => negb (ae_id e <=? after)%Z && query_matches q e) (log_entries log).

Lemma selected_sorted log q after :
  log_wf log -> StronglySorted Z.lt (map ae_id (selected log q after)).
Proof. intros. by apply StronglySorted_filter, log_wf_sorted. Qed.

Lemma sort_selected log q after :
  log_wf log -> sort_by_key ae_id (selected log q after) = selected log q after.
Proof.
  intros Hwf. by apply sort_by_key_sorted, selected_sorted.
Qed.

(** Restarting from the last id of a prefix selects exactly the rest. *)
Lemma selected_next log q after l1 x l2 :
  log_wf log -> selected log q after = (l1 ++ [x]) ++ l2 ->
  selected log q (ae_id x) = l2.
Proof.
  intros Hwf Hsel.
  pose proof (selected_sorted log q after Hwf) as Hs. rewrite Hsel, !map_app in Hs.
  apply StronglySorted_app in Hs as (H2 & [H1 _]%StronglySorted_app & _).
  assert (Hx : (after < ae_id x)%Z).
  { assert (Hin : In x (selected log q after)) by (rewrite Hsel, !in_app_iff; simpl; auto).
    apply filter_In in Hin as [_ [Hin _]%andb_prop]. apply negb_true_iff, Z.leb_gt in Hin. lia. }
  assert (Hff : selected log q (ae_id x) =
    List.filter (fun e => negb (ae_id e <=? ae_id x)%Z) (selected log q after)).
  { unfold selected. rewrite <-filter_and. apply List.filter_ext. intros e.
    destruct (Z.leb_spec (ae_id e) (ae_id x)), (Z.leb_spec (ae_id e) after); try done; lia. }
  rewrite Hff, Hsel, List.filter_app, filter_none, filter_all; [done| |].
  - intros e He. apply negb_true_iff, Z.leb_gt. apply H2; [set_solver|].
    by apply list_elem_of_In, in_map.
  - intros e [He|[<-|[]]]%in_app_iff; apply negb_false_iff, Z.leb_le; [|done].
    apply Z.lt_le_incl, H1; [by apply list_elem_of_In, in_map | set_solver].
Qed.

(** One page: the first [limit] selected entries, and a cursor exactly when
    some are left. *)
Lemma query_paginated_page log q after :
  log_wf log ->
  let limit := default DEFAULT_PAGE_SIZE (aq_limit q) in
  let sel := selected log q (default 0%Z after) in
  query_paginated log (query_after after q) =
    {| ap_entries := take limit sel;
       ap_next_cursor :=
         if (limit <? length sel)%nat then option_map ae_id (list.last (take limit sel)) else None |}.
Proof.
  intros Hwf limit sel. unfold query_paginated. simpl.
  change (List.filter _ (log_entries log)) with (selected log (query_after after q) (default 0%Z after)).
  rewrite sort_selected by done. done.
Qed.

Lemma drain_selected (log : MemoryAuditLog) (q : AuditQuery) (after : option Z) (fuel : nat)
    (Hwf : log_wf log)
    (Hlimit : 0 < default DEFAULT_PAGE_SIZE (aq_limit q))
    (Hfuel : length (log_entries log) < fuel) :
  drain fuel log q after = Some (selected log q (default 0%Z after)).
Proof.
  assert (Hlen : length (selected log q (default 0%Z after)) < fuel).
  { eapply Nat.le_lt_trans; [|exact Hfuel]. apply List.filter_length_le. }
  clear Hfuel. revert after Hlen. induction fuel as [|fuel IH]; intros after Hlen; [lia|].
  cbn [drain]. rewrite query_paginated_page by done. cbn [ap_next_cursor ap_entries].
  set (limit := default DEFAULT_PAGE_SIZE (aq_limit q)) in *.
  set (sel := selected log q (default 0%Z after)) in *.
  destruct (Nat.ltb_spec limit (length sel)) as [Hlt|Hge]; [|by rewrite take_ge].
  destruct (list.last (take limit sel)) as [x|] eqn:Hlast.
  2:{ apply last_None in Hlast. apply (f_equal length) in Hlast. rewrite length_take in Hlast.
      simpl in Hlast. lia. }
  apply last_Some in Hlast as [l1 Hl1]. cbn [option_map].
  assert (Hsel : sel = (l1 ++ [x]) ++ drop limit sel) by by rewrite <-Hl1, take_drop.
  assert (Hnext : selected log q (ae_id x) = drop limit sel) by by eapply selected_next.
  rewrite IH; cbn [default from_option]; unfold id; rewrite Hnext.
  - simpl. by rewrite take_drop.
  - rewrite length_drop. lia.
Qed.

(** Cursor pagination is complete and exact: for every filter and every
    page size of at least one, a client that follows the cursors receives,
    after finitely many pages, each matching entry exactly once and in
    ascending id order, starting after any cursor it already holds. *)
Theorem pagination_complete (log : MemoryAuditLog) (q : AuditQuery) (after : option Z) (fuel : nat)
    (Hwf : log_wf log)
    (Hlimit : 0 < default DEFAULT_PAGE_SIZE (aq_limit q))
    (Hfuel : length (log_entries log) < fuel) :
  drain fuel log q after = Some (selected log q (default 0%Z after)).
Proof. by apply drain_selected. Qed.
End Pagination.

(** ** Diffs, appends, replay *)

Section Claims.
Context `{SerdeNumber}.

Lemma foldr_diff_lookup bo ao keys k :
  foldr (diff_key bo ao) ∅ keys !! k =
  if bool_decide (k ∈ keys) && negb (opt_value_eqb (assoc_get k bo) (assoc_get k ao))
  then Some {| fd_before := assoc_get k bo; fd_after := assoc_get k ao |} else None.
Proof.
  induction keys as [|k' keys IH]; simpl; [done|]. unfold diff_key at 1.
  destruct (decide (k' = k)) as [->|Hne].
  - rewrite (bool_decide_true (k ∈ k :: keys)) by set_solver. simpl.
    destruct (opt_value_eqb _ _) eqn:E; simpl; [by rewrite IH, andb_false_r|].
    by rewrite lookup_insert_eq.
  - rewrite (bool_decide_ext (k ∈ k' :: keys) (k ∈ keys)) by set_solver.
    destruct (negb (opt_value_eqb (assoc_get k' bo) _)); [|done].
    by rewrite lookup_insert_ne.
Qed.

Lemma assoc_get_None {A} k (l : list (string * A)) : k ∉ map fst l -> assoc_get k l = None.
Proof.
  induction l as [|[k' v] l IH]; simpl; [done|]. intros Hk.
  rewrite decide_False by set_solver. apply IH. set_solver.
Qed.

(** The field diff of an audit entry is exact: for two JSON objects a key
    is in the diff precisely when its values differ, and then with exactly
    the old and the new value (absent for an added or a removed field);
    a non-object on either side has no diff. *)
Theorem compute_diff_exact (before after : Value) (key : string) :
  compute_diff before after !! key =
  match as_object before, as_object after with
  | Some bo, Some ao =>
      if opt_value_eqb (assoc_get key bo) (assoc_get key ao) then None
      else Some {| fd_before := assoc_get key bo; fd_after := assoc_get key ao |}
  | _, _ => None
  end.
Proof.
  unfold compute_diff. destruct (as_object before) as [bo|]; [|done].
  destruct (as_object after) as [ao|]; [|done].
  rewrite foldr_diff_lookup.
  destruct (bool_decide_reflect (key ∈ elements (list_to_set (C := gset string) (map fst bo ++ map fst ao))))
    as [Hin|Hin]; simpl; [by destruct (opt_value_eqb _ _)|].
  rewrite elem_of_elements, elem_of_list_to_set in Hin.
  rewrite !assoc_get_None by set_solver. done.
Qed.

Lemma find_app_new {A} (p : A -> bool) l x :
  List.find p l = None -> p x = true -> List.find p (l ++ [x]) = Some x.
Proof. induction l as [|a l IH]; simpl; [by intros _ ->|]. by destruct (p a). Qed.

Lemma find_app_old {A} (p : A -> bool) l x :
  p x = false -> List.find p (l ++ [x]) = List.find p l.
Proof. intros Hx. induction l as [|a l IH]; simpl; [by rewrite Hx|]. by destruct (p a). Qed.

Lemma find_by_id_None log id :
  log_wf log -> (Z.of_nat (length (log_entries log)) < id)%Z -> find_by_id log id = None.
Proof.
  intros Hwf Hid. unfold find_by_id.
  destruct (List.find _ _) as [e|] eqn:Hf; [|done]. exfalso.
  apply List.find_some in Hf as [Hin He%Z.eqb_eq]. destruct Hwf as (Hids & _ & _).
  apply (in_map ae_id) in Hin. rewrite Hids, He in Hin.
  apply list_elem_of_In, elem_of_seqZ in Hin. lia.
Qed.

(** The log is append-only and its ids are the positions 1, 2, 3, ...:
    an append keeps every earlier entry where it is and as it is, gives the
    new entry the next id and only changes its id and timestamp, makes it the
    entry found under that id, and leaves the result of every earlier id
    lookup unchanged.  This holds for as long as fewer than 2^64 - 1 entries
    have been written. *)
Theorem append_extends_log (log : MemoryAuditLog) (now : Z) (entry : AuditEntry)
    (Hwf : log_wf log) (Hmax : (Z.of_nat (length (log_entries log)) < u64_max)%Z) :
  let '(log', stored) := append log now entry in
  log_wf log' /\
  log_entries log' = log_entries log ++ [stored] /\
  stored = with_id_timestamp (Z.of_nat (length (log_entries log)) + 1) (timestamp_of now) entry /\
  find_by_id log' (ae_id stored) = Some stored /\
  (forall id, id <> ae_id stored -> find_by_id log' id = find_by_id log id).
Proof.
  pose proof (append_wf log now entry Hwf Hmax) as Hwf'. unfold append in *. cbn [fst] in Hwf'.
  assert (Hid : wrap64 (log_next_id log + 1) = (Z.of_nat (length (log_entries log)) + 1)%Z).
  { destruct Hwf as (_ & -> & _). unfold wrap64, u64_max in *. apply Z.mod_small. lia. }
  split; [done|]. split; [done|]. split; [by rewrite Hid|]. split.
  - unfold find_by_id. simpl. rewrite Hid. apply find_app_new; [|apply Z.eqb_refl].
    apply (find_by_id_None log); [done | lia].
  - intros id Hne. simpl in Hne. unfold find_by_id. simpl.
    apply find_app_old. simpl. apply Z.eqb_neq. congruence.
Qed.

(** A page of size zero carries no cursor, even when entries remain. *)
Lemma zero_limit_page (log : MemoryAuditLog) (q : AuditQuery) :
  aq_limit q = Some 0 -> query_paginated log q = {| ap_entries := []; ap_next_cursor := None |}.
Proof. intros Hq. unfold query_paginated. rewrite Hq. simpl. by destruct (_ <? _). Qed.

(** A consumer that follows the replay cursors. *)
Fixpoint replay_all (fuel : nat) (log : MemoryAuditLog) (version : string) (now_ms : Z)
    (after : option Z) (collection : option CollectionId) (limit : nat)
  : option (list CdcEnvelope) :=
  match fuel with
  | O => None
  | S fuel' =>
      let '(envelopes, next) := replay log version now_ms after collection limit in
      match next with
      | None => Some envelopes
      | Some c =>
          (fun rest => envelopes ++ rest) <$>
            replay_all fuel' log version now_ms (Some c) collection limit
      end
  end.

(** The query that [replay] runs. *)
Definition replay_query (collection : option CollectionId) (limit : nat) : AuditQuery := {|
  aq_database := None; aq_collection := collection; aq_collection_ids := [];
  aq_entity_id := None; aq_actor := None; aq_operation := None; aq_intent_id := None;
  aq_approval_id := None; aq_since_ns := None; aq_until_ns := None; aq_after_id := None;
  aq_limit := Some limit |}.

Lemma replay_all_drain fuel log version now_ms after collection limit :
  replay_all fuel log version now_ms after collection limit =
  option_map (fun l => omap (fun e => from_audit_entry e (cdc_context_default version) now_ms) l)
    (drain fuel log (replay_query collection limit) after).
Proof.
  revert after. induction fuel as [|fuel IH]; intros after; [done|]. cbn [replay_all drain].
  unfold replay. change (query_paginated log {| aq_database := None; aq_collection := collection;
    aq_collection_ids := []; aq_entity_id := None; aq_actor := None; aq_operation := None;
    aq_intent_id := None; aq_approval_id := None; aq_since_ns := None; aq_until_ns := None;
    aq_after_id := after; aq_limit := Some limit |})
    with (query_paginated log (query_after after (replay_query collection limit))).
  destruct (ap_next_cursor _) as [c|]; [|done]. rewrite IH.
  destruct (drain fuel log _ (Some c)); simpl; [|done]. f_equal. by rewrite omap_app.
Qed.

(** The mutations that a change feed carries. *)
Definition is_change (m : MutationType) : bool :=
  match m with
  | EntityCreate | EntityUpdate | EntityDelete | EntityRevert | LinkCreate | LinkDelete => true
  | _ => false
  end.

Lemma envelope_ids ctx now_ms (l : list AuditEntry) :
  map (fun v => src_audit_id (env_source v)) (omap (fun e => from_audit_entry e ctx now_ms) l)
  = map ae_id (List.filter (fun e => is_change (ae_mutation e)) l).
Proof.
  induction l as [|e l IH]; [done|]. cbn [List.filter].
  change (omap (fun e => from_audit_entry e ctx now_ms) (e :: l)) with
    (match from_audit_entry e ctx now_ms with
     | Some v => v :: omap (fun e => from_audit_entry e ctx now_ms) l
     | None => omap (fun e => from_audit_entry e ctx now_ms) l
     end).
  unfold from_audit_entry at 1. destruct (ae_mutation e); simpl; by rewrite <-?IH.
Qed.

(** Resumable replay loses and repeats nothing: from any cursor, the
    envelopes a consumer receives over all pages are, in ascending audit id,
    one for each entity or link mutation after the cursor in the requested
    collection, and none for any other audit entry. *)
Theorem replay_exactly_once (log : MemoryAuditLog) (version : string) (now_ms : Z)
    (after : option Z) (collection : option CollectionId) (limit fuel : nat)
    (Hwf : log_wf log) (Hlimit : 0 < limit) (Hfuel : length (log_entries log) < fuel) :
  exists envelopes,
    replay_all fuel log version now_ms after collection limit = Some envelopes /\
    map (fun v => src_audit_id (env_source v)) envelopes =
    map ae_id (List.filter
      (fun e => is_change (ae_mutation e)
                && (negb (ae_id e <=? default 0 after)%Z
                    && when_some collection (fun c => bool_decide (ae_collection e = c))))
      (log_entries log)).
Proof.
  eexists. split.
  { rewrite replay_all_drain, drain_selected by done. simpl. reflexivity. }
  rewrite filter_and. unfold selected.
  assert (Hq : forall e, query_matches (replay_query collection limit) e =
    when_some collection (fun c => bool_decide (ae_collection e = c))).
  { intros e. unfold query_matches, effective_collections. simpl.
    destruct collection as [c|]; simpl; [|done].
    rewrite !andb_true_r.
    apply bool_decide_ext. by rewrite list_elem_of_singleton. }
  rewrite (List.filter_ext _ (fun e => negb (ae_id e <=? default 0 after)%Z
    && when_some collection (fun c => bool_decide (ae_collection e = c)))) by (intros; by rewrite Hq).
  apply envelope_ids.
Qed.
End Claims.

(** ** A sample log *)

Definition sample_entry (c id : string) (m : MutationType)
  : AuditEntry (H := simple_serde_number) :=
  audit_entry_new c id 1 m None (Some (jint 7)) (Some "alice").

Definition sample_log : MemoryAuditLog (H := simple_serde_number) :=
  fold_left (fun log e => fst (append log 1000 e))
    [sample_entry "tasks" "t-1" EntityCreate; sample_entry "tasks" "" SchemaUpdate;
     sample_entry "users" "u-1" EntityCreate; sample_entry "tasks" "t-1" EntityUpdate]
    audit_log_default.

Lemma sample_log_wf : log_wf sample_log.
Proof. by vm_compute. Qed.

Lemma pagination_complete_witness :
  option_map (map ae_id) (drain 5 sample_log (replay_query (Some "tasks") 1) None)
  = Some [1; 2; 4]%Z.
Proof.
  rewrite (pagination_complete sample_log (replay_query (Some "tasks") 1) None 5);
    [vm_compute; reflexivity | exact sample_log_wf | simpl; lia | vm_compute; lia].
Defined.

Lemma append_extends_log_witness :
  find_by_id (fst (append sample_log 2000 (sample_entry "users" "u-2" EntityCreate))) 5%Z
  = Some (snd (append sample_log 2000 (sample_entry "users" "u-2" EntityCreate))).
Proof.
  apply (append_extends_log sample_log 2000 (sample_entry "users" "u-2" EntityCreate));
    [exact sample_log_wf | vm_compute; reflexivity].
Defined.

Lemma replay_exactly_once_witness :
  exists envelopes,
    replay_all 5 sample_log "0.1.0" 0 None (Some "tasks") 2 = Some envelopes /\
    map (fun v => src_audit_id (env_source v)) envelopes = [1; 4]%Z.
Proof.
  apply (replay_exactly_once sample_log "0.1.0" 0 None (Some "tasks") 2 5);
    [exact sample_log_wf | lia | vm_compute; lia].
Defined.
