(* ===== verification/Schema.v ===== *)
(** * Collection schemas ([crates/axon-schema/src/schema.rs], [rules.rs],
    [access_control.rs])

    The data of a collection schema as the storage, the validation rules and
    the policy layer read it, and the constructors and conversions on it. *)

From S2P Require Import Prelude Json Ids Types Intents IndexKeys.

Inductive Cardinality : Type := OneToOne | OneToMany | ManyToOne | ManyToMany.

Record LifecycleDef : Type := {
  lc_field : string;
  lc_initial : string;
  lc_transitions : gmap string (list string)
}.

Record GateDef : Type := {
  gd_description : option string;
  gd_includes : list string
}.

Record NamedQueryParameter : Type := {
  np_name : string;
  np_param_type : string;
  np_required : bool
}.

Record NamedQueryDef : Type := {
  nq_description : string;
  nq_cypher : string;
  nq_parameters : list NamedQueryParameter
}.

(** Presentation metadata of a collection. *)
Record CollectionView : Type := {
  cv_collection : CollectionId;
  cv_description : option string;
  cv_markdown_template : string;
  cv_version : Z;
  cv_updated_at_ns : option Z;
  cv_updated_by : option string
}.

(** [CollectionView::new] *)
Definition collection_view_new (collection : CollectionId) (template : string) : CollectionView := {|
  cv_collection := collection; cv_description := None; cv_markdown_template := template;
  cv_version := 1; cv_updated_at_ns := None; cv_updated_by := None
|}.

(** ** Access-control metadata *)

Inductive PolicyOperation : Type :=
| OpRead | OpCreate | OpUpdate | OpDelete | OpWrite | OpAdmin.

#[export] Instance PolicyOperation_eq_dec : EqDecision PolicyOperation.
Proof. solve_decision. Defined.

#[export] Instance PolicyOperation_countable : Countable PolicyOperation.
Proof.
  apply (inj_countable
    (fun op => match op with
               | OpRead => 0 | OpCreate => 1 | OpUpdate => 2 | OpDelete => 3 | OpWrite => 4
               | OpAdmin => 5 end)
    (fun n => [OpRead; OpCreate; OpUpdate; OpDelete; OpWrite; OpAdmin] !! n)).
  by intros [].
Defined.

(** [PolicyOperation::as_str] *)
Definition policy_operation_as_str (op : PolicyOperation) : string :=
  match op with
  | OpRead => "read" | OpCreate => "create" | OpUpdate => "update"
  | OpDelete => "delete" | OpWrite => "write" | OpAdmin => "admin"
  end.

Inductive PolicyDecision : Type := PolicyAllow | PolicyNeedsApproval | PolicyDeny.

(** [From<PolicyDecision> for MutationIntentDecision] *)
Definition decision_of_policy (d : PolicyDecision) : MutationIntentDecision :=
  match d with
  | PolicyAllow => Allow
  | PolicyNeedsApproval => NeedsApproval
  | PolicyDeny => Deny
  end.

Record ApprovalRoute : Type := {
  rt_role : option string;
  rt_reason_required : bool;
  rt_deadline_seconds : option Z;
  rt_separation_of_duties : bool
}.

(** [From<ApprovalRoute> for MutationApprovalRoute] *)
Definition route_of_policy (r : ApprovalRoute) : MutationApprovalRoute := {|
  ar_role := rt_role r;
  ar_reason_required := rt_reason_required r;
  ar_deadline_seconds := rt_deadline_seconds r;
  ar_separation_of_duties := rt_separation_of_duties r
|}.

Inductive LinkDirection : Type := Incoming | Outgoing.

Record RelationshipPredicate : Type := {
  rp_link_type : string;
  rp_direction : option LinkDirection;
  rp_target_collection : string;
  rp_target_policy : option PolicyOperation
}.

Record SharesRelationPredicate : Type := {
  sr_collection : string;
  sr_field : string;
  sr_subject_field : string;
  sr_target_field : string
}.

Record IdentityAttributeSource : Type := {
  ia_from : string;
  ia_collection : option string;
  ia_key_field : option string;
  ia_key_subject : option string;
  ia_value_field : option string
}.

Record AccessControlIdentity : Type := {
  ai_subject : gmap string string;
  ai_attributes : gmap string IdentityAttributeSource;
  ai_aliases : gmap string string
}.

Section Schema.
Context `{SerdeNumber}.

Record LinkTypeDef : Type := {
  lt_target_collection : string;
  lt_cardinality : Cardinality;
  lt_required : bool;
  lt_metadata_schema : option Value
}.

Inductive PolicyCompareOp : Type :=
| PEq (v : Value) | PNe (v : Value) | PIn (vs : list Value)
| PNotNull (b : bool) | PIsNull (b : bool)
| PGt (v : Value) | PGte (v : Value) | PLt (v : Value) | PLte (v : Value)
| PContainsSubject (s : string) | PEqSubject (s : string).

Inductive PolicyPredicate : Type :=
| PAll (all : list PolicyPredicate)
| PAny (any : list PolicyPredicate)
| PNot (p : PolicyPredicate)
| PSubject (subject : string) (op : PolicyCompareOp)
| PField (field : string) (op : PolicyCompareOp)
| POperation (operation : PolicyOperation)
| PRelated (related : RelationshipPredicate)
| PSharesRelation (shares_relation : SharesRelationPredicate).

Record PolicyRule : Type := {
  pr_name : option string;
  pr_when : option PolicyPredicate;
  pr_where : option PolicyPredicate
}.

Record FieldPolicyRule : Type := {
  fr_name : option string;
  fr_when : option PolicyPredicate;
  fr_where : option PolicyPredicate;
  fr_redact_as : option Value
}.

Record OperationPolicy : Type := {
  op_allow : list PolicyRule;
  op_deny : list PolicyRule
}.

Record FieldAccessPolicy : Type := {
  fa_allow : list FieldPolicyRule;
  fa_deny : list FieldPolicyRule
}.

Record FieldPolicy : Type := {
  fp_read : option FieldAccessPolicy;
  fp_write : option FieldAccessPolicy
}.

Record PolicyEnvelope : Type := {
  pe_name : option string;
  pe_when : option PolicyPredicate;
  pe_decision : PolicyDecision;
  pe_approval : option ApprovalRoute
}.

Record AccessControlPolicy : Type := {
  ac_identity : option AccessControlIdentity;
  ac_read : option OperationPolicy;
  ac_create : option OperationPolicy;
  ac_update : option OperationPolicy;
  ac_delete : option OperationPolicy;
  ac_write : option OperationPolicy;
  ac_admin : option OperationPolicy;
  ac_fields : gmap string FieldPolicy;
  ac_transitions : gmap string (gmap string OperationPolicy);
  ac_envelopes : gmap PolicyOperation (list PolicyEnvelope)
}.

(** ** Validation rules *)

Inductive ConditionOp : Type :=
| CEq (v : Value) | CNe (v : Value) | CIn (vs : list Value)
| CNotNull (flag : bool) | CIsNull (flag : bool)
| CGt (v : Value) | CGte (v : Value) | CLt (v : Value) | CLte (v : Value)
| CMatch (pattern : string).

Inductive RuleCondition : Type :=
| CondAll (all : list RuleCondition)
| CondAny (any : list RuleCondition)
| CondField (field : string) (op : ConditionOp).

Inductive RequirementOp : Type :=
| RNotNull (flag : bool)
| REq (v : Value) | RNe (v : Value) | RIn (vs : list Value)
| RGtField (f : string) | RGteField (f : string) | RLtField (f : string) | RLteField (f : string)
| RMatch (pattern : string) | RNotMatch (pattern : string)
| RMinLength (n : nat)
| RLte (v : Value).

Record RuleRequirement : Type := {
  rq_field : string;
  rq_op : RequirementOp
}.

Record ValidationRule : Type := {
  vr_name : string;
  vr_gate : option string;
  vr_advisory : bool;
  vr_when : option RuleCondition;
  vr_require : RuleRequirement;
  vr_message : string;
  vr_fix : option string
}.

(** ** Schemas *)

Record CollectionSchema : Type := {
  cs_collection : CollectionId;
  cs_description : option string;
  cs_version : Z;
  cs_entity_schema : option Value;
  cs_link_types : gmap string LinkTypeDef;
  cs_access_control : option AccessControlPolicy;
  cs_gates : gmap string GateDef;
  cs_validation_rules : list ValidationRule;
  cs_indexes : list IndexDef;
  cs_compound_indexes : list CompoundIndexDef;
  cs_queries : gmap string NamedQueryDef;
  cs_lifecycles : gmap string LifecycleDef
}.

(** [CollectionSchema::new] *)
Definition collection_schema_new (collection : CollectionId) : CollectionSchema := {|
  cs_collection := collection;
  cs_description := None;
  cs_version := 1;
  cs_entity_schema := None;
  cs_link_types := ∅;
  cs_access_control := None;
  cs_gates := ∅;
  cs_validation_rules := [];
  cs_indexes := [];
  cs_compound_indexes := [];
  cs_queries := ∅;
  cs_lifecycles := ∅
|}.

(** [versioned.collection = c; versioned.version = v] *)
Definition schema_with (c : CollectionId) (v : Z) (s : CollectionSchema) : CollectionSchema := {|
  cs_collection := c;
  cs_description := cs_description s;
  cs_version := v;
  cs_entity_schema := cs_entity_schema s;
  cs_link_types := cs_link_types s;
  cs_access_control := cs_access_control s;
  cs_gates := cs_gates s;
  cs_validation_rules := cs_validation_rules s;
  cs_indexes := cs_indexes s;
  cs_compound_indexes := cs_compound_indexes s;
  cs_queries := cs_queries s;
  cs_lifecycles := cs_lifecycles s
|}.
End Schema.
