(* ===== verification/PolicyPlan.v ===== *)
(** * Compiled access-control policies ([crates/axon-schema/src/policy.rs])

    The data of a compiled policy: plans, rules, predicates, reports and
    diagnostics, and the helpers on identifiers and on schema paths that the
    compiler shares with its reports. *)

From S2P Require Import Prelude Json Ids Types Schema.
From stdpp Require Import pretty.

(** ** Diagnostics *)

Definition POLICY_COMPILE_ERROR_DEFAULT_CODE : string := "policy_expression_invalid".

Record PolicyCompileError : Type := {
  ce_code : string;
  ce_message : string;
  ce_path : option string;
  ce_collection : option string;
  ce_rule_id : option string;
  ce_field : option string
}.

(** [PolicyCompileError::new] *)
Definition compile_error_new (message : string) : PolicyCompileError := {|
  ce_code := POLICY_COMPILE_ERROR_DEFAULT_CODE; ce_message := message; ce_path := None;
  ce_collection := None; ce_rule_id := None; ce_field := None
|}.

Definition with_path (path : string) (e : PolicyCompileError) : PolicyCompileError := {|
  ce_code := ce_code e; ce_message := ce_message e; ce_path := Some path;
  ce_collection := ce_collection e; ce_rule_id := ce_rule_id e; ce_field := ce_field e
|}.

Definition with_error_collection (collection : string) (e : PolicyCompileError)
    : PolicyCompileError := {|
  ce_code := ce_code e; ce_message := ce_message e; ce_path := ce_path e;
  ce_collection := Some collection; ce_rule_id := ce_rule_id e; ce_field := ce_field e
|}.

Definition with_rule_id_if_unset (rule_id : string) (e : PolicyCompileError)
    : PolicyCompileError := {|
  ce_code := ce_code e; ce_message := ce_message e; ce_path := ce_path e;
  ce_collection := ce_collection e;
  ce_rule_id := match ce_rule_id e with None => Some rule_id | r => r end;
  ce_field := ce_field e
|}.

Definition with_field_if_unset (field : string) (e : PolicyCompileError)
    : PolicyCompileError := {|
  ce_code := ce_code e; ce_message := ce_message e; ce_path := ce_path e;
  ce_collection := ce_collection e; ce_rule_id := ce_rule_id e;
  ce_field := match ce_field e with None => Some field | f => f end
|}.

(** [Display for PolicyCompileError] *)
Definition compile_error_display (e : PolicyCompileError) : string :=
  ce_code e +:+ ": " +:+ ce_message e.

(** The wire shape of an error; its fields are those of the error. *)
Record PolicyCompileDiagnostic : Type := {
  dg_code : string;
  dg_message : string;
  dg_path : option string;
  dg_collection : option string;
  dg_rule_id : option string;
  dg_field : option string
}.

(** [From<&PolicyCompileError> for PolicyCompileDiagnostic] *)
Definition diagnostic_of (e : PolicyCompileError) : PolicyCompileDiagnostic := {|
  dg_code := ce_code e; dg_message := ce_message e; dg_path := ce_path e;
  dg_collection := ce_collection e; dg_rule_id := ce_rule_id e; dg_field := ce_field e
|}.

(** ** Reports *)

Record RequiredLinkIndex : Type := {
  li_name : string;
  li_source_collection : string;
  li_link_type : string;
  li_target_collection : string;
  li_direction : LinkDirection
}.

(** [RequiredLinkIndex::new] *)
Definition required_link_index_new (direction : LinkDirection)
    (source_collection link_type target_collection : string) : RequiredLinkIndex := {|
  li_name := match direction with Outgoing => "links_primary" | Incoming => "idx_links_target" end;
  li_source_collection := source_collection;
  li_link_type := link_type;
  li_target_collection := target_collection;
  li_direction := direction
|}.

Record PolicyNullableField : Type := {
  nf_collection : string;
  nf_field : string;
  nf_required_by_schema : bool;
  nf_graphql_nullable : bool;
  nf_rule_ids : list string
}.

Record PolicyDeniedWriteField : Type := {
  dw_collection : string;
  dw_field : string;
  dw_rule_ids : list string
}.

Record PolicyEnvelopeSummary : Type := {
  es_collection : string;
  es_operation : PolicyOperation;
  es_envelope_id : string;
  es_name : option string;
  es_decision : PolicyDecision;
  es_approval : option ApprovalRoute
}.

Record PolicyCompileReport : Type := {
  rep_errors : list PolicyCompileDiagnostic;
  rep_warnings : list PolicyCompileDiagnostic;
  rep_required_link_indexes : list RequiredLinkIndex;
  rep_nullable_fields : list PolicyNullableField;
  rep_denied_write_fields : list PolicyDeniedWriteField;
  rep_envelope_summaries : list PolicyEnvelopeSummary
}.

Definition report_default : PolicyCompileReport := {|
  rep_errors := []; rep_warnings := []; rep_required_link_indexes := [];
  rep_nullable_fields := []; rep_denied_write_fields := []; rep_envelope_summaries := []
|}.

(** [PolicyCompileReport::from_compile_error] *)
Definition from_compile_error (e : PolicyCompileError) : PolicyCompileReport := {|
  rep_errors := [diagnostic_of e]; rep_warnings := []; rep_required_link_indexes := [];
  rep_nullable_fields := []; rep_denied_write_fields := []; rep_envelope_summaries := []
|}.

Inductive PolicyExplainKind : Type :=
| OperationAllow | OperationDeny | FieldReadAllow | FieldReadDeny
| FieldWriteAllow | FieldWriteDeny | TransitionAllow | TransitionDeny | ExplainEnvelope.

Record PolicyExplainEntry : Type := {
  ex_rule_id : string;
  ex_collection : string;
  ex_operation : PolicyOperation;
  ex_kind : PolicyExplainKind;
  ex_path : string;
  ex_name : option string;
  ex_field_path : option string;
  ex_transition : option string;
  ex_decision : option PolicyDecision
}.

#[export] Instance LinkDirection_eq_dec : EqDecision LinkDirection.
Proof. solve_decision. Defined.
#[export] Instance PolicyDecision_eq_dec : EqDecision PolicyDecision.
Proof. solve_decision. Defined.
#[export] Instance ApprovalRoute_eq_dec : EqDecision ApprovalRoute.
Proof. solve_decision. Defined.
#[export] Instance RequiredLinkIndex_eq_dec : EqDecision RequiredLinkIndex.
Proof. solve_decision. Defined.
#[export] Instance PolicyNullableField_eq_dec : EqDecision PolicyNullableField.
Proof. solve_decision. Defined.
#[export] Instance PolicyDeniedWriteField_eq_dec : EqDecision PolicyDeniedWriteField.
Proof. solve_decision. Defined.
#[export] Instance PolicyEnvelopeSummary_eq_dec : EqDecision PolicyEnvelopeSummary.
Proof. solve_decision. Defined.
#[export] Instance PolicyExplainKind_eq_dec : EqDecision PolicyExplainKind.
Proof. solve_decision. Defined.
#[export] Instance PolicyExplainEntry_eq_dec : EqDecision PolicyExplainEntry.
Proof. solve_decision. Defined.

(** ** Compiled predicates and plans *)

Inductive PredicateTarget : Type :=
| TSubject (name : string)
| TField (path : string).

Record CompiledRelationshipPredicate : Type := {
  cr_link_type : string;
  cr_direction : LinkDirection;
  cr_target_collection : string;
  cr_target_policy : option PolicyOperation;
  cr_link_source_collection : string;
  cr_link_target_collection : string;
  cr_required_link_index : RequiredLinkIndex
}.

Set Warnings "-register-all".

Section Plans.
Context `{SerdeNumber}.

Inductive CompiledCompareOp : Type :=
| CoEq (v : Value) | CoNe (v : Value) | CoIn (vs : list Value)
| CoNotNull (b : bool) | CoIsNull (b : bool)
| CoGt (v : Value) | CoGte (v : Value) | CoLt (v : Value) | CoLte (v : Value)
| CoContainsSubject (s : string) | CoEqSubject (s : string).

Record CompiledComparison : Type := {
  cc_target : PredicateTarget;
  cc_op : CompiledCompareOp
}.

Inductive CompiledPredicate : Type :=
| CpAll (all : list CompiledPredicate)
| CpAny (any : list CompiledPredicate)
| CpNot (p : CompiledPredicate)
| CpCompare (c : CompiledComparison)
| CpOperation (operation : PolicyOperation)
| CpRelated (related : CompiledRelationshipPredicate)
| CpSharesRelation (shares : SharesRelationPredicate).

Record CompiledPolicyRule : Type := {
  rl_rule_id : string;
  rl_path : string;
  rl_name : option string;
  rl_when : option CompiledPredicate;
  rl_where : option CompiledPredicate
}.

Record CompiledFieldPolicyRule : Type := {
  fl_rule_id : string;
  fl_path : string;
  fl_name : option string;
  fl_when : option CompiledPredicate;
  fl_where : option CompiledPredicate;
  fl_redact_as : option Value
}.

Record CompiledOperationPolicy : Type := {
  cp_allow : list CompiledPolicyRule;
  cp_deny : list CompiledPolicyRule
}.

Record CompiledFieldAccessPolicy : Type := {
  cf_allow : list CompiledFieldPolicyRule;
  cf_deny : list CompiledFieldPolicyRule
}.

Record CompiledFieldPolicy : Type := {
  cf_read : option CompiledFieldAccessPolicy;
  cf_write : option CompiledFieldAccessPolicy
}.

Record CompiledPolicyEnvelope : Type := {
  ev_envelope_id : string;
  ev_path : string;
  ev_name : option string;
  ev_when : option CompiledPredicate;
  ev_decision : PolicyDecision;
  ev_approval : option ApprovalRoute
}.

Record PolicyPlan : Type := {
  pp_policy_version : Z;
  pp_operations : gmap PolicyOperation CompiledOperationPolicy;
  pp_fields : gmap string CompiledFieldPolicy;
  pp_transitions : gmap string (gmap string CompiledOperationPolicy);
  pp_envelopes : gmap PolicyOperation (list CompiledPolicyEnvelope);
  pp_report : PolicyCompileReport;
  pp_explain : list PolicyExplainEntry
}.

Record PolicyCatalog : Type := {
  pc_plans : gmap string PolicyPlan;
  pc_report : PolicyCompileReport
}.

(** Induction over predicates with the hypothesis for every member of a list. *)
Lemma compiled_predicate_ind (P : CompiledPredicate -> Prop) :
  (forall l, Forall P l -> P (CpAll l)) ->
  (forall l, Forall P l -> P (CpAny l)) ->
  (forall p, P p -> P (CpNot p)) ->
  (forall c, P (CpCompare c)) ->
  (forall op, P (CpOperation op)) ->
  (forall r, P (CpRelated r)) ->
  (forall s, P (CpSharesRelation s)) ->
  forall p, P p.
Proof.
  intros Hall Hany Hnot Hc Ho Hr Hs.
  fix IH 1. intros [l|l|p|c|op|r|s]; [apply Hall | apply Hany | apply Hnot | auto..]; [| |apply IH].
  all: induction l as [|p l IHl]; constructor; [apply IH | exact IHl].
Qed.

(** ** Paths into an entity schema *)

(** [str::strip_suffix] *)
Fixpoint str_strip_suffix (suffix s : string) : option string :=
  if decide (s = suffix) then Some ""
  else match s with
       | EmptyString => None
       | String c s' => option_map (String c) (str_strip_suffix suffix s')
       end.

(** [strip_suffix("[]").unwrap_or(segment)] *)
Definition strip_brackets (segment : string) : string :=
  default segment (str_strip_suffix "[]" segment).

(** [ends_with("[]")] *)
Definition ends_with_brackets (segment : string) : bool :=
  bool_decide (is_Some (str_strip_suffix "[]" segment)).

Definition schema_type (schema : Value) : option string :=
  match value_get schema "type" with Some v => as_str v | None => None end.

Definition object_property (schema : Value) (segment : string) : option Value :=
  match value_get schema "properties" with Some p => value_get p segment | None => None end.

Definition array_items (schema : Value) : option Value :=
  if bool_decide (schema_type schema <> Some "array") then None
  else value_get schema "items".

Definition object_required_contains (schema : Value) (segment : string) : bool :=
  match value_get schema "required" with
  | Some v =>
      match as_array v with
      | Some required => existsb (fun x => bool_decide (as_str x = Some segment)) required
      | None => false
      end
  | None => false
  end.

(** The loop of [field_path_required]. *)
Fixpoint segments_required (current : Value) (segments : list string) : bool :=
  match segments with
  | [] => true
  | raw_segment :: rest =>
      if bool_decide (raw_segment = "") then false
      else
        let segment := strip_brackets raw_segment in
        if negb (object_required_contains current segment) then false
        else
          match object_property current segment with
          | None => false
          | Some next =>
              if ends_with_brackets raw_segment then
                match array_items next with
                | Some items => segments_required items rest
                | None => false
                end
              else segments_required next rest
          end
  end.

Definition field_path_required (schema : option Value) (path : string) : bool :=
  match schema with
  | None => false
  | Some current => segments_required current (split_on dot path)
  end.

(** ** Identifiers *)

Definition is_ascii_alphanumeric (c : ascii) : bool :=
  let b := byte_of c in
  ((48 <=? b) && (b <=? 57) || (65 <=? b) && (b <=? 90) || (97 <=? b) && (b <=? 122))%Z.

Definition to_ascii_lowercase (c : ascii) : ascii :=
  let b := byte_of c in
  if ((65 <=? b) && (b <=? 90))%Z then Stdlib.Strings.Ascii.ascii_of_N (Z.to_N (b + 32)) else c.

Definition dash : ascii := Eval compute in Stdlib.Strings.Ascii.ascii_of_nat 45.
Definition underscore : ascii := Eval compute in Stdlib.Strings.Ascii.ascii_of_nat 95.

(** [while output.ends_with(c) { output.pop(); }] *)
Fixpoint trim_end (c : ascii) (s : string) : string :=
  match s with
  | EmptyString => EmptyString
  | String d s' =>
      match trim_end c s' with
      | EmptyString => if decide (d = c) then EmptyString else String d EmptyString
      | t => String d t
      end
  end.

(** The loop over the characters; the bytes of a character outside ASCII all
    take the last branch, which collapses runs, so that going by bytes gives
    the same text. *)
Fixpoint normalize_loop (input output : string) (last_was_separator : bool) : string :=
  match input with
  | EmptyString => output
  | String ch rest =>
      if is_ascii_alphanumeric ch then
        normalize_loop rest (output +:+ String (to_ascii_lowercase ch) "") false
      else if bool_decide (ch = dash) || bool_decide (ch = underscore) then
        normalize_loop rest (output +:+ String ch "") false
      else if negb last_was_separator && negb (bool_decide (output = "")) then
        normalize_loop rest (output +:+ ".") true
      else normalize_loop rest output last_was_separator
  end.

Definition normalize_policy_id_part (input : string) : string :=
  let output := trim_end dot (normalize_loop input "" false) in
  if bool_decide (output = "") then "unnamed" else output.

Definition stable_policy_id (collection prefix ctx : string) (name : option string) : string :=
  let collection := normalize_policy_id_part collection in
  let ctx := normalize_policy_id_part ctx in
  match name with
  | Some name =>
      if bool_decide (name = "") then prefix +:+ ":" +:+ collection +:+ ":" +:+ ctx
      else prefix +:+ ":" +:+ collection +:+ ":" +:+ ctx +:+ ":" +:+ normalize_policy_id_part name
  | None => prefix +:+ ":" +:+ collection +:+ ":" +:+ ctx
  end.
End Plans.

(** ** Orders and deduplication of the reports *)

(** The derived order of [PolicyOperation] and of [LinkDirection]. *)
Definition operation_rank (op : PolicyOperation) : Z :=
  match op with
  | OpRead => 0 | OpCreate => 1 | OpUpdate => 2 | OpDelete => 3 | OpWrite => 4 | OpAdmin => 5
  end.
Definition operation_compare (a b : PolicyOperation) : comparison :=
  Z.compare (operation_rank a) (operation_rank b).

Definition direction_compare (a b : LinkDirection) : comparison :=
  match a, b with
  | Incoming, Outgoing => Lt
  | Outgoing, Incoming => Gt
  | _, _ => Eq
  end.

Definition link_index_compare (a b : RequiredLinkIndex) : comparison :=
  then_cmp (String.compare (li_name a) (li_name b))
    (then_cmp (String.compare (li_source_collection a) (li_source_collection b))
      (then_cmp (String.compare (li_link_type a) (li_link_type b))
        (then_cmp (String.compare (li_target_collection a) (li_target_collection b))
          (direction_compare (li_direction a) (li_direction b))))).

Definition bool_compare (a b : bool) : comparison :=
  match a, b with false, true => Lt | true, false => Gt | _, _ => Eq end.

Definition nullable_field_compare (a b : PolicyNullableField) : comparison :=
  then_cmp (String.compare (nf_collection a) (nf_collection b))
    (then_cmp (String.compare (nf_field a) (nf_field b))
      (bool_compare (nf_required_by_schema a) (nf_required_by_schema b))).

Definition denied_write_compare (a b : PolicyDeniedWriteField) : comparison :=
  then_cmp (String.compare (dw_collection a) (dw_collection b))
    (String.compare (dw_field a) (dw_field b)).

Definition envelope_summary_compare (a b : PolicyEnvelopeSummary) : comparison :=
  then_cmp (String.compare (es_collection a) (es_collection b))
    (then_cmp (operation_compare (es_operation a) (es_operation b))
      (String.compare (es_envelope_id a) (es_envelope_id b))).

Definition explain_compare (a b : PolicyExplainEntry) : comparison :=
  then_cmp (String.compare (ex_collection a) (ex_collection b))
    (String.compare (ex_rule_id a) (ex_rule_id b)).

(** [Vec::dedup]: drops an element equal to the one kept before it. *)
Fixpoint dedup {A} `{EqDecision A} (l : list A) : list A :=
  match l with
  | [] => []
  | a :: l' =>
      match dedup l' with
      | [] => [a]
      | (b :: _) as t => if decide (a = b) then t else a :: t
      end
  end.

Definition sort_policy_compile_report (r : PolicyCompileReport) : PolicyCompileReport := {|
  rep_errors := rep_errors r;
  rep_warnings := rep_warnings r;
  rep_required_link_indexes := dedup (sort_by link_index_compare (rep_required_link_indexes r));
  rep_nullable_fields := dedup (sort_by nullable_field_compare (rep_nullable_fields r));
  rep_denied_write_fields := dedup (sort_by denied_write_compare (rep_denied_write_fields r));
  rep_envelope_summaries := dedup (sort_by envelope_summary_compare (rep_envelope_summaries r))
|}.
