(* ===== verification/PolicyCycles.v ===== *)
(** * Cycles between relationship policies ([crates/axon-schema/src/policy.rs])

    A relationship predicate with a [target_policy] makes the decision of one
    collection depend on a policy of another.  [detect_relationship_policy_cycles]
    collects these dependencies as a graph over (collection, operation) nodes and
    searches it depth first; it is proved to reject exactly the cyclic graphs and
    to terminate. *)

From S2P Require Import Prelude Json Ids Types Schema PolicyPlan.
Local Open Scope axon_scope.

Record PolicyNode : Type := {
  pn_collection : string;
  pn_operation : PolicyOperation
}.

#[export] Instance PolicyNode_eq_dec : EqDecision PolicyNode.
Proof. solve_decision. Defined.

#[export] Instance PolicyNode_countable : Countable PolicyNode.
Proof.
  apply (inj_countable (fun n => (pn_collection n, pn_operation n))
    (fun p => Some {| pn_collection := fst p; pn_operation := snd p |})).
  by intros [].
Defined.

(** The derived order. *)
Definition node_compare (a b : PolicyNode) : comparison :=
  then_cmp (String.compare (pn_collection a) (pn_collection b))
    (operation_compare (pn_operation a) (pn_operation b)).

Definition policy_node_label (node : PolicyNode) : string :=
  pn_collection node +:+ "." +:+ policy_operation_as_str (pn_operation node).

Abbreviation Adjacency := (gmap PolicyNode (list PolicyNode)).

(** [adjacency.entry(from).or_default().push(to)] *)
Definition push_edge (from to : PolicyNode) (adjacency : Adjacency) : Adjacency :=
  <[from := default [] (adjacency !! from) ++ [to]]> adjacency.

(** [[..].join(sep)] with a separator of any length. *)
Fixpoint join_str (sep : string) (l : list string) : string :=
  match l with
  | [] => ""
  | [p] => p
  | p :: ps => p +:+ sep +:+ join_str sep ps
  end.

Section Edges.
Context `{SerdeNumber}.

(** ** Collecting the edges *)

Fixpoint collect_relationship_policy_edges_from_predicate (from : PolicyNode)
    (predicate : CompiledPredicate) (adjacency : Adjacency) : Adjacency :=
  match predicate with
  | CpAll predicates | CpAny predicates =>
      fold_left (fun adj p => collect_relationship_policy_edges_from_predicate from p adj)
        predicates adjacency
  | CpNot p => collect_relationship_policy_edges_from_predicate from p adjacency
  | CpRelated related =>
      match cr_target_policy related with
      | Some target_policy =>
          push_edge from {| pn_collection := cr_target_collection related;
                            pn_operation := target_policy |} adjacency
      | None => adjacency
      end
  | CpCompare _ | CpOperation _ | CpSharesRelation _ => adjacency
  end.

Definition collect_relationship_policy_edges_from_optional_predicate (from : PolicyNode)
    (predicate : option CompiledPredicate) (adjacency : Adjacency) : Adjacency :=
  match predicate with
  | Some p => collect_relationship_policy_edges_from_predicate from p adjacency
  | None => adjacency
  end.

Definition collect_relationship_policy_edges_from_operation (from : PolicyNode)
    (policy : CompiledOperationPolicy) (adjacency : Adjacency) : Adjacency :=
  fold_left (fun adj rule =>
    collect_relationship_policy_edges_from_optional_predicate from (rl_where rule)
      (collect_relationship_policy_edges_from_optional_predicate from (rl_when rule) adj))
    (cp_allow policy ++ cp_deny policy) adjacency.

Definition collect_relationship_policy_edges_from_field_access (from : PolicyNode)
    (policy : CompiledFieldAccessPolicy) (adjacency : Adjacency) : Adjacency :=
  fold_left (fun adj rule =>
    collect_relationship_policy_edges_from_optional_predicate from (fl_where rule)
      (collect_relationship_policy_edges_from_optional_predicate from (fl_when rule) adj))
    (cf_allow policy ++ cf_deny policy) adjacency.

Definition collect_relationship_policy_edges (collection : string) (plan : PolicyPlan)
    (adjacency : Adjacency) : Adjacency :=
  let node op := {| pn_collection := collection; pn_operation := op |} in
  let adjacency := fold_left (fun adj e =>
    collect_relationship_policy_edges_from_operation (node (fst e)) (snd e) adj)
    (map_to_list (pp_operations plan)) adjacency in
  let adjacency := fold_left (fun adj e =>
    let adj := match cf_read (snd e) with
               | Some read => collect_relationship_policy_edges_from_field_access (node OpRead) read adj
               | None => adj
               end in
    match cf_write (snd e) with
    | Some write => collect_relationship_policy_edges_from_field_access (node OpWrite) write adj
    | None => adj
    end) (map_to_list (pp_fields plan)) adjacency in
  let adjacency := fold_left (fun adj e =>
    fold_left (fun adj t =>
      collect_relationship_policy_edges_from_operation (node OpUpdate) (snd t) adj)
      (map_to_list (snd e)) adj)
    (map_to_list (pp_transitions plan)) adjacency in
  fold_left (fun adj e =>
    fold_left (fun adj envelope =>
      collect_relationship_policy_edges_from_optional_predicate (node (fst e)) (ev_when envelope) adj)
      (snd e) adj)
    (map_to_list (pp_envelopes plan)) adjacency.
End Edges.

(** ** The search *)

(** [stack.iter().position(|entry| entry == node)] *)
Fixpoint position_of (node : PolicyNode) (stack : list PolicyNode) : option nat :=
  match stack with
  | [] => None
  | entry :: stack' =>
      if decide (entry = node) then Some 0%nat else option_map S (position_of node stack')
  end.

(** The loop over the targets of [node], which is finished after the last. *)
Fixpoint visit_targets
    (visit : PolicyNode -> gset PolicyNode -> option (gset PolicyNode * option (list PolicyNode)))
    (node : PolicyNode) (targets : list PolicyNode) (permanent : gset PolicyNode)
    : option (gset PolicyNode * option (list PolicyNode)) :=
  match targets with
  | [] => Some ({[node]} ∪ permanent, None)
  | target :: rest =>
      match visit target permanent with
      | None => None
      | Some (permanent', Some cycle) => Some (permanent', Some cycle)
      | Some (permanent', None) => visit_targets visit node rest permanent'
      end
  end.

(** The recursion; [fuel] bounds its depth and [None] says that it ran out.
    The set of finished nodes is threaded through; the stack is popped before
    every return without a cycle, so that it is passed down only. *)
Fixpoint relationship_policy_cycle_from (fuel : nat) (node : PolicyNode) (adjacency : Adjacency)
    (permanent : gset PolicyNode) (stack : list PolicyNode)
    : option (gset PolicyNode * option (list PolicyNode)) :=
  if decide (node ∈ permanent) then Some (permanent, None)
  else
    match position_of node stack with
    | Some position => Some (permanent, Some (drop position stack ++ [node]))
    | None =>
        match fuel with
        | O => None
        | S fuel' =>
            visit_targets
              (fun target permanent =>
                 relationship_policy_cycle_from fuel' target adjacency permanent (stack ++ [node]))
              node (default [] (adjacency !! node)) permanent
        end
    end.

(** The loop over the nodes. *)
Fixpoint search_nodes (fuel : nat) (nodes : list PolicyNode) (adjacency : Adjacency)
    (permanent : gset PolicyNode) : option (option (list PolicyNode)) :=
  match nodes with
  | [] => Some None
  | node :: rest =>
      match relationship_policy_cycle_from fuel node adjacency permanent [] with
      | None => None
      | Some (_, Some cycle) => Some (Some cycle)
      | Some (permanent', None) => search_nodes fuel rest adjacency permanent'
      end
  end.

(** [targets.sort(); targets.dedup()] of every entry *)
Definition sort_targets (adjacency : Adjacency) : Adjacency :=
  fmap (fun targets => dedup (sort_by node_compare targets)) adjacency.

(** The nodes of the graph: a path without repetition is no longer than this. *)
Definition graph_nodes (adjacency : Adjacency) : gset PolicyNode :=
  dom adjacency ∪ list_to_set (concat (map snd (map_to_list adjacency))).

Definition cycle_error (cycle : list PolicyNode) : PolicyCompileError :=
  with_error_collection (match cycle with node :: _ => pn_collection node | [] => "" end)
    (compile_error_new ("relationship target_policy cycle detected: " +:+
                        join_str " -> " (map policy_node_label cycle))).

Definition detect_cycles (adjacency : Adjacency) : result unit PolicyCompileError :=
  let adjacency := sort_targets adjacency in
  let nodes := dedup (sort_by node_compare (elements (dom adjacency))) in
  match search_nodes (size (graph_nodes adjacency)) nodes adjacency ∅ with
  | Some (Some cycle) => Err (cycle_error cycle)
  | Some None => Ok tt
  | None => Panic
  end.

Definition detect_relationship_policy_cycles `{SerdeNumber} (plans : gmap string PolicyPlan)
    : result unit PolicyCompileError :=
  detect_cycles (fold_left (fun adj e => collect_relationship_policy_edges (fst e) (snd e) adj)
                   (map_to_list plans) ∅).

(** Consecutive entries are related. *)
Fixpoint is_path (R : PolicyNode -> PolicyNode -> Prop) (l : list PolicyNode) : Prop :=
  match l with
  | a :: ((b :: _) as t) => R a b /\ is_path R t
  | _ => True
  end.

(** A closed walk: it starts and ends at the same node. *)
Definition is_cycle (R : PolicyNode -> PolicyNode -> Prop) (l : list PolicyNode) : Prop :=
  exists n mid, l = (n :: mid) ++ [n] /\ is_path R l.

Section Paths.
Variable R : PolicyNode -> PolicyNode -> Prop.

Lemma is_path_app l a b : is_path R (l ++ [a]) -> R a b -> is_path R ((l ++ [a]) ++ [b]).
Proof.
  induction l as [|x l IH]; simpl; [by intros|]. destruct l as [|y l]; simpl in *; intros Hp Hb.
  - by destruct Hp.
  - destruct Hp as [Hx Hp]. split; [done|]. by apply IH.
Qed.

Lemma is_path_drop n l : is_path R l -> is_path R (drop n l).
Proof.
  revert n. induction l as [|a l IH]; intros [|n] Hp; simpl; auto.
  apply IH. destruct l; [done|]. by destruct Hp.
Qed.

Lemma is_path_tc a l b : is_path R ((a :: l) ++ [b]) -> tc R a b.
Proof.
  revert a. induction l as [|x l IH]; intros a; simpl; intros [Hab Hp].
  - by apply tc_once.
  - eapply tc_l; [exact Hab|]. by apply IH.
Qed.

Lemma is_cycle_tc l : is_cycle R l -> exists n, tc R n n.
Proof. intros (n & mid & -> & Hp). exists n. by eapply is_path_tc. Qed.
End Paths.

Lemma is_path_impl (R R' : PolicyNode -> PolicyNode -> Prop) l :
  (forall a b, R a b -> R' a b) -> is_path R l -> is_path R' l.
Proof.
  intros HR. induction l as [|a l IH]; [done|]. destruct l as [|b l]; [done|].
  intros [Hab Hp]. split; [by apply HR | by apply IH].
Qed.

Lemma tc_impl (R R' : PolicyNode -> PolicyNode -> Prop) a b :
  (forall a b, R a b -> R' a b) -> tc R a b -> tc R' a b.
Proof.
  intros HR. induction 1 as [x y Hxy|x y z Hxy _ IH]; [apply tc_once|eapply tc_l; [|exact IH]]; by apply HR.
Qed.

(** ** The search finds exactly the cycles *)

Definition edge (adj : Adjacency) (a b : PolicyNode) : Prop :=
  exists targets, adj !! a = Some targets /\ b ∈ targets.

Section Search.
Variable adj : Adjacency.

Definition closed (P : gset PolicyNode) : Prop := forall a b, a ∈ P -> edge adj a b -> b ∈ P.
Definition no_cycle_in (P : gset PolicyNode) : Prop := forall a, a ∈ P -> ~ tc (edge adj) a a.

Lemma position_of_spec node stack :
  match position_of node stack with
  | Some i => exists rest, drop i stack = node :: rest
  | None => node ∉ stack
  end.
Proof.
  induction stack as [|a l IH]; simpl; [apply not_elem_of_nil|].
  case_decide as Ha; [by exists l; subst|].
  destruct (position_of node l); simpl; [exact IH|]. by rewrite not_elem_of_cons.
Qed.

Lemma closed_tc P a b : closed P -> a ∈ P -> tc (edge adj) a b -> b ∈ P.
Proof. intros HP Ha Hab. induction Hab; eauto. Qed.

(** Adding a node all of whose successors are done. *)
Lemma finish_node P node :
  closed P -> no_cycle_in P -> node ∉ P -> (forall b, edge adj node b -> b ∈ P) ->
  closed ({[node]} ∪ P) /\ no_cycle_in ({[node]} ∪ P).
Proof.
  intros HP Hc Hn Hs. split.
  - intros a b [->%elem_of_singleton|Ha]%elem_of_union Hab; apply elem_of_union; right; eauto.
  - intros a [->%elem_of_singleton|Ha]%elem_of_union Haa; [|by eapply Hc].
    apply Hn. inversion Haa as [? ? He|? ? ? He Ht]; subst; [by apply Hs|].
    eapply closed_tc; [exact HP| |exact Ht]. by apply Hs.
Qed.

Variable nodes : gset PolicyNode.
Hypothesis nodes_targets : forall a b, edge adj a b -> b ∈ nodes.

(** What one call promises. *)
Definition call_spec (P : gset PolicyNode) (node : PolicyNode) (stack : list PolicyNode)
    (out : option (gset PolicyNode * option (list PolicyNode))) : Prop :=
  match out with
  | None => False
  | Some (_, Some cycle) => is_cycle (edge adj) cycle
  | Some (P', None) =>
      P ⊆ P' /\ node ∈ P' /\ closed P' /\ no_cycle_in P' /\ (forall a, a ∈ stack -> a ∉ P')
  end.

Lemma visit_targets_spec visit P node stack targets Q :
  (forall t Q', t ∈ targets -> closed Q' -> no_cycle_in Q' -> (forall a, a ∈ stack ++ [node] -> a ∉ Q') ->
     call_spec Q' t (stack ++ [node]) (visit t Q')) ->
  P ⊆ Q -> closed Q -> no_cycle_in Q -> (forall a, a ∈ stack ++ [node] -> a ∉ Q) -> node ∉ stack ->
  (forall b, edge adj node b -> b ∈ Q \/ b ∈ targets) ->
  call_spec P node stack (visit_targets visit node targets Q).
Proof.
  revert Q. induction targets as [|t ts IHt]; intros Q Hvisit HPQ HQ HcQ HdQ Hn Hcov; simpl.
  - destruct (finish_node Q node) as [H1 H2]; [done..| | |].
    { apply HdQ. apply elem_of_app. right. by apply list_elem_of_singleton. }
    { intros b Hb. destruct (Hcov b Hb) as [|Hnil]; [done|]. by apply not_elem_of_nil in Hnil. }
    split; [set_solver|]. split; [set_solver|]. split; [exact H1|]. split; [exact H2|].
    intros a Ha [->%elem_of_singleton|Ha']%elem_of_union; [done|].
    eapply HdQ; [|exact Ha']. apply elem_of_app. by left.
  - pose proof (Hvisit t Q ltac:(apply elem_of_cons; by left) HQ HcQ HdQ) as Hcall.
    destruct (visit t Q) as [[Q' [c|]]|]; simpl in Hcall; [exact Hcall| |done].
    destruct Hcall as (HQQ' & HtQ' & HQ' & HcQ' & HdQ').
    apply IHt; auto.
    + intros t' Q2 Ht'. apply Hvisit, elem_of_cons. by right.
    + set_solver.
    + intros b Hb. destruct (Hcov b Hb) as [|[->|]%elem_of_cons]; [left; set_solver | by left | by right].
Qed.

(** A node met again on the stack closes a cycle. *)
Lemma stack_cycle node stack i rest :
  is_path (edge adj) (stack ++ [node]) -> drop i stack = node :: rest -> is_cycle (edge adj) (drop i stack ++ [node]).
Proof.
  intros Hpath Hrest. exists node, rest. split; [by rewrite Hrest|].
  pose proof (is_path_drop _ i _ Hpath) as Hd.
  destruct (decide (i <= length stack)%nat); [by rewrite drop_app_le in Hd|].
  by rewrite drop_ge in Hrest by lia.
Qed.

Lemma cycle_from_spec fuel node P stack :
  node ∈ nodes -> (forall a, a ∈ stack -> a ∈ nodes) -> base.NoDup stack ->
  (size nodes <= fuel + length stack)%nat ->
  closed P -> no_cycle_in P -> (forall a, a ∈ stack -> a ∉ P) -> is_path (edge adj) (stack ++ [node]) ->
  call_spec P node stack (relationship_policy_cycle_from fuel node adj P stack).
Proof.
  revert node P stack.
  induction fuel as [|fuel IH]; intros node P stack Hn Hst Hnd Hfuel HP Hc Hdis Hpath.
  all: simpl; destruct (decide (node ∈ P)) as [Hin|Hin]; [by repeat split|].
  all: pose proof (position_of_spec node stack) as Hpos; destruct (position_of node stack) as [i|].
  1,3: destruct Hpos as [rest Hrest]; by eapply stack_cycle.
  - assert (Hsub : list_to_set (node :: stack) ⊆ nodes).
    { intros a [->|Ha]%elem_of_list_to_set%elem_of_cons; auto. }
    apply subseteq_size in Hsub. rewrite size_list_to_set in Hsub; [simpl in Hsub; lia|].
    by apply list.NoDup_cons.
  - apply visit_targets_spec; auto.
    + intros t Q' Ht HQ' HcQ' HdQ'. assert (He : edge adj node t).
      { destruct (adj !! node) as [ts|] eqn:E; [by exists ts|]. by apply not_elem_of_nil in Ht. }
      apply IH; [by eapply nodes_targets| | | |done..|].
      * intros a [Ha| ->%list_elem_of_singleton]%elem_of_app; auto.
      * apply list.NoDup_app. split; [done|]. split; [|apply list.NoDup_singleton].
        intros a Ha ->%list_elem_of_singleton. done.
      * rewrite length_app. simpl. lia.
      * by apply is_path_app.
    + intros a [Ha| ->%list_elem_of_singleton]%elem_of_app; auto.
    + intros b (ts & E & Hb). right. by rewrite E.
Qed.

Lemma search_nodes_spec fuel l P :
  (forall a, a ∈ l -> a ∈ nodes) -> (size nodes <= fuel)%nat -> closed P -> no_cycle_in P ->
  match search_nodes fuel l adj P with
  | None => False
  | Some (Some cycle) => is_cycle (edge adj) cycle
  | Some None => exists P', P ⊆ P' /\ (forall a, a ∈ l -> a ∈ P') /\ no_cycle_in P'
  end.
Proof.
  revert P. induction l as [|a l IH]; intros P Hl Hfuel HP Hc; simpl.
  { exists P. split; [done|]. split; [|done]. intros a Ha. by apply not_elem_of_nil in Ha. }
  pose proof (cycle_from_spec fuel a P []) as Hcall. simpl in Hcall.
  specialize (Hcall (Hl a ltac:(apply elem_of_cons; by left)) ltac:(intros ? Hnil; by apply not_elem_of_nil in Hnil)
    ltac:(constructor) ltac:(lia) HP Hc ltac:(intros ? Hnil; by apply not_elem_of_nil in Hnil) I).
  destruct (relationship_policy_cycle_from fuel a adj P []) as [[P1 [c|]]|]; simpl in Hcall; [done| |done].
  destruct Hcall as (HPP1 & Ha & HP1 & Hc1 & _).
  specialize (IH P1 ltac:(intros b Hb; apply Hl, elem_of_cons; by right) Hfuel HP1 Hc1).
  destruct (search_nodes fuel l adj P1) as [[c|]|]; [done| |done].
  destruct IH as (P2 & HP2 & Hl2 & Hc2). exists P2. split; [set_solver|]. split; [|done].
  intros b [->|Hb]%elem_of_cons; auto.
Qed.
End Search.

(** ** Sorting keeps the graph *)

Lemma dedup_elem {A} `{EqDecision A} (l : list A) x : x ∈ dedup l <-> x ∈ l.
Proof.
  induction l as [|a l IH]; simpl; [done|].
  destruct (dedup l) as [|b t] eqn:E.
  - rewrite !elem_of_cons, <-IH. done.
  - rewrite (elem_of_cons l), <-IH. case_decide as Hab; rewrite !elem_of_cons; [subst|]; tauto.
Qed.

Lemma sort_by_elem {A} (cmp : A -> A -> comparison) (l : list A) x : x ∈ sort_by cmp l <-> x ∈ l.
Proof.
  assert (Hins : forall b l, x ∈ insert_by cmp b l <-> x = b \/ x ∈ l).
  { intros b l'. induction l' as [|c l' IH]; simpl; [by rewrite elem_of_cons|].
    destruct (cmp b c); rewrite !elem_of_cons; [done..|]. rewrite IH. tauto. }
  induction l as [|a l IH]; simpl; [done|]. by rewrite Hins, IH, elem_of_cons.
Qed.

Lemma edge_sorted adj a b : edge (sort_targets adj) a b <-> edge adj a b.
Proof.
  unfold edge, sort_targets. split; intros (ts & E & Hb).
  - rewrite lookup_fmap in E. apply fmap_Some in E as (ts' & E & ->).
    exists ts'. split; [done|]. by rewrite dedup_elem, sort_by_elem in Hb.
  - exists (dedup (sort_by node_compare ts)). rewrite lookup_fmap, E. split; [done|].
    by rewrite dedup_elem, sort_by_elem.
Qed.

Lemma edge_target_node adj a b : edge adj a b -> b ∈ graph_nodes adj.
Proof.
  intros (ts & E & Hb). apply elem_of_union. right. apply elem_of_list_to_set.
  apply list_elem_of_In, in_concat. exists ts. split; [|by apply list_elem_of_In].
  apply in_map_iff. exists (a, ts). split; [done|]. by apply list_elem_of_In, elem_of_map_to_list.
Qed.

Lemma detect_cycles_spec adj :
  (detect_cycles adj = Ok tt /\ forall n, ~ tc (edge adj) n n) \/
  (exists cycle, detect_cycles adj = Err (cycle_error cycle) /\ is_cycle (edge adj) cycle).
Proof.
  unfold detect_cycles. set (g := sort_targets adj).
  pose proof (search_nodes_spec g (graph_nodes g) (edge_target_node g) (size (graph_nodes g))
    (dedup (sort_by node_compare (elements (dom g)))) ∅) as Hs.
  assert (Hn : forall a, a ∈ dedup (sort_by node_compare (elements (dom g))) <-> a ∈ dom g).
  { intros a. by rewrite dedup_elem, sort_by_elem, elem_of_elements. }
  specialize (Hs ltac:(intros a Ha%Hn; unfold graph_nodes; set_solver) ltac:(lia)
    ltac:(intros a b Ha; set_solver) ltac:(intros a Ha; set_solver)).
  destruct (search_nodes _ _ _ _) as [[c|]|]; [right|left|done].
  { exists c. split; [done|]. destruct Hs as (n & mid & -> & Hp). exists n, mid. split; [done|].
    eapply is_path_impl; [|exact Hp]. apply edge_sorted. }
  split; [done|]. intros n Hcyc. destruct Hs as (P & _ & HP & Hc).
  apply (tc_impl _ (edge g)) in Hcyc; [|intros a b; apply edge_sorted].
  apply (Hc n); [|done]. apply HP, Hn, elem_of_dom.
  inversion Hcyc as [? ? (ts & E & _)|? ? ? (ts & E & _)]; by exists ts.
Qed.

(** ** The edges are the dependencies of the plans *)

Section Dependencies.
Context `{SerdeNumber}.

(** The policies a predicate consults on other collections. *)
Fixpoint predicate_targets (p : CompiledPredicate) : list PolicyNode :=
  match p with
  | CpAll l | CpAny l => flat_map predicate_targets l
  | CpNot p => predicate_targets p
  | CpRelated r =>
      match cr_target_policy r with
      | Some op => [{| pn_collection := cr_target_collection r; pn_operation := op |}]
      | None => []
      end
  | _ => []
  end.

Definition rule_predicates (r : CompiledPolicyRule) : list CompiledPredicate :=
  option_list (rl_when r) ++ option_list (rl_where r).
Definition field_rule_predicates (r : CompiledFieldPolicyRule) : list CompiledPredicate :=
  option_list (fl_when r) ++ option_list (fl_where r).
Definition operation_predicates (p : CompiledOperationPolicy) : list CompiledPredicate :=
  flat_map rule_predicates (cp_allow p ++ cp_deny p).
Definition access_predicates (p : CompiledFieldAccessPolicy) : list CompiledPredicate :=
  flat_map field_rule_predicates (cf_allow p ++ cf_deny p).

(** Every predicate of a plan with the operation whose decision it guards. *)
Definition guarded (op : PolicyOperation) (l : list CompiledPredicate)
    : list (PolicyOperation * CompiledPredicate) := map (pair op) l.
Definition operation_guards (e : PolicyOperation * CompiledOperationPolicy) :=
  guarded (fst e) (operation_predicates (snd e)).
Definition field_guards (e : string * CompiledFieldPolicy) :=
  guarded OpRead (flat_map access_predicates (option_list (cf_read (snd e))))
  ++ guarded OpWrite (flat_map access_predicates (option_list (cf_write (snd e)))).
Definition transition_guards (e : string * gmap string CompiledOperationPolicy) :=
  flat_map (fun t => guarded OpUpdate (operation_predicates (snd t))) (map_to_list (snd e)).
Definition envelope_guards (e : PolicyOperation * list CompiledPolicyEnvelope) :=
  flat_map (fun v => guarded (fst e) (option_list (ev_when v))) (snd e).

Definition plan_predicates (plan : PolicyPlan) : list (PolicyOperation * CompiledPredicate) :=
  flat_map operation_guards (map_to_list (pp_operations plan))
  ++ flat_map field_guards (map_to_list (pp_fields plan))
  ++ flat_map transition_guards (map_to_list (pp_transitions plan))
  ++ flat_map envelope_guards (map_to_list (pp_envelopes plan)).

(** Deciding [a] consults the policy [b]. *)
Definition depends (plans : gmap string PolicyPlan) (a b : PolicyNode) : Prop :=
  exists plan p, plans !! pn_collection a = Some plan /\
    (pn_operation a, p) ∈ plan_predicates plan /\ b ∈ predicate_targets p.

Definition push_all (edges : list (PolicyNode * PolicyNode)) (adj : Adjacency) : Adjacency :=
  fold_left (fun adj e => push_edge (fst e) (snd e) adj) edges adj.

Lemma push_all_app l k adj : push_all (l ++ k) adj = push_all k (push_all l adj).
Proof. apply fold_left_app. Qed.

Lemma fold_push_all {A} (g : A -> list (PolicyNode * PolicyNode)) step (l : list A) adj :
  (forall a adj, In a l -> step adj a = push_all (g a) adj) ->
  fold_left step l adj = push_all (flat_map g l) adj.
Proof.
  revert adj. induction l as [|a l IH]; intros adj Hs; simpl; [done|].
  rewrite push_all_app, Hs by by left. apply IH. intros b adj' Hb. apply Hs. by right.
Qed.

Lemma push_all_edge l adj a b : edge (push_all l adj) a b <-> (a, b) ∈ l \/ edge adj a b.
Proof.
  revert adj. induction l as [|[x y] l IH]; intros adj; simpl.
  { split; [by right|]. intros [Hnil|]; [|done]. by apply not_elem_of_nil in Hnil. }
  rewrite IH, elem_of_cons. assert (Hp : edge (push_edge x y adj) a b <-> (a, b) = (x, y) \/ edge adj a b);
    [|rewrite Hp; tauto].
  unfold edge, push_edge. destruct (decide (x = a)) as [->|Hne].
  - rewrite lookup_insert_eq. split.
    + intros (ts & [= <-] & [Hb|Hb%list_elem_of_singleton]%elem_of_app); [right|left; by subst].
      destruct (adj !! a) as [ts|]; [by exists ts|]. by apply not_elem_of_nil in Hb.
    + intros Hor. eexists. split; [done|]. apply elem_of_app.
      destruct Hor as [[= ->]|(ts & -> & Hb)]; [right; by apply list_elem_of_singleton | by left].
  - rewrite lookup_insert_ne by done. split; [by right|]. intros [[= -> ->]|]; done.
Qed.

Lemma collect_predicate_edges from p adj :
  collect_relationship_policy_edges_from_predicate from p adj =
  push_all (map (pair from) (predicate_targets p)) adj.
Proof.
  revert adj. induction p as [l IH|l IH|p IH|c|op|r|s] using compiled_predicate_ind; intros adj; simpl;
    try done; [| | destruct (cr_target_policy r); done].
  all: rewrite flat_map_concat_map, concat_map, map_map, <-flat_map_concat_map.
  all: apply fold_push_all; intros q adj' Hq; by apply (proj1 (List.Forall_forall _ _) IH).
Qed.

Definition from_edges (from : PolicyNode) (l : list CompiledPredicate)
    : list (PolicyNode * PolicyNode) :=
  flat_map (fun p => map (pair from) (predicate_targets p)) l.

Lemma from_edges_app from l k : from_edges from (l ++ k) = from_edges from l ++ from_edges from k.
Proof. apply flat_map_app. Qed.

Lemma collect_optional_edges from o adj :
  collect_relationship_policy_edges_from_optional_predicate from o adj =
  push_all (from_edges from (option_list o)) adj.
Proof.
  destruct o as [p|]; simpl; [|done]. unfold from_edges. simpl.
  rewrite app_nil_r. apply collect_predicate_edges.
Qed.

Lemma flat_map_flat_map {A B C} (g : B -> list C) (f : A -> list B) l :
  flat_map g (flat_map f l) = flat_map (fun a => flat_map g (f a)) l.
Proof. induction l as [|a l IH]; simpl; [done|]. by rewrite flat_map_app, IH. Qed.

Lemma collect_operation_edges from p adj :
  collect_relationship_policy_edges_from_operation from p adj =
  push_all (from_edges from (operation_predicates p)) adj.
Proof.
  unfold from_edges, operation_predicates. rewrite flat_map_flat_map. apply fold_push_all.
  intros r adj' _. rewrite !collect_optional_edges, <-push_all_app, <-from_edges_app. done.
Qed.

Lemma collect_access_edges from p adj :
  collect_relationship_policy_edges_from_field_access from p adj =
  push_all (from_edges from (access_predicates p)) adj.
Proof.
  unfold from_edges, access_predicates. rewrite flat_map_flat_map. apply fold_push_all.
  intros r adj' _. rewrite !collect_optional_edges, <-push_all_app, <-from_edges_app. done.
Qed.

Definition node_edges (c : string) (e : PolicyOperation * CompiledPredicate)
    : list (PolicyNode * PolicyNode) :=
  from_edges {| pn_collection := c; pn_operation := fst e |} [snd e].

Lemma node_edges_pair c op l :
  flat_map (node_edges c) (map (pair op) l) =
  from_edges {| pn_collection := c; pn_operation := op |} l.
Proof.
  induction l as [|p l IH]; simpl; [done|]. rewrite IH. unfold node_edges, from_edges. simpl.
  by rewrite app_nil_r.
Qed.

Lemma collect_optional_access_edges from o adj :
  match o with
  | Some p => collect_relationship_policy_edges_from_field_access from p adj
  | None => adj
  end = push_all (from_edges from (flat_map access_predicates (option_list o))) adj.
Proof. destruct o as [p|]; simpl; [|done]. by rewrite app_nil_r, collect_access_edges. Qed.

Lemma collect_plan_edges c plan adj :
  collect_relationship_policy_edges c plan adj =
  push_all (flat_map (node_edges c) (plan_predicates plan)) adj.
Proof.
  unfold collect_relationship_policy_edges, plan_predicates.
  rewrite !flat_map_app, !push_all_app, !flat_map_flat_map.
  rewrite (fold_push_all (fun e => flat_map (node_edges c) (envelope_guards e))).
  2: { intros [op vs] adj' _. unfold envelope_guards. rewrite flat_map_flat_map. apply fold_push_all.
       intros v adj2 _. by rewrite collect_optional_edges, <-node_edges_pair. }
  rewrite (fold_push_all (fun e => flat_map (node_edges c) (transition_guards e))).
  2: { intros [f ts] adj' _. unfold transition_guards. rewrite flat_map_flat_map. apply fold_push_all.
       intros tr adj2 _. by rewrite collect_operation_edges, <-node_edges_pair. }
  rewrite (fold_push_all (fun e => flat_map (node_edges c) (field_guards e))).
  2: { intros [f fp] adj' _. rewrite !collect_optional_access_edges, <-push_all_app.
       by rewrite <-!node_edges_pair, <-flat_map_app. }
  do 3 f_equal. apply fold_push_all.
  intros [op pol] adj' _. by rewrite collect_operation_edges, <-node_edges_pair.
Qed.

Lemma plans_edge plans a b :
  edge (fold_left (fun adj e => collect_relationship_policy_edges (fst e) (snd e) adj)
          (map_to_list plans) ∅) a b <-> depends plans a b.
Proof.
  erewrite fold_push_all by (intros; apply collect_plan_edges).
  rewrite push_all_edge. unfold depends. split.
  - intros [Hin|(ts & E & _)]; [|by rewrite lookup_empty in E].
    apply list_elem_of_In, in_flat_map in Hin as ([c plan] & Hc%list_elem_of_In%elem_of_map_to_list & Hin).
    apply in_flat_map in Hin as ([op p] & Hp & Hin).
    apply in_flat_map in Hin as (p' & [<-|[]] & Hin).
    apply in_map_iff in Hin as (b' & [= <- <-] & Hb). exists plan, p. simpl.
    repeat split; [done| |]; by apply list_elem_of_In.
  - intros (plan & p & Hc & Hp & Hb). left. apply list_elem_of_In, in_flat_map.
    exists (pn_collection a, plan). split; [by apply list_elem_of_In, elem_of_map_to_list|].
    apply in_flat_map. exists (pn_operation a, p). split; [by apply list_elem_of_In|].
    apply in_flat_map. exists p. split; [by left|]. apply in_map_iff. exists b.
    split; [by destruct a | by apply list_elem_of_In].
Qed.

Lemma detect_spec plans :
  (detect_relationship_policy_cycles plans = Ok tt /\ forall n, ~ tc (depends plans) n n) \/
  (exists cycle, detect_relationship_policy_cycles plans = Err (cycle_error cycle) /\
     is_cycle (depends plans) cycle /\ exists n, tc (depends plans) n n).
Proof.
  unfold detect_relationship_policy_cycles.
  destruct (detect_cycles_spec (fold_left (fun adj e =>
    collect_relationship_policy_edges (fst e) (snd e) adj) (map_to_list plans) ∅))
    as [[E Hn]|(c & E & Hc)]; rewrite E; [left|right].
  - split; [done|]. intros n Ht. apply (Hn n). eapply tc_impl; [|exact Ht]. intros a b. apply plans_edge.
  - exists c. split; [done|]. assert (Hc' : is_cycle (depends plans) c).
    { destruct Hc as (n & mid & -> & Hp). exists n, mid. split; [done|].
      eapply is_path_impl; [|exact Hp]. intros a b. apply plans_edge. }
    split; [done|]. by apply is_cycle_tc in Hc'.
Qed.
(** C18. Cycle detection over compiled policies is exact and always answers: it
    accepts a catalog exactly when no policy depends on itself through
    [target_policy] references of any length, and the cycle named in a
    rejection is a closed walk of real dependencies. *)
Theorem cycle_detection_exact plans :
  (detect_relationship_policy_cycles plans = Ok tt /\ forall n, ~ tc (depends plans) n n) \/
  (exists cycle, detect_relationship_policy_cycles plans = Err (cycle_error cycle) /\
     is_cycle (depends plans) cycle /\ exists n, tc (depends plans) n n).
Proof. apply detect_spec. Qed.
End Dependencies.
