(* ===== verification/PolicyCompile.v ===== *)
(** * The access-policy compiler ([crates/axon-schema/src/policy.rs])

    [PolicyCompiler] checks every field path, subject reference and link of an
    authored policy against the schemas and turns it into a [PolicyPlan] with
    its report and explanations.  A [HashMap] is iterated in the order of
    [map_to_list]: only the choice of the first error depends on it, the plan
    and the sorted reports do not.  Cycle detection over the compiled plans is
    in the file PolicyCycles. *)

From S2P Require Import Prelude Json Ids Types Schema PolicyPlan.
From S2P Require Import PolicyCycles.
From stdpp Require Import pretty.
Local Open Scope axon_scope.

(** [Result::map_err] *)
Definition map_err {A E F} (f : E -> F) (r : result A E) : result A F :=
  match r with Ok a => Ok a | Err e => Err (f e) | Panic => Panic end.

(** [iter().enumerate().map(f).collect::<Result<Vec<_>, _>>()] *)
Section Enumerate.
Context {A B E : Type} (f : nat -> A -> result B E).
Fixpoint result_map_from (i : nat) (l : list A) : result (list B) E :=
  match l with
  | [] => Ok []
  | a :: l' =>
      let? b := f i a in
      let? bs := result_map_from (S i) l' in
      Ok (b :: bs)
  end.
Definition result_mapi (l : list A) : result (list B) E := result_map_from 0 l.
End Enumerate.

(** [Option::map(f).transpose()] *)
Definition option_transpose {A B E} (f : A -> result B E) (o : option A) : result (option B) E :=
  match o with
  | None => Ok None
  | Some a => let? b := f a in Ok (Some b)
  end.

(** [for (k, v) in map { out.insert(k.clone(), f(k, v)?) }] *)
Definition result_map_values {K A B E} `{Countable K} (f : K -> A -> result B E) (m : gmap K A)
    : result (gmap K B) E :=
  let? l := result_map (fun kv => let? b := f (fst kv) (snd kv) in Ok (fst kv, b)) (map_to_list m) in
  Ok (list_to_map l).

(** [format!("{ctx}[{idx}]")] *)
Definition indexed (ctx : string) (idx : nat) : string := ctx +:+ "[" +:+ pretty idx +:+ "]".

(** [format!("{operation:?}")] *)
Definition operation_debug (op : PolicyOperation) : string :=
  match op with
  | OpRead => "Read" | OpCreate => "Create" | OpUpdate => "Update"
  | OpDelete => "Delete" | OpWrite => "Write" | OpAdmin => "Admin"
  end.

Definition builtin_subject_refs : list string :=
  ["user_id"; "agent_id"; "delegated_by"; "tenant_id"; "database_id"; "tenant_role";
   "credential_id"; "grant_version"; "grants"].

Section Compiler.
Context `{SerdeNumber}.

Definition operation_policy (policy : AccessControlPolicy) (operation : PolicyOperation)
    : option OperationPolicy :=
  match operation with
  | OpRead => ac_read policy
  | OpCreate => ac_create policy
  | OpUpdate => ac_update policy
  | OpDelete => ac_delete policy
  | OpWrite => ac_write policy
  | OpAdmin => ac_admin policy
  end.

Record PolicyCompiler : Type := {
  pk_schema : CollectionSchema;
  pk_policy : AccessControlPolicy;
  pk_schemas : gmap string CollectionSchema;
  pk_subject_refs : gset string
}.

(** [PolicyCompiler::new] *)
Definition policy_compiler_new (schema : CollectionSchema) (policy : AccessControlPolicy)
    (schemas : gmap string CollectionSchema) : PolicyCompiler := {|
  pk_schema := schema;
  pk_policy := policy;
  pk_schemas := schemas;
  pk_subject_refs :=
    list_to_set builtin_subject_refs ∪
    match ac_identity policy with
    | Some identity => dom (ai_subject identity) ∪ dom (ai_attributes identity) ∪ dom (ai_aliases identity)
    | None => ∅
    end
|}.

Section Methods.
Variable self : PolicyCompiler.

Definition err_at (ctx message : string) : PolicyCompileError :=
  with_error_collection (cs_collection (pk_schema self)) (with_path ctx (compile_error_new message)).

Definition validate_subject_ref (subject ctx : string) : result unit PolicyCompileError :=
  if bool_decide (subject ∈ pk_subject_refs self) then Ok tt
  else Err (err_at ctx ("unknown subject reference '" +:+ subject +:+ "' at " +:+ ctx)).

(** The loop over the segments; [more] says that the segment is not the last. *)
Fixpoint validate_segments (path ctx : string) (current : Value) (segments : list string)
    : result unit PolicyCompileError :=
  match segments with
  | [] => Ok tt
  | raw_segment :: rest =>
      if bool_decide (raw_segment = "") then
        Err (with_field_if_unset path
               (err_at ctx ("empty field path segment in '" +:+ path +:+ "' at " +:+ ctx)))
      else
        let segment := strip_brackets raw_segment in
        match object_property current segment with
        | None =>
            Err (with_field_if_unset path
                   (err_at ctx ("unknown field path '" +:+ path +:+ "' at " +:+ ctx +:+
                                ": missing segment '" +:+ segment +:+ "'")))
        | Some next =>
            if ends_with_brackets raw_segment then
              match array_items next with
              | None =>
                  Err (with_field_if_unset path
                         (err_at ctx ("field path '" +:+ path +:+ "' at " +:+ ctx +:+ ": segment '" +:+
                                      segment +:+ "' is not an array")))
              | Some items => validate_segments path ctx items rest
              end
            else if negb (bool_decide (rest = [])) && bool_decide (schema_type next = Some "array") then
              Err (with_field_if_unset path
                     (err_at ctx ("field path '" +:+ path +:+ "' at " +:+ ctx +:+ ": array segment '" +:+
                                  segment +:+ "' must use []")))
            else validate_segments path ctx next rest
        end
  end.

Definition validate_field_path (path ctx : string) : result unit PolicyCompileError :=
  match cs_entity_schema (pk_schema self) with
  | None =>
      Err (with_field_if_unset path
             (err_at ctx ("field path '" +:+ path +:+ "' at " +:+ ctx +:+
                          " cannot be validated without entity_schema")))
  | Some entity_schema => validate_segments path ctx entity_schema (split_on dot path)
  end.

Definition validate_target_policy (schema : CollectionSchema) (operation : PolicyOperation)
    (ctx : string) : result unit PolicyCompileError :=
  match cs_access_control schema with
  | None =>
      Err (with_error_collection (cs_collection schema) (with_path ctx (compile_error_new
        ("target_policy '" +:+ policy_operation_as_str operation +:+ "' at " +:+ ctx +:+
         " references collection '" +:+ cs_collection schema +:+ "' without access_control"))))
  | Some policy =>
      match operation_policy policy operation with
      | Some _ => Ok tt
      | None =>
          Err (with_error_collection (cs_collection schema) (with_path ctx (compile_error_new
            ("target_policy '" +:+ policy_operation_as_str operation +:+ "' at " +:+ ctx +:+
             " is not declared on collection '" +:+ cs_collection schema +:+ "'"))))
      end
  end.

Definition compile_compare_op (op : PolicyCompareOp) (ctx : string)
    : result CompiledCompareOp PolicyCompileError :=
  match op with
  | PEq v => Ok (CoEq v)
  | PNe v => Ok (CoNe v)
  | PIn vs => Ok (CoIn vs)
  | PNotNull b => Ok (CoNotNull b)
  | PIsNull b => Ok (CoIsNull b)
  | PGt v => Ok (CoGt v)
  | PGte v => Ok (CoGte v)
  | PLt v => Ok (CoLt v)
  | PLte v => Ok (CoLte v)
  | PContainsSubject subject =>
      let? _ := validate_subject_ref subject ctx in Ok (CoContainsSubject subject)
  | PEqSubject subject =>
      let? _ := validate_subject_ref subject ctx in Ok (CoEqSubject subject)
  end.

(** The two link ends in storage, checked against the link declaration. *)
Definition related_link_ends (related : RelationshipPredicate) (related_schema : CollectionSchema)
    (direction : LinkDirection) (ctx : string) : result (string * string) PolicyCompileError :=
  let current_collection := cs_collection (pk_schema self) in
  match direction with
  | Outgoing =>
      match cs_link_types (pk_schema self) !! rp_link_type related with
      | None => Err (err_at ctx ("unknown link_type '" +:+ rp_link_type related +:+ "' at " +:+ ctx))
      | Some link_def =>
          if bool_decide (lt_target_collection link_def <> rp_target_collection related) then
            Err (err_at ctx
              ("link_type '" +:+ rp_link_type related +:+ "' at " +:+ ctx +:+ " targets collection '" +:+
               lt_target_collection link_def +:+ "', not '" +:+ rp_target_collection related +:+ "'"))
          else Ok (current_collection, rp_target_collection related)
      end
  | Incoming =>
      match cs_link_types related_schema !! rp_link_type related with
      | None =>
          Err (err_at ctx
            ("unknown incoming link_type '" +:+ rp_link_type related +:+ "' on source collection '" +:+
             rp_target_collection related +:+ "' at " +:+ ctx))
      | Some link_def =>
          if bool_decide (lt_target_collection link_def <> current_collection) then
            Err (err_at ctx
              ("incoming link_type '" +:+ rp_link_type related +:+ "' from collection '" +:+
               rp_target_collection related +:+ "' at " +:+ ctx +:+ " targets collection '" +:+
               lt_target_collection link_def +:+ "', not '" +:+ current_collection +:+ "'"))
          else Ok (rp_target_collection related, current_collection)
      end
  end.

Definition compile_related (related : RelationshipPredicate) (ctx : string)
    : result CompiledPredicate PolicyCompileError :=
  let direction := default Outgoing (rp_direction related) in
  match pk_schemas self !! rp_target_collection related with
  | None =>
      Err (err_at ctx ("unknown target_collection '" +:+ rp_target_collection related +:+ "' at " +:+ ctx))
  | Some related_schema =>
      let? (link_source_collection, link_target_collection) :=
        related_link_ends related related_schema direction ctx in
      let? _ := match rp_target_policy related with
                | Some target_policy => validate_target_policy related_schema target_policy ctx
                | None => Ok tt
                end in
      Ok (CpRelated {|
        cr_link_type := rp_link_type related;
        cr_direction := direction;
        cr_target_collection := rp_target_collection related;
        cr_target_policy := rp_target_policy related;
        cr_link_source_collection := link_source_collection;
        cr_link_target_collection := link_target_collection;
        cr_required_link_index :=
          required_link_index_new direction link_source_collection (rp_link_type related)
            link_target_collection
      |})
  end.

Definition compile_shares_relation (relation : SharesRelationPredicate) (ctx : string)
    : result CompiledPredicate PolicyCompileError :=
  let? _ := map_err (with_field_if_unset (sr_field relation))
              (validate_field_path (sr_field relation) (ctx +:+ ".field")) in
  let? _ := validate_subject_ref (sr_subject_field relation) (ctx +:+ ".subject_field") in
  let? _ := map_err (with_field_if_unset (sr_target_field relation))
              (validate_field_path (sr_target_field relation) (ctx +:+ ".target_field")) in
  Ok (CpSharesRelation relation).

Fixpoint compile_predicate (predicate : PolicyPredicate) (ctx : string)
    : result CompiledPredicate PolicyCompileError :=
  match predicate with
  | PAll all =>
      let? cs := result_mapi (fun idx p => compile_predicate p (indexed (ctx +:+ ".all") idx)) all in
      Ok (CpAll cs)
  | PAny any =>
      let? cs := result_mapi (fun idx p => compile_predicate p (indexed (ctx +:+ ".any") idx)) any in
      Ok (CpAny cs)
  | PNot p => let? c := compile_predicate p (ctx +:+ ".not") in Ok (CpNot c)
  | PSubject subject op =>
      let? _ := validate_subject_ref subject ctx in
      let? op := compile_compare_op op ctx in
      Ok (CpCompare {| cc_target := TSubject subject; cc_op := op |})
  | PField field op =>
      let? _ := validate_field_path field ctx in
      let? op := compile_compare_op op ctx in
      Ok (CpCompare {| cc_target := TField field; cc_op := op |})
  | POperation operation => Ok (CpOperation operation)
  | PRelated related => compile_related related ctx
  | PSharesRelation shares => compile_shares_relation shares ctx
  end.

Definition compile_optional_predicate (predicate : option PolicyPredicate) (ctx : string)
    : result (option CompiledPredicate) PolicyCompileError :=
  option_transpose (fun p => compile_predicate p ctx) predicate.

(** [self.stable_policy_id] *)
Definition self_stable_policy_id (prefix ctx : string) (name : option string) : string :=
  stable_policy_id (cs_collection (pk_schema self)) prefix ctx name.

Definition compile_policy_rule (ctx : string) (idx : nat) (rule : PolicyRule)
    : result CompiledPolicyRule PolicyCompileError :=
  let rule_ctx := indexed ctx idx in
  let rule_id := self_stable_policy_id "rule" rule_ctx (pr_name rule) in
  let? when := map_err (with_rule_id_if_unset rule_id)
                 (compile_optional_predicate (pr_when rule) (rule_ctx +:+ ".when")) in
  let? where_clause := map_err (with_rule_id_if_unset rule_id)
                 (compile_optional_predicate (pr_where rule) (rule_ctx +:+ ".where")) in
  Ok {| rl_rule_id := rule_id; rl_path := rule_ctx; rl_name := pr_name rule;
        rl_when := when; rl_where := where_clause |}.

Definition compile_policy_rules (rules : list PolicyRule) (ctx : string)
    : result (list CompiledPolicyRule) PolicyCompileError :=
  result_mapi (compile_policy_rule ctx) rules.

Definition compile_operation_policy (policy : OperationPolicy) (ctx : string)
    : result CompiledOperationPolicy PolicyCompileError :=
  let? allow := compile_policy_rules (op_allow policy) (ctx +:+ ".allow") in
  let? deny := compile_policy_rules (op_deny policy) (ctx +:+ ".deny") in
  Ok {| cp_allow := allow; cp_deny := deny |}.

Definition compile_field_rule (ctx : string) (idx : nat) (rule : FieldPolicyRule)
    : result CompiledFieldPolicyRule PolicyCompileError :=
  let rule_ctx := indexed ctx idx in
  let rule_id := self_stable_policy_id "rule" rule_ctx (fr_name rule) in
  let? when := map_err (with_rule_id_if_unset rule_id)
                 (compile_optional_predicate (fr_when rule) (rule_ctx +:+ ".when")) in
  let? where_clause := map_err (with_rule_id_if_unset rule_id)
                 (compile_optional_predicate (fr_where rule) (rule_ctx +:+ ".where")) in
  Ok {| fl_rule_id := rule_id; fl_path := rule_ctx; fl_name := fr_name rule;
        fl_when := when; fl_where := where_clause; fl_redact_as := fr_redact_as rule |}.

Definition compile_field_rules (rules : list FieldPolicyRule) (ctx : string)
    : result (list CompiledFieldPolicyRule) PolicyCompileError :=
  result_mapi (compile_field_rule ctx) rules.

Definition compile_field_access_policy (policy : FieldAccessPolicy) (ctx : string)
    : result CompiledFieldAccessPolicy PolicyCompileError :=
  let? allow := compile_field_rules (fa_allow policy) (ctx +:+ ".allow") in
  let? deny := compile_field_rules (fa_deny policy) (ctx +:+ ".deny") in
  Ok {| cf_allow := allow; cf_deny := deny |}.

Definition compile_field_policy (field : string) (policy : FieldPolicy)
    : result CompiledFieldPolicy PolicyCompileError :=
  let? read := option_transpose
    (fun p => compile_field_access_policy p ("fields." +:+ field +:+ ".read")) (fp_read policy) in
  let? write := option_transpose
    (fun p => compile_field_access_policy p ("fields." +:+ field +:+ ".write")) (fp_write policy) in
  Ok {| cf_read := read; cf_write := write |}.

Definition compile_envelope (envelope : PolicyEnvelope) (ctx : string)
    : result CompiledPolicyEnvelope PolicyCompileError :=
  let? when := compile_optional_predicate (pe_when envelope) (ctx +:+ ".when") in
  Ok {| ev_envelope_id := self_stable_policy_id "envelope" ctx (pe_name envelope);
        ev_path := ctx; ev_name := pe_name envelope; ev_when := when;
        ev_decision := pe_decision envelope; ev_approval := pe_approval envelope |}.

Definition compile_operation (ops : gmap PolicyOperation CompiledOperationPolicy)
    (operation : PolicyOperation) (policy : option OperationPolicy)
    : result (gmap PolicyOperation CompiledOperationPolicy) PolicyCompileError :=
  match policy with
  | None => Ok ops
  | Some policy =>
      let? c := compile_operation_policy policy ("operations." +:+ operation_debug operation) in
      Ok (<[operation := c]> ops)
  end.
End Methods.

(** ** Reports *)

Fixpoint collect_required_link_indexes_from_predicate (predicate : CompiledPredicate)
    : list RequiredLinkIndex :=
  match predicate with
  | CpAll predicates | CpAny predicates =>
      flat_map collect_required_link_indexes_from_predicate predicates
  | CpNot p => collect_required_link_indexes_from_predicate p
  | CpRelated related => [cr_required_link_index related]
  | CpCompare _ | CpOperation _ | CpSharesRelation _ => []
  end.

Definition collect_required_link_indexes_from_optional_predicate
    (predicate : option CompiledPredicate) : list RequiredLinkIndex :=
  match predicate with
  | Some p => collect_required_link_indexes_from_predicate p
  | None => []
  end.

Definition collect_required_link_indexes_from_operation (operation : CompiledOperationPolicy)
    : list RequiredLinkIndex :=
  flat_map (fun rule =>
    collect_required_link_indexes_from_optional_predicate (rl_when rule)
    ++ collect_required_link_indexes_from_optional_predicate (rl_where rule))
    (cp_allow operation ++ cp_deny operation).

(** The loop over the rules of one field access policy. *)
Definition collect_required_link_indexes_from_access (access : option CompiledFieldAccessPolicy)
    : list RequiredLinkIndex :=
  match access with
  | None => []
  | Some access =>
      flat_map (fun rule =>
        collect_required_link_indexes_from_optional_predicate (fl_when rule)
        ++ collect_required_link_indexes_from_optional_predicate (fl_where rule))
        (cf_allow access ++ cf_deny access)
  end.

Definition collect_required_link_indexes_from_plan (plan : PolicyPlan) : list RequiredLinkIndex :=
  flat_map (fun e => collect_required_link_indexes_from_operation (snd e))
    (map_to_list (pp_operations plan))
  ++ flat_map (fun e =>
       collect_required_link_indexes_from_access (cf_read (snd e))
       ++ collect_required_link_indexes_from_access (cf_write (snd e)))
       (map_to_list (pp_fields plan))
  ++ flat_map (fun e =>
       flat_map (fun t => collect_required_link_indexes_from_operation (snd t)) (map_to_list (snd e)))
       (map_to_list (pp_transitions plan))
  ++ flat_map (fun e =>
       flat_map (fun v => collect_required_link_indexes_from_optional_predicate (ev_when v)) (snd e))
       (map_to_list (pp_envelopes plan)).

Definition aggregate_required_link_indexes (plans : list PolicyPlan) : list RequiredLinkIndex :=
  dedup (sort_by link_index_compare (flat_map collect_required_link_indexes_from_plan plans)).

Definition nullable_fields_for_plan (schema : CollectionSchema) (plan : PolicyPlan)
    : list PolicyNullableField :=
  omap (fun e =>
    match cf_read (snd e) with
    | None => None
    | Some read =>
        let rule_ids := map fl_rule_id
          (List.filter (fun rule => bool_decide (is_Some (fl_redact_as rule))) (cf_deny read)) in
        if bool_decide (rule_ids = []) then None
        else Some {|
          nf_collection := cs_collection schema;
          nf_field := fst e;
          nf_required_by_schema := field_path_required (cs_entity_schema schema) (fst e);
          nf_graphql_nullable := true;
          nf_rule_ids := dedup (sort_by String.compare rule_ids)
        |}
    end) (map_to_list (pp_fields plan)).

Definition denied_write_fields_for_plan (collection : string) (plan : PolicyPlan)
    : list PolicyDeniedWriteField :=
  omap (fun e =>
    match cf_write (snd e) with
    | None => None
    | Some write =>
        let rule_ids := map fl_rule_id (cf_deny write) in
        if bool_decide (rule_ids = []) then None
        else Some {|
          dw_collection := collection;
          dw_field := fst e;
          dw_rule_ids := dedup (sort_by String.compare rule_ids)
        |}
    end) (map_to_list (pp_fields plan)).

Definition envelope_summaries_for_plan (collection : string) (plan : PolicyPlan)
    : list PolicyEnvelopeSummary :=
  flat_map (fun e =>
    map (fun v => {|
      es_collection := collection; es_operation := fst e; es_envelope_id := ev_envelope_id v;
      es_name := ev_name v; es_decision := ev_decision v; es_approval := ev_approval v |}) (snd e))
    (map_to_list (pp_envelopes plan)).

(** ** Explanations *)

Definition explain_entry (collection : string) (operation : PolicyOperation) (kind : PolicyExplainKind)
    (rule_id path : string) (name field_path transition : option string)
    (decision : option PolicyDecision) : PolicyExplainEntry := {|
  ex_rule_id := rule_id; ex_collection := collection; ex_operation := operation; ex_kind := kind;
  ex_path := path; ex_name := name; ex_field_path := field_path; ex_transition := transition;
  ex_decision := decision
|}.

Definition collect_operation_explain_entries (collection : string) (operation : PolicyOperation)
    (policy : CompiledOperationPolicy) : list PolicyExplainEntry :=
  let entry kind rule :=
    explain_entry collection operation kind (rl_rule_id rule) (rl_path rule) (rl_name rule)
      None None None in
  map (entry OperationAllow) (cp_allow policy) ++ map (entry OperationDeny) (cp_deny policy).

Definition collect_field_explain_entries (collection : string) (operation : PolicyOperation)
    (field : string) (policy : CompiledFieldAccessPolicy) (allow_kind deny_kind : PolicyExplainKind)
    : list PolicyExplainEntry :=
  let entry kind rule :=
    explain_entry collection operation kind (fl_rule_id rule) (fl_path rule) (fl_name rule)
      (Some field) None None in
  map (entry allow_kind) (cf_allow policy) ++ map (entry deny_kind) (cf_deny policy).

Definition transition_explain_entries (collection field transition : string)
    (policy : CompiledOperationPolicy) : list PolicyExplainEntry :=
  let entry kind rule :=
    explain_entry collection OpUpdate kind (rl_rule_id rule) (rl_path rule) (rl_name rule)
      (Some field) (Some transition) None in
  map (entry TransitionAllow) (cp_allow policy) ++ map (entry TransitionDeny) (cp_deny policy).

Definition build_explain_plan (collection : string) (plan : PolicyPlan) : list PolicyExplainEntry :=
  let entries :=
    flat_map (fun e => collect_operation_explain_entries collection (fst e) (snd e))
      (map_to_list (pp_operations plan))
    ++ flat_map (fun e =>
         match cf_read (snd e) with
         | Some read =>
             collect_field_explain_entries collection OpRead (fst e) read FieldReadAllow FieldReadDeny
         | None => []
         end
         ++ match cf_write (snd e) with
            | Some write =>
                collect_field_explain_entries collection OpWrite (fst e) write
                  FieldWriteAllow FieldWriteDeny
            | None => []
            end) (map_to_list (pp_fields plan))
    ++ flat_map (fun e =>
         flat_map (fun t => transition_explain_entries collection (fst e) (fst t) (snd t))
           (map_to_list (snd e))) (map_to_list (pp_transitions plan))
    ++ flat_map (fun e =>
         map (fun v => explain_entry collection (fst e) ExplainEnvelope (ev_envelope_id v) (ev_path v)
                         (ev_name v) None None (Some (ev_decision v))) (snd e))
         (map_to_list (pp_envelopes plan)) in
  dedup (sort_by explain_compare entries).

(** ** Plans and catalogs *)

Section Compile.
Variable self : PolicyCompiler.

Definition compile_report (plan : PolicyPlan) : PolicyCompileReport :=
  sort_policy_compile_report {|
    rep_errors := [];
    rep_warnings := [];
    rep_required_link_indexes := aggregate_required_link_indexes [plan];
    rep_nullable_fields := nullable_fields_for_plan (pk_schema self) plan;
    rep_denied_write_fields := denied_write_fields_for_plan (cs_collection (pk_schema self)) plan;
    rep_envelope_summaries := envelope_summaries_for_plan (cs_collection (pk_schema self)) plan
  |}.

(** The six operation policies in the order of the source. *)
Definition compile_operations : result (gmap PolicyOperation CompiledOperationPolicy) PolicyCompileError :=
  let policy := pk_policy self in
  let? ops := compile_operation self ∅ OpRead (ac_read policy) in
  let? ops := compile_operation self ops OpCreate (ac_create policy) in
  let? ops := compile_operation self ops OpUpdate (ac_update policy) in
  let? ops := compile_operation self ops OpDelete (ac_delete policy) in
  let? ops := compile_operation self ops OpWrite (ac_write policy) in
  compile_operation self ops OpAdmin (ac_admin policy).

Definition compile_fields : result (gmap string CompiledFieldPolicy) PolicyCompileError :=
  result_map_values (fun field policy =>
    let? _ := map_err (with_field_if_unset field) (validate_field_path self field ("fields." +:+ field)) in
    map_err (with_field_if_unset field) (compile_field_policy self field policy))
    (ac_fields (pk_policy self)).

Definition compile_transitions
    : result (gmap string (gmap string CompiledOperationPolicy)) PolicyCompileError :=
  result_map_values (fun field transitions =>
    let? _ := map_err (with_field_if_unset field)
                (validate_field_path self field ("transitions." +:+ field)) in
    result_map_values (fun transition policy =>
      map_err (with_field_if_unset field)
        (compile_operation_policy self policy ("transitions." +:+ field +:+ "." +:+ transition)))
      transitions) (ac_transitions (pk_policy self)).

Definition compile_envelopes
    : result (gmap PolicyOperation (list CompiledPolicyEnvelope)) PolicyCompileError :=
  result_map_values (fun operation envelopes =>
    result_mapi (fun idx envelope =>
      compile_envelope self envelope (indexed ("envelopes." +:+ operation_debug operation) idx))
      envelopes) (ac_envelopes (pk_policy self)).

(** [PolicyCompiler::compile] *)
Definition compile : result PolicyPlan PolicyCompileError :=
  let? operations := compile_operations in
  let? fields := compile_fields in
  let? transitions := compile_transitions in
  let? envelopes := compile_envelopes in
  let plan := {|
    pp_policy_version := cs_version (pk_schema self); pp_operations := operations;
    pp_fields := fields; pp_transitions := transitions; pp_envelopes := envelopes;
    pp_report := report_default; pp_explain := [] |} in
  let explain := build_explain_plan (cs_collection (pk_schema self)) plan in
  Ok {|
    pp_policy_version := cs_version (pk_schema self); pp_operations := operations;
    pp_fields := fields; pp_transitions := transitions; pp_envelopes := envelopes;
    pp_report := compile_report plan; pp_explain := explain |}.
End Compile.

Fixpoint schemas_by_collection_from (by_collection : gmap string CollectionSchema)
    (schemas : list CollectionSchema) : result (gmap string CollectionSchema) PolicyCompileError :=
  match schemas with
  | [] => Ok by_collection
  | schema :: rest =>
      let collection := cs_collection schema in
      match by_collection !! collection with
      | Some _ =>
          Err (with_error_collection collection (compile_error_new
            ("duplicate collection schema '" +:+ collection +:+ "' in policy catalog")))
      | None => schemas_by_collection_from (<[collection := schema]> by_collection) rest
      end
  end.

Definition schemas_by_collection (schemas : list CollectionSchema)
    : result (gmap string CollectionSchema) PolicyCompileError :=
  schemas_by_collection_from ∅ schemas.

Definition aggregate_policy_compile_reports (plans : list PolicyPlan) : PolicyCompileReport :=
  sort_policy_compile_report {|
    rep_errors := []; rep_warnings := [];
    rep_required_link_indexes := flat_map (fun p => rep_required_link_indexes (pp_report p)) plans;
    rep_nullable_fields := flat_map (fun p => rep_nullable_fields (pp_report p)) plans;
    rep_denied_write_fields := flat_map (fun p => rep_denied_write_fields (pp_report p)) plans;
    rep_envelope_summaries := flat_map (fun p => rep_envelope_summaries (pp_report p)) plans
  |}.

(** The loop over the schemas. *)
Fixpoint compile_plans (by_collection : gmap string CollectionSchema)
    (plans : gmap string PolicyPlan) (schemas : list CollectionSchema)
    : result (gmap string PolicyPlan) PolicyCompileError :=
  match schemas with
  | [] => Ok plans
  | schema :: rest =>
      match cs_access_control schema with
      | None => compile_plans by_collection plans rest
      | Some policy =>
          let? plan := compile (policy_compiler_new schema policy by_collection) in
          compile_plans by_collection (<[cs_collection schema := plan]> plans) rest
      end
  end.

Definition compile_policy_catalog (schemas : list CollectionSchema)
    : result PolicyCatalog PolicyCompileError :=
  let? by_collection := schemas_by_collection schemas in
  let? plans := compile_plans by_collection ∅ schemas in
  let? _ := detect_relationship_policy_cycles plans in
  Ok {| pc_plans := plans;
        pc_report := aggregate_policy_compile_reports (map snd (map_to_list plans)) |}.

(** [From<PolicyCompileError> for AxonError] *)
Definition axon_error_of_compile (e : PolicyCompileError) : AxonError :=
  SchemaValidation (compile_error_display e).

Definition compile_policy_plan (schema : CollectionSchema) : result (option PolicyPlan) AxonError :=
  let? catalog := map_err axon_error_of_compile (compile_policy_catalog [schema]) in
  Ok (pc_plans catalog !! cs_collection schema).
End Compiler.
