(* ===== verification/PolicyTyping.v ===== *)
(** * What the policy compiler accepts

    The scoping rules of access-control policies as an elaboration judgement:
    field paths resolve in the entity schema, subject references are declared,
    links join the collections they name.  [compile_predicate] decides the
    judgement, and [compile] accepts a policy exactly when all of its parts are
    well scoped, keeping their structure. *)

From S2P Require Import Prelude Json Ids Types Schema PolicyPlan.
From S2P Require Import PolicyCycles PolicyCompile.
Local Open Scope axon_scope.

(** ** Results of loops *)

Lemma map_err_ok {A E F} (f : E -> F) (r : result A E) a : map_err f r = Ok a <-> r = Ok a.
Proof. destruct r; simpl; split; congruence. Qed.

Lemma result_map_from_ok {A B E} (f : nat -> A -> result B E) (R : A -> B -> Prop) l i bs :
  (forall i a b, In a l -> f i a = Ok b <-> R a b) -> result_map_from f i l = Ok bs <-> Forall2 R l bs.
Proof.
  revert i bs. induction l as [|a l IH]; intros i bs Hf; simpl.
  { split; [intros [= <-]; constructor | by inversion 1]. }
  assert (Hf' : forall i a b, In a l -> f i a = Ok b <-> R a b) by (intros; apply Hf; by right).
  rewrite result_bind_ok. split.
  - intros (b & Hb & (bs' & Hbs & [= <-])%result_bind_ok). constructor.
    + eapply Hf; [by left|exact Hb].
    + by apply (IH (S i)).
  - inversion 1 as [|? b ? bs' Hb Hbs]; subst. exists b. split; [apply Hf; [by left|done]|].
    by rewrite (proj2 (IH (S i) bs' Hf') Hbs).
Qed.

Lemma result_map_from_sound {A B E} (f : nat -> A -> result B E) (R : A -> B -> Prop) l i bs :
  (forall i a b, f i a = Ok b -> R a b) -> result_map_from f i l = Ok bs -> Forall2 R l bs.
Proof.
  intros Hf. revert i bs. induction l as [|a l IH]; intros i bs; simpl; [intros [= <-]; constructor|].
  intros (b & Hb & (bs' & Hbs & [= <-])%result_bind_ok)%result_bind_ok. constructor; eauto.
Qed.

Lemma result_map_from_total {A B E} (f : nat -> A -> result B E) (R : A -> B -> Prop) l i bs :
  Forall2 R l bs -> (forall i a b, R a b -> exists b', f i a = Ok b') ->
  exists bs', result_map_from f i l = Ok bs'.
Proof.
  intros Hl Hf. revert i. induction Hl as [|a b l bs Hab _ IH]; intros i; simpl; [by eexists|].
  destruct (Hf i a b Hab) as [b' ->]. simpl. destruct (IH (S i)) as [bs' ->]. by eexists.
Qed.

Lemma option_transpose_sound {A B E} (f : A -> result B E) (R : A -> B -> Prop) o o' :
  (forall a b, f a = Ok b -> R a b) -> option_transpose f o = Ok o' -> option_Forall2 R o o'.
Proof.
  intros Hf. destruct o as [a|]; simpl; [|intros [= <-]; constructor].
  intros (b & Hb & [= <-])%result_bind_ok. constructor. by apply Hf.
Qed.

Lemma option_transpose_total {A B E} (f : A -> result B E) (R : A -> B -> Prop) o o' :
  option_Forall2 R o o' -> (forall a b, R a b -> exists b', f a = Ok b') ->
  exists o'', option_transpose f o = Ok o''.
Proof.
  intros Ho Hf. destruct Ho as [a b Hab|]; simpl; [|by eexists].
  destruct (Hf a b Hab) as [b' ->]. by eexists.
Qed.

Lemma result_map_ok {A B E} (f : A -> result B E) l bs :
  result_map f l = Ok bs <-> Forall2 (fun a b => f a = Ok b) l bs.
Proof.
  revert bs. induction l as [|a l IH]; intros bs; simpl.
  { split; [intros [= <-]; constructor | by inversion 1]. }
  rewrite result_bind_ok. split.
  - intros (b & Hb & (bs' & Hbs & [= <-])%result_bind_ok). constructor; [done|]. by apply IH.
  - inversion 1 as [|? b ? bs' Hb Hbs]; subst. exists b. split; [done|].
    apply IH in Hbs. by rewrite Hbs.
Qed.

Lemma result_map_total {A B E} (f : A -> result B E) l :
  (forall a, a ∈ l -> exists b, f a = Ok b) -> exists bs, result_map f l = Ok bs.
Proof.
  induction l as [|a l IH]; intros Hf; simpl; [by eexists|].
  destruct (Hf a) as [b ->]; [apply elem_of_cons; by left|]. simpl.
  destruct IH as [bs ->]; [|by eexists]. intros a' Ha'. apply Hf, elem_of_cons. by right.
Qed.

Section MapValues.
Context {K A B E : Type} `{Countable K} (f : K -> A -> result B E).

(** The same keys, each value the result of [f]. *)
Definition maps_values (m : gmap K A) (m' : gmap K B) : Prop :=
  forall k, match m !! k, m' !! k with
            | Some a, Some b => f k a = Ok b
            | None, None => True
            | _, _ => False
            end.

Lemma maps_values_unique m m1 m2 : maps_values m m1 -> maps_values m m2 -> m1 = m2.
Proof.
  intros Hm1 Hm2. apply map_eq. intros k. specialize (Hm1 k). specialize (Hm2 k).
  destruct (m !! k), (m1 !! k), (m2 !! k); congruence || done.
Qed.

Lemma result_map_values_maps m m' : result_map_values f m = Ok m' -> maps_values m m'.
Proof.
  unfold result_map_values. rewrite result_bind_ok. intros (l & Hl%result_map_ok & [= <-]).
  assert (Hk : l.*1 = (map_to_list m).*1).
  { induction Hl as [|[k a] [k' b] ? ? Hkv]; simpl; [done|].
    apply result_bind_ok in Hkv as (b' & _ & [= <- <-]). by f_equal. }
  assert (Hnd : base.NoDup l.*1) by (rewrite Hk; apply NoDup_fst_map_to_list).
  intros k. destruct (m !! k) as [a|] eqn:Ea.
  - apply elem_of_map_to_list in Ea. apply list_elem_of_lookup in Ea as [i Hi].
    eapply Forall2_lookup_l in Hl as ([k' b] & Hb & Hkv); [|exact Hi].
    apply result_bind_ok in Hkv as (b' & Hf & [= <- <-]). simpl in *.
    rewrite (proj1 (elem_of_list_to_map l k b' Hnd)); [done|]. by eapply list_elem_of_lookup_2.
  - rewrite not_elem_of_list_to_map_1; [done|]. rewrite Hk.
    intros ([k' a] & -> & Hin)%list_elem_of_fmap.
    apply elem_of_map_to_list in Hin. simpl in Ea. congruence.
Qed.

Lemma result_map_values_total m :
  (forall k a, m !! k = Some a -> exists b, f k a = Ok b) -> exists m', result_map_values f m = Ok m'.
Proof.
  intros Hf. unfold result_map_values.
  edestruct (result_map_total (fun kv => let? b := f (fst kv) (snd kv) in Ok (fst kv, b)) (map_to_list m))
    as [l ->]; [|by eexists].
  intros [k a] Hin%elem_of_map_to_list. destruct (Hf k a Hin) as [b Hb]. simpl. rewrite Hb. by eexists.
Qed.

Lemma result_map_values_ok m m' : result_map_values f m = Ok m' <-> maps_values m m'.
Proof.
  split; [apply result_map_values_maps|]. intros Hm.
  destruct (result_map_values_total m) as [m'' Hm''].
  - intros k a Ha. specialize (Hm k). rewrite Ha in Hm. destruct (m' !! k) as [b|]; [by exists b|done].
  - rewrite Hm''. f_equal. eapply maps_values_unique; [|done]. by apply result_map_values_maps.
Qed.
End MapValues.

(** ** The judgement *)

Set Warnings "-register-all".

Section Typing.
Context `{SerdeNumber}.

Lemma policy_predicate_ind (P : PolicyPredicate -> Prop) :
  (forall l, Forall P l -> P (PAll l)) ->
  (forall l, Forall P l -> P (PAny l)) ->
  (forall p, P p -> P (PNot p)) ->
  (forall s op, P (PSubject s op)) ->
  (forall f op, P (PField f op)) ->
  (forall op, P (POperation op)) ->
  (forall r, P (PRelated r)) ->
  (forall s, P (PSharesRelation s)) ->
  forall p, P p.
Proof.
  intros Hall Hany Hnot Hs Hf Ho Hr Hsr.
  fix IH 1. intros [l|l|p|s op|f op|op|r|s];
    [apply Hall | apply Hany | apply Hnot | auto..]; [| |apply IH].
  all: induction l as [|p l IHl]; constructor; [apply IH | exact IHl].
Qed.

(** A dotted path resolves in an entity schema: every segment names a declared
    property, [name[]] steps into the items of an array, and an array is only
    crossed that way. *)
Inductive path_typed : Value -> list string -> Prop :=
| pt_nil v : path_typed v []
| pt_items v raw field next items rest :
    str_strip_suffix "[]" raw = Some field ->
    object_property v field = Some next ->
    schema_type next = Some "array" ->
    value_get next "items" = Some items ->
    path_typed items rest ->
    path_typed v (raw :: rest)
| pt_field v raw next rest :
    raw <> "" ->
    str_strip_suffix "[]" raw = None ->
    object_property v raw = Some next ->
    (rest = [] \/ schema_type next <> Some "array") ->
    path_typed next rest ->
    path_typed v (raw :: rest).

Section Judgement.
Variable self : PolicyCompiler.

Definition field_typed (path : string) : Prop :=
  exists entity_schema, cs_entity_schema (pk_schema self) = Some entity_schema /\
    path_typed entity_schema (split_on dot path).

Definition subject_declared (subject : string) : Prop := subject ∈ pk_subject_refs self.

Inductive op_elaborates : PolicyCompareOp -> CompiledCompareOp -> Prop :=
| oe_eq v : op_elaborates (PEq v) (CoEq v)
| oe_ne v : op_elaborates (PNe v) (CoNe v)
| oe_in vs : op_elaborates (PIn vs) (CoIn vs)
| oe_not_null b : op_elaborates (PNotNull b) (CoNotNull b)
| oe_is_null b : op_elaborates (PIsNull b) (CoIsNull b)
| oe_gt v : op_elaborates (PGt v) (CoGt v)
| oe_gte v : op_elaborates (PGte v) (CoGte v)
| oe_lt v : op_elaborates (PLt v) (CoLt v)
| oe_lte v : op_elaborates (PLte v) (CoLte v)
| oe_contains s : subject_declared s -> op_elaborates (PContainsSubject s) (CoContainsSubject s)
| oe_eq_subject s : subject_declared s -> op_elaborates (PEqSubject s) (CoEqSubject s).

(** The link type is declared between the two collections, in the direction of
    the predicate. *)
Inductive link_typed (r : RelationshipPredicate) (related_schema : CollectionSchema)
    : LinkDirection -> string -> string -> Prop :=
| lt_outgoing d :
    cs_link_types (pk_schema self) !! rp_link_type r = Some d ->
    lt_target_collection d = rp_target_collection r ->
    link_typed r related_schema Outgoing (cs_collection (pk_schema self)) (rp_target_collection r)
| lt_incoming d :
    cs_link_types related_schema !! rp_link_type r = Some d ->
    lt_target_collection d = cs_collection (pk_schema self) ->
    link_typed r related_schema Incoming (rp_target_collection r) (cs_collection (pk_schema self)).

Definition declares_policy (schema : CollectionSchema) (op : PolicyOperation) : Prop :=
  exists policy p, cs_access_control schema = Some policy /\ operation_policy policy op = Some p.

Inductive elaborates : PolicyPredicate -> CompiledPredicate -> Prop :=
| el_all l cs : Forall2 elaborates l cs -> elaborates (PAll l) (CpAll cs)
| el_any l cs : Forall2 elaborates l cs -> elaborates (PAny l) (CpAny cs)
| el_not p c : elaborates p c -> elaborates (PNot p) (CpNot c)
| el_subject s op op' :
    subject_declared s -> op_elaborates op op' ->
    elaborates (PSubject s op) (CpCompare {| cc_target := TSubject s; cc_op := op' |})
| el_field f op op' :
    field_typed f -> op_elaborates op op' ->
    elaborates (PField f op) (CpCompare {| cc_target := TField f; cc_op := op' |})
| el_operation op : elaborates (POperation op) (CpOperation op)
| el_related r related_schema dir src tgt :
    pk_schemas self !! rp_target_collection r = Some related_schema ->
    dir = default Outgoing (rp_direction r) ->
    link_typed r related_schema dir src tgt ->
    (forall op, rp_target_policy r = Some op -> declares_policy related_schema op) ->
    elaborates (PRelated r) (CpRelated {|
      cr_link_type := rp_link_type r; cr_direction := dir;
      cr_target_collection := rp_target_collection r; cr_target_policy := rp_target_policy r;
      cr_link_source_collection := src; cr_link_target_collection := tgt;
      cr_required_link_index := required_link_index_new dir src (rp_link_type r) tgt |})
| el_shares s :
    field_typed (sr_field s) -> subject_declared (sr_subject_field s) ->
    field_typed (sr_target_field s) -> elaborates (PSharesRelation s) (CpSharesRelation s).

(** ** The compiler decides it *)

Lemma validate_segments_ok path ctx v segments :
  validate_segments self path ctx v segments = Ok tt <-> path_typed v segments.
Proof.
  revert v. induction segments as [|raw rest IH]; intros v; simpl;
    [split; [intros _; constructor|done]|].
  unfold strip_brackets, ends_with_brackets, array_items. split.
  - case_bool_decide as Hraw; [done|]. destruct (str_strip_suffix "[]" raw) as [field|] eqn:Es; simpl.
    + destruct (object_property v field) as [next|] eqn:Ep; [|done]. simpl.
      case_bool_decide as Ht; [done|].
      destruct (value_get next "items") as [items|] eqn:Ei; [|done]. intros Hr%IH.
      eapply pt_items; eauto.
    + destruct (object_property v raw) as [next|] eqn:Ep; [|done].
      destruct (negb _ && _) eqn:Ec; [done|]. intros Hr%IH. eapply pt_field; eauto.
      apply andb_false_iff in Ec as [Ec|Ec]; [left | right].
      * by apply negb_false_iff, bool_decide_eq_true in Ec.
      * by apply bool_decide_eq_false in Ec.
  - inversion 1 as [|? ? field next items ? Es Ep Et Ei Hr|? ? next ? Hraw Es Ep Hl Hr]; subst.
    + rewrite bool_decide_false by (intros ->; done). rewrite Es. simpl. rewrite Ep.
      rewrite bool_decide_false by (by rewrite Et; auto).
      rewrite Ei. by apply IH.
    + rewrite bool_decide_false by done. rewrite Es. simpl. rewrite Ep.
      replace (negb _ && _) with false; [by apply IH|]. symmetry. apply andb_false_iff.
      destruct Hl as [->|Hl]; [by left|right]. by apply bool_decide_eq_false.
Qed.

Lemma validate_field_path_ok path ctx : validate_field_path self path ctx = Ok tt <-> field_typed path.
Proof.
  unfold validate_field_path, field_typed. destruct (cs_entity_schema _) as [es|].
  - rewrite validate_segments_ok. split; [by exists es|]. by intros (? & [= <-] & ?).
  - split; [done|]. by intros (? & [=] & _).
Qed.

Lemma validate_subject_ref_ok s ctx : validate_subject_ref self s ctx = Ok tt <-> subject_declared s.
Proof. unfold validate_subject_ref, subject_declared. by case_bool_decide. Qed.

Lemma compile_compare_op_ok op ctx op' :
  compile_compare_op self op ctx = Ok op' <-> op_elaborates op op'.
Proof.
  split.
  - destruct op; simpl; try (intros [= <-]; constructor);
      rewrite result_seq_ok, validate_subject_ref_ok; intros [Hs [= <-]]; by constructor.
  - destruct 1; simpl; try done; rewrite result_seq_ok, validate_subject_ref_ok; done.
Qed.

Lemma related_link_ends_ok r rs dir ctx src tgt :
  related_link_ends self r rs dir ctx = Ok (src, tgt) <-> link_typed r rs dir src tgt.
Proof.
  unfold related_link_ends. split.
  - destruct dir; (destruct (_ !! _) as [d|] eqn:E; [|done]); case_bool_decide as Hd; try done;
      intros [= <- <-]; econstructor; eauto; apply dec_stable; done.
  - destruct 1 as [d E Hd|d E Hd]; rewrite E, bool_decide_false; auto.
Qed.

Lemma validate_target_policy_ok rs op ctx : validate_target_policy rs op ctx = Ok tt <-> declares_policy rs op.
Proof.
  unfold validate_target_policy, declares_policy. destruct (cs_access_control rs) as [policy|].
  - destruct (operation_policy policy op) as [p|] eqn:E.
    + split; [by exists policy, p|done].
    + split; [done|]. intros (? & ? & [= <-] & Hp). congruence.
  - split; [done|]. by intros (? & ? & [=] & _).
Qed.

Lemma compile_related_ok r ctx c : compile_related self r ctx = Ok c <-> elaborates (PRelated r) c.
Proof.
  unfold compile_related. split.
  - destruct (pk_schemas self !! _) as [rs|] eqn:Es; [|done].
    rewrite result_bind_ok. intros ([src tgt] & Hl%related_link_ends_ok & Hk).
    apply result_seq_ok in Hk as [Ht [= <-]]. econstructor; eauto.
    intros op Hop. rewrite Hop in Ht. by apply validate_target_policy_ok in Ht.
  - inversion 1 as [| | | | | |? rs dir src tgt Es Hd Hl Hp|]; subst. rewrite Es.
    apply (related_link_ends_ok _ _ _ ctx) in Hl. rewrite Hl. simpl.
    destruct (rp_target_policy r) as [op|] eqn:E; [|done].
    by rewrite (proj2 (validate_target_policy_ok rs op ctx)) by by apply Hp.
Qed.

Lemma compile_shares_ok s ctx c :
  compile_shares_relation self s ctx = Ok c <-> elaborates (PSharesRelation s) c.
Proof.
  unfold compile_shares_relation. rewrite !result_seq_ok, !map_err_ok, !validate_field_path_ok.
  rewrite validate_subject_ref_ok. split.
  - intros (? & ? & ? & [= <-]). by constructor.
  - by inversion 1.
Qed.

Lemma compile_list_ok l label ctx cs :
  Forall (fun p => forall ctx c, compile_predicate self p ctx = Ok c <-> elaborates p c) l ->
  result_mapi (fun idx p => compile_predicate self p (indexed (ctx +:+ label) idx)) l = Ok cs <->
  Forall2 elaborates l cs.
Proof.
  intros Hl. apply result_map_from_ok. intros i p c Hp.
  apply (proj1 (List.Forall_forall _ _) Hl p Hp).
Qed.

Lemma compile_predicate_ok p ctx c : compile_predicate self p ctx = Ok c <-> elaborates p c.
Proof.
  revert ctx c. induction p as [l IH|l IH|p IH|s op|f op|op|r|s] using policy_predicate_ind;
    intros ctx c; simpl; [| | | | | |apply compile_related_ok|apply compile_shares_ok].
  1,2: rewrite result_bind_ok; setoid_rewrite (compile_list_ok l _ ctx _ IH); split;
    [intros (cs & Hcs & [= <-]); by constructor | inversion 1; subst; eauto].
  - rewrite result_bind_ok. setoid_rewrite IH. split;
      [intros (c' & Hc & [= <-]); by constructor | inversion 1; subst; eauto].
  - rewrite result_seq_ok, validate_subject_ref_ok, result_bind_ok.
    setoid_rewrite compile_compare_op_ok. split;
      [intros (Hs & op' & Hop & [= <-]); by constructor | inversion 1; subst; eauto].
  - rewrite result_seq_ok, validate_field_path_ok, result_bind_ok.
    setoid_rewrite compile_compare_op_ok. split;
      [intros (Hs & op' & Hop & [= <-]); by constructor | inversion 1; subst; eauto].
  - split; [intros [= <-]; constructor | by inversion 1].
Qed.

Definition option_elaborates (o : option PolicyPredicate) (o' : option CompiledPredicate) : Prop :=
  match o, o' with
  | Some p, Some c => elaborates p c
  | None, None => True
  | _, _ => False
  end.

Lemma compile_optional_ok o ctx o' :
  compile_optional_predicate self o ctx = Ok o' <-> option_elaborates o o'.
Proof.
  unfold compile_optional_predicate, option_transpose. destruct o as [p|], o' as [c|]; simpl.
  - rewrite result_bind_ok, <-(compile_predicate_ok p ctx). split; [by intros (? & ? & [= <-]) | eauto].
  - rewrite result_bind_ok. split; [by intros (? & _ & [=])|done].
  - by split.
  - done.
Qed.

(** A compiled rule guards the same thing as the authored one. *)
Definition rule_elaborates (r : PolicyRule) (c : CompiledPolicyRule) : Prop :=
  rl_name c = pr_name r /\ option_elaborates (pr_when r) (rl_when c) /\
  option_elaborates (pr_where r) (rl_where c).

Definition field_rule_elaborates (r : FieldPolicyRule) (c : CompiledFieldPolicyRule) : Prop :=
  fl_name c = fr_name r /\ fl_redact_as c = fr_redact_as r /\
  option_elaborates (fr_when r) (fl_when c) /\ option_elaborates (fr_where r) (fl_where c).

Definition envelope_elaborates (e : PolicyEnvelope) (c : CompiledPolicyEnvelope) : Prop :=
  ev_name c = pe_name e /\ ev_decision c = pe_decision e /\ ev_approval c = pe_approval e /\
  option_elaborates (pe_when e) (ev_when c).

Definition policy_elaborates (p : OperationPolicy) (c : CompiledOperationPolicy) : Prop :=
  Forall2 rule_elaborates (op_allow p) (cp_allow c) /\
  Forall2 rule_elaborates (op_deny p) (cp_deny c).

Definition access_elaborates (p : FieldAccessPolicy) (c : CompiledFieldAccessPolicy) : Prop :=
  Forall2 field_rule_elaborates (fa_allow p) (cf_allow c) /\
  Forall2 field_rule_elaborates (fa_deny p) (cf_deny c).

Definition field_policy_elaborates (p : FieldPolicy) (c : CompiledFieldPolicy) : Prop :=
  option_Forall2 access_elaborates (fp_read p) (cf_read c) /\
  option_Forall2 access_elaborates (fp_write p) (cf_write c).

(** The plan has the parts of the policy, each elaborated, and nothing else. *)
Record plan_elaborates (plan : PolicyPlan) : Prop := {
  pel_version : pp_policy_version plan = cs_version (pk_schema self);
  pel_operations : forall op,
    option_Forall2 policy_elaborates (operation_policy (pk_policy self) op) (pp_operations plan !! op);
  pel_fields : forall f,
    option_Forall2 (fun p c => field_typed f /\ field_policy_elaborates p c)
      (ac_fields (pk_policy self) !! f) (pp_fields plan !! f);
  pel_transitions : forall f,
    option_Forall2 (fun ts cs => field_typed f /\
        forall state, option_Forall2 policy_elaborates (ts !! state) (cs !! state))
      (ac_transitions (pk_policy self) !! f) (pp_transitions plan !! f);
  pel_envelopes : forall op,
    option_Forall2 (Forall2 envelope_elaborates)
      (ac_envelopes (pk_policy self) !! op) (pp_envelopes plan !! op)
}.

(** ** Each part of the compiler is sound and total on elaborable input *)

Lemma compile_rule_sound ctx i r c : compile_policy_rule self ctx i r = Ok c -> rule_elaborates r c.
Proof.
  unfold compile_policy_rule. rewrite result_bind_ok. intros (w & Hw & Hk).
  apply result_bind_ok in Hk as (w' & Hw' & [= <-]).
  apply map_err_ok, compile_optional_ok in Hw. apply map_err_ok, compile_optional_ok in Hw'. done.
Qed.

Lemma compile_rule_total ctx i r c : rule_elaborates r c -> exists c', compile_policy_rule self ctx i r = Ok c'.
Proof.
  intros (_ & Hw & Hw'). unfold compile_policy_rule.
  rewrite (proj2 (map_err_ok _ _ _) (proj2 (compile_optional_ok _ _ _) Hw)). simpl.
  rewrite (proj2 (map_err_ok _ _ _) (proj2 (compile_optional_ok _ _ _) Hw')). by eexists.
Qed.

Lemma compile_field_rule_sound ctx i r c : compile_field_rule self ctx i r = Ok c -> field_rule_elaborates r c.
Proof.
  unfold compile_field_rule. rewrite result_bind_ok. intros (w & Hw & Hk).
  apply result_bind_ok in Hk as (w' & Hw' & [= <-]).
  apply map_err_ok, compile_optional_ok in Hw. apply map_err_ok, compile_optional_ok in Hw'. done.
Qed.

Lemma compile_field_rule_total ctx i r c :
  field_rule_elaborates r c -> exists c', compile_field_rule self ctx i r = Ok c'.
Proof.
  intros (_ & _ & Hw & Hw'). unfold compile_field_rule.
  rewrite (proj2 (map_err_ok _ _ _) (proj2 (compile_optional_ok _ _ _) Hw)). simpl.
  rewrite (proj2 (map_err_ok _ _ _) (proj2 (compile_optional_ok _ _ _) Hw')). by eexists.
Qed.

Lemma compile_envelope_sound ctx e c : compile_envelope self e ctx = Ok c -> envelope_elaborates e c.
Proof.
  unfold compile_envelope. rewrite result_bind_ok. intros (w & Hw%compile_optional_ok & [= <-]). done.
Qed.

Lemma compile_envelope_total ctx e c : envelope_elaborates e c -> exists c', compile_envelope self e ctx = Ok c'.
Proof.
  intros (_ & _ & _ & Hw). unfold compile_envelope.
  rewrite (proj2 (compile_optional_ok _ _ _) Hw). by eexists.
Qed.

Lemma compile_policy_sound p ctx c : compile_operation_policy self p ctx = Ok c -> policy_elaborates p c.
Proof.
  unfold compile_operation_policy. rewrite result_bind_ok. intros (a & Ha & Hk).
  apply result_bind_ok in Hk as (d & Hd & [= <-]).
  split; (eapply result_map_from_sound; [|eassumption]); intros; by eapply compile_rule_sound.
Qed.

Lemma compile_policy_total p ctx c : policy_elaborates p c -> exists c', compile_operation_policy self p ctx = Ok c'.
Proof.
  intros [Ha Hd]. unfold compile_operation_policy, compile_policy_rules, result_mapi.
  destruct (result_map_from_total (compile_policy_rule self (ctx +:+ ".allow")) _ _ 0%nat _ Ha) as [a ->];
    [intros; by eapply compile_rule_total|]. simpl.
  destruct (result_map_from_total (compile_policy_rule self (ctx +:+ ".deny")) _ _ 0%nat _ Hd) as [d ->];
    [intros; by eapply compile_rule_total|]. by eexists.
Qed.

Lemma compile_access_sound p ctx c : compile_field_access_policy self p ctx = Ok c -> access_elaborates p c.
Proof.
  unfold compile_field_access_policy. rewrite result_bind_ok. intros (a & Ha & Hk).
  apply result_bind_ok in Hk as (d & Hd & [= <-]).
  split; (eapply result_map_from_sound; [|eassumption]); intros; by eapply compile_field_rule_sound.
Qed.

Lemma compile_access_total p ctx c : access_elaborates p c -> exists c', compile_field_access_policy self p ctx = Ok c'.
Proof.
  intros [Ha Hd]. unfold compile_field_access_policy, compile_field_rules, result_mapi.
  destruct (result_map_from_total (compile_field_rule self (ctx +:+ ".allow")) _ _ 0%nat _ Ha) as [a ->];
    [intros; by eapply compile_field_rule_total|]. simpl.
  destruct (result_map_from_total (compile_field_rule self (ctx +:+ ".deny")) _ _ 0%nat _ Hd) as [d ->];
    [intros; by eapply compile_field_rule_total|]. by eexists.
Qed.

Lemma compile_field_policy_sound f p c : compile_field_policy self f p = Ok c -> field_policy_elaborates p c.
Proof.
  unfold compile_field_policy. rewrite result_bind_ok. intros (r & Hr & Hk).
  apply result_bind_ok in Hk as (w & Hw & [= <-]).
  split; simpl; (eapply option_transpose_sound; [|eassumption]); intros a b Hab;
    eapply compile_access_sound; exact Hab.
Qed.

Lemma compile_field_policy_total f p c :
  field_policy_elaborates p c -> exists c', compile_field_policy self f p = Ok c'.
Proof.
  intros [Hr Hw]. unfold compile_field_policy.
  destruct (option_transpose_total (fun p => compile_field_access_policy self p ("fields." +:+ f +:+ ".read"))
    _ _ _ Hr) as [r ->]; [intros; by eapply compile_access_total|]. simpl.
  destruct (option_transpose_total (fun p => compile_field_access_policy self p ("fields." +:+ f +:+ ".write"))
    _ _ _ Hw) as [w ->]; [intros; by eapply compile_access_total|]. by eexists.
Qed.

(** ** The whole plan *)

Lemma maps_values_Forall2 {K A B E} `{Countable K} (f : K -> A -> result B E)
    (R : K -> A -> B -> Prop) (m : gmap K A) (m' : gmap K B) :
  (forall k a b, f k a = Ok b -> R k a b) -> result_map_values f m = Ok m' ->
  forall k, option_Forall2 (R k) (m !! k) (m' !! k).
Proof.
  intros Hf Hm%result_map_values_ok k. specialize (Hm k).
  destruct (m !! k), (m' !! k); try done; constructor. by apply Hf.
Qed.

Lemma map_values_total {K A B E} `{Countable K} (f : K -> A -> result B E)
    (R : K -> A -> B -> Prop) (m : gmap K A) (m' : gmap K B) :
  (forall k, option_Forall2 (R k) (m !! k) (m' !! k)) ->
  (forall k a b, R k a b -> exists b', f k a = Ok b') ->
  exists m'', result_map_values f m = Ok m''.
Proof.
  intros Hm Hf. apply result_map_values_total. intros k a Ha. specialize (Hm k). rewrite Ha in Hm.
  inversion Hm as [? b Hab|]; subst. by eapply Hf.
Qed.

(** The policies of the operations [l] are compiled, the others still absent. *)
Definition compiled_upto (l : list PolicyOperation) (ops : gmap PolicyOperation CompiledOperationPolicy)
    : Prop :=
  forall op, if decide (op ∈ l)
             then option_Forall2 policy_elaborates (operation_policy (pk_policy self) op) (ops !! op)
             else ops !! op = None.

Lemma compile_operation_sound l ops op p ops' :
  compiled_upto l ops -> op ∉ l -> p = operation_policy (pk_policy self) op ->
  compile_operation self ops op p = Ok ops' -> compiled_upto (op :: l) ops'.
Proof.
  intros Hl Hop -> Hc op'. pose proof (Hl op') as Hop'.
  destruct (decide (op' = op)) as [->|Hne].
  - rewrite decide_True by (apply elem_of_cons; by left). rewrite decide_False in Hop' by done.
    unfold compile_operation in Hc. destruct (operation_policy _ op) as [p|].
    + apply result_bind_ok in Hc as (c & Hc%compile_policy_sound & [= <-]).
      rewrite lookup_insert_eq. by constructor.
    + injection Hc as <-. rewrite Hop'. constructor.
  - assert (Eq : ops' !! op' = ops !! op').
    { unfold compile_operation in Hc. destruct (operation_policy _ op) as [p|]; [|by injection Hc as <-].
      apply result_bind_ok in Hc as (c & _ & [= <-]). by rewrite lookup_insert_ne. }
    rewrite Eq. destruct (decide (op' ∈ l)) as [Hin|Hin].
    + rewrite decide_True by (apply elem_of_cons; by right). done.
    + rewrite decide_False; [done|]. by intros [?|?]%elem_of_cons.
Qed.

Lemma compile_operation_total ops op p o :
  option_Forall2 policy_elaborates p o -> exists ops', compile_operation self ops op p = Ok ops'.
Proof.
  intros [p' c Hc|]; simpl; [|by eexists].
  destruct (compile_policy_total p' ("operations." +:+ operation_debug op) c Hc) as [c' ->]. by eexists.
Qed.

Lemma compile_operations_sound ops :
  compile_operations self = Ok ops ->
  forall op, option_Forall2 policy_elaborates (operation_policy (pk_policy self) op) (ops !! op).
Proof.
  unfold compile_operations.
  intros (o1 & H1 & (o2 & H2 & (o3 & H3 & (o4 & H4 & (o5 & H5 & H6)%result_bind_ok
    )%result_bind_ok)%result_bind_ok)%result_bind_ok)%result_bind_ok.
  assert (H0 : compiled_upto [] ∅).
  { intros op. rewrite decide_False by apply not_elem_of_nil. apply lookup_empty. }
  apply (compile_operation_sound [] ∅) in H1; [|done|by apply (bool_decide_unpack _)|done].
  apply (compile_operation_sound _ _ _ _ _ H1) in H2; [|by apply (bool_decide_unpack _)|done].
  apply (compile_operation_sound _ _ _ _ _ H2) in H3; [|by apply (bool_decide_unpack _)|done].
  apply (compile_operation_sound _ _ _ _ _ H3) in H4; [|by apply (bool_decide_unpack _)|done].
  apply (compile_operation_sound _ _ _ _ _ H4) in H5; [|by apply (bool_decide_unpack _)|done].
  apply (compile_operation_sound _ _ _ _ _ H5) in H6; [|by apply (bool_decide_unpack _)|done].
  intros op. specialize (H6 op). rewrite decide_True in H6; [done|].
  destruct op; by apply (bool_decide_unpack _).
Qed.

Lemma compile_operations_total (ops : gmap PolicyOperation CompiledOperationPolicy) :
  (forall op, option_Forall2 policy_elaborates (operation_policy (pk_policy self) op) (ops !! op)) ->
  exists ops', compile_operations self = Ok ops'.
Proof.
  intros Hops. unfold compile_operations.
  pose proof (fun o op => compile_operation_total o op _ _ (Hops op)) as Hstep. simpl in Hstep.
  destruct (Hstep ∅ OpRead) as [o1 E1]. simpl in E1. rewrite E1. simpl.
  destruct (Hstep o1 OpCreate) as [o2 E2]. simpl in E2. rewrite E2. simpl.
  destruct (Hstep o2 OpUpdate) as [o3 E3]. simpl in E3. rewrite E3. simpl.
  destruct (Hstep o3 OpDelete) as [o4 E4]. simpl in E4. rewrite E4. simpl.
  destruct (Hstep o4 OpWrite) as [o5 E5]. simpl in E5. rewrite E5. simpl.
  apply (Hstep o5 OpAdmin).
Qed.

Lemma compile_fields_sound fields : compile_fields self = Ok fields ->
  forall f, option_Forall2 (fun p c => field_typed f /\ field_policy_elaborates p c)
              (ac_fields (pk_policy self) !! f) (fields !! f).
Proof.
  unfold compile_fields. intros Hm.
  apply (maps_values_Forall2 _ (fun f p c => field_typed f /\ field_policy_elaborates p c)) with (2 := Hm).
  intros f p c [Hv Hc]%result_seq_ok. apply map_err_ok in Hv, Hc.
  split; [by eapply validate_field_path_ok | by eapply compile_field_policy_sound].
Qed.

Lemma compile_transitions_sound trs : compile_transitions self = Ok trs ->
  forall f, option_Forall2 (fun ts cs => field_typed f /\
                forall state, option_Forall2 policy_elaborates (ts !! state) (cs !! state))
              (ac_transitions (pk_policy self) !! f) (trs !! f).
Proof.
  unfold compile_transitions. intros Hm.
  apply (maps_values_Forall2 _ (fun f ts cs => field_typed f /\
           forall state, option_Forall2 policy_elaborates (ts !! state) (cs !! state))) with (2 := Hm).
  intros f ts cs [Hv Hc]%result_seq_ok. apply map_err_ok in Hv.
  split; [by eapply validate_field_path_ok|].
  apply (maps_values_Forall2 _ (fun _ => policy_elaborates)) with (2 := Hc).
  intros state p c Hp%map_err_ok. by eapply compile_policy_sound.
Qed.

Lemma compile_envelopes_sound envs : compile_envelopes self = Ok envs ->
  forall op, option_Forall2 (Forall2 envelope_elaborates)
               (ac_envelopes (pk_policy self) !! op) (envs !! op).
Proof.
  unfold compile_envelopes. intros Hm.
  apply (maps_values_Forall2 _ (fun _ => Forall2 envelope_elaborates)) with (2 := Hm).
  intros op es cs Hc. eapply result_map_from_sound; [|exact Hc].
  intros i e c He. eapply compile_envelope_sound. exact He.
Qed.

Lemma compile_sound plan : compile self = Ok plan -> plan_elaborates plan.
Proof.
  unfold compile. intros (ops & Hops & Hk)%result_bind_ok.
  apply result_bind_ok in Hk as (fields & Hf & Hk).
  apply result_bind_ok in Hk as (trs & Ht & Hk).
  apply result_bind_ok in Hk as (envs & He & [= <-]).
  split; simpl; [done|..].
  - by apply compile_operations_sound.
  - by apply compile_fields_sound.
  - by apply compile_transitions_sound.
  - by apply compile_envelopes_sound.
Qed.

Lemma compile_total plan : plan_elaborates plan -> exists plan', compile self = Ok plan'.
Proof.
  intros [_ Ho Hf Ht He]. unfold compile.
  destruct (compile_operations_total _ Ho) as [ops ->]. simpl.
  destruct (map_values_total (fun field policy =>
    let? _ := map_err (with_field_if_unset field) (validate_field_path self field ("fields." +:+ field)) in
    map_err (with_field_if_unset field) (compile_field_policy self field policy)) _ _ _ Hf)
    as [fields Ef].
  { intros f p c [Hv Hc]. rewrite (proj2 (validate_field_path_ok f _) Hv). simpl.
    destruct (compile_field_policy_total f p c Hc) as [c' ->]. by eexists. }
  unfold compile_fields. rewrite Ef. simpl.
  destruct (map_values_total (fun field transitions =>
    let? _ := map_err (with_field_if_unset field)
                (validate_field_path self field ("transitions." +:+ field)) in
    result_map_values (fun transition policy =>
      map_err (with_field_if_unset field)
        (compile_operation_policy self policy ("transitions." +:+ field +:+ "." +:+ transition)))
      transitions) _ _ _ Ht) as [trs Et].
  { intros f ts cs [Hv Hc]. rewrite (proj2 (validate_field_path_ok f _) Hv). simpl.
    apply (map_values_total _ (fun _ => policy_elaborates) ts cs); [exact Hc|]. intros state p c Hp.
    destruct (compile_policy_total p ("transitions." +:+ f +:+ "." +:+ state) c Hp) as [c' ->]. by eexists. }
  unfold compile_transitions. rewrite Et. simpl.
  destruct (map_values_total (fun operation envelopes =>
    result_mapi (fun idx envelope =>
      compile_envelope self envelope (indexed ("envelopes." +:+ operation_debug operation) idx))
      envelopes) _ _ _ He) as [envs Ee].
  { intros op es cs Hes. eapply result_map_from_total; [exact Hes|].
    intros i e c Hec. eapply compile_envelope_total. exact Hec. }
  unfold compile_envelopes. rewrite Ee. by eexists.
Qed.

(** C20. The policy compiler is a sound and complete type checker for
    access-control policies: it accepts a policy exactly when every field path
    resolves in the entity schema, every subject reference is declared and every
    relationship follows a declared link to a collection with the consulted
    policy; and the plan it returns has the parts of the policy, each with its
    predicates elaborated structurally, and nothing else. *)
Theorem compile_exact :
  (forall plan, compile self = Ok plan -> plan_elaborates plan) /\
  ((exists plan, compile self = Ok plan) <-> exists plan, plan_elaborates plan).
Proof.
  split; [apply compile_sound|]. split; intros [plan Hp].
  - exists plan. by apply compile_sound.
  - by eapply compile_total.
Qed.
End Judgement.
End Typing.
