(* ===== verification/Rules.v ===== *)
(** * Validation rules ([crates/axon-schema/src/rules.rs])

    Evaluation of the cross-field rules of a schema on an entity body, the
    interpolation of fix suggestions, and the validation of rule definitions
    when a schema is saved. *)

From S2P Require Import Prelude Json Ids Types Intents IndexKeys Schema.

(** What the sources use of the crate [regex] and of the text forms of values:
    [Regex::new] with its error text, [Regex::is_match], [Value::to_string] and
    the [Debug] form of a condition operator (which prints JSON values). *)
Class RuleEnv `{SerdeNumber} : Type := {
  Regex : Type;
  regex_new : string -> Regex + string;
  is_match : Regex -> string -> bool;
  value_text : Value -> string;
  condition_op_debug : ConditionOp -> string
}.

(** ** Characters *)

Definition lbrace : ascii := Eval compute in Stdlib.Strings.Ascii.ascii_of_nat 123.
Definition rbrace : ascii := Eval compute in Stdlib.Strings.Ascii.ascii_of_nat 125.

(** [str::find(c)] as the text before and after the first occurrence. *)
Fixpoint split_at (c : ascii) (s : string) : option (string * string) :=
  match s with
  | EmptyString => None
  | String d s' =>
      if decide (d = c) then Some (EmptyString, s')
      else match split_at c s' with
           | Some (pre, post) => Some (String d pre, post)
           | None => None
           end
  end.

Fixpoint contains_char (c : ascii) (s : string) : bool :=
  match s with
  | EmptyString => false
  | String d s' => bool_decide (d = c) || contains_char c s'
  end.

Fixpoint count_char (c : ascii) (s : string) : nat :=
  match s with
  | EmptyString => 0
  | String d s' => (if decide (d = c) then 1 else 0) + count_char c s'
  end.

(** [s.trim().is_empty()] on UTF-8 bytes: only characters of the Unicode
    property White_Space. *)
Fixpoint blank (bs : list Z) : bool :=
  match bs with
  | [] => true
  | b :: rest =>
      if ((9 <=? b) && (b <=? 13) || (b =? 32))%Z then blank rest
      else if (b =? 194)%Z then
        match rest with
        | c :: rest' => ((c =? 133) || (c =? 160))%Z && blank rest'
        | [] => false
        end
      else
        match rest with
        | c :: d :: rest' =>
            (((b =? 225) && (c =? 154) && (d =? 128)) ||
             ((b =? 226) && (c =? 128) &&
                (((128 <=? d) && (d <=? 138)) || (d =? 168) || (d =? 169) || (d =? 175))) ||
             ((b =? 226) && (c =? 129) && (d =? 159)) ||
             ((b =? 227) && (c =? 128) && (d =? 128)))%Z && blank rest'
        | _ => false
        end
  end.

Definition trim_is_empty (s : string) : bool := blank (as_bytes s).

(** [str::trim]: white space of Unicode, in UTF-8. *)
Fixpoint trim_start_bytes (l : list Z) : list Z :=
  match l with
  | [] => []
  | b :: rest =>
      if ((9 <=? b) && (b <=? 13) || (b =? 32))%Z then trim_start_bytes rest
      else
        match rest with
        | c :: rest' =>
            if blank [b; c] then trim_start_bytes rest'
            else
              match rest' with
              | d :: rest'' => if blank [b; c; d] then trim_start_bytes rest'' else l
              | [] => l
              end
        | [] => l
        end
  end.

Fixpoint trim_end_bytes (l : list Z) : list Z :=
  match l with
  | [] => []
  | b :: rest => if blank l then [] else b :: trim_end_bytes rest
  end.

Definition trim (s : string) : string := string_of_bytes (trim_end_bytes (trim_start_bytes (as_bytes s))).

(** ** Floats *)

Definition f64_is_nan (b : f64) : bool := (2047 * 2 ^ 52 <? Z.land b (2 ^ 63 - 1))%Z.

(** Magnitude with sign: both zeros have key 0. *)
Definition f64_key (b : f64) : Z := (if b <? 2 ^ 63 then b else - (b - 2 ^ 63))%Z.

(** [f64::partial_cmp] *)
Definition f64_partial_cmp (a b : f64) : option comparison :=
  if f64_is_nan a || f64_is_nan b then None else Some (Z.compare (f64_key a) (f64_key b)).

Section Rules.
Context `{RuleEnv}.

(** [get_field]: a dot-path lookup that treats null as absent. *)
Definition get_field (data : Value) (path : string) : option Value :=
  match fold_left (fun cur part => cur ≫= fun v => value_get v part) (split_on dot path) (Some data) with
  | Some Null => None
  | other => other
  end.

(** [compare_values] *)
Definition compare_values (a b : option Value) : option comparison :=
  match a, b with
  | Some (Number x), Some (Number y) =>
      match number_as_f64 x, number_as_f64 y with
      | Some fx, Some fy => f64_partial_cmp fx fy
      | _, _ => None
      end
  | Some (JString x), Some (JString y) => Some (String.compare x y)
  | _, _ => None
  end.

Definition is_gt (c : option comparison) : bool := match c with Some Gt => true | _ => false end.
Definition is_ge (c : option comparison) : bool :=
  match c with Some Gt | Some Eq => true | _ => false end.
Definition is_lt (c : option comparison) : bool := match c with Some Lt => true | _ => false end.
Definition is_le (c : option comparison) : bool :=
  match c with Some Lt | Some Eq => true | _ => false end.

(** [value == Some(expected)] *)
Definition is_value (value : option Value) (expected : Value) : bool :=
  match value with Some v => value_eqb v expected | None => false end.

(** [values.contains(v)] *)
Definition is_among (value : option Value) (values : list Value) : bool :=
  match value with Some v => existsb (value_eqb v) values | None => false end.

Definition is_present (value : option Value) : bool :=
  match value with Some v => negb (is_null v) | None => false end.

Definition matches_pattern (value : option Value) (pattern : string) : bool :=
  match value ≫= as_str with
  | Some s => match regex_new pattern with inl r => is_match r s | inr _ => false end
  | None => false
  end.

(** [evaluate_condition_op] *)
Definition evaluate_condition_op (op : ConditionOp) (value : option Value) : bool :=
  match op with
  | CEq expected => is_value value expected
  | CNe expected => negb (is_value value expected)
  | CIn values => is_among value values
  | CNotNull flag => Bool.eqb (is_present value) flag
  | CIsNull flag => Bool.eqb (match value with Some v => is_null v | None => true end) flag
  | CGt expected => is_gt (compare_values value (Some expected))
  | CGte expected => is_ge (compare_values value (Some expected))
  | CLt expected => is_lt (compare_values value (Some expected))
  | CLte expected => is_le (compare_values value (Some expected))
  | CMatch pattern => matches_pattern value pattern
  end.

(** [evaluate_condition] *)
Fixpoint evaluate_condition (condition : RuleCondition) (data : Value) : bool :=
  match condition with
  | CondAll all => forallb (fun c => evaluate_condition c data) all
  | CondAny any => existsb (fun c => evaluate_condition c data) any
  | CondField field op => evaluate_condition_op op (get_field data field)
  end.

(** [evaluate_requirement] *)
Definition evaluate_requirement (req : RuleRequirement) (data : Value) : bool :=
  let value := get_field data (rq_field req) in
  match rq_op req with
  | RNotNull flag => Bool.eqb (is_present value) flag
  | REq expected => is_value value expected
  | RNe expected => negb (is_value value expected)
  | RIn values => is_among value values
  | RGtField other => is_gt (compare_values value (get_field data other))
  | RGteField other => is_ge (compare_values value (get_field data other))
  | RLtField other => is_lt (compare_values value (get_field data other))
  | RLteField other => is_le (compare_values value (get_field data other))
  | RMatch pattern => matches_pattern value pattern
  | RNotMatch pattern =>
      match value ≫= as_str with
      | Some s => match regex_new pattern with inl r => negb (is_match r s) | inr _ => true end
      | None => true
      end
  | RMinLength min =>
      match value ≫= as_str with Some s => (min <=? String.length s)%nat | None => false end
  | RLte expected => is_le (compare_values value (Some expected))
  end.

(** The text that replaces a placeholder. *)
Definition placeholder_text (data : Value) (field : string) : string :=
  match get_field data field with
  | Some (JString s) => s
  | Some other => value_text other
  | None => "<missing>"
  end.

(** [interpolate_fix]: the loop with an iteration bound; [None] when the bound
    does not suffice. *)
Fixpoint interpolate_fix (fuel : nat) (template : string) (data : Value) : option string :=
  match fuel with
  | O => None
  | S fuel' =>
      match split_at lbrace template with
      | None => Some template
      | Some (before, after_brace) =>
          match split_at rbrace after_brace with
          | None => Some template
          | Some (field, rest) =>
              interpolate_fix fuel' (before +:+ (placeholder_text data field +:+ rest)) data
          end
      end
  end.

(** [condition_context] *)
Definition condition_context (condition : RuleCondition) (data : Value) : Value :=
  match condition with
  | CondField field op =>
      Object [("operator", JString (condition_op_debug op)); ("trigger_field", JString field);
              ("trigger_value", default Null (get_field data field))]
  | CondAll _ => Object [("compound", JString "all")]
  | CondAny _ => Object [("compound", JString "any")]
  end.

(** The rule applies and its requirement does not hold. *)
Definition fires (rule : ValidationRule) (data : Value) : bool :=
  match vr_when rule with Some c => evaluate_condition c data | None => true end &&
  negb (evaluate_requirement (vr_require rule) data).

(** [evaluate_rule]; the outer [None] means that the interpolation of the fix
    did not finish within the bound. *)
Definition evaluate_rule (fuel : nat) (rule : ValidationRule) (data : Value)
  : option (option RuleViolation) :=
  if negb (fires rule data) then Some None
  else
    match (match vr_fix rule with
           | Some f => option_map Some (interpolate_fix fuel f data)
           | None => Some None
           end) with
    | None => None
    | Some fix_text =>
        Some (Some {| rv_rule := vr_name rule; rv_field := rq_field (vr_require rule);
                      rv_message := vr_message rule; rv_fix := fix_text;
                      rv_gate := vr_gate rule; rv_advisory := vr_advisory rule;
                      rv_context := option_map (fun c => condition_context c data) (vr_when rule) |})
    end.

(** [evaluate_rules] *)
Fixpoint evaluate_rules (fuel : nat) (rules : list ValidationRule) (data : Value)
  : option (list RuleViolation) :=
  match rules with
  | [] => Some []
  | rule :: rest =>
      o ← evaluate_rule fuel rule data; vs ← evaluate_rules fuel rest data;
      Some (match o with Some v => v :: vs | None => vs end)
  end.

(** ** Validation of rule definitions *)

Record RuleDefinitionError : Type := {
  rde_rule : option string;
  rde_message : string
}.

Definition rule_error (name message : string) : RuleDefinitionError :=
  {| rde_rule := Some name; rde_message := message |}.

(** [top_level_field] *)
Definition top_level_field (path : string) : string :=
  match split_on dot path with p :: _ => p | [] => path end.

(** [cross_field_ref] *)
Definition cross_field_ref (op : RequirementOp) : option string :=
  match op with
  | RGtField f | RGteField f | RLtField f | RLteField f => Some f
  | _ => None
  end.

Definition declared (known_fields : list string) (f : string) : bool := bool_decide (f ∈ known_fields).

(** [validate_condition_fields]: the errors pushed, in order. *)
Fixpoint validate_condition_fields (cond : RuleCondition) (known_fields : list string)
    (rule_name : string) : list RuleDefinitionError :=
  match cond with
  | CondField field _ =>
      let top := top_level_field field in
      if negb (declared known_fields top) && negb (bool_decide (top = "*"))
      then [rule_error rule_name ("when condition references non-existent field '" +:+ field +:+ "'")]
      else []
  | CondAll cs | CondAny cs =>
      flat_map (fun c => validate_condition_fields c known_fields rule_name) cs
  end.

Definition regex_error (pattern prefix rule_name : string) : list RuleDefinitionError :=
  match regex_new pattern with
  | inr e => [rule_error rule_name (prefix +:+ " '" +:+ pattern +:+ "': " +:+ e)]
  | inl _ => []
  end.

(** [validate_regex_in_requirement] *)
Definition validate_regex_in_requirement (op : RequirementOp) (rule_name : string)
  : list RuleDefinitionError :=
  match op with
  | RMatch p | RNotMatch p => regex_error p "invalid regex pattern" rule_name
  | _ => []
  end.

(** [validate_regex_in_condition] *)
Fixpoint validate_regex_in_condition (cond : RuleCondition) (rule_name : string)
  : list RuleDefinitionError :=
  match cond with
  | CondField _ (CMatch p) => regex_error p "invalid regex in condition" rule_name
  | CondField _ _ => []
  | CondAll cs | CondAny cs => flat_map (fun c => validate_regex_in_condition c rule_name) cs
  end.

(** The names already seen, in order of first occurrence. *)
Fixpoint duplicate_names (seen : list string) (rules : list ValidationRule)
  : list RuleDefinitionError :=
  match rules with
  | [] => []
  | rule :: rest =>
      if bool_decide (vr_name rule ∈ seen)
      then rule_error (vr_name rule) "duplicate rule name" :: duplicate_names seen rest
      else duplicate_names (vr_name rule :: seen) rest
  end.

(** The field checks of one rule against the declared fields. *)
Definition validate_rule_fields (fields : list string) (rule : ValidationRule)
  : list RuleDefinitionError :=
  let req_field := top_level_field (rq_field (vr_require rule)) in
  (if negb (declared fields req_field) && negb (bool_decide (req_field = "*"))
   then [rule_error (vr_name rule) ("require references non-existent field '" +:+
           rq_field (vr_require rule) +:+ "'")]
   else []) ++
  (match cross_field_ref (rq_op (vr_require rule)) with
   | Some other =>
       if negb (declared fields (top_level_field other))
       then [rule_error (vr_name rule) ("cross-field reference to non-existent field '" +:+
               other +:+ "'")]
       else []
   | None => []
   end) ++
  (match vr_when rule with
   | Some cond => validate_condition_fields cond fields (vr_name rule)
   | None => []
   end).

Definition validate_rule (known_fields : option (list string)) (rule : ValidationRule)
  : list RuleDefinitionError :=
  (if trim_is_empty (vr_message rule)
   then [rule_error (vr_name rule) "message must not be empty"] else []) ++
  (if bool_decide (vr_gate rule = None) && negb (vr_advisory rule)
   then [rule_error (vr_name rule) "rule must specify either 'gate' or 'advisory: true'"] else []) ++
  (match known_fields with Some fields => validate_rule_fields fields rule | None => [] end) ++
  validate_regex_in_requirement (rq_op (vr_require rule)) (vr_name rule) ++
  (match vr_when rule with
   | Some cond => validate_regex_in_condition cond (vr_name rule)
   | None => []
   end).

(** [validate_rule_definitions] *)
Definition validate_rule_definitions (rules : list ValidationRule) (entity_schema : option Value)
  : list RuleDefinitionError :=
  let known_fields :=
    option_map (map fst)
      ((entity_schema ≫= (fun s => value_get s "properties")) ≫= as_object) in
  duplicate_names [] rules ++ flat_map (validate_rule known_fields) rules.
End Rules.

(** ** Interpolation *)

Section Interpolation.
Context `{RuleEnv}.

(** Reference: one pass from left to right.  Inside a placeholder, [pending]
    is the text since the opening brace. *)
Fixpoint expand (data : Value) (pending : option string) (s : string) : string :=
  match s, pending with
  | EmptyString, None => EmptyString
  | EmptyString, Some f => String lbrace f
  | String c s', None =>
      if decide (c = lbrace) then expand data (Some EmptyString) s' else String c (expand data None s')
  | String c s', Some f =>
      if decide (c = rbrace) then placeholder_text data f +:+ expand data None s'
      else expand data (Some (f +:+ String c EmptyString)) s'
  end.

(** The names between braces, as the pass above finds them. *)
Fixpoint placeholders (pending : option string) (s : string) : list string :=
  match s, pending with
  | EmptyString, _ => []
  | String c s', None =>
      if decide (c = lbrace) then placeholders (Some EmptyString) s' else placeholders None s'
  | String c s', Some f =>
      if decide (c = rbrace) then f :: placeholders None s'
      else placeholders (Some (f +:+ String c EmptyString)) s'
  end.

Lemma split_at_none c s : split_at c s = None <-> contains_char c s = false.
Proof.
  induction s as [|d s IH]; simpl; [done|]. case_decide as Hd.
  - rewrite bool_decide_true by done. done.
  - rewrite bool_decide_false by done. simpl. rewrite <-IH. by destruct (split_at c s) as [[]|].
Qed.

Lemma split_at_some c s pre post :
  split_at c s = Some (pre, post) -> s = pre +:+ String c post /\ contains_char c pre = false.
Proof.
  revert pre. induction s as [|d s IH]; intros pre; simpl; [done|]. case_decide as Hd.
  - intros [= <- <-]. by subst d.
  - destruct (split_at c s) as [[p q]|]; [|done]. intros [= <- <-].
    destruct (IH p eq_refl) as [-> Hp]. simpl. by rewrite bool_decide_false by done.
Qed.

Lemma contains_char_app c a b : contains_char c (a +:+ b) = contains_char c a || contains_char c b.
Proof. induction a as [|d a IH]; simpl; [done|]. by rewrite IH, orb_assoc. Qed.

Lemma count_char_app c a b : count_char c (a +:+ b) = count_char c a + count_char c b.
Proof. induction a as [|d a IH]; simpl; [done|]. rewrite IH. lia. Qed.

Lemma count_char_none c s : contains_char c s = false -> count_char c s = 0.
Proof.
  induction s as [|d s IH]; simpl; [done|]. case_decide as Hd.
  - by rewrite bool_decide_true.
  - rewrite bool_decide_false by done. simpl. auto.
Qed.

(** Text without an opening brace passes unchanged. *)
Lemma expand_plain data a s :
  contains_char lbrace a = false -> expand data None (a +:+ s) = a +:+ expand data None s.
Proof.
  induction a as [|c a IH]; cbn [contains_char]; [done|]. intros [Hc Ha]%orb_false_iff.
  apply bool_decide_eq_false in Hc. change (String c a +:+ s) with (String c (a +:+ s)).
  cbn [expand]. rewrite decide_False by done. by rewrite IH.
Qed.

Lemma placeholders_plain a s :
  contains_char lbrace a = false -> placeholders None (a +:+ s) = placeholders None s.
Proof.
  induction a as [|c a IH]; cbn [contains_char]; [done|]. intros [Hc Ha]%orb_false_iff.
  apply bool_decide_eq_false in Hc. change (String c a +:+ s) with (String c (a +:+ s)).
  cbn [placeholders]. rewrite decide_False by done. by rewrite IH.
Qed.

Lemma string_snoc_app f (c : ascii) s : (f +:+ String c EmptyString) +:+ s = f +:+ String c s.
Proof. induction f as [|d f IH]; [done|]. exact (f_equal (String d) IH). Qed.

(** A placeholder up to its closing brace. *)
Lemma expand_field data f field s :
  contains_char rbrace field = false ->
  expand data (Some f) (field +:+ String rbrace s) =
    placeholder_text data (f +:+ field) +:+ expand data None s.
Proof.
  revert f. induction field as [|c field IH]; intros f; cbn [contains_char].
  - intros _. rewrite string_app_nil_r. change ("" +:+ String rbrace s) with (String rbrace s).
    cbn [expand]. by rewrite decide_True.
  - intros [Hc Ha]%orb_false_iff. apply bool_decide_eq_false in Hc.
    change (String c field +:+ String rbrace s) with (String c (field +:+ String rbrace s)).
    cbn [expand]. rewrite decide_False by done. rewrite IH by done. by rewrite string_snoc_app.
Qed.

Lemma placeholders_field f field s :
  contains_char rbrace field = false ->
  placeholders (Some f) (field +:+ String rbrace s) = (f +:+ field) :: placeholders None s.
Proof.
  revert f. induction field as [|c field IH]; intros f; cbn [contains_char].
  - intros _. rewrite string_app_nil_r. change ("" +:+ String rbrace s) with (String rbrace s).
    cbn [placeholders]. by rewrite decide_True.
  - intros [Hc Ha]%orb_false_iff. apply bool_decide_eq_false in Hc.
    change (String c field +:+ String rbrace s) with (String c (field +:+ String rbrace s)).
    cbn [placeholders]. rewrite decide_False by done. rewrite IH by done. by rewrite string_snoc_app.
Qed.

(** A brace that is never closed. *)
Lemma expand_open data f s :
  contains_char rbrace s = false -> expand data (Some f) s = String lbrace (f +:+ s).
Proof.
  revert f. induction s as [|c s IH]; intros f; cbn [contains_char].
  - intros _. cbn [expand]. by rewrite string_app_nil_r.
  - intros [Hc Ha]%orb_false_iff. apply bool_decide_eq_false in Hc.
    cbn [expand]. rewrite decide_False by done. rewrite IH by done. by rewrite string_snoc_app.
Qed.

Lemma expand_brace data s : expand data None (String lbrace s) = expand data (Some EmptyString) s.
Proof. cbn [expand]. by rewrite decide_True. Qed.

Lemma placeholders_brace s : placeholders None (String lbrace s) = placeholders (Some EmptyString) s.
Proof. cbn [placeholders]. by rewrite decide_True. Qed.

(** The values of the placeholders contain no opening brace. *)
Definition values_plain (data : Value) (template : string) : Prop :=
  Forall (fun f => contains_char lbrace (placeholder_text data f) = false) (placeholders None template).

Lemma interpolate_expand fuel template data :
  values_plain data template -> count_char lbrace template < fuel ->
  interpolate_fix fuel template data = Some (expand data None template).
Proof.
  revert template. induction fuel as [|fuel IH]; intros template Hv Hf; [lia|]. cbn [interpolate_fix].
  destruct (split_at lbrace template) as [[pre post]|] eqn:Hl.
  - apply split_at_some in Hl as [-> Hpre].
    destruct (split_at rbrace post) as [[field rest]|] eqn:Hr.
    + apply split_at_some in Hr as [-> Hfield]. unfold values_plain in Hv.
      rewrite placeholders_plain, placeholders_brace, placeholders_field in Hv by done.
      inversion Hv as [|? ? Hx Hrest]; subst. rewrite IH.
      * by rewrite !expand_plain, expand_brace, expand_field by done.
      * unfold values_plain. by rewrite !placeholders_plain.
      * rewrite !count_char_app in *. cbn [count_char] in Hf.
        rewrite decide_True in Hf by done. rewrite count_char_app in Hf. cbn [count_char] in Hf.
        pose proof (count_char_none _ _ Hx) as Hz. change (EmptyString +:+ field) with field in Hz. lia.
    + apply split_at_none in Hr. by rewrite expand_plain, expand_brace, expand_open.
  - apply split_at_none in Hl. rewrite <-(string_app_nil_r template) at 2.
    rewrite expand_plain by done. cbn [expand]. by rewrite string_app_nil_r.
Qed.

(** The violation a firing rule reports. *)
Definition violation (rule : ValidationRule) (data : Value) : RuleViolation :=
  {| rv_rule := vr_name rule; rv_field := rq_field (vr_require rule); rv_message := vr_message rule;
     rv_fix := option_map (expand data None) (vr_fix rule); rv_gate := vr_gate rule;
     rv_advisory := vr_advisory rule;
     rv_context := option_map (fun c => condition_context c data) (vr_when rule) |}.

(** The fix of the rule can be interpolated within the bound. *)
Definition fix_bounded (fuel : nat) (data : Value) (rule : ValidationRule) : Prop :=
  forall f, vr_fix rule = Some f -> values_plain data f /\ count_char lbrace f < fuel.

Lemma evaluate_rule_fires fuel rule data :
  fix_bounded fuel data rule ->
  evaluate_rule fuel rule data = Some (if fires rule data then Some (violation rule data) else None).
Proof.
  intros Hfix. unfold evaluate_rule. destruct (fires rule data); [|done]. simpl.
  unfold violation. destruct (vr_fix rule) as [f|] eqn:Hf; [|done].
  destruct (Hfix f Hf) as [Hv Hc]. by rewrite (interpolate_expand fuel f data Hv Hc).
Qed.

(** One violation for each rule that fires, in order. *)
Lemma evaluate_rules_fires (fuel : nat) (rules : list ValidationRule) (data : Value)
    (Hfix : Forall (fix_bounded fuel data) rules) :
  evaluate_rules fuel rules data =
    Some (map (fun r => violation r data) (List.filter (fun r => fires r data) rules)).
Proof.
  induction Hfix as [|rule rules Hr _ IH]; simpl; [done|].
  rewrite (evaluate_rule_fires fuel rule data Hr), IH. simpl. by destruct (fires rule data).
Qed.

(** Interpolation does not terminate when a value contains its own
    placeholder: whatever the number of iterations, the loop on a template
    that mentions the field never finishes, and neither does the evaluation
    of a violated rule with such a fix.  The value is client data. *)
Theorem interpolate_fix_diverges (data : Value) (field pre post : string)
    (Hpre : contains_char lbrace pre = false) (Hfield : contains_char rbrace field = false)
    (Hself : placeholder_text data field = String lbrace (field +:+ String rbrace EmptyString))
    (fuel : nat) :
  interpolate_fix fuel (pre +:+ String lbrace (field +:+ String rbrace post)) data = None.
Proof.
  assert (Hsplit : forall c a b, contains_char c a = false -> split_at c (a +:+ String c b) = Some (a, b)).
  { intros c a b. induction a as [|d a IH]; cbn [contains_char].
    - intros _. change ("" +:+ String c b) with (String c b). cbn [split_at]. by rewrite decide_True.
    - intros [Hd Ha]%orb_false_iff. apply bool_decide_eq_false in Hd.
      change (String d a +:+ String c b) with (String d (a +:+ String c b)).
      cbn [split_at]. rewrite decide_False by done. by rewrite IH. }
  induction fuel as [|fuel IH]; [done|]. cbn [interpolate_fix].
  rewrite !Hsplit by done. rewrite Hself.
  change (String lbrace (field +:+ String rbrace EmptyString) +:+ post)
    with (String lbrace ((field +:+ String rbrace EmptyString) +:+ post)).
  by rewrite string_snoc_app.
Qed.
End Interpolation.

(** ** Rule definitions *)

Section Definitions.
Context `{RuleEnv}.

(** Conditions are trees with lists of subtrees. *)
Lemma condition_ind' (P : RuleCondition -> Prop) :
  (forall cs, Forall P cs -> P (CondAll cs)) -> (forall cs, Forall P cs -> P (CondAny cs)) ->
  (forall f op, P (CondField f op)) -> forall c, P c.
Proof.
  intros Hall Hany Hf. fix IH 1. intros [cs|cs|f op]; [apply Hall | apply Hany | apply Hf];
    induction cs as [|c cs IHcs]; constructor; auto.
Qed.

(** The field tests of a condition. *)
Fixpoint leaves (c : RuleCondition) : list (string * ConditionOp) :=
  match c with
  | CondAll cs | CondAny cs => flat_map leaves cs
  | CondField f op => [(f, op)]
  end.

(** The root of the path is a declared field, or the wildcard. *)
Definition known_path (fields : list string) (path : string) : Prop :=
  top_level_field path ∈ fields \/ top_level_field path = "*".

Definition compiles (pattern : string) : Prop := exists r, regex_new pattern = inl r.

(** What a rule must be for the schema to be saved. *)
Record rule_ok (known_fields : option (list string)) (rule : ValidationRule) : Prop := {
  ok_message : trim_is_empty (vr_message rule) = false;
  ok_gate : is_Some (vr_gate rule) \/ vr_advisory rule = true;
  ok_require : forall fields, known_fields = Some fields -> known_path fields (rq_field (vr_require rule));
  ok_cross : forall fields other, known_fields = Some fields ->
    cross_field_ref (rq_op (vr_require rule)) = Some other -> top_level_field other ∈ fields;
  ok_when : forall fields c, known_fields = Some fields -> vr_when rule = Some c ->
    Forall (fun l => known_path fields (fst l)) (leaves c);
  ok_pattern : forall p, rq_op (vr_require rule) = RMatch p \/ rq_op (vr_require rule) = RNotMatch p ->
    compiles p;
  ok_when_pattern : forall c f p, vr_when rule = Some c -> In (f, CMatch p) (leaves c) -> compiles p
}.

Lemma flat_map_nil {A B} (f : A -> list B) l : flat_map f l = [] <-> Forall (fun a => f a = []) l.
Proof.
  induction l as [|a l IH]; simpl; [by split|]. rewrite List.Forall_cons_iff, <-IH.
  split; [apply app_eq_nil | by intros [-> ->]].
Qed.

Lemma if_nil {A} (b : bool) (x : A) : (if b then [x] else []) = [] <-> b = false.
Proof. by destruct b. Qed.

Lemma regex_error_nil p prefix name : regex_error p prefix name = [] <-> compiles p.
Proof.
  unfold regex_error, compiles. destruct (regex_new p) as [r|e]; split; try done; [by eexists|].
  by intros [r Hr].
Qed.

Lemma unknown_path fields path :
  negb (declared fields (top_level_field path)) && negb (bool_decide (top_level_field path = "*")) = false
  <-> known_path fields path.
Proof.
  unfold declared, known_path.
  rewrite andb_false_iff, !negb_false_iff, !bool_decide_eq_true. done.
Qed.

Lemma Forall_flat_map {A B} (f : A -> list B) (P : B -> Prop) l :
  Forall P (flat_map f l) <-> Forall (fun a => Forall P (f a)) l.
Proof.
  induction l as [|a l IH]; simpl; [by split; constructor|].
  by rewrite List.Forall_app, List.Forall_cons_iff, IH.
Qed.

Lemma Forall_iff_in {A} (P Q : A -> Prop) l :
  Forall (fun a => P a <-> Q a) l -> (Forall P l <-> Forall Q l).
Proof. induction 1 as [|a l Ha _ IH]; [done|]. by rewrite !List.Forall_cons_iff, Ha, IH. Qed.

Lemma condition_fields_nil c fields name :
  validate_condition_fields c fields name = [] <-> Forall (fun l => known_path fields (fst l)) (leaves c).
Proof.
  induction c as [cs IH|cs IH|f op] using condition_ind'; cbn [validate_condition_fields leaves].
  - rewrite flat_map_nil, Forall_flat_map. by apply Forall_iff_in.
  - rewrite flat_map_nil, Forall_flat_map. by apply Forall_iff_in.
  - cbv zeta. rewrite if_nil, unknown_path, List.Forall_cons_iff. naive_solver.
Qed.

Definition leaf_compiles (l : string * ConditionOp) : Prop :=
  match snd l with CMatch p => compiles p | _ => True end.

Lemma condition_regex_nil c name :
  validate_regex_in_condition c name = [] <-> Forall leaf_compiles (leaves c).
Proof.
  induction c as [cs IH|cs IH|f op] using condition_ind'; cbn [validate_regex_in_condition leaves].
  - rewrite flat_map_nil, Forall_flat_map. by apply Forall_iff_in.
  - rewrite flat_map_nil, Forall_flat_map. by apply Forall_iff_in.
  - rewrite List.Forall_cons_iff. unfold leaf_compiles. simpl.
    destruct op; rewrite ?regex_error_nil; naive_solver.
Qed.

Lemma rule_fields_nil fields rule :
  validate_rule_fields fields rule = [] <->
  known_path fields (rq_field (vr_require rule)) /\
  (forall other, cross_field_ref (rq_op (vr_require rule)) = Some other -> top_level_field other ∈ fields) /\
  (forall c, vr_when rule = Some c -> Forall (fun l => known_path fields (fst l)) (leaves c)).
Proof.
  unfold validate_rule_fields. cbv zeta. rewrite !app_nil, if_nil, unknown_path.
  apply and_iff_compat_l. apply Morphisms_Prop.and_iff_morphism.
  - destruct (cross_field_ref _) as [o|]; [|by split]. unfold declared.
    rewrite if_nil, negb_false_iff, bool_decide_eq_true. naive_solver.
  - destruct (vr_when rule) as [c|]; [|by split]. rewrite condition_fields_nil. naive_solver.
Qed.

Lemma requirement_regex_nil op name :
  validate_regex_in_requirement op name = [] <-> (forall p, op = RMatch p \/ op = RNotMatch p -> compiles p).
Proof. destruct op; simpl; rewrite ?regex_error_nil; naive_solver. Qed.

Lemma when_regex_nil when name :
  match when with Some c => validate_regex_in_condition c name | None => [] end = [] <->
  (forall c f p, when = Some c -> In (f, CMatch p) (leaves c) -> compiles p).
Proof.
  destruct when as [c|]; [|by split]. rewrite condition_regex_nil, List.Forall_forall. split.
  - intros Hall c' f p [= <-] Hin. exact (Hall _ Hin).
  - intros Hall [f op] Hin. unfold leaf_compiles. simpl. destruct op; try done. by eapply Hall.
Qed.

Lemma validate_rule_nil known rule : validate_rule known rule = [] <-> rule_ok known rule.
Proof.
  unfold validate_rule. rewrite !app_nil, !if_nil, requirement_regex_nil, when_regex_nil.
  rewrite andb_false_iff, bool_decide_eq_false, negb_false_iff, not_eq_None_Some.
  assert (Hk : match known with Some fields => validate_rule_fields fields rule | None => [] end = [] <->
    forall fields, known = Some fields -> validate_rule_fields fields rule = []).
  { destruct known as [fields|]; [|by split]. split; [by intros Hx ? [= <-] | by intros Hx; apply Hx]. }
  rewrite Hk. split.
  - intros (Hm & Hg & Hf & Hr & Hw). split; try done.
    + intros fields Hs. by apply (rule_fields_nil fields rule), Hf.
    + intros fields other Hs. by apply (rule_fields_nil fields rule), Hf.
    + intros fields c Hs. by apply (rule_fields_nil fields rule), Hf.
  - intros [Hm Hg Hq Hc Hw Hp Hwp]. split_and!; try done.
    intros fields Hs. apply rule_fields_nil. split_and!; [by apply Hq | by intros other; apply Hc |].
    intros c. by apply Hw.
Qed.

Lemma duplicate_names_nil rules seen :
  duplicate_names seen rules = [] <->
  NoDup (map vr_name rules) /\ forall n, n ∈ map vr_name rules -> n ∉ seen.
Proof.
  revert seen. induction rules as [|r rules IH]; intros seen; simpl.
  - split; [|done]. intros _. split; [constructor | set_solver].
  - rewrite list.NoDup_cons. case_bool_decide as Hin; [set_solver|]. rewrite IH. set_solver.
Qed.

(** Rule definitions are validated exactly: a schema's rules produce no
    error if and only if their names are distinct and every rule has a
    message that is not blank, names a gate or is advisory, refers only to
    declared fields (when the schema declares properties) in its requirement,
    its cross-field comparison and all leaves of its condition, and uses only
    patterns that compile. *)
Theorem rule_definitions_exact (rules : list ValidationRule) (entity_schema : option Value) :
  validate_rule_definitions rules entity_schema = [] <->
  NoDup (map vr_name rules) /\
  Forall (rule_ok (option_map (map fst)
                     ((entity_schema ≫= (fun s => value_get s "properties")) ≫= as_object))) rules.
Proof.
  unfold validate_rule_definitions. cbv zeta. rewrite app_nil, duplicate_names_nil, flat_map_nil.
  rewrite (Forall_iff_in _ (rule_ok (option_map (map fst)
    ((entity_schema ≫= (fun s => value_get s "properties")) ≫= as_object))) rules)
    by (apply List.Forall_forall; intros; apply validate_rule_nil).
  split; [naive_solver|]. intros [Hn Hr]. split; [|done]. split; [done|]. intros n _. apply not_elem_of_nil.
Qed.
End Definitions.

(** ** What rules mean *)

Section Meaning.
Context `{RuleEnv}.

(** [at_path v segs x]: following the fields [segs] leads from [v] to [x]. *)
Inductive at_path : Value -> list string -> Value -> Prop :=
| at_here v : at_path v [] v
| at_field fields k ks v x : assoc_get k fields = Some v -> at_path v ks x -> at_path (Object fields) (k :: ks) x.

Definition field_value (data : Value) (path : string) (v : Value) : Prop := at_path data (split_on dot path) v.

(** Numbers are compared as floats, strings byte by byte; nothing else compares. *)
Inductive compares : Value -> comparison -> Value -> Prop :=
| compares_numbers x y fx fy c :
    number_as_f64 x = Some fx -> number_as_f64 y = Some fy -> f64_partial_cmp fx fy = Some c ->
    compares (Number x) c (Number y)
| compares_strings x y : compares (JString x) (String.compare x y) (JString y).

Definition equals (v w : Value) : Prop := value_eqb v w = true.

Definition text_matches (v : Value) (pattern : string) : Prop :=
  exists s r, v = JString s /\ regex_new pattern = inl r /\ is_match r s = true.

(** What an operator of a condition asks of a value that is there. *)
Definition op_holds (op : ConditionOp) (v : Value) : Prop :=
  match op with
  | CEq w => equals v w
  | CNe w => ~ equals v w
  | CIn ws => Exists (equals v) ws
  | CNotNull flag => flag = true
  | CIsNull flag => flag = false
  | CGt w => compares v Gt w
  | CGte w => compares v Gt w \/ compares v Eq w
  | CLt w => compares v Lt w
  | CLte w => compares v Lt w \/ compares v Eq w
  | CMatch p => text_matches v p
  end.

Inductive condition_holds (data : Value) : RuleCondition -> Prop :=
| holds_all cs : Forall (condition_holds data) cs -> condition_holds data (CondAll cs)
| holds_any cs : Exists (condition_holds data) cs -> condition_holds data (CondAny cs)
| holds_field f op v : field_value data f v -> op_holds op v -> condition_holds data (CondField f op).

(** What a requirement asks of a value that is there; other fields are those of
    the document. *)
Definition requires (data : Value) (op : RequirementOp) (v : Value) : Prop :=
  match op with
  | RNotNull flag => flag = true
  | REq w => equals v w
  | RNe w => ~ equals v w
  | RIn ws => Exists (equals v) ws
  | RGtField f => exists w, field_value data f w /\ compares v Gt w
  | RGteField f => exists w, field_value data f w /\ (compares v Gt w \/ compares v Eq w)
  | RLtField f => exists w, field_value data f w /\ compares v Lt w
  | RLteField f => exists w, field_value data f w /\ (compares v Lt w \/ compares v Eq w)
  | RMatch p => text_matches v p
  | RNotMatch p => ~ text_matches v p
  | RMinLength n => exists s, v = JString s /\ n <= String.length s
  | RLte w => compares v Lt w \/ compares v Eq w
  end.

(** The rule applies to the document, and what it requires does not hold. *)
Definition violates (data : Value) (rule : ValidationRule) : Prop :=
  (forall c, vr_when rule = Some c -> condition_holds data c) /\
  ~ exists v, field_value data (rq_field (vr_require rule)) v /\ requires data (rq_op (vr_require rule)) v.

(** The field is there, and neither null nor an array. *)
Definition settled (data : Value) (path : string) : Prop :=
  exists v, field_value data path v /\ v <> Null /\ forall l, v <> Array l.

(** Every field that the rule mentions is. *)
Definition rule_settled (data : Value) (rule : ValidationRule) : Prop :=
  (forall c, vr_when rule = Some c -> Forall (fun l => settled data (fst l)) (leaves c)) /\
  settled data (rq_field (vr_require rule)) /\
  (forall f, cross_field_ref (rq_op (vr_require rule)) = Some f -> settled data f).

(** *** The evaluator follows the meaning *)

Lemma at_path_fold segs v x :
  at_path v segs x <-> fold_left (fun cur part => cur ≫= fun v => value_get v part) segs (Some v) = Some x.
Proof.
  revert v. induction segs as [|k ks IH]; intros v; cbn [fold_left].
  { split; [by inversion 1|]. intros [= ->]. constructor. }
  assert (Hnone : forall l, fold_left (fun cur part => cur ≫= fun v => value_get v part) l None = @None Value).
  { induction l; [done|]. done. }
  split.
  - inversion 1 as [|fields ? ? w ? Hk Hx]; subst. cbn [mbind option_bind value_get]. rewrite Hk. by apply IH.
  - cbn [mbind option_bind]. destruct v as [| | | | |fields]; cbn [value_get]; rewrite ?Hnone; try done.
    destruct (assoc_get k fields) as [w|] eqn:Hk; [|by rewrite Hnone]. intros Hf. econstructor; [done|]. by apply IH.
Qed.

Lemma field_get data path v : v <> Null -> field_value data path v <-> get_field data path = Some v.
Proof.
  intros Hn. unfold field_value, get_field. rewrite at_path_fold.
  destruct (fold_left _ _ _) as [w|]; [|done]. split; [intros [= ->]; by destruct v|]. by destruct w.
Qed.

Lemma field_unique data path v w : field_value data path v -> field_value data path w -> v = w.
Proof. unfold field_value. rewrite !at_path_fold. congruence. Qed.

Lemma compares_iff v c w : compare_values (Some v) (Some w) = Some c <-> compares v c w.
Proof.
  split.
  - destruct v, w; simpl; try done; [|intros [= <-]; constructor].
    destruct (number_as_f64 _) eqn:Hx; [|done]. destruct (number_as_f64 n0) eqn:Hy; [|done]. by econstructor.
  - destruct 1 as [x y fx fy c Hx Hy Hc|x y]; simpl; [by rewrite Hx, Hy|done].
Qed.

Lemma is_gt_iff v w : is_gt (compare_values (Some v) (Some w)) = true <-> compares v Gt w.
Proof. rewrite <-compares_iff. by destruct (compare_values _ _) as [[]|]. Qed.
Lemma is_lt_iff v w : is_lt (compare_values (Some v) (Some w)) = true <-> compares v Lt w.
Proof. rewrite <-compares_iff. by destruct (compare_values _ _) as [[]|]. Qed.
Lemma is_ge_iff v w : is_ge (compare_values (Some v) (Some w)) = true <-> compares v Gt w \/ compares v Eq w.
Proof. rewrite <-!compares_iff. destruct (compare_values _ _) as [[]|]; simpl; naive_solver. Qed.
Lemma is_le_iff v w : is_le (compare_values (Some v) (Some w)) = true <-> compares v Lt w \/ compares v Eq w.
Proof. rewrite <-!compares_iff. destruct (compare_values _ _) as [[]|]; simpl; naive_solver. Qed.

Lemma among_iff v ws : is_among (Some v) ws = true <-> Exists (equals v) ws.
Proof.
  unfold is_among. by rewrite existsb_exists, List.Exists_exists.
Qed.

Lemma matches_iff v p : matches_pattern (Some v) p = true <-> text_matches v p.
Proof.
  unfold matches_pattern, text_matches. split.
  - destruct v; simpl; try done. destruct (regex_new p) eqn:Hr; [|done]. eauto.
  - intros (s & r & -> & Hr & Hm). simpl. by rewrite Hr.
Qed.

Lemma negb_iff (b : bool) (P : Prop) : (b = true <-> P) -> negb b = true <-> ~ P.
Proof. destruct b; simpl; naive_solver. Qed.

Lemma condition_op_meaning op v : v <> Null -> evaluate_condition_op op (Some v) = true <-> op_holds op v.
Proof.
  intros Hn. destruct op as [w|w|ws|flag|flag|w|w|w|w|p]; cbn [evaluate_condition_op op_holds].
  - done.
  - by apply negb_iff.
  - apply among_iff.
  - destruct v; [done|..]; destruct flag; by split.
  - destruct v; [done|..]; destruct flag; by split.
  - apply is_gt_iff.
  - apply is_ge_iff.
  - apply is_lt_iff.
  - apply is_le_iff.
  - apply matches_iff.
Qed.

Lemma condition_meaning data c :
  Forall (fun l => settled data (fst l)) (leaves c) -> evaluate_condition c data = true <-> condition_holds data c.
Proof.
  induction c as [cs IH|cs IH|f op] using condition_ind'; cbn [leaves evaluate_condition]; intros Hs.
  - apply Forall_flat_map in Hs. rewrite forallb_forall.
    assert (Hc : Forall (fun c => evaluate_condition c data = true) cs <-> Forall (condition_holds data) cs).
    { apply Forall_iff_in. rewrite List.Forall_forall in *. auto. }
    rewrite List.Forall_forall in Hc. rewrite Hc. split; [by constructor|by inversion 1].
  - apply Forall_flat_map in Hs. rewrite existsb_exists. rewrite List.Forall_forall in IH, Hs. split.
    + intros (c & Hin & He). constructor. apply List.Exists_exists. exists c. split; [done|]. by apply IH; auto.
    + inversion 1 as [|? Hx|]; subst. apply List.Exists_exists in Hx as (c & Hin & Hh). exists c.
      split; [done|]. by apply IH; auto.
  - inversion Hs as [|? ? (v & Hv & Hn & _) _]; subst. cbn [fst] in Hv.
    rewrite (proj1 (field_get data f v Hn) Hv), condition_op_meaning by done. split.
    + intros Hop. by econstructor.
    + inversion 1 as [| |? ? w Hw Hop]; subst. by rewrite (field_unique data f v w).
Qed.

Lemma cross_meaning data f (test : option comparison -> bool) (P : Value -> Prop) v :
  settled data f -> (forall w, test (compare_values (Some v) (Some w)) = true <-> P w) ->
  test (compare_values (Some v) (get_field data f)) = true <-> exists w, field_value data f w /\ P w.
Proof.
  intros (w & Hw & Hn & _) HP. rewrite (proj1 (field_get data f w Hn) Hw), HP. split; [by exists w|].
  intros (w' & Hw' & Hp). by rewrite (field_unique data f w w').
Qed.

Lemma requirement_meaning data req :
  settled data (rq_field req) -> (forall f, cross_field_ref (rq_op req) = Some f -> settled data f) ->
  evaluate_requirement req data = true <->
  exists v, field_value data (rq_field req) v /\ requires data (rq_op req) v.
Proof.
  intros (v & Hv & Hn & _) Hcross. unfold evaluate_requirement. rewrite (proj1 (field_get data _ v Hn) Hv).
  assert (Hone : requires data (rq_op req) v <->
    exists w, field_value data (rq_field req) w /\ requires data (rq_op req) w).
  { split; [by exists v|]. intros (w & Hw & Hr). by rewrite (field_unique data _ v w Hv Hw). }
  rewrite <-Hone. clear Hone.
  destruct (rq_op req) as [flag|w|w|ws|f|f|f|f|p|p|n|w]; cbn [requires cross_field_ref] in *.
  - destruct v; [done|..]; destruct flag; by split.
  - done.
  - by apply negb_iff.
  - apply among_iff.
  - apply cross_meaning; [by apply Hcross|intros; apply is_gt_iff].
  - apply cross_meaning; [by apply Hcross|intros; apply is_ge_iff].
  - apply cross_meaning; [by apply Hcross|intros; apply is_lt_iff].
  - apply cross_meaning; [by apply Hcross|intros; apply is_le_iff].
  - apply matches_iff.
  - rewrite <-matches_iff. unfold matches_pattern. destruct v; simpl; try (split; done).
    destruct (regex_new p) as [r|e]; [|split; done]. by destruct (is_match r s).
  - destruct v; simpl; try (split; [done|by intros (? & ? & _)]). rewrite Nat.leb_le. naive_solver.
  - apply is_le_iff.
Qed.

Lemma fires_meaning data rule : rule_settled data rule -> fires rule data = true <-> violates data rule.
Proof.
  intros (Hw & Hr & Hx). unfold fires, violates. rewrite andb_true_iff.
  rewrite (negb_iff _ _ (requirement_meaning data (vr_require rule) Hr Hx)).
  apply Morphisms_Prop.and_iff_morphism; [|done].
  destruct (vr_when rule) as [c|]; [|naive_solver]. rewrite (condition_meaning data c) by auto. naive_solver.
Qed.

(** C30. Rule evaluation is exact on documents in which every field that a rule
    mentions is there, and neither null nor an array.  When moreover the values
    substituted in the fixes contain no opening brace, evaluating the rules
    finishes (with one iteration more than a template has opening braces) and
    reports, in order, one violation for each rule that applies, because it has no
    condition or its condition holds, and whose requirement does not hold, with
    the fix text that a single left-to-right pass over the template gives.
    Conditions and requirements have the meaning of the operators' table: JSON
    equality, membership, order of numbers and of strings, matching of strings,
    all and any.  Absent and null fields, on which the code and FEAT-019 differ,
    are among the findings. *)
Theorem evaluate_rules_exact (fuel : nat) (rules : list ValidationRule) (data : Value)
    (Hfix : Forall (fix_bounded fuel data) rules)
    (Hsettled : Forall (rule_settled data) rules) :
  exists violated : ValidationRule -> bool,
    (forall rule, In rule rules -> violated rule = true <-> violates data rule) /\
    evaluate_rules fuel rules data = Some (map (fun rule => violation rule data) (List.filter violated rules)).
Proof.
  exists (fun rule => fires rule data). split; [|by apply evaluate_rules_fires].
  intros rule Hin. apply fires_meaning. by apply (proj1 (List.Forall_forall _ _) Hsettled).
Qed.
End Meaning.
