(* ===== verification/Gates.v ===== *)
(** * Validation gates *)

From S2P Require Import Prelude Json Ids Types IndexKeys Intents Schema Rules.
From stdpp Require Import relations.
Local Open Scope axon_scope.

(** ** Validation gates ([crates/axon-schema/src/gates.rs])

    Grouping of rule violations by gate and the transitive inclusion of gates.
    The inclusion loop runs on a work list; its bound is the number of include
    entries, which the theorem on it shows to be enough. *)

(** ** Inclusion *)

Definition includes_of (gates : gmap string GateDef) (gate : string) : list string :=
  match gates !! gate with Some d => gd_includes d | None => [] end.

(** The loop of [resolve_includes]; the head of [stack] is the next element to
    pop. *)
Fixpoint resolve_loop (fuel : nat) (gates : gmap string GateDef) (stack : list string)
    (visited : gset string) (resolved : list string) : option (list string) :=
  match fuel with
  | O => None
  | S fuel' =>
      match stack with
      | [] => Some resolved
      | current :: stack' =>
          if decide (current ∈ visited) then resolve_loop fuel' gates stack' visited resolved
          else
            let visited' := {[current]} ∪ visited in
            resolve_loop fuel' gates
              (reverse (filter (fun inc => inc ∉ visited') (includes_of gates current)) ++ stack')
              visited' (resolved ++ [current])
      end
  end.

(** Include entries of the gates not yet visited. *)
Definition pending (visited : gset string) (l : list (string * GateDef)) : nat :=
  sum_list_with (fun p => if decide (p.1 ∈ visited) then 0 else length (gd_includes p.2)) l.

Definition include_bound (gates : gmap string GateDef) (gate : string) : nat :=
  S (length (includes_of gates gate) + pending ∅ (map_to_list gates)).

(** [resolve_includes] *)
Definition resolve_includes (gates : gmap string GateDef) (gate : string) : option (list string) :=
  resolve_loop (include_bound gates gate) gates (reverse (includes_of gates gate)) ∅ [].







(** ** Evaluation *)

Section Gates.
Context `{RuleEnv}.

Record GateEvaluation : Type := {
  ge_save_violations : list RuleViolation;
  ge_gate_results : gmap string GateResult;
  ge_advisories : list RuleViolation
}.

(** [GateEvaluation::save_passes] *)
Definition save_passes (ev : GateEvaluation) : bool :=
  match ge_save_violations ev with [] => true | _ => false end.

(** Violations by destination, as the first loop collects them. *)
Record Buckets : Type := {
  bk_save : list RuleViolation;
  bk_by_gate : gmap string (list RuleViolation);
  bk_advisories : list RuleViolation
}.

(** One violation pushed where its rule says. *)
Definition push_violation (rule : ValidationRule) (v : RuleViolation) (b : Buckets) : Buckets :=
  if vr_advisory rule
  then {| bk_save := bk_save b; bk_by_gate := bk_by_gate b; bk_advisories := bk_advisories b ++ [v] |}
  else
    match vr_gate rule with
    | Some gate =>
        if decide (gate = "save")
        then {| bk_save := bk_save b ++ [v]; bk_by_gate := bk_by_gate b;
                bk_advisories := bk_advisories b |}
        else {| bk_save := bk_save b;
                bk_by_gate := <[gate := default [] (bk_by_gate b !! gate) ++ [v]]> (bk_by_gate b);
                bk_advisories := bk_advisories b |}
    | None => b
    end.

(** The first loop of [evaluate_gates]. *)
Fixpoint bucket (fuel : nat) (rules : list ValidationRule) (data : Value) (b : Buckets)
  : option Buckets :=
  match rules with
  | [] => Some b
  | rule :: rest =>
      match evaluate_rule fuel rule data with
      | None => None
      | Some o => bucket fuel rest data (match o with Some v => push_violation rule v b | None => b end)
      end
  end.

(** The names of all gates but [save]. *)
Definition all_gates (rules : list ValidationRule) (gates : gmap string GateDef) : gset string :=
  (list_to_set (omap vr_gate rules) ∪ dom gates) ∖ {["save"]}.

(** The result of one gate. *)
Definition gate_result (by_gate : gmap string (list RuleViolation)) (gates : gmap string GateDef)
    (gate : string) : option GateResult :=
  match resolve_includes gates gate with
  | None => None
  | Some included =>
      let failures := default [] (by_gate !! gate) ++
                      flat_map (fun g => default [] (by_gate !! g)) included in
      Some {| gr_gate := gate;
              gr_pass := match failures with [] => true | _ => false end;
              gr_failures := failures |}
  end.

Fixpoint gate_results (by_gate : gmap string (list RuleViolation)) (gates : gmap string GateDef)
    (names : list string) : option (gmap string GateResult) :=
  match names with
  | [] => Some ∅
  | gate :: rest =>
      match gate_result by_gate gates gate, gate_results by_gate gates rest with
      | Some r, Some m => Some (<[gate := r]> m)
      | _, _ => None
      end
  end.

(** [evaluate_gates]; [None] when a fix could not be interpolated within the
    bound. *)
Definition evaluate_gates (fuel : nat) (rules : list ValidationRule) (gates : gmap string GateDef)
    (data : Value) : option GateEvaluation :=
  match bucket fuel rules data {| bk_save := []; bk_by_gate := ∅; bk_advisories := [] |} with
  | None => None
  | Some b =>
      match gate_results (bk_by_gate b) gates (elements (all_gates rules gates)) with
      | None => None
      | Some results =>
          Some {| ge_save_violations := bk_save b; ge_gate_results := results;
                  ge_advisories := bk_advisories b |}
      end
  end.

(** *** Properties *)











End Gates.

(** ** Rules and gates on concrete schemas

    Instances of the theorems on rules and gates, and the behaviour of a cyclic
    inclusion. *)

(** Patterns that match only themselves; an opening bracket does not compile. *)
#[export] Instance literal_env : RuleEnv (H := simple_serde_number) := {|
  Regex := string;
  regex_new p := if contains_char (Ascii.Ascii true true false true true false true false) p
                 then inr "unclosed class" else inl p;
  is_match r s := bool_decide (r = s);
  value_text _ := "<value>";
  condition_op_debug _ := "<op>"
|}.

Section Examples.
Local Existing Instance simple_serde_number.

(** Open tasks need an owner; the fix quotes the title. *)
Definition owner_rule (gate : string) : ValidationRule :=
  {| vr_name := "owner"; vr_gate := Some gate; vr_advisory := false;
     vr_when := Some (CondField "state" (CEq (JString "open")));
     vr_require := {| rq_field := "owner"; rq_op := RNotNull true |};
     vr_message := "open tasks need an owner"; vr_fix := Some "set owner of {title}" |}.

Definition task (title : string) : Value :=
  Object [("state", JString "open"); ("title", JString title)].


(** Open tasks need a longer title. *)
Definition title_rule : ValidationRule :=
  {| vr_name := "title"; vr_gate := Some "save"; vr_advisory := false;
     vr_when := Some (CondField "state" (CEq (JString "open")));
     vr_require := {| rq_field := "title"; rq_op := RMinLength 10 |};
     vr_message := "the title is short"; vr_fix := Some "say more than {title}" |}.

Lemma title_bounded : fix_bounded 2 (task "ship it") title_rule.
Proof.
  intros f [= <-]. split; [|by vm_compute; lia].
  unfold values_plain. repeat constructor.
Qed.

Lemma task_field field text : field_value (task "ship it") field (JString text) -> settled (task "ship it") field.
Proof. intros Hf. by exists (JString text). Qed.

Lemma title_settled : rule_settled (task "ship it") title_rule.
Proof.
  assert (Hstate : settled (task "ship it") "state").
  { apply (task_field _ "open"). econstructor; [reflexivity|constructor]. }
  assert (Htitle : settled (task "ship it") "title").
  { apply (task_field _ "ship it"). econstructor; [reflexivity|constructor]. }
  split; [|by split]. intros c [= <-]. by repeat constructor.
Qed.

Lemma evaluate_rules_exact_witness :
  violates (task "ship it") title_rule /\
  option_map (map rv_fix) (evaluate_rules 2 [title_rule] (task "ship it")) = Some [Some "say more than ship it"].
Proof.
  destruct (evaluate_rules_exact 2 [title_rule] (task "ship it")) as (violated & Hv & He).
  - constructor; [apply title_bounded|constructor].
  - constructor; [apply title_settled|constructor].
  - assert (E : option_map (map rv_fix) (evaluate_rules 2 [title_rule] (task "ship it")) =
      Some [Some "say more than ship it"]) by vm_refl.
    split; [|exact E]. apply (Hv title_rule); [by left|]. rewrite He in E. cbn [List.filter] in E.
    by destruct (violated title_rule).
Defined.

Lemma interpolate_fix_diverges_witness :
  interpolate_fix 1000 "set owner of {title}" (task "{title}") = None.
Proof.
  exact (interpolate_fix_diverges (task "{title}") "title" "set owner of " EmptyString
    eq_refl eq_refl eq_refl 1000).
Defined.



Definition cyclic_gates : gmap string GateDef :=
  {["review" := {| gd_description := None; gd_includes := ["complete"] |};
    "complete" := {| gd_description := None; gd_includes := ["review"] |}]}.

(** On an inclusion cycle a gate counts as included in itself, and its own
    failures are reported twice.  The documentation of [resolve_includes] says
    that the list does not contain the gate itself, and FEAT-019 that cycles
    are rejected when the schema is saved, which the rule validation does not
    check. *)
Theorem include_cycle_duplicates_failures :
  resolve_includes cyclic_gates "complete" = Some ["review"; "complete"] /\
  option_map (fun ev => option_map (fun r => map rv_rule (gr_failures r))
                          (ge_gate_results ev !! "complete"))
    (evaluate_gates 2 [owner_rule "complete"] cyclic_gates (task "ship it")) =
    Some (Some ["owner"; "owner"]) /\
  validate_rule_definitions [owner_rule "complete"] None = [].
Proof. split_and!; vm_refl. Qed.
End Examples.
