(* ===== verification/JsonOps.v ===== *)
(** * JSON updates of the request handler ([crates/axon-api/src/handler.rs])

    Merge patches, dotted paths, value comparison and the redaction of fields
    on reads.  A [serde_json] object is a [BTreeMap]: its entries are kept in
    key order, and updates are those of an ordered map. *)

From S2P Require Import Prelude Json Ids Types Schema PolicyPlan Rules.
Local Open Scope axon_scope.

Section JsonOps.
Context `{SerdeNumber}.

(** ** Objects as ordered maps *)

(** [Map::insert] *)
Fixpoint map_insert (k : string) (v : Value) (l : list (string * Value)) : list (string * Value) :=
  match l with
  | [] => [(k, v)]
  | (k', v') :: l' =>
      match String.compare k k' with
      | Lt => (k, v) :: l
      | Eq => (k, v) :: l'
      | Gt => (k', v') :: map_insert k v l'
      end
  end.

(** [Map::remove] *)
Definition map_remove (k : string) (l : list (string * Value)) : list (string * Value) :=
  List.filter (fun e => negb (bool_decide (fst e = k))) l.

(** ** Merge patches *)

(** [json_merge_patch]; the target is returned.  The loop over the patch
    updates one key at a time. *)
Fixpoint json_merge_patch (target patch : Value) {struct patch} : Value :=
  match patch with
  | Object patch_map =>
      let target_map := match target with Object m => m | _ => [] end in
      Object
        (fold_left (fun target_map (e : string * Value) =>
           match e with
           | (key, value) =>
               if is_null value then map_remove key target_map
               else map_insert key
                      (json_merge_patch (default Null (assoc_get key target_map)) value) target_map
           end) patch_map target_map)
  | _ => patch
  end.

(** ** Paths *)

Fixpoint collect_policy_values_at_path (segments : list string) (value : Value) : list Value :=
  match segments with
  | [] => [value]
  | segment :: rest =>
      match str_strip_suffix "[]" segment with
      | Some field =>
          match value_get value field with
          | Some v =>
              match as_array v with
              | Some items => flat_map (collect_policy_values_at_path rest) items
              | None => []
              end
          | None => []
          end
      | None =>
          match value_get value segment with
          | Some next => collect_policy_values_at_path rest next
          | None => []
          end
      end
  end.

Definition policy_values_at_path (data : Value) (path : string) : list Value :=
  collect_policy_values_at_path (split_on dot path) data.

(** The loop of [get_field_value]. *)
Fixpoint get_segments (cur : Value) (segments : list string) : option Value :=
  match segments with
  | [] => Some cur
  | segment :: rest =>
      match value_get cur segment with
      | Some next => get_segments next rest
      | None => None
      end
  end.

Definition get_field_value (data : Value) (path : string) : option Value :=
  get_segments data (split_on dot path).

Fixpoint patch_touches_segments (patch : Value) (segments : list string) : bool :=
  match segments with
  | [] => true
  | segment :: rest =>
      match as_object patch with
      | None => true
      | Some object =>
          match assoc_get segment object with
          | None => false
          | Some child =>
              if bool_decide (rest = []) || is_null child then true
              else patch_touches_segments child rest
          end
      end
  end.

Definition patch_touches_field_path (patch : Value) (field_path : string) : bool :=
  patch_touches_segments patch (map strip_brackets (split_on dot field_path)).

(** ** Comparison *)

Definition values_eq (a b : option Value) : bool :=
  match a, b with
  | Some av, Some bv => value_eqb av bv
  | None, None => true
  | _, _ => false
  end.

(** A number without a float value counts as NaN, and NaN as equal. *)
(** [compare_values] *)
Definition handler_compare_values (a b : option Value) : comparison :=
  match a, b with
  | Some (Number an), Some (Number bn) =>
      match number_as_f64 an, number_as_f64 bn with
      | Some af, Some bf => default Eq (f64_partial_cmp af bf)
      | _, _ => Eq
      end
  | Some (JString x), Some (JString y) => String.compare x y
  | Some (Bool x), Some (Bool y) => bool_compare x y
  | Some Null, Some Null => Eq
  | Some Null, Some _ => Lt
  | Some _, Some Null => Gt
  | None, None => Eq
  | None, Some _ => Lt
  | Some _, None => Gt
  | _, _ => Eq
  end.

(** ** Policy data *)

(** [object.entry("_id").or_insert_with(..)]: a field of that name wins. *)
Definition policy_data_with_entity_id (entity_id : EntityId) (source : Value) : Value :=
  match source with
  | Object fields =>
      match assoc_get "_id" fields with
      | Some _ => Object fields
      | None => Object (map_insert "_id" (JString entity_id) fields)
      end
  | _ => source
  end.

Definition entity_policy_data (entity : Entity) : Value :=
  policy_data_with_entity_id (e_id entity) (e_data entity).

(** ** Redaction *)

(** [redact_json_segments]: redacts under [segments], creating missing
    containers; an array is entered at every segment. *)
Fixpoint redact_json_segments (segments : list string) (redaction : Value) (data : Value) {struct segments}
    : Value :=
  match segments with
  | [] => data
  | segment :: rest =>
      (fix at_segment (data : Value) : Value :=
         match data with
         | Array items => Array (map at_segment items)
         | Object object =>
             match str_strip_suffix "[]" segment with
             | Some field =>
                 if bool_decide (rest = []) then Object (map_insert field redaction object)
                 else
                   match assoc_get field object with
                   | Some (Array items) =>
                       Object (map_insert field (Array (map (redact_json_segments rest redaction) items)) object)
                   | _ => data
                   end
             | None =>
                 if bool_decide (rest = []) then Object (map_insert segment redaction object)
                 else
                   let child := default (Object []) (assoc_get segment object) in
                   Object (map_insert segment (redact_json_segments rest redaction child) object)
             end
         | _ => data
         end) data
  end.

(** [redact_existing_json_segments]: only replaces what is there. *)
Fixpoint redact_existing_json_segments (segments : list string) (redaction : Value) (data : Value)
    {struct segments} : Value :=
  match segments with
  | [] => data
  | segment :: rest =>
      (fix at_segment (data : Value) : Value :=
         match data with
         | Array items => Array (map at_segment items)
         | Object object =>
             match str_strip_suffix "[]" segment with
             | Some field =>
                 match assoc_get field object with
                 | None => data
                 | Some value =>
                     if bool_decide (rest = []) then Object (map_insert field redaction object)
                     else
                       match value with
                       | Array items =>
                           Object (map_insert field
                             (Array (map (redact_existing_json_segments rest redaction) items)) object)
                       | _ => data
                       end
                 end
             | None =>
                 match assoc_get segment object with
                 | None => data
                 | Some value =>
                     if bool_decide (rest = []) then Object (map_insert segment redaction object)
                     else Object (map_insert segment (redact_existing_json_segments rest redaction value) object)
                 end
             end
         | _ => data
         end) data
  end.

Definition redact_json_path (data : Value) (path : string) (redaction : Value) : Value :=
  redact_json_segments (split_on dot path) redaction data.

Definition redact_existing_json_path (data : Value) (path : string) (redaction : Value) : Value :=
  redact_existing_json_segments (split_on dot path) redaction data.

Definition apply_field_redactions (data : Value) (redactions : list (string * Value)) : Value :=
  fold_left (fun data r => redact_json_path data (fst r) (snd r)) redactions data.

Definition apply_existing_field_redactions (data : Value) (redactions : list (string * Value)) : Value :=
  fold_left (fun data r => redact_existing_json_path data (fst r) (snd r)) redactions data.

(** ** Lookups *)

Lemma assoc_get_insert_eq k v (l : list (string * Value)) : assoc_get k (map_insert k v l) = Some v.
Proof.
  induction l as [|[k' v'] l IH]; simpl; [by rewrite decide_True|].
  destruct (String.compare k k') eqn:E; simpl; [by rewrite decide_True..|].
  rewrite decide_False; [exact IH|]. intros ->. by rewrite string_compare_memcmp, memcmp_refl in E.
Qed.

Lemma assoc_get_insert_ne k k' v (l : list (string * Value)) :
  k' <> k -> assoc_get k' (map_insert k v l) = assoc_get k' l.
Proof.
  intros Hne. induction l as [|[k2 v2] l IH]; simpl; [by rewrite decide_False|].
  destruct (String.compare k k2) eqn:E; simpl.
  - apply String.compare_eq_iff in E as ->. by rewrite !decide_False.
  - by rewrite decide_False.
  - by case_decide.
Qed.

Lemma assoc_get_remove_eq k (l : list (string * Value)) : assoc_get k (map_remove k l) = None.
Proof.
  induction l as [|[k' v'] l IH]; simpl; [done|]. case_bool_decide as Hk; simpl; [exact IH|].
  rewrite decide_False by congruence. exact IH.
Qed.

Lemma assoc_get_remove_ne k k' (l : list (string * Value)) :
  k' <> k -> assoc_get k' (map_remove k l) = assoc_get k' l.
Proof.
  intros Hne. induction l as [|[k2 v2] l IH]; simpl; [done|]. case_bool_decide as Hk; simpl.
  - subst. by rewrite decide_False.
  - case_decide; [done|exact IH].
Qed.

Lemma assoc_get_not_in k (l : list (string * Value)) : k ∉ map fst l -> assoc_get k l = None.
Proof.
  induction l as [|[k' v'] l IH]; simpl; [done|]. rewrite not_elem_of_cons. intros [Hne Hni].
  rewrite decide_False by done. auto.
Qed.

(** ** Well-formed values *)

Fixpoint sorted_keys (l : list (string * Value)) : bool :=
  match l with
  | (k, _) :: (((k', _) :: _) as l') =>
      match String.compare k k' with Lt => sorted_keys l' | _ => false end
  | _ => true
  end.

(** Every object is an ordered map: its keys increase. *)
Fixpoint value_wf (v : Value) : bool :=
  match v with
  | Array items => forallb value_wf items
  | Object fields => sorted_keys fields && forallb (fun e => match e with (_, v) => value_wf v end) fields
  | _ => true
  end.

Lemma string_compare_trans a b c :
  String.compare a b = Lt -> String.compare b c = Lt -> String.compare a c = Lt.
Proof.
  rewrite !string_compare_memcmp. apply memcmp_lt_trans.
Qed.

Lemma sorted_keys_lt k v (l : list (string * Value)) :
  sorted_keys ((k, v) :: l) = true -> Forall (fun k' => String.compare k k' = Lt) (map fst l).
Proof.
  revert k v. induction l as [|[k' v'] l IH]; intros k v; [constructor|].
  simpl. destruct (String.compare k k') eqn:E; try done. intros Hs. constructor; [done|].
  apply List.Forall_forall. intros x Hx. eapply string_compare_trans; [exact E|].
  exact (proj1 (List.Forall_forall _ _) (IH k' v' Hs) x Hx).
Qed.

Lemma sorted_keys_tail e (l : list (string * Value)) : sorted_keys (e :: l) = true -> sorted_keys l = true.
Proof. destruct e as [k v], l as [|[k' v'] l]; simpl; [done|]. by destruct (String.compare k k'). Qed.

Lemma sorted_keys_nodup (l : list (string * Value)) : sorted_keys l = true -> base.NoDup (map fst l).
Proof.
  induction l as [|[k v] l IH]; intros Hs; simpl; constructor.
  - intros Hin%list_elem_of_In. pose proof (sorted_keys_lt _ _ _ Hs) as Hlt.
    apply (proj1 (List.Forall_forall _ _) Hlt) in Hin. simpl in Hin.
    by rewrite string_compare_memcmp, memcmp_refl in Hin.
  - apply IH. by eapply sorted_keys_tail.
Qed.

Lemma wf_object_nodup entries : value_wf (Object entries) = true -> base.NoDup (map fst entries).
Proof. intros [Hs _]%andb_prop. by apply sorted_keys_nodup. Qed.

Lemma assoc_get_In k (l : list (string * Value)) v : assoc_get k l = Some v -> In (k, v) l.
Proof.
  induction l as [|[k' v'] l IH]; simpl; [done|]. case_decide; [|by right; auto].
  intros [= <-]. left. by subst.
Qed.

Lemma wf_object_get entries k v :
  value_wf (Object entries) = true -> assoc_get k entries = Some v -> value_wf v = true.
Proof.
  intros [_ Hf]%andb_prop Hk%assoc_get_In. rewrite forallb_forall in Hf. by apply (Hf _ Hk).
Qed.

(** ** Merge patches on lookups *)

(** One round of the loop. *)
Definition merge_entry (target_map : list (string * Value)) (e : string * Value) : list (string * Value) :=
  let (key, value) := e in
  if is_null value then map_remove key target_map
  else map_insert key (json_merge_patch (default Null (assoc_get key target_map)) value) target_map.

Arguments merge_entry : simpl never.

Definition merged_entry (old new : option Value) : option Value :=
  match new with
  | None => old
  | Some Null => None
  | Some v => Some (json_merge_patch (default Null old) v)
  end.

Lemma merge_entry_get m e k :
  assoc_get k (merge_entry m e) = if decide (k = fst e) then merged_entry (assoc_get k m) (Some (snd e))
                                  else assoc_get k m.
Proof.
  destruct e as [key v]. unfold merge_entry. simpl. case_decide as Hk.
  - subst. destruct v; simpl; try apply assoc_get_insert_eq. apply assoc_get_remove_eq.
  - destruct (is_null v); [by apply assoc_get_remove_ne | by apply assoc_get_insert_ne].
Qed.

Lemma merge_entries_get entries m k :
  base.NoDup (map fst entries) ->
  assoc_get k (fold_left merge_entry entries m) = merged_entry (assoc_get k m) (assoc_get k entries).
Proof.
  revert m. induction entries as [|[key v] entries IH]; intros m; simpl; [done|].
  intros [Hni Hnd]%list.NoDup_cons. rewrite IH by done. rewrite merge_entry_get. simpl.
  case_decide as Hk; [|done]. subst. by rewrite (assoc_get_not_in key entries Hni).
Qed.

Lemma json_merge_patch_object target entries :
  json_merge_patch target (Object entries) =
  Object (fold_left merge_entry entries (match target with Object m => m | _ => [] end)).
Proof. done. Qed.

Lemma value_get_merge target entries k :
  base.NoDup (map fst entries) ->
  value_get (json_merge_patch target (Object entries)) k =
  merged_entry (value_get target k) (assoc_get k entries).
Proof.
  intros Hnd. rewrite json_merge_patch_object. simpl. rewrite merge_entries_get by done.
  by destruct target.
Qed.

(** A patch that does not touch a path of plain fields leaves its values as
    they were. *)
Lemma untouched_segments segments : forall target patch,
  value_wf patch = true -> Forall (fun s => str_strip_suffix "[]" s = None) segments ->
  patch_touches_segments patch (map strip_brackets segments) = false ->
  collect_policy_values_at_path segments (json_merge_patch target patch) =
  collect_policy_values_at_path segments target.
Proof.
  induction segments as [|seg rest IH]; intros target patch Hwf Hplain Ht; [done|].
  inversion Hplain as [|? ? Hs Hrest]; subst. simpl in Ht. unfold strip_brackets in Ht at 1.
  rewrite Hs in Ht. simpl in Ht.
  destruct patch as [| | | | |entries]; try done. simpl in Ht.
  cbn [collect_policy_values_at_path]. rewrite Hs.
  rewrite value_get_merge by (by apply wf_object_nodup).
  destruct (assoc_get seg entries) as [child|] eqn:Ec; [|done].
  destruct (bool_decide (map strip_brackets rest = []) || is_null child) eqn:El; [done|].
  apply orb_false_iff in El as [Er Hnull]. apply bool_decide_eq_false in Er.
  assert (Hm : merged_entry (value_get target seg) (Some child) =
               Some (json_merge_patch (default Null (value_get target seg)) child)) by by destruct child.
  rewrite Hm, IH; [|by eapply wf_object_get|done|done].
  destruct (value_get target seg); [done|]. simpl. destruct rest as [|s rest]; [done|].
  inversion Hrest as [|? ? Hs' _]; subst. simpl. by rewrite Hs'.
Qed.

(** ** Redaction hides what it replaces *)

Lemma map_insert_insert k v1 v2 (l : list (string * Value)) :
  map_insert k v2 (map_insert k v1 l) = map_insert k v2 l.
Proof.
  assert (Hk : String.compare k k = Eq) by by rewrite string_compare_memcmp, memcmp_refl.
  induction l as [|[k' v'] l IH]; simpl; [by rewrite Hk|].
  destruct (String.compare k k') eqn:E; simpl; [by rewrite Hk..|]. by rewrite E, IH.
Qed.

Lemma value_ind' (P : Value -> Prop) :
  P Null -> (forall b, P (Bool b)) -> (forall n, P (Number n)) -> (forall s, P (JString s)) ->
  (forall l, Forall P l -> P (Array l)) -> (forall fs, P (Object fs)) -> forall v, P v.
Proof.
  intros H1 H2 H3 H4 H5 H6. fix IH 1.
  intros [|b|n|s|l|fs]; [exact H1 | apply H2 | apply H3 | apply H4 | | apply H6].
  apply H5. induction l as [|v l IHl]; constructor; [apply IH | exact IHl].
Qed.

Lemma redact_absorbs segments r1 r2 : forall data,
  redact_json_segments segments r2 (redact_json_segments segments r1 data) =
  redact_json_segments segments r2 data.
Proof.
  induction segments as [|seg rest IH]; [done|].
  intros data. induction data as [|b|n|s|l IHl|fs] using value_ind'; try done.
  - simpl. f_equal. rewrite map_map. apply map_ext_Forall. exact IHl.
  - cbn [redact_json_segments]. destruct (str_strip_suffix "[]" seg) as [field|] eqn:Es.
    + case_bool_decide as Hr; [by rewrite map_insert_insert|].
      destruct (assoc_get field fs) as [[| | | |items|]|] eqn:E; rewrite ?E; try done.
      rewrite assoc_get_insert_eq, map_insert_insert, map_map. do 3 f_equal.
      apply map_ext. exact IH.
    + case_bool_decide as Hr; [by rewrite map_insert_insert|].
      rewrite assoc_get_insert_eq, map_insert_insert. simpl. by rewrite IH.
Qed.

(** ** Merge patches keep objects ordered *)

Lemma sorted_cons k v (l : list (string * Value)) :
  Forall (fun k' => String.compare k k' = Lt) (map fst l) -> sorted_keys l = true ->
  sorted_keys ((k, v) :: l) = true.
Proof.
  destruct l as [|[k' v'] l]; [done|]. intros Hl Hs. inversion Hl as [|? ? Hk _]; subst.
  simpl. by rewrite Hk.
Qed.

Lemma map_insert_keys k v (l : list (string * Value)) x :
  In x (map fst (map_insert k v l)) -> x = k \/ In x (map fst l).
Proof.
  induction l as [|[k' v'] l IH]; simpl; [by intros [<-|[]]; left|].
  destruct (String.compare k k') eqn:E; simpl.
  - intros [<-|Hin]; auto.
  - intros [<-|Hin]; auto.
  - intros [<-|Hin]; [by auto|]. destruct (IH Hin); auto.
Qed.

Lemma map_insert_sorted k v (l : list (string * Value)) :
  sorted_keys l = true -> sorted_keys (map_insert k v l) = true.
Proof.
  induction l as [|[k' v'] l IH]; [done|]. intros Hs.
  pose proof (sorted_keys_lt _ _ _ Hs) as Hlt. pose proof (sorted_keys_tail _ _ Hs) as Ht.
  cbn [map_insert]. destruct (String.compare k k') eqn:E.
  - apply String.compare_eq_iff in E as ->. by apply sorted_cons.
  - apply sorted_cons; [|done]. constructor; [done|]. apply List.Forall_forall. intros x Hx.
    eapply string_compare_trans; [exact E|]. by apply (proj1 (List.Forall_forall _ _) Hlt).
  - apply sorted_cons; [|by apply IH]. apply List.Forall_forall. intros x [->|Hx]%map_insert_keys.
    + by rewrite String.compare_antisym, E.
    + by apply (proj1 (List.Forall_forall _ _) Hlt).
Qed.

Lemma map_remove_sorted k (l : list (string * Value)) :
  sorted_keys l = true -> sorted_keys (map_remove k l) = true.
Proof.
  induction l as [|[k' v'] l IH]; [done|]. intros Hs.
  pose proof (sorted_keys_lt _ _ _ Hs) as Hlt. pose proof (sorted_keys_tail _ _ Hs) as Ht.
  unfold map_remove in *. cbn [List.filter fst]. case_bool_decide; cbn [negb]; [by apply IH|].
  apply sorted_cons; [|by apply IH]. apply List.Forall_forall. intros x Hx.
  apply in_map_iff in Hx as (e & <- & [He _]%filter_In).
  apply (proj1 (List.Forall_forall _ _) Hlt). by apply in_map.
Qed.

Lemma sorted_assoc_ext (l1 l2 : list (string * Value)) :
  sorted_keys l1 = true -> sorted_keys l2 = true ->
  (forall k, assoc_get k l1 = assoc_get k l2) -> l1 = l2.
Proof.
  assert (Hlt : forall k v l, sorted_keys ((k, v) :: l) = true -> assoc_get k l = None).
  { intros k v l Hs. apply assoc_get_not_in. apply sorted_keys_nodup in Hs. by inversion Hs. }
  assert (Hnone : forall k' k v l, sorted_keys ((k, v) :: l) = true -> String.compare k' k = Lt ->
            assoc_get k' ((k, v) :: l) = None).
  { intros k' k v l Hs Hk. apply assoc_get_not_in. simpl. intros [->|Hin]%elem_of_cons.
    - by rewrite string_compare_memcmp, memcmp_refl in Hk.
    - apply list_elem_of_In in Hin. apply (proj1 (List.Forall_forall _ _) (sorted_keys_lt _ _ _ Hs)) in Hin.
      pose proof (string_compare_trans _ _ _ Hk Hin) as Hc.
      by rewrite string_compare_memcmp, memcmp_refl in Hc. }
  revert l2. induction l1 as [|[k1 v1] l1 IH]; intros [|[k2 v2] l2] Hs1 Hs2 Hall; [done| | |].
  - specialize (Hall k2). simpl in Hall. by rewrite decide_True in Hall.
  - specialize (Hall k1). simpl in Hall. by rewrite decide_True in Hall.
  - destruct (String.compare k1 k2) eqn:E.
    + apply String.compare_eq_iff in E as ->. f_equal.
      * specialize (Hall k2). simpl in Hall. rewrite !decide_True in Hall by done. congruence.
      * apply IH; [by eapply sorted_keys_tail..|]. intros k. specialize (Hall k). simpl in Hall.
        case_decide as Hk; [|done]. subst. by rewrite (Hlt _ _ _ Hs1), (Hlt _ _ _ Hs2).
    + specialize (Hall k1). rewrite (Hnone k1 k2 v2 l2 Hs2 E) in Hall. simpl in Hall.
      by rewrite decide_True in Hall.
    + assert (E' : String.compare k2 k1 = Lt) by by rewrite String.compare_antisym, E.
      specialize (Hall k2). rewrite (Hnone k2 k1 v1 l1 Hs1 E') in Hall. simpl in Hall.
      by rewrite decide_True in Hall.
Qed.

Lemma value_full_ind (P : Value -> Prop) :
  P Null -> (forall b, P (Bool b)) -> (forall n, P (Number n)) -> (forall s, P (JString s)) ->
  (forall l, Forall P l -> P (Array l)) ->
  (forall fs, Forall (fun e => P (snd e)) fs -> P (Object fs)) -> forall v, P v.
Proof.
  intros H1 H2 H3 H4 H5 H6. fix IH 1.
  intros [|b|n|s|l|fs]; [exact H1 | apply H2 | apply H3 | apply H4 | apply H5 | apply H6].
  - induction l as [|v l IHl]; constructor; [apply IH | exact IHl].
  - induction fs as [|[k v] fs IHl]; constructor; [apply IH | exact IHl].
Qed.

Definition sorted_object (v : Value) : bool := match v with Object m => sorted_keys m | _ => true end.

Lemma merge_sorted target patch :
  sorted_object target = true -> value_wf patch = true ->
  sorted_object (json_merge_patch target patch) = true.
Proof.
  intros Ht Hp. destruct patch as [| | | | |entries]; try done.
  rewrite json_merge_patch_object. simpl. clear Hp.
  assert (Hm : sorted_keys (match target with Object m => m | _ => [] end) = true) by by destruct target.
  revert Hm. generalize (match target with Object m => m | _ => [] end). clear.
  induction entries as [|[k v] entries IH]; intros m Hm; [done|]. simpl. apply IH.
  unfold merge_entry. destruct (is_null v); [by apply map_remove_sorted | by apply map_insert_sorted].
Qed.

Lemma merge_idempotent patch : forall target,
  value_wf target = true -> value_wf patch = true ->
  json_merge_patch (json_merge_patch target patch) patch = json_merge_patch target patch.
Proof.
  induction patch as [| | | | |entries IH] using value_full_ind; intros target Ht Hp; try done.
  assert (Hs0 : sorted_object target = true) by (destruct target; try done; by apply andb_prop in Ht as [? _]).
  pose proof (merge_sorted target _ Hs0 Hp) as Hs1.
  pose proof (merge_sorted _ _ Hs1 Hp) as Hs2.
  pose proof (fun t k => value_get_merge t entries k (wf_object_nodup _ Hp)) as Hget.
  destruct (json_merge_patch target (Object entries)) as [| | | | |m1] eqn:E1; try done.
  destruct (json_merge_patch (Object m1) (Object entries)) as [| | | | |m2] eqn:E2; try done.
  f_equal. apply sorted_assoc_ext; [exact Hs2|exact Hs1|]. intros k.
  pose proof (Hget target k) as H1. rewrite E1 in H1. simpl in H1.
  pose proof (Hget (Object m1) k) as H2. rewrite E2 in H2. simpl in H2.
  rewrite H2, H1. destruct (assoc_get k entries) as [v|] eqn:Ek; [|done].
  pose proof (proj1 (List.Forall_forall _ _) IH _ (assoc_get_In _ _ _ Ek)) as IHv. simpl in IHv.
  destruct (is_null v) eqn:Env; [by destruct v|].
  assert (Hm : forall o, merged_entry o (Some v) = Some (json_merge_patch (default Null o) v))
    by by destruct v.
  rewrite !Hm. simpl. f_equal. apply IHv; [|by eapply wf_object_get].
  destruct (value_get target k) as [x|] eqn:Ex; [|done]. simpl.
  destruct target as [| | | | |m]; try done. exact (wf_object_get m k x Ht Ex).
Qed.

Lemma redact_values segments r : forall data,
  segments <> [] -> Forall (fun s => str_strip_suffix "[]" s = None) segments ->
  Forall (fun v => v = r) (collect_policy_values_at_path segments (redact_json_segments segments r data)).
Proof.
  induction segments as [|seg rest IH]; [done|]. intros data _ Hp.
  inversion Hp as [|? ? Hs Hrest]; subst. cbn [collect_policy_values_at_path]. rewrite Hs.
  destruct data as [| | | | |fs]; try by constructor. cbn [redact_json_segments]. rewrite Hs.
  case_bool_decide as Hr; cbn [value_get]; rewrite assoc_get_insert_eq.
  - subst rest. by repeat constructor.
  - by apply IH.
Qed.

(** Merge patches follow RFC 7396: a patch that is not an object replaces
    the target; an object patch removes the keys it maps to null, merges the
    others recursively and keeps the rest; applying it again changes nothing;
    and a patch that does not touch a plain field path, as the field-level write
    check decides it, leaves the values at that path as they were. *)
Theorem merge_patch_exact target patch :
  value_wf target = true -> value_wf patch = true ->
  (as_object patch = None -> json_merge_patch target patch = patch) /\
  (forall entries k, patch = Object entries ->
     value_get (json_merge_patch target patch) k =
     match assoc_get k entries with
     | None => value_get target k
     | Some Null => None
     | Some v => Some (json_merge_patch (default Null (value_get target k)) v)
     end) /\
  json_merge_patch (json_merge_patch target patch) patch = json_merge_patch target patch /\
  (forall path, Forall (fun s => str_strip_suffix "[]" s = None) (split_on dot path) ->
     patch_touches_field_path patch path = false ->
     policy_values_at_path (json_merge_patch target patch) path = policy_values_at_path target path).
Proof.
  intros Ht Hp. split; [by destruct patch|]. split; [|split].
  - intros entries k ->. by rewrite value_get_merge by by apply wf_object_nodup.
  - by apply merge_idempotent.
  - intros path Hs Hn. by apply untouched_segments.
Qed.

(** Redaction hides what it replaces: the redacted document does not depend
    on what was stored under the path, whatever other value is put there first,
    and a plain field path only ever yields the redaction value afterwards. *)
Theorem redaction_hides data path hidden redaction :
  redact_json_path (redact_json_path data path hidden) path redaction =
    redact_json_path data path redaction /\
  (Forall (fun s => str_strip_suffix "[]" s = None) (split_on dot path) ->
   Forall (fun v => v = redaction)
     (policy_values_at_path (redact_json_path data path redaction) path)).
Proof.
  split; [apply redact_absorbs|]. intros Hp. apply redact_values; [|done]. apply split_on_nonempty.
Qed.
End JsonOps.

Definition sample_entity : Value :=
  Object [("address", Object [("city", JString "Bern"); ("zip", JString "3000")]); ("name", JString "Ann")].
Definition sample_patch : Value := Object [("address", Object [("zip", Null)]); ("age", jint 4)].

Lemma merge_patch_exact_witness :
  value_wf sample_entity = true /\ value_wf sample_patch = true /\
  json_merge_patch sample_entity sample_patch =
    Object [("address", Object [("city", JString "Bern")]); ("age", jint 4); ("name", JString "Ann")] /\
  patch_touches_field_path sample_patch "address.city" = false /\
  json_merge_patch (json_merge_patch sample_entity sample_patch) sample_patch =
    json_merge_patch sample_entity sample_patch.
Proof.
  split; [vm_refl|]. split; [vm_refl|]. split; [vm_refl|]. split; [vm_refl|].
  apply merge_patch_exact; vm_refl.
Defined.
