(* ===== verification/AuthStore.v ===== *)
(** * Users, tenants and credentials of the in-memory adapter
    ([crates/axon-storage/src/memory.rs], data of [crates/axon-core/src/auth.rs])

    The stores that the adapter keeps outside its transactions: users,
    federated identities, tenants and their members, retention policies,
    tenant databases, credential issuances and revocations.  A poisoned mutex
    is the only error path of the source that the model leaves out: no holder
    of these locks can panic while it holds one. *)

From S2P Require Import Prelude Json Ids Types AuditLog.


Abbreviation TenantId := string (only parsing).
Abbreviation UserId := string (only parsing).

(** A UUID is a 128-bit number; its text form is the third-party crate's. *)
Definition Uuid : Type := Z.

Class UuidText : Type := {
  uuid_to_string : Uuid -> string;
  uuid_parse : string -> option Uuid
}.

(** Documented behaviour: the text of a UUID parses to it. *)
Class UuidTextLaws `{UuidText} : Prop := {
  uuid_parse_to_string : forall u, uuid_parse (uuid_to_string u) = Some u
}.

Inductive TenantRole : Type := TenantAdmin | TenantWrite | TenantRead.

Record User : Type := {
  u_id : UserId;
  u_display_name : string;
  u_email : option string;
  u_created_at_ms : Z;
  u_suspended_at_ms : option Z
}.

Record TenantMember : Type := {
  tm_tenant_id : TenantId;
  tm_user_id : UserId;
  tm_role : TenantRole
}.

Record CredentialMetadata : Type := {
  cm_jti : string;
  cm_user_id : UserId;
  cm_tenant_id : TenantId;
  cm_issued_at_ms : Z;
  cm_expires_at_ms : Z;
  cm_revoked : bool;
  cm_grants_json : string
}.

Record TenantDatabase : Type := {
  td_tenant_id : TenantId;
  td_name : string;
  td_created_at_ms : Z
}.

Record RetentionPolicy : Type := {
  rp_archive_after_seconds : Z;
  rp_purge_after_seconds : option Z
}.

(** [RetentionPolicy::default]: seven years, never purge. *)
Definition retention_policy_default : RetentionPolicy :=
  {| rp_archive_after_seconds := 7 * 365 * 24 * 60 * 60; rp_purge_after_seconds := None |}.

(** The fields of the adapter that hold tenancy data. *)
Record AuthStore : Type := {
  au_revoked_jtis : gset Uuid;
  au_users : gmap UserId User;
  au_tenant_members : gmap (TenantId * UserId) TenantMember;
  au_user_identity_map : gmap (string * string) User;
  au_retention_policies : gmap TenantId RetentionPolicy;
  au_tenant_databases : gmap (TenantId * string) TenantDatabase;
  au_credential_issuances : gmap Uuid CredentialMetadata;
  au_tenants : gmap string TenantId
}.

Definition auth_default : AuthStore := {|
  au_revoked_jtis := ∅; au_users := ∅; au_tenant_members := ∅; au_user_identity_map := ∅;
  au_retention_policies := ∅; au_tenant_databases := ∅; au_credential_issuances := ∅;
  au_tenants := ∅
|}.

Definition set_revoked_jtis x (a : AuthStore) : AuthStore := {|
  au_revoked_jtis := x;
  au_users := au_users a;
  au_tenant_members := au_tenant_members a;
  au_user_identity_map := au_user_identity_map a;
  au_retention_policies := au_retention_policies a;
  au_tenant_databases := au_tenant_databases a;
  au_credential_issuances := au_credential_issuances a;
  au_tenants := au_tenants a
|}.
Definition set_users x (a : AuthStore) : AuthStore := {|
  au_revoked_jtis := au_revoked_jtis a;
  au_users := x;
  au_tenant_members := au_tenant_members a;
  au_user_identity_map := au_user_identity_map a;
  au_retention_policies := au_retention_policies a;
  au_tenant_databases := au_tenant_databases a;
  au_credential_issuances := au_credential_issuances a;
  au_tenants := au_tenants a
|}.
Definition set_tenant_members x (a : AuthStore) : AuthStore := {|
  au_revoked_jtis := au_revoked_jtis a;
  au_users := au_users a;
  au_tenant_members := x;
  au_user_identity_map := au_user_identity_map a;
  au_retention_policies := au_retention_policies a;
  au_tenant_databases := au_tenant_databases a;
  au_credential_issuances := au_credential_issuances a;
  au_tenants := au_tenants a
|}.
Definition set_user_identity_map x (a : AuthStore) : AuthStore := {|
  au_revoked_jtis := au_revoked_jtis a;
  au_users := au_users a;
  au_tenant_members := au_tenant_members a;
  au_user_identity_map := x;
  au_retention_policies := au_retention_policies a;
  au_tenant_databases := au_tenant_databases a;
  au_credential_issuances := au_credential_issuances a;
  au_tenants := au_tenants a
|}.
Definition set_retention_policies x (a : AuthStore) : AuthStore := {|
  au_revoked_jtis := au_revoked_jtis a;
  au_users := au_users a;
  au_tenant_members := au_tenant_members a;
  au_user_identity_map := au_user_identity_map a;
  au_retention_policies := x;
  au_tenant_databases := au_tenant_databases a;
  au_credential_issuances := au_credential_issuances a;
  au_tenants := au_tenants a
|}.
Definition set_tenant_databases x (a : AuthStore) : AuthStore := {|
  au_revoked_jtis := au_revoked_jtis a;
  au_users := au_users a;
  au_tenant_members := au_tenant_members a;
  au_user_identity_map := au_user_identity_map a;
  au_retention_policies := au_retention_policies a;
  au_tenant_databases := x;
  au_credential_issuances := au_credential_issuances a;
  au_tenants := au_tenants a
|}.
Definition set_credential_issuances x (a : AuthStore) : AuthStore := {|
  au_revoked_jtis := au_revoked_jtis a;
  au_users := au_users a;
  au_tenant_members := au_tenant_members a;
  au_user_identity_map := au_user_identity_map a;
  au_retention_policies := au_retention_policies a;
  au_tenant_databases := au_tenant_databases a;
  au_credential_issuances := x;
  au_tenants := au_tenants a
|}.
Definition set_tenants x (a : AuthStore) : AuthStore := {|
  au_revoked_jtis := au_revoked_jtis a;
  au_users := au_users a;
  au_tenant_members := au_tenant_members a;
  au_user_identity_map := au_user_identity_map a;
  au_retention_policies := au_retention_policies a;
  au_tenant_databases := au_tenant_databases a;
  au_credential_issuances := au_credential_issuances a;
  au_tenants := x
|}.

Section Operations.
Context `{SerdeNumber} `{UuidText}.

Local Open Scope axon_scope.
Abbreviation Op := (M AuthStore AxonError) (only parsing).

(** [insert_user] *)
Definition insert_user (user : User) : Op unit :=
  modify (fun a => set_users (<[u_id user := user]> (au_users a)) a).

(** [insert_tenant_member] *)
Definition insert_tenant_member (m : TenantMember) : Op unit :=
  modify (fun a =>
    set_tenant_members (<[(tm_tenant_id m, tm_user_id m) := m]> (au_tenant_members a)) a).

(** [revoke_jti] *)
Definition revoke_jti (jti : Uuid) : Op unit :=
  modify (fun a => set_revoked_jtis ({[jti]} ∪ au_revoked_jtis a) a).

(** [is_jti_revoked] *)
Definition is_jti_revoked (a : AuthStore) (jti : Uuid) : bool :=
  if bool_decide (jti ∈ au_revoked_jtis a) then true
  else match au_credential_issuances a !! jti with
       | Some meta => cm_revoked meta
       | None => false
       end.

(** [get_user] *)
Definition get_user (a : AuthStore) (user_id : UserId) : option User := au_users a !! user_id.

(** [create_user] *)
Definition create_user (now_ms : Z) (id : UserId) (display_name : string) (email : option string)
  : Op User :=
  do a <- gets Datatypes.id;
  match au_users a !! id with
  | Some _ => fail (AlreadyExists ("user '" +:+ id +:+ "' already exists"))
  | None =>
      let user := {| u_id := id; u_display_name := display_name; u_email := email;
                     u_created_at_ms := now_ms; u_suspended_at_ms := None |} in
      do! modify (set_users (<[id := user]> (au_users a)));
      ret user
  end.

(** [list_users]: newest first. *)
Definition list_users (a : AuthStore) : list User :=
  sort_by_key (fun u => (- u_created_at_ms u)%Z) (map snd (map_to_list (au_users a))).

(** [suspend_user] *)
Definition suspend_user (now_ms : Z) (id : UserId) : Op bool :=
  do a <- gets Datatypes.id;
  match au_users a !! id with
  | Some user =>
      let user' := {| u_id := u_id user; u_display_name := u_display_name user;
                      u_email := u_email user; u_created_at_ms := u_created_at_ms user;
                      u_suspended_at_ms := Some now_ms |} in
      do! modify (set_users (<[id := user']> (au_users a)));
      ret true
  | None => ret false
  end.

(** [get_tenant_member] *)
Definition get_tenant_member (a : AuthStore) (tenant_id : TenantId) (user_id : UserId)
  : option TenantMember := au_tenant_members a !! (tenant_id, user_id).

(** [upsert_tenant_member] *)
Definition upsert_tenant_member (tenant_id : TenantId) (user_id : UserId) (role : TenantRole)
  : Op TenantMember :=
  let member := {| tm_tenant_id := tenant_id; tm_user_id := user_id; tm_role := role |} in
  do! modify (fun a => set_tenant_members (<[(tenant_id, user_id) := member]> (au_tenant_members a)) a);
  ret member.

(** [remove_tenant_member] *)
Definition remove_tenant_member (tenant_id : TenantId) (user_id : UserId) : Op bool :=
  do a <- gets Datatypes.id;
  do! modify (set_tenant_members (delete (tenant_id, user_id) (au_tenant_members a)));
  ret (bool_decide (is_Some (au_tenant_members a !! (tenant_id, user_id)))).

(** [list_tenant_members] *)
Definition list_tenant_members (a : AuthStore) (tenant_id : TenantId) : list TenantMember :=
  sort_by (fun x y => String.compare (tm_user_id x) (tm_user_id y))
    (map snd (List.filter (fun kv => bool_decide (fst (fst kv) = tenant_id))
                (map_to_list (au_tenant_members a)))).

(** [count_tenants] *)
Definition count_tenants (a : AuthStore) : nat := size (au_tenants a).

(** [upsert_default_tenant]; [fresh] is the id [TenantId::generate] returns. *)
Definition upsert_default_tenant (fresh : TenantId) (name : string) : Op TenantId :=
  do a <- gets Datatypes.id;
  match au_tenants a !! name with
  | Some existing => ret existing
  | None =>
      do! modify (set_tenants (<[name := fresh]> (au_tenants a)));
      ret fresh
  end.

(** [get_retention_policy] *)
Definition get_retention_policy (a : AuthStore) (tenant_id : TenantId) : option RetentionPolicy :=
  au_retention_policies a !! tenant_id.

(** [set_retention_policy] *)
Definition set_retention_policy (tenant_id : TenantId) (policy : RetentionPolicy) : Op unit :=
  modify (fun a => set_retention_policies (<[tenant_id := policy]> (au_retention_policies a)) a).

(** [list_tenant_databases] *)
Definition list_tenant_databases (a : AuthStore) (tenant_id : TenantId) : list TenantDatabase :=
  sort_by (fun x y => then_cmp (Z.compare (td_created_at_ms x) (td_created_at_ms y))
                               (String.compare (td_name x) (td_name y)))
    (map snd (List.filter (fun kv => bool_decide (fst (fst kv) = tenant_id))
                (map_to_list (au_tenant_databases a)))).

(** [create_tenant_database] *)
Definition create_tenant_database (now_ms : Z) (tenant_id : TenantId) (name : string)
  : Op TenantDatabase :=
  do a <- gets Datatypes.id;
  match au_tenant_databases a !! (tenant_id, name) with
  | Some _ => fail (AlreadyExists ("database '" +:+ name +:+ "' already exists in tenant '"
                                   +:+ tenant_id +:+ "'"))
  | None =>
      let db := {| td_tenant_id := tenant_id; td_name := name; td_created_at_ms := now_ms |} in
      do! modify (set_tenant_databases (<[(tenant_id, name) := db]> (au_tenant_databases a)));
      ret db
  end.

(** [delete_tenant_database] *)
Definition delete_tenant_database (tenant_id : TenantId) (name : string) : Op bool :=
  do a <- gets Datatypes.id;
  do! modify (set_tenant_databases (delete (tenant_id, name) (au_tenant_databases a)));
  ret (bool_decide (is_Some (au_tenant_databases a !! (tenant_id, name)))).

(** [upsert_user_identity]; [fresh] is the id [UserId::generate] returns. *)
Definition upsert_user_identity (fresh : UserId) (now_ms : Z) (provider external_id : string)
    (display_name : string) (email : option string) : Op User :=
  do a <- gets Datatypes.id;
  match au_user_identity_map a !! (provider, external_id) with
  | Some user => ret user
  | None =>
      let user := {| u_id := fresh; u_display_name := display_name; u_email := email;
                     u_created_at_ms := now_ms; u_suspended_at_ms := None |} in
      do! modify (set_user_identity_map
                    (<[(provider, external_id) := user]> (au_user_identity_map a)));
      ret user
  end.

(** [track_credential_issuance] *)
Definition track_credential_issuance (jti : Uuid) (user_id : UserId) (tenant_id : TenantId)
    (issued_at_ms expires_at_ms : Z) (grants_json : string) : Op unit :=
  let meta := {| cm_jti := uuid_to_string jti; cm_user_id := user_id; cm_tenant_id := tenant_id;
                 cm_issued_at_ms := issued_at_ms; cm_expires_at_ms := expires_at_ms;
                 cm_revoked := false; cm_grants_json := grants_json |} in
  modify (fun a => set_credential_issuances (<[jti := meta]> (au_credential_issuances a)) a).

Definition mark_revoked (m : CredentialMetadata) : CredentialMetadata :=
  {| cm_jti := cm_jti m; cm_user_id := cm_user_id m; cm_tenant_id := cm_tenant_id m;
     cm_issued_at_ms := cm_issued_at_ms m; cm_expires_at_ms := cm_expires_at_ms m;
     cm_revoked := true; cm_grants_json := cm_grants_json m |}.

(** [list_credentials] *)
Definition list_credentials (a : AuthStore) (tenant_id : TenantId) (user_filter : option UserId)
  : list CredentialMetadata :=
  let creds :=
    List.filter (fun m => bool_decide (cm_tenant_id m = tenant_id)
                          && when_some user_filter (fun uid => bool_decide (cm_user_id m = uid)))
      (map snd (map_to_list (au_credential_issuances a))) in
  let creds :=
    map (fun m =>
      if negb (cm_revoked m) then
        match uuid_parse (cm_jti m) with
        | Some u => if bool_decide (u ∈ au_revoked_jtis a) then mark_revoked m else m
        | None => m
        end
      else m) creds in
  sort_by_key cm_issued_at_ms creds.

(** [revoke_credential] *)
Definition revoke_credential (jti : Uuid) : Op unit :=
  modify (fun a =>
    match au_credential_issuances a !! jti with
    | Some meta =>
        set_credential_issuances (<[jti := mark_revoked meta]> (au_credential_issuances a)) a
    | None => a
    end).
End Operations.

(** ** Revocation and identities *)

Section AuthProofs.
Context `{SerdeNumber} `{UuidText}.

(** The operations that change the store. *)
Inductive AuthOp : Type :=
| AInsertUser (u : User)
| AInsertMember (m : TenantMember)
| ARevokeJti (jti : Uuid)
| ACreateUser (now_ms : Z) (id : UserId) (name : string) (email : option string)
| ASuspendUser (now_ms : Z) (id : UserId)
| AUpsertMember (t : TenantId) (u : UserId) (r : TenantRole)
| ARemoveMember (t : TenantId) (u : UserId)
| AUpsertTenant (fresh : TenantId) (name : string)
| ASetRetention (t : TenantId) (p : RetentionPolicy)
| ACreateDatabase (now_ms : Z) (t : TenantId) (name : string)
| ADeleteDatabase (t : TenantId) (name : string)
| AUpsertIdentity (fresh : UserId) (now_ms : Z) (provider external_id name : string)
    (email : option string)
| ATrack (jti : Uuid) (u : UserId) (t : TenantId) (issued expires : Z) (grants : string)
| ARevoke (jti : Uuid).

(** The store after one operation, whatever it returns. *)
Definition run_auth (a : AuthStore) (op : AuthOp) : AuthStore :=
  match op with
  | AInsertUser u => fst (insert_user u a)
  | AInsertMember m => fst (insert_tenant_member m a)
  | ARevokeJti j => fst (revoke_jti j a)
  | ACreateUser n i d e => fst (create_user n i d e a)
  | ASuspendUser n i => fst (suspend_user n i a)
  | AUpsertMember t u r => fst (upsert_tenant_member t u r a)
  | ARemoveMember t u => fst (remove_tenant_member t u a)
  | AUpsertTenant f n => fst (upsert_default_tenant f n a)
  | ASetRetention t p => fst (set_retention_policy t p a)
  | ACreateDatabase n t d => fst (create_tenant_database n t d a)
  | ADeleteDatabase t d => fst (delete_tenant_database t d a)
  | AUpsertIdentity f n p x d e => fst (upsert_user_identity f n p x d e a)
  | ATrack j u t i x g => fst (track_credential_issuance j u t i x g a)
  | ARevoke j => fst (revoke_credential j a)
  end.

Definition tracks (jti : Uuid) (op : AuthOp) : bool :=
  match op with ATrack j _ _ _ _ _ => bool_decide (j = jti) | _ => false end.

Lemma run_auth_revoked a op jti :
  tracks jti op = false -> is_jti_revoked a jti = true -> is_jti_revoked (run_auth a op) jti = true.
Proof.
  intros Ht Hr. destruct op; cbn [run_auth tracks] in *; try exact Hr;
    try (unfold create_user, suspend_user, upsert_default_tenant, create_tenant_database,
           upsert_user_identity, bind, gets, Datatypes.id, modify, ret, fail;
         cbn [fst]; case_match; exact Hr).
  - unfold is_jti_revoked in *. cbn. case_bool_decide as Hin; [by rewrite bool_decide_true by set_solver|].
    case_bool_decide; [done | exact Hr].
  - apply bool_decide_eq_false in Ht. unfold is_jti_revoked in *. cbn.
    case_bool_decide; [done|]. by rewrite lookup_insert_ne by congruence.
  - unfold is_jti_revoked, revoke_credential, modify in *. cbn [fst].
    destruct (au_credential_issuances a !! jti0) as [m|] eqn:Hm; [|exact Hr]. cbn.
    case_bool_decide; [done|]. destruct (decide (jti = jti0)) as [->|Hn].
    + by rewrite lookup_insert_eq.
    + by rewrite lookup_insert_ne by congruence.
Qed.

(** Revocation takes effect and lasts: after a tracked credential is
    revoked, or its id put on the revocation list, it counts as revoked, and no
    later operation on users, tenants, databases, identities or credentials
    changes that, except issuing the same credential id again. *)
Lemma revocation_lasts (a : AuthStore) (jti : Uuid) (revocation : AuthOp) (ops : list AuthOp)
    (Hrev : revocation = ARevokeJti jti \/
            (revocation = ARevoke jti /\ is_Some (au_credential_issuances a !! jti)))
    (Hops : Forall (fun op => tracks jti op = false) ops) :
  is_jti_revoked (fold_left run_auth ops (run_auth a revocation)) jti = true.
Proof.
  assert (Hnow : is_jti_revoked (run_auth a revocation) jti = true).
  { destruct Hrev as [->|[-> [m Hm]]]; cbn [run_auth]; unfold is_jti_revoked.
    - cbn. by rewrite bool_decide_true by set_solver.
    - unfold revoke_credential, modify. cbn [fst]. rewrite Hm. cbn. rewrite lookup_insert_eq.
      by case_bool_decide. }
  revert Hnow. generalize (run_auth a revocation) as b.
  induction Hops as [|op ops Hop _ IH]; intros b Hb; [done|]. apply IH. by apply run_auth_revoked.
Qed.

(** A user provisioned through a federated identity is not in the user
    table: the first [upsert_user_identity] for an identity returns a new user
    but leaves the users as they were, so looking the user up by id finds
    nothing and suspending it reports that it does not exist.  The interface
    documents that the call creates a users row. *)
Theorem federated_user_missing (a : AuthStore) (fresh : UserId) (now_ms later : Z)
    (provider external_id name : string) (email : option string)
    (Hnew : au_user_identity_map a !! (provider, external_id) = None)
    (Hfresh : au_users a !! fresh = None) :
  exists a' user, upsert_user_identity fresh now_ms provider external_id name email a = (a', Ok user) /\
    u_id user = fresh /\ get_user a' fresh = None /\
    suspend_user later fresh a' = (a', Ok false).
Proof.
  unfold upsert_user_identity, bind, gets, Datatypes.id. rewrite Hnew. do 2 eexists.
  split; [reflexivity|]. split; [done|]. split; [exact Hfresh|].
  unfold suspend_user, bind, gets, Datatypes.id. cbn. by rewrite Hfresh.
Qed.
End AuthProofs.

Section AuthExamples.
Local Existing Instance simple_serde_number.

(** The text form of credential ids plays no part in the examples. *)
#[local] Instance blank_uuid_text : UuidText := {| uuid_to_string _ := "uuid"; uuid_parse _ := None |}.

Lemma federated_user_missing_witness :
  exists a' user, upsert_user_identity "u9" 0 "tailscale" "ann@example" "Ann" None auth_default = (a', Ok user) /\
    u_id user = "u9" /\ get_user a' "u9" = None /\ suspend_user 1 "u9" a' = (a', Ok false).
Proof. apply (federated_user_missing auth_default "u9" 0 1 "tailscale" "ann@example" "Ann" None); reflexivity. Defined.
End AuthExamples.
