(* ===== verification/Roles.v ===== *)
(** * Roles, grants and callers ([crates/axon-core/src/auth.rs])

    The role ladder, caller identities with their masks and scope filters,
    database grants, and the grant ceiling of a tenant role. *)

From S2P Require Import Prelude Json Ids Types JsonOps AuthStore.
Local Open Scope axon_scope.

(** ** Roles *)

Inductive Role : Type := RoleNone | RoleRead | RoleWrite | RoleAdmin.

#[export] Instance Role_eq_dec : EqDecision Role.
Proof. solve_decision. Defined.

(** The discriminants, which give the derived order. *)
Definition role_rank (r : Role) : Z :=
  match r with RoleNone => 0 | RoleRead => 1 | RoleWrite => 2 | RoleAdmin => 3 end.
Definition role_ge (a b : Role) : bool := (role_rank b <=? role_rank a)%Z.
Definition role_max (a b : Role) : Role := if role_ge b a then b else a.

Definition role_display (r : Role) : string :=
  match r with RoleNone => "none" | RoleRead => "read" | RoleWrite => "write" | RoleAdmin => "admin" end.

Definition from_tag (tag : string) : Role :=
  if bool_decide (tag = "tag:axon-admin") || bool_decide (tag = "tag:admin") || bool_decide (tag = "admin")
  then RoleAdmin
  else if bool_decide (tag = "tag:axon-write") || bool_decide (tag = "tag:axon-agent")
          || bool_decide (tag = "tag:write") || bool_decide (tag = "write")
  then RoleWrite
  else if bool_decide (tag = "tag:axon-read") || bool_decide (tag = "tag:read") || bool_decide (tag = "read")
  then RoleRead
  else RoleNone.

(** [iter().map(f).max().unwrap_or(Role::None)] *)
Definition max_role (l : list Role) : Role := fold_left role_max l RoleNone.

Definition from_tags (tags : list string) : Role := max_role (map from_tag tags).

Inductive Operation : Type := OperationRead | OperationWrite | OperationAdmin.

Definition required_role (op : Operation) : Role :=
  match op with
  | OperationRead => RoleRead | OperationWrite => RoleWrite | OperationAdmin => RoleAdmin
  end.

(** Derived [Debug]. *)
Definition operation_kind_debug (op : Operation) : string :=
  match op with OperationRead => "Read" | OperationWrite => "Write" | OperationAdmin => "Admin" end.

(** ** Grants of a credential *)

Inductive GrantOp : Type := GrantRead | GrantWrite | GrantAdmin.

#[export] Instance GrantOp_eq_dec : EqDecision GrantOp.
Proof. solve_decision. Defined.

Record GrantedDatabase : Type := { gdb_name : string; gdb_ops : list GrantOp }.
Record Grants : Type := { gr_databases : list GrantedDatabase }.

Inductive AuthError : Type :=
| Unauthenticated | CredentialMalformed | CredentialInvalid | CredentialExpired
| CredentialNotYetValid | CredentialRevoked | CredentialForeignIssuer | CredentialWrongTenant
| UserSuspended | NotATenantMember | DatabaseNotGranted | OpNotGranted
| GrantsExceedIssuerRole | GrantsExceedRole | GrantsMalformed.

Definition status_code (e : AuthError) : Z :=
  match e with
  | CredentialWrongTenant | NotATenantMember | DatabaseNotGranted | OpNotGranted
  | GrantsExceedRole => 403
  | _ => 401
  end.

Definition find_database (g : Grants) (name : string) : option GrantedDatabase :=
  List.find (fun db => bool_decide (gdb_name db = name)) (gr_databases g).

Definition has_op (db : GrantedDatabase) (op : GrantOp) : bool := bool_decide (op ∈ gdb_ops db).

Definition delegable_ops (r : TenantRole) : list GrantOp :=
  match r with
  | TenantAdmin => [GrantRead; GrantWrite; GrantAdmin]
  | TenantWrite => [GrantRead; GrantWrite]
  | TenantRead => [GrantRead]
  end.

Definition can_delegate (r : TenantRole) (op : GrantOp) : bool := bool_decide (op ∈ delegable_ops r).

(** [TenantRole::enforce_ceiling] *)
Definition enforce_ceiling (r : TenantRole) (g : Grants) : result unit AuthError :=
  if forallb (fun db => forallb (can_delegate r) (gdb_ops db)) (gr_databases g) then Ok tt
  else Err GrantsExceedRole.

(** [GrantedDatabase::validate] *)
Definition granted_database_validate (db : GrantedDatabase) : result unit AuthError :=
  if bool_decide (gdb_name db = "") then Err GrantsMalformed
  else if bool_decide (gdb_ops db = []) then Err GrantsMalformed
  else if negb (length (list.remove_dups (gdb_ops db)) =? length (gdb_ops db))%nat then Err GrantsMalformed
  else Ok tt.

(** [Grants::validate] *)
Definition grants_validate (g : Grants) : result unit AuthError :=
  if (1024 <? length (gr_databases g))%nat then Err GrantsMalformed
  else let? _ := result_map granted_database_validate (gr_databases g) in Ok tt.

Section Callers.
Context `{SerdeNumber}.

(** ** Callers *)

Record EntityFilter : Type := { ef_field : string; ef_value : Value }.

(** [EntityFilter::matches] *)
Definition entity_filter_matches (f : EntityFilter) (data : Value) : bool :=
  match value_get data (ef_field f) with
  | Some v => value_eqb v (ef_value f)
  | None => false
  end.

Record CallerIdentity : Type := {
  ci_actor : string;
  ci_role : Role;
  ci_entity_filter : option EntityFilter
}.

Definition anonymous : CallerIdentity :=
  {| ci_actor := "anonymous"; ci_role := RoleAdmin; ci_entity_filter := None |}.

(** [CallerIdentity::new] *)
Definition caller_new (actor : string) (role : Role) : CallerIdentity :=
  {| ci_actor := actor; ci_role := role; ci_entity_filter := None |}.

(** [CallerIdentity::check] *)
Definition caller_check (c : CallerIdentity) (op : Operation) : result unit AxonError :=
  let required := required_role op in
  if role_ge (ci_role c) required then Ok tt
  else Err (InvalidOperation
    ("permission denied: role '" +:+ role_display (ci_role c) +:+ "' cannot perform " +:+
     operation_kind_debug op +:+ " operations (requires '" +:+ role_display required +:+ "')")).

Record MaskPolicy : Type := { mp_field : string; mp_min_role : Role }.

(** [CallerIdentity::apply_masks] *)
Definition apply_masks (c : CallerIdentity) (data : Value) (policies : list MaskPolicy) : Value :=
  if role_ge (ci_role c) RoleAdmin then data
  else
    match data with
    | Object obj =>
        Object (fold_left (fun obj policy =>
          if role_ge (ci_role c) (mp_min_role policy) then obj else map_remove (mp_field policy) obj)
          policies obj)
    | _ => data
    end.

Record WritePolicy : Type := {
  wp_collection : string;
  wp_min_write_role : Role;
  wp_immutable_fields : list string
}.

(** [WritePolicy::check_write] *)
Definition check_write (p : WritePolicy) (c : CallerIdentity) : result unit AxonError :=
  if role_ge (ci_role c) (wp_min_write_role p) then Ok tt
  else Err (InvalidOperation
    ("write policy for '" +:+ wp_collection p +:+ "': role '" +:+ role_display (ci_role c) +:+
     "' insufficient (requires '" +:+ role_display (wp_min_write_role p) +:+ "')")).

(** [WritePolicy::check_immutable_fields] *)
Definition check_immutable_fields (p : WritePolicy) (old_data new_data : Value) : list string :=
  List.filter (fun field =>
    match value_get old_data field with
    | Some o => negb (values_eq (Some o) (value_get new_data field))
    | None => false
    end) (wp_immutable_fields p).
End Callers.

(** ** Database grants *)

Record DatabaseGrant : Type := { dg_actor : string; dg_database : string; dg_role : Role }.

Record GrantRegistry : Type := { gr_grants : list DatabaseGrant }.

Definition grants_default : GrantRegistry := {| gr_grants := [] |}.

(** [GrantRegistry::add] *)
Definition grants_add (grant : DatabaseGrant) (g : GrantRegistry) : GrantRegistry :=
  {| gr_grants := gr_grants g ++ [grant] |}.

(** [GrantRegistry::revoke] *)
Definition grants_revoke (actor database : string) (g : GrantRegistry) : GrantRegistry :=
  {| gr_grants := List.filter (fun x =>
       negb (bool_decide (dg_actor x = actor)) || negb (bool_decide (dg_database x = database)))
       (gr_grants g) |}.

Definition grant_applies (actor database : string) (g : DatabaseGrant) : bool :=
  (bool_decide (dg_actor g = actor) || bool_decide (dg_actor g = "*"))
  && (bool_decide (dg_database g = database) || bool_decide (dg_database g = "*")).

Definition effective_role (g : GrantRegistry) (actor database : string) : Role :=
  max_role (map dg_role (List.filter (grant_applies actor database) (gr_grants g))).

(** [GrantRegistry::check] *)
Definition grants_check `{SerdeNumber} (g : GrantRegistry) (actor database : string) (op : Operation)
    : result unit AxonError :=
  let role := effective_role g actor database in
  if role_ge role (required_role op) then Ok tt
  else Err (InvalidOperation
    ("no grant for actor '" +:+ actor +:+ "' on database '" +:+ database +:+
     "' with sufficient role (has '" +:+ role_display role +:+ "', needs '" +:+
     role_display (required_role op) +:+ "')")).

(** ** Properties *)

Lemma max_role_ge l r : role_ge (max_role l) r = true <-> r = RoleNone \/ exists x, x ∈ l /\ role_ge x r = true.
Proof.
  unfold max_role.
  assert (Hgen : forall acc, role_ge (fold_left role_max l acc) r = true <->
            role_ge acc r = true \/ exists x, x ∈ l /\ role_ge x r = true).
  { induction l as [|a l IH]; intros acc; simpl.
    - split; [by left|]. intros [|(x & Hx & _)]; [done|]. by apply not_elem_of_nil in Hx.
    - rewrite IH. assert (Hm : role_ge (role_max acc a) r = true <-> role_ge acc r = true \/ role_ge a r = true).
      { destruct acc, a, r; vm_compute; tauto. }
      rewrite Hm. split.
      + intros [[H1|H1]|(x & Hx & H1)]; [by left|right; exists a|right; exists x].
        * split; [apply elem_of_cons; by left|done].
        * split; [apply elem_of_cons; by right|done].
      + intros [H1|(x & [->|Hx]%elem_of_cons & H1)]; [by left; left|by left; right|right; eauto]. }
  rewrite Hgen. assert (H0 : role_ge RoleNone r = true <-> r = RoleNone) by (destruct r; vm_compute; split; done).
  by rewrite H0.
Qed.

(** Database-scoped authorization is exact: an operation passes the grant
    check exactly when some grant for the actor or for everyone, on the database
    or on every database, carries at least the required role; revoking a pair
    removes exactly the grants naming that actor and that database. *)
Theorem grants_exact `{SerdeNumber} g actor database op :
  (grants_check g actor database op = Ok tt <->
     exists x, x ∈ gr_grants g /\ (dg_actor x = actor \/ dg_actor x = "*") /\
       (dg_database x = database \/ dg_database x = "*") /\
       role_ge (dg_role x) (required_role op) = true) /\
  (forall a d x, x ∈ gr_grants (grants_revoke a d g) <->
     x ∈ gr_grants g /\ ~ (dg_actor x = a /\ dg_database x = d)).
Proof.
  split.
  - assert (Hok : grants_check g actor database op = Ok tt <->
              role_ge (effective_role g actor database) (required_role op) = true).
    { unfold grants_check. by destruct (role_ge _ _). }
    rewrite Hok. unfold effective_role. rewrite max_role_ge. split.
    + intros [Hn|(r & Hr & Hge)]; [by destruct op|].
      apply list_elem_of_In, in_map_iff in Hr as (x & <- & [Hx Ha]%filter_In).
      exists x. unfold grant_applies in Ha.
      apply andb_prop in Ha as [Ha%orb_prop Hd%orb_prop].
      rewrite !bool_decide_eq_true in Ha, Hd. by apply list_elem_of_In in Hx.
    + intros (x & Hx & Ha & Hd & Hge). right. exists (dg_role x). split; [|done].
      apply list_elem_of_In, in_map_iff. exists x. split; [done|]. apply filter_In.
      split; [by apply list_elem_of_In|]. unfold grant_applies. apply andb_true_intro.
      rewrite !orb_true_iff, !bool_decide_eq_true. done.
  - intros a d x. unfold grants_revoke. simpl. rewrite !list_elem_of_In, filter_In.
    rewrite orb_true_iff, !negb_true_iff, !bool_decide_eq_false. split.
    + intros [Hx Hor]. split; [done|]. intros [??]. tauto.
    + intros [Hx Hn]. split; [done|]. destruct (decide (dg_actor x = a)); [right|by left]. tauto.
Qed.
