(* ===== verification/AuthPipeline.v ===== *)
(** * The credential pipeline of the server ([crates/axon-server/src/auth_pipeline.rs])

    Every data-plane request runs nine checks: the bearer token, its signature,
    issuer, validity window and revocation, the tenant of the path, the user, the
    membership, and the grant for the database and the method.  Decoding and
    encoding tokens is the [jsonwebtoken] crate, a parameter.  The storage sits
    behind a mutex and the cache behind a read-write lock; a lock is [None] when
    it is poisoned. *)

From S2P Require Import Prelude Json Ids Types JsonOps AuthStore Roles.
Local Open Scope axon_scope.

Record JwtClaims : Type := {
  jc_iss : string;
  jc_sub : string;
  jc_aud : string;
  jc_jti : string;
  jc_iat : Z;
  jc_nbf : Z;
  jc_exp : Z;
  jc_grants : Grants
}.

(** The error kinds of the token crate that the code tells apart. *)
Inductive JwtErrorKind : Type :=
| InvalidSignature | JsonError | Base64Error | Utf8Error | InvalidToken | OtherJwtError.

Class JwtCodec : Type := {
  jwt_encode : list Z -> JwtClaims -> option string;
  jwt_decode : list Z -> string -> result JwtClaims JwtErrorKind
}.

(** Documented behaviour: a token verifies under the secret it was signed with
    and gives back its claims. *)
Class JwtCodecLaws `{JwtCodec} : Prop := {
  jwt_decode_encode : forall secret c token,
    jwt_encode secret c = Some token -> jwt_decode secret token = Ok c
}.

Inductive Method : Type := GET | POST | PUT | PATCH | DELETE | OtherMethod.

Record ResolvedIdentity : Type := {
  ri_user_id : UserId;
  ri_tenant_id : TenantId;
  ri_grants : Grants
}.

Definition slash : ascii := Eval compute in Stdlib.Strings.Ascii.ascii_of_nat 47.

(** [extract_tenant_database]; the first four pieces of [splitn(5, '/')] are
    those of the full split. *)
Definition extract_tenant_database (path : string) : option (string * string) :=
  match str_strip_prefix "/" path with
  | None => None
  | Some path =>
      match split_on slash path with
      | a :: tenant :: b :: rest :: _ =>
          if bool_decide (a = "tenants") && bool_decide (b = "databases")
             && negb (bool_decide (tenant = "")) && negb (bool_decide (rest = ""))
          then Some (tenant, rest)
          else None
      | _ => None
      end
  end.

(** The [Authorization] header: absent, not readable as text, or its text. *)
Definition extract_bearer_token (header : option (option string)) : result string AuthError :=
  match header with
  | None => Err Unauthenticated
  | Some None => Err CredentialMalformed
  | Some (Some auth_str) => ok_or (str_strip_prefix "Bearer " auth_str) CredentialMalformed
  end.

Section Pipeline.
Context `{JwtCodec} `{UuidText}.

Record JwtIssuer : Type := { ji_secret : list Z; ji_issuer_id : string }.

(** [JwtIssuer::issue] *)
Definition jwt_issue (i : JwtIssuer) (claims : JwtClaims) : result string AuthError :=
  ok_or (jwt_encode (ji_secret i) claims) CredentialMalformed.

(** [JwtIssuer::verify] *)
Definition jwt_verify (i : JwtIssuer) (token : string) : result JwtClaims AuthError :=
  match jwt_decode (ji_secret i) token with
  | Ok c => Ok c
  | Err InvalidSignature => Err CredentialInvalid
  | Err _ => Err CredentialMalformed
  | Panic => Panic
  end.

Record AuthPipelineState : Type := {
  ap_issuer : JwtIssuer;
  ap_revocation_cache : option (gset Uuid);
  ap_storage : option AuthStore
}.

(** [InMemoryRevocationCache::contains] and [insert] *)
Definition cache_contains (st : AuthPipelineState) (jti : Uuid) : bool :=
  match ap_revocation_cache st with Some c => bool_decide (jti ∈ c) | None => false end.

Definition cache_insert (st : AuthPipelineState) (jti : Uuid) : AuthPipelineState := {|
  ap_issuer := ap_issuer st;
  ap_revocation_cache := option_map (fun c => {[jti]} ∪ c) (ap_revocation_cache st);
  ap_storage := ap_storage st
|}.

Definition SKEW : Z := 30.

Definition required_op (m : Method) : GrantOp := match m with GET => GrantRead | _ => GrantWrite end.

Abbreviation Auth := (M AuthPipelineState AuthError).

Definition ensure (b : bool) (e : AuthError) : Auth unit := if b then ret tt else fail e.

(** Step 5: cache first, then storage; a hit in storage fills the cache. *)
Definition check_revocation (jti : Uuid) : Auth unit :=
  fun st =>
    if cache_contains st jti then (st, Err CredentialRevoked)
    else match ap_storage st with
         | None => (st, Err Unauthenticated)
         | Some store =>
             if is_jti_revoked store jti then (cache_insert st jti, Err CredentialRevoked)
             else (st, Ok tt)
         end.

(** [verify_request_inner]; [now] is the clock in seconds. *)
Definition verify_request_inner (now : Z) (header : option (option string)) (method : Method)
    (tenant database : string) : Auth ResolvedIdentity :=
  do token <- lift (extract_bearer_token header);
  do claims <- reads (fun st => jwt_verify (ap_issuer st) token);
  do issuer_id <- gets (fun st => ji_issuer_id (ap_issuer st));
  do! ensure (bool_decide (jc_iss claims = issuer_id)) CredentialForeignIssuer;
  do! ensure (negb (saturating_add64 (jc_exp claims) SKEW <? now)%Z) CredentialExpired;
  do! ensure (negb (saturating_add64 now SKEW <? jc_nbf claims)%Z) CredentialNotYetValid;
  do jti_uuid <- lift (ok_or (uuid_parse (jc_jti claims)) CredentialMalformed);
  do! check_revocation jti_uuid;
  do! ensure (bool_decide (jc_aud claims = tenant)) CredentialWrongTenant;
  let user_id := jc_sub claims in
  do store <- reads (fun st => ok_or (ap_storage st) Unauthenticated);
  do user <- lift (ok_or (get_user store user_id) UserSuspended);
  do! ensure (bool_decide (u_suspended_at_ms user = None)) UserSuspended;
  do _ <- lift (ok_or (get_tenant_member store tenant user_id) NotATenantMember);
  do granted_db <- lift (ok_or (find_database (jc_grants claims) database) DatabaseNotGranted);
  do! ensure (has_op granted_db (required_op method)) OpNotGranted;
  ret {| ri_user_id := user_id; ri_tenant_id := tenant; ri_grants := jc_grants claims |}.

(** [jwt_verify_layer]: [None] when the path is not a data-plane path and the
    request goes on without the checks. *)
Definition jwt_verify_layer (now : Z) (path : string) (header : option (option string))
    (method : Method) (st : AuthPipelineState)
    : AuthPipelineState * option (result ResolvedIdentity AuthError) :=
  match extract_tenant_database path with
  | None => (st, None)
  | Some (tenant, database) =>
      let (st', r) := verify_request_inner now header method tenant database st in (st', Some r)
  end.

(** ** Properties *)

(** Everything that must hold of a request for it to be admitted. *)
Record admitted (now : Z) (st : AuthPipelineState) (header : option (option string)) (method : Method)
    (tenant database : string) (store : AuthStore) (token : string) (claims : JwtClaims) (jti : Uuid)
    (user : User) (db : GrantedDatabase) : Prop := {
  ad_header : header = Some (Some ("Bearer " +:+ token));
  ad_decoded : jwt_decode (ji_secret (ap_issuer st)) token = Ok claims;
  ad_issuer : jc_iss claims = ji_issuer_id (ap_issuer st);
  ad_exp : (now <= saturating_add64 (jc_exp claims) SKEW)%Z;
  ad_nbf : (jc_nbf claims <= saturating_add64 now SKEW)%Z;
  ad_jti : uuid_parse (jc_jti claims) = Some jti;
  ad_cache : cache_contains st jti = false;
  ad_store : ap_storage st = Some store;
  ad_not_revoked : is_jti_revoked store jti = false;
  ad_tenant : jc_aud claims = tenant;
  ad_user : get_user store (jc_sub claims) = Some user;
  ad_active : u_suspended_at_ms user = None;
  ad_member : is_Some (get_tenant_member store tenant (jc_sub claims));
  ad_grant : find_database (jc_grants claims) database = Some db;
  ad_op : required_op method ∈ gdb_ops db
}.

Lemma ensure_ok b e st st' : ensure b e st = (st', Ok tt) <-> b = true /\ st' = st.
Proof.
  unfold ensure, ret, fail. destruct b; split.
  - by intros [= ->].
  - by intros [_ ->].
  - done.
  - by intros [[=] _].
Qed.

Lemma check_revocation_ok jti st st' :
  check_revocation jti st = (st', Ok tt) <->
  st' = st /\ cache_contains st jti = false /\
    exists store, ap_storage st = Some store /\ is_jti_revoked store jti = false.
Proof.
  unfold check_revocation. split.
  - destruct (cache_contains st jti); [done|]. destruct (ap_storage st) as [store|]; [|done].
    destruct (is_jti_revoked store jti) eqn:E; [done|]. intros [= ->]. eauto.
  - intros (-> & -> & store & -> & ->). done.
Qed.

Lemma verify_sound now header method tenant database st st' id :
  verify_request_inner now header method tenant database st = (st', Ok id) ->
  exists store token claims jti user db,
    admitted now st header method tenant database store token claims jti user db /\
    st' = st /\ id = {| ri_user_id := jc_sub claims; ri_tenant_id := tenant; ri_grants := jc_grants claims |}.
Proof.
  unfold verify_request_inner, lift, reads, gets.
  intros (s1 & token & [= <- Htok] & Hk)%bind_ok.
  apply bind_ok in Hk as (s2 & claims & [= <- Hver] & Hk).
  apply bind_ok in Hk as (s3 & issuer & [= <- <-] & Hk).
  apply bind_ok in Hk as (s4 & [] & [Hiss ->]%ensure_ok & Hk).
  apply bind_ok in Hk as (s5 & [] & [Hexp ->]%ensure_ok & Hk).
  apply bind_ok in Hk as (s6 & [] & [Hnbf ->]%ensure_ok & Hk).
  apply bind_ok in Hk as (s7 & jti & [= <- Hjti] & Hk).
  apply bind_ok in Hk as (s8 & [] & (-> & Hcache & store & Hst & Hrev)%check_revocation_ok & Hk).
  apply bind_ok in Hk as (s9 & [] & [Haud ->]%ensure_ok & Hk).
  apply bind_ok in Hk as (s10 & store' & [= <- Hst'] & Hk).
  apply bind_ok in Hk as (s11 & user & [= <- Huser] & Hk).
  apply bind_ok in Hk as (s12 & [] & [Hact ->]%ensure_ok & Hk).
  apply bind_ok in Hk as (s13 & member & [= <- Hmem] & Hk).
  apply bind_ok in Hk as (s14 & db & [= <- Hdb] & Hk).
  apply bind_ok in Hk as (s15 & [] & [Hop ->]%ensure_ok & [= <- <-]).
  apply ok_or_ok in Hjti, Hst', Huser, Hmem, Hdb.
  rewrite bool_decide_eq_true in Hiss, Haud, Hact. rewrite Hst in Hst'. injection Hst' as <-.
  apply negb_true_iff, Z.ltb_ge in Hexp, Hnbf.
  exists store, token, claims, jti, user, db. split; [|done]. split; try done.
  - destruct header as [[auth|]|]; cbn [extract_bearer_token] in Htok; [|done..].
    apply ok_or_ok, str_strip_prefix_Some in Htok.
    by rewrite Htok.
  - unfold jwt_verify in Hver. destruct (jwt_decode _ token) as [c|[]|]; congruence.
  - unfold has_op in Hop. by apply bool_decide_eq_true in Hop.
Qed.



(** C25. A revoked credential is never admitted again: once its id is revoked,
    no sequence of later operations on users, tenants, databases, identities and
    credentials, except issuing the same id again, and no cache content, clock,
    path or method lets a request with a token of that id through. *)
Theorem revoked_never_admitted `{SerdeNumber} (a : AuthStore) (jti : Uuid) (revocation : AuthOp)
    (ops : list AuthOp) now header method tenant database st token claims
    (Hrev : revocation = ARevokeJti jti \/
            (revocation = ARevoke jti /\ is_Some (au_credential_issuances a !! jti)))
    (Hops : Forall (fun op => tracks jti op = false) ops)
    (Hst : ap_storage st = Some (fold_left run_auth ops (run_auth a revocation)))
    (Htok : header = Some (Some ("Bearer " +:+ token)))
    (Hdec : jwt_decode (ji_secret (ap_issuer st)) token = Ok claims)
    (Hjti : uuid_parse (jc_jti claims) = Some jti) :
  forall st' id, verify_request_inner now header method tenant database st <> (st', Ok id).
Proof.
  intros st' id Hv. apply verify_sound in Hv as (store & token' & claims' & jti' & user & db & Had & _).
  destruct Had as [Hh Hd _ _ _ Hj _ Hs Hr _ _ _ _ _ _].
  rewrite Hh in Htok. injection Htok as Htok. apply string_app_inj_l in Htok as ->.
  rewrite Hdec in Hd. injection Hd as <-. rewrite Hjti in Hj. injection Hj as <-.
  rewrite Hst in Hs. injection Hs as <-.
  by rewrite (revocation_lasts a jti revocation ops Hrev Hops) in Hr.
Qed.

(** A token issued here verifies here and carries its claims. *)
Lemma issued_token_verifies `{!JwtCodecLaws} i claims token :
  jwt_issue i claims = Ok token -> jwt_verify i token = Ok claims.
Proof.
  unfold jwt_issue, jwt_verify. intros Ht%ok_or_ok. by rewrite (jwt_decode_encode _ _ _ Ht).
Qed.
End Pipeline.

(** ** An example deployment *)

Section PipelineExamples.
Local Existing Instance simple_serde_number.

#[local] Instance JwtClaims_eq_dec : EqDecision JwtClaims.
Proof.
  assert (EqDecision GrantedDatabase) by solve_decision.
  assert (EqDecision Grants) by solve_decision. solve_decision.
Defined.

Definition ann_claims : JwtClaims := {|
  jc_iss := "axon"; jc_sub := "ann"; jc_aud := "acme"; jc_jti := "7"; jc_iat := 100; jc_nbf := 100;
  jc_exp := 200; jc_grants := {| gr_databases := [{| gdb_name := "orders"; gdb_ops := [GrantRead] |}] |}
|}.

(** A codec with one token. *)
#[local] Instance one_token_codec : JwtCodec := {|
  jwt_encode secret c := if decide (secret = [1%Z] /\ c = ann_claims) then Some "ann-token" else None;
  jwt_decode secret token :=
    if decide (secret = [1%Z] /\ token = "ann-token") then Ok ann_claims else Err InvalidSignature
|}.

#[local] Instance one_token_laws : JwtCodecLaws.
Proof.
  split. intros secret c token. simpl. case_decide as Hc; [|done]. intros [= <-].
  destruct Hc as [-> ->]. by rewrite decide_True.
Qed.

#[local] Instance one_uuid_text : UuidText := {|
  uuid_to_string _ := "7";
  uuid_parse s := if decide (s = "7") then Some 7%Z else None
|}.

Definition acme_store : AuthStore :=
  fold_left run_auth
    [ACreateUser 0 "ann" "Ann" None; AUpsertMember "acme" "ann" TenantRead;
     ATrack 7%Z "ann" "acme" 100 200 "[]"] auth_default.

Definition acme_state (store : AuthStore) : AuthPipelineState :=
  {| ap_issuer := {| ji_secret := [1%Z]; ji_issuer_id := "axon" |};
     ap_revocation_cache := Some ∅; ap_storage := Some store |}.

(** Ann may read her database, late by the skew, but not write to it. *)
Example ann_reads :
  snd (verify_request_inner 230 (Some (Some "Bearer ann-token")) GET "acme" "orders" (acme_state acme_store)) =
  Ok {| ri_user_id := "ann"; ri_tenant_id := "acme"; ri_grants := jc_grants ann_claims |}.
Proof. vm_refl. Qed.

Example ann_writes :
  snd (verify_request_inner 230 (Some (Some "Bearer ann-token")) POST "acme" "orders" (acme_state acme_store)) =
  Err OpNotGranted.
Proof. vm_refl. Qed.

Lemma revoked_never_admitted_witness :
  snd (verify_request_inner 150 (Some (Some "Bearer ann-token")) GET "acme" "orders"
         (acme_state (fold_left run_auth [AUpsertMember "acme" "ann" TenantAdmin]
                        (run_auth acme_store (ARevoke 7%Z))))) = Err CredentialRevoked /\
  verify_request_inner 150 (Some (Some "Bearer ann-token")) GET "acme" "orders"
    (acme_state (fold_left run_auth [AUpsertMember "acme" "ann" TenantAdmin]
                   (run_auth acme_store (ARevoke 7%Z)))) <>
  (acme_state acme_store,
   Ok {| ri_user_id := "ann"; ri_tenant_id := "acme"; ri_grants := jc_grants ann_claims |}).
Proof.
  split; [vm_refl|].
  apply (revoked_never_admitted acme_store 7%Z (ARevoke 7%Z) [AUpsertMember "acme" "ann" TenantAdmin])
    with (token := "ann-token") (claims := ann_claims); try reflexivity.
  - right. split; [reflexivity | by eexists].
  - repeat constructor.
Defined.
End PipelineExamples.
