(* ===== verification/Storage.v ===== *)
(** * The in-memory storage adapter ([crates/axon-storage/src/memory.rs])

    The whole state of [MemoryStorageAdapter] and its operations: catalog
    resolution, entity reads and writes with secondary-index maintenance,
    snapshot transactions, the audit log, mutation intents, databases and
    namespaces, schemas and views, numeric ids, index lookups and scans, and
    links.  The tenancy stores are the record [AuthStore] of the file AuthStore.

    [HashMap] and [BTreeMap] are finite maps, [HashSet] and [BTreeSet] finite
    sets; where the source iterates a [BTreeMap] in key order the model sorts
    its entries with the derived order of the key.  The system clock is an
    argument ([now]) of the operations that read it. *)

From S2P Require Import Prelude Json Ids Types IndexKeys Intents AuditLog Schema.
From S2P Require Import AuthStore.
From stdpp Require Import pretty.

Abbreviation CatalogKey := QualifiedCollectionId (only parsing).

(** Text of floats and of compound keys ([Display for f64], derived [Debug]);
    it only occurs in error messages. *)
Class TextFormat : Type := {
  f64_display : f64 -> string;
  compound_key_debug : CompoundKey -> string
}.

Definition dquote : ascii := Eval compute in Stdlib.Strings.Ascii.ascii_of_nat 34.

(** [Display for IndexValue] *)
Definition index_value_display `{TextFormat} (v : IndexValue) : string :=
  match v with
  | IVString s => String dquote (s +:+ String dquote EmptyString)
  | IVInteger n => pretty n
  | IVFloat b => f64_display b
  | IVBoolean b => if b then "true" else "false"
  | IVDatetime n => pretty n
  end.

(** [Display for Namespace] *)
Definition namespace_display (ns : Namespace) : string :=
  ns_database ns +:+ String dot (ns_schema ns).

(** ** Numeric ids *)

Record NumericIdCache : Type := {
  name_to_id : gmap CatalogKey Z;
  id_to_name : gmap Z CatalogKey;
  nic_next_id : Z
}.

Definition numeric_ids_default : NumericIdCache :=
  {| name_to_id := ∅; id_to_name := ∅; nic_next_id := 0 |}.

(** [NumericIdCache::assign] *)
Definition assign (c : NumericIdCache) (collection : CatalogKey) : NumericIdCache * Z :=
  match name_to_id c !! collection with
  | Some id => (c, id)
  | None =>
      let id := wrap64 (nic_next_id c + 1) in
      ({| name_to_id := <[collection := id]> (name_to_id c);
          id_to_name := <[id := collection]> (id_to_name c);
          nic_next_id := id |}, id)
  end.

(** [NumericIdCache::remove] *)
Definition nic_remove (c : NumericIdCache) (collection : CatalogKey) : NumericIdCache :=
  match name_to_id c !! collection with
  | Some id =>
      {| name_to_id := delete collection (name_to_id c);
         id_to_name := delete id (id_to_name c);
         nic_next_id := nic_next_id c |}
  | None => c
  end.

(** ** Index entries *)

Section IndexEntries.
Context {K : Type} `{Countable K}.

(** Remove an id from the set under a key, and the key with its last id. *)
Definition index_remove (key : K) (id : EntityId) (m : gmap K (gset EntityId))
  : gmap K (gset EntityId) :=
  match m !! key with
  | Some ids =>
      let ids' := ids ∖ {[id]} in
      if decide (ids' = ∅) then delete key m else <[key := ids']> m
  | None => m
  end.

(** [entry(key).or_default().insert(id)] *)
Definition index_insert (key : K) (id : EntityId) (m : gmap K (gset EntityId))
  : gmap K (gset EntityId) :=
  <[key := {[id]} ∪ default ∅ (m !! key)]> m.

(** Some other entity is under the key. *)
Definition index_conflict (key : K) (id : EntityId) (m : gmap K (gset EntityId)) : bool :=
  match m !! key with
  | Some ids => existsb (fun eid => negb (bool_decide (eid = id))) (elements ids)
  | None => false
  end.
End IndexEntries.

(** ** State *)

Abbreviation IndexKey := (CatalogKey * string * IndexValue)%type (only parsing).
Abbreviation CompoundIndexKey := (CatalogKey * nat * CompoundKey)%type (only parsing).
(** (source collection, source id, link type, target collection, target id) *)
Abbreviation MemoryLinkKey := (string * string * string * string * string)%type (only parsing).
(** (tenant id, database id, intent id) *)
Abbreviation IntentKey := (string * string * string)%type (only parsing).

Section Adapter.
Context `{SerdeNumber} `{TextFormat}.

Abbreviation CollectionMap := (gmap EntityId Entity) (only parsing).
Abbreviation SchemaVersionEntry := (CollectionSchema * Z)%type (only parsing).
Abbreviation CollectionViewEntry := (CollectionView * Z)%type (only parsing).

Record TxSnapshot : Type := {
  ts_data : gmap CatalogKey CollectionMap;
  ts_schema_versions : gmap CatalogKey (gmap Z SchemaVersionEntry);
  ts_collection_views : gmap CatalogKey CollectionViewEntry;
  ts_collections : gset CatalogKey;
  ts_databases : gset string;
  ts_namespaces : gmap string (gset string);
  ts_indexes : gmap IndexKey (gset EntityId);
  ts_compound_indexes : gmap CompoundIndexKey (gset EntityId);
  ts_numeric_ids : NumericIdCache;
  ts_links : gmap MemoryLinkKey Link;
  ts_mutation_intents : gmap IntentKey MutationIntent;
  ts_audit_log : MemoryAuditLog
}.

Record MemoryStorageAdapter : Type := {
  s_data : gmap CatalogKey CollectionMap;
  s_schema_versions : gmap CatalogKey (gmap Z SchemaVersionEntry);
  s_collection_views : gmap CatalogKey CollectionViewEntry;
  s_collections : gset CatalogKey;
  s_databases : gset string;
  s_namespaces : gmap string (gset string);
  s_tx_snapshot : option TxSnapshot;
  s_structural_versions : gmap CatalogKey Z;
  s_indexes : gmap IndexKey (gset EntityId);
  s_compound_indexes : gmap CompoundIndexKey (gset EntityId);
  s_numeric_ids : NumericIdCache;
  s_links : gmap MemoryLinkKey Link;
  s_mutation_intents : gmap IntentKey MutationIntent;
  s_audit_log : MemoryAuditLog;
  s_auth : AuthStore
}.

(** Field assignments. *)
Definition set_data x (s : MemoryStorageAdapter) : MemoryStorageAdapter := {|
  s_data := x;
  s_schema_versions := s_schema_versions s;
  s_collection_views := s_collection_views s;
  s_collections := s_collections s;
  s_databases := s_databases s;
  s_namespaces := s_namespaces s;
  s_tx_snapshot := s_tx_snapshot s;
  s_structural_versions := s_structural_versions s;
  s_indexes := s_indexes s;
  s_compound_indexes := s_compound_indexes s;
  s_numeric_ids := s_numeric_ids s;
  s_links := s_links s;
  s_mutation_intents := s_mutation_intents s;
  s_audit_log := s_audit_log s;
  s_auth := s_auth s
|}.
Definition set_schema_versions x (s : MemoryStorageAdapter) : MemoryStorageAdapter := {|
  s_data := s_data s;
  s_schema_versions := x;
  s_collection_views := s_collection_views s;
  s_collections := s_collections s;
  s_databases := s_databases s;
  s_namespaces := s_namespaces s;
  s_tx_snapshot := s_tx_snapshot s;
  s_structural_versions := s_structural_versions s;
  s_indexes := s_indexes s;
  s_compound_indexes := s_compound_indexes s;
  s_numeric_ids := s_numeric_ids s;
  s_links := s_links s;
  s_mutation_intents := s_mutation_intents s;
  s_audit_log := s_audit_log s;
  s_auth := s_auth s
|}.
Definition set_collection_views x (s : MemoryStorageAdapter) : MemoryStorageAdapter := {|
  s_data := s_data s;
  s_schema_versions := s_schema_versions s;
  s_collection_views := x;
  s_collections := s_collections s;
  s_databases := s_databases s;
  s_namespaces := s_namespaces s;
  s_tx_snapshot := s_tx_snapshot s;
  s_structural_versions := s_structural_versions s;
  s_indexes := s_indexes s;
  s_compound_indexes := s_compound_indexes s;
  s_numeric_ids := s_numeric_ids s;
  s_links := s_links s;
  s_mutation_intents := s_mutation_intents s;
  s_audit_log := s_audit_log s;
  s_auth := s_auth s
|}.
Definition set_collections x (s : MemoryStorageAdapter) : MemoryStorageAdapter := {|
  s_data := s_data s;
  s_schema_versions := s_schema_versions s;
  s_collection_views := s_collection_views s;
  s_collections := x;
  s_databases := s_databases s;
  s_namespaces := s_namespaces s;
  s_tx_snapshot := s_tx_snapshot s;
  s_structural_versions := s_structural_versions s;
  s_indexes := s_indexes s;
  s_compound_indexes := s_compound_indexes s;
  s_numeric_ids := s_numeric_ids s;
  s_links := s_links s;
  s_mutation_intents := s_mutation_intents s;
  s_audit_log := s_audit_log s;
  s_auth := s_auth s
|}.
Definition set_databases x (s : MemoryStorageAdapter) : MemoryStorageAdapter := {|
  s_data := s_data s;
  s_schema_versions := s_schema_versions s;
  s_collection_views := s_collection_views s;
  s_collections := s_collections s;
  s_databases := x;
  s_namespaces := s_namespaces s;
  s_tx_snapshot := s_tx_snapshot s;
  s_structural_versions := s_structural_versions s;
  s_indexes := s_indexes s;
  s_compound_indexes := s_compound_indexes s;
  s_numeric_ids := s_numeric_ids s;
  s_links := s_links s;
  s_mutation_intents := s_mutation_intents s;
  s_audit_log := s_audit_log s;
  s_auth := s_auth s
|}.
Definition set_namespaces x (s : MemoryStorageAdapter) : MemoryStorageAdapter := {|
  s_data := s_data s;
  s_schema_versions := s_schema_versions s;
  s_collection_views := s_collection_views s;
  s_collections := s_collections s;
  s_databases := s_databases s;
  s_namespaces := x;
  s_tx_snapshot := s_tx_snapshot s;
  s_structural_versions := s_structural_versions s;
  s_indexes := s_indexes s;
  s_compound_indexes := s_compound_indexes s;
  s_numeric_ids := s_numeric_ids s;
  s_links := s_links s;
  s_mutation_intents := s_mutation_intents s;
  s_audit_log := s_audit_log s;
  s_auth := s_auth s
|}.
Definition set_tx_snapshot x (s : MemoryStorageAdapter) : MemoryStorageAdapter := {|
  s_data := s_data s;
  s_schema_versions := s_schema_versions s;
  s_collection_views := s_collection_views s;
  s_collections := s_collections s;
  s_databases := s_databases s;
  s_namespaces := s_namespaces s;
  s_tx_snapshot := x;
  s_structural_versions := s_structural_versions s;
  s_indexes := s_indexes s;
  s_compound_indexes := s_compound_indexes s;
  s_numeric_ids := s_numeric_ids s;
  s_links := s_links s;
  s_mutation_intents := s_mutation_intents s;
  s_audit_log := s_audit_log s;
  s_auth := s_auth s
|}.
Definition set_structural_versions x (s : MemoryStorageAdapter) : MemoryStorageAdapter := {|
  s_data := s_data s;
  s_schema_versions := s_schema_versions s;
  s_collection_views := s_collection_views s;
  s_collections := s_collections s;
  s_databases := s_databases s;
  s_namespaces := s_namespaces s;
  s_tx_snapshot := s_tx_snapshot s;
  s_structural_versions := x;
  s_indexes := s_indexes s;
  s_compound_indexes := s_compound_indexes s;
  s_numeric_ids := s_numeric_ids s;
  s_links := s_links s;
  s_mutation_intents := s_mutation_intents s;
  s_audit_log := s_audit_log s;
  s_auth := s_auth s
|}.
Definition set_indexes x (s : MemoryStorageAdapter) : MemoryStorageAdapter := {|
  s_data := s_data s;
  s_schema_versions := s_schema_versions s;
  s_collection_views := s_collection_views s;
  s_collections := s_collections s;
  s_databases := s_databases s;
  s_namespaces := s_namespaces s;
  s_tx_snapshot := s_tx_snapshot s;
  s_structural_versions := s_structural_versions s;
  s_indexes := x;
  s_compound_indexes := s_compound_indexes s;
  s_numeric_ids := s_numeric_ids s;
  s_links := s_links s;
  s_mutation_intents := s_mutation_intents s;
  s_audit_log := s_audit_log s;
  s_auth := s_auth s
|}.
Definition set_compound_indexes x (s : MemoryStorageAdapter) : MemoryStorageAdapter := {|
  s_data := s_data s;
  s_schema_versions := s_schema_versions s;
  s_collection_views := s_collection_views s;
  s_collections := s_collections s;
  s_databases := s_databases s;
  s_namespaces := s_namespaces s;
  s_tx_snapshot := s_tx_snapshot s;
  s_structural_versions := s_structural_versions s;
  s_indexes := s_indexes s;
  s_compound_indexes := x;
  s_numeric_ids := s_numeric_ids s;
  s_links := s_links s;
  s_mutation_intents := s_mutation_intents s;
  s_audit_log := s_audit_log s;
  s_auth := s_auth s
|}.
Definition set_numeric_ids x (s : MemoryStorageAdapter) : MemoryStorageAdapter := {|
  s_data := s_data s;
  s_schema_versions := s_schema_versions s;
  s_collection_views := s_collection_views s;
  s_collections := s_collections s;
  s_databases := s_databases s;
  s_namespaces := s_namespaces s;
  s_tx_snapshot := s_tx_snapshot s;
  s_structural_versions := s_structural_versions s;
  s_indexes := s_indexes s;
  s_compound_indexes := s_compound_indexes s;
  s_numeric_ids := x;
  s_links := s_links s;
  s_mutation_intents := s_mutation_intents s;
  s_audit_log := s_audit_log s;
  s_auth := s_auth s
|}.
Definition set_links x (s : MemoryStorageAdapter) : MemoryStorageAdapter := {|
  s_data := s_data s;
  s_schema_versions := s_schema_versions s;
  s_collection_views := s_collection_views s;
  s_collections := s_collections s;
  s_databases := s_databases s;
  s_namespaces := s_namespaces s;
  s_tx_snapshot := s_tx_snapshot s;
  s_structural_versions := s_structural_versions s;
  s_indexes := s_indexes s;
  s_compound_indexes := s_compound_indexes s;
  s_numeric_ids := s_numeric_ids s;
  s_links := x;
  s_mutation_intents := s_mutation_intents s;
  s_audit_log := s_audit_log s;
  s_auth := s_auth s
|}.
Definition set_mutation_intents x (s : MemoryStorageAdapter) : MemoryStorageAdapter := {|
  s_data := s_data s;
  s_schema_versions := s_schema_versions s;
  s_collection_views := s_collection_views s;
  s_collections := s_collections s;
  s_databases := s_databases s;
  s_namespaces := s_namespaces s;
  s_tx_snapshot := s_tx_snapshot s;
  s_structural_versions := s_structural_versions s;
  s_indexes := s_indexes s;
  s_compound_indexes := s_compound_indexes s;
  s_numeric_ids := s_numeric_ids s;
  s_links := s_links s;
  s_mutation_intents := x;
  s_audit_log := s_audit_log s;
  s_auth := s_auth s
|}.
Definition set_audit_log x (s : MemoryStorageAdapter) : MemoryStorageAdapter := {|
  s_data := s_data s;
  s_schema_versions := s_schema_versions s;
  s_collection_views := s_collection_views s;
  s_collections := s_collections s;
  s_databases := s_databases s;
  s_namespaces := s_namespaces s;
  s_tx_snapshot := s_tx_snapshot s;
  s_structural_versions := s_structural_versions s;
  s_indexes := s_indexes s;
  s_compound_indexes := s_compound_indexes s;
  s_numeric_ids := s_numeric_ids s;
  s_links := s_links s;
  s_mutation_intents := s_mutation_intents s;
  s_audit_log := x;
  s_auth := s_auth s
|}.
Definition set_auth x (s : MemoryStorageAdapter) : MemoryStorageAdapter := {|
  s_data := s_data s;
  s_schema_versions := s_schema_versions s;
  s_collection_views := s_collection_views s;
  s_collections := s_collections s;
  s_databases := s_databases s;
  s_namespaces := s_namespaces s;
  s_tx_snapshot := s_tx_snapshot s;
  s_structural_versions := s_structural_versions s;
  s_indexes := s_indexes s;
  s_compound_indexes := s_compound_indexes s;
  s_numeric_ids := s_numeric_ids s;
  s_links := s_links s;
  s_mutation_intents := s_mutation_intents s;
  s_audit_log := s_audit_log s;
  s_auth := x
|}.

(** [MemoryStorageAdapter::default] *)
Definition storage_default : MemoryStorageAdapter := {|
  s_data := ∅;
  s_schema_versions := ∅;
  s_collection_views := ∅;
  s_collections := ∅;
  s_databases := {[DEFAULT_DATABASE]};
  s_namespaces := {[DEFAULT_DATABASE := {[DEFAULT_SCHEMA]}]};
  s_tx_snapshot := None;
  s_structural_versions := ∅;
  s_indexes := ∅;
  s_compound_indexes := ∅;
  s_numeric_ids := numeric_ids_default;
  s_links := ∅;
  s_mutation_intents := ∅;
  s_audit_log := audit_log_default;
  s_auth := auth_default
|}.

Local Open Scope axon_scope.
Abbreviation Op := (M MemoryStorageAdapter AxonError) (only parsing).

(** ** Catalog *)

Definition registered_catalog_keys (s : MemoryStorageAdapter) (collection : CollectionId)
  : list CatalogKey :=
  sort_by qualified_compare
    (List.filter (fun key => bool_decide (q_collection key = collection))
       (elements (s_collections s))).

Definition resolve_catalog_key (s : MemoryStorageAdapter) (collection : CollectionId)
  : result CatalogKey AxonError :=
  let '(namespace, bare_collection) := parse collection in
  if negb (bool_decide (bare_collection = collection))
  then Ok (from_parts namespace bare_collection)
  else
    let keys := registered_catalog_keys s collection in
    match keys with
    | [] => Ok (from_parts default_ns collection)
    | [key] => Ok key
    | _ =>
        let default_key := from_parts default_ns collection in
        if bool_decide (default_key ∈ keys) then Ok default_key
        else Err (InvalidArgument ("collection '" +:+ collection +:+
               "' exists in multiple namespaces; qualify the namespace"))
    end.

Definition bump_structural_version (key : CatalogKey) : Op unit :=
  modify (fun s =>
    let counter := default 0%Z (s_structural_versions s !! key) in
    set_structural_versions (<[key := saturating_add64 counter 1]> (s_structural_versions s)) s).

(** ** Secondary-index maintenance *)

(** The nested loops [for idx in indexes { for val in extract_index_values(..) }]. *)
Definition for_index_values (data : Value) (defs : list IndexDef)
    (body : IndexDef -> IndexValue -> Op unit) : Op unit :=
  for_each (fun idx =>
    do vals <- lift (extract_index_values data (ix_field idx) (ix_type idx));
    for_each (body idx) vals) defs.

Definition check_single_unique (collection_key : CatalogKey) (entity_id : EntityId)
    (idx : IndexDef) (val : IndexValue) : Op unit :=
  do s <- gets id;
  if index_conflict (collection_key, ix_field idx, val) entity_id (s_indexes s)
  then fail (UniqueViolation (ix_field idx) (index_value_display val))
  else ret tt.

Definition remove_single_entry (collection_key : CatalogKey) (entity_id : EntityId)
    (idx : IndexDef) (val : IndexValue) : Op unit :=
  modify (fun s =>
    set_indexes (index_remove (collection_key, ix_field idx, val) entity_id (s_indexes s)) s).

Definition insert_single_entry (collection_key : CatalogKey) (entity_id : EntityId)
    (idx : IndexDef) (val : IndexValue) : Op unit :=
  modify (fun s =>
    set_indexes (index_insert (collection_key, ix_field idx, val) entity_id (s_indexes s)) s).

(** [remove_single_indexes] *)
Definition remove_single_indexes (collection_key : CatalogKey) (entity_id : EntityId)
    (data : Value) (indexes : list IndexDef) : Op unit :=
  for_index_values data indexes (remove_single_entry collection_key entity_id).

(** [maintain_single_indexes]: check every unique index first, then move the
    entries of the old image to the new one. *)
Definition maintain_single_indexes (collection_key : CatalogKey) (entity_id : EntityId)
    (old_data : option Value) (new_data : Value) (indexes : list IndexDef) : Op unit :=
  do! for_index_values new_data (List.filter ix_unique indexes)
        (check_single_unique collection_key entity_id);
  do! match old_data with
      | Some old => for_index_values old indexes (remove_single_entry collection_key entity_id)
      | None => ret tt
      end;
  for_index_values new_data indexes (insert_single_entry collection_key entity_id).

(** [for (idx_pos, idx) in indexes.iter().enumerate()], with the compound key
    of [data] when it has one. *)
Definition enumerate {A} (l : list A) : list (nat * A) := imap (fun i a => (i, a)) l.

Definition for_compound_keys (data : Value) (defs : list (nat * CompoundIndexDef))
    (body : nat * CompoundIndexDef -> CompoundKey -> Op unit) : Op unit :=
  for_each (fun d =>
    do o <- lift (extract_compound_key data (ci_fields (snd d)));
    match o with
    | Some key => body d key
    | None => ret tt
    end) defs.

Fixpoint join_comma (l : list string) : string :=
  match l with
  | [] => EmptyString
  | [x] => x
  | x :: l' => x +:+ ", " +:+ join_comma l'
  end.

Definition check_compound_unique (collection_key : CatalogKey) (entity_id : EntityId)
    (d : nat * CompoundIndexDef) (key : CompoundKey) : Op unit :=
  do s <- gets id;
  if index_conflict (collection_key, fst d, key) entity_id (s_compound_indexes s)
  then fail (UniqueViolation (join_comma (map cf_field (ci_fields (snd d))))
               (compound_key_debug key))
  else ret tt.

Definition remove_compound_entry (collection_key : CatalogKey) (entity_id : EntityId)
    (d : nat * CompoundIndexDef) (key : CompoundKey) : Op unit :=
  modify (fun s =>
    set_compound_indexes
      (index_remove (collection_key, fst d, key) entity_id (s_compound_indexes s)) s).

Definition insert_compound_entry (collection_key : CatalogKey) (entity_id : EntityId)
    (d : nat * CompoundIndexDef) (key : CompoundKey) : Op unit :=
  modify (fun s =>
    set_compound_indexes
      (index_insert (collection_key, fst d, key) entity_id (s_compound_indexes s)) s).

(** [remove_compound_indexes_for] *)
Definition remove_compound_indexes_for (collection_key : CatalogKey) (entity_id : EntityId)
    (data : Value) (indexes : list CompoundIndexDef) : Op unit :=
  for_compound_keys data (enumerate indexes) (remove_compound_entry collection_key entity_id).

(** [maintain_compound_indexes] *)
Definition maintain_compound_indexes (collection_key : CatalogKey) (entity_id : EntityId)
    (old_data : option Value) (new_data : Value) (indexes : list CompoundIndexDef) : Op unit :=
  do! for_compound_keys new_data (List.filter (fun d => ci_unique (snd d)) (enumerate indexes))
        (check_compound_unique collection_key entity_id);
  do! match old_data with
      | Some old =>
          for_compound_keys old (enumerate indexes) (remove_compound_entry collection_key entity_id)
      | None => ret tt
      end;
  for_compound_keys new_data (enumerate indexes) (insert_compound_entry collection_key entity_id).

(** [versions.values().last()] of a [BTreeMap<u32, _>]. *)
Definition last_version (versions : gmap Z SchemaVersionEntry) : option (Z * SchemaVersionEntry) :=
  list.last (sort_by_key fst (map_to_list versions)).

(** [index_defs_for_key] *)
Definition index_defs_for_key (s : MemoryStorageAdapter) (collection_key : CatalogKey)
    (schema_version : option Z) : list IndexDef * list CompoundIndexDef :=
  match s_schema_versions s !! collection_key with
  | None => ([], [])
  | Some versions =>
      let schema :=
        match schema_version ≫= (fun v => versions !! v) with
        | Some entry => Some entry
        | None => option_map snd (last_version versions)
        end in
      match schema with
      | Some (sch, _) => (cs_indexes sch, cs_compound_indexes sch)
      | None => ([], [])
      end
  end.

(** [maintain_indexes_for_write] *)
Definition maintain_indexes_for_write (collection_key : CatalogKey) (entity_id : EntityId)
    (schema_version : option Z) (old_data : option Value) (new_data : Value) : Op unit :=
  do s <- gets id;
  let '(single, compound) := index_defs_for_key s collection_key schema_version in
  if is_nil single && is_nil compound then ret tt
  else
    do! maintain_single_indexes collection_key entity_id old_data new_data single;
    maintain_compound_indexes collection_key entity_id old_data new_data compound.

(** [remove_indexes_for_delete] *)
Definition remove_indexes_for_delete (collection_key : CatalogKey) (entity_id : EntityId)
    (schema_version : option Z) (data : Value) : Op unit :=
  do s <- gets id;
  let '(single, compound) := index_defs_for_key s collection_key schema_version in
  if is_nil single && is_nil compound then ret tt
  else
    do! remove_single_indexes collection_key entity_id data single;
    remove_compound_indexes_for collection_key entity_id data compound.

(** ** Entities *)

(** [self.data.get(&key).and_then(|col| col.get(id))] *)
Definition stored (s : MemoryStorageAdapter) (key : CatalogKey) (id : EntityId) : option Entity :=
  s_data s !! key ≫= fun col => col !! id.

(** [self.data.entry(key).or_default().insert(id, entity)] *)
Definition insert_entity (key : CatalogKey) (e : Entity) : Op unit :=
  modify (fun s =>
    set_data (<[key := <[e_id e := e]> (default ∅ (s_data s !! key))]> (s_data s)) s).

(** [StorageAdapter::get] *)
Definition get (s : MemoryStorageAdapter) (collection : CollectionId) (id : EntityId)
  : result (option Entity) AxonError :=
  let? key := resolve_catalog_key s collection in
  Ok (stored s key id).

(** [StorageAdapter::put] *)
Definition put (entity : Entity) : Op unit :=
  do key <- reads (fun s => resolve_catalog_key s (e_collection entity));
  let stored_entity := with_collection (q_collection key) entity in
  do prior <- gets (fun s => stored s key (e_id stored_entity));
  do! maintain_indexes_for_write key (e_id stored_entity) (e_schema_version stored_entity)
        (option_map e_data prior) (e_data stored_entity);
  do! insert_entity key stored_entity;
  match prior with
  | None => bump_structural_version key
  | Some _ => ret tt
  end.

(** [self.data.get_mut(&key).and_then(|col| col.remove(id))] *)
Definition remove_entity (key : CatalogKey) (id : EntityId) : Op (option Entity) :=
  do removed <- gets (fun s => stored s key id);
  do! modify (fun s =>
        match s_data s !! key with
        | Some col => set_data (<[key := delete id col]> (s_data s)) s
        | None => s
        end);
  ret removed.

(** [StorageAdapter::delete] *)
Definition delete_entity (collection : CollectionId) (id : EntityId) : Op unit :=
  do key <- reads (fun s => resolve_catalog_key s collection);
  do removed_entity <- remove_entity key id;
  do! match removed_entity with
      | Some entity =>
          remove_indexes_for_delete key id (e_schema_version entity) (e_data entity)
      | None => ret tt
      end;
  match removed_entity with
  | Some _ => bump_structural_version key
  | None => ret tt
  end.

(** [StorageAdapter::count] *)
Definition count (s : MemoryStorageAdapter) (collection : CollectionId) : result nat AxonError :=
  let? key := resolve_catalog_key s collection in
  Ok (match s_data s !! key with Some col => size col | None => 0 end).

(** [StorageAdapter::structural_version] *)
Definition structural_version (s : MemoryStorageAdapter) (collection : CollectionId)
  : result Z AxonError :=
  let? key := resolve_catalog_key s collection in
  Ok (default 0%Z (s_structural_versions s !! key)).

Definition string_le (a b : string) : bool :=
  match String.compare a b with Gt => false | _ => true end.

(** [Vec::truncate] under an optional limit. *)
Definition truncate_opt {A} (limit : option nat) (l : list A) : list A :=
  match limit with Some n => take n l | None => l end.

(** [StorageAdapter::range_scan] *)
Definition range_scan (s : MemoryStorageAdapter) (collection : CollectionId)
    (start stop : option EntityId) (limit : option nat) : result (list Entity) AxonError :=
  let? key := resolve_catalog_key s collection in
  match s_data s !! key with
  | None => Ok []
  | Some col =>
      let entities :=
        List.filter (fun e =>
          when_some start (fun lo => string_le lo (e_id e))
          && when_some stop (fun hi => string_le (e_id e) hi))
          (map snd (map_to_list col)) in
      Ok (truncate_opt limit (sort_by (fun a b => String.compare (e_id a) (e_id b)) entities))
  end.

(** [StorageAdapter::compare_and_swap] *)
Definition compare_and_swap (entity : Entity) (expected_version : Z) : Op Entity :=
  do key <- reads (fun s => resolve_catalog_key s (e_collection entity));
  do current <- gets (fun s => stored s key (e_id entity));
  match current with
  | None => fail (ConflictingVersion expected_version 0 None)
  | Some c =>
      if negb (e_version c =? expected_version)%Z
      then fail (ConflictingVersion expected_version (e_version c) (Some c))
      else
        let updated :=
          with_version (wrap64 (expected_version + 1)) (with_collection (q_collection key) entity) in
        do! maintain_indexes_for_write key (e_id updated) (e_schema_version updated)
              (Some (e_data c)) (e_data updated);
        do! insert_entity key updated;
        ret updated
  end.

(** [StorageAdapter::create_if_absent] *)
Definition create_if_absent (entity : Entity) (expected_absent_version : Z) : Op Entity :=
  do key <- reads (fun s => resolve_catalog_key s (e_collection entity));
  do current <- gets (fun s => stored s key (e_id entity));
  match current with
  | Some c => fail (ConflictingVersion expected_absent_version (e_version c) (Some c))
  | None =>
      let inserted := with_collection (q_collection key) entity in
      do! maintain_indexes_for_write key (e_id inserted) (e_schema_version inserted) None
            (e_data inserted);
      do! insert_entity key inserted;
      do! bump_structural_version key;
      ret inserted
  end.

(** ** Transactions *)

(** [StorageAdapter::begin_tx] *)
Definition begin_tx : Op unit :=
  do s <- gets id;
  match s_tx_snapshot s with
  | Some _ => fail (StorageError "transaction already active")
  | None =>
      modify (set_tx_snapshot (Some {|
        ts_data := s_data s;
        ts_schema_versions := s_schema_versions s;
        ts_collection_views := s_collection_views s;
        ts_collections := s_collections s;
        ts_databases := s_databases s;
        ts_namespaces := s_namespaces s;
        ts_indexes := s_indexes s;
        ts_compound_indexes := s_compound_indexes s;
        ts_numeric_ids := s_numeric_ids s;
        ts_links := s_links s;
        ts_mutation_intents := s_mutation_intents s;
        ts_audit_log := s_audit_log s |}))
  end.

(** [StorageAdapter::commit_tx] *)
Definition commit_tx : Op unit :=
  do s <- gets id;
  match s_tx_snapshot s with
  | None => fail (StorageError "no active transaction")
  | Some _ => modify (set_tx_snapshot None)
  end.

(** [StorageAdapter::abort_tx]; the structural versions are not restored. *)
Definition abort_tx : Op unit :=
  modify (fun s =>
    match s_tx_snapshot s with
    | None => s
    | Some snapshot => {|
        s_data := ts_data snapshot;
        s_schema_versions := ts_schema_versions snapshot;
        s_collection_views := ts_collection_views snapshot;
        s_collections := ts_collections snapshot;
        s_databases := ts_databases snapshot;
        s_namespaces := ts_namespaces snapshot;
        s_tx_snapshot := None;
        s_structural_versions := s_structural_versions s;
        s_indexes := ts_indexes snapshot;
        s_compound_indexes := ts_compound_indexes snapshot;
        s_numeric_ids := ts_numeric_ids snapshot;
        s_links := ts_links snapshot;
        s_mutation_intents := ts_mutation_intents snapshot;
        s_audit_log := ts_audit_log snapshot;
        s_auth := s_auth s |}
    end).

(** ** Audit *)

(** [StorageAdapter::append_audit_entry] *)
Definition append_audit_entry (now : Z) (entry : AuditEntry) : Op AuditEntry :=
  fun s => let '(log, e) := append (s_audit_log s) now entry in (set_audit_log log s, Ok e).
End Adapter.
