(* ===== verification/Catalog.v ===== *)
(** * Links, intents, catalog and index queries of the in-memory adapter
    ([crates/axon-storage/src/memory.rs], with the trait defaults of
    [adapter.rs] that it inherits)

    The operations of [MemoryStorageAdapter] that are built on the entity
    operations of the file Storage or that keep the other parts of its state. *)

From S2P Require Import Prelude Json Ids Types IndexKeys Intents AuditLog Schema.
From S2P Require Import AuthStore Storage.
From stdpp Require Import pretty.

Section Catalog.
Context `{SerdeNumber} `{TextFormat}.

Local Open Scope axon_scope.
Abbreviation Op := (M MemoryStorageAdapter AxonError) (only parsing).

(** ** Links *)

Definition link_key_of (l : Link) : MemoryLinkKey :=
  (l_source_collection l, l_source_id l, l_link_type l, l_target_collection l, l_target_id l).

(** [StorageAdapter::put_link] *)
Definition put_link (link : Link) : Op unit :=
  do! modify (fun s => set_links (<[link_key_of link := link]> (s_links s)) s);
  do! put (link_to_entity link);
  put (link_to_rev_entity link).

(** [StorageAdapter::delete_link] *)
Definition delete_link (source_collection : CollectionId) (source_id : EntityId)
    (link_type : string) (target_collection : CollectionId) (target_id : EntityId) : Op unit :=
  do! modify (fun s =>
        set_links (delete (source_collection, source_id, link_type, target_collection, target_id)
                     (s_links s)) s);
  let fwd_id := storage_id source_collection source_id link_type target_collection target_id in
  let rev_id := rev_storage_id target_collection target_id source_collection source_id link_type in
  do! delete_entity links_collection fwd_id;
  delete_entity links_rev_collection rev_id.

(** [StorageAdapter::get_link] *)
Definition get_link (s : MemoryStorageAdapter) (source_collection : CollectionId)
    (source_id : EntityId) (link_type : string) (target_collection : CollectionId)
    (target_id : EntityId) : option Link :=
  s_links s !! (source_collection, source_id, link_type, target_collection, target_id).

(** Derived [Ord] of a link key, component by component. *)
Definition link_key_compare (a b : MemoryLinkKey) : comparison :=
  let '(a1, a2, a3, a4, a5) := a in
  let '(b1, b2, b3, b4, b5) := b in
  then_cmp (String.compare a1 b1) (then_cmp (String.compare a2 b2)
    (then_cmp (String.compare a3 b3) (then_cmp (String.compare a4 b4) (String.compare a5 b5)))).

(** [self.links.iter()] in key order. *)
Definition links_in_order (s : MemoryStorageAdapter) : list (MemoryLinkKey * Link) :=
  sort_by (fun a b => link_key_compare (fst a) (fst b)) (map_to_list (s_links s)).

(** [StorageAdapter::list_outbound_links] *)
Definition list_outbound_links (s : MemoryStorageAdapter) (source_collection : CollectionId)
    (source_id : EntityId) (link_type : option string) : list Link :=
  map snd (List.filter (fun kv =>
    let '(sc, si, lt, _, _) := fst kv in
    bool_decide (sc = source_collection) && bool_decide (si = source_id)
    && when_some link_type (fun f => bool_decide (lt = f))) (links_in_order s)).

(** [StorageAdapter::list_inbound_links] *)
Definition list_inbound_links (s : MemoryStorageAdapter) (target_collection : CollectionId)
    (target_id : EntityId) (link_type : option string) : list Link :=
  map snd (List.filter (fun kv =>
    let '(_, _, lt, tc, ti) := fst kv in
    bool_decide (tc = target_collection) && bool_decide (ti = target_id)
    && when_some link_type (fun f => bool_decide (lt = f))) (links_in_order s)).

(** [purge_links_for_collections], the trait default the adapter inherits. *)
Definition purge_link_row (doomed : gset CatalogKey) (entity : Entity) : Op unit :=
  match link_from_entity entity with
  | None => ret tt
  | Some link =>
      do source <- reads (fun s => resolve_catalog_key s (l_source_collection link));
      do target <- reads (fun s => resolve_catalog_key s (l_target_collection link));
      if bool_decide (source ∈ doomed) || bool_decide (target ∈ doomed)
      then delete_link (l_source_collection link) (l_source_id link) (l_link_type link)
             (l_target_collection link) (l_target_id link)
      else ret tt
  end.

Definition purge_links_for_collections (collections : list CatalogKey) : Op unit :=
  if is_nil collections then ret tt
  else
    let doomed : gset CatalogKey := list_to_set collections in
    do links <- reads (fun s => range_scan s links_collection None None None);
    for_each (purge_link_row doomed) links.

(** ** Mutation intents *)

Definition mutation_intent_key (tenant_id database_id intent_id : string) : IntentKey :=
  (tenant_id, database_id, intent_id).

Definition is_expirable_intent_state (st : ApprovalState) : bool :=
  match st with AS_None | Pending | Approved => true | _ => false end.

(** [StorageAdapter::create_mutation_intent] *)
Definition create_mutation_intent (intent : MutationIntent) : Op unit :=
  let key := mutation_intent_key (tenant_id (mi_scope intent)) (database_id (mi_scope intent))
               (intent_id intent) in
  do s <- gets id;
  match s_mutation_intents s !! key with
  | Some _ =>
      fail (AlreadyExists ("mutation intent '" +:+ intent_id intent +:+
        "' already exists in tenant '" +:+ tenant_id (mi_scope intent) +:+ "' database '" +:+
        database_id (mi_scope intent) +:+ "'"))
  | None => modify (set_mutation_intents (<[key := intent]> (s_mutation_intents s)))
  end.

(** [StorageAdapter::get_mutation_intent] *)
Definition get_mutation_intent (s : MemoryStorageAdapter) (tenant database intent : string)
  : option MutationIntent :=
  s_mutation_intents s !! mutation_intent_key tenant database intent.

Definition intent_key_compare (a b : IntentKey) : comparison :=
  let '(a1, a2, a3) := a in
  let '(b1, b2, b3) := b in
  then_cmp (String.compare a1 b1) (then_cmp (String.compare a2 b2) (String.compare a3 b3)).

(** Sorted by deadline, then by id. *)
Definition sort_intents (l : list MutationIntent) : list MutationIntent :=
  sort_by (fun a b => then_cmp (Z.compare (mi_expires_at a) (mi_expires_at b))
                               (String.compare (intent_id a) (intent_id b))) l.

(** [self.mutation_intents.values()] in key order. *)
Definition intents_in_order (s : MemoryStorageAdapter) : list MutationIntent :=
  map snd (sort_by (fun a b => intent_key_compare (fst a) (fst b))
             (map_to_list (s_mutation_intents s))).

Definition in_scope (tenant database : string) (i : MutationIntent) : bool :=
  bool_decide (tenant_id (mi_scope i) = tenant) && bool_decide (database_id (mi_scope i) = database).

(** [StorageAdapter::list_pending_mutation_intents] *)
Definition list_pending_mutation_intents (s : MemoryStorageAdapter) (tenant database : string)
    (now_ns : Z) (limit : option nat) : list MutationIntent :=
  truncate_opt limit (sort_intents (List.filter (fun i =>
    in_scope tenant database i && bool_decide (mi_approval_state i = Pending)
    && (now_ns <? mi_expires_at i)%Z) (intents_in_order s))).

(** [StorageAdapter::list_expired_mutation_intents] *)
Definition list_expired_mutation_intents (s : MemoryStorageAdapter) (tenant database : string)
    (now_ns : Z) (limit : option nat) : list MutationIntent :=
  truncate_opt limit (sort_intents (List.filter (fun i =>
    in_scope tenant database i && (mi_expires_at i <=? now_ns)%Z
    && is_expirable_intent_state (mi_approval_state i)) (intents_in_order s))).

(** [StorageAdapter::list_mutation_intents_by_state] *)
Definition list_mutation_intents_by_state (s : MemoryStorageAdapter) (tenant database : string)
    (st : ApprovalState) (limit : option nat) : list MutationIntent :=
  truncate_opt limit (sort_intents (List.filter (fun i =>
    in_scope tenant database i && bool_decide (mi_approval_state i = st)) (intents_in_order s))).

(** [StorageAdapter::update_mutation_intent_state] *)
Definition update_mutation_intent_state (tenant database intent : string)
    (expected new_state : ApprovalState) : Op MutationIntent :=
  let key := mutation_intent_key tenant database intent in
  do s <- gets id;
  match s_mutation_intents s !! key with
  | None => fail (NotFound ("mutation intent '" +:+ intent +:+ "'"))
  | Some i =>
      if negb (bool_decide (mi_approval_state i = expected))
      then fail (InvalidOperation ("mutation intent '" +:+ intent +:+ "' state is '" +:+
             approval_state_as_str (mi_approval_state i) +:+ "', expected '" +:+
             approval_state_as_str expected +:+ "'"))
      else
        let i' := set_approval_state new_state i in
        do! modify (set_mutation_intents (<[key := i']> (s_mutation_intents s)));
        ret i'
  end.

(** ** Databases, namespaces and the registry *)

(** [remove_catalog_key] *)
Definition remove_catalog_key (key : CatalogKey) : Op unit :=
  do! modify (fun s => set_collections (s_collections s ∖ {[key]}) s);
  do! modify (fun s => set_schema_versions (delete key (s_schema_versions s)) s);
  do! modify (fun s => set_collection_views (delete key (s_collection_views s)) s);
  do! modify (fun s => set_numeric_ids (nic_remove (s_numeric_ids s) key) s);
  do! modify (fun s => set_indexes (filter (fun kv => fst (fst (fst kv)) <> key) (s_indexes s)) s);
  modify (fun s =>
    set_compound_indexes (filter (fun kv => fst (fst (fst kv)) <> key) (s_compound_indexes s)) s).

(** [purge_collection_entities] *)
Definition purge_collection_entities (collection : CatalogKey) : Op unit :=
  do removed <- gets (fun s => s_data s !! collection);
  do! modify (fun s => set_data (delete collection (s_data s)) s);
  match removed with
  | Some col => if (size col =? 0)%nat then ret tt else bump_structural_version collection
  | None => ret tt
  end.

Definition purge_doomed_collection_entities (doomed : list CatalogKey) : Op unit :=
  for_each purge_collection_entities doomed.

Definition namespace_collection_keys (s : MemoryStorageAdapter) (ns : Namespace)
  : list CatalogKey :=
  List.filter (fun key => bool_decide (q_namespace key = ns)) (elements (s_collections s)).

Definition database_collection_keys (s : MemoryStorageAdapter) (database : string)
  : list CatalogKey :=
  List.filter (fun key => bool_decide (ns_database (q_namespace key) = database))
    (elements (s_collections s)).

(** The common tail of dropping a database or a namespace. *)
Definition drop_collections (doomed : list CatalogKey) : Op unit :=
  do! purge_links_for_collections doomed;
  do! purge_doomed_collection_entities doomed;
  for_each remove_catalog_key doomed.

(** [StorageAdapter::create_database] *)
Definition create_database (name : string) : Op unit :=
  do s <- gets id;
  if bool_decide (name ∈ s_databases s) then fail (AlreadyExists ("database '" +:+ name +:+ "'"))
  else
    do! modify (fun s => set_databases ({[name]} ∪ s_databases s) s);
    modify (fun s => set_namespaces (<[name := {[DEFAULT_SCHEMA]}]> (s_namespaces s)) s).

(** [StorageAdapter::list_databases] *)
Definition list_databases (s : MemoryStorageAdapter) : list string :=
  sort_by String.compare (elements (s_databases s)).

(** [StorageAdapter::drop_database] *)
Definition drop_database (name : string) : Op unit :=
  do s <- gets id;
  if negb (bool_decide (name ∈ s_databases s))
  then fail (NotFound ("database '" +:+ name +:+ "'"))
  else
    do! modify (fun s => set_databases (s_databases s ∖ {[name]}) s);
    do! modify (fun s => set_namespaces (delete name (s_namespaces s)) s);
    do doomed <- gets (fun s => database_collection_keys s name);
    drop_collections doomed.

(** [StorageAdapter::create_namespace] *)
Definition create_namespace (ns : Namespace) : Op unit :=
  do s <- gets id;
  match s_namespaces s !! ns_database ns with
  | None => fail (NotFound ("database '" +:+ ns_database ns +:+ "'"))
  | Some schemas =>
      if bool_decide (ns_schema ns ∈ schemas)
      then fail (AlreadyExists ("namespace '" +:+ namespace_display ns +:+ "'"))
      else modify (set_namespaces (<[ns_database ns := {[ns_schema ns]} ∪ schemas]> (s_namespaces s)))
  end.

(** [StorageAdapter::list_namespaces] *)
Definition list_namespaces (s : MemoryStorageAdapter) (database : string)
  : result (list string) AxonError :=
  match s_namespaces s !! database with
  | Some schemas => Ok (sort_by String.compare (elements schemas))
  | None => Err (NotFound ("database '" +:+ database +:+ "'"))
  end.

(** [StorageAdapter::drop_namespace] *)
Definition drop_namespace (ns : Namespace) : Op unit :=
  do s <- gets id;
  match s_namespaces s !! ns_database ns with
  | None => fail (NotFound ("database '" +:+ ns_database ns +:+ "'"))
  | Some schemas =>
      if negb (bool_decide (ns_schema ns ∈ schemas))
      then fail (NotFound ("namespace '" +:+ namespace_display ns +:+ "'"))
      else
        do! modify (set_namespaces
                      (<[ns_database ns := schemas ∖ {[ns_schema ns]}]> (s_namespaces s)));
        do doomed <- gets (fun s => namespace_collection_keys s ns);
        drop_collections doomed
  end.

(** [StorageAdapter::list_namespace_collections] *)
Definition list_namespace_collections (s : MemoryStorageAdapter) (ns : Namespace)
  : result (list CollectionId) AxonError :=
  match s_namespaces s !! ns_database ns with
  | None => Err (NotFound ("database '" +:+ ns_database ns +:+ "'"))
  | Some schemas =>
      if negb (bool_decide (ns_schema ns ∈ schemas))
      then Err (NotFound ("namespace '" +:+ namespace_display ns +:+ "'"))
      else Ok (sort_by String.compare (map q_collection (namespace_collection_keys s ns)))
  end.

(** [StorageAdapter::register_collection_in_namespace] *)
Definition register_collection_in_namespace (collection : CollectionId) (ns : Namespace) : Op unit :=
  do s <- gets id;
  match s_namespaces s !! ns_database ns with
  | None => fail (NotFound ("database '" +:+ ns_database ns +:+ "'"))
  | Some schemas =>
      if negb (bool_decide (ns_schema ns ∈ schemas))
      then fail (NotFound ("namespace '" +:+ namespace_display ns +:+ "'"))
      else
        let key := from_parts ns collection in
        do! modify (fun s => set_collections ({[key]} ∪ s_collections s) s);
        modify (fun s => set_numeric_ids (fst (assign (s_numeric_ids s) key)) s)
  end.

(** [StorageAdapter::register_collection], the trait default. *)
Definition register_collection (collection : CollectionId) : Op unit :=
  register_collection_in_namespace collection default_ns.

(** [StorageAdapter::collection_registered_in_namespace], the trait default. *)
Definition collection_registered_in_namespace (s : MemoryStorageAdapter)
    (collection : CollectionId) (ns : Namespace) : result bool AxonError :=
  let? l := list_namespace_collections s ns in
  Ok (bool_decide (collection ∈ l)).

(** [StorageAdapter::unregister_collection] *)
Definition unregister_collection (collection : CollectionId) : Op unit :=
  do key <- reads (fun s => resolve_catalog_key s collection);
  remove_catalog_key key.

(** [StorageAdapter::list_collections] *)
Definition list_collections (s : MemoryStorageAdapter) : list CollectionId :=
  sort_by String.compare (map q_collection (elements (s_collections s))).

(** [StorageAdapter::collection_numeric_id] *)
Definition collection_numeric_id (s : MemoryStorageAdapter) (collection : CollectionId)
  : result (option Z) AxonError :=
  let? key := resolve_catalog_key s collection in
  Ok (name_to_id (s_numeric_ids s) !! key).

(** [StorageAdapter::collection_by_numeric_id] *)
Definition collection_by_numeric_id (s : MemoryStorageAdapter) (numeric_id : Z)
  : option CollectionId :=
  option_map q_collection (id_to_name (s_numeric_ids s) !! numeric_id).

(** ** Schemas and views *)

(** [schema.collection.as_str().split('.').next_back()] *)
Definition last_segment (name : string) : string :=
  default name (list.last (split_on dot name)).

(** [u32] addition in a build without overflow checks. *)
Definition wrap32 (z : Z) : Z := z mod 2 ^ 32.

(** [StorageAdapter::put_schema] *)
Definition put_schema (now : Z) (schema : CollectionSchema) : Op unit :=
  do key <- reads (fun s => resolve_catalog_key s (cs_collection schema));
  modify (fun s =>
    let versions := default ∅ (s_schema_versions s !! key) in
    let next_version :=
      match last_version versions with Some (v, _) => wrap32 (v + 1) | None => 1%Z end in
    let versioned := schema_with (last_segment (cs_collection schema)) next_version schema in
    set_schema_versions
      (<[key := <[next_version := (versioned, timestamp_of now)]> versions]> (s_schema_versions s)) s).

(** [StorageAdapter::get_schema] *)
Definition get_schema (s : MemoryStorageAdapter) (collection : CollectionId)
  : result (option CollectionSchema) AxonError :=
  let? key := resolve_catalog_key s collection in
  Ok (s_schema_versions s !! key ≫= fun versions =>
      option_map (fun e => fst (snd e)) (last_version versions)).

(** [StorageAdapter::get_schema_version] *)
Definition get_schema_version (s : MemoryStorageAdapter) (collection : CollectionId) (version : Z)
  : result (option CollectionSchema) AxonError :=
  let? key := resolve_catalog_key s collection in
  Ok (s_schema_versions s !! key ≫= fun versions => option_map fst (versions !! version)).

(** [StorageAdapter::list_schema_versions] *)
Definition list_schema_versions (s : MemoryStorageAdapter) (collection : CollectionId)
  : result (list (Z * Z)) AxonError :=
  let? key := resolve_catalog_key s collection in
  Ok (match s_schema_versions s !! key with
      | Some versions =>
          map (fun e => (fst e, snd (snd e))) (sort_by_key fst (map_to_list versions))
      | None => []
      end).

(** [StorageAdapter::delete_schema] *)
Definition delete_schema (collection : CollectionId) : Op unit :=
  do key <- reads (fun s => resolve_catalog_key s collection);
  modify (fun s => set_schema_versions (delete key (s_schema_versions s)) s).

Definition unregistered_collection_error (collection : CollectionId) : AxonError :=
  InvalidArgument ("collection '" +:+ collection +:+ "' is not registered").

(** [StorageAdapter::put_collection_view] *)
Definition put_collection_view (now : Z) (view : CollectionView) : Op CollectionView :=
  do key <- reads (fun s => resolve_catalog_key s (cv_collection view));
  do s <- gets id;
  if negb (bool_decide (key ∈ s_collections s))
  then fail (unregistered_collection_error (cv_collection view))
  else
    let next_version :=
      match s_collection_views s !! key with
      | Some (existing, _) => wrap32 (cv_version existing + 1)
      | None => 1%Z
      end in
    let updated_at_ns := timestamp_of now in
    let versioned := {|
      cv_collection := q_collection key;
      cv_description := cv_description view;
      cv_markdown_template := cv_markdown_template view;
      cv_version := next_version;
      cv_updated_at_ns := Some updated_at_ns;
      cv_updated_by := cv_updated_by view |} in
    do! modify (set_collection_views (<[key := (versioned, updated_at_ns)]> (s_collection_views s)));
    ret versioned.

(** [StorageAdapter::get_collection_view] *)
Definition get_collection_view (s : MemoryStorageAdapter) (collection : CollectionId)
  : result (option CollectionView) AxonError :=
  let? key := resolve_catalog_key s collection in
  Ok (option_map fst (s_collection_views s !! key)).

(** [StorageAdapter::delete_collection_view] *)
Definition delete_collection_view (collection : CollectionId) : Op unit :=
  do key <- reads (fun s => resolve_catalog_key s collection);
  modify (fun s => set_collection_views (delete key (s_collection_views s)) s).

(** ** Index queries *)

(** [BTreeSet::iter] *)
Definition ids_in_order (ids : gset EntityId) : list EntityId :=
  sort_by String.compare (elements ids).

(** [StorageAdapter::index_lookup] *)
Definition index_lookup (s : MemoryStorageAdapter) (collection : CollectionId) (field : string)
    (v : IndexValue) : result (list EntityId) AxonError :=
  let? key := resolve_catalog_key s collection in
  Ok (match s_indexes s !! (key, field, v) with Some ids => ids_in_order ids | None => [] end).

(** [StorageAdapter::index_unique_conflict] *)
Definition index_unique_conflict (s : MemoryStorageAdapter) (collection : CollectionId)
    (field : string) (v : IndexValue) (exclude_entity : EntityId) : result bool AxonError :=
  let? key := resolve_catalog_key s collection in
  Ok (index_conflict (key, field, v) exclude_entity (s_indexes s)).

(** [StorageAdapter::drop_indexes] *)
Definition drop_indexes (collection : CollectionId) : Op unit :=
  do key <- reads (fun s => resolve_catalog_key s collection);
  do! modify (fun s => set_indexes (filter (fun kv => fst (fst (fst kv)) <> key) (s_indexes s)) s);
  modify (fun s =>
    set_compound_indexes (filter (fun kv => fst (fst (fst kv)) <> key) (s_compound_indexes s)) s).

(** [StorageAdapter::compound_index_lookup] *)
Definition compound_index_lookup (s : MemoryStorageAdapter) (collection : CollectionId)
    (index_idx : nat) (k : CompoundKey) : result (list EntityId) AxonError :=
  let? key := resolve_catalog_key s collection in
  Ok (match s_compound_indexes s !! (key, index_idx, k) with
      | Some ids => ids_in_order ids
      | None => []
      end).

Inductive Bound (A : Type) : Type := Included (a : A) | Excluded (a : A) | Unbounded.
Arguments Included {A} a.
Arguments Excluded {A} a.
Arguments Unbounded {A}.

Definition index_key_compare (a b : IndexKey) : comparison :=
  let '(a1, a2, a3) := a in
  let '(b1, b2, b3) := b in
  then_cmp (qualified_compare a1 b1) (then_cmp (String.compare a2 b2) (index_value_compare a3 b3)).

(** [BTreeMap::range] panics on a start after the end, and on equal excluded
    bounds. *)
Definition range_panics {K} (cmp : K -> K -> comparison) (lower upper : Bound K) : bool :=
  match lower, upper with
  | Excluded a, Excluded b => match cmp a b with Lt => false | _ => true end
  | Included a, Included b | Included a, Excluded b | Excluded a, Included b =>
      match cmp a b with Gt => true | _ => false end
  | _, _ => false
  end.

Definition above {K} (cmp : K -> K -> comparison) (lower : Bound K) (k : K) : bool :=
  match lower with
  | Included a => match cmp a k with Gt => false | _ => true end
  | Excluded a => match cmp a k with Lt => true | _ => false end
  | Unbounded => true
  end.

Definition below {K} (cmp : K -> K -> comparison) (upper : Bound K) (k : K) : bool :=
  match upper with
  | Included b => match cmp k b with Gt => false | _ => true end
  | Excluded b => match cmp k b with Lt => true | _ => false end
  | Unbounded => true
  end.

Definition btree_range {K A E} (cmp : K -> K -> comparison) (lower upper : Bound K)
    (entries : list (K * A)) : result (list (K * A)) E :=
  if range_panics cmp lower upper then Panic
  else Ok (List.filter (fun kv => above cmp lower (fst kv) && below cmp upper (fst kv))
             (sort_by (fun a b => cmp (fst a) (fst b)) entries)).

Definition del_char : ascii := Eval compute in Stdlib.Strings.Ascii.ascii_of_nat 127.

(** [StorageAdapter::index_range] *)
Definition index_range (s : MemoryStorageAdapter) (collection : CollectionId) (field : string)
    (lower upper : Bound IndexValue) : result (list EntityId) AxonError :=
  let? key := resolve_catalog_key s collection in
  let lower_key :=
    match lower with
    | Included v => Included (key, field, v)
    | Excluded v => Excluded (key, field, v)
    | Unbounded => Included (key, field, IVString EmptyString)
    end in
  let upper_key :=
    match upper with
    | Included v => Included (key, field, v)
    | Excluded v => Excluded (key, field, v)
    | Unbounded => Excluded (key, field +:+ String del_char EmptyString, IVBoolean false)
    end in
  let? entries := btree_range index_key_compare lower_key upper_key (map_to_list (s_indexes s)) in
  Ok (flat_map (fun kv => if bool_decide (snd (fst (fst kv)) = field)
                          then ids_in_order (snd kv) else []) entries).

Definition compound_index_key_compare (a b : CompoundIndexKey) : comparison :=
  let '(a1, a2, a3) := a in
  let '(b1, b2, b3) := b in
  then_cmp (qualified_compare a1 b1) (then_cmp (Nat.compare a2 b2) (compound_compare a3 b3)).

(** The scan loop of [compound_index_prefix], with its three exits. *)
Fixpoint prefix_scan (key : CatalogKey) (index_idx : nat) (prefix : CompoundKey)
    (entries : list (CompoundIndexKey * gset EntityId)) : list EntityId :=
  match entries with
  | [] => []
  | ((col, idx, k), ids) :: rest =>
      if negb (bool_decide (col = key)) || negb (idx =? index_idx)%nat then []
      else if (length k <? length prefix)%nat then []
      else if negb (bool_decide (take (length prefix) k = prefix)) then []
      else ids_in_order ids ++ prefix_scan key index_idx prefix rest
  end.

(** [StorageAdapter::compound_index_prefix] *)
Definition compound_index_prefix (s : MemoryStorageAdapter) (collection : CollectionId)
    (index_idx : nat) (prefix : CompoundKey) : result (list EntityId) AxonError :=
  let? key := resolve_catalog_key s collection in
  let? entries := btree_range compound_index_key_compare (Included (key, index_idx, prefix))
                    Unbounded (map_to_list (s_compound_indexes s)) in
  Ok (prefix_scan key index_idx prefix entries).
End Catalog.

Arguments Included {A} a.
Arguments Excluded {A} a.
Arguments Unbounded {A}.
