(* ===== verification/PolicyEval.v ===== *)
(** * Policy evaluation in the request handler ([crates/axon-api/src/handler.rs])

    The subject of a request, the evaluation of compiled predicates against it
    and an entity, the decisions on operations, fields, envelopes and lifecycle
    transitions, the redactions of a read, and the static three-valued evaluation
    behind the capability listings.  The storage is reached through the class
    [StorageReads], the reads of the [StorageAdapter] trait used here.

    A relationship predicate with a [target_policy] evaluates the policy of
    another entity, recursively and without a visited set; [depth] is the number
    of nested evaluations the stack admits, and exceeding it is the outcome
    [Panic] (a stack overflow aborts the process).  [fuel] bounds the iterations of
    the breadth-first search for the schemas of a policy catalog. *)

From S2P Require Import Prelude Json Ids Types IndexKeys AuditLog.
From S2P Require Import Schema.
From S2P Require Import PolicyPlan PolicyCycles PolicyCompile.
From S2P Require Import Rules JsonOps AuthStore Roles Storage Catalog.
Local Open Scope axon_scope.

(** ** Requests *)

Section Data.
Context `{SerdeNumber}.

Record PolicySubjectSnapshot : Type := {
  ps_actor : string;
  ps_bindings : gmap string Value;
  ps_attributes : gmap string Value
}.

Record PolicyRequestSnapshot : Type := {
  sn_collection : CollectionId;
  sn_namespace : string;
  sn_database_id : string;
  sn_tenant_id : option string;
  sn_schema_version : option Z;
  sn_policy_version : option Z;
  sn_subject : PolicySubjectSnapshot
}.

(** [target_snapshot.collection = ..] *)
Definition with_snapshot_collection (c : CollectionId) (sn : PolicyRequestSnapshot)
    : PolicyRequestSnapshot := {|
  sn_collection := c; sn_namespace := sn_namespace sn; sn_database_id := sn_database_id sn;
  sn_tenant_id := sn_tenant_id sn; sn_schema_version := sn_schema_version sn;
  sn_policy_version := sn_policy_version sn; sn_subject := sn_subject sn
|}.

Inductive FieldWriteScope : Type :=
| PresentFields (data : Value)
| PatchScope (patch : Value).

Record PolicyWriteCheck : Type := {
  wc_collection : CollectionId;
  wc_entity_id : option EntityId;
  wc_operation : PolicyOperation;
  wc_current_data : option Value;
  wc_candidate_data : Value;
  wc_field_scope : FieldWriteScope;
  wc_operation_index : option Z
}.

Record PolicyOperationCheck : Type := {
  oc_collection : CollectionId;
  oc_entity_id : option EntityId;
  oc_operation : PolicyOperation;
  oc_data : Value;
  oc_operation_index : option Z
}.

Record TransitionPolicyCheck : Type := {
  tc_collection : CollectionId;
  tc_entity_id : EntityId;
  tc_lifecycle_field : string;
  tc_target_state : string;
  tc_data : Value
}.

(** A synthetic actor for the explanations of a dry run. *)
Record ExplainActorOverride : Type := {
  eo_actor : option string;
  eo_role : option string;
  eo_subject : gmap string Value
}.

(** The proposed schema of a dry run and the plans of its catalog. *)
Record PreviewedSchemaPlan : Type := {
  pv_schema : CollectionSchema;
  pv_plan : PolicyPlan;
  pv_plans : gmap string PolicyPlan;
  pv_actor_override : option ExplainActorOverride
}.

(** The reads of the storage trait that the handler's policies use. *)
Class StorageReads (S : Type) : Type := {
  sr_get : S -> CollectionId -> EntityId -> result (option Entity) AxonError;
  sr_get_schema : S -> CollectionId -> result (option CollectionSchema) AxonError;
  sr_get_schema_version : S -> CollectionId -> Z -> result (option CollectionSchema) AxonError;
  sr_range_scan : S -> CollectionId -> result (list Entity) AxonError;
  sr_count : S -> CollectionId -> result nat AxonError;
  sr_index_lookup : S -> CollectionId -> string -> IndexValue -> result (list EntityId) AxonError;
  sr_index_range :
    S -> CollectionId -> string -> Bound IndexValue -> Bound IndexValue -> result (list EntityId) AxonError;
  sr_list_collections : S -> result (list CollectionId) AxonError;
  sr_audit_entries : S -> list AuditEntry;
  sr_list_outbound_links : S -> CollectionId -> EntityId -> option string -> result (list Link) AxonError;
  sr_list_inbound_links : S -> CollectionId -> EntityId -> option string -> result (list Link) AxonError;
  sr_resolve_collection_key : S -> CollectionId -> result QualifiedCollectionId AxonError
}.

(** ** Subjects *)

Definition default_policy_subject_bindings (actor : string) (caller : option CallerIdentity)
    (attribution : option AuditAttribution) (database_id : string) : gmap string Value :=
  let user_id := match attribution with Some attr => at_user_id attr | None => actor end in
  let bindings : gmap string Value :=
    <["user_id" := JString user_id]> (<["database_id" := JString database_id]>
      (<["actor" := JString actor]> ∅)) in
  let bindings :=
    match attribution with
    | Some attr =>
        let bindings := <["tenant_id" := JString (at_tenant_id attr)]> bindings in
        match at_jti attr with
        | Some jti => <["credential_id" := JString jti]> bindings
        | None => bindings
        end
    | None => bindings
    end in
  match caller with
  | Some c => <["tenant_role" := JString (role_display (ci_role c))]> bindings
  | None => bindings
  end.

Definition resolve_policy_subject_expression (source : string) (bindings attributes : gmap string Value)
    : option Value :=
  match str_strip_prefix "subject.attributes." source with
  | Some attribute => attributes !! attribute
  | None =>
      match str_strip_prefix "subject." source with
      | Some binding => bindings !! binding
      | None => bindings !! source
      end
  end.

(** The loop that binds names to expressions, in the order of the entries. *)
Definition bind_expressions (attributes : gmap string Value) (entries : list (string * string))
    (bindings : gmap string Value) : gmap string Value :=
  fold_left (fun bindings e =>
    match resolve_policy_subject_expression (snd e) bindings attributes with
    | Some value => <[fst e := value]> bindings
    | None => bindings
    end) entries bindings.

Definition required_identity_attribute_field (attribute_name field_name : string) (value : option string)
    : result string AxonError :=
  ok_or value (SchemaValidation
    ("access_control identity attribute '" +:+ attribute_name +:+ "' is missing " +:+ field_name)).

Definition request_scoped_collection_id (collection database_id : string) : CollectionId :=
  if negb (bool_decide (database_id = DEFAULT_DATABASE)) && (length (split_on dot collection) <=? 2)%nat
  then qualify_with_database collection database_id
  else collection.

Section Subjects.
Context {S : Type} `{StorageReads S}.

(** The loop over the scanned entities: the first with the key. *)
Fixpoint find_attribute (key_field value_field : string) (key_value : Value) (entities : list Entity)
    : option Value :=
  match entities with
  | [] => None
  | e :: rest =>
      match resolve_field_path (e_data e) key_field with
      | Some candidate =>
          if value_eqb candidate key_value then resolve_field_path (e_data e) value_field
          else find_attribute key_field value_field key_value rest
      | None => find_attribute key_field value_field key_value rest
      end
  end.

Definition resolve_policy_identity_attribute (s : S) (name : string) (source : IdentityAttributeSource)
    (bindings : gmap string Value) (database_id : string) : result (option Value) AxonError :=
  if negb (bool_decide (ia_from source = "collection")) then
    Err (SchemaValidation ("unsupported access_control identity attribute source '" +:+ ia_from source
           +:+ "' for '" +:+ name +:+ "'"))
  else
    let? collection := required_identity_attribute_field name "collection" (ia_collection source) in
    let? key_field := required_identity_attribute_field name "key_field" (ia_key_field source) in
    let? key_subject := required_identity_attribute_field name "key_subject" (ia_key_subject source) in
    let? value_field := required_identity_attribute_field name "value_field" (ia_value_field source) in
    match bindings !! key_subject with
    | None => Ok None
    | Some key_value =>
        let? entities := sr_range_scan s (request_scoped_collection_id collection database_id) in
        Ok (find_attribute key_field value_field key_value entities)
    end.

(** The loop over the declared attributes. *)
Fixpoint bind_attributes (s : S) (database_id : string) (entries : list (string * IdentityAttributeSource))
    (attributes bindings : gmap string Value)
    : result (gmap string Value * gmap string Value) AxonError :=
  match entries with
  | [] => Ok (attributes, bindings)
  | (name, source) :: rest =>
      let? value := resolve_policy_identity_attribute s name source bindings database_id in
      match value with
      | Some v => bind_attributes s database_id rest (<[name := v]> attributes) (<[name := v]> bindings)
      | None => bind_attributes s database_id rest attributes bindings
      end
  end.

Definition policy_subject_for_request (s : S) (identity : option AccessControlIdentity)
    (actor : option string) (caller : option CallerIdentity) (attribution : option AuditAttribution)
    (database_id : string) : result PolicySubjectSnapshot AxonError :=
  let actor := match actor with
               | Some a => a
               | None => match caller with Some c => ci_actor c | None => "anonymous" end
               end in
  let bindings := default_policy_subject_bindings actor caller attribution database_id in
  match identity with
  | None => Ok {| ps_actor := actor; ps_bindings := bindings; ps_attributes := ∅ |}
  | Some identity =>
      let bindings := bind_expressions ∅ (map_to_list (ai_subject identity)) bindings in
      let? (attributes, bindings) :=
        bind_attributes s database_id (map_to_list (ai_attributes identity)) ∅ bindings in
      let bindings := bind_expressions attributes (map_to_list (ai_aliases identity)) bindings in
      Ok {| ps_actor := actor; ps_bindings := bindings; ps_attributes := attributes |}
  end.

Definition policy_snapshot_for_request (s : S) (collection : CollectionId)
    (schema : option CollectionSchema) (actor : option string) (caller : option CallerIdentity)
    (attribution : option AuditAttribution) : result (option PolicyRequestSnapshot) AxonError :=
  match schema with
  | None => Ok None
  | Some schema =>
      match cs_access_control schema with
      | None => Ok None
      | Some policy =>
          let? qualified := sr_resolve_collection_key s collection in
          let database_id := ns_database (q_namespace qualified) in
          let? subject := policy_subject_for_request s (ac_identity policy) actor caller attribution
                            database_id in
          Ok (Some {|
            sn_collection := collection;
            sn_namespace := namespace_display (q_namespace qualified);
            sn_database_id := database_id;
            sn_tenant_id := option_map at_tenant_id attribution;
            sn_schema_version := Some (cs_version schema);
            sn_policy_version := Some (cs_version schema);
            sn_subject := subject
          |})
      end
  end.

(** ** The schemas of a policy catalog *)

Fixpoint collect_policy_predicate_targets (p : PolicyPredicate) : list string :=
  match p with
  | PAll l | PAny l => flat_map collect_policy_predicate_targets l
  | PNot p => collect_policy_predicate_targets p
  | PRelated r => [rp_target_collection r]
  | PSharesRelation r => [sr_collection r]
  | PSubject _ _ | PField _ _ | POperation _ => []
  end.

Definition collect_optional_targets (p : option PolicyPredicate) : list string :=
  match p with Some p => collect_policy_predicate_targets p | None => [] end.

Definition collect_operation_policy_targets (policy : OperationPolicy) : list string :=
  flat_map (fun r => collect_optional_targets (pr_when r) ++ collect_optional_targets (pr_where r))
    (op_allow policy ++ op_deny policy).

Definition collect_field_access_policy_targets (policy : option FieldAccessPolicy) : list string :=
  match policy with
  | None => []
  | Some policy =>
      flat_map (fun r => collect_optional_targets (fr_when r) ++ collect_optional_targets (fr_where r))
        (fa_allow policy ++ fa_deny policy)
  end.

(** The targets as a set, in the order of its elements. *)
Definition policy_related_target_collections (policy : option AccessControlPolicy) : list string :=
  match policy with
  | None => []
  | Some policy =>
      let ops := somes [ac_read policy; ac_create policy; ac_update policy; ac_delete policy;
                        ac_write policy; ac_admin policy] in
      let output : gset string := list_to_set (
        flat_map collect_operation_policy_targets ops
        ++ flat_map (fun e => collect_field_access_policy_targets (fp_read (snd e))
                              ++ collect_field_access_policy_targets (fp_write (snd e)))
             (map_to_list (ac_fields policy))
        ++ flat_map (fun e => flat_map (fun t => collect_operation_policy_targets (snd t))
                                (map_to_list (snd e)))
             (map_to_list (ac_transitions policy))
        ++ flat_map (fun e => flat_map (fun v => collect_optional_targets (pe_when v)) (snd e))
             (map_to_list (ac_envelopes policy))) in
      elements output
  end.

(** The schemas of the targets that were not seen, in order. *)
Fixpoint unseen_targets (s : S) (seen : gset string) (targets : list string)
    : result (list CollectionSchema) AxonError :=
  match targets with
  | [] => Ok []
  | t :: rest =>
      if bool_decide (t ∈ seen) then unseen_targets s seen rest
      else
        let? schema := sr_get_schema s t in
        let? more := unseen_targets s seen rest in
        Ok (match schema with Some sc => sc :: more | None => more end)
  end.

(** The [while let Some(schema) = queue.pop_front()] loop. *)
Fixpoint catalog_search (fuel : nat) (s : S) (queue : list CollectionSchema) (seen : gset string)
    (schemas : list CollectionSchema) : result (list CollectionSchema) AxonError :=
  match queue with
  | [] => Ok schemas
  | schema :: queue' =>
      match fuel with
      | O => Panic
      | Datatypes.S fuel' =>
          if bool_decide (cs_collection schema ∈ seen) then catalog_search fuel' s queue' seen schemas
          else
            let seen := {[cs_collection schema]} ∪ seen in
            let? targets := unseen_targets s seen
                              (policy_related_target_collections (cs_access_control schema)) in
            catalog_search fuel' s (queue' ++ targets) seen (schemas ++ [schema])
      end
  end.

Definition policy_catalog_schemas (fuel : nat) (s : S) (root : CollectionSchema)
    : result (list CollectionSchema) AxonError :=
  catalog_search fuel s [root] ∅ [].

Definition compile_policy_plan_for_schema (fuel : nat) (s : S) (schema : CollectionSchema)
    : result (option PolicyPlan) AxonError :=
  let? schemas := policy_catalog_schemas fuel s schema in
  let? catalog := map_err axon_error_of_compile (compile_policy_catalog schemas) in
  Ok (pc_plans catalog !! cs_collection schema).

(** The plan that governs the target of a relationship. *)
Definition resolve_target_policy_plan (fuel : nat) (s : S) (target_collection : CollectionId)
    (preview : option PreviewedSchemaPlan) : result (option PolicyPlan) AxonError :=
  match preview ≫= (fun p => option_map (pair p) (pv_plans p !! target_collection)) with
  | Some (p, plan) =>
      let? _ := if bool_decide (cs_collection (pv_schema p) = target_collection)
                then Ok (Some (pv_schema p)) else sr_get_schema s target_collection in
      Ok (Some plan)
  | None =>
      let? target_schema := sr_get_schema s target_collection in
      match target_schema with
      | None => Ok None
      | Some target_schema => compile_policy_plan_for_schema fuel s target_schema
      end
  end.
End Subjects.

(** The reads of the in-memory adapter. *)
#[export] Instance memory_reads : StorageReads MemoryStorageAdapter := {|
  sr_get := get;
  sr_get_schema := get_schema;
  sr_get_schema_version := get_schema_version;
  sr_range_scan s c := range_scan s c None None None;
  sr_count := count;
  sr_index_lookup := index_lookup;
  sr_index_range := index_range;
  sr_list_collections s := Ok (list_collections s);
  sr_audit_entries s := log_entries (s_audit_log s);
  sr_list_outbound_links s c i lt := Ok (list_outbound_links s c i lt);
  sr_list_inbound_links s c i lt := Ok (list_inbound_links s c i lt);
  sr_resolve_collection_key := resolve_catalog_key
|}.
End Data.
