(* ===== verification/PolicyDecide.v ===== *)
(** * Policy decisions of the request handler ([crates/axon-api/src/handler.rs])

    Predicates, rules and decisions: the evaluation of compiled predicates, the
    deny-first decision on an operation, field write checks, envelopes and
    transitions, read redactions, and the static evaluation without an entity. *)

From S2P Require Import Prelude Json Ids Types IndexKeys AuditLog.
From S2P Require Import Schema PolicyPlan PolicyCycles PolicyCompile.
From S2P Require Import Rules JsonOps AuthStore Roles Storage Catalog PolicyEval.
Local Open Scope axon_scope.

(** ** Loops over rules *)

Section Loops.
Context {A E : Type} (f : A -> result bool E).

(** The first element that matches; later ones are not evaluated. *)
Fixpoint first_match (l : list A) : result (option A) E :=
  match l with
  | [] => Ok None
  | a :: l' => let? b := f a in if b then Ok (Some a) else first_match l'
  end.

(** Whether all, or some, match; the first that decides ends the loop. *)
Fixpoint all_hold (l : list A) : result bool E :=
  match l with
  | [] => Ok true
  | a :: l' => let? b := f a in if negb b then Ok false else all_hold l'
  end.
Fixpoint any_holds (l : list A) : result bool E :=
  match l with
  | [] => Ok false
  | a :: l' => let? b := f a in if b then Ok true else any_holds l'
  end.

(** Whether some element matches; all are evaluated. *)
Fixpoint any_matches (l : list A) : result bool E :=
  match l with
  | [] => Ok false
  | a :: l' =>
      let? b := f a in
      let? c := any_matches l' in
      Ok (b || c)
  end.
End Loops.

Section Decisions.
Context `{SerdeNumber}.

(** ** Comparisons *)

Definition policy_subject_value (snapshot : PolicyRequestSnapshot) (subject : string) : option Value :=
  match ps_bindings (sn_subject snapshot) !! subject with
  | Some v => Some v
  | None => ps_attributes (sn_subject snapshot) !! subject
  end.

Definition policy_value_contains_subject (value subject : Value) : bool :=
  match value with
  | Array items => existsb (fun item => value_eqb item subject) items
  | other => value_eqb other subject
  end.

(** [values.contains(&expected)] *)
Definition values_contain (values : list Value) (expected : Value) : bool :=
  existsb (fun v => value_eqb v expected) values.

Definition is_lt_cmp (c : comparison) : bool := match c with Lt => true | _ => false end.
Definition is_gt_cmp (c : comparison) : bool := match c with Gt => true | _ => false end.
Definition is_eq_cmp (c : comparison) : bool := match c with Eq => true | _ => false end.

Definition policy_comparison_matches (comparison : CompiledComparison)
    (snapshot : PolicyRequestSnapshot) (data : Value) : bool :=
  let values :=
    match cc_target comparison with
    | TField path => policy_values_at_path data path
    | TSubject name => option_list (policy_subject_value snapshot name)
    end in
  match cc_op comparison with
  | CoEq expected => values_contain values expected
  | CoNe expected => negb (values_contain values expected)
  | CoIn expected => existsb (fun v => existsb (fun c => value_eqb c v) expected) values
  | CoNotNull expected => Bool.eqb (existsb (fun v => negb (is_null v)) values) expected
  | CoIsNull expected => Bool.eqb (forallb is_null values) expected
  | CoGt expected => existsb (fun v => is_gt_cmp (handler_compare_values (Some v) (Some expected))) values
  | CoGte expected =>
      existsb (fun v => let ord := handler_compare_values (Some v) (Some expected) in
                        is_gt_cmp ord || is_eq_cmp ord) values
  | CoLt expected => existsb (fun v => is_lt_cmp (handler_compare_values (Some v) (Some expected))) values
  | CoLte expected =>
      existsb (fun v => let ord := handler_compare_values (Some v) (Some expected) in
                        is_lt_cmp ord || is_eq_cmp ord) values
  | CoContainsSubject subject =>
      match policy_subject_value snapshot subject with
      | Some s => existsb (fun v => policy_value_contains_subject v s) values
      | None => false
      end
  | CoEqSubject subject =>
      match policy_subject_value snapshot subject with
      | Some s => values_contain values s
      | None => false
      end
  end.

(** ** Labels and applicable policies *)

Definition policy_rule_label (rule : CompiledPolicyRule) : string :=
  default (rl_rule_id rule) (rl_name rule).
Definition field_policy_rule_label (rule : CompiledFieldPolicyRule) : string :=
  default (fl_rule_id rule) (fl_name rule).
Definition policy_envelope_label (envelope : CompiledPolicyEnvelope) : string :=
  default (ev_envelope_id envelope) (ev_name envelope).

Definition is_mutation (operation : PolicyOperation) : bool :=
  match operation with OpCreate | OpUpdate | OpDelete => true | _ => false end.

Definition applicable_operation_policies (plan : PolicyPlan) (operation : PolicyOperation)
    : list CompiledOperationPolicy :=
  option_list (pp_operations plan !! operation)
  ++ (if is_mutation operation then option_list (pp_operations plan !! OpWrite) else []).

Definition applicable_policy_envelopes (plan : PolicyPlan) (operation : PolicyOperation)
    : list CompiledPolicyEnvelope :=
  default [] (pp_envelopes plan !! operation)
  ++ (if is_mutation operation then default [] (pp_envelopes plan !! OpWrite) else []).

Definition policy_forbidden (reason : string) (collection : CollectionId) (entity_id : option EntityId)
    (field_path policy : option string) (operation_index : option Z) : AxonError :=
  PolicyDenied {|
    pd_reason := reason; pd_collection := collection; pd_entity_id := entity_id;
    pd_field_path := field_path; pd_policy := policy; pd_operation_index := operation_index;
    pd_missing_index := None; pd_cost_limit := None; pd_candidate_count := None |}.

(** ** Predicates *)

Section Predicates.
Variable related_matches : CompiledRelationshipPredicate -> result bool AxonError.
Variable snapshot : PolicyRequestSnapshot.
Variable operation : PolicyOperation.
Variable data : Value.

(** [policy_predicate_matches] of a predicate, given what its relationships
    evaluate to; [SharesRelation] never matches. *)
Fixpoint predicate_matches (predicate : CompiledPredicate) : result bool AxonError :=
  match predicate with
  | CpAll predicates => all_hold predicate_matches predicates
  | CpAny predicates => any_holds predicate_matches predicates
  | CpNot p => let? b := predicate_matches p in Ok (negb b)
  | CpCompare comparison => Ok (policy_comparison_matches comparison snapshot data)
  | CpOperation op => Ok (bool_decide (op = operation))
  | CpRelated related => related_matches related
  | CpSharesRelation _ => Ok false
  end.

Definition optional_predicate_matches (predicate : option CompiledPredicate) : result bool AxonError :=
  match predicate with
  | None => Ok true
  | Some p => predicate_matches p
  end.

(** [policy_rule_matches] and [field_policy_rule_matches]: the where clause is
    evaluated only when the when clause holds. *)
Definition both_match (when where_clause : option CompiledPredicate) : result bool AxonError :=
  let? b := optional_predicate_matches when in
  if b then optional_predicate_matches where_clause else Ok false.
End Predicates.

(** The decision over the applicable policies: a deny rule that matches wins,
    then some allow rule must match if there are any. *)
Fixpoint denial_over (rule_matches : CompiledPolicyRule -> result bool AxonError)
    (operation : PolicyOperation) (policies : list CompiledOperationPolicy)
    (allow_rules_present allow_matched : bool) : result (option string) AxonError :=
  match policies with
  | [] =>
      if allow_rules_present && negb allow_matched
      then Ok (Some (policy_operation_as_str operation)) else Ok None
  | policy :: rest =>
      let? denied := first_match rule_matches (cp_deny policy) in
      match denied with
      | Some rule => Ok (Some (policy_rule_label rule))
      | None =>
          let? matched := any_matches rule_matches (cp_allow policy) in
          denial_over rule_matches operation rest
            (allow_rules_present || negb (bool_decide (cp_allow policy = [])))
            (allow_matched || matched)
      end
  end.

Section Evaluation.
Context {S : Type} `{!StorageReads S}.
Variable fuel : nat.
Variable s : S.
Variable preview : option PreviewedSchemaPlan.

(** The links of an entity that the relationship names, with their far ends. *)
Definition related_link (related : CompiledRelationshipPredicate) (source_collection : CollectionId)
    (entity_id : EntityId) (link : Link) : option (CollectionId * EntityId) :=
  match cr_direction related with
  | Outgoing =>
      if bool_decide (l_source_collection link = source_collection)
         && bool_decide (l_source_id link = entity_id)
         && bool_decide (l_link_type link = cr_link_type related)
         && bool_decide (l_target_collection link = cr_target_collection related)
      then Some (l_target_collection link, l_target_id link) else None
  | Incoming =>
      if bool_decide (l_target_collection link = source_collection)
         && bool_decide (l_target_id link = entity_id)
         && bool_decide (l_link_type link = cr_link_type related)
         && bool_decide (l_source_collection link = cr_target_collection related)
      then Some (l_source_collection link, l_source_id link) else None
  end.

(** The body of the loop over the links: whether this link satisfies the
    predicate.  [allows] decides the target's policy. *)
Definition link_satisfies
    (allows : PolicyPlan -> PolicyRequestSnapshot -> PolicyOperationCheck -> result bool AxonError)
    (related : CompiledRelationshipPredicate) (snapshot : PolicyRequestSnapshot) (entity_id : EntityId)
    (link : Link) : result bool AxonError :=
  match related_link related (sn_collection snapshot) entity_id link with
  | None => Ok false
  | Some (target_collection, target_id) =>
      match cr_target_policy related with
      | None => Ok true
      | Some operation =>
          let? target := sr_get s target_collection target_id in
          match target with
          | None => Ok false
          | Some target =>
              let? plan := resolve_target_policy_plan fuel s target_collection preview in
              match plan with
              | None => Ok false
              | Some target_plan =>
                  allows target_plan (with_snapshot_collection target_collection snapshot) {|
                    oc_collection := target_collection; oc_entity_id := Some target_id;
                    oc_operation := operation; oc_data := entity_policy_data target;
                    oc_operation_index := None |}
              end
          end
      end
  end.

(** [policy_related_matches]: the entity is the one named by [_id] in the data. *)
Definition policy_related_matches
    (allows : PolicyPlan -> PolicyRequestSnapshot -> PolicyOperationCheck -> result bool AxonError)
    (snapshot : PolicyRequestSnapshot) (data : Value) (related : CompiledRelationshipPredicate)
    : result bool AxonError :=
  match value_get data "_id" ≫= as_str with
  | None => Ok false
  | Some entity_id =>
      let? rows := sr_range_scan s links_collection in
      let links := somes (map link_from_entity rows) in
      let? found := first_match (link_satisfies allows related snapshot entity_id) links in
      Ok (bool_decide (is_Some found))
  end.

(** [policy_operation_denial_label]; [depth] counts nested target policies. *)
Fixpoint policy_operation_denial_label (depth : nat) (plan : PolicyPlan)
    (snapshot : PolicyRequestSnapshot) (check : PolicyOperationCheck)
    : result (option string) AxonError :=
  let allows plan' snapshot' check' :=
    match depth with
    | O => Panic
    | Datatypes.S depth' =>
        let? denial := policy_operation_denial_label depth' plan' snapshot' check' in
        Ok (bool_decide (denial = None))
    end in
  denial_over
    (fun rule =>
       both_match (policy_related_matches allows snapshot (oc_data check)) snapshot
         (oc_operation check) (oc_data check) (rl_when rule) (rl_where rule))
    (oc_operation check) (applicable_operation_policies plan (oc_operation check)) false false.

(** The nested decision: one level less of stack. *)
Definition nested_allows (depth : nat) (plan : PolicyPlan) (snapshot : PolicyRequestSnapshot)
    (check : PolicyOperationCheck) : result bool AxonError :=
  match depth with
  | O => Panic
  | Datatypes.S depth' =>
      let? denial := policy_operation_denial_label depth' plan snapshot check in
      Ok (bool_decide (denial = None))
  end.

Variable depth : nat.

(** [policy_operation_allows] *)
Definition policy_operation_allows (plan : PolicyPlan) (snapshot : PolicyRequestSnapshot)
    (check : PolicyOperationCheck) : result bool AxonError :=
  let? denial := policy_operation_denial_label depth plan snapshot check in
  Ok (bool_decide (denial = None)).

(** [policy_rule_matches], [field_policy_rule_matches], [policy_predicate_matches] *)
Definition policy_rule_matches (snapshot : PolicyRequestSnapshot) (operation : PolicyOperation)
    (data : Value) (rule : CompiledPolicyRule) : result bool AxonError :=
  both_match (policy_related_matches (nested_allows depth) snapshot data) snapshot operation data
    (rl_when rule) (rl_where rule).

Definition field_policy_rule_matches (snapshot : PolicyRequestSnapshot) (operation : PolicyOperation)
    (data : Value) (rule : CompiledFieldPolicyRule) : result bool AxonError :=
  both_match (policy_related_matches (nested_allows depth) snapshot data) snapshot operation data
    (fl_when rule) (fl_where rule).

Definition policy_predicate_matches (snapshot : PolicyRequestSnapshot) (operation : PolicyOperation)
    (data : Value) (predicate : option CompiledPredicate) : result bool AxonError :=
  optional_predicate_matches (policy_related_matches (nested_allows depth) snapshot data) snapshot
    operation data predicate.

(** ** Enforcement *)

Definition enforce_policy_operation (plan : PolicyPlan) (snapshot : PolicyRequestSnapshot)
    (check : PolicyOperationCheck) : result unit AxonError :=
  let? denial_label := policy_operation_denial_label depth plan snapshot check in
  match denial_label with
  | None => Ok tt
  | Some label =>
      Err (policy_forbidden "row_write_denied" (oc_collection check) (oc_entity_id check) None
             (Some label) (oc_operation_index check))
  end.

Definition field_write_scope_touches_path (scope : FieldWriteScope) (field_path : string) : bool :=
  match scope with
  | PresentFields data => negb (bool_decide (length (policy_values_at_path data field_path) = 0%nat))
  | PatchScope patch => patch_touches_field_path patch field_path
  end.

(** Deny and allow rules of one field: the rule to report, if the access is
    denied ([None] when it is not). *)
Definition field_access_denied (matches : CompiledFieldPolicyRule -> result bool AxonError)
    (policy : CompiledFieldAccessPolicy) : result (option CompiledFieldPolicyRule) AxonError :=
  let? denied := first_match matches (cf_deny policy) in
  match denied with
  | Some rule => Ok (Some rule)
  | None =>
      match cf_allow policy with
      | [] => Ok None
      | first :: _ =>
          let? allowed := first_match matches (cf_allow policy) in
          match allowed with Some _ => Ok None | None => Ok (Some first) end
      end
  end.

(** The loop over the field policies. *)
Fixpoint enforce_field_policies (snapshot : PolicyRequestSnapshot) (check : PolicyWriteCheck)
    (fields : list (string * CompiledFieldPolicy)) : result unit AxonError :=
  match fields with
  | [] => Ok tt
  | (field_path, field_policy) :: rest =>
      match cf_write field_policy with
      | None => enforce_field_policies snapshot check rest
      | Some write_policy =>
          if negb (field_write_scope_touches_path (wc_field_scope check) field_path)
          then enforce_field_policies snapshot check rest
          else
            let? denied := field_access_denied
              (field_policy_rule_matches snapshot (wc_operation check) (wc_candidate_data check))
              write_policy in
            match denied with
            | Some rule =>
                Err (policy_forbidden "field_write_denied" (wc_collection check) (wc_entity_id check)
                       (Some field_path) (Some (field_policy_rule_label rule)) (wc_operation_index check))
            | None => enforce_field_policies snapshot check rest
            end
      end
  end.

Definition enforce_field_write_policy (plan : PolicyPlan) (snapshot : PolicyRequestSnapshot)
    (check : PolicyWriteCheck) : result unit AxonError :=
  enforce_field_policies snapshot check (map_to_list (pp_fields plan)).

(** The loop over the envelopes; [needs] is the last one that asked for approval. *)
Fixpoint envelope_decision (snapshot : PolicyRequestSnapshot) (check : PolicyWriteCheck)
    (needs : option string) (envelopes : list CompiledPolicyEnvelope) : result (option string) AxonError :=
  match envelopes with
  | [] => Ok needs
  | envelope :: rest =>
      let? matched := policy_predicate_matches snapshot (wc_operation check) (wc_candidate_data check)
                        (ev_when envelope) in
      if matched then
        match ev_decision envelope with
        | PolicyDeny =>
            Err (policy_forbidden "row_write_denied" (wc_collection check) (wc_entity_id check) None
                   (Some (policy_envelope_label envelope)) (wc_operation_index check))
        | PolicyNeedsApproval => envelope_decision snapshot check (Some (policy_envelope_label envelope)) rest
        | PolicyAllow => envelope_decision snapshot check needs rest
        end
      else envelope_decision snapshot check needs rest
  end.

Definition enforce_policy_envelopes (plan : PolicyPlan) (snapshot : PolicyRequestSnapshot)
    (check : PolicyWriteCheck) (approval_envelopes_satisfied : bool) : result unit AxonError :=
  let? needs := envelope_decision snapshot check None
                  (applicable_policy_envelopes plan (wc_operation check)) in
  match needs with
  | Some policy =>
      if approval_envelopes_satisfied then Ok tt
      else Err (policy_forbidden "needs_approval" (wc_collection check) (wc_entity_id check) None
                  (Some policy) (wc_operation_index check))
  | None => Ok tt
  end.

Definition enforce_write_policy (schema : option CollectionSchema)
    (snapshot : option PolicyRequestSnapshot) (check : PolicyWriteCheck)
    (approval_envelopes_satisfied : bool) : result unit AxonError :=
  match schema, snapshot with
  | Some schema, Some snapshot =>
      let? plan := compile_policy_plan_for_schema fuel s schema in
      match plan with
      | None => Ok tt
      | Some plan =>
          let? _ :=
            match wc_current_data check with
            | Some current_data =>
                enforce_policy_operation plan snapshot {|
                  oc_collection := wc_collection check; oc_entity_id := wc_entity_id check;
                  oc_operation := OpRead; oc_data := current_data;
                  oc_operation_index := wc_operation_index check |}
            | None => Ok tt
            end in
          let? _ := enforce_policy_operation plan snapshot {|
            oc_collection := wc_collection check; oc_entity_id := wc_entity_id check;
            oc_operation := wc_operation check; oc_data := wc_candidate_data check;
            oc_operation_index := wc_operation_index check |} in
          let? _ := enforce_field_write_policy plan snapshot check in
          enforce_policy_envelopes plan snapshot check approval_envelopes_satisfied
      end
  | _, _ => Ok tt
  end.

Definition enforce_transition_policy (schema : CollectionSchema)
    (snapshot : option PolicyRequestSnapshot) (check : TransitionPolicyCheck) : result unit AxonError :=
  match snapshot with
  | None => Ok tt
  | Some snapshot =>
      let? plan := compile_policy_plan_for_schema fuel s schema in
      match plan ≫= (fun p : PolicyPlan =>
              pp_transitions p !! tc_lifecycle_field check ≫= fun ts => ts !! tc_target_state check) with
      | None => Ok tt
      | Some policy =>
          let matches := policy_rule_matches snapshot OpUpdate (tc_data check) in
          let denied label :=
            Err (policy_forbidden "row_write_denied" (tc_collection check) (Some (tc_entity_id check))
                   (Some (tc_lifecycle_field check)) (Some label) None) in
          let? deny := first_match matches (cp_deny policy) in
          match deny with
          | Some rule => denied (policy_rule_label rule)
          | None =>
              match cp_allow policy with
              | [] => Ok tt
              | _ =>
                  let? allow := first_match matches (cp_allow policy) in
                  match allow with Some _ => Ok tt | None => denied (tc_target_state check) end
              end
          end
      end
  end.

(** ** Reads *)

Definition read_policy_allows_entity (collection : CollectionId) (plan : PolicyPlan)
    (snapshot : PolicyRequestSnapshot) (entity : Entity) : result bool AxonError :=
  policy_operation_allows plan snapshot {|
    oc_collection := collection; oc_entity_id := Some (e_id entity); oc_operation := OpRead;
    oc_data := entity_policy_data entity; oc_operation_index := None |}.

(** The redaction of one field: that of the deny rule that matches, or null when
    no allow rule does. *)
Definition field_redaction (snapshot : PolicyRequestSnapshot) (data : Value)
    (read_policy : CompiledFieldAccessPolicy) : result (option Value) AxonError :=
  let matches := field_policy_rule_matches snapshot OpRead data in
  let? denied := first_match matches (cf_deny read_policy) in
  match denied with
  | Some rule => Ok (Some (default Null (fl_redact_as rule)))
  | None =>
      match cf_allow read_policy with
      | [] => Ok None
      | _ =>
          let? allowed := first_match matches (cf_allow read_policy) in
          match allowed with Some _ => Ok None | None => Ok (Some Null) end
      end
  end.

Fixpoint redactions_over (snapshot : PolicyRequestSnapshot) (data : Value)
    (fields : list (string * CompiledFieldPolicy)) : result (list (string * Value)) AxonError :=
  match fields with
  | [] => Ok []
  | (field_path, field_policy) :: rest =>
      match cf_read field_policy with
      | None => redactions_over snapshot data rest
      | Some read_policy =>
          let? redaction := field_redaction snapshot data read_policy in
          let? more := redactions_over snapshot data rest in
          Ok (match redaction with Some r => (field_path, r) :: more | None => more end)
      end
  end.

Definition field_read_redactions (plan : PolicyPlan) (snapshot : PolicyRequestSnapshot) (data : Value)
    : result (list (string * Value)) AxonError :=
  redactions_over snapshot data (map_to_list (pp_fields plan)).

Definition redact_entity_fields_for_read (plan : PolicyPlan) (snapshot : PolicyRequestSnapshot)
    (entity : Entity) : result Value AxonError :=
  let? redactions := field_read_redactions plan snapshot (entity_policy_data entity) in
  Ok (apply_field_redactions (e_data entity) redactions).

Definition effective_field_write_denied_for_data (policy : CompiledFieldAccessPolicy)
    (snapshot : PolicyRequestSnapshot) (operation : PolicyOperation) (data : Value)
    : result bool AxonError :=
  let? denied := field_access_denied (field_policy_rule_matches snapshot operation data) policy in
  Ok (bool_decide (is_Some denied)).
End Evaluation.
End Decisions.
