(* ===== verification/PolicyStatic.v ===== *)
(** * Capability listings and the meaning of policy decisions
    ([crates/axon-api/src/handler.rs])

    The three-valued evaluation of policies without an entity, which the
    effective-policy endpoints use, and what the decisions of the file
    PolicyDecide amount to: deny rules win, allow rules are a union, and the
    static evaluation never contradicts the evaluation on an entity. *)

From S2P Require Import Prelude Json Ids Types IndexKeys AuditLog.
From S2P Require Import Schema PolicyPlan PolicyCycles PolicyCompile.
From S2P Require Import Rules JsonOps AuthStore Roles Storage Catalog.
From S2P Require Import PolicyEval PolicyDecide.
Local Open Scope axon_scope.

Section Static.
Context `{SerdeNumber}.

(** ** Static evaluation *)

(** The loops over the members, with the flag for an unknown one. *)
Section StaticLoops.
Variable f : CompiledPredicate -> option bool.
Fixpoint static_all (saw_unknown : bool) (l : list CompiledPredicate) : option bool :=
  match l with
  | [] => if saw_unknown then None else Some true
  | p :: l' =>
      match f p with
      | Some true => static_all saw_unknown l'
      | Some false => Some false
      | None => static_all true l'
      end
  end.
Fixpoint static_any (saw_unknown : bool) (l : list CompiledPredicate) : option bool :=
  match l with
  | [] => if saw_unknown then None else Some false
  | p :: l' =>
      match f p with
      | Some true => Some true
      | Some false => static_any saw_unknown l'
      | None => static_any true l'
      end
  end.
End StaticLoops.

Fixpoint policy_static_predicate_matches (snapshot : PolicyRequestSnapshot) (operation : PolicyOperation)
    (predicate : CompiledPredicate) : option bool :=
  match predicate with
  | CpAll items => static_all (policy_static_predicate_matches snapshot operation) false items
  | CpAny items => static_any (policy_static_predicate_matches snapshot operation) false items
  | CpNot p => option_map negb (policy_static_predicate_matches snapshot operation p)
  | CpOperation candidate => Some (bool_decide (candidate = operation))
  | CpCompare comparison =>
      match cc_target comparison with
      | TSubject _ => Some (policy_comparison_matches comparison snapshot Null)
      | TField _ => None
      end
  | CpRelated _ | CpSharesRelation _ => None
  end.

Definition optional_policy_static_predicate_matches (snapshot : PolicyRequestSnapshot)
    (operation : PolicyOperation) (predicate : option CompiledPredicate) : option bool :=
  match predicate with
  | None => Some true
  | Some p => policy_static_predicate_matches snapshot operation p
  end.

Definition combine_static_and (left right : option bool) : option bool :=
  match left, right with
  | Some false, _ | _, Some false => Some false
  | Some true, Some true => Some true
  | _, _ => None
  end.

Definition policy_rule_static_matches (snapshot : PolicyRequestSnapshot) (operation : PolicyOperation)
    (rule : CompiledPolicyRule) : option bool :=
  combine_static_and (optional_policy_static_predicate_matches snapshot operation (rl_when rule))
    (optional_policy_static_predicate_matches snapshot operation (rl_where rule)).

Definition field_policy_rule_static_matches (snapshot : PolicyRequestSnapshot)
    (operation : PolicyOperation) (rule : CompiledFieldPolicyRule) : option bool :=
  combine_static_and (optional_policy_static_predicate_matches snapshot operation (fl_when rule))
    (optional_policy_static_predicate_matches snapshot operation (fl_where rule)).

Definition effective_operation_allows_static (plan : PolicyPlan) (snapshot : PolicyRequestSnapshot)
    (operation : PolicyOperation) : bool :=
  let policies := applicable_operation_policies plan operation in
  if existsb (fun p => existsb (fun r =>
       bool_decide (policy_rule_static_matches snapshot operation r = Some true)) (cp_deny p)) policies
  then false
  else
    negb (existsb (fun p => negb (bool_decide (cp_allow p = []))) policies)
    || existsb (fun p => existsb (fun r =>
         negb (bool_decide (policy_rule_static_matches snapshot operation r = Some false))) (cp_allow p))
         policies.

(** The loop of the two field listings: some deny rule is not ruled out, or
    there are allow rules and all are ruled out. *)
Definition field_denied_static (policy : CompiledFieldAccessPolicy) (snapshot : PolicyRequestSnapshot)
    (operation : PolicyOperation) : bool :=
  let possible r := negb (bool_decide (field_policy_rule_static_matches snapshot operation r = Some false)) in
  existsb possible (cf_deny policy)
  || negb (bool_decide (cf_allow policy = [])) && negb (existsb possible (cf_allow policy)).

Definition effective_field_read_redacted_static (policy : CompiledFieldAccessPolicy)
    (snapshot : PolicyRequestSnapshot) : bool :=
  field_denied_static policy snapshot OpRead.

Definition effective_field_write_denied_static (policy : CompiledFieldAccessPolicy)
    (snapshot : PolicyRequestSnapshot) (operation : PolicyOperation) : bool :=
  field_denied_static policy snapshot operation.

(** ** Static and dynamic evaluation agree *)

Section Agree.
Variable related_matches : CompiledRelationshipPredicate -> result bool AxonError.
Variable snapshot : PolicyRequestSnapshot.
Variable operation : PolicyOperation.
Variable data : Value.

(** A known static answer is the answer of the evaluation, when it returns. *)
Definition agrees (static : option bool) (dynamic : result bool AxonError) : Prop :=
  forall b b', static = Some b -> dynamic = Ok b' -> b' = b.

Lemma static_all_agrees f g l unk :
  Forall (fun p => agrees (f p) (g p)) l -> agrees (static_all f unk l) (all_hold g l).
Proof.
  intros Hl. revert unk. induction Hl as [|p l Hp _ IH]; intros unk b b'; simpl.
  { destruct unk; [done|]. by intros [= <-] [= <-]. }
  intros Hs (d & Hd & Hk)%result_bind_ok. specialize (Hp).
  destruct (f p) as [[]|] eqn:E.
  - rewrite (Hp true d eq_refl Hd) in Hk. exact (IH unk b b' Hs Hk).
  - rewrite (Hp false d eq_refl Hd) in Hk. simpl in Hk. congruence.
  - destruct d; [exact (IH true b b' Hs Hk)|]. injection Hk as <-.
    clear -Hs. revert Hs. induction l as [|q l IHq]; simpl; [done|].
    destruct (f q) as [[]|]; [done| |done]. by intros [= <-].
Qed.

Lemma static_any_agrees f g l unk :
  Forall (fun p => agrees (f p) (g p)) l -> agrees (static_any f unk l) (any_holds g l).
Proof.
  intros Hl. revert unk. induction Hl as [|p l Hp _ IH]; intros unk b b'; simpl.
  { destruct unk; [done|]. by intros [= <-] [= <-]. }
  intros Hs (d & Hd & Hk)%result_bind_ok. destruct (f p) as [[]|] eqn:E.
  - rewrite (Hp true d eq_refl Hd) in Hk. simpl in Hk. congruence.
  - rewrite (Hp false d eq_refl Hd) in Hk. exact (IH unk b b' Hs Hk).
  - destruct d; [|exact (IH true b b' Hs Hk)]. injection Hk as <-.
    clear -Hs. revert Hs. induction l as [|q l IHq]; simpl; [done|].
    destruct (f q) as [[]|]; [by intros [= <-]|done|done].
Qed.

Lemma static_predicate_agrees p :
  agrees (policy_static_predicate_matches snapshot operation p)
         (predicate_matches related_matches snapshot operation data p).
Proof.
  induction p as [l IH|l IH|p IH|c|op|r|r] using compiled_predicate_ind;
    [by apply static_all_agrees | by apply static_any_agrees | | | | done | done]; intros b b'; simpl.
  - intros Hs (d & Hd & [= <-])%result_bind_ok.
    destruct (policy_static_predicate_matches snapshot operation p) as [c|]; [|done].
    injection Hs as <-. by rewrite (IH c d eq_refl Hd).
  - unfold policy_comparison_matches. destruct (cc_target c); [|done]. by intros [= <-] [= <-].
  - by intros [= <-] [= <-].
Qed.

Lemma static_optional_agrees p :
  agrees (optional_policy_static_predicate_matches snapshot operation p)
         (optional_predicate_matches related_matches snapshot operation data p).
Proof. destruct p as [p|]; [apply static_predicate_agrees|]. by intros b b' [= <-] [= <-]. Qed.

Lemma static_both_agrees when where_clause :
  agrees (combine_static_and (optional_policy_static_predicate_matches snapshot operation when)
            (optional_policy_static_predicate_matches snapshot operation where_clause))
         (both_match related_matches snapshot operation data when where_clause).
Proof.
  intros b b' Hs (w & Hw & Hk)%result_bind_ok.
  pose proof (static_optional_agrees when) as H1. pose proof (static_optional_agrees where_clause) as H2.
  destruct (optional_policy_static_predicate_matches snapshot operation when) as [[]|];
    destruct (optional_policy_static_predicate_matches snapshot operation where_clause) as [[]|];
    simpl in Hs; try done; injection Hs as <-;
    try (rewrite (H1 _ _ eq_refl Hw) in Hk); destruct w; try (by apply (H2 _ _ eq_refl) in Hk); congruence.
Qed.
End Agree.

(** ** What a decision means *)

Lemma first_match_none {A E} (f : A -> result bool E) l :
  first_match f l = Ok None <-> Forall (fun a => f a = Ok false) l.
Proof.
  induction l as [|a l IH]; simpl; [split; [constructor|done]|]. split.
  - intros ([] & Hb & Hk)%result_bind_ok; [done|]. constructor; [done|]. by apply IH.
  - inversion 1 as [|? ? Ha Hl]; subst. rewrite Ha. simpl. by apply IH.
Qed.

Lemma first_match_some {A E} (f : A -> result bool E) l a :
  first_match f l = Ok (Some a) -> a ∈ l /\ f a = Ok true.
Proof.
  induction l as [|x l IH]; simpl; [done|]. intros ([] & Hb & Hk)%result_bind_ok.
  - injection Hk as <-. split; [apply elem_of_cons; by left|done].
  - destruct (IH Hk). split; [apply elem_of_cons; by right|done].
Qed.

Lemma any_matches_ok {A E} (f : A -> result bool E) l b :
  any_matches f l = Ok b -> b = true <-> exists a, a ∈ l /\ f a = Ok true.
Proof.
  revert b. induction l as [|x l IH]; intros b; simpl.
  { intros [= <-]. split; [done|]. intros (a & Ha & _). by apply not_elem_of_nil in Ha. }
  intros (c & Hc & (d & Hd & [= <-])%result_bind_ok)%result_bind_ok.
  rewrite orb_true_iff, (IH d Hd). split.
  - intros [->|(a & Ha & Hf)]; [exists x | exists a]; (split; [|done]); apply elem_of_cons; auto.
  - intros (a & [->|Ha]%elem_of_cons & Hf); [left; congruence | right; eauto].
Qed.


Lemma first_match_total {A E} (f : A -> result bool E) l :
  Forall (fun a => exists b, f a = Ok b) l -> exists o, first_match f l = Ok o.
Proof.
  induction 1 as [|a l [b Hb] _ [o Ho]]; simpl; [by eexists|]. rewrite Hb, Ho. simpl. destruct b; by eexists.
Qed.

Lemma denial_over_none f op policies present matched :
  denial_over f op policies present matched = Ok None ->
  (forall p r, p ∈ policies -> r ∈ cp_deny p -> f r = Ok false) /\
  (present = true \/ (exists p, p ∈ policies /\ cp_allow p <> []) ->
   matched = true \/ exists p r, p ∈ policies /\ r ∈ cp_allow p /\ f r = Ok true).
Proof.
  revert present matched. induction policies as [|p policies IH]; intros present matched; simpl.
  { destruct present, matched; simpl; try done; intros _; (split; [intros ? ? Hin; by apply not_elem_of_nil in Hin|]);
      intros; try by left.
    destruct H0 as [|(? & Hin & _)]; [done|]. by apply not_elem_of_nil in Hin. }
  intros ([r|] & Hd & Hk)%result_bind_ok; [done|].
  apply result_bind_ok in Hk as (m & Hm & Hk). apply first_match_none in Hd.
  apply IH in Hk as [Hdeny Hallow]. split.
  - intros q r [->|Hq]%elem_of_cons Hr; [|by eapply Hdeny].
    apply list_elem_of_In in Hr. exact (proj1 (List.Forall_forall _ _) Hd r Hr).
  - intros Hp. assert (Hor : present || negb (bool_decide (cp_allow p = [])) = true \/
      exists q, q ∈ policies /\ cp_allow q <> []).
    { destruct Hp as [->|(q & [->|Hq]%elem_of_cons & Hne)]; [by left| |right; eauto].
      left. rewrite (bool_decide_false _ Hne). apply orb_true_r. }
    destruct (Hallow Hor) as [[->|Hmm]%orb_prop|(q & r & Hq & Hr & Hf)]; [by left|right|right].
    + apply (any_matches_ok _ _ _ Hm) in Hmm as (r & Hr & Hf).
      exists p, r. split; [apply elem_of_cons; by left|done].
    + exists q, r. split; [apply elem_of_cons; by right|done].
Qed.


Section Meaning.
Context {S : Type} `{!StorageReads S}.
Variable fuel : nat.
Variable s : S.
Variable preview : option PreviewedSchemaPlan.
Variable depth : nat.

Lemma denial_label_eq plan snapshot check :
  policy_operation_denial_label fuel s preview depth plan snapshot check =
  denial_over (policy_rule_matches fuel s preview depth snapshot (oc_operation check) (oc_data check))
    (oc_operation check) (applicable_operation_policies plan (oc_operation check)) false false.
Proof. by destruct depth. Qed.

Lemma allows_true plan snapshot check :
  policy_operation_allows fuel s preview depth plan snapshot check = Ok true <->
  policy_operation_denial_label fuel s preview depth plan snapshot check = Ok None.
Proof.
  unfold policy_operation_allows. rewrite result_bind_ok. split.
  - intros (d & Hd & [= Hb]). apply bool_decide_eq_true in Hb. by subst.
  - intros ->. by exists None.
Qed.







(** The capability listing never claims too little: when the static
    evaluation of an operation says that the subject may not perform it, no
    entity and no stored link makes the enforcement allow it. *)
Theorem static_denial_sound plan snapshot operation :
  effective_operation_allows_static plan snapshot operation = false ->
  forall check b, oc_operation check = operation ->
    policy_operation_allows fuel s preview depth plan snapshot check = Ok b -> b = false.
Proof.
  intros Hs check b <- Hb. destruct b; [exfalso|done].
  apply allows_true in Hb. rewrite denial_label_eq in Hb. apply denial_over_none in Hb as [Hdeny Hallow].
  pose proof (fun r => static_both_agrees (policy_related_matches fuel s preview
    (nested_allows fuel s preview depth) snapshot (oc_data check)) snapshot (oc_operation check)
    (oc_data check) (rl_when r) (rl_where r)) as Hag.
  unfold effective_operation_allows_static in Hs. destruct (existsb _ _) eqn:Ed in Hs.
  - apply existsb_exists in Ed as (p & Hp & (r & Hr & Hst)%existsb_exists).
    apply bool_decide_eq_true in Hst. apply list_elem_of_In in Hp, Hr.
    by specialize (Hag r true false Hst (Hdeny p r Hp Hr)).
  - apply orb_false_iff in Hs as [Hpres Hposs]. apply negb_false_iff, existsb_exists in Hpres as (p & Hp & Hne).
    apply negb_true_iff, bool_decide_eq_false in Hne. apply list_elem_of_In in Hp.
    destruct Hallow as [|(q & r & Hq & Hr & Hf)]; [right; eauto|done|].
    assert (Hr0 : policy_rule_static_matches snapshot (oc_operation check) r = Some false).
    { destruct (decide (policy_rule_static_matches snapshot (oc_operation check) r = Some false)) as [|Hn]; [done|].
      assert (Ht : existsb (fun p => existsb (fun r => negb (bool_decide
        (policy_rule_static_matches snapshot (oc_operation check) r = Some false))) (cp_allow p))
        (applicable_operation_policies plan (oc_operation check)) = true); [|congruence].
      apply existsb_exists. exists q. split; [by apply list_elem_of_In|]. apply existsb_exists.
      exists r. split; [by apply list_elem_of_In|]. by rewrite bool_decide_false. }
    by specialize (Hag r false true Hr0 Hf).
Qed.
End Meaning.
End Static.
