(* ===== verification/PolicyEnforce.v ===== *)
(** * Enforcement of write policies and termination of their evaluation

    What [enforce_write_policy] accepts, independently of the order in which
    the field policies are visited; when the recursive evaluation of
    [target_policy] references stays within a bounded stack, and a catalog that
    the compiler accepts but whose evaluation does not end. *)

From S2P Require Import Prelude Json Ids Types IndexKeys AuditLog.
From S2P Require Import Schema PolicyPlan PolicyCycles PolicyCompile.
From S2P Require Import Rules JsonOps AuthStore Roles Storage Catalog.
From S2P Require Import PolicyEval PolicyDecide PolicyStatic.
Local Open Scope axon_scope.

Section Enforce.
Context `{SerdeNumber} {S : Type} `{!StorageReads S}.
Variable fuel : nat.
Variable s : S.
Variable preview : option PreviewedSchemaPlan.
Variable depth : nat.

(** ** Field policies and envelopes *)

(** A touched field with a write policy whose rules do not deny the access. *)
Definition field_write_ok (snapshot : PolicyRequestSnapshot) (check : PolicyWriteCheck)
    (e : string * CompiledFieldPolicy) : Prop :=
  forall write_policy, cf_write (snd e) = Some write_policy ->
    field_write_scope_touches_path (wc_field_scope check) (fst e) = true ->
    field_access_denied
      (field_policy_rule_matches fuel s preview depth snapshot (wc_operation check) (wc_candidate_data check))
      write_policy = Ok None.

Lemma enforce_fields_ok snapshot check fields :
  enforce_field_policies fuel s preview depth snapshot check fields = Ok tt <->
  Forall (field_write_ok snapshot check) fields.
Proof.
  induction fields as [|[f fp] fields IH]; simpl; [split; [constructor|done]|].
  assert (Hcons : Forall (field_write_ok snapshot check) ((f, fp) :: fields) <->
    field_write_ok snapshot check (f, fp) /\ Forall (field_write_ok snapshot check) fields).
  { split; [by inversion 1 | intros []; by constructor]. }
  rewrite Hcons, <-IH. unfold field_write_ok at 1. simpl.
  destruct (cf_write fp) as [wp|]; [|split; [by intros ?; split|by intros []]].
  destruct (field_write_scope_touches_path _ f) eqn:Et; simpl; [|split; [by intros ?; split|by intros []]].
  rewrite result_bind_ok. split.
  - intros ([r|] & Hd & Hk); [done|]. split; [|done]. by intros ? [= <-] _.
  - intros [Hd Hk]. exists None. split; [by apply Hd|done].
Qed.

(** The order of the field policies does not matter for acceptance. *)
Lemma enforce_fields_permutation snapshot check fields fields' :
  Permutation fields fields' ->
  enforce_field_policies fuel s preview depth snapshot check fields = Ok tt <->
  enforce_field_policies fuel s preview depth snapshot check fields' = Ok tt.
Proof. intros Hp. rewrite !enforce_fields_ok. by rewrite Hp. Qed.






End Enforce.

(** ** Bounded recursion *)

Section Termination.
Context `{SerdeNumber} {S : Type} `{!StorageReads S}.
Variable fuel : nat.
Variable s : S.
Variable preview : option PreviewedSchemaPlan.
Variable plans : gmap string PolicyPlan.

(** The relationships of a predicate. *)
Fixpoint predicate_relateds (p : CompiledPredicate) : list CompiledRelationshipPredicate :=
  match p with
  | CpAll l | CpAny l => flat_map predicate_relateds l
  | CpNot p => predicate_relateds p
  | CpRelated r => [r]
  | _ => []
  end.

Lemma relateds_targets p r op :
  r ∈ predicate_relateds p -> cr_target_policy r = Some op ->
  {| pn_collection := cr_target_collection r; pn_operation := op |} ∈ predicate_targets p.
Proof.
  intros Hr Hop. revert Hr. rewrite !list_elem_of_In.
  induction p as [l IH|l IH|p IH|c|o|r'|sh] using compiled_predicate_ind; simpl; try done.
  1,2: intros (q & Hq & Hr)%in_flat_map; apply in_flat_map; exists q; split; [done|];
    exact (proj1 (List.Forall_forall _ _) IH q Hq Hr).
  intros [->|[]]. rewrite Hop. by left.
Qed.

Lemma loops_no_panic {A} (f : A -> result bool AxonError) (l : list A) :
  (forall a, In a l -> f a <> Panic) ->
  first_match f l <> Panic /\ any_matches f l <> Panic /\ all_hold f l <> Panic /\ any_holds f l <> Panic.
Proof.
  induction l as [|a l IH]; intros Hf; simpl; [done|].
  destruct IH as (H1 & H2 & H3 & H4); [intros b Hb; apply Hf; by right|].
  pose proof (Hf a (or_introl eq_refl)) as Ha.
  repeat split; (apply result_bind_no_panic; [done|]); intros [] _; simpl; try done;
    (apply result_bind_no_panic; [done|]); intros; done.
Qed.

Lemma predicate_no_panic related_matches snapshot operation data p :
  (forall r, r ∈ predicate_relateds p -> related_matches r <> Panic) ->
  predicate_matches related_matches snapshot operation data p <> Panic.
Proof.
  induction p as [l IH|l IH|p IH|c|o|r|sh] using compiled_predicate_ind; simpl; intros Hr; try done.
  1,2: apply loops_no_panic; intros q Hq; apply (proj1 (List.Forall_forall _ _) IH q Hq);
    intros r Hin; apply Hr; rewrite list_elem_of_In in Hin |- *; apply in_flat_map; eauto.
  - apply result_bind_no_panic; [by apply IH|done].
  - apply Hr. by apply list_elem_of_singleton.
Qed.

Lemma both_no_panic related_matches snapshot operation data when where_clause :
  (forall p r, p ∈ option_list when ++ option_list where_clause -> r ∈ predicate_relateds p ->
     related_matches r <> Panic) ->
  both_match related_matches snapshot operation data when where_clause <> Panic.
Proof.
  intros Hr. unfold both_match, optional_predicate_matches. apply result_bind_no_panic.
  - destruct when as [p|]; [|done]. apply predicate_no_panic. intros r. apply Hr.
    apply elem_of_app. left. by apply list_elem_of_singleton.
  - intros [] _; [|done]. destruct where_clause as [p|]; [|done]. apply predicate_no_panic. intros r. apply Hr.
    apply elem_of_app. right. by apply list_elem_of_singleton.
Qed.

Lemma denial_over_no_panic f op policies present matched :
  (forall p r, p ∈ policies -> r ∈ cp_allow p ++ cp_deny p -> f r <> Panic) ->
  denial_over f op policies present matched <> Panic.
Proof.
  revert present matched. induction policies as [|p policies IH]; intros present matched Hf; simpl.
  { by destruct (present && negb matched). }
  assert (Hp : forall r, r ∈ cp_allow p ++ cp_deny p -> f r <> Panic).
  { intros r. apply Hf. apply elem_of_cons. by left. }
  apply result_bind_no_panic.
  { apply loops_no_panic. intros r Hr%list_elem_of_In. apply Hp, elem_of_app. by right. }
  intros [r|] _; [done|]. apply result_bind_no_panic.
  { apply loops_no_panic. intros r Hr%list_elem_of_In. apply Hp, elem_of_app. by left. }
  intros m _. apply IH. intros q r Hq. apply Hf, elem_of_cons. by right.
Qed.

(** Deciding the node [a] evaluates the policy [b]: the rules of its operation
    and, for a mutation, those of the write policy. *)
Definition consults (a b : PolicyNode) : Prop :=
  exists plan p, plans !! pn_collection a = Some plan /\
    p ∈ flat_map operation_predicates (applicable_operation_policies plan (pn_operation a)) /\
    b ∈ predicate_targets p.

(** All policies that the plans refer to. *)
Definition policy_targets : gset PolicyNode :=
  list_to_set (flat_map (fun e => flat_map (fun g => predicate_targets (snd g)) (plan_predicates (snd e)))
    (map_to_list plans)).

(** A consulted policy is a dependency of the operation's own policy or, for a
    mutation, of the write policy. *)
Lemma consults_depends a b :
  consults a b ->
  depends plans a b \/
  (is_mutation (pn_operation a) = true /\
   depends plans {| pn_collection := pn_collection a; pn_operation := OpWrite |} b).
Proof.
  intros (plan & p & Hplan & Hp & Hb).
  assert (Hop : forall op, p ∈ flat_map operation_predicates (option_list (pp_operations plan !! op)) ->
    depends plans {| pn_collection := pn_collection a; pn_operation := op |} b).
  { intros op Hin. exists plan, p. split; [done|]. split; [|done]. simpl.
    apply list_elem_of_In in Hin. apply in_flat_map in Hin as (cp & Hcp & Hin).
    destruct (pp_operations plan !! op) as [cp'|] eqn:El; [|done]. destruct Hcp as [->|[]].
    unfold plan_predicates. apply elem_of_app. left. apply list_elem_of_In, in_flat_map. exists (op, cp).
    split; [by apply list_elem_of_In, elem_of_map_to_list|]. by apply in_map. }
  unfold applicable_operation_policies in Hp. rewrite flat_map_app in Hp.
  apply elem_of_app in Hp as [Hp|Hp]; [left; destruct a; by apply Hop|right].
  destruct (is_mutation (pn_operation a)); [split; [done|by apply Hop]|by apply not_elem_of_nil in Hp].
Qed.

Lemma depends_target a b : depends plans a b -> b ∈ policy_targets.
Proof.
  intros (plan & p & Hplan & Hp & Hb). apply elem_of_list_to_set, list_elem_of_In, in_flat_map.
  exists (pn_collection a, plan). split; [by apply list_elem_of_In, elem_of_map_to_list|].
  apply in_flat_map. exists (pn_operation a, p). split; by apply list_elem_of_In.
Qed.

Lemma consults_target a b : consults a b -> b ∈ policy_targets.
Proof. intros [Hd|[_ Hd]]%consults_depends; by eapply depends_target. Qed.

Hypothesis resolves : forall b, b ∈ policy_targets ->
  resolve_target_policy_plan fuel s (pn_collection b) preview = Ok (plans !! pn_collection b).
Hypothesis get_returns : forall c i, sr_get s c i <> Panic.
Hypothesis scan_returns : sr_range_scan s links_collection <> Panic.

Lemma related_no_panic allows snapshot data r :
  (forall op, cr_target_policy r = Some op ->
     {| pn_collection := cr_target_collection r; pn_operation := op |} ∈ policy_targets) ->
  (forall op plan sn check, cr_target_policy r = Some op -> plans !! cr_target_collection r = Some plan ->
     oc_operation check = op -> allows plan sn check <> Panic) ->
  policy_related_matches fuel s preview allows snapshot data r <> Panic.
Proof.
  intros Ht Ha. unfold policy_related_matches. destruct (_ ≫= _) as [id|]; [|done].
  apply result_bind_no_panic; [done|]. intros rows _. apply result_bind_no_panic; [|done].
  apply loops_no_panic. intros link _. unfold link_satisfies.
  destruct (related_link r (sn_collection snapshot) id link) as [[tc ti]|] eqn:El; [|done].
  assert (Htc : tc = cr_target_collection r).
  { unfold related_link in El. destruct (cr_direction r); case_match; try done; injection El as <- <-;
      repeat match goal with Hx : _ && _ = true |- _ => apply andb_prop in Hx as [? ?] end;
      by match goal with Hx : bool_decide (_ = cr_target_collection r) = true |- _ =>
           apply bool_decide_eq_true in Hx end. }
  subst tc. destruct (cr_target_policy r) as [op|] eqn:Eop; [|done].
  apply result_bind_no_panic; [apply get_returns|]. intros [target|] _; [|done].
  pose proof (resolves _ (Ht op eq_refl)) as Hres. simpl in Hres. rewrite Hres. cbn [result_bind].
  destruct (plans !! cr_target_collection r) as [plan|] eqn:Ep; [|done]. by apply (Ha op).
Qed.

Hypothesis acyclic : forall n, ~ tc consults n n.

Lemma is_path_prefix (R : PolicyNode -> PolicyNode -> Prop) l x z l2 :
  is_path R (x :: l ++ z :: l2) -> is_path R ((x :: l) ++ [z]).
Proof.
  revert x. induction l as [|y l IH]; intros x; simpl; [by intros [? _]|].
  intros [Hxy Hp]. split; [done|]. by apply IH.
Qed.

Lemma path_nodup l : is_path consults l -> base.NoDup l.
Proof.
  induction l as [|a l IH]; intros Hp; constructor.
  - intros Hin. apply (acyclic a). apply list_elem_of_split in Hin as (l1 & l2 & ->).
    apply (is_path_tc _ a l1). by apply is_path_prefix in Hp.
  - apply IH. destruct l; [done|]. by destruct Hp.
Qed.

Lemma denial_label_no_panic depth : forall stack node plan snapshot check,
  is_path consults (stack ++ [node]) -> (forall a, a ∈ tail (stack ++ [node]) -> a ∈ policy_targets) ->
  (Datatypes.S (size policy_targets) <= depth + length stack)%nat ->
  plans !! pn_collection node = Some plan -> oc_operation check = pn_operation node ->
  policy_operation_denial_label fuel s preview depth plan snapshot check <> Panic.
Proof.
  induction depth as [|depth IH]; intros stack node plan snapshot check Hpath Hin Hsize Hplan Hop.
  - exfalso. assert (Hsub : list_to_set (tail (stack ++ [node])) ⊆ policy_targets).
    { intros a Ha%elem_of_list_to_set. by apply Hin. }
    apply path_nodup in Hpath. apply subseteq_size in Hsub. rewrite size_list_to_set in Hsub.
    + assert (Hl : length (stack ++ [node]) = Datatypes.S (length stack)) by (rewrite length_app; simpl; lia).
      destruct (stack ++ [node]) as [|x l]; simpl in *; lia.
    + destruct (stack ++ [node]); [done|]. by apply list.NoDup_cons in Hpath as [_ ?].
  - rewrite denial_label_eq. apply denial_over_no_panic. intros p r Hp Hr.
    unfold policy_rule_matches. apply both_no_panic. intros q rel Hq Hrel.
    assert (Hc : forall op, cr_target_policy rel = Some op ->
      consults node {| pn_collection := cr_target_collection rel; pn_operation := op |}).
    { intros op Htp. exists plan, q. split; [done|]. split; [|by apply relateds_targets].
      rewrite Hop in Hp. apply list_elem_of_In in Hp, Hr, Hq. apply list_elem_of_In, in_flat_map.
      exists p. split; [exact Hp|]. apply in_flat_map. exists r. by split. }
    apply related_no_panic; [intros op Htp; by eapply consults_target, Hc|].
    intros op plan' sn check' Htp Hplan' Hop'. cbn [nested_allows].
    apply result_bind_no_panic; [|done].
    apply (IH (stack ++ [node]) {| pn_collection := cr_target_collection rel; pn_operation := op |});
      [| | |done|done].
    + apply is_path_app; auto.
    + intros a Ha. destruct (stack ++ [node]) as [|x l] eqn:E; [by destruct stack|]. simpl in *.
      apply elem_of_app in Ha as [Ha| ->%list_elem_of_singleton]; [by apply Hin|]. by eapply consults_target, Hc.
    + rewrite length_app. simpl. lia.
Qed.
End Termination.

(** C19. Evaluating a policy ends, whatever the stored data: when the cycle
    detection accepts the compiled plans and no [target_policy] names a create,
    update or delete (which also consult the write policy), a decision nests at
    most one level more than there are referenced policies, and so never
    exhausts the stack.  Storage reads only have to return. *)
Theorem policy_evaluation_terminates `{SerdeNumber} {S : Type} `{!StorageReads S}
    fuel (s : S) preview plans depth node plan snapshot check :
  (forall b, b ∈ policy_targets plans ->
     resolve_target_policy_plan fuel s (pn_collection b) preview = Ok (plans !! pn_collection b)) ->
  (forall c i, sr_get s c i <> Panic) -> sr_range_scan s links_collection <> Panic ->
  detect_relationship_policy_cycles plans = Ok tt ->
  (forall b, b ∈ policy_targets plans -> is_mutation (pn_operation b) = false) ->
  (size (policy_targets plans) < depth)%nat ->
  plans !! pn_collection node = Some plan -> oc_operation check = pn_operation node ->
  policy_operation_denial_label fuel s preview depth plan snapshot check <> Panic.
Proof.
  intros Hres Hget Hscan Hdet Hmut Hdepth Hplan Hop.
  apply (denial_label_no_panic fuel s preview plans Hres Hget Hscan) with (stack := []) (node := node);
    [|done|by intros a Ha%not_elem_of_nil|simpl; lia|done|done].
  assert (Hnone : forall n, ~ tc (depends plans) n n).
  { destruct (detect_spec plans) as [[_ ?]|(c & E & _)]; [done|]. by rewrite E in Hdet. }
  intros n Hcyc.
  assert (Hn : n ∈ policy_targets plans).
  { assert (Hl : exists m, consults plans m n).
    { clear -Hcyc. revert Hcyc. generalize n at 1. intros m Hcyc. induction Hcyc; eauto. }
    destruct Hl as [m Hm]. by eapply consults_target. }
  apply (Hnone n). assert (Hlift : forall m k, tc (consults plans) m k -> m ∈ policy_targets plans ->
    tc (depends plans) m k); [|by apply Hlift].
  clear -Hmut. intros m k Hcyc. induction Hcyc as [a b Hab|a b c Hab Hbc IH]; intros Ha;
    (destruct (consults_depends plans _ _ Hab) as [Hd|[Hm _]]; [|by rewrite (Hmut a Ha) in Hm]).
  - by apply tc_once.
  - eapply tc_l; [exact Hd|]. apply IH. by eapply depends_target.
Qed.
