(* ===== verification/Interface.v ===== *)
(** * The storage interface ([StorageAdapter] of
    [crates/axon-storage/src/adapter.rs]) as a transaction sees it

    The trait methods that a commit calls, as a class over the adapter's state
    type, and the laws a backend promises: what an observer can see ([view]),
    what an open transaction can go back to ([saved]), and how each method
    changes the two.  [content_version] has a trait default over [range_scan]
    and hashes with the unspecified [DefaultHasher], a parameter. *)

From S2P Require Import Prelude Json Ids Types IndexKeys Intents AuditLog Schema.

Section Interface.
Context `{SerdeNumber}.

Class StorageAdapter (S : Type) : Type := {
  sa_get : S -> CollectionId -> EntityId -> result (option Entity) AxonError;
  sa_get_schema : S -> CollectionId -> result (option CollectionSchema) AxonError;
  sa_structural_version : S -> CollectionId -> result Z AxonError;
  sa_content_version : S -> CollectionId -> result Z AxonError;
  sa_put : Entity -> M S AxonError unit;
  sa_delete : CollectionId -> EntityId -> M S AxonError unit;
  sa_compare_and_swap : Entity -> Z -> M S AxonError Entity;
  sa_put_link : Link -> M S AxonError unit;
  sa_delete_link : CollectionId -> EntityId -> string -> CollectionId -> EntityId ->
    M S AxonError unit;
  sa_begin_tx : M S AxonError unit;
  sa_commit_tx : M S AxonError unit;
  sa_abort_tx : M S AxonError unit;
  sa_append_audit_entry : Z -> AuditEntry -> M S AxonError AuditEntry;
  sa_owns_audit_log : S -> bool
}.

(** A method that writes rows: it leaves the rollback point, the schemas and
    the audit log alone. *)
Definition row_write {S V A} (saved : S -> option V) (audit : S -> list AuditEntry)
    (m : M S AxonError A) : Prop :=
  forall s, saved (fst (m s)) = saved s /\ audit (fst (m s)) = audit s.

(** An entry as it was handed in, up to the id and time the log assigns. *)
Definition same_entry (e stored : AuditEntry) : Prop :=
  exists id ts, stored = with_id_timestamp id ts e.

Class StorageAdapterLaws (S : Type) `{StorageAdapter S} : Type := {
  sa_view_type : Type;
  sa_view : S -> sa_view_type;
  sa_saved : S -> option sa_view_type;
  sa_audit : S -> list AuditEntry;

  (** Reads of rows and schemas depend only on what is visible. *)
  sa_get_view : forall s s' c i, sa_view s = sa_view s' -> sa_get s c i = sa_get s' c i;
  sa_get_schema_view : forall s s' c, sa_view s = sa_view s' -> sa_get_schema s c = sa_get_schema s' c;
  sa_audit_view : forall s s', sa_view s = sa_view s' -> sa_audit s = sa_audit s';

  (** Opening a transaction remembers the visible state, unless the backend
      fails; a second one always fails. *)
  sa_begin_result : forall s, sa_saved s = None ->
    (exists s', sa_begin_tx s = (s', Ok tt) /\ sa_view s' = sa_view s /\
       sa_saved s' = Some (sa_view s) /\
       (forall c, sa_structural_version s' c = sa_structural_version s c) /\
       (forall c, sa_content_version s' c = sa_content_version s c)) \/
    (exists e, sa_begin_tx s = (s, Err e));
  sa_begin_nested : forall s, sa_saved s <> None -> exists e, sa_begin_tx s = (s, Err e);

  (** Rolling back makes the remembered state visible again. *)
  sa_abort_restores : forall s v, sa_saved s = Some v ->
    sa_view (fst (sa_abort_tx s)) = v /\ sa_saved (fst (sa_abort_tx s)) = None;

  (** Committing keeps what is visible and forgets the rollback point; a commit
      that fails leaves the transaction open with its rollback point. *)
  sa_commit_ok : forall s v s', sa_saved s = Some v -> sa_commit_tx s = (s', Ok tt) ->
    sa_view s' = sa_view s /\ sa_saved s' = None;
  sa_commit_err : forall s v s' e, sa_saved s = Some v -> sa_commit_tx s = (s', Err e) ->
    sa_saved s' = Some v;

  sa_put_rows : forall e, row_write sa_saved sa_audit (sa_put e);
  sa_delete_rows : forall c i, row_write sa_saved sa_audit (sa_delete c i);
  (** Deleting an entity that does not exist changes nothing. *)
  sa_delete_missing : forall s c i, sa_get s c i = Ok None -> sa_view (fst (sa_delete c i s)) = sa_view s;
  sa_cas_rows : forall e v, row_write sa_saved sa_audit (sa_compare_and_swap e v);
  (** A swap returns the given row, normalised, at the next version. *)
  sa_cas_result : forall e v s s' u, sa_compare_and_swap e v s = (s', Ok u) ->
    e_id u = e_id e /\ e_data u = e_data e /\ e_version u = wrap64 (v + 1);
  sa_put_link_rows : forall l, row_write sa_saved sa_audit (sa_put_link l);
  sa_delete_link_rows : forall sc si lt tc ti,
    row_write sa_saved sa_audit (sa_delete_link sc si lt tc ti);

  (** Appending keeps the rollback point whether it fails or not; when it
      succeeds it adds one entry, the given one, at the end of the log. *)
  sa_append_saved : forall now e s, sa_saved (fst (sa_append_audit_entry now e s)) = sa_saved s;
  sa_append_ok : forall now e s s' stored,
    sa_append_audit_entry now e s = (s', Ok stored) ->
    sa_audit s' = sa_audit s ++ [stored] /\ same_entry e stored
}.
End Interface.
