(* ===== verification/MemoryTx.v ===== *)
(** * The in-memory adapter implements the storage interface

    Instance of [StorageAdapter] and of its laws for [MemoryStorageAdapter],
    the frame of the entity operations (what they never touch), and the
    rollback behaviour of its snapshot transactions. *)

From S2P Require Import Prelude Json Ids Types IndexKeys Intents AuditLog Schema.
From S2P Require Import AuthStore Storage Catalog Interface.

Section Content.
Context `{SerdeNumber} `{TextFormat}.

Local Open Scope axon_scope.

(** [DefaultHasher] with its fixed seed, fed with a length and then strings
    and versions: the standard library leaves the function unspecified. *)
Class ContentHasher : Type := { hash_pairs : list (string * Z) -> Z }.

Context `{ContentHasher}.

(** [hash_id_version_set] *)
Definition hash_id_version_set (pairs : list (string * Z)) : Z :=
  hash_pairs (sort_by (fun a b => String.compare (fst a) (fst b)) pairs).

(** [content_version_by_scan], the trait default of [content_version]. *)
Definition content_version (s : MemoryStorageAdapter) (collection : CollectionId)
  : result Z AxonError :=
  let? entities := range_scan s collection None None None in
  Ok (hash_id_version_set (map (fun e => (e_id e, e_version e)) entities)).

(** ** The frame of row writes *)

(** Everything an entity or link write leaves alone. *)
Definition frame (s : MemoryStorageAdapter) :=
  (s_tx_snapshot s, s_audit_log s, s_schema_versions s, s_collections s, s_collection_views s,
   s_databases s, s_namespaces s, s_numeric_ids s, s_mutation_intents s, s_auth s).

Definition frame_kept {A} (m : M MemoryStorageAdapter AxonError A) : Prop :=
  forall s, frame (fst (m s)) = frame s.

Lemma frame_keeps {A} (m : M MemoryStorageAdapter AxonError A) :
  (forall x, keeps (fun s => frame s = x) m) -> frame_kept m.
Proof. intros Hm s. by apply (Hm (frame s)). Qed.

Lemma frame_kept_keeps {A} (m : M MemoryStorageAdapter AxonError A) x :
  frame_kept m -> keeps (fun s => frame s = x) m.
Proof. intros Hm s Hs. by rewrite Hm. Qed.
End Content.

Ltac frame_tac := apply frame_keeps; intros ?; repeat (keeps_step || (progress cbn beta iota));
  try (intros ? <-; reflexivity).


#[export] Hint Unfold maintain_indexes_for_write remove_indexes_for_delete maintain_single_indexes
  maintain_compound_indexes remove_single_indexes remove_compound_indexes_for for_index_values
  for_compound_keys check_single_unique remove_single_entry insert_single_entry
  check_compound_unique remove_compound_entry insert_compound_entry insert_entity remove_entity
  bump_structural_version : axon.

Section Frame.
Context `{SerdeNumber} `{TextFormat}.

Lemma maintain_frame k i sv o n : frame_kept (maintain_indexes_for_write k i sv o n).
Proof. autounfold with axon. frame_tac. Qed.

Lemma remove_indexes_frame k i sv d : frame_kept (remove_indexes_for_delete k i sv d).
Proof. autounfold with axon. frame_tac. Qed.

Lemma insert_entity_frame k e : frame_kept (insert_entity k e).
Proof. autounfold with axon. frame_tac. Qed.

Lemma put_frame e : frame_kept (put e).
Proof. unfold put. autounfold with axon. frame_tac. Qed.

Lemma delete_frame c i : frame_kept (delete_entity c i).
Proof.
  unfold delete_entity. autounfold with axon. frame_tac. intros s <-. by destruct (s_data s !! a).
Qed.

Lemma compare_and_swap_frame e v : frame_kept (compare_and_swap e v).
Proof. unfold compare_and_swap. autounfold with axon. frame_tac. Qed.

Lemma create_if_absent_frame e v : frame_kept (create_if_absent e v).
Proof. unfold create_if_absent. autounfold with axon. frame_tac. Qed.

Lemma put_link_frame l : frame_kept (put_link l).
Proof.
  unfold put_link. frame_tac; apply frame_kept_keeps, put_frame.
Qed.

Lemma delete_link_frame sc si lt tc ti : frame_kept (delete_link sc si lt tc ti).
Proof.
  unfold delete_link. frame_tac; apply frame_kept_keeps, delete_frame.
Qed.
End Frame.

(** ** Snapshots *)

Section Snapshot.
Context `{SerdeNumber} `{TextFormat}.

(** The transactional part of the state, as a snapshot would record it. *)
Definition visible (s : MemoryStorageAdapter) : TxSnapshot := {|
  ts_data := s_data s;
  ts_schema_versions := s_schema_versions s;
  ts_collection_views := s_collection_views s;
  ts_collections := s_collections s;
  ts_databases := s_databases s;
  ts_namespaces := s_namespaces s;
  ts_indexes := s_indexes s;
  ts_compound_indexes := s_compound_indexes s;
  ts_numeric_ids := s_numeric_ids s;
  ts_links := s_links s;
  ts_mutation_intents := s_mutation_intents s;
  ts_audit_log := s_audit_log s
|}.

Lemma frame_snapshot {A} (m : M MemoryStorageAdapter AxonError A) :
  frame_kept m -> forall s, s_tx_snapshot (fst (m s)) = s_tx_snapshot s.
Proof. intros Hm s. specialize (Hm s). unfold frame in Hm. congruence. Qed.

Lemma frame_rows {A} (m : M MemoryStorageAdapter AxonError A) :
  frame_kept m -> row_write s_tx_snapshot (fun s => log_entries (s_audit_log s)) m.
Proof. intros Hm s. specialize (Hm s). unfold frame in Hm. split; congruence. Qed.

Lemma get_visible s s' c i : visible s = visible s' -> get s c i = get s' c i.
Proof.
  intros Hv. assert (Hd : s_data s = s_data s') by exact (f_equal ts_data Hv).
  assert (Hc : s_collections s = s_collections s') by exact (f_equal ts_collections Hv).
  unfold get, resolve_catalog_key, registered_catalog_keys, stored. by rewrite Hd, Hc.
Qed.

Lemma get_schema_visible s s' c : visible s = visible s' -> get_schema s c = get_schema s' c.
Proof.
  intros Hv. assert (Hd : s_schema_versions s = s_schema_versions s')
    by exact (f_equal ts_schema_versions Hv).
  assert (Hc : s_collections s = s_collections s') by exact (f_equal ts_collections Hv).
  unfold get_schema, resolve_catalog_key, registered_catalog_keys. by rewrite Hd, Hc.
Qed.

(** A swap returns the entity it was given, at the next version. *)
Lemma delete_missing s c i : get s c i = Ok None -> visible (fst (delete_entity c i s)) = visible s.
Proof.
  unfold get, delete_entity, remove_entity, bind, reads, gets, modify. intros Hg.
  destruct (resolve_catalog_key s c) as [key|e|]; [|done..]. injection Hg as Hg. rewrite Hg. simpl.
  destruct (s_data s !! key) as [col|] eqn:Hk; [|done]. unfold stored in Hg. rewrite Hk in Hg. simpl in Hg.
  rewrite (delete_id col i) by done. rewrite (insert_id (s_data s) key col) by done. by destruct s.
Qed.

Lemma compare_and_swap_result e v s s' u :
  compare_and_swap e v s = (s', Ok u) ->
  e_id u = e_id e /\ e_data u = e_data e /\ e_version u = wrap64 (v + 1).
Proof.
  unfold compare_and_swap. intros Hc.
  apply bind_ok in Hc as (s1 & key & _ & Hc). apply bind_ok in Hc as (s2 & [c|] & _ & Hc); [|done].
  destruct (negb _); [done|].
  apply bind_ok in Hc as (s3 & [] & _ & Hc). apply bind_ok in Hc as (s4 & [] & _ & Hc).
  by injection Hc as _ <-.
Qed.
End Snapshot.

Section Instance.
Context `{SerdeNumber} `{TextFormat} `{ContentHasher}.

(** [impl StorageAdapter for MemoryStorageAdapter] *)
#[export] Instance memory_adapter : StorageAdapter MemoryStorageAdapter := {|
  sa_get := get;
  sa_get_schema := get_schema;
  sa_structural_version := structural_version;
  sa_content_version := content_version;
  sa_put := put;
  sa_delete := delete_entity;
  sa_compare_and_swap := compare_and_swap;
  sa_put_link := put_link;
  sa_delete_link := delete_link;
  sa_begin_tx := begin_tx;
  sa_commit_tx := commit_tx;
  sa_abort_tx := abort_tx;
  sa_append_audit_entry := append_audit_entry;
  sa_owns_audit_log := fun _ => true
|}.

#[export] Instance memory_adapter_laws : StorageAdapterLaws MemoryStorageAdapter.
Proof.
  apply (Build_StorageAdapterLaws MemoryStorageAdapter _ TxSnapshot visible s_tx_snapshot
           (fun s => log_entries (s_audit_log s))).
  - exact get_visible.
  - exact get_schema_visible.
  - intros s s' Hv. exact (f_equal (fun v => log_entries (ts_audit_log v)) Hv).
  - intros s Hs. simpl. unfold begin_tx, bind, gets, id. rewrite Hs. simpl.
    left. eexists. split; [reflexivity|]. by split_and!.
  - intros s Hs. simpl. unfold begin_tx, bind, gets, id.
    destruct (s_tx_snapshot s); [by eexists | done].
  - intros s v Hs. simpl. unfold abort_tx, modify. simpl. rewrite Hs. by destruct v.
  - intros s v s' Hs. simpl. unfold commit_tx, bind, gets, id. rewrite Hs. by intros [= <-].
  - intros s v s' e Hs. simpl. unfold commit_tx, bind, gets, id. by rewrite Hs.
  - intros e. apply frame_rows, put_frame.
  - intros c i. apply frame_rows, delete_frame.
  - exact delete_missing.
  - intros e v. apply frame_rows, compare_and_swap_frame.
  - exact compare_and_swap_result.
  - intros l. apply frame_rows, put_link_frame.
  - intros sc si lt tc ti. apply frame_rows, delete_link_frame.
  - done.
  - intros now e s s' stored. simpl. unfold append_audit_entry, append.
    intros [= <- <-]. split; [done|]. by do 2 eexists.
Defined.
End Instance.
