(* ===== verification/MemoryRows.v ===== *)
(** * Rows and indexes of the in-memory adapter

    The effect of the entity operations on the rows, the structural versions
    and the secondary indexes of [MemoryStorageAdapter]; the index invariant
    (the index holds exactly the values of the stored rows, and unique indexes
    have one owner per value) and its preservation; and the exactness of index
    lookups that follows. *)

From S2P Require Import Prelude Json Ids Types IndexKeys Intents AuditLog Schema.
From S2P Require Import AuthStore Storage Catalog Interface MemoryTx.

(** ** Index entries *)

Section Entries.
Context {K : Type} `{Countable K}.

(** The ids under a key. *)
Definition ids_at (m : gmap K (gset EntityId)) (key : K) : gset EntityId := default ∅ (m !! key).

Lemma ids_at_remove key id m key' x :
  x ∈ ids_at (index_remove key id m) key' <-> x ∈ ids_at m key' /\ ~ (key' = key /\ x = id).
Proof.
  unfold ids_at, index_remove. destruct (m !! key) as [ids|] eqn:Hm.
  - destruct (decide (key' = key)) as [->|Hne].
    + rewrite Hm. simpl. case_decide as Hd.
      * rewrite lookup_delete_eq. simpl. set_solver.
      * rewrite lookup_insert_eq. simpl. set_solver.
    + case_decide; rewrite ?lookup_delete_ne, ?lookup_insert_ne by congruence; naive_solver.
  - destruct (decide (key' = key)) as [->|]; [rewrite Hm; simpl; set_solver | naive_solver].
Qed.

Lemma ids_at_insert key id m key' x :
  x ∈ ids_at (index_insert key id m) key' <-> x ∈ ids_at m key' \/ (key' = key /\ x = id).
Proof.
  unfold ids_at, index_insert. destruct (decide (key' = key)) as [->|Hne].
  - rewrite lookup_insert_eq. simpl. set_solver.
  - rewrite lookup_insert_ne by congruence. naive_solver.
Qed.

Lemma index_conflict_false key id m :
  index_conflict key id m = false <-> forall x, x ∈ ids_at m key -> x = id.
Proof.
  unfold index_conflict, ids_at. destruct (m !! key) as [ids|]; simpl; [|set_solver].
  rewrite <-not_true_iff_false, existsb_exists. split.
  - intros Hn x Hx. destruct (decide (x = id)) as [|Hne]; [done|]. exfalso. apply Hn.
    exists x. split; [by apply list_elem_of_In, elem_of_elements|].
    by rewrite bool_decide_false.
  - intros Hall (x & Hx%list_elem_of_In%elem_of_elements & Hc).
    rewrite (Hall x Hx), bool_decide_true in Hc by done. done.
Qed.

(** No key is kept with an empty set. *)
Definition no_empty (m : gmap K (gset EntityId)) : Prop :=
  forall key ids, m !! key = Some ids -> ids <> ∅.

Lemma ids_at_fold_remove {A} (f : A -> K) id (l : list A) m key' x :
  x ∈ ids_at (fold_left (fun m a => index_remove (f a) id m) l m) key' <->
  x ∈ ids_at m key' /\ ~ (x = id /\ exists a, In a l /\ key' = f a).
Proof.
  revert m. induction l as [|a l IH]; intros m; simpl; [naive_solver|].
  rewrite IH, ids_at_remove. naive_solver.
Qed.

Lemma ids_at_fold_insert {A} (f : A -> K) id (l : list A) m key' x :
  x ∈ ids_at (fold_left (fun m a => index_insert (f a) id m) l m) key' <->
  x ∈ ids_at m key' \/ (x = id /\ exists a, In a l /\ key' = f a).
Proof.
  revert m. induction l as [|a l IH]; intros m; simpl; [naive_solver|].
  rewrite IH, ids_at_insert. naive_solver.
Qed.

(** Moving an id from its old keys to its new ones: when the old keys are all
    the keys the id is under (within the part [in_part] of the index), it ends
    up under exactly the new ones, and other ids are not affected. *)
Lemma ids_at_move {A} (f : A -> K) id (old new : list A) m key' x :
  (id ∈ ids_at m key' -> exists a, In a old /\ key' = f a) ->
  x ∈ ids_at (fold_left (fun m a => index_insert (f a) id m) new
                (fold_left (fun m a => index_remove (f a) id m) old m)) key' <->
  (x <> id /\ x ∈ ids_at m key') \/ (x = id /\ exists a, In a new /\ key' = f a).
Proof.
  intros Hold. rewrite ids_at_fold_insert, ids_at_fold_remove.
  destruct (decide (x = id)) as [->|]; naive_solver.
Qed.
End Entries.

(** ** Keys of a record *)

Section Keys.
Context `{SerdeNumber} `{TextFormat}.

Local Open Scope axon_scope.

(** All (field, value) pairs a record has under the declared indexes. *)
Fixpoint index_keys (data : Value) (defs : list IndexDef)
  : result (list (string * IndexValue)) AxonError :=
  match defs with
  | [] => Ok []
  | d :: ds =>
      let? vals := extract_index_values data (ix_field d) (ix_type d) in
      let? rest := index_keys data ds in
      Ok (map (fun v => (ix_field d, v)) vals ++ rest)
  end.

(** All (position, key) pairs a record has under the declared compound
    indexes. *)
Fixpoint compound_keys (data : Value) (defs : list (nat * CompoundIndexDef))
  : result (list (nat * CompoundKey)) AxonError :=
  match defs with
  | [] => Ok []
  | d :: ds =>
      let? o := extract_compound_key data (ci_fields (snd d)) in
      let? rest := compound_keys data ds in
      Ok (match o with Some key => [(fst d, key)] | None => [] end ++ rest)
  end.

Lemma lift_ok {A B} (r : result A AxonError) (g : A -> M MemoryStorageAdapter AxonError B) s s' b :
  bind (lift r) g s = (s', Ok b) -> exists a, r = Ok a /\ g a s = (s', Ok b).
Proof. unfold bind, lift. destruct r; [eauto | done..]. Qed.

Lemma set_indexes_set x y s : set_indexes x (set_indexes y s) = set_indexes x s.
Proof. done. Qed.

(** A loop that edits the index once per value. *)
Lemma for_index_values_edit (g : string -> IndexValue -> gmap IndexKey (gset EntityId) ->
      gmap IndexKey (gset EntityId)) data defs s s' :
  for_index_values data defs
    (fun idx v => modify (fun s => set_indexes (g (ix_field idx) v (s_indexes s)) s)) s = (s', Ok tt) ->
  exists keys, index_keys data defs = Ok keys /\
    s' = set_indexes (fold_left (fun m k => g (fst k) (snd k) m) keys (s_indexes s)) s.
Proof.
  unfold for_index_values. revert s. induction defs as [|d ds IH]; intros s; cbn [for_each].
  - intros [= <-]. exists []. split; [done|]. by destruct s.
  - intros Hc. apply bind_ok in Hc as (s1 & [] & Hd & Hc).
    apply lift_ok in Hd as (vals & Hv & Hd).
    assert (Hs1 : s1 = set_indexes (fold_left (fun m v => g (ix_field d) v m) vals (s_indexes s)) s).
    { clear -Hd. revert s Hd. induction vals as [|v vals IH]; intros s; cbn [for_each].
      - intros [= <-]. by destruct s.
      - intros Hd. apply bind_ok in Hd as (s2 & [] & [= <-] & Hd). apply IH in Hd as ->. done. }
    apply IH in Hc as (keys & Hk & ->). cbn [index_keys]. rewrite Hv. simpl. rewrite Hk. simpl.
    eexists. split; [reflexivity|]. rewrite Hs1, set_indexes_set. f_equal.
    by rewrite fold_left_app, fold_left_map_comp.
Qed.

(** A loop that edits the compound index once per key. *)
Lemma for_compound_keys_edit (g : nat -> CompoundKey -> gmap CompoundIndexKey (gset EntityId) ->
      gmap CompoundIndexKey (gset EntityId)) data defs s s' :
  for_compound_keys data defs
    (fun d k => modify (fun s => set_compound_indexes (g (fst d) k (s_compound_indexes s)) s)) s
    = (s', Ok tt) ->
  exists keys, compound_keys data defs = Ok keys /\
    s' = set_compound_indexes
           (fold_left (fun m k => g (fst k) (snd k) m) keys (s_compound_indexes s)) s.
Proof.
  unfold for_compound_keys. revert s. induction defs as [|d ds IH]; intros s; cbn [for_each].
  - intros [= <-]. exists []. split; [done|]. by destruct s.
  - intros Hc. apply bind_ok in Hc as (s1 & [] & Hd & Hc).
    apply lift_ok in Hd as (o & Ho & Hd). apply IH in Hc as (keys & Hk & ->).
    cbn [compound_keys]. rewrite Ho. simpl. rewrite Hk. simpl.
    eexists. split; [reflexivity|]. destruct o as [k|]; by injection Hd as <-.
Qed.

(** The uniqueness checks pass without changing anything, and then every
    value of a unique index is free or owned by the entity itself. *)
Lemma check_single_ok key id data defs s s' :
  for_index_values data (List.filter ix_unique defs) (check_single_unique key id) s = (s', Ok tt) ->
  s' = s /\ forall d vals v, In d defs -> ix_unique d = true ->
    extract_index_values (E := AxonError) data (ix_field d) (ix_type d) = Ok vals -> In v vals ->
    forall x, x ∈ ids_at (s_indexes s) (key, ix_field d, v) -> x = id.
Proof.
  unfold for_index_values. induction defs as [|d ds IH]; cbn [List.filter].
  - intros [= <-]. split; [done|]. by intros ? ? ? [].
  - destruct (ix_unique d) eqn:Hu; cbn [for_each]; intros Hc.
    2:{ apply IH in Hc as [-> Hall]. split; [done|]. intros d' vals v [<-|Hin] Hu'; [congruence|].
        exact (Hall d' vals v Hin Hu'). }
    apply bind_ok in Hc as (s1 & [] & Hd & Hc). apply lift_ok in Hd as (vals & Hv & Hd).
    assert (Hs1 : s1 = s /\ forall v, In v vals ->
      forall x, x ∈ ids_at (s_indexes s) (key, ix_field d, v) -> x = id).
    { clear -Hd. revert s1 Hd. induction vals as [|v vals IHv]; intros s1; cbn [for_each].
      - intros [= <-]. by split.
      - intros Hd. apply bind_ok in Hd as (s2 & [] & Hck & Hd).
        unfold check_single_unique, bind, gets, Datatypes.id in Hck.
        destruct (index_conflict _ _ _) eqn:Hcf; [done|]. injection Hck as <-.
        rewrite index_conflict_false in Hcf. apply IHv in Hd as [-> Hall].
        split; [done|]. intros v' [<-|Hin]; [exact Hcf | exact (Hall v' Hin)]. }
    destruct Hs1 as [-> Hall1]. apply IH in Hc as [-> Hall]. split; [done|].
    intros d' vals' v [<-|Hin] Hu' He; [|by apply (Hall d' vals')].
    rewrite Hv in He. injection He as <-. exact (Hall1 v).
Qed.

Lemma check_compound_ok key id data defs s s' :
  for_compound_keys data (List.filter (fun d => ci_unique (snd d)) defs)
    (check_compound_unique key id) s = (s', Ok tt) ->
  s' = s /\ forall d k, In d defs -> ci_unique (snd d) = true ->
    extract_compound_key (E := AxonError) data (ci_fields (snd d)) = Ok (Some k) ->
    forall x, x ∈ ids_at (s_compound_indexes s) (key, fst d, k) -> x = id.
Proof.
  unfold for_compound_keys. induction defs as [|d ds IH]; cbn [List.filter].
  - intros [= <-]. split; [done|]. by intros ? ? [].
  - destruct (ci_unique (snd d)) eqn:Hu; cbn [for_each]; intros Hc.
    2:{ apply IH in Hc as [-> Hall]. split; [done|]. intros d' k [<-|Hin] Hu'; [congruence|].
        exact (Hall d' k Hin Hu'). }
    apply bind_ok in Hc as (s1 & [] & Hd & Hc). apply lift_ok in Hd as (o & Ho & Hd).
    assert (Hs1 : s1 = s /\ forall k, o = Some k ->
      forall x, x ∈ ids_at (s_compound_indexes s) (key, fst d, k) -> x = id).
    { destruct o as [k|]; [|by injection Hd as <-].
      unfold check_compound_unique, bind, gets, Datatypes.id in Hd.
      destruct (index_conflict _ _ _) eqn:Hcf; [done|]. injection Hd as <-.
      rewrite index_conflict_false in Hcf. split; [done|]. by intros k' [= <-]. }
    destruct Hs1 as [-> Hall1]. apply IH in Hc as [-> Hall]. split; [done|].
    intros d' k [<-|Hin] Hu' He; [|by apply (Hall d' k)].
    rewrite Ho in He. injection He as ->. by apply Hall1.
Qed.
End Keys.

(** ** The index invariant *)

Section Invariant.
Context `{SerdeNumber} `{TextFormat}.

Local Open Scope axon_scope.

(** The single-field index of a collection holds exactly the values of its
    rows. *)
Definition single_exact (s : MemoryStorageAdapter) (k : QualifiedCollectionId)
    (defs : list IndexDef) : Prop :=
  forall f v id, id ∈ ids_at (s_indexes s) (k, f, v) <->
    exists e keys, stored s k id = Some e /\ index_keys (e_data e) defs = Ok keys /\ In (f, v) keys.

Definition compound_exact (s : MemoryStorageAdapter) (k : QualifiedCollectionId)
    (defs : list CompoundIndexDef) : Prop :=
  forall p ck id, id ∈ ids_at (s_compound_indexes s) (k, p, ck) <->
    exists e keys, stored s k id = Some e /\
      compound_keys (e_data e) (enumerate defs) = Ok keys /\ In (p, ck) keys.

(** No two rows share a value of a unique index. *)
Definition single_unique (s : MemoryStorageAdapter) (k : QualifiedCollectionId)
    (defs : list IndexDef) : Prop :=
  forall d v id1 id2 e1 e2 vals1 vals2, In d defs -> ix_unique d = true ->
    stored s k id1 = Some e1 -> stored s k id2 = Some e2 ->
    extract_index_values (E := AxonError) (e_data e1) (ix_field d) (ix_type d) = Ok vals1 ->
    extract_index_values (E := AxonError) (e_data e2) (ix_field d) (ix_type d) = Ok vals2 ->
    In v vals1 -> In v vals2 -> id1 = id2.

Definition compound_unique (s : MemoryStorageAdapter) (k : QualifiedCollectionId)
    (defs : list CompoundIndexDef) : Prop :=
  forall d ck id1 id2 e1 e2, In d (enumerate defs) -> ci_unique (snd d) = true ->
    stored s k id1 = Some e1 -> stored s k id2 = Some e2 ->
    extract_compound_key (E := AxonError) (e_data e1) (ci_fields (snd d)) = Ok (Some ck) ->
    extract_compound_key (E := AxonError) (e_data e2) (ci_fields (snd d)) = Ok (Some ck) ->
    id1 = id2.

(** Every retained schema version of the collection declares these indexes. *)
Definition fixed_defs (s : MemoryStorageAdapter) (k : QualifiedCollectionId)
    (single : list IndexDef) (compound : list CompoundIndexDef) : Prop :=
  forall sv, index_defs_for_key s k sv = (single, compound).

Definition rows_indexable (s : MemoryStorageAdapter) (k : QualifiedCollectionId)
    (single : list IndexDef) (compound : list CompoundIndexDef) : Prop :=
  forall id e, stored s k id = Some e ->
    (exists keys, index_keys (e_data e) single = Ok keys) /\
    (exists keys, compound_keys (e_data e) (enumerate compound) = Ok keys).

(** The invariant of the adapter, for every collection whose index
    declarations agree in all its schema versions. *)
Definition indexed (s : MemoryStorageAdapter) : Prop :=
  forall k single compound, fixed_defs s k single compound ->
    single_exact s k single /\ compound_exact s k compound /\
    single_unique s k single /\ compound_unique s k compound /\
    rows_indexable s k single compound.

Lemma indexed_default : indexed storage_default.
Proof.
  intros k single compound _. split_and!.
  - intros f v id. split; [set_solver | by intros (? & ? & ? & _)].
  - intros p ck id. split; [set_solver | by intros (? & ? & ? & _)].
  - by intros d v id1 id2 e1 e2 vals1 vals2 _ _ ?.
  - by intros d ck id1 id2 e1 e2 _ _ ?.
  - by intros id e ?.
Qed.

Definition add_entry (key : QualifiedCollectionId) (id : EntityId) {A B : Type}
    `{Countable A, Countable B} (keys : list (A * B))
    (m : gmap (QualifiedCollectionId * A * B) (gset EntityId)) :=
  fold_left (fun m a => index_insert (key, fst a, snd a) id m) keys m.
Definition drop_entry (key : QualifiedCollectionId) (id : EntityId) {A B : Type}
    `{Countable A, Countable B} (keys : list (A * B))
    (m : gmap (QualifiedCollectionId * A * B) (gset EntityId)) :=
  fold_left (fun m a => index_remove (key, fst a, snd a) id m) keys m.

(** The keys to take out: those of the old image, if there is one. *)
Definition old_single (old : option Value) (single : list IndexDef)
    (keys : list (string * IndexValue)) : Prop :=
  match old with Some o => index_keys o single = Ok keys | None => keys = [] end.
Definition old_compound (old : option Value) (compound : list CompoundIndexDef)
    (keys : list (nat * CompoundKey)) : Prop :=
  match old with Some o => compound_keys o (enumerate compound) = Ok keys | None => keys = [] end.

Definition single_free (s : MemoryStorageAdapter) (key : QualifiedCollectionId) (id : EntityId)
    (data : Value) (single : list IndexDef) : Prop :=
  forall d vals v, In d single -> ix_unique d = true ->
    extract_index_values (E := AxonError) data (ix_field d) (ix_type d) = Ok vals -> In v vals ->
    forall x, x ∈ ids_at (s_indexes s) (key, ix_field d, v) -> x = id.
Definition compound_free (s : MemoryStorageAdapter) (key : QualifiedCollectionId) (id : EntityId)
    (data : Value) (compound : list CompoundIndexDef) : Prop :=
  forall d k, In d (enumerate compound) -> ci_unique (snd d) = true ->
    extract_compound_key (E := AxonError) data (ci_fields (snd d)) = Ok (Some k) ->
    forall x, x ∈ ids_at (s_compound_indexes s) (key, fst d, k) -> x = id.

Lemma maintain_single_ok key id old new single s s' :
  maintain_single_indexes key id old new single s = (s', Ok tt) ->
  exists olds news, old_single old single olds /\ index_keys new single = Ok news /\
    single_free s key id new single /\
    s' = set_indexes (add_entry key id news (drop_entry key id olds (s_indexes s))) s.
Proof.
  unfold maintain_single_indexes. intros Hc. apply bind_ok in Hc as (s1 & [] & H1 & Hc).
  apply check_single_ok in H1 as [-> Hfree]. apply bind_ok in Hc as (s2 & [] & H2 & H3).
  apply (for_index_values_edit (fun f v => index_insert (key, f, v) id)) in H3 as (news & Hn & ->).
  destruct old as [o|].
  - apply (for_index_values_edit (fun f v => index_remove (key, f, v) id)) in H2 as (olds & Ho & ->).
    by exists olds, news.
  - injection H2 as <-. by exists [], news.
Qed.

Lemma maintain_compound_ok key id old new compound s s' :
  maintain_compound_indexes key id old new compound s = (s', Ok tt) ->
  exists olds news, old_compound old compound olds /\
    compound_keys new (enumerate compound) = Ok news /\ compound_free s key id new compound /\
    s' = set_compound_indexes (add_entry key id news (drop_entry key id olds (s_compound_indexes s))) s.
Proof.
  unfold maintain_compound_indexes. intros Hc. apply bind_ok in Hc as (s1 & [] & H1 & Hc).
  apply check_compound_ok in H1 as [-> Hfree]. apply bind_ok in Hc as (s2 & [] & H2 & H3).
  apply (for_compound_keys_edit (fun f v => index_insert (key, f, v) id)) in H3 as (news & Hn & ->).
  destruct old as [o|].
  - apply (for_compound_keys_edit (fun f v => index_remove (key, f, v) id)) in H2 as (olds & Ho & ->).
    by exists olds, news.
  - injection H2 as <-. by exists [], news.
Qed.

(** What maintenance does to the two indexes, when it succeeds. *)
Lemma maintain_ok key id sv old new s s' single compound :
  index_defs_for_key s key sv = (single, compound) ->
  maintain_indexes_for_write key id sv old new s = (s', Ok tt) ->
  exists olds news colds cnews,
    old_single old single olds /\ index_keys new single = Ok news /\
    old_compound old compound colds /\ compound_keys new (enumerate compound) = Ok cnews /\
    single_free s key id new single /\ compound_free s key id new compound /\
    s' = set_compound_indexes (add_entry key id cnews (drop_entry key id colds (s_compound_indexes s)))
           (set_indexes (add_entry key id news (drop_entry key id olds (s_indexes s))) s).
Proof.
  intros Hd. unfold maintain_indexes_for_write. intros Hc.
  apply bind_ok in Hc as (s0 & s0' & [= <- <-] & Hc). unfold Datatypes.id in Hc. rewrite Hd in Hc.
  destruct (is_nil single && is_nil compound) eqn:Hnil.
  - apply andb_prop in Hnil as [H1 H2]. destruct single; [|done]. destruct compound; [|done].
    injection Hc as <-. exists [], [], [], []. unfold old_single, old_compound. split_and!; try done;
      [by destruct old.. | by intros ? ? ? [] | by intros ? ? [] | by destruct s].
  - apply bind_ok in Hc as (s1 & [] & H1 & H2).
    apply maintain_single_ok in H1 as (olds & news & Ho & Hn & Hf & ->).
    apply maintain_compound_ok in H2 as (colds & cnews & Hco & Hcn & Hcf & ->).
    by exists olds, news, colds, cnews.
Qed.
End Invariant.

(** ** Preservation *)

Section Exact.
Context `{SerdeNumber} {A B : Type} `{Countable A, Countable B}.
Variable key : QualifiedCollectionId.
Variable keys_of : Value -> result (list (A * B)) AxonError.

(** An index part that holds exactly the keys of the rows. *)
Definition exact_index (m : gmap (QualifiedCollectionId * A * B) (gset EntityId))
    (rows : EntityId -> option Entity) : Prop :=
  forall a b id, id ∈ ids_at m (key, a, b) <->
    exists e keys, rows id = Some e /\ keys_of (e_data e) = Ok keys /\ In (a, b) keys.

(** Rows with one of them replaced or removed. *)
Definition row_set (rows : EntityId -> option Entity) (id : EntityId) (o : option Entity)
    (i : EntityId) : option Entity := if decide (i = id) then o else rows i.

Lemma exact_write m rows id e' olds news :
  exact_index m rows ->
  (match rows id with Some e => keys_of (e_data e) = Ok olds | None => olds = [] end) ->
  keys_of (e_data e') = Ok news ->
  exact_index (add_entry key id news (drop_entry key id olds m)) (row_set rows id (Some e')).
Proof.
  intros Hex Hold Hnew a b x. unfold exact_index, add_entry, drop_entry, row_set in *.
  rewrite (ids_at_move (fun p : A * B => (key, fst p, snd p))).
  2:{ intros (e & keys & He & Hk & Hin)%Hex. rewrite He in Hold. rewrite Hk in Hold.
      injection Hold as ->. by exists (a, b). }
  rewrite Hex. destruct (decide (x = id)) as [->|Hne]; split.
  - intros [[? _]|[_ ([a' b'] & Hin & [= -> ->])]]; [done|]. by exists e', news.
  - intros (e & keys & [= <-] & Hk & Hin). right. split; [done|]. rewrite Hnew in Hk.
    injection Hk as ->. by exists (a, b).
  - intros [[_ Hx]|[? _]]; done.
  - intros Hx. left. done.
Qed.

Lemma exact_delete m rows id e olds :
  exact_index m rows -> rows id = Some e -> keys_of (e_data e) = Ok olds ->
  exact_index (drop_entry key id olds m) (row_set rows id None).
Proof.
  intros Hex Hrow Hold a b x. unfold exact_index, drop_entry, row_set in *.
  rewrite (ids_at_fold_remove (fun p : A * B => (key, fst p, snd p))), Hex.
  destruct (decide (x = id)) as [->|Hne]; split.
  - intros [(e1 & keys & He & Hk & Hin) Hn]. exfalso. apply Hn. split; [done|].
    rewrite Hrow in He. injection He as <-. rewrite Hold in Hk. injection Hk as ->.
    by exists (a, b).
  - by intros (? & ? & ? & _).
  - by intros [? _].
  - intros Hx. split; [done|]. by intros [? _].
Qed.

Lemma ids_at_add_other k a b id keys m :
  k <> key -> ids_at (add_entry key id (A := A) (B := B) keys m) (k, a, b) = ids_at m (k, a, b).
Proof.
  intros Hne. apply set_eq. intros x. unfold add_entry.
  rewrite (ids_at_fold_insert (fun p : A * B => (key, fst p, snd p))). naive_solver.
Qed.

Lemma ids_at_drop_other k a b id keys m :
  k <> key -> ids_at (drop_entry key id (A := A) (B := B) keys m) (k, a, b) = ids_at m (k, a, b).
Proof.
  intros Hne. apply set_eq. intros x. unfold drop_entry.
  rewrite (ids_at_fold_remove (fun p : A * B => (key, fst p, snd p))). naive_solver.
Qed.
End Exact.

Section Preservation.
Context `{SerdeNumber} `{TextFormat}.

Local Open Scope axon_scope.

Lemma stored_insert s key e k i :
  stored (set_data (<[key := <[e_id e := e]> (default ∅ (s_data s !! key))]> (s_data s)) s) k i =
  if decide (k = key) then row_set (stored s key) (e_id e) (Some e) i else stored s k i.
Proof.
  unfold stored, row_set. simpl. destruct (decide (k = key)) as [->|Hne].
  - rewrite lookup_insert_eq. simpl. destruct (decide (i = e_id e)) as [->|Hi].
    + by rewrite lookup_insert_eq.
    + rewrite lookup_insert_ne by congruence. destruct (s_data s !! key); simpl; [done|].
      by rewrite lookup_empty.
  - by rewrite lookup_insert_ne by congruence.
Qed.

(** A state in which one collection's rows and index parts have been written. *)
Definition wrote (s s' : MemoryStorageAdapter) (key : QualifiedCollectionId) (id : EntityId)
    (o : option Entity) (olds news : list (string * IndexValue))
    (colds cnews : list (nat * CompoundKey)) : Prop :=
  s_schema_versions s' = s_schema_versions s /\
  s_indexes s' = add_entry key id news (drop_entry key id olds (s_indexes s)) /\
  s_compound_indexes s' = add_entry key id cnews (drop_entry key id colds (s_compound_indexes s)) /\
  forall k i, stored s' k i = if decide (k = key) then row_set (stored s key) id o i else stored s k i.

Lemma fixed_defs_schema s s' k single compound :
  s_schema_versions s' = s_schema_versions s ->
  fixed_defs s' k single compound -> fixed_defs s k single compound.
Proof. intros Hs Hf sv. rewrite <-(Hf sv). unfold index_defs_for_key. by rewrite Hs. Qed.

(** Collections other than the written one keep their part of the invariant. *)
Lemma indexed_other s s' key id o olds news colds cnews k single compound :
  wrote s s' key id o olds news colds cnews -> k <> key ->
  (single_exact s k single /\ compound_exact s k compound /\
   single_unique s k single /\ compound_unique s k compound /\ rows_indexable s k single compound) ->
  (single_exact s' k single /\ compound_exact s' k compound /\
   single_unique s' k single /\ compound_unique s' k compound /\ rows_indexable s' k single compound).
Proof.
  intros (Hsv & Hix & Hcx & Hst) Hne (He & Hc & Hu & Hcu & Hri).
  assert (Hrows : forall i, stored s' k i = stored s k i) by (intros i; rewrite Hst; by case_decide).
  unfold single_exact, compound_exact, single_unique, compound_unique, rows_indexable.
  rewrite Hix, Hcx. split_and!.
  - intros f v i. rewrite ids_at_add_other, ids_at_drop_other, Hrows by done. apply He.
  - intros p ck i. rewrite ids_at_add_other, ids_at_drop_other, Hrows by done. apply Hc.
  - intros d v id1 id2 e1 e2 vals1 vals2. rewrite !Hrows. apply Hu.
  - intros d ck id1 id2 e1 e2. rewrite !Hrows. apply Hcu.
  - intros i e. rewrite Hrows. apply Hri.
Qed.

Lemma in_index_keys data defs keys d vals v :
  index_keys data defs = Ok keys -> In d defs ->
  extract_index_values (E := AxonError) data (ix_field d) (ix_type d) = Ok vals -> In v vals ->
  In (ix_field d, v) keys.
Proof.
  revert keys. induction defs as [|d' ds IH]; intros keys; [done|]. cbn [index_keys].
  destruct (extract_index_values (E := AxonError) data (ix_field d') (ix_type d')) as [vs|?|] eqn:Hv; try done.
  cbn [result_bind]. destruct (index_keys data ds) as [rest|?|]; try done. intros [= <-].
  intros [->|Hin] He Hvv; apply in_app_iff.
  - left. rewrite Hv in He. injection He as ->. by apply in_map.
  - right. by eapply IH.
Qed.

Lemma in_compound_keys data defs keys d k :
  compound_keys data defs = Ok keys -> In d defs ->
  extract_compound_key (E := AxonError) data (ci_fields (snd d)) = Ok (Some k) -> In (fst d, k) keys.
Proof.
  revert keys. induction defs as [|d' ds IH]; intros keys; [done|]. cbn [compound_keys].
  destruct (extract_compound_key (E := AxonError) data (ci_fields (snd d'))) as [o|?|] eqn:Hv; try done.
  cbn [result_bind]. destruct (compound_keys data ds) as [rest|?|]; try done. intros [= <-].
  intros [->|Hin] He; apply in_app_iff.
  - left. rewrite Hv in He. injection He as ->. by left.
  - right. by eapply IH.
Qed.

Lemma single_unique_write s s' key e' single :
  (forall i, stored s' key i = row_set (stored s key) (e_id e') (Some e') i) ->
  single_exact s key single -> single_unique s key single ->
  (forall id e, stored s key id = Some e -> exists keys, index_keys (e_data e) single = Ok keys) ->
  single_free s key (e_id e') (e_data e') single -> single_unique s' key single.
Proof.
  intros Hst Hex Hu Hri Hfree.
  assert (Hclash : forall d v i e vals vals', In d single -> ix_unique d = true ->
    stored s key i = Some e ->
    extract_index_values (E := AxonError) (e_data e) (ix_field d) (ix_type d) = Ok vals ->
    extract_index_values (E := AxonError) (e_data e') (ix_field d) (ix_type d) = Ok vals' ->
    In v vals -> In v vals' -> i = e_id e').
  { intros d v i e vals vals' Hd Hud Hi He He' Hv Hv'. apply (Hfree d vals' v); try done.
    apply Hex. destruct (Hri i e Hi) as [keys Hk]. exists e, keys. split_and!; try done.
    by eapply in_index_keys. }
  intros d v id1 id2 e1 e2 vals1 vals2 Hd Hud. rewrite !Hst. unfold row_set.
  destruct (decide (id1 = e_id e')) as [->|H1], (decide (id2 = e_id e')) as [->|H2]; [done|..].
  - intros [= <-] Hs2 Hx1 Hx2 Hv1 Hv2. symmetry. by eapply (Hclash d v id2 e2 vals2 vals1).
  - intros Hs1 [= <-] Hx1 Hx2 Hv1 Hv2. by eapply (Hclash d v id1 e1 vals1 vals2).
  - apply Hu; done.
Qed.

Lemma compound_unique_write s s' key e' compound :
  (forall i, stored s' key i = row_set (stored s key) (e_id e') (Some e') i) ->
  compound_exact s key compound -> compound_unique s key compound ->
  (forall id e, stored s key id = Some e ->
     exists keys, compound_keys (e_data e) (enumerate compound) = Ok keys) ->
  compound_free s key (e_id e') (e_data e') compound -> compound_unique s' key compound.
Proof.
  intros Hst Hex Hu Hri Hfree.
  assert (Hclash : forall d ck i e, In d (enumerate compound) -> ci_unique (snd d) = true ->
    stored s key i = Some e ->
    extract_compound_key (E := AxonError) (e_data e) (ci_fields (snd d)) = Ok (Some ck) ->
    extract_compound_key (E := AxonError) (e_data e') (ci_fields (snd d)) = Ok (Some ck) ->
    i = e_id e').
  { intros d ck i e Hd Hud Hi He He'. apply (Hfree d ck); try done.
    apply Hex. destruct (Hri i e Hi) as [keys Hk]. exists e, keys. split_and!; try done.
    by eapply in_compound_keys. }
  intros d ck id1 id2 e1 e2 Hd Hud. rewrite !Hst. unfold row_set.
  destruct (decide (id1 = e_id e')) as [->|H1], (decide (id2 = e_id e')) as [->|H2]; [done|..].
  - intros [= <-] Hs2 Hx1 Hx2. symmetry. by eapply (Hclash d ck id2 e2).
  - intros Hs1 [= <-] Hx1 Hx2. by eapply (Hclash d ck id1 e1).
  - apply Hu; done.
Qed.

(** Writing a row with maintained indexes keeps the invariant. *)
Lemma indexed_write s s' key e' olds news colds cnews :
  indexed s -> wrote s s' key (e_id e') (Some e') olds news colds cnews ->
  (forall single compound, fixed_defs s key single compound ->
     old_single (option_map e_data (stored s key (e_id e'))) single olds /\
     index_keys (e_data e') single = Ok news /\
     old_compound (option_map e_data (stored s key (e_id e'))) compound colds /\
     compound_keys (e_data e') (enumerate compound) = Ok cnews /\
     single_free s key (e_id e') (e_data e') single /\
     compound_free s key (e_id e') (e_data e') compound) ->
  indexed s'.
Proof.
  intros Hinv Hw Hkeys k single compound Hf. pose proof Hw as (Hsv & Hix & Hcx & Hst).
  apply (fixed_defs_schema s s') in Hf; [|done].
  destruct (decide (k = key)) as [->|Hne].
  2:{ eapply indexed_other; [exact Hw | exact Hne | by apply Hinv]. }
  destruct (Hinv key single compound Hf) as (He & Hc & Hu & Hcu & Hri).
  destruct (Hkeys single compound Hf) as (Ho & Hn & Hco & Hcn & Hfree & Hcfree).
  assert (Hrows : forall i, stored s' key i = row_set (stored s key) (e_id e') (Some e') i)
    by (intros i; rewrite Hst; by rewrite decide_True).
  split_and!.
  - intros f v i. rewrite Hix, Hrows.
    refine (exact_write key (fun d => index_keys d single) _ _ _ _ _ _ He _ Hn f v i).
    unfold old_single in Ho. by destruct (stored s key (e_id e')).
  - intros p ck i. rewrite Hcx, Hrows.
    refine (exact_write key (fun d => compound_keys d (enumerate compound)) _ _ _ _ _ _ Hc _ Hcn p ck i).
    unfold old_compound in Hco. by destruct (stored s key (e_id e')).
  - apply (single_unique_write s s' key e'); try done. intros i e Hi. by apply (Hri i e).
  - apply (compound_unique_write s s' key e'); try done. intros i e Hi. by apply (Hri i e).
  - intros i e. rewrite Hrows. unfold row_set. case_decide; [intros [= <-] | by apply Hri].
    split; by eexists.
Qed.

(** Removing a row with its index entries keeps the invariant. *)
Lemma indexed_delete s s' key id e olds colds :
  indexed s -> stored s key id = Some e -> wrote s s' key id None olds [] colds [] ->
  (forall single compound, fixed_defs s key single compound ->
     index_keys (e_data e) single = Ok olds /\
     compound_keys (e_data e) (enumerate compound) = Ok colds) ->
  indexed s'.
Proof.
  intros Hinv Hrow Hw Hkeys k single compound Hf. pose proof Hw as (Hsv & Hix & Hcx & Hst).
  apply (fixed_defs_schema s s') in Hf; [|done].
  destruct (decide (k = key)) as [->|Hne].
  2:{ eapply indexed_other; [exact Hw | exact Hne | by apply Hinv]. }
  destruct (Hinv key single compound Hf) as (He & Hc & Hu & Hcu & Hri).
  destruct (Hkeys single compound Hf) as (Ho & Hco).
  assert (Hrows : forall i, stored s' key i = row_set (stored s key) id None i)
    by (intros i; rewrite Hst; by rewrite decide_True).
  assert (Hsub : forall i e, stored s' key i = Some e -> stored s key i = Some e).
  { intros i e0. rewrite Hrows. unfold row_set. by case_decide. }
  split_and!.
  - intros f v i. rewrite Hix, Hrows.
    exact (exact_delete key (fun d => index_keys d single) _ _ _ _ _ He Hrow Ho f v i).
  - intros p ck i. rewrite Hcx, Hrows.
    exact (exact_delete key (fun d => compound_keys d (enumerate compound)) _ _ _ _ _ Hc Hrow Hco p ck i).
  - intros d v id1 id2 e1 e2 vals1 vals2 Hd Hud H1%Hsub H2%Hsub. by apply (Hu d v id1 id2 e1 e2).
  - intros d ck id1 id2 e1 e2 Hd Hud H1%Hsub H2%Hsub. by apply (Hcu d ck id1 id2 e1 e2).
  - intros i e0 Hi%Hsub. exact (Hri i e0 Hi).
Qed.
End Preservation.

(** ** Effects of the operations *)

Section Effects.
Context `{SerdeNumber} `{TextFormat}.

Local Open Scope axon_scope.

Lemma reads_inv {A B} (f : MemoryStorageAdapter -> result A AxonError)
    (g : A -> M MemoryStorageAdapter AxonError B) s s' b :
  bind (reads f) g s = (s', Ok b) -> exists a, f s = Ok a /\ g a s = (s', Ok b).
Proof. unfold bind, reads. destruct (f s); [eauto | done..]. Qed.

Lemma gets_inv {A B} (f : MemoryStorageAdapter -> A)
    (g : A -> M MemoryStorageAdapter AxonError B) s s' b :
  bind (gets f) g s = (s', Ok b) -> g (f s) s = (s', Ok b).
Proof. done. Qed.

(** The fields that index maintenance leaves alone. *)
Definition off_index (s : MemoryStorageAdapter) :=
  (s_data s, s_structural_versions s, s_links s).

Lemma maintain_off_index k i sv o n s :
  off_index (fst (maintain_indexes_for_write k i sv o n s)) = off_index s.
Proof.
  assert (Hk : forall x, keeps (fun s => off_index s = x) (maintain_indexes_for_write k i sv o n)).
  { intros x. autounfold with axon. repeat keeps_step; intros ? <-; done. }
  by apply (Hk (off_index s)).
Qed.

(** The state after index maintenance and the insertion of the row. *)
Lemma write_effect key e old s s1 :
  old = option_map e_data (stored s key (e_id e)) ->
  maintain_indexes_for_write key (e_id e) (e_schema_version e) old (e_data e) s = (s1, Ok tt) ->
  let s2 := fst (insert_entity key e s1) in
  (forall k i, stored s2 k i =
     if decide (k = key) then row_set (stored s key) (e_id e) (Some e) i else stored s k i) /\
  s_structural_versions s2 = s_structural_versions s /\ s_links s2 = s_links s /\
  (indexed s -> indexed s2).
Proof.
  intros -> Hm s2. pose proof (maintain_off_index key (e_id e) (e_schema_version e)
    (option_map e_data (stored s key (e_id e))) (e_data e) s) as Hoff.
  rewrite Hm in Hoff. unfold off_index in Hoff. simpl in Hoff. injection Hoff as Hd Hsv Hl.
  assert (Hst : forall k i, stored s2 k i =
     if decide (k = key) then row_set (stored s key) (e_id e) (Some e) i else stored s k i).
  { intros k i. unfold s2. simpl. rewrite stored_insert. unfold stored. by rewrite Hd. }
  split_and!; [done | by unfold s2 | by unfold s2|].
  intros Hinv. destruct (index_defs_for_key s key (e_schema_version e)) as [sg cp] eqn:Hdefs.
  destruct (maintain_ok _ _ _ _ _ _ _ _ _ Hdefs Hm)
    as (olds & news & colds & cnews & Ho & Hn & Hco & Hcn & Hf & Hcf & ->).
  apply (indexed_write s s2 key e olds news colds cnews Hinv).
  - by split_and!.
  - intros single compound Hfix. rewrite (Hfix (e_schema_version e)) in Hdefs.
    injection Hdefs as <- <-. by split_and!.
Qed.

(** Bumping a counter changes neither rows nor indexes. *)
Lemma bump_effect key s :
  let s' := fst (bump_structural_version key s) in
  (forall k i, stored s' k i = stored s k i) /\ s_links s' = s_links s /\
  (indexed s -> indexed s') /\
  s_structural_versions s' =
    <[key := saturating_add64 (default 0%Z (s_structural_versions s !! key)) 1]>
      (s_structural_versions s).
Proof. by split_and!. Qed.

(** [put] succeeded: the row is the given entity under its catalog key, all
    other rows are as before, and the structural version of the collection
    moved exactly when the row is new. *)
Lemma put_effect e s s' :
  put e s = (s', Ok tt) ->
  exists key, resolve_catalog_key s (e_collection e) = Ok key /\
    (forall k i, stored s' k i =
       if decide (k = key) then row_set (stored s key) (e_id e) (Some (with_collection (q_collection key) e)) i
       else stored s k i) /\
    s_structural_versions s' =
      (match stored s key (e_id e) with
       | Some _ => s_structural_versions s
       | None => <[key := saturating_add64 (default 0%Z (s_structural_versions s !! key)) 1]>
                   (s_structural_versions s)
       end) /\
    s_links s' = s_links s /\ (indexed s -> indexed s').
Proof.
  unfold put. intros Hc. apply reads_inv in Hc as (key & Hkey & Hc). cbv zeta in Hc.
  apply gets_inv in Hc. apply bind_ok in Hc as (s1 & [] & Hm & Hc).
  apply bind_ok in Hc as (s2 & [] & Hi & Hc). exists key. split; [done|].
  destruct (write_effect key (with_collection (q_collection key) e) _ s s1 eq_refl Hm)
    as (Hst & Hsv & Hl & Hinv). rewrite Hi in Hst, Hsv, Hl, Hinv.
  cbn [fst e_id with_collection] in *. destruct (stored s key (e_id e)) eqn:Hprior.
  - injection Hc as <-. by split_and!.
  - destruct (bump_effect key s2) as (Hst' & Hl' & Hinv' & Hsv').
    rewrite Hc in Hst', Hl', Hinv', Hsv'. cbn [fst] in *. rewrite Hsv', Hl', Hsv.
    split_and!; try done; [intros k i; by rewrite Hst' | auto].
Qed.

(** [compare_and_swap] succeeded: the row was there at the expected version
    and is now the returned entity; nothing else moved. *)
Lemma compare_and_swap_effect e v s s' u :
  compare_and_swap e v s = (s', Ok u) ->
  exists key c, resolve_catalog_key s (e_collection e) = Ok key /\
    stored s key (e_id e) = Some c /\ e_version c = v /\
    u = with_version (wrap64 (v + 1)) (with_collection (q_collection key) e) /\
    (forall k i, stored s' k i =
       if decide (k = key) then row_set (stored s key) (e_id e) (Some u) i else stored s k i) /\
    s_structural_versions s' = s_structural_versions s /\ s_links s' = s_links s /\
    (indexed s -> indexed s').
Proof.
  unfold compare_and_swap. intros Hc. apply reads_inv in Hc as (key & Hkey & Hc).
  apply gets_inv in Hc. destruct (stored s key (e_id e)) as [c|] eqn:Hcur; [|done].
  destruct (Z.eqb_spec (e_version c) v) as [Hv|]; [|done]. cbn [negb] in Hc. cbv zeta in Hc.
  apply bind_ok in Hc as (s1 & [] & Hm & Hc). apply bind_ok in Hc as (s2 & [] & Hi & [= <- <-]).
  exists key, c.
  set (u := with_version (wrap64 (v + 1)) (with_collection (q_collection key) e)) in *.
  assert (Hold : Some (e_data c) = option_map e_data (stored s key (e_id u)))
    by (change (e_id u) with (e_id e); by rewrite Hcur).
  destruct (write_effect key u _ s s1 Hold Hm) as (Hst & Hsv & Hl & Hinv).
  rewrite Hi in Hst, Hsv, Hl, Hinv. by split_and!.
Qed.

(** [create_if_absent] succeeded: the row was absent and is now the given one. *)
Lemma create_if_absent_effect e v s s' u :
  create_if_absent e v s = (s', Ok u) ->
  exists key, resolve_catalog_key s (e_collection e) = Ok key /\ stored s key (e_id e) = None /\
    u = with_collection (q_collection key) e /\
    (forall k i, stored s' k i =
       if decide (k = key) then row_set (stored s key) (e_id e) (Some u) i else stored s k i) /\
    (indexed s -> indexed s').
Proof.
  unfold create_if_absent. intros Hc. apply reads_inv in Hc as (key & Hkey & Hc).
  apply gets_inv in Hc. destruct (stored s key (e_id e)) as [c|] eqn:Hcur; [done|]. cbv zeta in Hc.
  apply bind_ok in Hc as (s1 & [] & Hm & Hc). apply bind_ok in Hc as (s2 & [] & Hi & Hc).
  apply bind_ok in Hc as (s3 & [] & Hb & [= <- <-]).
  exists key. set (u := with_collection (q_collection key) e) in *.
  assert (Hold : None = option_map e_data (stored s key (e_id u)))
    by (change (e_id u) with (e_id e); by rewrite Hcur).
  destruct (write_effect key u _ s s1 Hold Hm) as (Hst & Hsv & Hl & Hinv).
  rewrite Hi in Hst, Hsv, Hl, Hinv.
  destruct (bump_effect key s2) as (Hst' & _ & Hinv' & _). rewrite Hb in Hst', Hinv'.
  split_and!; try done; [intros k i; by rewrite Hst' | auto].
Qed.

Lemma remove_indexes_ok key id sv data s s' single compound :
  index_defs_for_key s key sv = (single, compound) ->
  remove_indexes_for_delete key id sv data s = (s', Ok tt) ->
  exists olds colds, index_keys data single = Ok olds /\
    compound_keys data (enumerate compound) = Ok colds /\
    s' = set_compound_indexes (drop_entry key id colds (s_compound_indexes s))
           (set_indexes (drop_entry key id olds (s_indexes s)) s).
Proof.
  intros Hd. unfold remove_indexes_for_delete. intros Hc. apply gets_inv in Hc.
  unfold Datatypes.id in Hc. rewrite Hd in Hc.
  destruct (is_nil single && is_nil compound) eqn:Hnil.
  - apply andb_prop in Hnil as [H1 H2]. destruct single; [|done]. destruct compound; [|done].
    injection Hc as <-. exists [], []. split_and!; try done. by destruct s.
  - apply bind_ok in Hc as (s1 & [] & H1 & H2).
    apply (for_index_values_edit (fun f v => index_remove (key, f, v) id)) in H1 as (olds & Ho & ->).
    apply (for_compound_keys_edit (fun f v => index_remove (key, f, v) id)) in H2 as (colds & Hco & ->).
    by exists olds, colds.
Qed.

Lemma stored_remove s key id k i :
  stored (match s_data s !! key with
          | Some col => set_data (<[key := delete id col]> (s_data s)) s
          | None => s
          end) k i =
  if decide (k = key) then row_set (stored s key) id None i else stored s k i.
Proof.
  unfold stored, row_set. destruct (s_data s !! key) as [col|] eqn:Hcol; simpl.
  - destruct (decide (k = key)) as [->|Hne].
    + rewrite lookup_insert_eq. simpl. destruct (decide (i = id)) as [->|Hi].
      * by rewrite lookup_delete_eq.
      * rewrite lookup_delete_ne by congruence. done.
    + by rewrite lookup_insert_ne by congruence.
  - destruct (decide (k = key)) as [->|Hne]; [|done]. rewrite Hcol. simpl. by case_decide.
Qed.

(** [delete] succeeded: the row is gone, all other rows are as before, and the
    structural version moved exactly when there was a row. *)
Lemma delete_effect c id s s' :
  delete_entity c id s = (s', Ok tt) ->
  exists key, resolve_catalog_key s c = Ok key /\
    (forall k i, stored s' k i =
       if decide (k = key) then row_set (stored s key) id None i else stored s k i) /\
    s_structural_versions s' =
      (match stored s key id with
       | None => s_structural_versions s
       | Some _ => <[key := saturating_add64 (default 0%Z (s_structural_versions s !! key)) 1]>
                   (s_structural_versions s)
       end) /\
    s_links s' = s_links s /\ (indexed s -> indexed s').
Proof.
  unfold delete_entity. intros Hc. apply reads_inv in Hc as (key & Hkey & Hc).
  apply bind_ok in Hc as (s1 & o & Hrm & Hc). apply bind_ok in Hc as (s2 & [] & Hix & Hc).
  exists key. split; [done|]. unfold remove_entity in Hrm. apply gets_inv in Hrm.
  apply bind_ok in Hrm as (s1' & [] & Hs1 & [= <- <-]). unfold modify in Hs1.
  injection Hs1 as Hs1.
  assert (Hst1 : forall k i, stored s1' k i =
    if decide (k = key) then row_set (stored s key) id None i else stored s k i)
    by (intros k i; rewrite <-Hs1; apply stored_remove).
  assert (Hfld : s_structural_versions s1' = s_structural_versions s /\ s_links s1' = s_links s /\
    s_indexes s1' = s_indexes s /\ s_compound_indexes s1' = s_compound_indexes s /\
    s_schema_versions s1' = s_schema_versions s) by (rewrite <-Hs1; by destruct (s_data s !! key)).
  destruct Hfld as (Hsv & Hl & Hi & Hci & Hsc).
  destruct (stored s key id) as [e|] eqn:Hrow.
  - destruct (index_defs_for_key s1' key (e_schema_version e)) as [sg cp] eqn:Hdefs.
    destruct (remove_indexes_ok _ _ _ _ _ _ _ _ Hdefs Hix) as (olds & colds & Ho & Hco & ->).
    injection Hc as <-. cbn -[stored]. rewrite Hsv, Hl. split_and!; try done.
    intros Hinv. eapply (indexed_delete s _ key id e olds colds Hinv Hrow).
    + split_and!; cbn -[stored]; try done; by rewrite ?Hi, ?Hci.
    + intros single compound Hfix. specialize (Hfix (e_schema_version e)).
      unfold index_defs_for_key in Hfix, Hdefs. rewrite Hsc, Hfix in Hdefs.
      injection Hdefs as <- <-. done.
  - injection Hix as <-. injection Hc as <-. split_and!; try done.
    intros Hinv k single compound Hf. apply (fixed_defs_schema s s1') in Hf; [|done].
    destruct (Hinv k single compound Hf) as (H1 & H2 & H3 & H4 & H5).
    assert (Hrows : forall k i, stored s1' k i = stored s k i).
    { intros k' i. rewrite Hst1. unfold row_set. repeat case_decide; naive_solver. }
    unfold single_exact, compound_exact, single_unique, compound_unique, rows_indexable.
    rewrite Hi, Hci. split_and!.
    + intros f v i. rewrite Hrows. exact (H1 f v i).
    + intros p ck i. rewrite Hrows. exact (H2 p ck i).
    + intros d v id1 id2 e1 e2 vals1 vals2. rewrite !Hrows. exact (H3 d v id1 id2 e1 e2 vals1 vals2).
    + intros d ck id1 id2 e1 e2. rewrite !Hrows. exact (H4 d ck id1 id2 e1 e2).
    + intros i e. rewrite Hrows. exact (H5 i e).
Qed.

(** ** Row operations *)

Inductive RowOp : Type :=
| RowPut (e : Entity)
| RowSwap (e : Entity) (expected : Z)
| RowCreate (e : Entity) (expected_absent : Z)
| RowDelete (c : CollectionId) (id : EntityId).

Definition run_row (op : RowOp) : M MemoryStorageAdapter AxonError unit :=
  match op with
  | RowPut e => put e
  | RowSwap e v => bind (compare_and_swap e v) (fun _ => ret tt)
  | RowCreate e v => bind (create_if_absent e v) (fun _ => ret tt)
  | RowDelete c id => delete_entity c id
  end.

Lemma run_row_indexed op s s' : run_row op s = (s', Ok tt) -> indexed s -> indexed s'.
Proof.
  destruct op; simpl; intros Hc Hinv.
  - apply put_effect in Hc as (key & _ & _ & _ & _ & Hi). auto.
  - apply bind_ok in Hc as (s1 & u & Hc & [= <-]).
    apply compare_and_swap_effect in Hc as (key & c & _ & _ & _ & _ & _ & _ & _ & Hi). auto.
  - apply bind_ok in Hc as (s1 & u & Hc & [= <-]).
    apply create_if_absent_effect in Hc as (key & _ & _ & _ & _ & Hi). auto.
  - apply delete_effect in Hc as (key & _ & _ & _ & _ & Hi). auto.
Qed.

Lemma run_rows_indexed ops s s' : indexed s -> for_each run_row ops s = (s', Ok tt) -> indexed s'.
Proof.
  revert s. induction ops as [|op ops IH]; intros s Hinv Hrun; [by injection Hrun as <-|].
  cbn [for_each] in Hrun. apply bind_ok in Hrun as (s1 & [] & Hop & Hrun).
  apply (IH s1); [by eapply run_row_indexed | done].
Qed.

Lemma run_rows_frame ops : frame_kept (for_each run_row ops).
Proof.
  apply frame_keeps. intros x. apply keeps_for_each. intros [e|e v|e v|c i]; cbn [run_row];
    repeat keeps_step; apply frame_kept_keeps;
    auto using put_frame, compare_and_swap_frame, create_if_absent_frame, delete_frame.
Qed.

Lemma ids_in_order_In ids x : In x (ids_in_order ids) <-> x ∈ ids.
Proof. unfold ids_in_order. by rewrite sort_by_In, <-list_elem_of_In, elem_of_elements. Qed.

(** C11. Secondary indexes are always exact: after any sequence of successful
    row writes and deletes, for a collection whose index declarations are the
    same in all its schema versions, an equality lookup returns exactly the
    ids of the rows that carry the value (as a scan of the rows would), a
    compound lookup exactly the rows with the compound key, and no two rows
    share a value of a unique index. *)
Theorem index_lookup_exact (s s' : MemoryStorageAdapter) (ops : list RowOp)
    (c : CollectionId) (k : QualifiedCollectionId)
    (single : list IndexDef) (compound : list CompoundIndexDef)
    (Hinv : indexed s)
    (Hrun : for_each run_row ops s = (s', Ok tt))
    (Hkey : resolve_catalog_key s' c = Ok k) (Hdefs : fixed_defs s' k single compound) :
  (forall f v, exists ids, index_lookup s' c f v = Ok ids /\
     forall id, In id ids <-> exists e keys, stored s' k id = Some e /\
       index_keys (e_data e) single = Ok keys /\ In (f, v) keys) /\
  (forall p ck, exists ids, compound_index_lookup s' c p ck = Ok ids /\
     forall id, In id ids <-> exists e keys, stored s' k id = Some e /\
       compound_keys (e_data e) (enumerate compound) = Ok keys /\ In (p, ck) keys) /\
  single_unique s' k single /\ compound_unique s' k compound.
Proof.
  pose proof (run_rows_indexed ops s s' Hinv Hrun) as Hinv'.
  destruct (Hinv' k single compound Hdefs) as (He & Hc & Hu & Hcu & _).
  split_and!; [| |done..].
  - intros f v. unfold index_lookup. rewrite Hkey. simpl. eexists. split; [reflexivity|].
    intros id. rewrite <-(He f v id). unfold ids_at.
    destruct (s_indexes s' !! (k, f, v)); simpl; [apply ids_in_order_In | set_solver].
  - intros p ck. unfold compound_index_lookup. rewrite Hkey. simpl. eexists. split; [reflexivity|].
    intros id. rewrite <-(Hc p ck id). unfold ids_at.
    destruct (s_compound_indexes s' !! (k, p, ck)); simpl; [apply ids_in_order_In | set_solver].
Qed.
End Effects.

(** ** Examples *)

#[export] Instance plain_text : TextFormat := {|
  f64_display _ := "<float>";
  compound_key_debug _ := "<key>"
|}.

Definition users_schema (single : list IndexDef) (compound : list CompoundIndexDef)
  : CollectionSchema (H := simple_serde_number) :=
  let s := collection_schema_new (H := simple_serde_number) "users" in
  {| cs_collection := cs_collection s; cs_description := None; cs_version := 1;
     cs_entity_schema := None; cs_link_types := ∅; cs_access_control := None; cs_gates := ∅;
     cs_validation_rules := []; cs_indexes := single; cs_compound_indexes := compound;
     cs_queries := ∅; cs_lifecycles := ∅ |}.

Definition email_index : IndexDef := {| ix_field := "email"; ix_type := TString; ix_unique := true |}.
Definition name_index : IndexDef := {| ix_field := "name"; ix_type := TString; ix_unique := false |}.
Definition name_team_index : CompoundIndexDef :=
  {| ci_fields := [{| cf_field := "name"; cf_type := TString |};
                   {| cf_field := "team"; cf_type := TString |}];
     ci_unique := true |}.

Definition user_row (id email name team : string) (sv : option Z)
  : Entity (H := simple_serde_number) :=
  let e := entity_new (H := simple_serde_number) "users" id
             (Object [("email", JString email); ("name", JString name); ("team", JString team)]) in
  {| e_collection := e_collection e; e_id := id; e_version := 1; e_data := e_data e;
     e_created_at_ns := None; e_updated_at_ns := None; e_created_by := None; e_updated_by := None;
     e_schema_version := sv; e_gate_results := ∅ |}.

(** A store with the collection registered and its schema saved. *)
Definition users_store (single : list IndexDef) (compound : list CompoundIndexDef)
  : MemoryStorageAdapter (H := simple_serde_number) :=
  fst (bind (register_collection "users")
         (fun _ => put_schema 0 (users_schema single compound)) storage_default).

Definition users_key : QualifiedCollectionId := from_parts default_ns "users".

Lemma run_ok {S E} (m : M S E unit) s : snd (m s) = Ok tt -> m s = (fst (m s), Ok tt).
Proof. by destruct (m s) as [s' r]; simpl; intros ->. Qed.

(** A store without rows and without index entries satisfies the invariant. *)
Lemma indexed_no_rows `{SerdeNumber} `{TextFormat} (s : MemoryStorageAdapter) :
  s_data s = ∅ -> s_indexes s = ∅ -> s_compound_indexes s = ∅ -> indexed s.
Proof.
  intros Hd Hi Hc k single compound _.
  assert (Hst : forall k i, stored s k i = None) by (intros; unfold stored; by rewrite Hd, lookup_empty).
  unfold single_exact, compound_exact, single_unique, compound_unique, rows_indexable.
  rewrite Hi, Hc. split_and!.
  - intros f v id. rewrite Hst. split; [set_solver | by intros (? & ? & ? & _)].
  - intros p ck id. rewrite Hst. split; [set_solver | by intros (? & ? & ? & _)].
  - intros d v id1 id2 e1 e2 vals1 vals2 _ _. by rewrite Hst.
  - intros d ck id1 id2 e1 e2 _ _. by rewrite Hst.
  - intros id e. by rewrite Hst.
Qed.

Lemma users_store_fixed single compound :
  fixed_defs (users_store single compound) users_key single compound.
Proof.
  intros sv. unfold index_defs_for_key.
  change (s_schema_versions (users_store single compound) !! users_key)
    with (Some ({[1%Z := (schema_with (last_segment "users") 1 (users_schema single compound), timestamp_of 0)]}
           : gmap Z (CollectionSchema (H := simple_serde_number) * Z))).
  destruct sv as [v|]; simpl; [|done].
  destruct (decide (v = 1%Z)) as [->|Hne]; [by rewrite lookup_singleton_eq|].
  by rewrite lookup_singleton_ne by congruence.
Qed.

Definition two_users : list (RowOp (H := simple_serde_number)) :=
  [RowPut (user_row "u1" "a@x" "ann" "red" None); RowPut (user_row "u2" "b@x" "ann" "blue" None)].

Definition empty_users := users_store [email_index; name_index] [name_team_index].
Definition full_users := fst (for_each run_row two_users empty_users).

Lemma full_users_run : for_each run_row two_users empty_users = (full_users, Ok tt).
Proof. refine (run_ok (for_each run_row two_users) empty_users _). vm_refl. Qed.

Lemma full_users_fixed : fixed_defs full_users users_key [email_index; name_index] [name_team_index].
Proof.
  apply (fixed_defs_schema full_users empty_users); [|apply users_store_fixed].
  pose proof (run_rows_frame two_users empty_users) as Hf.
  fold full_users in Hf. unfold frame in Hf. congruence.
Qed.

Lemma index_lookup_exact_witness :
  exists ids, index_lookup full_users "users" "name" (IVString "ann") = Ok ids /\ In "u2" ids.
Proof.
  destruct (index_lookup_exact empty_users full_users two_users
    "users" users_key [email_index; name_index] [name_team_index]) as [Hsingle _].
  - apply indexed_no_rows; reflexivity.
  - exact full_users_run.
  - vm_refl.
  - exact full_users_fixed.
  - destruct (Hsingle "name" (IVString "ann")) as (ids & Hids & Hin). exists ids. split; [exact Hids|].
    apply Hin. exists (user_row "u2" "b@x" "ann" "blue" None),
      [("email", IVString "b@x"); ("name", IVString "ann")].
    split; [vm_refl|]. split; [vm_refl|]. right. left. reflexivity.
Defined.

(** A write that a compound unique index rejects still leaves its new
    single-field index entries behind when no transaction rolls it back: the
    entity is not stored, yet the lookup by name returns its id.  The
    documentation of [put] says that a unique violation leaves no new index
    entry written. *)
Theorem rejected_put_leaves_index_entry :
  let s := fst (put (user_row "u1" "a@x" "ann" "red" None)
                  (users_store [email_index] [name_team_index])) in
  let r := put (user_row "u2" "b@x" "ann" "red" None) s in
  snd r = Err (UniqueViolation "name, team" "<key>") /\
  get (fst r) "users" "u2" = Ok None /\
  index_lookup s "users" "email" (IVString "b@x") = Ok [] /\
  index_lookup (fst r) "users" "email" (IVString "b@x") = Ok ["u2"].
Proof. cbv zeta. split_and!; vm_refl. Qed.

(** Index entries go stale across a schema change: a row written under a
    schema that declares the email index, then replaced under a later version
    without it, keeps its old email entry, which even survives the deletion of
    the row.  Maintenance looks up the declarations of the new row's schema
    version only. *)
Theorem schema_change_strands_index_entry :
  let s1 := fst (put (user_row "u1" "a@x" "ann" "red" (Some 1%Z)) (users_store [email_index] [])) in
  let s2 := fst (put_schema 0 (users_schema [name_index] []) s1) in
  let s3 := fst (put (user_row "u1" "c@x" "ann" "red" (Some 2%Z)) s2) in
  let s4 := fst (delete_entity "users" "u1" s3) in
  get s4 "users" "u1" = Ok None /\
  index_lookup s4 "users" "email" (IVString "a@x") = Ok ["u1"].
Proof. cbv zeta. split_and!; vm_refl. Qed.
