(* ===== verification/PolicyExamples.v ===== *)
(** * Policies on a concrete store

    The in-memory adapter as the store behind policy evaluation, instances of
    the theorems on decisions and enforcement, and a catalog that the compiler
    accepts although evaluating one of its policies never ends. *)

From S2P Require Import Prelude Json Ids Types IndexKeys AuditLog.
From S2P Require Import Schema PolicyPlan PolicyCycles PolicyCompile.
From S2P Require Import Rules JsonOps AuthStore Roles Storage Catalog.
From S2P Require Import PolicyEval PolicyDecide PolicyStatic PolicyEnforce MemoryRows.
Local Open Scope axon_scope.

Section Memory.
Context `{SerdeNumber}.

Lemma resolve_no_panic s c : resolve_catalog_key s c <> Panic.
Proof.
  unfold resolve_catalog_key. destruct (parse c) as [ns bare]. case_match; [done|].
  destruct (registered_catalog_keys s c) as [|? []]; [done..|]. by case_match.
Qed.

Lemma memory_get_returns s c i : sr_get s c i <> Panic.
Proof. apply result_bind_no_panic; [apply resolve_no_panic|done]. Qed.

Lemma memory_scan_returns s c : sr_range_scan s c <> Panic.
Proof. apply result_bind_no_panic; [apply resolve_no_panic|]. intros key _. by destruct (s_data s !! key). Qed.
End Memory.

Section Examples.
Local Existing Instance simple_serde_number.

(** ** A store of documents in folders *)

Definition no_access : AccessControlPolicy := {|
  ac_identity := None; ac_read := None; ac_create := None; ac_update := None; ac_delete := None;
  ac_write := None; ac_admin := None; ac_fields := ∅; ac_transitions := ∅; ac_envelopes := ∅ |}.

Definition schema_with (c : CollectionId) (links : gmap string LinkTypeDef) (ac : AccessControlPolicy)
    : CollectionSchema := {|
  cs_collection := c; cs_description := None; cs_version := 1;
  cs_entity_schema := Some (Object [("type", JString "object");
    ("properties", Object [("owner", Object [("type", JString "string")]);
                           ("title", Object [("type", JString "string")])])]);
  cs_link_types := links; cs_access_control := Some ac; cs_gates := ∅; cs_validation_rules := [];
  cs_indexes := []; cs_compound_indexes := []; cs_queries := ∅; cs_lifecycles := ∅ |}.

Definition link_type_to (c : CollectionId) : LinkTypeDef :=
  {| lt_target_collection := c; lt_cardinality := ManyToMany; lt_required := false;
     lt_metadata_schema := None |}.

Definition one_rule (p : PolicyPredicate) : OperationPolicy :=
  {| op_allow := [{| pr_name := None; pr_when := None; pr_where := Some p |}]; op_deny := [] |}.

Definition related_to (link_type : string) (c : CollectionId) (op : PolicyOperation) : PolicyPredicate :=
  PRelated {| rp_link_type := link_type; rp_direction := Some Outgoing; rp_target_collection := c;
              rp_target_policy := Some op |}.

Definition owner_only : PolicyPredicate := PField "owner" (PEqSubject "user_id").

Definition folders_schema : CollectionSchema :=
  schema_with "folders" ∅ {|
    ac_identity := None; ac_read := Some (one_rule owner_only); ac_create := None; ac_update := None;
    ac_delete := Some (one_rule (PSubject "user_id" (PEq (JString "root")))); ac_write := None; ac_admin := None; ac_fields := ∅; ac_transitions := ∅;
    ac_envelopes := ∅ |}.

(** Documents are readable with their folder and written by their owner; the
    owner field itself is only writable by its holder. *)
Definition docs_schema : CollectionSchema :=
  schema_with "docs" {[ "in" := link_type_to "folders" ]} {|
    ac_identity := None; ac_read := Some (one_rule (related_to "in" "folders" OpRead));
    ac_create := None; ac_update := None; ac_delete := None; ac_write := Some (one_rule owner_only);
    ac_admin := None;
    ac_fields := {[ "owner" := {| fp_read := None; fp_write := Some {|
      fa_allow := [{| fr_name := None; fr_when := None; fr_where := Some owner_only; fr_redact_as := None |}];
      fa_deny := [] |} |} ]};
    ac_transitions := ∅; ac_envelopes := ∅ |}.

Definition row (c : CollectionId) (i : EntityId) (owner : string) : Entity :=
  entity_new c i (Object [("owner", JString owner)]).

Definition link_between (c1 : CollectionId) (i1 : EntityId) (lt : string) (c2 : CollectionId) (i2 : EntityId)
    : Link :=
  {| l_source_collection := c1; l_source_id := i1; l_target_collection := c2; l_target_id := i2;
     l_link_type := lt; l_metadata := Null |}.

Definition store : MemoryStorageAdapter :=
  fst ((do! put_schema 0 folders_schema; do! put_schema 0 docs_schema;
        do! put (row "folders" "f1" "ann"); do! put (row "docs" "d1" "bob");
        put_link (link_between "docs" "d1" "in" "folders" "f1")) storage_default).

Definition request (c : CollectionId) (user : string) : PolicyRequestSnapshot :=
  {| sn_collection := c; sn_namespace := "default"; sn_database_id := "default"; sn_tenant_id := None;
     sn_schema_version := None; sn_policy_version := None;
     sn_subject := {| ps_actor := user; ps_bindings := {[ "user_id" := JString user ]};
                      ps_attributes := ∅ |} |}.

Definition operation_on (op : PolicyOperation) (e : Entity) : PolicyOperationCheck :=
  {| oc_collection := e_collection e; oc_entity_id := Some (e_id e); oc_operation := op;
     oc_data := entity_policy_data e; oc_operation_index := None |}.

(** The plan that a schema of the store compiles to. *)
Definition catalog_fuel : nat := 10.
Definition empty_plan : PolicyPlan :=
  {| pp_policy_version := 0; pp_operations := ∅; pp_fields := ∅; pp_transitions := ∅;
     pp_envelopes := ∅; pp_report := report_default; pp_explain := [] |}.
Definition compiled (s : MemoryStorageAdapter) (schema : CollectionSchema) : PolicyPlan :=
  match compile_policy_plan_for_schema catalog_fuel s schema with
  | Ok (Some plan) => plan
  | _ => empty_plan
  end.

Definition docs_plan : PolicyPlan := compiled store docs_schema.
Definition folders_plan : PolicyPlan := compiled store folders_schema.
Definition stored_plans : gmap string PolicyPlan := {[ "docs" := docs_plan; "folders" := folders_plan ]}.


(** ** Instances of the theorems *)




Definition ann_reads_d1 : PolicyOperationCheck := operation_on OpRead (row "docs" "d1" "bob").


Definition ann_deletes_f1 : result bool AxonError :=
  policy_operation_allows catalog_fuel store None 3 folders_plan (request "folders" "ann")
    (operation_on OpDelete (row "folders" "f1" "ann")).

Lemma static_denial_sound_witness :
  (exists b, ann_deletes_f1 = Ok b) /\ (forall b, ann_deletes_f1 = Ok b -> b = false).
Proof.
  assert (Hs : effective_operation_allows_static folders_plan (request "folders" "ann") OpDelete = false)
    by vm_refl.
  split; [exists false; vm_refl|]. intros b E.
  exact (static_denial_sound catalog_fuel store None 3 folders_plan (request "folders" "ann")
    OpDelete Hs (operation_on OpDelete (row "folders" "f1" "ann")) b eq_refl E).
Defined.



Lemma policy_evaluation_terminates_witness :
  policy_operation_denial_label catalog_fuel store None 2 docs_plan (request "docs" "ann") ann_reads_d1 <> Panic.
Proof.
  assert (Ht : elements (policy_targets stored_plans) =
    [{| pn_collection := "folders"; pn_operation := OpRead |}]) by vm_refl.
  apply (policy_evaluation_terminates catalog_fuel store None stored_plans 2
    {| pn_collection := "docs"; pn_operation := OpRead |}).
  - intros b Hb%elem_of_elements. rewrite Ht in Hb. apply list_elem_of_singleton in Hb as ->. vm_refl.
  - apply memory_get_returns.
  - apply memory_scan_returns.
  - vm_refl.
  - intros b Hb%elem_of_elements. rewrite Ht in Hb. apply list_elem_of_singleton in Hb as ->. reflexivity.
  - unfold size, set_size. simpl. rewrite Ht. simpl. lia.
  - vm_refl.
  - reflexivity.
Defined.

(** ** A catalog that is accepted and does not evaluate *)

(** Creating in [as] needs the right to create in [bs]; the write policy of
    [bs], which governs its creates too, needs the right to create in [as]. *)
Definition as_schema : CollectionSchema :=
  schema_with "as" {[ "to" := link_type_to "bs" ]} {|
    ac_identity := None; ac_read := None; ac_create := Some (one_rule (related_to "to" "bs" OpCreate));
    ac_update := None; ac_delete := None; ac_write := None; ac_admin := None; ac_fields := ∅;
    ac_transitions := ∅; ac_envelopes := ∅ |}.
Definition bs_schema : CollectionSchema :=
  schema_with "bs" {[ "to" := link_type_to "as" ]} {|
    ac_identity := None; ac_read := None; ac_create := Some (one_rule owner_only); ac_update := None;
    ac_delete := None; ac_write := Some (one_rule (related_to "to" "as" OpCreate)); ac_admin := None; ac_fields := ∅;
    ac_transitions := ∅; ac_envelopes := ∅ |}.

Definition loop_store : MemoryStorageAdapter :=
  fst ((do! put_schema 0 as_schema; do! put_schema 0 bs_schema;
        do! put (row "as" "a1" "ann"); do! put (row "bs" "b1" "ann");
        do! put_link (link_between "as" "a1" "to" "bs" "b1");
        put_link (link_between "bs" "b1" "to" "as" "a1")) storage_default).
Definition as_plan : PolicyPlan := compiled loop_store as_schema.
Definition bs_plan : PolicyPlan := compiled loop_store bs_schema.

(** One level of the decision, with the nested decisions left open. *)
Definition decide_with
    (allows : PolicyPlan -> PolicyRequestSnapshot -> PolicyOperationCheck -> result bool AxonError)
    (plan : PolicyPlan) (snapshot : PolicyRequestSnapshot) (check : PolicyOperationCheck) :=
  denial_over
    (fun rule =>
       both_match (policy_related_matches catalog_fuel loop_store None allows snapshot (oc_data check))
         snapshot (oc_operation check) (oc_data check) (rl_when rule) (rl_where rule))
    (oc_operation check) (applicable_operation_policies plan (oc_operation check)) false false.

Definition ab_link : Link := link_between "as" "a1" "to" "bs" "b1".
Definition ba_link : Link := link_between "bs" "b1" "to" "as" "a1".

Lemma loop_links :
  (let? rows := sr_range_scan loop_store links_collection in Ok (somes (map link_from_entity rows))) =
  Ok [ab_link; ba_link].
Proof. vm_refl. Qed.

Lemma related_panics allows snapshot data rel id :
  value_get data "_id" ≫= as_str = Some id ->
  first_match (link_satisfies catalog_fuel loop_store None allows rel snapshot id) [ab_link; ba_link] = Panic ->
  policy_related_matches catalog_fuel loop_store None allows snapshot data rel = Panic.
Proof.
  intros Hid Hf. unfold policy_related_matches. rewrite Hid. pose proof loop_links as Hl.
  destruct (sr_range_scan loop_store links_collection) as [rows|e|]; cbn [result_bind] in *; [|done..].
  injection Hl as Hl. by rewrite Hl, Hf.
Qed.

Lemma link_panics allows rel snapshot id link c i e plan :
  related_link rel (sn_collection snapshot) id link = Some (c, i) -> cr_target_policy rel = Some OpCreate ->
  sr_get loop_store c i = Ok (Some e) ->
  resolve_target_policy_plan catalog_fuel loop_store c None = Ok (Some plan) ->
  allows plan (with_snapshot_collection c snapshot) {|
    oc_collection := c; oc_entity_id := Some i; oc_operation := OpCreate;
    oc_data := entity_policy_data e; oc_operation_index := None |} = Panic ->
  link_satisfies catalog_fuel loop_store None allows rel snapshot id link = Panic.
Proof. intros Hl Hp He Hr Ha. unfold link_satisfies. rewrite Hl, Hp, He. cbn [result_bind]. by rewrite Hr. Qed.

(** The compiled rules. *)
Definition to_rel (from to : CollectionId) : CompiledRelationshipPredicate := {|
  cr_link_type := "to"; cr_direction := Outgoing; cr_target_collection := to;
  cr_target_policy := Some OpCreate; cr_link_source_collection := from; cr_link_target_collection := to;
  cr_required_link_index := {| li_name := "links_primary"; li_source_collection := from;
    li_link_type := "to"; li_target_collection := to; li_direction := Outgoing |} |}.
Definition compiled_rule (id path : string) (p : CompiledPredicate) : CompiledOperationPolicy := {|
  cp_allow := [{| rl_rule_id := id; rl_path := path; rl_name := None; rl_when := None; rl_where := Some p |}];
  cp_deny := [] |}.

Lemma as_create_rules : applicable_operation_policies as_plan OpCreate =
  [compiled_rule "rule:as:operations.create.allow.0" "operations.Create.allow[0]" (CpRelated (to_rel "as" "bs"))].
Proof. vm_refl. Qed.

Lemma bs_create_rules : applicable_operation_policies bs_plan OpCreate =
  [compiled_rule "rule:bs:operations.create.allow.0" "operations.Create.allow[0]"
     (CpCompare {| cc_target := TField "owner"; cc_op := CoEqSubject "user_id" |});
   compiled_rule "rule:bs:operations.write.allow.0" "operations.Write.allow[0]"
     (CpRelated (to_rel "bs" "as"))].
Proof. vm_refl. Qed.

Lemma as_create_asks_bs allows :
  allows bs_plan (request "bs" "ann") (operation_on OpCreate (row "bs" "b1" "ann")) = Panic ->
  decide_with allows as_plan (request "as" "ann") (operation_on OpCreate (row "as" "a1" "ann")) = Panic.
Proof.
  intros Hb. unfold decide_with. cbn [operation_on oc_operation]. rewrite as_create_rules.
  cbn [compiled_rule denial_over cp_deny cp_allow first_match any_matches result_bind both_match
    rl_when rl_where optional_predicate_matches predicate_matches].
  rewrite (related_panics _ _ _ _ "a1"); [done|vm_refl|]. cbn [first_match].
  rewrite (link_panics _ _ _ _ _ "bs" "b1" (row "bs" "b1" "ann") bs_plan);
    [done|vm_refl|vm_refl|vm_refl|vm_refl|exact Hb].
Qed.

Lemma bs_create_asks_as allows :
  allows as_plan (request "as" "ann") (operation_on OpCreate (row "as" "a1" "ann")) = Panic ->
  decide_with allows bs_plan (request "bs" "ann") (operation_on OpCreate (row "bs" "b1" "ann")) = Panic.
Proof.
  intros Ha. unfold decide_with. cbn [operation_on oc_operation]. rewrite bs_create_rules.
  cbn [compiled_rule denial_over cp_deny cp_allow first_match any_matches result_bind both_match
    rl_when rl_where optional_predicate_matches predicate_matches].
  rewrite (related_panics _ _ _ _ "b1"); [done|vm_refl|]. cbn [first_match].
  replace (link_satisfies _ _ _ _ _ _ "b1" ab_link) with (@Ok bool AxonError false) by reflexivity.
  cbn [result_bind]. rewrite (link_panics _ _ _ _ _ "as" "a1" (row "as" "a1" "ann") as_plan);
    [done|vm_refl|vm_refl|vm_refl|vm_refl|exact Ha].
Qed.

Lemma creates_panic depth :
  policy_operation_denial_label catalog_fuel loop_store None depth as_plan (request "as" "ann")
    (operation_on OpCreate (row "as" "a1" "ann")) = Panic /\
  policy_operation_denial_label catalog_fuel loop_store None depth bs_plan (request "bs" "ann")
    (operation_on OpCreate (row "bs" "b1" "ann")) = Panic.
Proof.
  assert (Heq : forall plan snapshot check depth,
    policy_operation_denial_label catalog_fuel loop_store None depth plan snapshot check =
    decide_with (nested_allows catalog_fuel loop_store None depth) plan snapshot check) by (by intros ??? []).
  induction depth as [|depth [IHa IHb]]; rewrite !Heq.
  - split; [apply as_create_asks_bs | apply bs_create_asks_as]; reflexivity.
  - split; [apply as_create_asks_bs | apply bs_create_asks_as]; cbn [nested_allows];
      [rewrite IHb|rewrite IHa]; reflexivity.
Qed.

(** The cycle detection misses cycles through write policies: a write
    policy governs creates, updates and deletes too, but its [target_policy]
    references are recorded under [write] only.  In this catalog, creating in
    [as] consults creating in [bs], whose write policy consults creating in
    [as]; both schemas compile, and deciding a create on linked rows nests
    without bound. *)
Theorem accepted_policy_overflows :
  compile_policy_plan_for_schema catalog_fuel loop_store as_schema = Ok (Some as_plan) /\
  compile_policy_plan_for_schema catalog_fuel loop_store bs_schema = Ok (Some bs_plan) /\
  forall depth, policy_operation_allows catalog_fuel loop_store None depth as_plan (request "as" "ann")
    (operation_on OpCreate (row "as" "a1" "ann")) = Panic.
Proof.
  split; [vm_refl|]. split; [vm_refl|]. intros depth. unfold policy_operation_allows.
  by rewrite (proj1 (creates_panic depth)).
Qed.
End Examples.
