(* ===== verification/Transactions.v ===== *)
(** * Multi-entity transactions ([crates/axon-api/src/transaction.rs])

    Staging of writes and reads with their limits, and the optimistic commit:
    version checks, serializable read-set validation, the writes, the audit
    entries and the rollback, written against the storage interface as the
    source writes it against the [StorageAdapter] trait. *)

From S2P Require Import Prelude Json Ids Types IndexKeys Intents AuditLog Schema.
From S2P Require Import Interface.
From stdpp Require Import pretty.

Definition MAX_OPS : nat := 100.
Definition MAX_READS : nat := 100.

(** 30 seconds, in nanoseconds. *)
Definition DEFAULT_TIMEOUT : Z := 30 * 1000000000.

Inductive IsolationLevel : Type := SnapshotIsolation | Serializable | SerializableStrict.

(** [IsolationLevel::as_str] *)
Definition isolation_as_str (l : IsolationLevel) : string :=
  match l with
  | SnapshotIsolation => "snapshot"
  | Serializable => "serializable"
  | SerializableStrict => "serializable_strict"
  end.

(** [IsolationLevel::is_serializable] *)
Definition is_serializable (l : IsolationLevel) : bool :=
  match l with Serializable | SerializableStrict => true | SnapshotIsolation => false end.

Record ReadRef : Type := {
  rr_collection : CollectionId;
  rr_id : EntityId;
  rr_observed_version : Z
}.

Record ScanReadRef : Type := {
  sr_scan_collection : CollectionId;
  sr_observed_structural_version : Z
}.

(** [next_tx_id]: the global counter before and after, and the id. *)
Definition next_tx_id (counter : Z) : Z * string := (wrap64 (counter + 1), "tx-" +:+ pretty counter).

Section Staging.
Context `{SerdeNumber}.

Inductive WriteFieldScope : Type :=
| PresentEntity
| Patch (patch : Value).

Record WriteOp : Type := {
  wo_entity : Entity;
  wo_expected_version : Z;
  wo_data_before : option Value;
  wo_mutation : MutationType;
  wo_write_scope : WriteFieldScope
}.

Inductive StagedOp : Type :=
| SEntity (op : WriteOp)
| SLinkCreate (link : Link)
| SLinkDelete (link : Link).

(** [created_at] and [timeout] are in nanoseconds of the monotonic clock. *)
Record Transaction : Type := {
  tx_id : string;
  tx_ops : list StagedOp;
  tx_reads : list ReadRef;
  tx_scan_reads : list ScanReadRef;
  tx_isolation : IsolationLevel;
  tx_created_at : Z;
  tx_timeout : Z
}.

(** [Transaction::new], with the counter and the clock it reads. *)
Definition transaction_new (counter now : Z) : Z * Transaction :=
  let '(counter', id) := next_tx_id counter in
  (counter', {| tx_id := id; tx_ops := []; tx_reads := []; tx_scan_reads := [];
                tx_isolation := SnapshotIsolation; tx_created_at := now;
                tx_timeout := DEFAULT_TIMEOUT |}).

(** [Transaction::with_timeout] *)
Definition with_timeout (timeout counter now : Z) : Z * Transaction :=
  let '(counter', t) := transaction_new counter now in
  (counter', {| tx_id := tx_id t; tx_ops := tx_ops t; tx_reads := tx_reads t;
                tx_scan_reads := tx_scan_reads t; tx_isolation := tx_isolation t;
                tx_created_at := tx_created_at t; tx_timeout := timeout |}).

(** [Transaction::with_isolation] *)
Definition with_isolation (isolation : IsolationLevel) (counter now : Z) : Z * Transaction :=
  let '(counter', t) := transaction_new counter now in
  (counter', {| tx_id := tx_id t; tx_ops := tx_ops t; tx_reads := tx_reads t;
                tx_scan_reads := tx_scan_reads t; tx_isolation := isolation;
                tx_created_at := tx_created_at t; tx_timeout := tx_timeout t |}).

Definition set_tx_ops (ops : list StagedOp) (t : Transaction) : Transaction :=
  {| tx_id := tx_id t; tx_ops := ops; tx_reads := tx_reads t; tx_scan_reads := tx_scan_reads t;
     tx_isolation := tx_isolation t; tx_created_at := tx_created_at t;
     tx_timeout := tx_timeout t |}.
Definition set_tx_reads (reads : list ReadRef) (scans : list ScanReadRef) (t : Transaction)
  : Transaction :=
  {| tx_id := tx_id t; tx_ops := tx_ops t; tx_reads := reads; tx_scan_reads := scans;
     tx_isolation := tx_isolation t; tx_created_at := tx_created_at t;
     tx_timeout := tx_timeout t |}.

Local Open Scope axon_scope.
Abbreviation Stage := (M Transaction AxonError unit) (only parsing).

(** [Transaction::record_read] *)
Definition record_read (collection : CollectionId) (id : EntityId) (observed_version : Z) : Stage :=
  do t <- gets Datatypes.id;
  if negb (is_serializable (tx_isolation t)) then ret tt
  else if (MAX_READS <=? length (tx_reads t))%nat
  then fail (InvalidArgument "transaction exceeds maximum of 100 tracked reads")
  else modify (set_tx_reads
         (tx_reads t ++ [{| rr_collection := collection; rr_id := id;
                            rr_observed_version := observed_version |}]) (tx_scan_reads t)).

(** [Transaction::record_scan_read] *)
Definition record_scan_read (collection : CollectionId) (observed : Z) : Stage :=
  do t <- gets Datatypes.id;
  if negb (is_serializable (tx_isolation t)) then ret tt
  else if (MAX_READS <=? length (tx_scan_reads t))%nat
  then fail (InvalidArgument "transaction exceeds maximum of 100 tracked scan reads")
  else modify (set_tx_reads (tx_reads t)
         (tx_scan_reads t ++ [{| sr_scan_collection := collection;
                                 sr_observed_structural_version := observed |}])).

(** [check_op_limit] *)
Definition check_op_limit : Stage :=
  do t <- gets Datatypes.id;
  if (MAX_OPS <=? length (tx_ops t))%nat
  then fail (InvalidArgument "transaction exceeds maximum of 100 operations")
  else ret tt.

(** [self.ops.push(op)] after the limit check. *)
Definition push_op (op : StagedOp) : Stage :=
  do! check_op_limit;
  modify (fun t => set_tx_ops (tx_ops t ++ [op]) t).

(** [Transaction::create] *)
Definition tx_create (entity : Entity) : Stage :=
  push_op (SEntity {| wo_entity := entity; wo_expected_version := 0; wo_data_before := None;
                      wo_mutation := EntityCreate; wo_write_scope := PresentEntity |}).

(** [Transaction::update] *)
Definition tx_update (entity : Entity) (expected_version : Z) (data_before : option Value) : Stage :=
  push_op (SEntity {| wo_entity := entity; wo_expected_version := expected_version;
                      wo_data_before := data_before; wo_mutation := EntityUpdate;
                      wo_write_scope := PresentEntity |}).

(** [Transaction::patch_update] *)
Definition tx_patch_update (entity : Entity) (expected_version : Z) (data_before : option Value)
    (patch : Value) : Stage :=
  push_op (SEntity {| wo_entity := entity; wo_expected_version := expected_version;
                      wo_data_before := data_before; wo_mutation := EntityUpdate;
                      wo_write_scope := Patch patch |}).

(** The sentinel entity of a delete. *)
Definition delete_sentinel (collection : CollectionId) (id : EntityId) (expected_version : Z)
  : Entity :=
  {| e_collection := collection; e_id := id; e_version := expected_version; e_data := Null;
     e_created_at_ns := None; e_updated_at_ns := None; e_created_by := None;
     e_updated_by := None; e_schema_version := None; e_gate_results := ∅ |}.

(** [Transaction::delete] *)
Definition tx_delete (collection : CollectionId) (id : EntityId) (expected_version : Z)
    (data_before : option Value) : Stage :=
  push_op (SEntity {| wo_entity := delete_sentinel collection id expected_version;
                      wo_expected_version := expected_version; wo_data_before := data_before;
                      wo_mutation := EntityDelete; wo_write_scope := PresentEntity |}).

(** [Transaction::create_link] *)
Definition tx_create_link (link : Link) : Stage := push_op (SLinkCreate link).

(** [Transaction::delete_link] *)
Definition tx_delete_link (link : Link) : Stage := push_op (SLinkDelete link).
End Staging.

(** ** Commit *)

Section Commit.
Context `{SerdeNumber} {S : Type} `{!StorageAdapter S}.

(** [axon_schema::validation::validate], which runs the third-party JSON
    Schema validator on the entity body. *)
Variable validate : CollectionSchema -> Value -> result unit AxonError.

(** Text of an elapsed time, [{:.1}] of the seconds as a float. *)
Variable secs_display : Z -> string.

Local Open Scope axon_scope.
Abbreviation Op := (M S AxonError) (only parsing).

(** [current.as_ref().map(|e| e.version).unwrap_or(0)] *)
Definition version_of (current : option Entity) : Z :=
  match current with Some e => e_version e | None => 0%Z end.

Definition link_storage_id (link : Link) : EntityId :=
  storage_id (l_source_collection link) (l_source_id link) (l_link_type link)
    (l_target_collection link) (l_target_id link).

(** Whether the version check of phase 1 accepts a write. *)
Definition version_check (op : WriteOp) (current_version : Z) : bool :=
  match wo_mutation op with
  | EntityCreate => (current_version =? 0)%Z
  | EntityUpdate | EntityDelete => (current_version =? wo_expected_version op)%Z
  | _ => true
  end.

(** Phase 1 of [execute] for one staged operation. *)
Definition check_op (op : StagedOp) : Op unit :=
  match op with
  | SEntity op =>
      let collection := e_collection (wo_entity op) in
      do current <- reads (fun s => sa_get s collection (e_id (wo_entity op)));
      let current_version := version_of current in
      if negb (version_check op current_version)
      then fail (ConflictingVersion (wo_expected_version op) current_version current)
      else
        match wo_mutation op with
        | EntityCreate | EntityUpdate =>
            do schema <- reads (fun s => sa_get_schema s collection);
            match schema with
            | Some sch => lift (validate sch (e_data (wo_entity op)))
            | None => ret tt
            end
        | _ => ret tt
        end
  | SLinkCreate link =>
      do source <- reads (fun s => sa_get s (l_source_collection link) (l_source_id link));
      match source with
      | None => fail (NotFound ("source entity " +:+ l_source_collection link +:+ "/" +:+
                        l_source_id link))
      | Some _ =>
          do target <- reads (fun s => sa_get s (l_target_collection link) (l_target_id link));
          match target with
          | None => fail (NotFound ("target entity " +:+ l_target_collection link +:+ "/" +:+
                            l_target_id link))
          | Some _ =>
              do existing <- reads (fun s => sa_get s links_collection (link_storage_id link));
              match existing with
              | Some _ =>
                  fail (AlreadyExists ("link " +:+ l_source_collection link +:+ "/" +:+
                    l_source_id link +:+ "/" +:+ l_link_type link +:+ "/" +:+
                    l_target_collection link +:+ "/" +:+ l_target_id link))
              | None => ret tt
              end
          end
      end
  | SLinkDelete link =>
      do existing <- reads (fun s => sa_get s links_collection (link_storage_id link));
      match existing with
      | None =>
          fail (NotFound ("link " +:+ l_source_collection link +:+ "/" +:+ l_source_id link +:+
            " --[" +:+ l_link_type link +:+ "]--> " +:+ l_target_collection link +:+ "/" +:+
            l_target_id link))
      | Some _ => ret tt
      end
  end.

(** Phase 1b: one recorded read. *)
Definition check_read (r : ReadRef) : Op unit :=
  do current <- reads (fun s => sa_get s (rr_collection r) (rr_id r));
  let current_version := version_of current in
  if negb (current_version =? rr_observed_version r)%Z
  then fail (ConflictingVersion (rr_observed_version r) current_version current)
  else ret tt.

(** Phase 1b: one recorded scan, against the signature of the level. *)
Definition check_scan (strict : bool) (r : ScanReadRef) : Op unit :=
  do current_signature <- reads (fun s =>
       if strict then sa_content_version s (sr_scan_collection r)
       else sa_structural_version s (sr_scan_collection r));
  if negb (current_signature =? sr_observed_structural_version r)%Z
  then fail (ConflictingVersion (sr_observed_structural_version r) current_signature None)
  else ret tt.

Definition is_strict (l : IsolationLevel) : bool :=
  match l with SerializableStrict => true | _ => false end.

(** [attach_audit_context] *)
Definition attach_audit_context (attribution : option AuditAttribution)
    (lineage : option MutationIntentAuditMetadata) (entry : AuditEntry) : AuditEntry :=
  let entry := match attribution with Some a => with_attribution a entry | None => entry end in
  match lineage with Some l => with_intent_lineage l entry | None => entry end.

(** What every audit entry of one commit shares. *)
Record CommitContext : Type := {
  cc_tx_id : string;
  cc_actor : string;
  cc_attribution : option AuditAttribution;
  cc_lineage : option MutationIntentAuditMetadata
}.

Definition tx_entry (cx : CommitContext) (collection : CollectionId) (id : EntityId) (version : Z)
    (m : MutationType) (before after : option Value) : AuditEntry :=
  attach_audit_context (cc_attribution cx) (cc_lineage cx)
    (with_transaction_id (cc_tx_id cx)
       (audit_entry_new collection id version m before after (Some (cc_actor cx)))).

(** Phase 2 of [execute] for one staged operation: the entity pushed to
    [written] and the entry pushed to [pending_entries], if any. *)
Definition apply_op (cx : CommitContext) (op : StagedOp) : Op (option (Entity * AuditEntry)) :=
  match op with
  | SEntity op =>
      let e := wo_entity op in
      match wo_mutation op with
      | EntityCreate =>
          do! sa_put e;
          ret (Some (e, tx_entry cx (e_collection e) (e_id e) (e_version e) EntityCreate
                          None (Some (e_data e))))
      | EntityUpdate =>
          do updated <- sa_compare_and_swap e (wo_expected_version op);
          ret (Some (updated, tx_entry cx (e_collection updated) (e_id updated)
                                (e_version updated) EntityUpdate (wo_data_before op)
                                (Some (e_data updated))))
      | EntityDelete =>
          do! sa_delete (e_collection e) (e_id e);
          ret (Some (e, tx_entry cx (e_collection e) (e_id e) (e_version e) EntityDelete
                          (wo_data_before op) None))
      | _ => ret None
      end
  | SLinkCreate link =>
      do! sa_put_link link;
      let le := link_to_entity link in
      ret (Some (le, tx_entry cx (e_collection le) (e_id le) (e_version le) LinkCreate
                       None (Some (e_data le))))
  | SLinkDelete link =>
      do existing <- reads (fun s => sa_get s links_collection (link_storage_id link));
      match existing with
      | None => fail (NotFound ("link " +:+ link_storage_id link))
      | Some le =>
          do! sa_delete_link (l_source_collection link) (l_source_id link) (l_link_type link)
                (l_target_collection link) (l_target_id link);
          ret (Some (le, tx_entry cx (e_collection le) (e_id le) (e_version le) LinkDelete
                           (Some (e_data le)) None))
      end
  end.

(** The loop of phase 2. *)
Fixpoint apply_ops (cx : CommitContext) (ops : list StagedOp) : Op (list (Entity * AuditEntry)) :=
  match ops with
  | [] => ret []
  | op :: ops' =>
      do o <- apply_op cx op;
      do rest <- apply_ops cx ops';
      ret (match o with Some p => p :: rest | None => rest end)
  end.

(** [Transaction::execute] *)
Definition execute (t : Transaction) (cx : CommitContext) : Op (list (Entity * AuditEntry)) :=
  do! for_each check_op (tx_ops t);
  do! (if is_serializable (tx_isolation t)
       then do! for_each check_read (tx_reads t);
            for_each (check_scan (is_strict (tx_isolation t))) (tx_scan_reads t)
       else ret tt);
  apply_ops cx (tx_ops t).

(** [match m { Ok(x) => x, Err(e) => { let _ = storage.abort_tx(); return Err(e) } }] *)
Definition or_abort {A} (m : Op A) : Op A := fun s =>
  match m s with
  | (s', Err e) =>
      match sa_abort_tx s' with
      | (s'', Panic) => (s'', Panic)
      | (s'', _) => (s'', Err e)
      end
  | other => other
  end.

(** Appends the pending entries; [clock n] is the time of the n-th append. *)
Fixpoint append_all (clock : nat -> Z) (n : nat) (entries : list AuditEntry) : Op unit :=
  match entries with
  | [] => ret tt
  | e :: rest => do! sa_append_audit_entry (clock n) e; append_all clock (Datatypes.S n) rest
  end.

(** [Transaction::commit_with_storage_hook]; [now] is the monotonic clock at
    the call, whose reading never lies before [created_at]. *)
Definition commit_with_storage_hook {T} (t : Transaction) (now : Z) (clock : nat -> Z)
    (actor : option string) (attribution : option AuditAttribution)
    (lineage : option MutationIntentAuditMetadata) (before_commit : Op T)
  : Op (list Entity * T) :=
  let elapsed := (now - tx_created_at t)%Z in
  if (tx_timeout t <? elapsed)%Z
  then fail (InvalidOperation ("transaction timed out after " +:+ secs_display elapsed +:+
         "s (limit: " +:+ pretty (tx_timeout t / 1000000000)%Z +:+ "s)"))
  else
  do owns <- gets sa_owns_audit_log;
  if negb owns then fail (InvalidOperation "storage adapter does not own an audit log")
  else
  do! sa_begin_tx;
  let cx := {| cc_tx_id := tx_id t; cc_actor := default "anonymous" actor;
               cc_attribution := attribution; cc_lineage := lineage |} in
  do results <- or_abort (execute t cx);
  do! or_abort (append_all clock 0 (map snd results));
  do hook_result <- or_abort before_commit;
  do! or_abort sa_commit_tx;
  ret (map fst results, hook_result).

(** [Transaction::commit] *)
Definition commit (t : Transaction) (now : Z) (clock : nat -> Z) (actor : option string)
    (attribution : option AuditAttribution) : Op (list Entity) :=
  do (written, _) <- commit_with_storage_hook t now clock actor attribution None (ret tt);
  ret written.
End Commit.

(** ** Staging invariant *)

Section StagingProofs.
Context `{SerdeNumber}.

(** The limits hold, and snapshot transactions record no reads. *)
Definition tx_wf (t : Transaction) : Prop :=
  length (tx_ops t) <= MAX_OPS /\ length (tx_reads t) <= MAX_READS /\
  length (tx_scan_reads t) <= MAX_READS /\
  (is_serializable (tx_isolation t) = false -> tx_reads t = [] /\ tx_scan_reads t = []).

(** The staging calls a client can make. *)
Inductive StagingCall : Type :=
| CallRead (c : CollectionId) (i : EntityId) (v : Z)
| CallScan (c : CollectionId) (v : Z)
| CallCreate (e : Entity)
| CallUpdate (e : Entity) (v : Z) (before : option Value)
| CallPatch (e : Entity) (v : Z) (before : option Value) (patch : Value)
| CallDelete (c : CollectionId) (i : EntityId) (v : Z) (before : option Value)
| CallCreateLink (l : Link)
| CallDeleteLink (l : Link).

Definition run_call (c : StagingCall) : M Transaction AxonError unit :=
  match c with
  | CallRead c i v => record_read c i v
  | CallScan c v => record_scan_read c v
  | CallCreate e => tx_create e
  | CallUpdate e v b => tx_update e v b
  | CallPatch e v b p => tx_patch_update e v b p
  | CallDelete c i v b => tx_delete c i v b
  | CallCreateLink l => tx_create_link l
  | CallDeleteLink l => tx_delete_link l
  end.

(** The client ignores a staging error and goes on with the transaction. *)
Definition run_calls (calls : list StagingCall) (t : Transaction) : Transaction :=
  fold_left (fun t c => fst (run_call c t)) calls t.

Lemma push_op_run op t :
  push_op op t =
    if (MAX_OPS <=? length (tx_ops t))%nat
    then (t, Err (InvalidArgument "transaction exceeds maximum of 100 operations"))
    else (set_tx_ops (tx_ops t ++ [op]) t, Ok tt).
Proof. unfold push_op, check_op_limit, bind, gets. by destruct (_ <=? _)%nat. Qed.

Lemma record_read_run c i v t :
  record_read c i v t =
    if is_serializable (tx_isolation t) then
      if (MAX_READS <=? length (tx_reads t))%nat
      then (t, Err (InvalidArgument "transaction exceeds maximum of 100 tracked reads"))
      else (set_tx_reads (tx_reads t ++ [{| rr_collection := c; rr_id := i;
                            rr_observed_version := v |}]) (tx_scan_reads t) t, Ok tt)
    else (t, Ok tt).
Proof.
  unfold record_read, bind, gets, id. destruct (is_serializable _); [|done]. cbn [negb].
  by destruct (_ <=? _)%nat.
Qed.

Lemma record_scan_read_run c v t :
  record_scan_read c v t =
    if is_serializable (tx_isolation t) then
      if (MAX_READS <=? length (tx_scan_reads t))%nat
      then (t, Err (InvalidArgument "transaction exceeds maximum of 100 tracked scan reads"))
      else (set_tx_reads (tx_reads t) (tx_scan_reads t ++ [{| sr_scan_collection := c;
                            sr_observed_structural_version := v |}]) t, Ok tt)
    else (t, Ok tt).
Proof.
  unfold record_scan_read, bind, gets, id. destruct (is_serializable _); [|done]. cbn [negb].
  by destruct (_ <=? _)%nat.
Qed.

Lemma run_call_wf c : keeps tx_wf (run_call c).
Proof.
  assert (Hpush : forall op, keeps tx_wf (push_op op)).
  { intros op t Ht. rewrite push_op_run.
    destruct (Nat.leb_spec MAX_OPS (length (tx_ops t))); [done|].
    destruct Ht as (H1 & Ht). split; simpl; [rewrite length_app; simpl; lia | done]. }
  destruct c; try apply Hpush; intros t Ht; cbn [run_call]; pose proof Ht as (H1 & H2 & H3 & H4).
  - rewrite record_read_run. destruct (is_serializable (tx_isolation t)) eqn:Hi; [|exact Ht].
    destruct (Nat.leb_spec MAX_READS (length (tx_reads t))); [exact Ht|].
    unfold tx_wf. cbn. rewrite length_app. split_and!; [done | simpl; lia | done | congruence].
  - rewrite record_scan_read_run. destruct (is_serializable (tx_isolation t)) eqn:Hi; [|exact Ht].
    destruct (Nat.leb_spec MAX_READS (length (tx_scan_reads t))); [exact Ht|].
    unfold tx_wf. cbn. rewrite length_app. split_and!; [done | done | simpl; lia | congruence].
Qed.

(** Whatever a client stages, in any order and ignoring errors, a new
    transaction never holds more than 100 operations, 100 tracked reads or
    100 tracked scans, and at the default level it tracks no reads at all. *)
Theorem staging_limits (counter now : Z) (isolation : IsolationLevel) (calls : list StagingCall) :
  tx_wf (run_calls calls (snd (with_isolation isolation counter now))).
Proof.
  assert (Hinit : tx_wf (snd (with_isolation isolation counter now))).
  { unfold tx_wf. simpl. unfold MAX_OPS, MAX_READS. repeat split; lia. }
  revert Hinit. generalize (snd (with_isolation isolation counter now)) as t.
  induction calls as [|c calls IH]; intros t Ht; simpl; [done|].
  apply IH. by apply run_call_wf.
Qed.
End StagingProofs.

(** ** Commit *)

Section CommitProofs.
Context `{SerdeNumber} {S : Type} `{!StorageAdapter S} `{!StorageAdapterLaws S}.
Variable validate : CollectionSchema -> Value -> result unit AxonError.
Variable secs_display : Z -> string.

(** Rollback point and audit log stay as they are. *)
Definition quiet {A} (m : M S AxonError A) : Prop :=
  forall x l, keeps (fun s => sa_saved s = x /\ sa_audit s = l) m.

Lemma row_write_quiet {A} (m : M S AxonError A) : row_write sa_saved sa_audit m -> quiet m.
Proof. intros Hm x l s [<- <-]. apply Hm. Qed.

Lemma quiet_saved {A} (m : M S AxonError A) s : quiet m -> sa_saved (fst (m s)) = sa_saved s.
Proof. intros Hm. by apply (Hm (sa_saved s) (sa_audit s) s). Qed.

Lemma quiet_audit {A} (m : M S AxonError A) s : quiet m -> sa_audit (fst (m s)) = sa_audit s.
Proof. intros Hm. by apply (Hm (sa_saved s) (sa_audit s) s). Qed.

(** The checks of phase 1 only read. *)
Definition read_only {A} (m : M S AxonError A) : Prop := forall s0, keeps (fun s => s = s0) m.

Lemma check_op_read_only op : read_only (check_op validate op).
Proof. intros s0. destruct op; simpl; repeat keeps_step. Qed.

Lemma check_read_read_only r : read_only (check_read r).
Proof. intros s0. unfold check_read. repeat keeps_step. Qed.

Lemma check_scan_read_only b r : read_only (check_scan b r).
Proof. intros s0. unfold check_scan. repeat keeps_step. Qed.

Lemma read_only_run {A} (m : M S AxonError A) s : read_only m -> fst (m s) = s.
Proof. intros Hm. by apply (Hm s s). Qed.

Lemma read_only_keeps {A} (m : M S AxonError A) P : read_only m -> keeps P m.
Proof. intros Hm s Hs. by rewrite read_only_run. Qed.

Lemma for_each_read_only {A} (f : A -> M S AxonError unit) l :
  (forall a, read_only (f a)) -> read_only (for_each f l).
Proof. intros Hf s0. apply keeps_for_each. intros a. apply Hf. Qed.

Lemma read_only_quiet {A} (m : M S AxonError A) : read_only m -> quiet m.
Proof. intros Hm x l s Hs. by rewrite read_only_run. Qed.

Lemma apply_op_quiet cx op : quiet (apply_op cx op).
Proof.
  intros x l. destruct op as [op| |]; simpl.
  - destruct (wo_mutation op); repeat keeps_step; apply row_write_quiet;
      [apply sa_put_rows | apply sa_cas_rows | apply sa_delete_rows].
  - repeat keeps_step. apply row_write_quiet, sa_put_link_rows.
  - repeat keeps_step. apply row_write_quiet, sa_delete_link_rows.
Qed.

Lemma apply_ops_quiet cx ops : quiet (apply_ops cx ops).
Proof.
  induction ops as [|op ops IH]; intros x l; simpl; repeat keeps_step;
    [apply apply_op_quiet | apply IH].
Qed.

Lemma execute_quiet t cx : quiet (execute validate t cx).
Proof.
  intros x l. unfold execute. repeat keeps_step;
    first [apply apply_ops_quiet | apply read_only_quiet; first
      [apply check_op_read_only | apply check_read_read_only | apply check_scan_read_only]].
Qed.

(** A failing step rolls back, a succeeding one goes on. *)
Lemma or_abort_err {A} (m : M S AxonError A) s s' e v :
  (forall s, sa_saved (fst (m s)) = sa_saved s) -> sa_saved s = Some v ->
  or_abort m s = (s', Err e) -> sa_view s' = v /\ sa_saved s' = None.
Proof.
  intros Hm Hs. unfold or_abort. specialize (Hm s).
  destruct (m s) as [s1 [a|e1|]]; try discriminate. simpl in Hm. rewrite Hs in Hm.
  pose proof (sa_abort_restores s1 v Hm) as Ha.
  destruct (sa_abort_tx s1) as [s2 [[]|e2|]]; simpl in Ha; intros [= <- <-]; exact Ha.
Qed.

(** A commit that fails goes back to the rollback point. *)
Lemma or_abort_commit_err s s' e v :
  sa_saved s = Some v -> or_abort sa_commit_tx s = (s', Err e) -> sa_view s' = v /\ sa_saved s' = None.
Proof.
  intros Hs. unfold or_abort. destruct (sa_commit_tx s) as [s1 [a|e1|]] eqn:Hc; try discriminate.
  pose proof (sa_abort_restores s1 v (sa_commit_err s v s1 e1 Hs Hc)) as Ha.
  destruct (sa_abort_tx s1) as [s2 [[]|e2|]]; simpl in Ha; intros [= <- <-]; exact Ha.
Qed.

Lemma or_abort_ok {A} (m : M S AxonError A) s s' a :
  or_abort m s = (s', Ok a) -> m s = (s', Ok a).
Proof.
  unfold or_abort. destruct (m s) as [s1 [b|e1|]]; try done.
  by destruct (sa_abort_tx s1) as [s2 [[]|e2|]].
Qed.

Lemma append_all_saved clock n entries s :
  sa_saved (fst (append_all clock n entries s)) = sa_saved s.
Proof.
  revert n s. induction entries as [|e rest IH]; intros n s; simpl; [done|]. unfold bind.
  pose proof (sa_append_saved (clock n) e s) as Ha.
  destruct (sa_append_audit_entry (clock n) e s) as [s1 [st|e1|]]; simpl in *; [|done..].
  by rewrite IH.
Qed.

Lemma append_all_ok clock n entries s s' :
  append_all clock n entries s = (s', Ok tt) ->
  exists stored, sa_audit s' = sa_audit s ++ stored /\ Forall2 same_entry entries stored.
Proof.
  revert n s. induction entries as [|e rest IH]; intros n s; simpl.
  - intros [= <-]. exists []. rewrite app_nil_r. by constructor.
  - intros Hr. apply bind_ok in Hr as (s1 & st & Ha & Hr).
    apply sa_append_ok in Ha as [Haud Hsame]. apply IH in Hr as (sts & -> & Hall).
    exists (st :: sts). rewrite Haud, <-app_assoc. by repeat constructor.
Qed.

Lemma bind_run {A B} (m : M S AxonError A) (f : A -> M S AxonError B) s :
  bind m f s = match m s with
               | (s', Ok a) => f a s'
               | (s', Err e) => (s', Err e)
               | (s', Panic) => (s', Panic)
               end.
Proof. done. Qed.

Definition context_of (t : Transaction) (actor : option string)
    (attribution : option AuditAttribution) (lineage : option MutationIntentAuditMetadata)
  : CommitContext :=
  {| cc_tx_id := tx_id t; cc_actor := default "anonymous" actor;
     cc_attribution := attribution; cc_lineage := lineage |}.

(** The part of a commit that runs inside the storage transaction. *)
Definition commit_body {T} (t : Transaction) (clock : nat -> Z) (cx : CommitContext)
    (hook : M S AxonError T) : M S AxonError (list Entity * T) :=
  bind (or_abort (execute validate t cx)) (fun results =>
  bind (or_abort (append_all clock 0 (map snd results))) (fun _ =>
  bind (or_abort hook) (fun hook_result =>
  bind (or_abort sa_commit_tx) (fun _ => ret (map fst results, hook_result))))).

(** A commit either fails before touching the storage, or runs its body in
    the transaction it opened. *)
Lemma commit_cases {T} t now clock actor attribution lineage (hook : M S AxonError T) s :
  sa_saved s = None ->
  (exists e, commit_with_storage_hook validate secs_display t now clock actor attribution lineage
               hook s = (s, Err e)) \/
  (exists s1, sa_view s1 = sa_view s /\ sa_saved s1 = Some (sa_view s) /\
    (forall c, sa_structural_version s1 c = sa_structural_version s c) /\
    (forall c, sa_content_version s1 c = sa_content_version s c) /\
    commit_with_storage_hook validate secs_display t now clock actor attribution lineage hook s
    = commit_body t clock (context_of t actor attribution lineage) hook s1).
Proof.
  intros Hs. unfold commit_with_storage_hook.
  destruct (_ <? _)%Z; [left; by eexists|].
  rewrite bind_run. cbn [gets]. unfold gets. destruct (sa_owns_audit_log s); simpl; [|left; by eexists].
  destruct (sa_begin_result s Hs) as [(s1 & Hb & Hv & Hsv & Hst & Hct)|[e Hb]].
  - right. exists s1. split_and!; [done..|]. by rewrite bind_run, Hb.
  - left. exists e. by rewrite bind_run, Hb.
Qed.

(** Every failure inside the body has gone through a rollback. *)
Lemma commit_body_err {T} t clock cx (hook : M S AxonError T) s1 s' e v :
  (forall s, sa_saved (fst (hook s)) = sa_saved s) -> sa_saved s1 = Some v ->
  commit_body t clock cx hook s1 = (s', Err e) -> sa_view s' = v /\ sa_saved s' = None.
Proof.
  intros Hhook Hs1. unfold commit_body. intros Hc.
  apply bind_err in Hc as [Hc|(s2 & res & Hx & Hc)].
  { eapply or_abort_err; [|done..]. intros. apply quiet_saved, execute_quiet. }
  apply or_abort_ok in Hx.
  assert (Hs2 : sa_saved s2 = Some v).
  { pose proof (quiet_saved _ s1 (execute_quiet t cx)) as Hq. by rewrite Hx, Hs1 in Hq. }
  apply bind_err in Hc as [Hc|(s3 & [] & Ha & Hc)].
  { eapply or_abort_err; [|done..]. intros. apply append_all_saved. }
  apply or_abort_ok in Ha.
  assert (Hs3 : sa_saved s3 = Some v).
  { pose proof (append_all_saved clock 0 (map snd res) s2) as Hq. by rewrite Ha, Hs2 in Hq. }
  apply bind_err in Hc as [Hc|(s4 & x & Hh & Hc)].
  { by eapply or_abort_err. }
  apply or_abort_ok in Hh.
  assert (Hs4 : sa_saved s4 = Some v) by (specialize (Hhook s3); by rewrite Hh, Hs3 in Hhook).
  apply bind_err in Hc as [Hc|(s5 & [] & _ & Hc)]; [|done].
  by eapply or_abort_commit_err.
Qed.

(** What a successful body did. *)
Lemma commit_body_ok {T} t clock cx (hook : M S AxonError T) s1 s' w x v :
  (forall s, sa_saved (fst (hook s)) = sa_saved s) -> sa_saved s1 = Some v ->
  commit_body t clock cx hook s1 = (s', Ok (w, x)) ->
  exists s2 res s3 s4, execute validate t cx s1 = (s2, Ok res) /\
    append_all clock 0 (map snd res) s2 = (s3, Ok tt) /\ hook s3 = (s4, Ok x) /\
    w = map fst res /\ sa_view s' = sa_view s4 /\ sa_saved s' = None.
Proof.
  intros Hhook Hs1 Hc. unfold commit_body in Hc.
  apply bind_ok in Hc as (s2 & res & Hx%or_abort_ok & Hc).
  apply bind_ok in Hc as (s3 & [] & Ha%or_abort_ok & Hc).
  apply bind_ok in Hc as (s4 & x' & Hh%or_abort_ok & Hc).
  apply bind_ok in Hc as (s5 & [] & Hcm%or_abort_ok & [= <- <- <-]).
  assert (Hs4 : sa_saved s4 = Some v).
  { specialize (Hhook s3). rewrite Hh in Hhook. simpl in Hhook. rewrite Hhook.
    pose proof (append_all_saved clock 0 (map snd res) s2) as Hq. rewrite Ha in Hq. simpl in Hq.
    pose proof (quiet_saved _ s1 (execute_quiet t cx)) as Hq2. rewrite Hx in Hq2. simpl in Hq2.
    congruence. }
  apply (sa_commit_ok s4 v) in Hcm as [Hv Hsv]; [|done]. by exists s2, res, s3, s4.
Qed.

(** C1. Commits are atomic: whenever a commit reports an error (timeout,
    version conflict, failed validation, unique violation, failed link
    check, a failure of the caller's hook, or of the backend when it opens the
    transaction, appends an audit entry or commits), everything visible in the
    store (rows, indexes, links, schemas, catalog, intents and audit log) is
    what it was before the call, and no transaction stays open.  This holds for
    every storage backend that keeps the interface's laws, which assume that a
    rollback works. *)
Theorem commit_atomic {T} (t : Transaction) (now : Z) (clock : nat -> Z) (actor : option string)
    (attribution : option AuditAttribution) (lineage : option MutationIntentAuditMetadata)
    (hook : M S AxonError T) (s s' : S) (e : AxonError)
    (Hidle : sa_saved s = None)
    (Hhook : forall s, sa_saved (fst (hook s)) = sa_saved s)
    (Herr : commit_with_storage_hook validate secs_display t now clock actor attribution lineage
              hook s = (s', Err e)) :
  sa_view s' = sa_view s /\ sa_saved s' = None.
Proof.
  destruct (commit_cases t now clock actor attribution lineage hook s Hidle)
    as [[e' Hc]|(s1 & Hv & Hs1 & _ & _ & Hc)]; rewrite Hc in Herr.
  - by injection Herr as <- _.
  - by eapply commit_body_err.
Qed.

(** *** What a successful commit has checked *)

Lemma for_each_checked {A} (f : A -> M S AxonError unit) l s s' :
  (forall a, read_only (f a)) -> for_each f l s = (s', Ok tt) ->
  s' = s /\ Forall (fun a => f a s = (s, Ok tt)) l.
Proof.
  intros Hf. induction l as [|a l IH]; simpl; [by intros [= <-]|].
  intros Hc. apply bind_ok in Hc as (s1 & [] & Ha & Hc).
  pose proof (read_only_run _ s (Hf a)) as Hs. rewrite Ha in Hs. simpl in Hs. subst s1.
  apply IH in Hc as [-> Hl]. by split; [|constructor].
Qed.

(** The staged operation fits the state [s]. *)
Definition op_current (s : S) (op : StagedOp) : Prop :=
  match op with
  | SEntity o =>
      exists cur, sa_get s (e_collection (wo_entity o)) (e_id (wo_entity o)) = Ok cur /\
        (wo_mutation o = EntityCreate -> version_of cur = 0%Z) /\
        (wo_mutation o = EntityUpdate \/ wo_mutation o = EntityDelete ->
         version_of cur = wo_expected_version o) /\
        ((wo_mutation o = EntityCreate \/ wo_mutation o = EntityUpdate) ->
         forall sch, sa_get_schema s (e_collection (wo_entity o)) = Ok (Some sch) ->
           validate sch (e_data (wo_entity o)) = Ok tt)
  | SLinkCreate l =>
      (exists e, sa_get s (l_source_collection l) (l_source_id l) = Ok (Some e)) /\
      (exists e, sa_get s (l_target_collection l) (l_target_id l) = Ok (Some e)) /\
      sa_get s links_collection (link_storage_id l) = Ok None
  | SLinkDelete l =>
      exists e, sa_get s links_collection (link_storage_id l) = Ok (Some e)
  end.

(** A recorded read still holds in [s]. *)
Definition read_current (s : S) (r : ReadRef) : Prop :=
  exists cur, sa_get s (rr_collection r) (rr_id r) = Ok cur /\ version_of cur = rr_observed_version r.

Definition scan_current (strict : bool) (s : S) (r : ScanReadRef) : Prop :=
  (if strict then sa_content_version s (sr_scan_collection r)
   else sa_structural_version s (sr_scan_collection r)) = Ok (sr_observed_structural_version r).

Lemma reads_ok {A B} (f : S -> result A AxonError) (g : A -> M S AxonError B) s s' b :
  bind (reads f) g s = (s', Ok b) -> exists a, f s = Ok a /\ g a s = (s', Ok b).
Proof. unfold bind, reads. destruct (f s); [eauto | done..]. Qed.

Lemma check_op_current op s s' : check_op validate op s = (s', Ok tt) -> op_current s op.
Proof.
  destruct op as [o|l|l]; simpl; intros Hc.
  - apply reads_ok in Hc as (cur & Hget & Hc). exists cur. split; [done|].
    destruct (version_check o (version_of cur)) eqn:Hv; [|done]. unfold version_check in Hv.
    split; [intros Hm; rewrite Hm in Hv; by apply Z.eqb_eq|].
    split; [intros [Hm|Hm]; rewrite Hm in Hv; by apply Z.eqb_eq|].
    intros Hm sch Hsch.
    assert (Hx : bind (reads (fun s => sa_get_schema s (e_collection (wo_entity o))))
      (fun schema => match schema with
         | Some sch => lift (validate sch (e_data (wo_entity o))) | None => ret tt end) s = (s', Ok tt))
      by (destruct Hm as [Hm|Hm]; rewrite Hm in Hc; exact Hc).
    apply reads_ok in Hx as (o' & Ho & Hx). rewrite Hsch in Ho. injection Ho as <-.
    by injection Hx.
  - apply reads_ok in Hc as ([e|] & Hsrc & Hc); [|done].
    apply reads_ok in Hc as ([e'|] & Htgt & Hc); [|done].
    apply reads_ok in Hc as ([e''|] & Hl & Hc); [done|]. eauto.
  - apply reads_ok in Hc as ([e|] & Hl & Hc); [eauto|done].
Qed.

Lemma check_read_current r s s' : check_read r s = (s', Ok tt) -> read_current s r.
Proof.
  unfold check_read. intros Hc. apply reads_ok in Hc as (cur & Hget & Hc).
  destruct (Z.eqb_spec (version_of cur) (rr_observed_version r)); [|done]. by exists cur.
Qed.

Lemma check_scan_current b r s s' : check_scan b r s = (s', Ok tt) -> scan_current b s r.
Proof.
  unfold check_scan, scan_current. intros Hc. apply reads_ok in Hc as (sg & Hget & Hc).
  destruct (Z.eqb_spec sg (sr_observed_structural_version r)) as [->|]; done.
Qed.

Lemma Forall_checked {A} (f : A -> M S AxonError unit) (P : A -> Prop) l s :
  (forall a s', f a s = (s', Ok tt) -> P a) ->
  Forall (fun a => f a s = (s, Ok tt)) l -> Forall P l.
Proof. intros HP Hl. eapply Forall_impl; [exact Hl|]. intros a Ha. exact (HP a s Ha). Qed.

(** Phase 1 and 1b have accepted everything, in an unchanged state. *)
Lemma execute_checked t cx s s' res :
  execute validate t cx s = (s', Ok res) ->
  Forall (op_current s) (tx_ops t) /\
  (is_serializable (tx_isolation t) = true ->
     Forall (read_current s) (tx_reads t) /\
     Forall (scan_current (is_strict (tx_isolation t)) s) (tx_scan_reads t)) /\
  apply_ops cx (tx_ops t) s = (s', Ok res).
Proof.
  unfold execute. intros Hx. apply bind_ok in Hx as (s1 & [] & H1 & Hx).
  apply for_each_checked in H1 as [-> H1]; [|apply check_op_read_only].
  apply bind_ok in Hx as (s2 & [] & H2 & Hx).
  split; [exact (Forall_checked _ _ _ _ (fun a s' => check_op_current a s s') H1)|].
  destruct (is_serializable (tx_isolation t)).
  - apply bind_ok in H2 as (s3 & [] & H2 & H3).
    apply for_each_checked in H2 as [-> H2]; [|apply check_read_read_only].
    apply for_each_checked in H3 as [-> H3]; [|apply check_scan_read_only].
    split; [|done]. intros _. split.
    + exact (Forall_checked _ _ _ _ (fun a s' => check_read_current a s s') H2).
    + exact (Forall_checked _ _ _ _ (fun a s' => check_scan_current _ a s s') H3).
  - by injection H2 as <-.
Qed.

Lemma op_current_view s s1 op :
  sa_view s1 = sa_view s -> op_current s1 op -> op_current s op.
Proof.
  intros Hv. pose proof (fun c i => sa_get_view s1 s c i Hv) as Hg.
  pose proof (fun c => sa_get_schema_view s1 s c Hv) as Hgs.
  destruct op; simpl; rewrite ?Hg; [|done..].
  intros (cur & ? & ? & ? & Hsch). exists cur. split_and!; try done. intros Hm sch. rewrite <-Hgs. auto.
Qed.

Lemma read_current_view s s1 r : sa_view s1 = sa_view s -> read_current s1 r -> read_current s r.
Proof. intros Hv. unfold read_current. by rewrite (sa_get_view s1 s _ _ Hv). Qed.

(** What a successful commit has checked. *)
Lemma commit_checked {T} (t : Transaction) (now : Z) (clock : nat -> Z)
    (actor : option string) (attribution : option AuditAttribution)
    (lineage : option MutationIntentAuditMetadata) (hook : M S AxonError T) (s s' : S)
    (w : list Entity) (x : T)
    (Hidle : sa_saved s = None)
    (Hhook : forall s, sa_saved (fst (hook s)) = sa_saved s)
    (Hok : commit_with_storage_hook validate secs_display t now clock actor attribution lineage
             hook s = (s', Ok (w, x))) :
  Forall (op_current s) (tx_ops t) /\
  (is_serializable (tx_isolation t) = true ->
     Forall (read_current s) (tx_reads t) /\
     Forall (scan_current (is_strict (tx_isolation t)) s) (tx_scan_reads t)).
Proof.
  destruct (commit_cases t now clock actor attribution lineage hook s Hidle)
    as [[e' Hc]|(s1 & Hv & Hs1 & Hst & Hct & Hc)]; rewrite Hc in Hok; [done|].
  apply (commit_body_ok _ _ _ _ _ _ _ _ (sa_view s)) in Hok as (s2 & res & s3 & s4 & Hx & _); [|exact Hhook | exact Hs1].
  apply execute_checked in Hx as (Hops & Hser & _). split.
  - eapply Forall_impl; [exact Hops|]. intros op Hop. exact (op_current_view s s1 op Hv Hop).
  - intros Hi. destruct (Hser Hi) as [Hr Hsc]. split.
    + eapply Forall_impl; [exact Hr|]. intros r Hrr. exact (read_current_view s s1 r Hv Hrr).
    + eapply Forall_impl; [exact Hsc|]. intros r. unfold scan_current.
      by rewrite Hst, Hct.
Qed.

(** C2. No stale write and no stale read ever commits: when a commit succeeds,
    in the state it started from every created entity was absent, every
    updated or deleted entity was at exactly the version the client expected
    (and every written body passed the schema), every created link had both
    endpoints and did not exist, every deleted link existed; and at a
    serializable level every recorded read was still at its observed version
    and every scanned collection at its observed signature. *)
Theorem commit_validates {T} (t : Transaction) (now : Z) (clock : nat -> Z)
    (actor : option string) (attribution : option AuditAttribution)
    (lineage : option MutationIntentAuditMetadata) (hook : M S AxonError T) (s s' : S)
    (w : list Entity) (x : T)
    (Hidle : sa_saved s = None)
    (Hhook : forall s, sa_saved (fst (hook s)) = sa_saved s)
    (Hok : commit_with_storage_hook validate secs_display t now clock actor attribution lineage
             hook s = (s', Ok (w, x))) :
  Forall (op_current s) (tx_ops t) /\
  (is_serializable (tx_isolation t) = true ->
     Forall (read_current s) (tx_reads t) /\
     Forall (scan_current (is_strict (tx_isolation t)) s) (tx_scan_reads t)).
Proof. exact (commit_checked t now clock actor attribution lineage hook s s' w x Hidle Hhook Hok). Qed.

(** *** What a successful commit has logged *)

(** Operations that write; staging produces no others. *)
Definition effective (op : StagedOp) : bool :=
  match op with
  | SEntity o =>
      match wo_mutation o with EntityCreate | EntityUpdate | EntityDelete => true | _ => false end
  | _ => true
  end.

(** The row that a link has in the state [s]. *)
Definition link_row (s : S) (l : Link) (row : Entity) : Prop :=
  sa_get s links_collection (link_storage_id l) = Ok (Some row).

(** The entry [e] records the operation [op] that the commit [cx] applied in
    the state [s]. *)
Definition logged (cx : CommitContext) (s : S) (op : StagedOp) (e : AuditEntry) : Prop :=
  ae_transaction_id e = Some (cc_tx_id cx) /\ ae_actor e = cc_actor cx /\
  ae_attribution e = cc_attribution cx /\ ae_intent_lineage e = cc_lineage cx /\
  match op with
  | SEntity o =>
      ae_mutation e = wo_mutation o /\ ae_entity_id e = e_id (wo_entity o) /\
      ae_version e =
        (if bool_decide (wo_mutation o = EntityUpdate) then wrap64 (wo_expected_version o + 1)
         else e_version (wo_entity o)) /\
      ae_data_before e =
        (if bool_decide (wo_mutation o = EntityCreate) then None else wo_data_before o) /\
      ae_data_after e =
        (if bool_decide (wo_mutation o = EntityDelete) then None else Some (e_data (wo_entity o)))
  | SLinkCreate l =>
      ae_mutation e = LinkCreate /\ ae_collection e = links_collection /\
      ae_entity_id e = link_storage_id l /\
      ae_data_before e = None /\ ae_data_after e = Some (link_to_value l)
  | SLinkDelete l =>
      exists row, link_row s l row /\
        ae_mutation e = LinkDelete /\ ae_collection e = e_collection row /\
        ae_entity_id e = e_id row /\ ae_version e = e_version row /\
        ae_data_before e = Some (e_data row) /\ ae_data_after e = None
  end.

(** The operations [ops], applied one after the other from [s], are recorded by
    [es]: each one by an entry of its own, in the state it is applied in. *)
Inductive all_logged (cx : CommitContext) : S -> list StagedOp -> list AuditEntry -> Prop :=
| al_done s : all_logged cx s [] []
| al_idle s op s1 ops es :
    effective op = false -> apply_op cx op s = (s1, Ok None) -> all_logged cx s1 ops es ->
    all_logged cx s (op :: ops) es
| al_entry s op s1 w e0 e ops es :
    effective op = true -> apply_op cx op s = (s1, Ok (Some (w, e0))) -> logged cx s op e ->
    all_logged cx s1 ops es -> all_logged cx s (op :: ops) (e :: es).

Lemma tx_entry_shared cx c i v m b a :
  let e := tx_entry cx c i v m b a in
  ae_transaction_id e = Some (cc_tx_id cx) /\ ae_actor e = cc_actor cx /\
  ae_attribution e = cc_attribution cx /\ ae_intent_lineage e = cc_lineage cx /\
  ae_mutation e = m /\ ae_entity_id e = i /\ ae_version e = v /\
  ae_data_before e = b /\ ae_data_after e = a /\ ae_collection e = c.
Proof. unfold tx_entry, attach_audit_context. by destruct (cc_attribution cx), (cc_lineage cx). Qed.

(** What [tx_entry] makes of its arguments, for all entries in the goal. *)
Ltac entry_fields :=
  match goal with
  | |- context [tx_entry ?cx ?c ?i ?v ?m ?b ?a] =>
      let Hs := fresh in
      pose proof (tx_entry_shared cx c i v m b a) as Hs; cbv zeta in Hs;
      destruct Hs as (? & ? & ? & ? & ? & ? & ? & ? & ? & ?)
  end.

Lemma apply_op_logged cx op s s' o :
  apply_op cx op s = (s', Ok o) ->
  if effective op then exists w e, o = Some (w, e) /\ logged cx s op e else o = None.
Proof.
  intros Ha. destruct op as [op|l|l]; cbn [apply_op effective] in *.
  - destruct (wo_mutation op) eqn:Hm; try (by injection Ha as _ <-).
    + apply bind_ok in Ha as (s1 & [] & _ & [= _ <-]). do 2 eexists. split; [reflexivity|].
      unfold logged. rewrite Hm. entry_fields. by split_and!.
    + apply bind_ok in Ha as (s1 & u & Hu & [= _ <-]). do 2 eexists. split; [reflexivity|].
      apply sa_cas_result in Hu as (Hi & Hd & Hv). unfold logged. rewrite Hm. entry_fields.
      rewrite Hi, Hd, Hv in *. by split_and!.
    + apply bind_ok in Ha as (s1 & [] & _ & [= _ <-]). do 2 eexists. split; [reflexivity|].
      unfold logged. rewrite Hm. entry_fields. by split_and!.
  - apply bind_ok in Ha as (s1 & [] & _ & [= _ <-]). do 2 eexists. split; [reflexivity|].
    unfold logged. entry_fields. by split_and!.
  - apply reads_ok in Ha as ([le|] & Hg & Ha); [|done].
    apply bind_ok in Ha as (s1 & [] & _ & [= _ <-]). do 2 eexists. split; [reflexivity|].
    unfold logged. entry_fields. split_and!; try done. exists le. by split_and!.
Qed.

Lemma logged_same cx s op e stored : logged cx s op e -> same_entry e stored -> logged cx s op stored.
Proof. intros Hl (id & ts & ->). exact Hl. Qed.

Lemma apply_ops_logged cx ops s s' res stored :
  apply_ops cx ops s = (s', Ok res) -> Forall2 same_entry (map snd res) stored ->
  all_logged cx s ops stored.
Proof.
  revert s s' res stored. induction ops as [|op ops IH]; intros s s' res stored; simpl.
  - intros [= _ <-] Hs. inversion Hs. constructor.
  - intros Ha Hs. apply bind_ok in Ha as (s1 & o & Ho & Ha).
    apply bind_ok in Ha as (s2 & rest & Hr & [= _ <-]).
    pose proof (apply_op_logged cx op s s1 o Ho) as Hl. destruct (effective op) eqn:He.
    + destruct Hl as (w & e & -> & Hl). simpl in Hs. inversion Hs as [|? e' ? es Hse Hrest]; subst.
      eapply al_entry; [exact He|exact Ho|by eapply logged_same|by eapply IH].
    + subst o. eapply al_idle; [exact He|exact Ho|by eapply IH].
Qed.

(** C6. Every committed change is audited, and nothing else: a successful
    commit leaves no transaction open and extends the audit log by exactly one
    entry per staged write, in staging order, each carrying the transaction's
    id, the actor and the attribution.  The entry of a create or update has the
    id of the entity and its new data, that of an update or delete the data
    before as it was staged (updates with the version they produced); the entry
    of a new link has the link's id and document; the entry of a removed link
    has the id, version and document of the row that was stored under the
    link's id when the removal was applied. *)
Theorem commit_audits (t : Transaction) (now : Z) (clock : nat -> Z) (actor : option string)
    (attribution : option AuditAttribution) (s s' : S) (w : list Entity)
    (Hidle : sa_saved s = None)
    (Hok : commit validate secs_display t now clock actor attribution s = (s', Ok w)) :
  sa_saved s' = None /\
  exists s1 entries, sa_view s1 = sa_view s /\ sa_audit s' = sa_audit s ++ entries /\
    length w = length entries /\
    all_logged {| cc_tx_id := tx_id t; cc_actor := default "anonymous" actor;
                  cc_attribution := attribution; cc_lineage := None |} s1 (tx_ops t) entries.
Proof.
  unfold commit in Hok. apply bind_ok in Hok as (s5 & [w' []] & Hok & [= <- <-]).
  destruct (commit_cases t now clock actor attribution None (ret tt) s Hidle)
    as [[e' Hc]|(s1 & Hv & Hs1 & _ & _ & Hc)]; rewrite Hc in Hok; [done|].
  apply (commit_body_ok _ _ _ _ _ _ _ _ (sa_view s)) in Hok
    as (s2 & res & s3 & s4 & Hx & Ha & Hh & -> & Hv' & Hs'); [|done | done].
  split; [done|]. injection Hh as <-.
  apply append_all_ok in Ha as (stored & Haud & Hsame).
  pose proof (quiet_audit _ s1 (execute_quiet t (context_of t actor attribution None))) as Hq.
  rewrite Hx in Hq. simpl in Hq. exists s1, stored. split_and!; [done|..].
  - rewrite (sa_audit_view s5 s3 Hv'), Haud, Hq. by rewrite (sa_audit_view s1 s Hv).
  - apply Forall2_length in Hsame. by rewrite length_map in *.
  - apply execute_checked in Hx as (_ & _ & Hx). by eapply apply_ops_logged.
Qed.
End CommitProofs.
