(* ===== verification/Requests.v ===== *)
(** * Guards and requests of the request handler ([crates/axon-api/src/handler.rs])

    The guard of the reserved collections, the enforcement of lifecycle states,
    and the requests and responses of the write operations
    ([request.rs], [response.rs]).  The JSON text of the reserved-namespace error
    is an argument ([reserved_payload]). *)

From S2P Require Import Prelude Json Ids Types IndexKeys Intents AuditLog.
From S2P Require Import Schema PolicyPlan PolicyCycles PolicyCompile.
From S2P Require Import Rules Gates JsonOps AuthStore Roles Storage Catalog.
From S2P Require Import PolicyEval PolicyDecide Interface Transactions.
Local Open Scope axon_scope.

(** ** Reserved collections *)

Definition is_reserved_collection (collection : CollectionId) : bool :=
  bool_decide (is_Some (from_collection_name collection)).

Definition system_collection_class (collection : CollectionId) : option SystemCollectionClass :=
  option_map sc_class (from_collection_name collection).

Definition is_hidden_physical_collection (collection : CollectionId) : bool :=
  match system_collection_class collection with
  | Some (LinkForwardStore | LinkReverseIndex | CheckpointCursorStore | MutationIntentAuditSubject
         | LegacyPolicyAlias) => true
  | _ => false
  end.

Definition is_hidden_audit_collection (collection : CollectionId) : bool :=
  match system_collection_class collection with
  | Some (CheckpointCursorStore | LegacyPolicyAlias) => true
  | _ => false
  end.

Definition visible_collection_ids (collections : list CollectionId) : list CollectionId :=
  List.filter (fun c => negb (is_hidden_physical_collection c)) collections.

Section Guards.
Context `{SerdeNumber}.
Variable reserved_payload : string -> string -> string.

Definition link_visible_to_generic_scans (link : Link) : bool :=
  negb (is_reserved_collection (l_source_collection link))
  && negb (is_reserved_collection (l_target_collection link)).

Definition reserved_namespace_error (collection : CollectionId) (operation : string) : AxonError :=
  InvalidArgument (reserved_payload collection operation).

Definition ensure_generic_collection_access (collection : CollectionId) (operation : string)
    : result unit AxonError :=
  if is_reserved_collection collection then Err (reserved_namespace_error collection operation) else Ok tt.

Fixpoint ensure_generic_collection_accesses (collections : list CollectionId) (operation : string)
    : result unit AxonError :=
  match collections with
  | [] => Ok tt
  | c :: rest =>
      let? _ := ensure_generic_collection_access c operation in
      ensure_generic_collection_accesses rest operation
  end.

Definition OP_ENTITY : string := "entity".
Definition OP_LIFECYCLE : string := "lifecycle".
Definition OP_LINK : string := "link".
Definition OP_TRANSACTION : string := "transaction".
Definition OP_TRAVERSE : string := "traverse".
Definition OP_QUERY : string := "query".

Fixpoint ensure_generic_ops_access (ops : list StagedOp) : result unit AxonError :=
  match ops with
  | [] => Ok tt
  | op :: rest =>
      let? _ :=
        match op with
        | SEntity op => ensure_generic_collection_access (e_collection (wo_entity op)) OP_TRANSACTION
        | SLinkCreate link | SLinkDelete link =>
            let? _ := ensure_generic_collection_access (l_source_collection link) OP_TRANSACTION in
            ensure_generic_collection_access (l_target_collection link) OP_TRANSACTION
        end in
      ensure_generic_ops_access rest
  end.

Definition ensure_generic_transaction_access (tx : Transaction) : result unit AxonError :=
  ensure_generic_ops_access (tx_ops tx).
End Guards.

(** ** Lifecycles *)

Inductive LifecycleEnforcementMode : Type := ModeCreate | ModeUpdate.

Definition is_known_lifecycle_state (lifecycle : LifecycleDef) (state : string) : bool :=
  bool_decide (lc_initial lifecycle = state)
  || bool_decide (is_Some (lc_transitions lifecycle !! state))
  || existsb (fun e => existsb (fun t => bool_decide (t = state)) (snd e))
       (map_to_list (lc_transitions lifecycle)).

Section Lifecycles.
Context `{SerdeNumber}.

(** The body of the loop, for one lifecycle: the data with its field filled in. *)
Definition enforce_lifecycle (mode : LifecycleEnforcementMode) (lifecycle : LifecycleDef) (data : Value)
    : result Value AxonError :=
  match value_get data (lc_field lifecycle) with
  | None | Some Null =>
      match mode with
      | ModeCreate =>
          match data with
          | Object obj => Ok (Object (map_insert (lc_field lifecycle) (JString (lc_initial lifecycle)) obj))
          | _ => Err (LifecycleFieldMissing (lc_field lifecycle))
          end
      | ModeUpdate => Err (LifecycleFieldMissing (lc_field lifecycle))
      end
  | Some value =>
      match as_str value with
      | None => Err (LifecycleStateInvalid (lc_field lifecycle) value)
      | Some state =>
          if negb (is_known_lifecycle_state lifecycle state)
          then Err (LifecycleStateInvalid (lc_field lifecycle) (JString state))
          else Ok data
      end
  end.

Fixpoint enforce_lifecycles (mode : LifecycleEnforcementMode) (lifecycles : list LifecycleDef) (data : Value)
    : result Value AxonError :=
  match lifecycles with
  | [] => Ok data
  | lifecycle :: rest =>
      let? data := enforce_lifecycle mode lifecycle data in
      enforce_lifecycles mode rest data
  end.

(** [enforce_lifecycle_initial_state]; the source iterates a [HashMap], in no
    particular order. *)
Definition enforce_lifecycle_initial_state (schema : CollectionSchema) (data : Value)
    (mode : LifecycleEnforcementMode) : result Value AxonError :=
  enforce_lifecycles mode (map snd (map_to_list (cs_lifecycles schema))) data.

(** [data[&field] = value] of [serde_json]: a missing object is created from
    null, anything else panics. *)
Definition value_index_assign (data : Value) (field : string) (v : Value) : result Value AxonError :=
  match data with
  | Object obj => Ok (Object (map_insert field v obj))
  | Null => Ok (Object [(field, v)])
  | _ => Panic
  end.
End Lifecycles.

(** ** Requests and responses *)

Section Requests.
Context `{SerdeNumber}.

Record CreateEntityRequest : Type := {
  ce_collection : CollectionId;
  ce_id : EntityId;
  ce_data : Value;
  ce_actor : option string;
  ce_audit_metadata : option (gmap string string);
  ce_attribution : option AuditAttribution
}.

Record UpdateEntityRequest : Type := {
  ue_collection : CollectionId;
  ue_id : EntityId;
  ue_data : Value;
  ue_expected_version : Z;
  ue_actor : option string;
  ue_audit_metadata : option (gmap string string);
  ue_attribution : option AuditAttribution
}.

Record PatchEntityRequest : Type := {
  pe_collection : CollectionId;
  pe_id : EntityId;
  pe_patch : Value;
  pe_expected_version : Z;
  pe_actor : option string;
  pe_audit_metadata : option (gmap string string);
  pe_attribution : option AuditAttribution
}.

Record DeleteEntityRequest : Type := {
  de_collection : CollectionId;
  de_id : EntityId;
  de_actor : option string;
  de_force : bool;
  de_audit_metadata : option (gmap string string);
  de_attribution : option AuditAttribution
}.

Record CreateLinkRequest : Type := {
  kl_source_collection : CollectionId;
  kl_source_id : EntityId;
  kl_target_collection : CollectionId;
  kl_target_id : EntityId;
  kl_link_type : string;
  kl_metadata : Value;
  kl_actor : option string;
  kl_attribution : option AuditAttribution
}.

Record DeleteLinkRequest : Type := {
  dl_source_collection : CollectionId;
  dl_source_id : EntityId;
  dl_target_collection : CollectionId;
  dl_target_id : EntityId;
  dl_link_type : string;
  dl_actor : option string;
  dl_attribution : option AuditAttribution
}.

Record TransitionLifecycleRequest : Type := {
  tl_collection_id : CollectionId;
  tl_entity_id : EntityId;
  tl_lifecycle_name : string;
  tl_target_state : string;
  tl_expected_version : Z;
  tl_actor : option string;
  tl_audit_metadata : option (gmap string string);
  tl_attribution : option AuditAttribution
}.

(** The responses to creates, updates and patches have the same fields. *)
Record EntityWriteResponse : Type := {
  wr_entity : Entity;
  wr_policy_snapshot : option PolicyRequestSnapshot;
  wr_gates : gmap string GateResult;
  wr_advisories : list RuleViolation;
  wr_audit_id : option Z
}.

Record DeleteEntityResponse : Type := {
  dr_collection : CollectionId;
  dr_id : EntityId;
  dr_policy_snapshot : option PolicyRequestSnapshot;
  dr_audit_id : option Z
}.

Record DeleteLinkResponse : Type := {
  kr_source_collection : string;
  kr_source_id : string;
  kr_target_collection : string;
  kr_target_id : string;
  kr_link_type : string
}.

Record TransitionLifecycleResponse : Type := {
  tr_entity : Entity;
  tr_audit_id : option Z
}.

(** [AuditEntry::new] with the request's metadata and attribution. *)
Definition request_entry (collection : CollectionId) (id : EntityId) (version : Z) (mutation : MutationType)
    (before after : option Value) (actor : option string) (metadata : option (gmap string string))
    (attribution : option AuditAttribution) : AuditEntry :=
  let e := audit_entry_new collection id version mutation before after actor in
  let e := match metadata with Some m => with_metadata m e | None => e end in
  match attribution with Some a => with_attribution a e | None => e end.

(** [present_entity]: the collection is reported as the client named it. *)
Definition present_entity (requested : CollectionId) (e : Entity) : Entity := with_collection requested e.
End Requests.
