(* ===== verification/IntentCanon.v ===== *)
(** * Canonical operations of mutation intents ([crates/axon-api/src/intent.rs])

    The canonical form of an operation, its text and its hash, and the operations
    of the handler's requests and of staged transactions.  The main result is that
    the text determines the operation, so that an intent is bound to what was
    previewed.

    The text of numbers ([value_text] of a number, the JSON crate's [Display]), the
    conversion of unsigned numbers and the debug names of mutations are
    third-party or derived code, taken as arguments. *)

From S2P Require Import Prelude Json Ids Types IndexKeys Intents AuditLog.
From S2P Require Import Schema Rules JsonOps Transactions Requests.
Local Open Scope axon_scope.

(** ** JSON text *)

Definition ch (n : nat) : ascii := Stdlib.Strings.Ascii.ascii_of_nat n.
Definition dquote : ascii := Eval compute in ch 34.
Definition backslash : ascii := Eval compute in ch 92.
Definition comma : ascii := Eval compute in ch 44.
Definition json_colon : ascii := Eval compute in ch 58.
Definition lbracket : ascii := Eval compute in ch 91.
Definition rbracket : ascii := Eval compute in ch 93.
Definition json_lbrace : ascii := Eval compute in ch 123.
Definition json_rbrace : ascii := Eval compute in ch 125.

Definition push_json_control_escape (c : ascii) : string :=
  let code := byte_of c in
  String backslash (String (ch 117) (String (ch 48) (String (ch 48)
    (String (hex_digit (code / 16)) (String (hex_digit (code mod 16)) ""))))).

(** The escape of one character; a byte above 127 belongs to a longer character,
    which is copied. *)
Definition escape (c : ascii) : string :=
  let code := byte_of c in
  let short n := String backslash (String (ch n) "") in
  if (code =? 34)%Z then short 34
  else if (code =? 92)%Z then short 92
  else if (code =? 8)%Z then short 98
  else if (code =? 9)%Z then short 116
  else if (code =? 10)%Z then short 110
  else if (code =? 12)%Z then short 102
  else if (code =? 13)%Z then short 114
  else if (code <=? 31)%Z then push_json_control_escape c
  else String c "".

Fixpoint escape_all (s : string) : string :=
  match s with
  | EmptyString => ""
  | String c s' => escape c +:+ escape_all s'
  end.

Definition push_json_string (s : string) : string :=
  String dquote (escape_all s +:+ String dquote "").

Section Canonical.
Context `{RuleEnv}.

(** The members of an array or object, separated by commas. *)
Fixpoint comma_separated (parts : list string) : string :=
  match parts with
  | [] => ""
  | [p] => p
  | p :: rest => p +:+ String comma (comma_separated rest)
  end.

Definition sort_fields (fields : list (string * Value)) : list (string * Value) :=
  sort_by (fun a b => String.compare (fst a) (fst b)) fields.

Fixpoint canonicalize_json_value (value : Value) : Value :=
  match value with
  | Array items => Array (map canonicalize_json_value items)
  | Object fields =>
      Object (sort_fields (map (fun f => (fst f, canonicalize_json_value (snd f))) fields))
  | primitive => primitive
  end.

(** [canonical_json_string] and [push_canonical_json]; sorting the members by key
    commutes with printing them. *)
Fixpoint canonical_json_string (value : Value) : string :=
  match value with
  | Null => "null"
  | Bool true => "true"
  | Bool false => "false"
  | Number n => value_text (Number n)
  | JString s => push_json_string s
  | Array items =>
      String lbracket (comma_separated (map canonical_json_string items) +:+ String rbracket "")
  | Object fields =>
      String json_lbrace
        (comma_separated (map (fun f => push_json_string (fst f) +:+ String json_colon (snd f))
           (sort_by (fun a b => String.compare (fst a) (fst b))
              (map (fun f => (fst f, canonical_json_string (snd f))) fields)))
         +:+ String json_rbrace "")
  end.

Definition operation_kind_wire_name (kind : MutationOperationKind) : string :=
  match kind with
  | CreateEntity => "create_entity" | UpdateEntity => "update_entity" | PatchEntity => "patch_entity"
  | DeleteEntity => "delete_entity" | CreateLink => "create_link" | DeleteLink => "delete_link"
  | TransactionOp => "transaction" | Transition => "transition" | Rollback => "rollback"
  | Revert => "revert"
  end.

(** The text that is hashed. *)
Definition hash_input (kind : MutationOperationKind) (canonical : Value) : string :=
  canonical_json_string (Object [("operation", canonical);
                                 ("operation_kind", JString (operation_kind_wire_name kind))]).

Definition canonicalize_intent_operation `{TokenCodec} (kind : MutationOperationKind) (operation : Value)
    : CanonicalOperationMetadata :=
  let canonical := canonicalize_json_value operation in
  {| operation_kind := kind;
     operation_hash := "sha256:" +:+ hex_bytes (sha256 (as_bytes (hash_input kind canonical)));
     canonical_operation := Some canonical |}.

(** ** The operations of requests *)

Class OperationText : Type := {
  number_of_u64 : Z -> number;
  mutation_debug : MutationType -> string
}.
Context `{OperationText} `{TokenCodec}.

Definition u64 (z : Z) : Value := Number (number_of_u64 z).

Definition canonical_create_entity_operation (request : CreateEntityRequest) : CanonicalOperationMetadata :=
  canonicalize_intent_operation CreateEntity (Object [
    ("collection", JString (ce_collection request)); ("id", JString (ce_id request));
    ("data", ce_data request)]).

Definition canonical_update_entity_operation (request : UpdateEntityRequest) : CanonicalOperationMetadata :=
  canonicalize_intent_operation UpdateEntity (Object [
    ("collection", JString (ue_collection request)); ("id", JString (ue_id request));
    ("data", ue_data request); ("expected_version", u64 (ue_expected_version request))]).

Definition canonical_patch_entity_operation (request : PatchEntityRequest) : CanonicalOperationMetadata :=
  canonicalize_intent_operation PatchEntity (Object [
    ("collection", JString (pe_collection request)); ("id", JString (pe_id request));
    ("patch", pe_patch request); ("expected_version", u64 (pe_expected_version request))]).

Definition canonical_delete_entity_operation (request : DeleteEntityRequest) : CanonicalOperationMetadata :=
  canonicalize_intent_operation DeleteEntity (Object [
    ("collection", JString (de_collection request)); ("id", JString (de_id request));
    ("force", Bool (de_force request))]).

Definition canonical_create_link_operation (request : CreateLinkRequest) : CanonicalOperationMetadata :=
  canonicalize_intent_operation CreateLink (Object [
    ("source_collection", JString (kl_source_collection request)); ("source_id", JString (kl_source_id request));
    ("target_collection", JString (kl_target_collection request)); ("target_id", JString (kl_target_id request));
    ("link_type", JString (kl_link_type request)); ("metadata", kl_metadata request)]).

Definition canonical_delete_link_operation (request : DeleteLinkRequest) : CanonicalOperationMetadata :=
  canonicalize_intent_operation DeleteLink (Object [
    ("source_collection", JString (dl_source_collection request)); ("source_id", JString (dl_source_id request));
    ("target_collection", JString (dl_target_collection request)); ("target_id", JString (dl_target_id request));
    ("link_type", JString (dl_link_type request))]).

Definition canonical_transition_lifecycle_operation (request : TransitionLifecycleRequest)
    : CanonicalOperationMetadata :=
  canonicalize_intent_operation Transition (Object [
    ("collection", JString (tl_collection_id request)); ("id", JString (tl_entity_id request));
    ("lifecycle_name", JString (tl_lifecycle_name request));
    ("target_state", JString (tl_target_state request));
    ("expected_version", u64 (tl_expected_version request))]).

(** ** Staged transactions *)

Definition canonical_link_operation_value (op : string) (link : Link) (include_metadata : bool) : Value :=
  let operation := [("op", JString op); ("source_collection", JString (l_source_collection link));
    ("source_id", JString (l_source_id link)); ("target_collection", JString (l_target_collection link));
    ("target_id", JString (l_target_id link)); ("link_type", JString (l_link_type link))] in
  Object (if include_metadata then operation ++ [("metadata", l_metadata link)] else operation).

Definition canonical_staged_operation_value (operation : StagedOp) : Value :=
  match operation with
  | SEntity op =>
      let collection := ("collection", JString (e_collection (wo_entity op))) in
      let id := ("id", JString (e_id (wo_entity op))) in
      let data := ("data", e_data (wo_entity op)) in
      let version := ("expected_version", u64 (wo_expected_version op)) in
      match wo_mutation op with
      | EntityCreate => Object [("op", JString "create_entity"); collection; id; data]
      | EntityUpdate => Object [("op", JString "update_entity"); collection; id; data; version]
      | EntityDelete => Object [("op", JString "delete_entity"); collection; id; version]
      | other => Object [("op", JString "unsupported_entity_mutation");
                         ("mutation", JString (mutation_debug other)); collection; id]
      end
  | SLinkCreate link => canonical_link_operation_value "create_link" link true
  | SLinkDelete link => canonical_link_operation_value "delete_link" link false
  end.

Definition canonical_staged_transaction_operation (transaction : Transaction) : CanonicalOperationMetadata :=
  canonicalize_intent_operation TransactionOp
    (Object [("operations", Array (map canonical_staged_operation_value (tx_ops transaction)))]).
End Canonical.

(** ** The text determines the value *)

(** *** Strings *)

(** Reads one character back. *)
Definition unescape (s : string) : option (ascii * string) :=
  match s with
  | String b (String k rest) =>
      if decide (b = backslash)
      then
        if decide (k = ch 117)
        then match rest with
             | String _ (String _ (String h (String l rest))) =>
                 let digit d := let n := byte_of d in if (n <=? 57)%Z then (n - 48)%Z else (n - 87)%Z in
                 Some (Stdlib.Strings.Ascii.ascii_of_N (Z.to_N (digit h * 16 + digit l)), rest)
             | _ => None
             end
        else
          let code := byte_of k in
          Some (if (code =? 98)%Z then ch 8 else if (code =? 116)%Z then ch 9
                else if (code =? 110)%Z then ch 10 else if (code =? 102)%Z then ch 12
                else if (code =? 114)%Z then ch 13 else k, rest)
      else Some (b, String k rest)
  | _ => None
  end.

Lemma unescape_escape c k x : unescape (escape c +:+ String k x) = Some (c, String k x).
Proof. destruct c as [[] [] [] [] [] [] [] []]; reflexivity. Qed.

Lemma escape_head c x : exists k y, escape c +:+ x = String k y /\ k <> dquote.
Proof.
  assert (Hh : match escape c with String k _ => negb (bool_decide (k = dquote)) | EmptyString => false end = true)
    by (destruct c as [[] [] [] [] [] [] [] []]; reflexivity).
  destruct (escape c) as [|k y]; [done|]. exists k, (y +:+ x). split; [done|].
  by apply negb_true_iff, bool_decide_eq_false in Hh.
Qed.

Lemma escape_all_inj s : forall t r1 r2,
  escape_all s +:+ String dquote r1 = escape_all t +:+ String dquote r2 -> s = t /\ r1 = r2.
Proof.
  induction s as [|c s IH]; intros [|d t] r1 r2; cbn [escape_all]; rewrite ?string_app_assoc, ?string_app_nil_l.
  - by intros [= ->].
  - intros E. destruct (escape_head d (escape_all t +:+ String dquote r2)) as (k & y & Hk & Hne).
    rewrite Hk in E. injection E as <- _. done.
  - intros E. destruct (escape_head c (escape_all s +:+ String dquote r1)) as (k & y & Hk & Hne).
    rewrite Hk in E. injection E as -> _. done.
  - intros E. assert (Hcons : forall u r, exists k x, escape_all u +:+ String dquote r = String k x).
    { intros [|a u] r; [by eexists _, _|]. cbn [escape_all]. rewrite string_app_assoc.
      destruct (escape_head a (escape_all u +:+ String dquote r)) as (k & y & -> & _). by eexists _, _. }
    destruct (Hcons s r1) as (k1 & x1 & H1), (Hcons t r2) as (k2 & x2 & H2).
    pose proof (f_equal unescape E) as Eu. rewrite H1, H2, !unescape_escape in Eu.
    injection Eu as -> E1 E2. destruct (IH t r1 r2) as [-> ->]; [by rewrite H1, H2, E1, E2|]. done.
Qed.

Lemma push_json_string_inj s t r1 r2 :
  push_json_string s +:+ r1 = push_json_string t +:+ r2 -> s = t /\ r1 = r2.
Proof.
  unfold push_json_string. rewrite !string_app_cons, !string_app_assoc, !string_app_cons, !string_app_nil_l.
  intros [= E]. by apply escape_all_inj.
Qed.

(** *** Values *)

Definition numeric (c : ascii) : bool :=
  let n := byte_of c in
  (48 <=? n)%Z && (n <=? 57)%Z || existsb (Z.eqb n) [43; 45; 46; 69; 101]%Z.

Fixpoint all_numeric (s : string) : bool :=
  match s with EmptyString => true | String c s' => numeric c && all_numeric s' end.

Section Text.
Context `{RuleEnv}.

(** Documented behaviour of [serde_json::Number]: numbers print as JSON numerals,
    and different numbers print differently. *)
Class NumberText : Prop := {
  number_text_inj : forall a b, value_text (Number a) = value_text (Number b) -> a = b;
  number_text_numeric : forall n, value_text (Number n) <> "" /\ all_numeric (value_text (Number n)) = true
}.
Context {NT : NumberText}.

Lemma value_ind_full (P : Value -> Prop) :
  P Null -> (forall b, P (Bool b)) -> (forall n, P (Number n)) -> (forall s, P (JString s)) ->
  (forall l, Forall P l -> P (Array l)) -> (forall fs, Forall (fun f => P (snd f)) fs -> P (Object fs)) ->
  forall v, P v.
Proof.
  intros H1 H2 H3 H4 H5 H6. fix IH 1.
  intros [|b|n|s|l|fs]; [exact H1 | apply H2 | apply H3 | apply H4 | apply H5 | apply H6].
  - induction l as [|v l IHl]; constructor; [apply IH | exact IHl].
  - induction fs as [|[k v] fs IHl]; constructor; [apply IH | exact IHl].
Qed.

(** Printing without sorting. *)
Fixpoint print (value : Value) : string :=
  match value with
  | Null => "null"
  | Bool true => "true"
  | Bool false => "false"
  | Number n => value_text (Number n)
  | JString s => push_json_string s
  | Array items => String lbracket (comma_separated (map print items) +:+ String rbracket "")
  | Object fields =>
      String json_lbrace
        (comma_separated (map (fun f => push_json_string (fst f) +:+ String json_colon (print (snd f))) fields)
         +:+ String json_rbrace "")
  end.

(** What a first character announces. *)
Inductive Start : Type := StNull | StTrue | StFalse | StNumber | StString | StArray | StObject.

Definition start_of (c : ascii) : option Start :=
  if decide (c = ch 110) then Some StNull
  else if decide (c = ch 116) then Some StTrue
  else if decide (c = ch 102) then Some StFalse
  else if decide (c = dquote) then Some StString
  else if decide (c = lbracket) then Some StArray
  else if decide (c = json_lbrace) then Some StObject
  else if numeric c then Some StNumber else None.

Definition start (v : Value) : Start :=
  match v with
  | Null => StNull | Bool true => StTrue | Bool false => StFalse | Number _ => StNumber
  | JString _ => StString | Array _ => StArray | Object _ => StObject
  end.

Lemma numeric_start c : numeric c = true -> start_of c = Some StNumber.
Proof. destruct c as [[] [] [] [] [] [] [] []]; intros E; first [discriminate E | reflexivity]. Qed.

Lemma print_start v : exists c s, print v = String c s /\ start_of c = Some (start v).
Proof.
  destruct v as [|[]|n|s|l|fs]; try (by eexists _, _).
  destruct (number_text_numeric n) as [Hne Hall]. cbn [print].
  destruct (value_text (Number n)) as [|c s]; [done|]. exists c, s. split; [done|].
  cbn [all_numeric] in Hall. apply andb_true_iff in Hall as [Hc _]. by apply numeric_start.
Qed.

(** What follows a value: the end, a comma or a closing bracket. *)
Definition delimited (r : string) : Prop :=
  match r with EmptyString => True | String c _ => start_of c = None end.

Lemma delimited_not_numeric c r : delimited (String c r) -> numeric c = false.
Proof. cbn. intros Hd. destruct (numeric c) eqn:E; [|done]. by rewrite (numeric_start c E) in Hd. Qed.

Lemma numeral_inj a : forall b r1 r2,
  all_numeric a = true -> all_numeric b = true -> delimited r1 -> delimited r2 ->
  a +:+ r1 = b +:+ r2 -> a = b /\ r1 = r2.
Proof.
  induction a as [|c a IH]; intros [|d b] r1 r2 Ha Hb H1 H2; rewrite ?string_app_nil_l, ?string_app_cons; intros E;
    cbn [all_numeric] in *.
  - done.
  - subst r1. apply delimited_not_numeric in H1. by rewrite H1 in Hb.
  - subst r2. apply delimited_not_numeric in H2. by rewrite H2 in Ha.
  - injection E as -> E. apply andb_true_iff in Ha as [_ Ha], Hb as [_ Hb].
    destruct (IH b r1 r2 Ha Hb H1 H2 E) as [-> ->]. done.
Qed.

(** Elements that can be read back from a text. *)
Definition readable {A} (pe : A -> string) (a : A) : Prop :=
  forall b r1 r2, pe a +:+ r1 = pe b +:+ r2 -> delimited r1 -> delimited r2 -> a = b /\ r1 = r2.

Lemma join_inj {A} (pe : A -> string) (close : ascii) (l1 l2 : list A) r1 r2 :
  (forall a, exists c s, pe a = String c s /\ start_of c <> None) -> start_of close = None -> close <> comma ->
  Forall (readable pe) l1 ->
  comma_separated (map pe l1) +:+ String close r1 = comma_separated (map pe l2) +:+ String close r2 ->
  l1 = l2 /\ r1 = r2.
Proof.
  intros Hpe Hclose Hne Hr. revert l2.
  assert (Hempty : forall b l r x, comma_separated (map pe (b :: l)) +:+ r <> String close x).
  { intros b l r x E. destruct (Hpe b) as (c & s & Hb & Hc). cbn [map comma_separated] in E. rewrite Hb in E.
    destruct (map pe l); rewrite !string_app_cons in E; injection E as -> _; done. }
  induction Hr as [|a l1 Ha Hl IH]; intros [|b l2].
  - cbn. by intros [= ->].
  - intros E. symmetry in E. exfalso. exact (Hempty b l2 _ _ E).
  - intros E. exfalso. exact (Hempty a l1 _ _ E).
  - cbn [map comma_separated]. destruct l1 as [|a' l1], l2 as [|b' l2]; cbn [map];
      rewrite ?string_app_assoc, ?string_app_cons; intros E.
    + destruct (Ha b _ _ E) as [-> [= ->]]; done.
    + destruct (Ha b _ _ E) as [_ [= Ec _]]; done.
    + destruct (Ha b _ _ E) as [_ [= Ec _]]; done.
    + destruct (Ha b _ _ E) as [-> [= E']]; [done..|]. destruct (IH (b' :: l2) E') as [-> ->]. done.
Qed.

Lemma field_head f : exists c s, push_json_string (fst f) +:+ String json_colon (print (snd f)) = String c s /\ start_of c <> None.
Proof. eexists _, _. split; [reflexivity|done]. Qed.

Lemma print_readable v : readable print v.
Proof.
  induction v as [|b|n|s|l Hl|fs Hfs] using value_ind_full; intros w r1 r2 E H1 H2;
    (destruct (print_start w) as (c & y & Hw & Hc));
    match type of E with print ?v +:+ _ = _ => destruct (print_start v) as (c' & y' & Hv & Hc') end;
    assert (Hs : Some (start w) = Some (start _)) by
      (rewrite Hw in E; rewrite Hv in E; rewrite !string_app_cons in E; injection E as -> _; rewrite <-Hc; exact Hc');
    clear Hc Hc' Hw Hv.
  - destruct w as [|[]|?|?|?|?]; try discriminate Hs. split; [done|]. by injection E.
  - destruct b, w as [|[]|?|?|?|?]; try discriminate Hs; (split; [done|]; by injection E).
  - destruct w as [|[]|m|?|?|?]; try discriminate Hs.
    destruct (numeral_inj _ _ _ _ (proj2 (number_text_numeric n)) (proj2 (number_text_numeric m)) H1 H2 E) as [Ht ->].
    by rewrite (number_text_inj _ _ Ht).
  - destruct w as [|[]|?|t|?|?]; try discriminate Hs. by apply push_json_string_inj in E as [-> ->].
  - destruct w as [|[]|?|?|l2|?]; try discriminate Hs. cbn [print] in E.
    rewrite !string_app_cons, !string_app_assoc, !string_app_cons, !string_app_nil_l in E. injection E as E.
    apply (join_inj print rbracket) in E as [-> ->]; try done.
    intros a. destruct (print_start a) as (c0 & s0 & -> & Hc0). exists c0, s0. by rewrite Hc0.
  - destruct w as [|[]|?|?|?|fs2]; try discriminate Hs. cbn [print] in E.
    rewrite !string_app_cons, !string_app_assoc, !string_app_cons, !string_app_nil_l in E. injection E as E.
    apply (join_inj (fun f => push_json_string (fst f) +:+ String json_colon (print (snd f))) json_rbrace) in E
      as [-> ->]; try done; [apply field_head|].
    eapply List.Forall_impl; [|exact Hfs]. intros [k v] Hv [k' v'] q1 q2. cbn [fst snd] in *. rewrite !string_app_assoc.
    intros [-> E']%push_json_string_inj Hq1 Hq2. rewrite !string_app_cons in E'. injection E' as E'.
    destruct (Hv v' q1 q2 E' Hq1 Hq2) as [-> ->]. done.
Qed.

(** *** Canonical values *)

Fixpoint sorted_keys (keys : list string) : bool :=
  match keys with
  | a :: (b :: _) as rest => match String.compare a b with Lt => sorted_keys rest | _ => false end
  | _ => true
  end.

(** The keys of every object increase strictly. *)
Fixpoint canonical (v : Value) : bool :=
  match v with
  | Array items => forallb canonical items
  | Object fields => sorted_keys (map fst fields) && forallb (fun f => canonical (snd f)) fields
  | _ => true
  end.

(** No object has a key twice. *)
Fixpoint unique_keys (v : Value) : bool :=
  match v with
  | Array items => forallb unique_keys items
  | Object fields => bool_decide (NoDup (map fst fields)) && forallb (fun f => unique_keys (snd f)) fields
  | _ => true
  end.

Lemma sort_sorted {A} (l : list (string * A)) :
  sorted_keys (map fst l) = true -> sort_by (fun a b => String.compare (fst a) (fst b)) l = l.
Proof.
  induction l as [|[a x] [|[b y] l] IH]; [done..|]. cbn [map fst sorted_keys]. intros Hs.
  destruct (String.compare a b) eqn:E; try discriminate Hs.
  change (insert_by (fun a b : string * A => String.compare (fst a) (fst b)) (a, x)
    (sort_by (fun a b : string * A => String.compare (fst a) (fst b)) ((b, y) :: l)) = (a, x) :: (b, y) :: l).
  rewrite IH by exact Hs. cbn [insert_by fst]. by rewrite E.
Qed.

Lemma canonical_print v : canonical v = true -> canonical_json_string v = print v.
Proof.
  induction v as [|b|n|s|l Hl|fs Hfs] using value_ind_full; try done; cbn [canonical canonical_json_string print].
  - intros Hc. do 3 f_equal. apply map_ext_in. intros v Hv. rewrite List.Forall_forall in Hl.
    rewrite forallb_forall in Hc. apply Hl; [done|by apply Hc].
  - intros [Hk Hc]%andb_true_iff. do 3 f_equal. rewrite sort_sorted.
    + rewrite map_map. apply map_ext_in. intros [k v] Hv. cbn [fst snd]. do 2 f_equal.
      rewrite List.Forall_forall in Hfs. rewrite forallb_forall in Hc. apply (Hfs _ Hv), (Hc _ Hv).
    + by rewrite map_map.
Qed.

(** The canonical text determines a canonical value. *)
Lemma canonical_text_inj v w :
  canonical v = true -> canonical w = true -> canonical_json_string v = canonical_json_string w -> v = w.
Proof.
  intros Hv Hw E. rewrite !canonical_print in E by done.
  apply (print_readable v w "" ""); [by rewrite !string_app_nil_r|done|done].
Qed.

Lemma strongly_sorted_keys (keys : list string) : StronglySorted id_lt keys -> sorted_keys keys = true.
Proof.
  induction 1 as [|a l Hl IH Ha]; [done|]. destruct l as [|b l]; [done|]. cbn [sorted_keys].
  apply Forall_inv in Ha. unfold id_lt in Ha. by rewrite Ha.
Qed.

Lemma key_unique {A} (l : list (string * A)) k x y : NoDup (map fst l) -> In (k, x) l -> In (k, y) l -> x = y.
Proof.
  induction l as [|[k' z] l IH]; [done|]. cbn [map fst]. intros [Hk Hnd]%list.NoDup_cons.
  assert (Hin : forall u, In (k', u) l -> False).
  { intros u Hu. apply Hk, list_elem_of_In. by apply (in_map fst) in Hu. }
  intros [E1|Hx] [E2|Hy]; simplify_eq; try done; [exfalso; by eapply Hin..|by apply IH].
Qed.

Lemma sort_fields_sorted (fields : list (string * Value)) :
  NoDup (map fst fields) -> sorted_keys (map fst (sort_fields fields)) = true.
Proof.
  intros Hnd. apply strongly_sorted_keys.
  assert (Hs : StronglySorted (fun a b : string * Value => id_lt (fst a) (fst b)) (sort_fields fields)).
  { apply sort_by_sorted.
    - intros a b c. apply id_lt_trans.
    - done.
    - intros a b. apply id_gt.
    - intros [k x] [l y] Ha Hb E%String.compare_eq_iff. cbn [fst] in E. subst l. f_equal.
      by eapply key_unique.
    - apply base.NoDup_ListNoDup. by eapply NoDup_fmap_1. }
  induction Hs as [|a l Hl IH Ha]; cbn [map]; constructor; [done|].
  rewrite List.Forall_forall in *. intros k (b & <- & Hb)%in_map_iff. by apply Ha.
Qed.

Lemma canonicalize_canonical v : unique_keys v = true -> canonical (canonicalize_json_value v) = true.
Proof.
  induction v as [|b|n|s|l Hl|fs Hfs] using value_ind_full; try done;
    cbn [unique_keys canonicalize_json_value canonical].
  - rewrite !forallb_forall, List.Forall_forall in *. intros Hu x (v & <- & Hv)%in_map_iff. apply Hl; auto.
  - intros [Hk%bool_decide_eq_true Hu]%andb_true_iff. apply andb_true_iff. split.
    + apply sort_fields_sorted. by rewrite map_map.
    + rewrite !forallb_forall, List.Forall_forall in *. intros f Hf. unfold sort_fields in Hf.
      apply sort_by_In, in_map_iff in Hf as (g & <- & Hg). apply Hfs; auto.
Qed.

Lemma kind_name_inj a b : operation_kind_wire_name a = operation_kind_wire_name b -> a = b.
Proof. by destruct a, b. Qed.

Lemma hash_input_inj k1 k2 v w :
  canonical v = true -> canonical w = true -> hash_input k1 v = hash_input k2 w -> k1 = k2 /\ v = w.
Proof.
  intros Hv Hw E. apply canonical_text_inj in E; [|cbn [canonical forallb snd map fst]; by rewrite ?Hv, ?Hw..].
  injection E as -> E. by apply kind_name_inj in E as ->.
Qed.

(** C34. The hash binds an intent to its operation.  When two operations (JSON
    without repeated keys, as the JSON crate builds it) have the same hash, they are of the
    same kind and equal up to the order of the keys of objects, unless the two texts
    that are hashed, the canonical texts of these very operations, are different
    texts with the same SHA-256: the text that is hashed determines the operation. *)
Theorem operation_hash_binds `{TokenCodecLaws} k1 k2 op1 op2
    (Hop1 : unique_keys op1 = true) (Hop2 : unique_keys op2 = true)
    (Heq : operation_hash (canonicalize_intent_operation k1 op1) =
           operation_hash (canonicalize_intent_operation k2 op2)) :
  (k1 = k2 /\ canonicalize_json_value op1 = canonicalize_json_value op2) \/
  (hash_input k1 (canonicalize_json_value op1) <> hash_input k2 (canonicalize_json_value op2) /\
   sha256 (as_bytes (hash_input k1 (canonicalize_json_value op1))) =
   sha256 (as_bytes (hash_input k2 (canonicalize_json_value op2)))).
Proof.
  apply string_app_inj_l in Heq.
  assert (Hsha : sha256 (as_bytes (hash_input k1 (canonicalize_json_value op1))) =
                 sha256 (as_bytes (hash_input k2 (canonicalize_json_value op2)))).
  { assert (Hb : hex_bytes (sha256 (as_bytes (hash_input k1 (canonicalize_json_value op1)))) +:+ "|" +:+ "" =
      hex_bytes (sha256 (as_bytes (hash_input k2 (canonicalize_json_value op2)))) +:+ "|" +:+ "") by by f_equal.
    apply hex_bytes_delimited in Hb as [-> _]; [done|apply sha256_bytes..]. }
  destruct (decide (hash_input k1 (canonicalize_json_value op1) = hash_input k2 (canonicalize_json_value op2))) as [E|E].
  - left. apply hash_input_inj in E; [done|by apply canonicalize_canonical..].
  - by right.
Qed.
End Text.
