(* ===== verification/IntentService.v ===== *)
(** * The mutation intent service ([crates/axon-api/src/intent.rs])

    Preview, approval, rejection, expiry and commit of mutation intents over the
    storage: every transition is an update of the stored state under a check of
    the expected one, and the audited operations run in a storage transaction.

    The conversion of intents to JSON is derived code ([IntentSerde]); the text of
    storage errors is the derived [Display] of [AxonError] ([error_text]).
    [clock n] is the time of the n-th audit append. *)

From S2P Require Import Prelude Json Ids Types IndexKeys Intents AuditLog.
From S2P Require Import Schema Rules JsonOps Storage Catalog Interface Transactions Requests IntentCanon.
From stdpp Require Import pretty.
Local Open Scope axon_scope.

Definition INTENT_AUDIT_COLLECTION : string := "__mutation_intents".

Record MutationIntentReviewMetadata : Type := {
  rm_actor : option string;
  rm_reason : option string;
  rm_tenant_role : option string;
  rm_credential_id : option string;
  rm_origin : option MutationIntentAuditOrigin
}.

Definition has_reason (m : MutationIntentReviewMetadata) : bool :=
  match rm_reason m with Some reason => negb (trim_is_empty reason) | None => false end.

(** ** Errors *)

Inductive MutationIntentLifecycleOperation : Type :=
| LoCreatePreview | LoApprove | LoReject | LoExpire | LoCommit.

Definition lifecycle_operation_as_str (o : MutationIntentLifecycleOperation) : string :=
  match o with
  | LoCreatePreview => "create_preview" | LoApprove => "approve" | LoReject => "reject"
  | LoExpire => "expire" | LoCommit => "commit"
  end.

Inductive MutationIntentLifecycleError : Type :=
| LeStorage (message : string)
| LeNotFound (intent_id : string)
| LeInvalidPreviewState (intent_id : string) (decision : MutationIntentDecision) (actual expected : ApprovalState)
| LeInvalidTransition (intent_id : string) (operation : MutationIntentLifecycleOperation)
    (from to : ApprovalState)
| LeInvalidDecisionTransition (intent_id : string) (operation : MutationIntentLifecycleOperation)
    (decision : MutationIntentDecision)
| LeReasonRequired (intent_id : string) (operation : MutationIntentLifecycleOperation)
| LeExpired (intent_id : string) (operation : MutationIntentLifecycleOperation) (expires_at now_ns : Z)
| LeNotExpired (intent_id : string) (expires_at now_ns : Z)
| LeIntentMismatch (intent_id expected_hash actual_hash : string).

Definition lifecycle_error_display (e : MutationIntentLifecycleError) : string :=
  let intent id := "mutation intent '" +:+ id +:+ "'" in
  match e with
  | LeStorage message => "mutation intent storage error: " +:+ message
  | LeNotFound id => intent id +:+ " not found"
  | LeInvalidPreviewState id decision actual expected =>
      intent id +:+ " preview decision '" +:+ decision_as_str decision +:+ "' requires initial state '" +:+
      approval_state_as_str expected +:+ "', got '" +:+ approval_state_as_str actual +:+ "'"
  | LeInvalidTransition id operation from to =>
      intent id +:+ " cannot " +:+ lifecycle_operation_as_str operation +:+ " from '" +:+
      approval_state_as_str from +:+ "' to '" +:+ approval_state_as_str to +:+ "'"
  | LeInvalidDecisionTransition id operation decision =>
      intent id +:+ " with decision '" +:+ decision_as_str decision +:+ "' cannot " +:+
      lifecycle_operation_as_str operation
  | LeReasonRequired id operation =>
      intent id +:+ " requires a reason to " +:+ lifecycle_operation_as_str operation
  | LeExpired id operation expires_at now_ns =>
      intent id +:+ " expired at " +:+ pretty expires_at +:+ "; cannot " +:+
      lifecycle_operation_as_str operation +:+ " at " +:+ pretty now_ns
  | LeNotExpired id expires_at now_ns =>
      intent id +:+ " expires at " +:+ pretty expires_at +:+ ", not expired at " +:+ pretty now_ns
  | LeIntentMismatch id expected_hash actual_hash =>
      intent id +:+ " operation mismatch: expected " +:+ expected_hash +:+ ", got " +:+ actual_hash
  end.

Record MutationIntentStaleDimension : Type := {
  sd_dimension : string;
  sd_expected : option string;
  sd_actual : option string;
  sd_path : option string
}.

Inductive MutationIntentCommitValidationError : Type :=
| CvToken (e : MutationIntentTokenLookupError)
| CvStorage (message : string)
| CvIntentMismatch (intent_id expected_hash actual_hash : string)
| CvIntentStale (intent_id : string) (dimensions : list MutationIntentStaleDimension)
| CvAuthorizationFailed (intent_id reason : string)
| CvCommitFailed (intent_id source : string).

Definition token_lookup_error_code (e : MutationIntentTokenLookupError) : string :=
  match e with
  | MalformedToken | InvalidSignature | TokenNotFound | TenantDatabaseMismatch => "intent_token_invalid"
  | TokenExpired => "intent_expired"
  | TokenRejected => "intent_rejected"
  | AlreadyCommitted => "intent_already_committed"
  | ApprovalRequired => "intent_approval_required"
  | Unauthorized => "intent_authorization_failed"
  | GrantVersionStale | SchemaVersionStale | PolicyVersionStale | PreImageStale => "intent_stale"
  | OperationMismatch => "intent_mismatch"
  end.

Definition commit_error_code (e : MutationIntentCommitValidationError) : string :=
  match e with
  | CvToken e => token_lookup_error_code e
  | CvStorage _ => "intent_storage_error"
  | CvIntentMismatch _ _ _ => "intent_mismatch"
  | CvIntentStale _ _ => "intent_stale"
  | CvAuthorizationFailed _ _ => "intent_authorization_failed"
  | CvCommitFailed _ _ => "intent_commit_failed"
  end.

(** [Result::map_err] on an operation. *)
Definition map_err {S E E' A} (f : E -> E') (m : M S E A) : M S E' A := fun s =>
  match m s with
  | (s', Ok a) => (s', Ok a)
  | (s', Err e) => (s', Err (f e))
  | (s', Panic) => (s', Panic)
  end.

(** ** Storage and serialization *)

Section Service.
Context `{RuleEnv}.

(** The intents of the [StorageAdapter] trait. *)
Class IntentStorage (S : Type) : Type := {
  is_create : MutationIntent -> M S AxonError unit;
  is_get : S -> string -> string -> string -> result (option MutationIntent) AxonError;
  is_list_expired : S -> string -> string -> Z -> option nat -> result (list MutationIntent) AxonError;
  is_list_pending : S -> string -> string -> Z -> option nat -> result (list MutationIntent) AxonError;
  is_list_by_state : S -> string -> string -> ApprovalState -> option nat ->
    result (list MutationIntent) AxonError;
  is_update_state : string -> string -> string -> ApprovalState -> ApprovalState ->
    M S AxonError MutationIntent
}.

Class IntentSerde : Type := {
  intent_value : MutationIntent -> Value;
  summary_value : MutationReviewSummary -> Value;
  subject_value : MutationIntentSubjectBinding -> Value;
  dimensions_value : list MutationIntentStaleDimension -> Value;
  error_text : AxonError -> string
}.

Context {S : Type} `{!StorageAdapter S} `{!IntentStorage S} `{!IntentSerde} `{!OperationText} `{!TokenCodec}.
Variable clock : nat -> Z.

Definition LOp (A : Type) : Type := M S MutationIntentLifecycleError A.

(** [From<AxonError>] *)
Definition storage {A} (m : M S AxonError A) : LOp A := map_err (fun e => LeStorage (error_text e)) m.

(** *** Checks *)

Definition preview_state_for_decision (d : MutationIntentDecision) : ApprovalState :=
  match d with Allow | Deny => AS_None | NeedsApproval => Pending end.

Definition commit_expected_state (intent : MutationIntent)
    : result ApprovalState MutationIntentLifecycleError :=
  match mi_decision intent with
  | Allow => Ok AS_None
  | NeedsApproval => Ok Approved
  | Deny => Err (LeInvalidDecisionTransition (intent_id intent) LoCommit Deny)
  end.

Definition load_intent (s : S) (scope : MutationIntentScopeBinding) (id : string)
    : result MutationIntent MutationIntentLifecycleError :=
  match is_get s (tenant_id scope) (database_id scope) id with
  | Ok (Some intent) => Ok intent
  | Ok None => Err (LeNotFound id)
  | Err e => Err (LeStorage (error_text e))
  | Panic => Panic
  end.

Definition update_state (scope : MutationIntentScopeBinding) (id : string) (expected new_state : ApprovalState)
    : LOp MutationIntent :=
  storage (is_update_state (tenant_id scope) (database_id scope) id expected new_state).

Definition expirable_state (st : ApprovalState) : bool :=
  match st with AS_None | Pending | Approved => true | _ => false end.

Definition reject_if_expired_or_expire (scope : MutationIntentScopeBinding) (intent : MutationIntent)
    (now_ns : Z) (operation : MutationIntentLifecycleOperation) : LOp unit :=
  let already_expired := bool_decide (mi_approval_state intent = Expired) in
  let due := (mi_expires_at intent <=? now_ns)%Z in
  do! (if negb already_expired && due && expirable_state (mi_approval_state intent)
       then do! update_state scope (intent_id intent) (mi_approval_state intent) Expired; ret tt
       else ret tt);
  if already_expired || due
  then fail (LeExpired (intent_id intent) operation (mi_expires_at intent) now_ns)
  else ret tt.

Definition require_decision (intent : MutationIntent) (expected : MutationIntentDecision)
    (operation : MutationIntentLifecycleOperation) : result unit MutationIntentLifecycleError :=
  if bool_decide (mi_decision intent = expected) then Ok tt
  else Err (LeInvalidDecisionTransition (intent_id intent) operation (mi_decision intent)).

Definition require_state (intent : MutationIntent) (expected new_state : ApprovalState)
    (operation : MutationIntentLifecycleOperation) : result unit MutationIntentLifecycleError :=
  if bool_decide (mi_approval_state intent = expected) then Ok tt
  else Err (LeInvalidTransition (intent_id intent) operation (mi_approval_state intent) new_state).

Definition require_operation_hash (intent : MutationIntent) (hash : option string)
    : result unit MutationIntentLifecycleError :=
  match hash with
  | None => Ok tt
  | Some h =>
      if bool_decide (operation_hash (mi_operation intent) = h) then Ok tt
      else Err (LeIntentMismatch (intent_id intent) (operation_hash (mi_operation intent)) h)
  end.

Definition require_reason (intent : MutationIntent) (metadata : MutationIntentReviewMetadata)
    (operation : MutationIntentLifecycleOperation) : result unit MutationIntentLifecycleError :=
  if match mi_approval_route intent with Some route => ar_reason_required route | None => false end
     && negb (has_reason metadata)
  then Err (LeReasonRequired (intent_id intent) operation)
  else Ok tt.

Definition require_storage_audit_log : LOp unit :=
  do owns <- gets sa_owns_audit_log;
  if owns : bool then ret tt else fail (LeStorage "storage adapter does not own an audit log").

(** [begin_tx], the body, then [commit_tx], or [abort_tx] on an error. *)
Definition in_tx {A} (body : LOp A) : LOp A :=
  do! storage sa_begin_tx;
  do a <- (fun s =>
    match body s with
    | (s', Err e) =>
        match sa_abort_tx s' with
        | (s'', Panic) => (s'', Panic)
        | (s'', _) => (s'', Err e)
        end
    | other => other
    end);
  do! storage sa_commit_tx;
  ret a.

(** *** Audit *)

Definition intent_audit_actor (intent : MutationIntent) : string :=
  let s := mi_subject intent in
  match sb_user_id s, sb_agent_id s, sb_delegated_by s with
  | Some u, _, _ => u
  | None, Some a, _ => a
  | None, None, Some d => d
  | None, None, None => "anonymous"
  end.

Definition intent_lifecycle_lineage_with_origin (intent : MutationIntent) (reason : option string)
    (origin : option MutationIntentAuditOrigin) : MutationIntentAuditMetadata := {|
  im_intent_id := intent_id intent; im_decision := mi_decision intent; im_approval_id := None;
  im_policy_version := mi_policy_version intent; im_schema_version := mi_schema_version intent;
  im_subject_snapshot := mi_subject intent; im_approver := None; im_reason := reason;
  im_origin := Some (default {| ao_surface := System; ao_tool_name := None; ao_request_id := None;
                                ao_operation_hash := Some (operation_hash (mi_operation intent)) |} origin);
  im_lineage_links := [] |}.

Definition intent_lifecycle_lineage (intent : MutationIntent) (reason : option string)
    : MutationIntentAuditMetadata := intent_lifecycle_lineage_with_origin intent reason None.

Definition intent_review_lineage (intent : MutationIntent) (metadata : MutationIntentReviewMetadata)
    : MutationIntentAuditMetadata :=
  let lineage := intent_lifecycle_lineage intent (rm_reason metadata) in {|
  im_intent_id := im_intent_id lineage; im_decision := im_decision lineage;
  im_approval_id := im_approval_id lineage; im_policy_version := im_policy_version lineage;
  im_schema_version := im_schema_version lineage; im_subject_snapshot := im_subject_snapshot lineage;
  im_approver := option_map (fun actor => {|
    am_user_id := Some actor; am_actor := Some actor; am_tenant_role := rm_tenant_role metadata;
    am_credential_id := rm_credential_id metadata |}) (rm_actor metadata);
  im_reason := im_reason lineage;
  im_origin := match rm_origin metadata with Some o => Some o | None => im_origin lineage end;
  im_lineage_links := im_lineage_links lineage |}.

Record IntentAuditEntryParts : Type := {
  ip_intent : MutationIntent;
  ip_mutation : MutationType;
  ip_actor : string;
  ip_lineage : MutationIntentAuditMetadata;
  ip_data_before : option Value;
  ip_data_after : Value;
  ip_metadata : gmap string string
}.

Definition intent_entry (parts : IntentAuditEntryParts) : AuditEntry :=
  with_intent_lineage (ip_lineage parts) (with_metadata (ip_metadata parts)
    (audit_entry_new INTENT_AUDIT_COLLECTION (intent_id (ip_intent parts)) 0 (ip_mutation parts)
       (ip_data_before parts) (Some (ip_data_after parts)) (Some (ip_actor parts)))).

Definition append_intent_lifecycle_audit_entry (n : nat) (parts : IntentAuditEntryParts) : LOp AuditEntry :=
  storage (sa_append_audit_entry (clock n) (intent_entry parts)).

Definition preview_audit_metadata (intent : MutationIntent) : gmap string string :=
  list_to_map [("decision", decision_as_str (mi_decision intent));
    ("schema_version", pretty (mi_schema_version intent));
    ("policy_version", pretty (mi_policy_version intent));
    ("operation_hash", operation_hash (mi_operation intent));
    ("expires_at", pretty (mi_expires_at intent))].

Definition append_intent_lifecycle_audit (intent : MutationIntent) (mutation : MutationType) (actor : string)
    (reason : option string) (origin : option MutationIntentAuditOrigin) : LOp AuditEntry :=
  append_intent_lifecycle_audit_entry 0 {|
    ip_intent := intent; ip_mutation := mutation; ip_actor := actor;
    ip_lineage := intent_lifecycle_lineage_with_origin intent reason origin; ip_data_before := None;
    ip_data_after := summary_value (mi_review_summary intent);
    ip_metadata := preview_audit_metadata intent |}.

Definition append_intent_transition_audit (n : nat) (before after : MutationIntent) (mutation : MutationType)
    (actor : string) (reason : option string) : LOp AuditEntry :=
  append_intent_lifecycle_audit_entry n {|
    ip_intent := after; ip_mutation := mutation; ip_actor := actor;
    ip_lineage := intent_lifecycle_lineage after reason; ip_data_before := Some (intent_value before);
    ip_data_after := intent_value after; ip_metadata := ∅ |}.

Definition append_intent_review_audit (before after : MutationIntent) (mutation : MutationType)
    (metadata : MutationIntentReviewMetadata) : LOp AuditEntry :=
  append_intent_lifecycle_audit_entry 0 {|
    ip_intent := after; ip_mutation := mutation; ip_actor := default "anonymous" (rm_actor metadata);
    ip_lineage := intent_review_lineage after metadata; ip_data_before := Some (intent_value before);
    ip_data_after := intent_value after;
    ip_metadata := match rm_reason metadata with Some r => {["reason" := r]} | None => ∅ end |}.

(** *** Preview and review *)

Variable token_signer : MutationIntentTokenSigner.

Record MutationIntentPreviewRecord : Type := {
  pv_intent : MutationIntent;
  pv_intent_token : option string
}.

Definition create_preview_record_with_origin (intent : MutationIntent)
    (origin : option MutationIntentAuditOrigin) : LOp MutationIntentPreviewRecord :=
  let expected := preview_state_for_decision (mi_decision intent) in
  if negb (bool_decide (mi_approval_state intent = expected))
  then fail (LeInvalidPreviewState (intent_id intent) (mi_decision intent) (mi_approval_state intent) expected)
  else
    do! require_storage_audit_log;
    do! in_tx (do! storage (is_create intent);
               do! append_intent_lifecycle_audit intent IntentPreview (intent_audit_actor intent) None origin;
               ret tt);
    ret {| pv_intent := intent;
           pv_intent_token := if can_have_executable_token (mi_decision intent)
                              then Some (issue token_signer intent) else None |}.

Definition create_preview_record (intent : MutationIntent) : LOp MutationIntentPreviewRecord :=
  create_preview_record_with_origin intent None.

(** The body of [approve] and [reject]. *)
Definition review (operation : MutationIntentLifecycleOperation) (new_state : ApprovalState)
    (scope : MutationIntentScopeBinding) (id : string) (metadata : MutationIntentReviewMetadata) (now_ns : Z)
    : LOp MutationIntent :=
  do intent <- reads (fun s => load_intent s scope id);
  do! reject_if_expired_or_expire scope intent now_ns operation;
  do! lift (require_decision intent NeedsApproval operation);
  do! lift (require_state intent Pending new_state operation);
  do! lift (require_reason intent metadata operation);
  update_state scope id Pending new_state.

Definition approve := review LoApprove Approved.
Definition reject := review LoReject Rejected.

Definition review_with_audit (body : LOp MutationIntent) (mutation : MutationType)
    (scope : MutationIntentScopeBinding) (id : string) (metadata : MutationIntentReviewMetadata)
    : LOp MutationIntent :=
  do before <- reads (fun s => load_intent s scope id);
  do! require_storage_audit_log;
  in_tx (do reviewed <- body;
         do! append_intent_review_audit before reviewed mutation metadata;
         ret reviewed).

Definition approve_with_audit (scope : MutationIntentScopeBinding) (id : string)
    (metadata : MutationIntentReviewMetadata) (now_ns : Z) : LOp MutationIntent :=
  review_with_audit (approve scope id metadata now_ns) IntentApprove scope id metadata.

Definition reject_with_audit (scope : MutationIntentScopeBinding) (id : string)
    (metadata : MutationIntentReviewMetadata) (now_ns : Z) : LOp MutationIntent :=
  review_with_audit (reject scope id metadata now_ns) IntentReject scope id metadata.

(** *** Expiry *)

Definition expire (scope : MutationIntentScopeBinding) (id : string) (now_ns : Z) : LOp MutationIntent :=
  do intent <- reads (fun s => load_intent s scope id);
  if (now_ns <? mi_expires_at intent)%Z
  then fail (LeNotExpired (intent_id intent) (mi_expires_at intent) now_ns)
  else
    match mi_approval_state intent with
    | AS_None | Pending | Approved => update_state scope id (mi_approval_state intent) Expired
    | Rejected | Expired | Committed =>
        fail (LeInvalidTransition (intent_id intent) LoExpire (mi_approval_state intent) Expired)
    end.

Definition list_due (scope : MutationIntentScopeBinding) (now_ns : Z) (limit : option nat)
    : LOp (list MutationIntent) :=
  storage (reads (fun s => is_list_expired s (tenant_id scope) (database_id scope) now_ns limit)).

Fixpoint expire_all (scope : MutationIntentScopeBinding) (now_ns : Z) (due : list MutationIntent)
    : LOp (list MutationIntent) :=
  match due with
  | [] => ret []
  | intent :: rest =>
      do expired <- expire scope (intent_id intent) now_ns;
      do others <- expire_all scope now_ns rest;
      ret (expired :: others)
  end.

Definition expire_due (scope : MutationIntentScopeBinding) (now_ns : Z) (limit : option nat)
    : LOp (list MutationIntent) :=
  do due <- list_due scope now_ns limit;
  expire_all scope now_ns due.

Definition expire_with_audit (scope : MutationIntentScopeBinding) (id : string) (now_ns : Z)
    : LOp MutationIntent :=
  do before <- reads (fun s => load_intent s scope id);
  do! require_storage_audit_log;
  in_tx (do expired <- expire scope id now_ns;
         do! append_intent_transition_audit 0 before expired IntentExpire "system" None;
         ret expired).

Fixpoint expire_all_with_audit (n : nat) (scope : MutationIntentScopeBinding) (now_ns : Z)
    (due : list MutationIntent) : LOp (list MutationIntent) :=
  match due with
  | [] => ret []
  | intent :: rest =>
      do updated <- expire scope (intent_id intent) now_ns;
      do! append_intent_transition_audit n intent updated IntentExpire "system" None;
      do others <- expire_all_with_audit (Datatypes.S n) scope now_ns rest;
      ret (updated :: others)
  end.

Definition expire_due_with_audit (scope : MutationIntentScopeBinding) (now_ns : Z) (limit : option nat)
    : LOp (list MutationIntent) :=
  do due <- list_due scope now_ns limit;
  do! require_storage_audit_log;
  in_tx (expire_all_with_audit 0 scope now_ns due).

Definition list_pending (scope : MutationIntentScopeBinding) (now_ns : Z) (limit : option nat)
    : LOp (list MutationIntent) :=
  do! expire_due scope now_ns None;
  storage (reads (fun s => is_list_pending s (tenant_id scope) (database_id scope) now_ns limit)).

Definition list_by_state (scope : MutationIntentScopeBinding) (st : ApprovalState) (now_ns : Z)
    (limit : option nat) : LOp (list MutationIntent) :=
  do! expire_due scope now_ns None;
  storage (reads (fun s => is_list_by_state s (tenant_id scope) (database_id scope) st limit)).

(** *** Commit *)

Definition mark_committed_internal (scope : MutationIntentScopeBinding) (id : string) (hash : option string)
    (now_ns : Z) : LOp MutationIntent :=
  do intent <- reads (fun s => load_intent s scope id);
  do! reject_if_expired_or_expire scope intent now_ns LoCommit;
  do! lift (require_operation_hash intent hash);
  do expected <- lift (commit_expected_state intent);
  do! lift (require_state intent expected Committed LoCommit);
  update_state scope id expected Committed.

Definition mark_committed (scope : MutationIntentScopeBinding) (id : string) (now_ns : Z)
    : LOp MutationIntent := mark_committed_internal scope id None now_ns.

Definition mark_committed_with_operation_hash (scope : MutationIntentScopeBinding) (id hash : string)
    (now_ns : Z) : LOp MutationIntent := mark_committed_internal scope id (Some hash) now_ns.
End Service.
