(* ===== verification/IntentCommit.v ===== *)
(** * Commits of intents ([crates/axon-api/src/intent.rs])

    The checks of a commit against what its preview was bound to, the audit of
    refused commits, and the execution of the intent's transaction, in which the
    intent is marked as committed by a hook of the transaction itself. *)

From S2P Require Import Prelude Json Ids Types IndexKeys Intents AuditLog.
From S2P Require Import Schema Rules JsonOps Storage Catalog Interface Transactions Requests IntentCanon IntentService.
From stdpp Require Import pretty.
Local Open Scope axon_scope.

Section Commits.
Context `{RuleEnv}.
Context {S : Type} `{!StorageAdapter S} `{!IntentStorage S} `{!IntentSerde} `{!OperationText} `{!TokenCodec}.
Variable validate : CollectionSchema -> Value -> result unit AxonError.
Variable secs_display : Z -> string.
Variable clock : nat -> Z.
Variable token_signer : MutationIntentTokenSigner.

(** ** The bindings of a commit *)

Record MutationIntentCommitValidationContext : Type := {
  vc_subject : MutationIntentSubjectBinding;
  vc_schema_version : Z;
  vc_policy_version : Z;
  vc_operation_hash : string;
  vc_caller_authorized : bool
}.

Definition commit_load_error (e : MutationIntentLifecycleError) : MutationIntentCommitValidationError :=
  match e with
  | LeNotFound _ => CvToken TokenNotFound
  | LeStorage message => CvStorage message
  | other => CvStorage (lifecycle_error_display other)
  end.

Definition pre_image_version (p : PreImageBinding) : Z :=
  match p with PreImageEntity _ _ v | PreImageLink _ _ v => v end.

Definition pre_image_path (p : PreImageBinding) : string :=
  match p with
  | PreImageEntity c i _ => "entity:" +:+ c +:+ "/" +:+ i
  | PreImageLink c i _ => "link:" +:+ c +:+ "/" +:+ i
  end.

Definition current_pre_image_version (s : S) (p : PreImageBinding) : result (option Z) AxonError :=
  match p with
  | PreImageEntity c i _ | PreImageLink c i _ =>
      let? e := sa_get s c i in
      Ok (option_map e_version e)
  end.

Definition stale_dimension (dimension : string) (expected actual path : option string)
    : MutationIntentStaleDimension :=
  {| sd_dimension := dimension; sd_expected := expected; sd_actual := actual; sd_path := path |}.

Record SubjectWithoutGrant : Type := {
  sg_user_id : option string;
  sg_agent_id : option string;
  sg_delegated_by : option string;
  sg_tenant_role : option string;
  sg_credential_id : option string;
  sg_attributes : string
}.

#[export] Instance SubjectWithoutGrant_eq_dec : EqDecision SubjectWithoutGrant.
Proof. solve_decision. Defined.

Definition subject_without_grant (subject : MutationIntentSubjectBinding) : SubjectWithoutGrant := {|
  sg_user_id := sb_user_id subject; sg_agent_id := sb_agent_id subject;
  sg_delegated_by := sb_delegated_by subject; sg_tenant_role := sb_tenant_role subject;
  sg_credential_id := sb_credential_id subject;
  sg_attributes := canonical_json_string (Object (map_to_list (sb_attributes subject))) |}.

Definition subject_stable_string (subject : MutationIntentSubjectBinding) : string :=
  canonical_json_string (subject_value subject).

(** A dimension that differs. *)
Definition changed (differs : bool) (d : MutationIntentStaleDimension) : list MutationIntentStaleDimension :=
  if differs then [d] else [].

Fixpoint stale_pre_images (s : S) (pre_images : list PreImageBinding)
    : result (list MutationIntentStaleDimension) MutationIntentCommitValidationError :=
  match pre_images with
  | [] => Ok []
  | p :: rest =>
      match current_pre_image_version s p with
      | Err e => Err (CvStorage (error_text e))
      | Panic => Panic
      | Ok current =>
          let? others := stale_pre_images s rest in
          Ok (changed (negb (bool_decide (current = Some (pre_image_version p))))
                (stale_dimension "pre_image" (Some (pretty (pre_image_version p)))
                   (Some (match current with Some v => pretty v | None => "missing" end))
                   (Some (pre_image_path p))) ++ others)
      end
  end.

Definition stale_commit_dimensions (s : S) (intent : MutationIntent)
    (current : MutationIntentCommitValidationContext)
    : result (list MutationIntentStaleDimension) MutationIntentCommitValidationError :=
  let bound := mi_subject intent in
  let now := vc_subject current in
  let fixed :=
    changed (negb (bool_decide (sb_grant_version bound = sb_grant_version now)))
      (stale_dimension "grant_version" (option_map pretty (sb_grant_version bound))
         (option_map pretty (sb_grant_version now)) None) ++
    changed (negb (bool_decide (subject_without_grant bound = subject_without_grant now)))
      (stale_dimension "subject" (Some (subject_stable_string bound)) (Some (subject_stable_string now)) None) ++
    changed (negb (mi_schema_version intent =? vc_schema_version current)%Z)
      (stale_dimension "schema_version" (Some (pretty (mi_schema_version intent)))
         (Some (pretty (vc_schema_version current))) None) ++
    changed (negb (mi_policy_version intent =? vc_policy_version current)%Z)
      (stale_dimension "policy_version" (Some (pretty (mi_policy_version intent)))
         (Some (pretty (vc_policy_version current))) None) in
  let? pre_images := stale_pre_images s (mi_pre_images intent) in
  Ok (fixed ++ pre_images).

Definition map_token_error {A} (r : result A MutationIntentTokenLookupError)
    : result A MutationIntentCommitValidationError :=
  match r with Ok a => Ok a | Err e => Err (CvToken e) | Panic => Panic end.

Definition validate_commit_bindings (s : S) (scope : MutationIntentScopeBinding) (token : string)
    (current : MutationIntentCommitValidationContext) (now_ns : Z)
    : result MutationIntent MutationIntentCommitValidationError :=
  let? id := map_token_error (verify token_signer token) in
  let? loaded :=
    match load_intent s scope id with
    | Ok i => Ok i
    | Err e => Err (commit_load_error e)
    | Panic => Panic
    end in
  let? intent := map_token_error (resolve_for_commit token_signer token scope now_ns
    (fun resolved_id expected_scope =>
       if bool_decide (resolved_id = intent_id loaded) && bool_decide (mi_scope loaded = expected_scope)
       then Some loaded else None)) in
  if negb (bool_decide (operation_hash (mi_operation intent) = vc_operation_hash current))
  then Err (CvIntentMismatch (intent_id intent) (operation_hash (mi_operation intent)) (vc_operation_hash current))
  else if negb (vc_caller_authorized current)
  then Err (CvAuthorizationFailed (intent_id intent) "current grants do not authorize intent commit")
  else
    let? stale := stale_commit_dimensions s intent current in
    match stale with
    | [] => Ok intent
    | _ => Err (CvIntentStale (intent_id intent) stale)
    end.

(** *** Audit of failed commits *)

Definition commit_validation_failure_intent_id (e : MutationIntentCommitValidationError) : option string :=
  match e with
  | CvIntentMismatch id _ _ | CvIntentStale id _ => Some id
  | _ => None
  end.

Definition commit_validation_failure_payload (intent : MutationIntent)
    (e : MutationIntentCommitValidationError) : Value :=
  Object ([("event", JString "commit_validation_failed"); ("error_code", JString (commit_error_code e));
           ("intent", intent_value intent)] ++
          match e with
          | CvIntentMismatch _ expected_hash actual_hash =>
              [("expected_hash", JString expected_hash); ("actual_hash", JString actual_hash)]
          | CvIntentStale _ dimensions => [("stale", dimensions_value dimensions)]
          | _ => []
          end).

Definition COp (A : Type) : Type := M S MutationIntentCommitValidationError A.

Definition commit_storage {A} (m : M S AxonError A) : COp A := map_err (fun e => CvStorage (error_text e)) m.

(** [map_err(|error| { let _ = storage.abort_tx(); .. })] *)
Definition abort_on_err {A} (m : COp A) : COp A := fun s =>
  match m s with
  | (s', Err e) =>
      match sa_abort_tx s' with
      | (s'', Panic) => (s'', Panic)
      | (s'', _) => (s'', Err e)
      end
  | other => other
  end.

Definition append_commit_validation_failure_audit (scope : MutationIntentScopeBinding)
    (e : MutationIntentCommitValidationError) (actor : option string) : COp unit :=
  match commit_validation_failure_intent_id e with
  | None => ret tt
  | Some id =>
      do intent <- reads (fun s => match load_intent s scope id with
                                   | Ok i => Ok i
                                   | Err e => Err (CvStorage (lifecycle_error_display e))
                                   | Panic => Panic
                                   end);
      do owns <- gets sa_owns_audit_log;
      if negb owns then fail (CvStorage "storage adapter does not own an audit log")
      else
        do! commit_storage sa_begin_tx;
        do! abort_on_err (map_err (fun e => CvStorage (lifecycle_error_display e))
              (append_intent_lifecycle_audit_entry clock 0 {|
                 ip_intent := intent; ip_mutation := IntentCommit; ip_actor := default "anonymous" actor;
                 ip_lineage := intent_lifecycle_lineage intent None;
                 ip_data_before := Some (intent_value intent);
                 ip_data_after := commit_validation_failure_payload intent e;
                 ip_metadata := list_to_map [("event", "commit_validation_failed");
                                             ("error_code", commit_error_code e)] |}));
        abort_on_err (commit_storage sa_commit_tx)
  end.

Definition validate_commit_bindings_with_audit (scope : MutationIntentScopeBinding) (token : string)
    (current : MutationIntentCommitValidationContext) (now_ns : Z) (actor : option string)
    : COp MutationIntent := fun s =>
  match validate_commit_bindings s scope token current now_ns with
  | Ok intent => (s, Ok intent)
  | Err e => (do! append_commit_validation_failure_audit scope e actor; fail e) s
  | Panic => (s, Panic)
  end.

Record MutationIntentTransactionCommitRequest : Type := {
  cr_scope : MutationIntentScopeBinding;
  cr_token : string;
  cr_transaction : Transaction;
  cr_canonical_operation : option CanonicalOperationMetadata;
  cr_current : MutationIntentCommitValidationContext;
  cr_now_ns : Z;
  cr_actor : option string;
  cr_attribution : option AuditAttribution
}.

Record MutationIntentCommitResult : Type := {
  ct_intent : MutationIntent;
  ct_written : list Entity;
  ct_transaction_id : string
}.

Definition commit_execution_error (id : string) (e : AxonError) : MutationIntentCommitValidationError :=
  match e with
  | ConflictingVersion expected actual current_entity =>
      CvIntentStale id [stale_dimension "pre_image" (Some (pretty expected)) (Some (pretty actual))
        (option_map (fun e => "entity:" +:+ e_collection e +:+ "/" +:+ e_id e) current_entity)]
  | other => CvCommitFailed id (error_text other)
  end.

Definition with_operation_hash (hash : string) (c : MutationIntentCommitValidationContext)
    : MutationIntentCommitValidationContext := {|
  vc_subject := vc_subject c; vc_schema_version := vc_schema_version c;
  vc_policy_version := vc_policy_version c; vc_operation_hash := hash;
  vc_caller_authorized := vc_caller_authorized c |}.

(** The hook that runs before the storage transaction commits. *)
Definition commit_hook (scope : MutationIntentScopeBinding) (id : string) (expected : ApprovalState)
    : M S AxonError MutationIntent :=
  map_err (fun e => InvalidOperation (lifecycle_error_display e)) (update_state scope id expected Committed).

(** [monotonic] is the reading of the monotonic clock that bounds the age of the
    transaction. *)
Definition commit_transaction_intent (monotonic : Z) (req : MutationIntentTransactionCommitRequest)
    : COp MutationIntentCommitResult :=
  let operation := default (canonical_staged_transaction_operation (cr_transaction req))
                     (cr_canonical_operation req) in
  let current := with_operation_hash (operation_hash operation) (cr_current req) in
  do intent <- validate_commit_bindings_with_audit (cr_scope req) (cr_token req) current (cr_now_ns req)
                 (cr_actor req);
  do expected_state <- lift match commit_expected_state intent with
                            | Ok st => Ok st
                            | Err e => Err (CvCommitFailed (intent_id intent) (lifecycle_error_display e))
                            | Panic => Panic
                            end;
  do (written, committed) <- map_err (commit_execution_error (intent_id intent))
    (commit_with_storage_hook validate secs_display (cr_transaction req) monotonic clock (cr_actor req)
       (cr_attribution req) (Some (intent_lifecycle_lineage intent None))
       (commit_hook (cr_scope req) (intent_id intent) expected_state));
  ret {| ct_intent := committed; ct_written := written; ct_transaction_id := tx_id (cr_transaction req) |}.
End Commits.
