(* ===== verification/EntityWrites.v ===== *)
(** * Entity and link writes of the request handler ([crates/axon-api/src/handler.rs])

    The write path behind every surface: the guard of reserved collections, the
    enforcement of lifecycle states, gates and policies, the storage write with
    its audit entry inside one storage transaction, and the operations built on
    them: create, strict create, update, patch, delete, lifecycle transitions,
    links, and transactions with their policy check.

    The handler is generic in the storage: it reads through [StorageReads] and
    writes through [StorageAdapter].  Third-party code is an argument: the JSON
    Schema validator ([validate], [validate_link_metadata]) and the JSON text of
    the reserved-namespace error ([reserved_payload]).  [clock 0] is the reading
    of [now_ns] for the row, [clock (1 + n)] the time of the n-th audit append. *)

From S2P Require Import Prelude Json Ids Types IndexKeys Intents AuditLog.
From S2P Require Import Schema PolicyPlan PolicyCycles PolicyCompile.
From S2P Require Import Rules Gates JsonOps AuthStore Roles Storage Catalog.
From S2P Require Import PolicyEval PolicyDecide Interface Transactions Requests.
Local Open Scope axon_scope.

(** ** Operations *)

Section Handler.
Context `{RuleEnv} {S : Type} `{!StorageAdapter S} `{!StorageReads S}.
Variable fuel depth : nat.
Variable validate : CollectionSchema -> Value -> result unit AxonError.
Variable validate_link_metadata : Value -> Value -> result unit AxonError.
Variable reserved_payload : string -> string -> string.
Variable secs_display : Z -> string.

Abbreviation Op := (M S AxonError).

Definition ensure_access (collection : CollectionId) (operation : string) : Op unit :=
  lift (ensure_generic_collection_access reserved_payload collection operation).

(** *** The write and its audit entries in one storage transaction *)

Fixpoint append_each (clock : nat -> Z) (n : nat) (entries : list AuditEntry) : Op (list AuditEntry) :=
  match entries with
  | [] => ret []
  | e :: rest =>
      do appended <- sa_append_audit_entry (clock n) e;
      do others <- append_each clock (Datatypes.S n) rest;
      ret (appended :: others)
  end.

Definition commit_write_with_durable_audit_entries {R} (clock : nat -> Z) (write : Op R)
    (make_audits : R -> result (list AuditEntry) AxonError) : Op (R * list AuditEntry) :=
  do owns <- gets sa_owns_audit_log;
  if negb owns then fail (InvalidOperation "storage adapter does not own an audit log")
  else
    do! sa_begin_tx;
    do res <- or_abort (do r <- write;
                        do entries <- lift (make_audits r);
                        do appended <- append_each clock 1 entries;
                        ret (r, appended));
    do! sa_commit_tx;
    ret res.

Definition commit_write_with_durable_audit {R} (clock : nat -> Z) (write : Op R)
    (make_audit : R -> AuditEntry) : Op (R * AuditEntry) :=
  do (r, entries) <- commit_write_with_durable_audit_entries clock write (fun r => Ok [make_audit r]);
  match list.last entries with
  | Some entry => ret (r, entry)
  | None => fail (InvalidOperation "storage audit append did not return an entry")
  end.

(** *** Checks before a write *)

(** The save gate blocks; [None] without rules.  Fix texts that do not settle
    never return. *)
Definition evaluate_save_gate (schema : option CollectionSchema) (data : Value)
    : result (option GateEvaluation) AxonError :=
  match schema with
  | None => Ok None
  | Some schema =>
      match cs_validation_rules schema with
      | [] => Ok None
      | _ =>
          match evaluate_gates fuel (cs_validation_rules schema) (cs_gates schema) data with
          | None => Panic
          | Some eval =>
              if negb (save_passes eval)
              then Err (SchemaValidation ("save gate failed: " +:+
                          join_str "; " (map rv_message (ge_save_violations eval))))
              else Ok (Some eval)
          end
      end
  end.

Definition validate_optional (schema : option CollectionSchema) (data : Value) : result unit AxonError :=
  match schema with Some schema => validate schema data | None => Ok tt end.

Definition enforce_lifecycle_optional (schema : option CollectionSchema) (data : Value)
    (mode : LifecycleEnforcementMode) : result Value AxonError :=
  match schema with Some schema => enforce_lifecycle_initial_state schema data mode | None => Ok data end.

Definition gates_of (eval : option GateEvaluation) : gmap string GateResult :=
  match eval with Some e => ge_gate_results e | None => ∅ end.
Definition advisories_of (eval : option GateEvaluation) : list RuleViolation :=
  match eval with Some e => ge_advisories e | None => [] end.

(** *** Create *)

Definition create_entity_inner_unchecked (clock : nat -> Z) (req : CreateEntityRequest)
    (caller : option CallerIdentity) : Op EntityWriteResponse :=
  do schema <- reads (fun s => sr_get_schema s (ce_collection req));
  do policy_snapshot <- reads (fun s => policy_snapshot_for_request s (ce_collection req) schema
                                          (ce_actor req) caller (ce_attribution req));
  do data <- lift (enforce_lifecycle_optional schema (ce_data req) ModeCreate);
  do! reads (fun s => enforce_write_policy fuel s None depth schema policy_snapshot {|
        wc_collection := ce_collection req; wc_entity_id := Some (ce_id req); wc_operation := OpCreate;
        wc_current_data := None; wc_candidate_data := data; wc_field_scope := PresentFields data;
        wc_operation_index := None |} false);
  do! lift (validate_optional schema data);
  do gate_eval <- lift (evaluate_save_gate schema data);
  let entity := {|
    e_collection := ce_collection req; e_id := ce_id req; e_version := 1; e_data := data;
    e_created_at_ns := Some (clock O); e_updated_at_ns := Some (clock O);
    e_created_by := ce_actor req; e_updated_by := ce_actor req;
    e_schema_version := option_map cs_version schema; e_gate_results := gates_of gate_eval |} in
  do (_, appended) <- commit_write_with_durable_audit clock
    (do! sa_put entity; ret entity)
    (fun stored => request_entry (e_collection stored) (e_id stored) (e_version stored) EntityCreate
                     None (Some (e_data stored)) (ce_actor req) (ce_audit_metadata req)
                     (ce_attribution req));
  ret {| wr_entity := entity; wr_policy_snapshot := policy_snapshot; wr_gates := gates_of gate_eval;
         wr_advisories := advisories_of gate_eval; wr_audit_id := Some (ae_id appended) |}.

Definition create_entity_inner (clock : nat -> Z) (req : CreateEntityRequest)
    (caller : option CallerIdentity) : Op EntityWriteResponse :=
  do! ensure_access (ce_collection req) OP_ENTITY;
  create_entity_inner_unchecked clock req caller.

Definition create_entity_strict_inner (clock : nat -> Z) (req : CreateEntityRequest)
    (caller : option CallerIdentity) : Op EntityWriteResponse :=
  do! ensure_access (ce_collection req) OP_ENTITY;
  do existing <- reads (fun s => sr_get s (ce_collection req) (ce_id req));
  match existing with
  | Some current => fail (ConflictingVersion 0 (e_version current) (Some current))
  | None => create_entity_inner clock req caller
  end.

(** *** Update and patch *)

Definition update_entity_inner_unchecked (clock : nat -> Z) (req : UpdateEntityRequest)
    (caller : option CallerIdentity) : Op EntityWriteResponse :=
  do schema <- reads (fun s => sr_get_schema s (ue_collection req));
  do policy_snapshot <- reads (fun s => policy_snapshot_for_request s (ue_collection req) schema
                                          (ue_actor req) caller (ue_attribution req));
  do data <- lift (enforce_lifecycle_optional schema (ue_data req) ModeUpdate);
  do! lift (validate_optional schema data);
  do gate_eval <- lift (evaluate_save_gate schema data);
  do existing <- reads (fun s => sr_get s (ue_collection req) (ue_id req));
  do! reads (fun s => enforce_write_policy fuel s None depth schema policy_snapshot {|
        wc_collection := ue_collection req; wc_entity_id := Some (ue_id req); wc_operation := OpUpdate;
        wc_current_data := option_map e_data existing; wc_candidate_data := data;
        wc_field_scope := PresentFields data; wc_operation_index := None |} false);
  let candidate := {|
    e_collection := ue_collection req; e_id := ue_id req; e_version := ue_expected_version req;
    e_data := data; e_created_at_ns := existing ≫= e_created_at_ns; e_updated_at_ns := Some (clock O);
    e_created_by := existing ≫= e_created_by; e_updated_by := ue_actor req;
    e_schema_version := option_map cs_version schema; e_gate_results := gates_of gate_eval |} in
  do (updated, appended) <- commit_write_with_durable_audit clock
    (do stored <- sa_compare_and_swap candidate (ue_expected_version req);
     ret (present_entity (ue_collection req) stored))
    (fun updated => request_entry (e_collection updated) (e_id updated) (e_version updated) EntityUpdate
                      (option_map e_data existing) (Some (e_data updated)) (ue_actor req)
                      (ue_audit_metadata req) (ue_attribution req));
  ret {| wr_entity := updated; wr_policy_snapshot := policy_snapshot; wr_gates := gates_of gate_eval;
         wr_advisories := advisories_of gate_eval; wr_audit_id := Some (ae_id appended) |}.

Definition update_entity_inner (clock : nat -> Z) (req : UpdateEntityRequest)
    (caller : option CallerIdentity) : Op EntityWriteResponse :=
  do! ensure_access (ue_collection req) OP_ENTITY;
  update_entity_inner_unchecked clock req caller.

Definition patch_entity_inner (clock : nat -> Z) (req : PatchEntityRequest)
    (caller : option CallerIdentity) : Op EntityWriteResponse :=
  do! ensure_access (pe_collection req) OP_ENTITY;
  do found <- reads (fun s => sr_get s (pe_collection req) (pe_id req));
  match found with
  | None => fail (NotFound (pe_id req))
  | Some existing =>
      let merged := json_merge_patch (e_data existing) (pe_patch req) in
      do schema <- reads (fun s => sr_get_schema s (pe_collection req));
      do policy_snapshot <- reads (fun s => policy_snapshot_for_request s (pe_collection req) schema
                                              (pe_actor req) caller (pe_attribution req));
      do merged <- lift (enforce_lifecycle_optional schema merged ModeUpdate);
      do! lift (validate_optional schema merged);
      do gate_eval <- lift (evaluate_save_gate schema merged);
      do! reads (fun s => enforce_write_policy fuel s None depth schema policy_snapshot {|
            wc_collection := pe_collection req; wc_entity_id := Some (pe_id req);
            wc_operation := OpUpdate; wc_current_data := Some (e_data existing);
            wc_candidate_data := merged; wc_field_scope := PatchScope (pe_patch req);
            wc_operation_index := None |} false);
      let candidate := {|
        e_collection := pe_collection req; e_id := pe_id req; e_version := pe_expected_version req;
        e_data := merged; e_created_at_ns := e_created_at_ns existing;
        e_updated_at_ns := Some (clock O); e_created_by := e_created_by existing;
        e_updated_by := pe_actor req; e_schema_version := option_map cs_version schema;
        e_gate_results := gates_of gate_eval |} in
      do (updated, appended) <- commit_write_with_durable_audit clock
        (do stored <- sa_compare_and_swap candidate (pe_expected_version req);
         ret (present_entity (pe_collection req) stored))
        (fun updated => request_entry (e_collection updated) (e_id updated) (e_version updated)
                          EntityUpdate (Some (e_data existing)) (Some (e_data updated)) (pe_actor req)
                          (pe_audit_metadata req) (pe_attribution req));
      ret {| wr_entity := updated; wr_policy_snapshot := policy_snapshot;
             wr_gates := gates_of gate_eval; wr_advisories := advisories_of gate_eval;
             wr_audit_id := Some (ae_id appended) |}
  end.

(** *** Delete *)

Definition delete_entity_inner (clock : nat -> Z) (req : DeleteEntityRequest)
    (caller : option CallerIdentity) : Op DeleteEntityResponse :=
  do! ensure_access (de_collection req) OP_ENTITY;
  do schema <- reads (fun s => sr_get_schema s (de_collection req));
  do policy_snapshot <- reads (fun s => policy_snapshot_for_request s (de_collection req) schema
                                          (de_actor req) caller (de_attribution req));
  do inbound <- (if de_force req then ret []
                 else reads (fun s => sr_list_inbound_links s (de_collection req) (de_id req) None));
  match inbound with
  | _ :: _ =>
      fail (InvalidOperation ("entity " +:+ de_collection req +:+ "/" +:+ de_id req +:+
        " has inbound link(s); delete or re-target those links first, or use force=true"))
  | [] =>
      do existing <- reads (fun s => sr_get s (de_collection req) (de_id req));
      match existing with
      | Some current =>
          do! reads (fun s => enforce_write_policy fuel s None depth schema policy_snapshot {|
                wc_collection := de_collection req; wc_entity_id := Some (de_id req);
                wc_operation := OpDelete; wc_current_data := Some (e_data current);
                wc_candidate_data := e_data current; wc_field_scope := PresentFields (e_data current);
                wc_operation_index := None |} false);
          do (_, appended) <- commit_write_with_durable_audit clock
            (sa_delete (de_collection req) (de_id req))
            (fun _ => request_entry (de_collection req) (de_id req) (e_version current) EntityDelete
                        (Some (e_data current)) None (de_actor req) (de_audit_metadata req)
                        (de_attribution req));
          ret {| dr_collection := de_collection req; dr_id := de_id req;
                 dr_policy_snapshot := policy_snapshot; dr_audit_id := Some (ae_id appended) |}
      | None =>
          do! sa_delete (de_collection req) (de_id req);
          ret {| dr_collection := de_collection req; dr_id := de_id req;
                 dr_policy_snapshot := policy_snapshot; dr_audit_id := None |}
      end
  end.

(** *** Lifecycle transitions *)

Definition transition_lifecycle (clock : nat -> Z) (req : TransitionLifecycleRequest)
    : Op TransitionLifecycleResponse :=
  do! ensure_access (tl_collection_id req) OP_LIFECYCLE;
  do found_schema <- reads (fun s => sr_get_schema s (tl_collection_id req));
  match found_schema with
  | None => fail (NotFound ("schema for collection " +:+ tl_collection_id req))
  | Some schema =>
      match cs_lifecycles schema !! tl_lifecycle_name req with
      | None => fail (LifecycleNotFound (tl_lifecycle_name req))
      | Some lifecycle =>
          do found <- reads (fun s => sr_get s (tl_collection_id req) (tl_entity_id req));
          match found with
          | None => fail (NotFound (tl_entity_id req))
          | Some entity =>
              let current_state :=
                default "" (value_get (e_data entity) (lc_field lifecycle) ≫= as_str) in
              let allowed := default [] (lc_transitions lifecycle !! current_state) in
              if negb (bool_decide (tl_target_state req ∈ allowed))
              then fail (InvalidTransition (tl_lifecycle_name req) current_state (tl_target_state req) allowed)
              else
                do new_data <- lift (value_index_assign (e_data entity) (lc_field lifecycle)
                                       (JString (tl_target_state req)));
                do policy_snapshot <- reads (fun s => policy_snapshot_for_request s (tl_collection_id req)
                                              (Some schema) (tl_actor req) None (tl_attribution req));
                do! reads (fun s => enforce_transition_policy fuel s None depth schema policy_snapshot {|
                      tc_collection := tl_collection_id req; tc_entity_id := tl_entity_id req;
                      tc_lifecycle_field := lc_field lifecycle; tc_target_state := tl_target_state req;
                      tc_data := new_data |});
                do update_resp <- update_entity_inner clock {|
                      ue_collection := tl_collection_id req; ue_id := tl_entity_id req;
                      ue_data := new_data; ue_expected_version := tl_expected_version req;
                      ue_actor := tl_actor req; ue_audit_metadata := tl_audit_metadata req;
                      ue_attribution := tl_attribution req |} None;
                ret {| tr_entity := wr_entity update_resp; tr_audit_id := wr_audit_id update_resp |}
          end
      end
  end.

(** *** Links *)

Definition cardinality_debug (c : Cardinality) : string :=
  match c with
  | OneToOne => "OneToOne" | OneToMany => "OneToMany" | ManyToOne => "ManyToOne" | ManyToMany => "ManyToMany"
  end.

Definition single_outgoing (c : Cardinality) : bool :=
  match c with OneToOne | ManyToOne => true | _ => false end.
Definition single_inbound (c : Cardinality) : bool :=
  match c with OneToOne | OneToMany => true | _ => false end.

(** The declaration of the link type in the schema of the source. *)
Definition check_link_type (req : CreateLinkRequest) (schema : CollectionSchema) : Op unit :=
  if bool_decide (cs_link_types schema = ∅) then ret tt
  else
    match cs_link_types schema !! kl_link_type req with
    | None =>
        fail (SchemaValidation ("link type '" +:+ kl_link_type req +:+ "' is not declared in collection '"
          +:+ kl_source_collection req +:+ "' schema"))
    | Some link_def =>
        if negb (bool_decide (kl_target_collection req = lt_target_collection link_def))
        then fail (SchemaValidation ("link type '" +:+ kl_link_type req +:+
               "' requires target collection '" +:+ lt_target_collection link_def +:+ "', got '" +:+
               kl_target_collection req +:+ "'"))
        else
          do! lift (match lt_metadata_schema link_def with
                    | Some metadata_schema => validate_link_metadata metadata_schema (kl_metadata req)
                    | None => Ok tt
                    end);
          do outgoing <- (if single_outgoing (lt_cardinality link_def)
                          then reads (fun s => sr_list_outbound_links s (kl_source_collection req)
                                                 (kl_source_id req) (Some (kl_link_type req)))
                          else ret []);
          match outgoing with
          | _ :: _ =>
              fail (SchemaValidation ("cardinality violation: source " +:+ kl_source_collection req +:+ "/"
                +:+ kl_source_id req +:+ " already has a '" +:+ kl_link_type req +:+ "' link (" +:+
                cardinality_debug (lt_cardinality link_def) +:+ " allows at most one outgoing)"))
          | [] =>
              do inbound <- (if single_inbound (lt_cardinality link_def)
                             then reads (fun s => sr_list_inbound_links s (kl_target_collection req)
                                                    (kl_target_id req) (Some (kl_link_type req)))
                             else ret []);
              match inbound with
              | _ :: _ =>
                  fail (SchemaValidation ("cardinality violation: target " +:+ kl_target_collection req
                    +:+ "/" +:+ kl_target_id req +:+ " already has an inbound '" +:+ kl_link_type req
                    +:+ "' link (" +:+ cardinality_debug (lt_cardinality link_def) +:+
                    " allows at most one inbound)"))
              | [] => ret tt
              end
          end
    end.

Definition link_of_request (req : CreateLinkRequest) : Link := {|
  l_source_collection := kl_source_collection req; l_source_id := kl_source_id req;
  l_target_collection := kl_target_collection req; l_target_id := kl_target_id req;
  l_link_type := kl_link_type req; l_metadata := kl_metadata req |}.

Definition create_link_inner (clock : nat -> Z) (req : CreateLinkRequest) : Op Link :=
  do source <- reads (fun s => sr_get s (kl_source_collection req) (kl_source_id req));
  if negb (bool_decide (is_Some source))
  then fail (NotFound ("source entity " +:+ kl_source_collection req +:+ "/" +:+ kl_source_id req))
  else
    do target <- reads (fun s => sr_get s (kl_target_collection req) (kl_target_id req));
    if negb (bool_decide (is_Some target))
    then fail (NotFound ("target entity " +:+ kl_target_collection req +:+ "/" +:+ kl_target_id req))
    else
      do schema <- reads (fun s => sr_get_schema s (kl_source_collection req));
      do! match schema with Some schema => check_link_type req schema | None => ret tt end;
      let link := link_of_request req in
      do existing <- reads (fun s => sr_get s links_collection (link_storage_id link));
      if bool_decide (is_Some existing)
      then fail (AlreadyExists ("link " +:+ kl_source_collection req +:+ "/" +:+ kl_source_id req +:+ "/"
             +:+ kl_link_type req +:+ "/" +:+ kl_target_collection req +:+ "/" +:+ kl_target_id req))
      else
        let link_entity := link_to_entity link in
        do! commit_write_with_durable_audit clock (sa_put_link link)
              (fun _ => request_entry (e_collection link_entity) (e_id link_entity) (e_version link_entity)
                          LinkCreate None (Some (e_data link_entity)) (kl_actor req) None
                          (kl_attribution req));
        ret link.

Definition create_link (clock : nat -> Z) (req : CreateLinkRequest) : Op Link :=
  do! ensure_access (kl_source_collection req) OP_LINK;
  do! ensure_access (kl_target_collection req) OP_LINK;
  create_link_inner clock req.

Definition handler_delete_link (clock : nat -> Z) (req : DeleteLinkRequest) : Op DeleteLinkResponse :=
  do! ensure_access (dl_source_collection req) OP_LINK;
  do! ensure_access (dl_target_collection req) OP_LINK;
  let link_id := storage_id (dl_source_collection req) (dl_source_id req) (dl_link_type req)
                   (dl_target_collection req) (dl_target_id req) in
  do found <- reads (fun s => sr_get s links_collection link_id);
  match found with
  | None =>
      fail (NotFound ("link " +:+ dl_source_collection req +:+ "/" +:+ dl_source_id req +:+ " --[" +:+
        dl_link_type req +:+ "]--> " +:+ dl_target_collection req +:+ "/" +:+ dl_target_id req))
  | Some link_entity =>
      do! commit_write_with_durable_audit clock
            (sa_delete_link (dl_source_collection req) (dl_source_id req) (dl_link_type req)
               (dl_target_collection req) (dl_target_id req))
            (fun _ => request_entry (e_collection link_entity) (e_id link_entity) (e_version link_entity)
                        LinkDelete (Some (e_data link_entity)) None (dl_actor req) None
                        (dl_attribution req));
      ret {| kr_source_collection := dl_source_collection req; kr_source_id := dl_source_id req;
             kr_target_collection := dl_target_collection req; kr_target_id := dl_target_id req;
             kr_link_type := dl_link_type req |}
  end.

(** *** Transactions *)

Definition transaction_write_scope (op : WriteOp) (current : option Entity)
    : result FieldWriteScope AxonError :=
  match wo_write_scope op with
  | PresentEntity => Ok (PresentFields (e_data (wo_entity op)))
  | Patch patch =>
      match option_map e_data current, wo_data_before op with
      | Some before, _ | None, Some before =>
          if negb (value_eqb (json_merge_patch before patch) (e_data (wo_entity op)))
          then Err (InvalidOperation "patch transaction write scope does not match staged entity data")
          else Ok (PatchScope patch)
      | None, None => Ok (PatchScope patch)
      end
  end.

(** The policy check of one staged operation; links have none. *)
Definition enforce_operation_policy (actor : option string) (attribution : option AuditAttribution)
    (caller : option CallerIdentity) (approval_envelopes_satisfied : bool) (operation_index : Z)
    (op : StagedOp) (s : S) : result unit AxonError :=
  match op with
  | SLinkCreate _ | SLinkDelete _ => Ok tt
  | SEntity op =>
      let entity := wo_entity op in
      let? schema := sr_get_schema s (e_collection entity) in
      let? policy_snapshot := policy_snapshot_for_request s (e_collection entity) schema actor caller
                                attribution in
      let? current := sr_get s (e_collection entity) (e_id entity) in
      let enforce operation current_data candidate_data field_scope :=
        enforce_write_policy fuel s None depth schema policy_snapshot {|
          wc_collection := e_collection entity; wc_entity_id := Some (e_id entity);
          wc_operation := operation; wc_current_data := current_data;
          wc_candidate_data := candidate_data; wc_field_scope := field_scope;
          wc_operation_index := Some operation_index |} approval_envelopes_satisfied in
      match wo_mutation op with
      | EntityCreate => enforce OpCreate None (e_data entity) (PresentFields (e_data entity))
      | EntityUpdate =>
          let? field_scope := transaction_write_scope op current in
          enforce OpUpdate (option_map e_data current) (e_data entity) field_scope
      | EntityDelete =>
          let data := default (default (e_data entity) (wo_data_before op)) (option_map e_data current) in
          enforce OpDelete (option_map e_data current) data (PresentFields data)
      | _ => Ok tt
      end
  end.

Fixpoint enforce_operations_policy (actor : option string) (attribution : option AuditAttribution)
    (caller : option CallerIdentity) (approval_envelopes_satisfied : bool) (operation_index : Z)
    (ops : list StagedOp) (s : S) : result unit AxonError :=
  match ops with
  | [] => Ok tt
  | op :: rest =>
      let? _ := enforce_operation_policy actor attribution caller approval_envelopes_satisfied
                  operation_index op s in
      enforce_operations_policy actor attribution caller approval_envelopes_satisfied
        (operation_index + 1) rest s
  end.

Definition enforce_transaction_policy (tx : Transaction) (actor : option string)
    (attribution : option AuditAttribution) (caller : option CallerIdentity)
    (approval_envelopes_satisfied : bool) (s : S) : result unit AxonError :=
  enforce_operations_policy actor attribution caller approval_envelopes_satisfied 0 (tx_ops tx) s.

Definition commit_transaction_inner (now : Z) (clock : nat -> Z) (tx : Transaction)
    (actor : option string) (attribution : option AuditAttribution) (caller : option CallerIdentity)
    : Op (list Entity) :=
  do! lift (ensure_generic_transaction_access reserved_payload tx);
  do! reads (enforce_transaction_policy tx actor attribution caller false);
  commit validate secs_display tx now clock actor attribution.
End Handler.
