(* ===== verification/EntityReads.v ===== *)
(** * Reads of the request handler ([crates/axon-api/src/handler.rs])

    Filters, the projection of rows stored under an older schema, visibility and
    redaction under the read policy, single-entity reads, their recording in a
    transaction, and the two graph searches: traversal and reachability. *)

From S2P Require Import Prelude Json Ids Types Bfs IndexKeys Intents AuditLog.
From S2P Require Import Schema PolicyPlan PolicyCycles PolicyCompile.
From S2P Require Import Rules Gates JsonOps AuthStore Roles Storage Catalog.
From S2P Require Import PolicyEval PolicyDecide Interface Transactions Requests EntityWrites.
From stdpp Require Import pretty.
Local Open Scope axon_scope.

(** [str::contains] *)
Fixpoint str_contains (s sub : string) : bool :=
  match str_strip_prefix sub s with
  | Some _ => true
  | None => match s with EmptyString => false | String _ s' => str_contains s' sub end
  end.

(** A node of the link graph. *)
Abbreviation Node := (CollectionId * EntityId)%type.

(** ** Filters *)

Section Filters.
Context `{SerdeNumber}.

Inductive FilterOp : Type := FEq | FNe | FGt | FGte | FLt | FLte | FIn | FContains.

Record FieldFilter : Type := {
  ff_field : string;
  ff_op : FilterOp;
  ff_value : Value
}.

Record GateFilter : Type := {
  gf_gate : string;
  gf_pass : bool
}.

Set Warnings "-register-all".

Inductive FilterNode : Type :=
| FField (f : FieldFilter)
| FGate (g : GateFilter)
| FAnd (filters : list FilterNode)
| FOr (filters : list FilterNode).

Definition apply_field_filter (f : FieldFilter) (data : Value) : bool :=
  let field_val := get_field_value data (ff_field f) in
  let ord := handler_compare_values field_val (Some (ff_value f)) in
  match ff_op f with
  | FEq => values_eq field_val (Some (ff_value f))
  | FNe => negb (values_eq field_val (Some (ff_value f)))
  | FGt => is_gt_cmp ord
  | FGte => is_gt_cmp ord || is_eq_cmp ord
  | FLt => is_lt_cmp ord
  | FLte => is_lt_cmp ord || is_eq_cmp ord
  | FIn => match ff_value f with
           | Array arr => existsb (fun v => values_eq field_val (Some v)) arr
           | _ => false
           end
  | FContains => match field_val, ff_value f with
                 | Some (JString s), JString sub => str_contains s sub
                 | _, _ => false
                 end
  end.

Fixpoint apply_filter_with_gates (node : FilterNode) (data : Value) (gate_eval : option GateEvaluation)
    : bool :=
  match node with
  | FField f => apply_field_filter f data
  | FGate g =>
      match gate_eval ≫= (fun eval => ge_gate_results eval !! gf_gate g) with
      | Some result => Bool.eqb (gr_pass result) (gf_pass g)
      | None => false
      end
  | FAnd filters => forallb (fun f => apply_filter_with_gates f data gate_eval) filters
  | FOr filters => existsb (fun f => apply_filter_with_gates f data gate_eval) filters
  end.

Definition apply_filter (node : FilterNode) (data : Value) : bool := apply_filter_with_gates node data None.

Fixpoint has_gate_filter (node : FilterNode) : bool :=
  match node with
  | FGate _ => true
  | FField _ => false
  | FAnd filters | FOr filters => existsb has_gate_filter filters
  end.

(** ** Reading rows of older schema versions *)

Definition entity_schema_properties (entity_schema : Value) : option (list (string * Value)) :=
  match value_get entity_schema "properties" with Some (Object m) => Some m | _ => None end.

Definition entity_schema_on_read_defaults (entity_schema : Value) : option (list (string * Value)) :=
  match value_get entity_schema "on_read_defaults" with Some (Object m) => Some m | _ => None end.

(** The required names; a [BTreeSet] in the source. *)
Definition entity_schema_required_fields (entity_schema : Value) : list string :=
  match value_get entity_schema "required" with
  | Some (Array items) => somes (map as_str items)
  | _ => []
  end.

Record ReadWarning : Type := {
  rw_code : string;
  rw_collection : string;
  rw_id : string;
  rw_field : string;
  rw_entity_schema_version : Z;
  rw_active_schema_version : Z;
  rw_message : string
}.

Definition with_data (data : Value) (e : Entity) : Entity := {|
  e_collection := e_collection e; e_id := e_id e; e_version := e_version e; e_data := data;
  e_created_at_ns := e_created_at_ns e; e_updated_at_ns := e_updated_at_ns e;
  e_created_by := e_created_by e; e_updated_by := e_updated_by e;
  e_schema_version := e_schema_version e; e_gate_results := e_gate_results e |}.

(** The loop over the active properties: fields the stored version did not know
    get their default, a warning, or null. *)
Fixpoint project_fields (warning : string -> ReadWarning)
    (stored_properties on_read_defaults : option (list (string * Value))) (active_required : list string)
    (fields : list string) (data : list (string * Value)) : list (string * Value) * list ReadWarning :=
  match fields with
  | [] => (data, [])
  | field :: rest =>
      if bool_decide (is_Some (stored_properties ≫= assoc_get field))
         || bool_decide (is_Some (assoc_get field data))
      then project_fields warning stored_properties on_read_defaults active_required rest data
      else
        match on_read_defaults ≫= assoc_get field with
        | Some d =>
            project_fields warning stored_properties on_read_defaults active_required rest
              (map_insert field d data)
        | None =>
            if bool_decide (field ∈ active_required)
            then
              let '(data, warnings) :=
                project_fields warning stored_properties on_read_defaults active_required rest data in
              (data, warning field :: warnings)
            else
              project_fields warning stored_properties on_read_defaults active_required rest
                (map_insert field Null data)
        end
  end.

Definition required_warning (collection : CollectionId) (id : EntityId) (stored active : Z) (field : string)
    : ReadWarning := {|
  rw_code := "required_without_on_read_default"; rw_collection := collection; rw_id := id;
  rw_field := field; rw_entity_schema_version := stored; rw_active_schema_version := active;
  rw_message := "field '" +:+ field +:+ "' is required by active schema version " +:+ pretty active +:+
    " but entity was stored at schema version " +:+ pretty stored +:+
    " and no on_read_defaults value is declared" |}.

Section Reads.
Context {S : Type} `{!StorageReads S}.
Variable fuel depth : nat.
Variable reserved_payload : string -> string -> string.

Definition project_entity_for_lazy_read (s : S) (collection : CollectionId) (entity : Entity)
    : result (Entity * list ReadWarning) AxonError :=
  let? active := sr_get_schema s collection in
  match active, e_schema_version entity with
  | Some active_schema, Some entity_schema_version =>
      if (cs_version active_schema <=? entity_schema_version)%Z then Ok (entity, [])
      else
        match cs_entity_schema active_schema with
        | None => Ok (entity, [])
        | Some active_entity_schema =>
            match entity_schema_properties active_entity_schema with
            | None => Ok (entity, [])
            | Some active_properties =>
                let? stored_schema := sr_get_schema_version s collection entity_schema_version in
                let stored_properties :=
                  (stored_schema ≫= cs_entity_schema) ≫= entity_schema_properties in
                match e_data entity with
                | Object data =>
                    let '(data, warnings) :=
                      project_fields
                        (required_warning collection (e_id entity) entity_schema_version
                           (cs_version active_schema))
                        stored_properties (entity_schema_on_read_defaults active_entity_schema)
                        (entity_schema_required_fields active_entity_schema)
                        (map fst active_properties) data in
                    Ok (with_data (Object data) entity, warnings)
                | _ => Ok (entity, [])
                end
            end
        end
  | _, _ => Ok (entity, [])
  end.

(** ** Visibility and redaction *)

Definition read_plan (s : S) (collection : CollectionId) (caller : option CallerIdentity)
    (attribution : option AuditAttribution)
    : result (option (PolicyPlan * PolicyRequestSnapshot)) AxonError :=
  let? schema := sr_get_schema s collection in
  let? policy_snapshot := policy_snapshot_for_request s collection schema None caller attribution in
  match schema, policy_snapshot with
  | Some schema, Some snapshot =>
      let? plan := compile_policy_plan_for_schema fuel s schema in
      Ok (option_map (fun p => (p, snapshot)) plan)
  | _, _ => Ok None
  end.

Definition prepare_entity_for_read_with_context (s : S) (collection : CollectionId) (entity : Entity)
    (caller : option CallerIdentity) (attribution : option AuditAttribution)
    : result (Entity * list ReadWarning) AxonError :=
  let? (entity, warnings) := project_entity_for_lazy_read s collection entity in
  let? compiled := read_plan s collection caller attribution in
  match compiled with
  | Some (plan, snapshot) =>
      let? data := redact_entity_fields_for_read fuel s None depth plan snapshot entity in
      Ok (with_data data entity, warnings)
  | None => Ok (entity, warnings)
  end.

Definition redact_entity_for_read_with_context (s : S) (collection : CollectionId) (entity : Entity)
    (caller : option CallerIdentity) (attribution : option AuditAttribution) : result Entity AxonError :=
  let? (entity, _) := prepare_entity_for_read_with_context s collection entity caller attribution in
  Ok entity.

Definition entity_visible_for_read_with_context (s : S) (collection : CollectionId) (entity : Entity)
    (caller : option CallerIdentity) (attribution : option AuditAttribution) : result bool AxonError :=
  let? compiled := read_plan s collection caller attribution in
  match compiled with
  | Some (plan, snapshot) => read_policy_allows_entity fuel s None depth collection plan snapshot entity
  | None => Ok true
  end.

Definition get_visible_entity_for_read_with_context (s : S) (collection : CollectionId) (id : EntityId)
    (caller : option CallerIdentity) (attribution : option AuditAttribution)
    : result (option Entity) AxonError :=
  let? found := sr_get s collection id in
  match found with
  | None => Ok None
  | Some entity =>
      let? visible := entity_visible_for_read_with_context s collection entity caller attribution in
      Ok (if visible then Some entity else None)
  end.

Definition get_entity_with_read_context (s : S) (collection : CollectionId) (id : EntityId)
    (caller : option CallerIdentity) (attribution : option AuditAttribution)
    : result (Entity * list ReadWarning) AxonError :=
  let? _ := ensure_generic_collection_access reserved_payload collection OP_ENTITY in
  let? visible := get_visible_entity_for_read_with_context s collection id caller attribution in
  match visible with
  | Some entity =>
      let? (entity, warnings) := prepare_entity_for_read_with_context s collection entity caller attribution in
      Ok (present_entity collection entity, warnings)
  | None => Err (NotFound id)
  end.

(** Reading through a transaction records the version that was seen; an entity
    reported as missing is recorded as absent. *)
Definition tx_get_entity_inner (s : S) (tx : Transaction) (collection : CollectionId) (id : EntityId)
    (caller : option CallerIdentity) (attribution : option AuditAttribution)
    : Transaction * result (Entity * list ReadWarning) AxonError :=
  let record version (k : result (Entity * list ReadWarning) AxonError) :=
    match record_read collection id version tx with
    | (tx', Ok _) => (tx', k)
    | (tx', Err e) => (tx', Err e)
    | (tx', Panic) => (tx', Panic)
    end in
  match get_entity_with_read_context s collection id caller attribution with
  | Ok resp => record (e_version (fst resp)) (Ok resp)
  | Err (NotFound msg) => record 0%Z (Err (NotFound msg))
  | other => (tx, other)
  end.

(** ** Graph searches *)

Inductive TraverseDirection : Type := Forward | Reverse.

Record TraverseRequest : Type := {
  tq_collection : CollectionId;
  tq_id : EntityId;
  tq_link_type : option string;
  tq_max_depth : option nat;
  tq_direction : TraverseDirection;
  tq_hop_filter : option FilterNode
}.

Record ReachableRequest : Type := {
  rq_source_collection : CollectionId;
  rq_source_id : EntityId;
  rq_target_collection : CollectionId;
  rq_target_id : EntityId;
  rq_link_type : option string;
  rq_max_depth : option nat;
  rq_direction : TraverseDirection
}.

Record TraverseHop : Type := { th_link : Link; th_entity : Entity }.
Record TraverseResponse : Type := {
  ts_entities : list Entity;
  ts_paths : list (list TraverseHop);
  ts_links_traversed : list Link
}.
Record ReachableResponse : Type := { rr_reachable : bool; rr_depth : option nat }.

Definition DEFAULT_MAX_DEPTH : nat := 3.
Definition MAX_DEPTH_CAP : nat := 10.
Definition depth_limit (requested : option nat) : nat :=
  Nat.min (default DEFAULT_MAX_DEPTH requested) MAX_DEPTH_CAP.

Definition load_all_links (s : S) : result (list Link) AxonError :=
  let? entities := sr_range_scan s links_collection in
  Ok (somes (map link_from_entity entities)).

Definition load_generic_links (s : S) : result (list Link) AxonError :=
  let? links := load_all_links s in
  Ok (List.filter link_visible_to_generic_scans links).

Definition near_end (direction : TraverseDirection) (l : Link) : Node :=
  match direction with
  | Forward => (l_source_collection l, l_source_id l)
  | Reverse => (l_target_collection l, l_target_id l)
  end.
Definition far_end (direction : TraverseDirection) (l : Link) : Node :=
  match direction with
  | Forward => (l_target_collection l, l_target_id l)
  | Reverse => (l_source_collection l, l_source_id l)
  end.

(** The links of the requested type. *)
Definition typed_links (link_type : option string) (links : list Link) : list Link :=
  List.filter (fun l => when_some link_type (fun lt => bool_decide (l_link_type l = lt))) links.

(** The neighbour as the client may see it, if it exists, is visible and passes
    the filter. *)
Definition traverse_probe (s : S) (hop_filter : option FilterNode) (caller : option CallerIdentity)
    (attribution : option AuditAttribution) (node : Node) : result (option Entity) AxonError :=
  let? found := get_visible_entity_for_read_with_context s (fst node) (snd node) caller attribution in
  match found with
  | None => Ok None
  | Some entity =>
      if when_some hop_filter (fun f => apply_filter f (e_data entity))
      then
        let? entity := redact_entity_for_read_with_context s (fst node) entity caller attribution in
        Ok (Some entity)
      else Ok None
  end.

Definition traverse_with_read_context_unchecked (s : S) (req : TraverseRequest)
    (caller : option CallerIdentity) (attribution : option AuditAttribution) (include_system_links : bool)
    : result TraverseResponse AxonError :=
  let max_depth := depth_limit (tq_max_depth req) in
  let? found_start := sr_get s (tq_collection req) (tq_id req) in
  let? start_visible :=
    match found_start with
    | Some start => entity_visible_for_read_with_context s (tq_collection req) start caller attribution
    | None => Ok true
    end in
  if negb start_visible then Err (NotFound (tq_id req))
  else
    let? all_links := if include_system_links then load_all_links s else load_generic_links s in
    let? found :=
      breadth_first (near_end (tq_direction req)) (far_end (tq_direction req))
        (traverse_probe s (tq_hop_filter req) caller attribution) (fun _ => false)
        (fun path link entity => path ++ [{| th_link := link; th_entity := entity |}])
        (typed_links (tq_link_type req) all_links) max_depth (tq_collection req, tq_id req) [] in
    match found with
    | inl _ => Ok {| ts_entities := []; ts_paths := []; ts_links_traversed := [] |}
    | inr found =>
        Ok {| ts_entities := map (fun f => snd (fst f)) found; ts_paths := map snd found;
              ts_links_traversed := map (fun f => fst (fst f)) found |}
    end.

Definition reachable_probe (s : S) (caller : option CallerIdentity) (attribution : option AuditAttribution)
    (node : Node) : result (option unit) AxonError :=
  let? found := get_visible_entity_for_read_with_context s (fst node) (snd node) caller attribution in
  Ok (option_map (fun _ => tt) found).

Definition reachable_with_read_context_unchecked (s : S) (req : ReachableRequest)
    (caller : option CallerIdentity) (attribution : option AuditAttribution) (include_system_links : bool)
    : result ReachableResponse AxonError :=
  let max_depth := depth_limit (rq_max_depth req) in
  let? all_links := if include_system_links then load_all_links s else load_generic_links s in
  let source := (rq_source_collection req, rq_source_id req) in
  let target := (rq_target_collection req, rq_target_id req) in
  let? start := get_visible_entity_for_read_with_context s (fst source) (snd source) caller attribution in
  match start with
  | None => Ok {| rr_reachable := false; rr_depth := None |}
  | Some _ =>
      if bool_decide (source = target) then Ok {| rr_reachable := true; rr_depth := Some O |}
      else
        let? found :=
          breadth_first (near_end (rq_direction req)) (far_end (rq_direction req))
            (reachable_probe s caller attribution) (fun node => bool_decide (node = target))
            (fun path _ _ => path) (typed_links (rq_link_type req) all_links) max_depth source tt in
        match found with
        | inl d => Ok {| rr_reachable := true; rr_depth := Some d |}
        | inr _ => Ok {| rr_reachable := false; rr_depth := None |}
        end
  end.

Definition traverse_with_read_context (s : S) (req : TraverseRequest) (caller : option CallerIdentity)
    (attribution : option AuditAttribution) : result TraverseResponse AxonError :=
  let? _ := ensure_generic_collection_access reserved_payload (tq_collection req) OP_TRAVERSE in
  traverse_with_read_context_unchecked s req caller attribution false.

Definition reachable_with_read_context (s : S) (req : ReachableRequest) (caller : option CallerIdentity)
    (attribution : option AuditAttribution) : result ReachableResponse AxonError :=
  let? _ := ensure_generic_collection_access reserved_payload (rq_source_collection req) OP_TRAVERSE in
  let? _ := ensure_generic_collection_access reserved_payload (rq_target_collection req) OP_TRAVERSE in
  reachable_with_read_context_unchecked s req caller attribution false.
End Reads.
End Filters.
