(* ===== verification/Graph.v ===== *)
(** * The graph searches answer exactly

    [reachable] and [traverse] of the request handler, against the graph of the
    links whose far end the caller may see: the searches end, report the length
    of a shortest walk, and list every node within the depth limit once. *)

From S2P Require Import Prelude Json Ids Types Bfs IndexKeys AuditLog.
From S2P Require Import Schema PolicyPlan PolicyCycles PolicyCompile.
From S2P Require Import Rules Gates JsonOps AuthStore Roles Storage Catalog.
From S2P Require Import PolicyEval PolicyDecide Transactions Requests EntityWrites EntityReads.
Local Open Scope axon_scope.

(** ** Walks *)

Section Walks.
Context {K : Type}.

(** [b] is [n] steps from [a] and no fewer. *)
Definition shortest (R : relation K) (n : nat) (a b : K) : Prop :=
  bsteps R n a b /\ forall m, (m < n)%nat -> ~ bsteps R m a b.

Lemma bsteps_mono (R R' : relation K) n a b :
  (forall x y, R x y -> R' x y) -> bsteps R n a b -> bsteps R' n a b.
Proof. intros HR. induction 1; [constructor|]. eapply bsteps_l; eauto. Qed.

Lemma shortest_iff (R R' : relation K) n a b :
  (forall x y, R x y <-> R' x y) -> shortest R n a b <-> shortest R' n a b.
Proof.
  intros HR. unfold shortest.
  assert (Hb : forall m, bsteps R m a b <-> bsteps R' m a b).
  { intros m. split; apply bsteps_mono; intros x y; apply HR. }
  rewrite Hb. split; intros [? Hm]; (split; [done|]); intros m Hlt ?%Hb; by eapply Hm.
Qed.

Lemma shortest_unique (R : relation K) n m a b : shortest R n a b -> shortest R m a b -> n = m.
Proof.
  intros [Hn Hn'] [Hm Hm']. destruct (Nat.lt_trichotomy n m) as [?|[?|?]]; [|done|].
  - exfalso. by eapply Hm'.
  - exfalso. by eapply Hn'.
Qed.

End Walks.

(** ** The graph of a request *)

(** Three lists side by side, the latter two zipped. *)
Section Zipped.
Context {A B C : Type} (P : A -> B -> C -> Prop) (l : list A) (l1 : list B) (l2 : list C).
Hypothesis Hl2 : length l2 = length l.
Hypothesis Hl1 : length l1 = length l.
Hypothesis Hall : Forall2 (fun a bc => P a (fst bc) (snd bc)) l (zip l1 l2).

Lemma zipped_at i a : l !! i = Some a -> exists b c, l1 !! i = Some b /\ l2 !! i = Some c /\ P a b c.
Proof.
  intros Ha. destruct (Forall2_lookup_l _ _ _ _ _ Hall Ha) as ([b c] & Hz & Hp).
  apply lookup_zip_Some in Hz as [Hb Hc]. by exists b, c.
Qed.

Lemma zipped_first (Q : A -> B -> Prop) : (forall a b c, P a b c -> Q a b) -> Forall2 Q l l1.
Proof.
  intros HQ. apply Forall2_same_length_lookup. split; [done|].
  intros i a b Ha Hb. destruct (zipped_at i a Ha) as (b' & c & Hb' & _ & Hp). naive_solver.
Qed.

Lemma zipped_In a : In a l -> exists b c, In c l2 /\ P a b c.
Proof.
  intros [i Ha]%list_elem_of_In%list_elem_of_lookup. destruct (zipped_at i a Ha) as (b & c & _ & Hc & Hp).
  exists b, c. split; [|done]. by apply list_elem_of_In, (list_elem_of_lookup_2 _ i).
Qed.

Lemma zipped_In_last c : In c l2 -> exists a b, In a l /\ P a b c.
Proof.
  intros [i Hc]%list_elem_of_In%list_elem_of_lookup.
  destruct (lookup_lt_is_Some_2 l i) as [a Ha]; [rewrite <-Hl2; by eapply lookup_lt_Some|].
  destruct (zipped_at i a Ha) as (b & c' & _ & Hc' & Hp). exists a, b.
  split; [by apply list_elem_of_In, (list_elem_of_lookup_2 _ i)|]. congruence.
Qed.
End Zipped.

Section Requests.
Context `{SerdeNumber} {S : Type} `{!StorageReads S}.
Variable fuel depth : nat.
Variable s : S.
Variable caller : option CallerIdentity.
Variable attribution : option AuditAttribution.

(** A link of the requested type leads from [a] to [b], and [b] can be seen. *)
Definition edge {X} (links : list Link) (direction : TraverseDirection) (link_type : option string)
    (probe : Node -> result (option X) AxonError) (a b : Node) : Prop :=
  exists l x, In l links /\ (forall lt, link_type = Some lt -> l_link_type l = lt) /\
    near_end direction l = a /\ far_end direction l = b /\ probe b = Ok (Some x).

Lemma in_typed_links link_type links l :
  In l (typed_links link_type links) <-> In l links /\ forall lt, link_type = Some lt -> l_link_type l = lt.
Proof.
  unfold typed_links. rewrite filter_In. destruct link_type as [lt|]; simpl.
  - rewrite bool_decide_eq_true. naive_solver.
  - naive_solver.
Qed.

Lemma hop_edge {X} links direction link_type (probe : Node -> result (option X) AxonError) a b :
  hop (near_end direction) (far_end direction) probe (typed_links link_type links) a b <->
  edge links direction link_type probe a b.
Proof.
  unfold hop, edge. split; intros (l & x & Hl).
  - rewrite in_typed_links in Hl. exists l, x. tauto.
  - exists l, x. rewrite in_typed_links. tauto.
Qed.

Definition visible (node : Node) : result (option Entity) AxonError :=
  get_visible_entity_for_read_with_context fuel depth s (fst node) (snd node) caller attribution.

(** The links that a request searches. *)
Definition searched_links (include_system_links : bool) : result (list Link) AxonError :=
  if include_system_links then load_all_links s else load_generic_links s.

Definition reachable_edge (req : ReachableRequest) (links : list Link) : relation Node :=
  edge links (rq_direction req) (rq_link_type req) visible.

Lemma reachable_probe_edge req links a b :
  edge links (rq_direction req) (rq_link_type req) (reachable_probe fuel depth s caller attribution) a b <->
  reachable_edge req links a b.
Proof.
  unfold reachable_edge, edge, reachable_probe, visible.
  split; intros (l & x & Hin & Ht & Hn & Hf & Hp).
  - destruct (get_visible_entity_for_read_with_context _ _ _ _ _ _ _) as [[e|]| |] eqn:Hv; try done.
    exists l, e. split_and!; try done.
  - exists l, tt. rewrite Hp. by split_and!.
Qed.

Lemma reachable_answers req system links :
  searched_links system = Ok links ->
  (exists o, visible (rq_source_collection req, rq_source_id req) = Ok o) ->
  (forall l n, In l (typed_links (rq_link_type req) links) ->
     bsteps (reachable_edge req links) n (rq_source_collection req, rq_source_id req) (near_end (rq_direction req) l) ->
     exists o, visible (far_end (rq_direction req) l) = Ok o) ->
  exists r, reachable_with_read_context_unchecked fuel depth s req caller attribution system = Ok r /\
    rr_reachable r = bool_decide (is_Some (rr_depth r)) /\
    forall d, rr_depth r = Some d <->
      (exists e, visible (rq_source_collection req, rq_source_id req) = Ok (Some e)) /\
      (d <= depth_limit (rq_max_depth req))%nat /\
      shortest (reachable_edge req links) d (rq_source_collection req, rq_source_id req)
        (rq_target_collection req, rq_target_id req).
Proof.
  intros Hlinks [o Ho] Hvis. unfold reachable_with_read_context_unchecked.
  unfold searched_links in Hlinks. rewrite Hlinks. cbn [result_bind fst snd].
  unfold visible in Ho. cbn [fst snd] in Ho. rewrite Ho. cbn [result_bind].
  set (source := (rq_source_collection req, rq_source_id req)) in *.
  set (target := (rq_target_collection req, rq_target_id req)) in *.
  assert (Hvo : visible source = Ok o) by exact Ho.
  destruct o as [e|].
  2: { eexists. split; [done|]. split; [done|]. intros d. split; [done|].
       intros ((e & He) & _). congruence. }
  case_bool_decide as Heq.
  { eexists. split; [done|]. split; [done|]. intros d. rewrite <-Heq. split.
    - intros [= <-]. split; [by exists e|]. split; [lia|]. split; [constructor|lia].
    - intros (_ & _ & _ & Hmin). destruct d as [|d]; [done|]. exfalso. apply (Hmin 0); [lia|constructor]. }
  set (near := near_end _). set (far := far_end _).
  set (probe := reachable_probe fuel depth s caller attribution).
  set (ls := typed_links _ _).
  assert (Hprobe : forall l n, In l ls -> bsteps (hop near far probe ls) n source (near l) -> exists o, probe (far l) = Ok o).
  { intros l n Hl Hn. destruct (Hvis l n Hl) as [ov Hov].
    { eapply bsteps_mono; [|exact Hn]. intros x y. by rewrite <-reachable_probe_edge, <-hop_edge. }
    unfold probe, reachable_probe.
    unfold visible in Hov. fold far in Hov. rewrite Hov. eexists. reflexivity. }
  pose proof (breadth_first_spec near far probe (fun node => bool_decide (node = target))
    (fun (path : unit) _ _ => path) ls (depth_limit (rq_max_depth req)) source Hprobe
    (fun _ _ _ => True) ltac:(done) tt ltac:(by apply bool_decide_eq_false) I) as Hspec.
  assert (Hd : forall d, distance near far probe ls source d target <->
      shortest (reachable_edge req links) d source target).
  { intros d. apply (shortest_iff (hop near far probe ls)). intros x y.
    by rewrite <-reachable_probe_edge, <-hop_edge. }
  destruct (breadth_first _ _ _ _ _ _ _ _ _) as [[n|found]| |]; try done; cbn [result_bind].
  - destruct Hspec as (Hn & b & Hb & Hdist). apply bool_decide_eq_true in Hb as ->.
    eexists. split; [done|]. split; [done|]. simpl. intros d. split.
    + intros [= <-]. split; [by exists e|]. split; [done|]. by apply Hd.
    + intros (_ & _ & Hs). f_equal. apply Hd in Hs. eapply shortest_unique; [exact Hdist|exact Hs].
  - destruct Hspec as (Hall & _). eexists. split; [done|]. split; [done|]. simpl. intros d. split; [done|].
    intros (_ & Hle & Hs). apply Hd in Hs as [Hs _]. exfalso.
    destruct (Hall target) as [Hstop _]; [eapply bsteps_weaken; [exact Hle|exact Hs]|].
    by rewrite bool_decide_eq_false in Hstop.
Qed.

(** C21. [reachable] is exact.  When the visibility lookups of the nodes that can be
    reached answer, the search returns (it never runs out of nodes to expand), and
    it reports depth [d] precisely when the source is visible, [d] is within the depth limit
    (the requested one, 3 by default and never more than 10) and [d] is the
    length of a shortest walk to the target over links of the requested type and
    direction whose far ends the caller may see. *)
Theorem reachable_exact req system links :
  searched_links system = Ok links ->
  (exists o, visible (rq_source_collection req, rq_source_id req) = Ok o) ->
  (forall l n, In l (typed_links (rq_link_type req) links) ->
     bsteps (reachable_edge req links) n (rq_source_collection req, rq_source_id req) (near_end (rq_direction req) l) ->
     exists o, visible (far_end (rq_direction req) l) = Ok o) ->
  exists r, reachable_with_read_context_unchecked fuel depth s req caller attribution system = Ok r /\
    rr_reachable r = bool_decide (is_Some (rr_depth r)) /\
    forall d, rr_depth r = Some d <->
      (exists e, visible (rq_source_collection req, rq_source_id req) = Ok (Some e)) /\
      (d <= depth_limit (rq_max_depth req))%nat /\
      shortest (reachable_edge req links) d (rq_source_collection req, rq_source_id req)
        (rq_target_collection req, rq_target_id req).
Proof. apply reachable_answers. Qed.

(** *** Traversal *)

Definition traverse_edge (req : TraverseRequest) (links : list Link) : relation Node :=
  edge links (tq_direction req) (tq_link_type req)
    (traverse_probe fuel depth s (tq_hop_filter req) caller attribution).

(** The hops of a path lead from [a] to [b] along links of the request, and show
    the nodes as the caller may see them. *)
Fixpoint path_between (req : TraverseRequest) (links : list Link) (a : Node) (path : list TraverseHop)
    (b : Node) : Prop :=
  match path with
  | [] => a = b
  | h :: path =>
      In (th_link h) (typed_links (tq_link_type req) links) /\
      near_end (tq_direction req) (th_link h) = a /\
      traverse_probe fuel depth s (tq_hop_filter req) caller attribution
        (far_end (tq_direction req) (th_link h)) = Ok (Some (th_entity h)) /\
      path_between req links (far_end (tq_direction req) (th_link h)) path b
  end.

Lemma path_between_snoc req links a path l x :
  path_between req links a path (near_end (tq_direction req) l) ->
  In l (typed_links (tq_link_type req) links) ->
  traverse_probe fuel depth s (tq_hop_filter req) caller attribution (far_end (tq_direction req) l) = Ok (Some x) ->
  path_between req links a (path ++ [{| th_link := l; th_entity := x |}]) (far_end (tq_direction req) l).
Proof.
  revert a. induction path as [|h path IH]; intros a; simpl.
  - intros -> ? ?. by split_and!.
  - intros (? & ? & ? & ?) ? ?. split_and!; try done. by apply IH.
Qed.

(** What an entry of the answer shows: a node at its shortest distance, along a
    path of that length. *)
Definition hop_shown (req : TraverseRequest) (links : list Link) (start : Node) (link : Link) (entity : Entity)
    (path : list TraverseHop) : Prop :=
  let node := far_end (tq_direction req) link in
  traverse_probe fuel depth s (tq_hop_filter req) caller attribution node = Ok (Some entity) /\
  shortest (traverse_edge req links) (length path) start node /\
  path_between req links start path node.

Lemma traverse_answers req system links start :
  (tq_collection req, tq_id req) = start ->
  searched_links system = Ok links ->
  (sr_get s (fst start) (snd start) = Ok None \/
   exists e, visible start = Ok (Some e)) ->
  (forall l n, In l (typed_links (tq_link_type req) links) ->
     bsteps (traverse_edge req links) n start (near_end (tq_direction req) l) -> exists o,
     traverse_probe fuel depth s (tq_hop_filter req) caller attribution (far_end (tq_direction req) l) = Ok o) ->
  exists r, traverse_with_read_context_unchecked fuel depth s req caller attribution system = Ok r /\
    base.NoDup (start :: map (far_end (tq_direction req)) (ts_links_traversed r)) /\
    (forall node, node ∈ start :: map (far_end (tq_direction req)) (ts_links_traversed r) <->
       bsteps (traverse_edge req links) (depth_limit (tq_max_depth req)) start node) /\
    Forall2 (fun link ep => hop_shown req links start link (fst ep) (snd ep)) (ts_links_traversed r)
      (zip (ts_entities r) (ts_paths r)) /\
    length (ts_paths r) = length (ts_links_traversed r) /\ length (ts_entities r) = length (ts_links_traversed r).
Proof.
  intros Hstart Hlinks Hvis Hprobes. unfold traverse_with_read_context_unchecked.
  unfold searched_links in Hlinks. rewrite Hlinks.
  assert (Hgo : exists o, sr_get s (tq_collection req) (tq_id req) = Ok o /\
    match o with
    | Some start0 => entity_visible_for_read_with_context fuel depth s (tq_collection req) start0 caller attribution
    | None => Ok true
    end = Ok true).
  { subst start. unfold visible, get_visible_entity_for_read_with_context in Hvis. cbn [fst snd] in Hvis.
    destruct Hvis as [Hn|[e He]]; [by exists None|].
    destruct (sr_get s _ _) as [[e0|]| |]; try done. exists (Some e0). split; [done|].
    cbn [result_bind] in He. destruct (entity_visible_for_read_with_context _ _ _ _ _ _ _) as [[]| |]; done. }
  destruct Hgo as (o & -> & Hv). cbn [result_bind]. rewrite Hv. cbn [result_bind negb]. rewrite Hstart.
  set (near := near_end _). set (far := far_end _).
  set (probe := traverse_probe fuel depth s (tq_hop_filter req) caller attribution).
  set (ls := typed_links _ _).
  set (good := fun n k p => length p = n /\ path_between req links start p k).
  assert (Hprobe : forall l n, In l ls -> bsteps (hop near far probe ls) n start (near l) -> exists o, probe (far l) = Ok o).
  { intros l n Hl Hn. apply (Hprobes l n Hl). eapply bsteps_mono; [|exact Hn]. intros x y. apply hop_edge. }
  pose proof (breadth_first_spec near far probe (fun _ => false)
    (fun path link entity => path ++ [{| th_link := link; th_entity := entity |}])
    ls (depth_limit (tq_max_depth req)) start Hprobe good) as Hspec.
  assert (Hext : forall n a p l x, good n a p -> In l ls -> near l = a -> probe (far l) = Ok (Some x) ->
    good (Datatypes.S n) (far l) (p ++ [{| th_link := l; th_entity := x |}])).
  { intros n a p l x [Hn Hp] Hin Hnear Hpr. split; [rewrite length_app; simpl; lia|].
    apply path_between_snoc; [|done|done]. fold near. by rewrite Hnear. }
  specialize (Hspec Hext [] eq_refl (conj eq_refl eq_refl)).
  destruct (breadth_first _ _ _ _ _ _ _ _ _) as [[n|found]| |]; try done; cbn [result_bind].
  { by destruct Hspec as (_ & b & ? & _). }
  destruct Hspec as (Hall & Hnd & Hfound).
  assert (Hkeys : map far (map (fun f => fst (fst f)) found) = found_keys far found) by (by rewrite map_map).
  eexists. split; [done|]. cbn [ts_links_traversed ts_entities ts_paths]. rewrite !length_map. split_and!; try done.
  - by rewrite Hkeys.
  - intros node. rewrite Hkeys. split.
    + intros [->|Hin]%elem_of_cons; [constructor|].
      apply list_elem_of_In, in_map_iff in Hin as (f & <- & Hf).
      destruct (Hfound f Hf) as (n & Hn & [Hd _] & _). eapply bsteps_weaken; [apply Hn|].
      eapply bsteps_mono; [|exact Hd]. intros x y. apply hop_edge.
    + intros Hb. eapply (bsteps_mono _ (hop near far probe ls)) in Hb; [by apply Hall|].
      intros x y. apply hop_edge.
  - clear Hall Hnd Hkeys. induction found as [|[[l x] p] found IH]; cbn [map zip zip_with]; constructor.
    + destruct (Hfound _ (or_introl eq_refl)) as (n & _ & Hd & [Hlen Hp] & Hpr). cbn [fst snd] in *.
      split; [done|]. split; [|done]. rewrite Hlen.
      eapply shortest_iff; [|exact Hd]. intros a b. symmetry. apply hop_edge.
    + apply IH. intros f Hf. apply Hfound. by right.
Qed.

(** C22. [traverse] is exact.  When the lookups of the nodes that can be reached
    answer, the search returns.  The start node and the nodes of the returned
    entities are, without repetition, precisely the nodes that can be reached from
    the start within the depth limit, over links of the requested type and
    direction to nodes that the caller may see and the hop filter lets pass; each
    entity is shown as the caller may see it.  Every returned path leads along
    such links from the start to a node of the answer, showing its hops as the
    caller may see them, and every node of the answer has a returned path as long
    as its shortest distance. *)
Theorem traverse_exact req system links start :
  (tq_collection req, tq_id req) = start ->
  searched_links system = Ok links ->
  (sr_get s (fst start) (snd start) = Ok None \/
   exists e, visible start = Ok (Some e)) ->
  (forall l n, In l (typed_links (tq_link_type req) links) ->
     bsteps (traverse_edge req links) n start (near_end (tq_direction req) l) -> exists o,
     traverse_probe fuel depth s (tq_hop_filter req) caller attribution (far_end (tq_direction req) l) = Ok o) ->
  exists r nodes, traverse_with_read_context_unchecked fuel depth s req caller attribution system = Ok r /\
    base.NoDup (start :: nodes) /\
    (forall node, node ∈ start :: nodes <->
       bsteps (traverse_edge req links) (depth_limit (tq_max_depth req)) start node) /\
    Forall2 (fun node entity =>
      traverse_probe fuel depth s (tq_hop_filter req) caller attribution node = Ok (Some entity)) nodes (ts_entities r) /\
    (forall path, In path (ts_paths r) -> exists node, node ∈ nodes /\ path_between req links start path node) /\
    (forall node, node ∈ nodes -> exists path, In path (ts_paths r) /\
       path_between req links start path node /\ shortest (traverse_edge req links) (length path) start node).
Proof.
  intros Hstart Hlinks Hvis Hprobes.
  destruct (traverse_answers req system links start Hstart Hlinks Hvis Hprobes)
    as (r & Hr & Hnd & Hall & Hshown & Hlp & Hle).
  exists r, (map (far_end (tq_direction req)) (ts_links_traversed r)). split_and!; [done..| | |].
  - apply Forall2_fmap_l. apply (zipped_first _ _ _ _ Hle Hshown). by intros l e path [He _].
  - intros path Hp. destruct (zipped_In_last _ _ _ _ Hlp Hshown path Hp) as (l & e & Hl & _ & _ & Hb).
    exists (far_end (tq_direction req) l). split; [|exact Hb]. by apply list_elem_of_In, in_map.
  - intros node Hn%list_elem_of_In. apply in_map_iff in Hn as (l & <- & Hl).
    destruct (zipped_In _ _ _ _ Hshown l Hl) as (e & path & Hp & _ & Hs & Hb). by exists path.
Qed.
End Requests.
