(* ===== verification/QueryPlan.v ===== *)
(** * Query planning of the request handler ([crates/axon-api/src/handler.rs])

    The candidates of a query that secondary indexes can give: for the filter of
    the request, and for the rules of the read policy, with the diagnostics of the
    plan.

    [to_lowercase] is the Unicode conversion of the standard library, which only
    diagnostics use. *)

From S2P Require Import Prelude Json Ids Types Bfs IndexKeys Intents AuditLog.
From S2P Require Import Schema PolicyPlan PolicyCycles PolicyCompile.
From S2P Require Import Rules Gates JsonOps AuthStore Roles Storage Catalog.
From S2P Require Import PolicyEval PolicyDecide PolicyStatic Interface Transactions EntityWrites EntityReads.
From stdpp Require Import pretty.
Local Open Scope axon_scope.

(** ** Sets of ids *)

Definition union_entity_id_sets (sets : list (list EntityId)) : list EntityId :=
  ids_in_order (list_to_set (concat sets)).

Definition intersect_entity_ids (ids others : list EntityId) : list EntityId :=
  List.filter (fun id => bool_decide (id ∈ others)) ids.

Definition combine_candidate_ids (a b : option (list EntityId)) : option (list EntityId) :=
  match a, b with
  | Some ids, Some others => Some (intersect_entity_ids ids others)
  | Some ids, None | None, Some ids => Some ids
  | None, None => None
  end.

Section Plans.
Context `{RuleEnv}.

Record PolicyQueryPlanDiagnostics : Type := {
  qd_operation : string;
  qd_storage_filters : list string;
  qd_post_filter : bool;
  qd_missing_index : option string;
  qd_explain : list string
}.

Section Storage.
Context {S : Type} `{!StorageReads S}.
Variable fuel depth : nat.
Variable to_lowercase : string -> string.
Variable s : S.

(** ** Index lookups for a filter *)

(** The bounds of a comparison with an index value. *)
Definition filter_bounds (op : FilterOp) (val : IndexValue) : option (Bound IndexValue * Bound IndexValue) :=
  match op with
  | FGt => Some (Excluded val, Unbounded)
  | FGte => Some (Included val, Unbounded)
  | FLt => Some (Unbounded, Excluded val)
  | FLte => Some (Unbounded, Included val)
  | _ => None
  end.

Definition is_eq_op (op : FilterOp) : bool := match op with FEq => true | _ => false end.

(** The loop over the members of a conjunction. *)
Fixpoint and_lookup (collection : CollectionId) (schema : CollectionSchema) (filters : list FilterNode)
    : result (option (list EntityId)) AxonError :=
  match filters with
  | [] => Ok None
  | FField f :: rest =>
      match is_eq_op (ff_op f), find (fun i => bool_decide (ix_field i = ff_field f)) (cs_indexes schema) with
      | true, Some idx =>
          let? val := extract_index_value (ff_value f) (ix_type idx) in
          match val with
          | Some val => result_ok (sr_index_lookup s collection (ff_field f) val)
          | None => and_lookup collection schema rest
          end
      | _, _ => and_lookup collection schema rest
      end
  | _ :: rest => and_lookup collection schema rest
  end.

Definition try_index_lookup (collection : CollectionId) (filter : option FilterNode)
    (schema : option CollectionSchema) : result (option (list EntityId)) AxonError :=
  match filter, schema with
  | Some filter, Some schema =>
      if bool_decide (cs_indexes schema = []) then Ok None
      else
        match filter with
        | FField f =>
            match find (fun i => bool_decide (ix_field i = ff_field f)) (cs_indexes schema) with
            | None => Ok None
            | Some idx =>
                let? val := extract_index_value (ff_value f) (ix_type idx) in
                match val with
                | None => Ok None
                | Some val =>
                    if is_eq_op (ff_op f) then result_ok (sr_index_lookup s collection (ff_field f) val)
                    else
                      match filter_bounds (ff_op f) val with
                      | Some (lower, upper) => result_ok (sr_index_range s collection (ff_field f) lower upper)
                      | None => Ok None
                      end
                end
            end
        | FAnd filters => and_lookup collection schema filters
        | _ => Ok None
        end
  | _, _ => Ok None
  end.

(** ** Candidates of the read policy *)

Inductive PolicyRuleCandidatePlan : Type :=
| CandidatesAll
| CandidatesIndexed (entity_ids : list EntityId) (storage_filters : list string)
| CandidatesUnindexed (missing_index : option string).

Record PolicyStoragePlan : Type := {
  sp_candidate_ids : option (list EntityId);
  sp_post_filter : bool;
  sp_missing_index : option string;
  sp_storage_filters : list string;
  sp_explain : list string
}.
Definition storage_plan_default : PolicyStoragePlan := {|
  sp_candidate_ids := None; sp_post_filter := false; sp_missing_index := None; sp_storage_filters := [];
  sp_explain := [] |}.

Definition diagnostics (p : PolicyStoragePlan) : PolicyQueryPlanDiagnostics := {|
  qd_operation := policy_operation_as_str OpRead; qd_storage_filters := sp_storage_filters p;
  qd_post_filter := sp_post_filter p; qd_missing_index := sp_missing_index p; qd_explain := sp_explain p |}.

(** The lookup of one value; a value of another type has no entries. *)
Definition candidate_lookup (collection : CollectionId) (index : IndexDef) (field : string) (value : Value)
    : result (option (list EntityId)) AxonError :=
  let? index_value := extract_index_value value (ix_type index) in
  match index_value with
  | None => Ok (Some [])
  | Some index_value => result_ok (sr_index_lookup s collection field index_value)
  end.

Fixpoint candidate_lookups (collection : CollectionId) (index : IndexDef) (field : string)
    (values : list Value) : result (option (list (list EntityId))) AxonError :=
  match values with
  | [] => Ok (Some [])
  | v :: values =>
      let? ids := candidate_lookup collection index field v in
      match ids with
      | None => Ok None
      | Some ids =>
          let? rest := candidate_lookups collection index field values in
          Ok (option_map (cons ids) rest)
      end
  end.

Definition candidate_range (collection : CollectionId) (index : IndexDef) (field op_label : string)
    (value : Value) (bounds : IndexValue -> Bound IndexValue * Bound IndexValue)
    : result PolicyRuleCandidatePlan AxonError :=
  let? index_value := extract_index_value value (ix_type index) in
  match index_value with
  | None => Ok (CandidatesIndexed [] ["index:" +:+ field +:+ ":type_mismatch"])
  | Some iv =>
      let? ids := result_ok (sr_index_range s collection field (fst (bounds iv)) (snd (bounds iv))) in
      match ids with
      | None => Ok (CandidatesUnindexed (Some field))
      | Some ids => Ok (CandidatesIndexed ids ["index:" +:+ field +:+ ":" +:+ op_label])
      end
  end.

Definition policy_comparison_candidate_plan (collection : CollectionId) (schema : CollectionSchema)
    (comparison : CompiledComparison) (snapshot : PolicyRequestSnapshot)
    : result PolicyRuleCandidatePlan AxonError :=
  match cc_target comparison with
  | TSubject _ => Ok (CandidatesUnindexed None)
  | TField field =>
      match find (fun i => bool_decide (ix_field i = field)) (cs_indexes schema) with
      | None => Ok (CandidatesUnindexed (Some field))
      | Some index =>
          let labelled label ids :=
            match ids with
            | Some ids => Ok (CandidatesIndexed ids ["index:" +:+ field +:+ label])
            | None => Ok (CandidatesUnindexed (Some field))
            end in
          match cc_op comparison with
          | CoEq value =>
              let? ids := candidate_lookup collection index field value in
              labelled ":eq" ids
          | CoEqSubject subject | CoContainsSubject subject =>
              match policy_subject_value snapshot subject with
              | None => Ok (CandidatesIndexed [] ["index:" +:+ field +:+ ":subject_missing"])
              | Some value =>
                  let? ids := candidate_lookup collection index field value in
                  labelled (":subject:" +:+ subject) ids
              end
          | CoIn values =>
              let? sets := candidate_lookups collection index field values in
              labelled ":in" (option_map union_entity_id_sets sets)
          | CoGt value => candidate_range collection index field "gt" value (fun v => (Excluded v, Unbounded))
          | CoGte value => candidate_range collection index field "gte" value (fun v => (Included v, Unbounded))
          | CoLt value => candidate_range collection index field "lt" value (fun v => (Unbounded, Excluded v))
          | CoLte value => candidate_range collection index field "lte" value (fun v => (Unbounded, Included v))
          | _ => Ok (CandidatesUnindexed (Some field))
          end
      end
  end.

(** The entity at this end of the link, and the one at the other end. *)
Definition candidate_link (collection : CollectionId) (related : CompiledRelationshipPredicate) (link : Link)
    : option (EntityId * (CollectionId * EntityId)) :=
  match cr_direction related with
  | Outgoing =>
      if bool_decide (l_source_collection link = collection)
         && bool_decide (l_link_type link = cr_link_type related)
         && bool_decide (l_target_collection link = cr_target_collection related)
      then Some (l_source_id link, (l_target_collection link, l_target_id link)) else None
  | Incoming =>
      if bool_decide (l_target_collection link = collection)
         && bool_decide (l_link_type link = cr_link_type related)
         && bool_decide (l_source_collection link = cr_target_collection related)
      then Some (l_target_id link, (l_source_collection link, l_source_id link)) else None
  end.

Definition candidate_target_allowed (snapshot : PolicyRequestSnapshot) (operation : PolicyOperation)
    (target_collection : CollectionId) (target_id : EntityId) : result bool AxonError :=
  let? target := sr_get s target_collection target_id in
  match target with
  | None => Ok false
  | Some target =>
      let? target_schema := sr_get_schema s target_collection in
      match target_schema with
      | None => Ok false
      | Some target_schema =>
          let? target_plan := compile_policy_plan_for_schema fuel s target_schema in
          match target_plan with
          | None => Ok false
          | Some target_plan =>
              policy_operation_allows fuel s None depth target_plan
                (with_snapshot_collection target_collection snapshot) {|
                  oc_collection := target_collection; oc_entity_id := Some target_id;
                  oc_operation := operation; oc_data := entity_policy_data target;
                  oc_operation_index := None |}
          end
      end
  end.

Fixpoint related_candidates (collection : CollectionId) (related : CompiledRelationshipPredicate)
    (snapshot : PolicyRequestSnapshot) (links : list Link) : result (list EntityId) AxonError :=
  match links with
  | [] => Ok []
  | link :: rest =>
      match candidate_link collection related link with
      | None => related_candidates collection related snapshot rest
      | Some (candidate_id, (target_collection, target_id)) =>
          let? keep :=
            match cr_target_policy related with
            | None => Ok true
            | Some operation => candidate_target_allowed snapshot operation target_collection target_id
            end in
          let? ids := related_candidates collection related snapshot rest in
          Ok (if keep then candidate_id :: ids else ids)
      end
  end.

Definition link_direction_debug (d : LinkDirection) : string :=
  match d with Outgoing => "Outgoing" | Incoming => "Incoming" end.

Definition policy_related_candidate_plan (collection : CollectionId)
    (related : CompiledRelationshipPredicate) (snapshot : PolicyRequestSnapshot)
    : result PolicyRuleCandidatePlan AxonError :=
  let? links := load_all_links s in
  let? entity_ids := related_candidates collection related snapshot links in
  Ok (CandidatesIndexed (ids_in_order (list_to_set entity_ids))
        [to_lowercase ("link_index:" +:+ link_direction_debug (cr_direction related) +:+ ":" +:+
                       cr_link_type related)]).

(** The loops over the members of [all] and [any]. *)
Section Members.
Variable plan_of : CompiledPredicate -> result PolicyRuleCandidatePlan AxonError.

Fixpoint all_members (current : option (list EntityId)) (filters : list string)
    (predicates : list CompiledPredicate) : result PolicyRuleCandidatePlan AxonError :=
  match predicates with
  | [] => Ok (match current with
              | None => CandidatesAll
              | Some entity_ids => CandidatesIndexed entity_ids filters
              end)
  | p :: rest =>
      let? plan := plan_of p in
      match plan with
      | CandidatesAll => all_members current filters rest
      | CandidatesIndexed entity_ids storage_filters =>
          all_members (Some (match current with
                             | Some existing => intersect_entity_ids existing entity_ids
                             | None => entity_ids
                             end)) (filters ++ storage_filters) rest
      | CandidatesUnindexed missing_index => Ok (CandidatesUnindexed missing_index)
      end
  end.

Fixpoint any_members (id_sets : list (list EntityId)) (filters : list string)
    (predicates : list CompiledPredicate) : result PolicyRuleCandidatePlan AxonError :=
  match predicates with
  | [] => Ok (CandidatesIndexed (union_entity_id_sets id_sets) filters)
  | p :: rest =>
      let? plan := plan_of p in
      match plan with
      | CandidatesAll => Ok CandidatesAll
      | CandidatesIndexed entity_ids storage_filters =>
          any_members (id_sets ++ [entity_ids]) (filters ++ storage_filters) rest
      | CandidatesUnindexed missing_index => Ok (CandidatesUnindexed missing_index)
      end
  end.
End Members.

Fixpoint policy_predicate_candidate_plan (collection : CollectionId) (schema : CollectionSchema)
    (snapshot : PolicyRequestSnapshot) (predicate : CompiledPredicate)
    : result PolicyRuleCandidatePlan AxonError :=
  match predicate with
  | CpAll predicates =>
      all_members (policy_predicate_candidate_plan collection schema snapshot) None [] predicates
  | CpAny predicates =>
      any_members (policy_predicate_candidate_plan collection schema snapshot) [] [] predicates
  | CpCompare comparison => policy_comparison_candidate_plan collection schema comparison snapshot
  | CpRelated related => policy_related_candidate_plan collection related snapshot
  | CpOperation operation =>
      if bool_decide (operation = OpRead) then Ok CandidatesAll else Ok (CandidatesUnindexed None)
  | _ => Ok (CandidatesUnindexed None)
  end.

Definition policy_rule_candidate_plan (collection : CollectionId) (schema : CollectionSchema)
    (snapshot : PolicyRequestSnapshot) (rule : CompiledPolicyRule)
    : result PolicyRuleCandidatePlan AxonError :=
  let where_plan :=
    match rl_where rule with
    | Some predicate => policy_predicate_candidate_plan collection schema snapshot predicate
    | None => Ok CandidatesAll
    end in
  match option_map (policy_static_predicate_matches snapshot OpRead) (rl_when rule) with
  | Some (Some false) =>
      Ok (CandidatesIndexed [] ["rule:" +:+ policy_rule_label rule +:+ ":static_false"])
  | Some None => Ok (CandidatesUnindexed None)
  | Some (Some true) | None => where_plan
  end.

Definition get_or_insert {A} (o : option A) (a : A) : option A :=
  match o with Some _ => o | None => Some a end.

(** The loop over the deny rules: only their missing indexes are recorded. *)
Fixpoint deny_missing (collection : CollectionId) (schema : CollectionSchema)
    (snapshot : PolicyRequestSnapshot) (missing : option string) (rules : list CompiledPolicyRule)
    : result (option string) AxonError :=
  match rules with
  | [] => Ok missing
  | rule :: rest =>
      let? plan := policy_rule_candidate_plan collection schema snapshot rule in
      deny_missing collection schema snapshot
        (match plan with
         | CandidatesUnindexed (Some index) => get_or_insert missing index
         | _ => missing
         end) rest
  end.

(** The loop over the allow rules. *)
Record AllowPlan : Type := {
  al_indexed_rule_ids : list (list EntityId);
  al_all_rules_indexed : bool;
  al_allow_all : bool
}.

Fixpoint allow_plan (collection : CollectionId) (schema : CollectionSchema)
    (snapshot : PolicyRequestSnapshot) (a : AllowPlan) (output : PolicyStoragePlan)
    (rules : list CompiledPolicyRule) : result (AllowPlan * PolicyStoragePlan) AxonError :=
  match rules with
  | [] => Ok (a, output)
  | rule :: rest =>
      let? plan := policy_rule_candidate_plan collection schema snapshot rule in
      match plan with
      | CandidatesAll =>
          allow_plan collection schema snapshot
            {| al_indexed_rule_ids := al_indexed_rule_ids a;
               al_all_rules_indexed := al_all_rules_indexed a; al_allow_all := true |} output rest
      | CandidatesIndexed entity_ids storage_filters =>
          allow_plan collection schema snapshot
            {| al_indexed_rule_ids := al_indexed_rule_ids a ++ [entity_ids];
               al_all_rules_indexed := al_all_rules_indexed a; al_allow_all := al_allow_all a |}
            {| sp_candidate_ids := sp_candidate_ids output; sp_post_filter := sp_post_filter output;
               sp_missing_index := sp_missing_index output;
               sp_storage_filters := sp_storage_filters output ++ storage_filters;
               sp_explain := sp_explain output |} rest
      | CandidatesUnindexed missing_index =>
          allow_plan collection schema snapshot
            {| al_indexed_rule_ids := al_indexed_rule_ids a; al_all_rules_indexed := false;
               al_allow_all := al_allow_all a |}
            {| sp_candidate_ids := sp_candidate_ids output; sp_post_filter := true;
               sp_missing_index := match missing_index with
                                   | Some index => get_or_insert (sp_missing_index output) index
                                   | None => sp_missing_index output
                                   end;
               sp_storage_filters := sp_storage_filters output; sp_explain := sp_explain output |} rest
      end
  end.

Definition plan_policy (collection : CollectionId) (schema : CollectionSchema)
    (snapshot : PolicyRequestSnapshot) (output : PolicyStoragePlan) (policy : CompiledOperationPolicy)
    : result PolicyStoragePlan AxonError :=
  let? output :=
    match cp_deny policy with
    | [] => Ok output
    | deny =>
        let? missing := deny_missing collection schema snapshot (sp_missing_index output) deny in
        Ok {| sp_candidate_ids := sp_candidate_ids output; sp_post_filter := true;
              sp_missing_index := missing; sp_storage_filters := sp_storage_filters output;
              sp_explain := sp_explain output ++ ["deny rules require post_filter"] |}
    end in
  match cp_allow policy with
  | [] => Ok output
  | allow =>
      let? (a, output) := allow_plan collection schema snapshot
        {| al_indexed_rule_ids := []; al_all_rules_indexed := true; al_allow_all := false |} output allow in
      let finish ids explain := {|
        sp_candidate_ids := ids; sp_post_filter := sp_post_filter output;
        sp_missing_index := sp_missing_index output; sp_storage_filters := sp_storage_filters output;
        sp_explain := sp_explain output ++ [explain] |} in
      Ok (if al_allow_all a then finish None "allow rule covers all rows; no policy storage filter"
          else if al_all_rules_indexed a
          then finish (Some (union_entity_id_sets (al_indexed_rule_ids a)))
                 ("allow rules covered by " +:+ pretty (N.of_nat (length (sp_storage_filters output))) +:+
                  " storage filter(s)")
          else finish None "allow rules require bounded post_filter")
  end.

Fixpoint plan_policies (collection : CollectionId) (schema : CollectionSchema)
    (snapshot : PolicyRequestSnapshot) (output : PolicyStoragePlan) (policies : list CompiledOperationPolicy)
    : result PolicyStoragePlan AxonError :=
  match policies with
  | [] => Ok output
  | policy :: rest =>
      let? output := plan_policy collection schema snapshot output policy in
      plan_policies collection schema snapshot output rest
  end.

Definition plan_read_policy_storage_filters (collection : CollectionId) (schema : option CollectionSchema)
    (plan : PolicyPlan) (snapshot : PolicyRequestSnapshot) : result PolicyStoragePlan AxonError :=
  match schema with
  | None => Ok storage_plan_default
  | Some schema =>
      match applicable_operation_policies plan OpRead with
      | [] => Ok storage_plan_default
      | policies =>
          plan_policies collection schema snapshot
            {| sp_candidate_ids := None; sp_post_filter := false; sp_missing_index := None;
               sp_storage_filters := []; sp_explain := ["policy.read"] |} policies
      end
  end.
End Storage.
End Plans.
