(* ===== verification/Queries.v ===== *)
(** * Queries of the request handler ([crates/axon-api/src/handler.rs])

    Collection queries: the depth check of filters, filtering, sorting, cursors
    and limits; counts; snapshots of several collections and their page tokens. *)

From S2P Require Import Prelude Json Ids Types Bfs IndexKeys Intents AuditLog.
From S2P Require Import Schema PolicyPlan PolicyCycles PolicyCompile.
From S2P Require Import Rules Gates JsonOps AuthStore Roles Storage Catalog.
From S2P Require Import PolicyEval PolicyDecide PolicyStatic Interface Transactions Requests EntityWrites EntityReads QueryPlan.
From stdpp Require Import pretty.
Local Open Scope axon_scope.

(** [iter().position(p)] followed by [split_off(pos + 1)]. *)
Fixpoint split_after {A} (p : A -> bool) (l : list A) : option (list A) :=
  match l with
  | [] => None
  | a :: l' => if p a then Some l' else split_after p l'
  end.

(** [truncate(limit)], and whether anything was cut. *)
Definition cut {A} (limit : option nat) (l : list A) : list A * bool :=
  match limit with
  | None => (l, false)
  | Some n => (take n l, (n <? length l)%nat)
  end.

(** ** Page tokens *)

Definition colon : ascii := Eval compute in Stdlib.Strings.Ascii.ascii_of_nat 58.

Definition encode_snapshot_page_token (collection id : string) : string :=
  pretty (N.of_nat (String.length collection)) +:+ String colon (collection +:+ id).

(** [str::split_once(':')] *)
Fixpoint split_once (c : ascii) (s : string) : option (string * string) :=
  match s with
  | EmptyString => None
  | String a s' =>
      if decide (a = c) then Some (EmptyString, s')
      else match split_once c s' with Some (x, y) => Some (String a x, y) | None => None end
  end.

(** [str::parse::<usize>]: decimal digits with an optional plus sign. *)
Inductive ParseIntError : Type := IntEmpty | InvalidDigit | PosOverflow.

Definition parse_int_error_display (e : ParseIntError) : string :=
  match e with
  | IntEmpty => "cannot parse integer from empty string"
  | InvalidDigit => "invalid digit found in string"
  | PosOverflow => "number too large to fit in target type"
  end.

Definition digit_value (c : ascii) : option N :=
  let n := Stdlib.Strings.Ascii.N_of_ascii c in
  if (48 <=? n)%N && (n <=? 57)%N then Some (n - 48)%N else None.

Definition usize_MAX : N := (2 ^ 64 - 1)%N.

Fixpoint parse_digits (acc : N) (s : string) : result N ParseIntError :=
  match s with
  | EmptyString => Ok acc
  | String c s' =>
      match digit_value c with
      | None => Err InvalidDigit
      | Some d =>
          let acc := (acc * 10 + d)%N in
          if (usize_MAX <? acc)%N then Err PosOverflow else parse_digits acc s'
      end
  end.

Definition plus_sign : ascii := Eval compute in Stdlib.Strings.Ascii.ascii_of_nat 43.

Definition parse_usize (s : string) : result N ParseIntError :=
  match s with
  | EmptyString => Err IntEmpty
  | String c s' =>
      if decide (c = plus_sign)
      then match s' with EmptyString => Err InvalidDigit | _ => parse_digits 0 s' end
      else parse_digits 0 s
  end.

(** [is_char_boundary] and [split_at] on the bytes of a string. *)
Fixpoint split_bytes (n : nat) (s : string) : string * string :=
  match n, s with
  | S n', String c s' => let '(x, y) := split_bytes n' s' in (String c x, y)
  | _, _ => (EmptyString, s)
  end.

Definition is_continuation (c : ascii) : bool :=
  let n := Stdlib.Strings.Ascii.N_of_ascii c in (128 <=? n)%N && (n <=? 191)%N.

Definition starts_char (s : string) : bool :=
  match s with EmptyString => true | String c _ => negb (is_continuation c) end.

Section Queries.
Context `{RuleEnv}.

Definition decode_snapshot_page_token (token : string) : result (string * string) AxonError :=
  match split_once colon token with
  | None => Err (InvalidArgument "malformed snapshot page token: missing length prefix")
  | Some (len_str, rest) =>
      match parse_usize len_str with
      | Err e => Err (InvalidArgument ("malformed snapshot page token: invalid length prefix: " +:+
                                       parse_int_error_display e))
      | Panic => Panic
      | Ok collection_len =>
          if (N.of_nat (String.length rest) <? collection_len)%N
          then Err (InvalidArgument "malformed snapshot page token: payload shorter than declared length")
          else
            let '(collection, id) := split_bytes (N.to_nat collection_len) rest in
            if negb ((collection_len =? 0)%N || starts_char id)
            then Err (InvalidArgument
                   "malformed snapshot page token: length prefix does not land on utf8 boundary")
            else Ok (collection, id)
      end
  end.

(** ** Requests *)

Inductive SortDirection : Type := Asc | Desc.
Record SortField : Type := { sf_field : string; sf_direction : SortDirection }.

Record QueryEntitiesRequest : Type := {
  qe_collection : CollectionId;
  qe_filter : option FilterNode;
  qe_sort : list SortField;
  qe_limit : option nat;
  qe_after_id : option EntityId;
  qe_count_only : bool
}.

Record QueryEntitiesResponse : Type := {
  qr_entities : list Entity;
  qr_total_count : nat;
  qr_next_cursor : option string;
  qr_policy_plan : option PolicyQueryPlanDiagnostics;
  qr_read_warnings : list ReadWarning
}.

(** ** The depth of a filter

    The loop over a stack; [fuel] bounds its iterations, one per node. *)

Fixpoint filter_depth_loop (fuel : nat) (stack : list (FilterNode * nat)) (max_depth : nat) : option nat :=
  match stack with
  | [] => Some max_depth
  | (node, depth) :: stack =>
      match fuel with
      | O => None
      | S fuel =>
          let max_depth := Nat.max max_depth depth in
          match node with
          | FAnd filters | FOr filters =>
              filter_depth_loop fuel (rev (map (fun child => (child, S depth)) filters) ++ stack) max_depth
          | _ => filter_depth_loop fuel stack max_depth
          end
      end
  end.

Fixpoint filter_size (node : FilterNode) : nat :=
  match node with
  | FAnd filters | FOr filters => S (list_sum (map filter_size filters))
  | _ => 1
  end.

Definition filter_depth (root : FilterNode) : nat :=
  default O (filter_depth_loop (filter_size root) [(root, 1%nat)] O).

Definition MAX_FILTER_DEPTH : nat := 32.

Section Storage.
Context {S : Type} `{!StorageReads S}.
Variable fuel depth : nat.
Variable reserved_payload : string -> string -> string.
Variable to_lowercase : string -> string.
Variable s : S.

(** ** Queries *)

Definition POLICY_POST_FILTER_COST_LIMIT : nat := 128.

(** The entities of the candidates that still exist. *)
Fixpoint fetch (collection : CollectionId) (ids : list EntityId) : result (list Entity) AxonError :=
  match ids with
  | [] => Ok []
  | eid :: ids =>
      let? e := sr_get s collection eid in
      let? rest := fetch collection ids in
      Ok (match e with Some e => e :: rest | None => rest end)
  end.

Definition fetch_candidates (collection : CollectionId) (candidates : option (list EntityId))
    : result (list Entity) AxonError :=
  match candidates with
  | Some ids => fetch collection ids
  | None => sr_range_scan s collection
  end.

(** Whether an entity passes the filter of the request. *)
Definition request_matches (schema : option CollectionSchema) (filter : option FilterNode) (entity : Entity)
    : result bool AxonError :=
  match filter with
  | None => Ok true
  | Some filter =>
      match has_gate_filter filter, schema with
      | true, Some schema =>
          match evaluate_gates fuel (cs_validation_rules schema) (cs_gates schema) (e_data entity) with
          | Some eval => Ok (apply_filter_with_gates filter (e_data entity) (Some eval))
          | None => Panic
          end
      | _, _ => Ok (apply_filter filter (e_data entity))
      end
  end.

Definition policy_allows (collection : CollectionId)
    (compiled : option PolicyPlan) (snapshot : option PolicyRequestSnapshot) (entity : Entity)
    : result bool AxonError :=
  match compiled, snapshot with
  | Some plan, Some snapshot => read_policy_allows_entity fuel s None depth collection plan snapshot entity
  | _, _ => Ok true
  end.

Fixpoint matching (collection : CollectionId) (schema : option CollectionSchema) (filter : option FilterNode)
    (compiled : option PolicyPlan) (snapshot : option PolicyRequestSnapshot) (all : list Entity)
    : result (list Entity) AxonError :=
  match all with
  | [] => Ok []
  | entity :: rest =>
      let? wanted := request_matches schema filter entity in
      let? kept := if wanted then policy_allows collection compiled snapshot entity else Ok false in
      let? matched := matching collection schema filter compiled snapshot rest in
      Ok (if kept then entity :: matched else matched)
  end.

Fixpoint sort_compare (sort : list SortField) (a b : Entity) : comparison :=
  match sort with
  | [] => Eq
  | sf :: rest =>
      let cmp := handler_compare_values (get_field_value (e_data a) (sf_field sf))
                   (get_field_value (e_data b) (sf_field sf)) in
      match cmp with
      | Eq => sort_compare rest a b
      | _ => match sf_direction sf with Asc => cmp | Desc => CompOpp cmp end
      end
  end.

Definition sort_matched (sort : list SortField) (matched : list Entity) : list Entity :=
  match sort with [] => matched | _ => sort_by (sort_compare sort) matched end.

(** The page after the cursor, and the cursor of the next one. *)
Definition page (after_id : option EntityId) (limit : option nat) (matched : list Entity)
    : result (list Entity * option EntityId) AxonError :=
  let? matched :=
    match after_id with
    | None => Ok matched
    | Some cursor_id =>
        match split_after (fun e => bool_decide (e_id e = cursor_id)) matched with
        | Some rest => Ok rest
        | None => Err (InvalidArgument ("cursor entity '" +:+ cursor_id +:+ "' not found in result set"))
        end
    end in
  let '(matched, has_more) := cut limit matched in
  Ok (matched, if has_more then option_map e_id (last matched) else None).

(** An entity as the client sees it: projected, redacted, under the name of the
    collection that the client used. *)
Definition prepare_one (collection : CollectionId) (compiled : option PolicyPlan)
    (snapshot : option PolicyRequestSnapshot) (entity : Entity)
    : result (Entity * list ReadWarning) AxonError :=
  let? (entity, warnings) := project_entity_for_lazy_read s collection entity in
  let? entity :=
    match compiled, snapshot with
    | Some plan, Some snapshot =>
        let? data := redact_entity_fields_for_read fuel s None depth plan snapshot entity in
        Ok (with_data data entity)
    | _, _ => Ok entity
    end in
  Ok (present_entity collection entity, warnings).

Fixpoint prepare (collection : CollectionId) (compiled : option PolicyPlan)
    (snapshot : option PolicyRequestSnapshot) (entities : list Entity)
    : result (list Entity * list ReadWarning) AxonError :=
  match entities with
  | [] => Ok ([], [])
  | entity :: rest =>
      let? (entity, warnings) := prepare_one collection compiled snapshot entity in
      let? (entities, more) := prepare collection compiled snapshot rest in
      Ok (entity :: entities, warnings ++ more)
  end.

(** Queries whose policy needs a missing index are refused above the limit. *)
Definition check_cost (collection : CollectionId) (storage_plan : PolicyStoragePlan) (scope : nat)
    : result unit AxonError :=
  match sp_missing_index storage_plan with
  | Some index =>
      if sp_post_filter storage_plan && (POLICY_POST_FILTER_COST_LIMIT <? scope)%nat
      then Err (PolicyDenied {|
             pd_reason := "policy_filter_unindexed"; pd_collection := collection; pd_entity_id := None;
             pd_field_path := None; pd_policy := None; pd_operation_index := None;
             pd_missing_index := Some index;
             pd_cost_limit := Some (Z.of_nat POLICY_POST_FILTER_COST_LIMIT);
             pd_candidate_count := Some (Z.of_nat scope) |})
      else Ok tt
  | None => Ok tt
  end.

Definition check_filter_depth (filter : option FilterNode) : result unit AxonError :=
  match filter with
  | Some f =>
      if (MAX_FILTER_DEPTH <? filter_depth f)%nat
      then Err (InvalidArgument ("filter tree depth " +:+ pretty (N.of_nat (filter_depth f)) +:+
                                 " exceeds maximum allowed depth " +:+
                                 pretty (N.of_nat MAX_FILTER_DEPTH)))
      else Ok tt
  | None => Ok tt
  end.

(** The policy of a query, the plan for it, and the sorted matches. *)
Record QueryMatched : Type := {
  qm_compiled : option PolicyPlan;
  qm_snapshot : option PolicyRequestSnapshot;
  qm_storage_plan : PolicyStoragePlan;
  qm_matched : list Entity
}.

Definition query_matched (collection : CollectionId) (filter : option FilterNode) (sort : list SortField)
    (caller : option CallerIdentity) (attribution : option AuditAttribution)
    : result QueryMatched AxonError :=
  let? _ := check_filter_depth filter in
  let? schema := sr_get_schema s collection in
  let? request_candidates := try_index_lookup s collection filter schema in
  let? snapshot := policy_snapshot_for_request s collection schema None caller attribution in
  let? compiled :=
    match schema, snapshot with
    | Some schema, Some _ => compile_policy_plan_for_schema fuel s schema
    | _, _ => Ok None
    end in
  let? storage_plan :=
    match compiled, snapshot with
    | Some plan, Some snapshot => plan_read_policy_storage_filters fuel depth to_lowercase s collection schema plan snapshot
    | _, _ => Ok storage_plan_default
    end in
  let candidates := combine_candidate_ids request_candidates (sp_candidate_ids storage_plan) in
  let? scope :=
    match candidates with Some ids => Ok (length ids) | None => sr_count s collection end in
  let? _ := check_cost collection storage_plan scope in
  let? all := fetch_candidates collection candidates in
  let? matched := matching collection schema filter compiled snapshot all in
  Ok {| qm_compiled := compiled; qm_snapshot := snapshot; qm_storage_plan := storage_plan;
        qm_matched := sort_matched sort matched |}.

Definition query_entities_with_read_context_unchecked (req : QueryEntitiesRequest)
    (caller : option CallerIdentity) (attribution : option AuditAttribution)
    : result QueryEntitiesResponse AxonError :=
  let collection := qe_collection req in
  let? m := query_matched collection (qe_filter req) (qe_sort req) caller attribution in
  let? (shown, next_cursor) := page (qe_after_id req) (qe_limit req) (qm_matched m) in
  let? (entities, read_warnings) :=
    if qe_count_only req then Ok ([], [])
    else prepare collection (qm_compiled m) (qm_snapshot m) shown in
  Ok {| qr_entities := entities; qr_total_count := length (qm_matched m); qr_next_cursor := next_cursor;
        qr_policy_plan := option_map (fun _ => diagnostics (qm_storage_plan m)) (qm_compiled m);
        qr_read_warnings := read_warnings |}.

Definition query_entities_with_read_context (req : QueryEntitiesRequest) (caller : option CallerIdentity)
    (attribution : option AuditAttribution) : result QueryEntitiesResponse AxonError :=
  let? _ := ensure_generic_collection_access reserved_payload (qe_collection req) OP_QUERY in
  query_entities_with_read_context_unchecked req caller attribution.

(** ** Counts *)

Record CountEntitiesRequest : Type := {
  cn_collection : CollectionId;
  cn_filter : option FilterNode;
  cn_group_by : option string
}.
Record CountGroup : Type := { cg_key : Value; cg_count : nat }.
Record CountEntitiesResponse : Type := { cn_total_count : nat; cn_groups : list CountGroup }.

Definition group_key (field : string) (e : Entity) : string :=
  match get_field_value (e_data e) field with
  | Some (JString s) => s
  | Some Null | None => "null"
  | Some other => value_text other
  end.

(** The [BTreeMap] of the counts, as its entries in order. *)
Definition count_groups (field : string) (matched : list Entity) : list CountGroup :=
  map (fun key => {| cg_key := if bool_decide (key = "null") then Null else JString key;
                     cg_count := length (List.filter (fun e => bool_decide (group_key field e = key)) matched) |})
    (ids_in_order (list_to_set (map (group_key field) matched))).

Definition count_entities (req : CountEntitiesRequest) : result CountEntitiesResponse AxonError :=
  let? _ := ensure_generic_collection_access reserved_payload (cn_collection req) OP_QUERY in
  let? schema := sr_get_schema s (cn_collection req) in
  let? candidates := try_index_lookup s (cn_collection req) (cn_filter req) schema in
  let? all := fetch_candidates (cn_collection req) candidates in
  let matched := List.filter (fun e => when_some (cn_filter req) (fun f => apply_filter f (e_data e))) all in
  Ok {| cn_total_count := length matched;
        cn_groups := match cn_group_by req with
                     | Some field => count_groups field matched
                     | None => []
                     end |}.

(** ** Snapshots *)

Record SnapshotRequest : Type := {
  ss_collections : option (list CollectionId);
  ss_limit : option nat;
  ss_after_page_token : option string
}.
Record SnapshotResponse : Type := {
  ss_entities : list Entity;
  ss_audit_cursor : Z;
  ss_next_page_token : option string
}.

Definition visible_audit_entries (entries : list AuditEntry) : list AuditEntry :=
  List.filter (fun e => negb (is_hidden_audit_collection (ae_collection e))) entries.

Fixpoint scan_collections (collections : list CollectionId) : result (list Entity) AxonError :=
  match collections with
  | [] => Ok []
  | c :: rest =>
      let? rows := sr_range_scan s c in
      let? more := scan_collections rest in
      Ok (map (present_entity c) rows ++ more)
  end.

Definition snapshot_compare (a b : Entity) : comparison :=
  then_cmp (String.compare (e_collection a) (e_collection b)) (String.compare (e_id a) (e_id b)).

(** The sorted entities of a snapshot. *)
Definition snapshot_rows (collections : option (list CollectionId)) : result (list Entity) AxonError :=
  let? collections :=
    match collections with
    | Some l =>
        let? _ := ensure_generic_collection_accesses reserved_payload l OP_QUERY in
        Ok l
    | None =>
        let? all := sr_list_collections s in
        Ok (visible_collection_ids all)
    end in
  let? all := scan_collections collections in
  Ok (sort_by snapshot_compare all).

Definition token_matches (cursor : string * string) (e : Entity) : bool :=
  bool_decide (e_collection e = fst cursor) && bool_decide (e_id e = snd cursor).

Definition snapshot_entities (req : SnapshotRequest) : result SnapshotResponse AxonError :=
  let? all := snapshot_rows (ss_collections req) in
  let audit_cursor :=
    match last (visible_audit_entries (sr_audit_entries s)) with Some e => ae_id e | None => 0%Z end in
  let? all :=
    match ss_after_page_token req with
    | None => Ok all
    | Some token =>
        let? cursor := decode_snapshot_page_token token in
        match split_after (token_matches cursor) all with
        | Some rest => Ok rest
        | None => Err (InvalidArgument ("snapshot page token '" +:+ token +:+
                                        "' does not match any entity in the snapshot"))
        end
    end in
  let '(all, has_more) := cut (ss_limit req) all in
  Ok {| ss_entities := all; ss_audit_cursor := audit_cursor;
        ss_next_page_token :=
          if has_more
          then option_map (fun e => encode_snapshot_page_token (e_collection e) (e_id e)) (last all)
          else None |}.
End Storage.
End Queries.
