(* ===== verification/QueryProofs.v ===== *)
(** * Queries: pages, tokens, filter depth

    Following the cursors of a query, or the page tokens of a snapshot, yields
    the whole answer; a page token reads back as the entity it names; the depth
    check measures the nesting of the filter. *)

From S2P Require Import Prelude Json Ids Types Bfs IndexKeys Intents AuditLog.
From S2P Require Import Schema PolicyPlan PolicyCycles PolicyCompile.
From S2P Require Import Rules Gates JsonOps AuthStore Roles Storage Catalog.
From S2P Require Import PolicyEval PolicyDecide PolicyStatic Interface Transactions Requests EntityWrites EntityReads.
From S2P Require Import QueryPlan Queries.
From stdpp Require Import pretty.
Local Open Scope axon_scope.

(** ** Decimal numbers *)

Lemma digit_value_pretty d : (d < 10)%N -> digit_value (pretty_N_char d) = Some d.
Proof.
  intros Hd. assert (Hin : In d [0; 1; 2; 3; 4; 5; 6; 7; 8; 9]%N) by (simpl; lia).
  repeat (destruct Hin as [<-|Hin]; [reflexivity|]). destruct Hin.
Qed.

Lemma parse_pretty_go x : forall s, (0 < x)%N -> (x <= usize_MAX)%N ->
  parse_digits 0 (pretty_N_go x s) = parse_digits x s.
Proof.
  induction (N.lt_wf_0 x) as [x _ IH]. intros s Hx Hm. rewrite pretty_N_go_step by done.
  assert (Hdiv : (x = 10 * (x / 10) + x mod 10)%N) by (apply N.div_mod; lia).
  assert (Hmod : (x mod 10 < 10)%N) by (apply N.mod_lt; lia).
  assert (Hlt : (x / 10 < x)%N) by (apply N.div_lt; lia).
  assert (Hstep : parse_digits (x / 10) (String (pretty_N_char (x mod 10)) s) = parse_digits x s).
  { cbn [parse_digits]. rewrite digit_value_pretty by done.
    replace (x / 10 * 10 + x mod 10)%N with x by lia.
    by rewrite (proj2 (N.ltb_ge usize_MAX x)) by lia. }
  destruct (decide (x / 10 = 0)%N) as [E|E].
  - rewrite E, pretty_N_go_0. by rewrite E in Hstep.
  - rewrite IH by lia. exact Hstep.
Qed.

Lemma parse_digits_pretty n : (n <= usize_MAX)%N -> parse_digits 0 (pretty n) = Ok n.
Proof.
  intros Hn. unfold pretty, pretty_N. case_decide as E; [by subst|].
  rewrite parse_pretty_go by lia. reflexivity.
Qed.

Lemma split_once_digits s : forall acc n rest, parse_digits acc s = Ok n ->
  split_once colon (s +:+ String colon rest) = Some (s, rest).
Proof.
  induction s as [|c s IH]; intros acc n rest Hp; simpl.
  - reflexivity.
  - cbn [parse_digits] in Hp. destruct (digit_value c) as [d|] eqn:Hd; [|done].
    destruct (decide (c = colon)) as [->|_]; [discriminate Hd|].
    destruct (usize_MAX <? _)%N; [done|]. by erewrite IH.
Qed.

Lemma parse_usize_digits s n : s <> EmptyString -> parse_digits 0 s = Ok n -> parse_usize s = Ok n.
Proof.
  intros Hs Hp. destruct s as [|c s]; [done|]. cbn [parse_usize].
  destruct (decide (c = plus_sign)) as [->|_]; [discriminate Hp|done].
Qed.

Lemma pretty_not_empty (n : N) : pretty n <> EmptyString.
Proof.
  unfold pretty, pretty_N. case_decide as E; [done|].
  assert (Hgo : forall x s, s <> EmptyString -> pretty_N_go x s <> EmptyString).
  { intros x. induction (N.lt_wf_0 x) as [x _ IH]. intros s Hs.
    destruct (decide (x = 0)%N) as [->|]; [done|].
    rewrite pretty_N_go_step by lia. apply IH; [apply N.div_lt; lia|done]. }
  rewrite pretty_N_go_step by lia. by apply Hgo.
Qed.

Lemma split_bytes_app s t : split_bytes (String.length s) (s +:+ t) = (s, t).
Proof. induction s as [|c s IH]; simpl; [done|]. by rewrite IH. Qed.

Lemma length_append s t : String.length (s +:+ t) = (String.length s + String.length t)%nat.
Proof. induction s as [|c s IH]; simpl; [done|]. by rewrite IH. Qed.

Section Tokens.
Context `{RuleEnv}.

Lemma token_decodes collection id :
  (N.of_nat (String.length collection) <= usize_MAX)%N -> starts_char id = true ->
  decode_snapshot_page_token (encode_snapshot_page_token collection id) = Ok (collection, id).
Proof.
  intros Hlen Hid. pose proof (parse_digits_pretty _ Hlen) as Hp.
  unfold decode_snapshot_page_token, encode_snapshot_page_token.
  rewrite (split_once_digits _ _ _ _ Hp), (parse_usize_digits _ _ (pretty_not_empty _) Hp).
  rewrite length_append, (proj2 (N.ltb_ge _ _)) by lia.
  rewrite Nat2N.id, split_bytes_app, Hid. by rewrite orb_true_r.
Qed.

(** ** The depth of a filter *)

Fixpoint nesting (node : FilterNode) : nat :=
  match node with
  | FAnd filters | FOr filters => S (max_list (map nesting filters))
  | _ => 1
  end.

Lemma filter_size_pos node : (0 < filter_size node)%nat.
Proof. destruct node; simpl; lia. Qed.

(** What the stack still holds. *)
Definition stack_size (stack : list (FilterNode * nat)) : nat := list_sum (map (fun x => filter_size (fst x)) stack).
Definition stack_depth (stack : list (FilterNode * nat)) : nat :=
  max_list_with (fun x => (snd x + nesting (fst x) - 1)%nat) stack.

Lemma stack_size_app a b : stack_size (a ++ b) = (stack_size a + stack_size b)%nat.
Proof. unfold stack_size. by rewrite map_app, list_sum_app. Qed.

Lemma max_list_with_app {A} (f : A -> nat) a b :
  max_list_with f (a ++ b) = Nat.max (max_list_with f a) (max_list_with f b).
Proof. induction a as [|x a IH]; simpl; [done|]. rewrite IH. lia. Qed.

Lemma max_list_with_rev {A} (f : A -> nat) l : max_list_with f (rev l) = max_list_with f l.
Proof. induction l as [|x l IH]; simpl; [done|]. rewrite max_list_with_app, IH. simpl. lia. Qed.

Lemma list_sum_rev l : list_sum (rev l) = list_sum l.
Proof. induction l as [|x l IH]; simpl; [done|]. rewrite list_sum_app, IH. simpl. lia. Qed.

(** The children of a node on the stack. *)
Lemma children_size filters depth :
  stack_size (rev (map (fun child => (child, depth)) filters)) = list_sum (map filter_size filters).
Proof. unfold stack_size. by rewrite map_rev, list_sum_rev, map_map. Qed.

Lemma children_depth filters depth :
  Nat.max depth (stack_depth (rev (map (fun child => (child, S depth)) filters))) =
  (depth + S (max_list (map nesting filters)) - 1)%nat.
Proof.
  unfold stack_depth. rewrite max_list_with_rev.
  induction filters as [|f filters IH]; simpl; [lia|]. simpl in IH.
  assert (1 <= nesting f)%nat by (destruct f; simpl; lia). lia.
Qed.

Lemma filter_depth_loop_exact fuel : forall stack m,
  (stack_size stack <= fuel)%nat -> Forall (fun x => (0 < snd x)%nat) stack ->
  filter_depth_loop fuel stack m = Some (Nat.max m (stack_depth stack)).
Proof.
  induction fuel as [|fuel IH]; intros [|[node d] stack] m Hs Hd; cbn [filter_depth_loop];
    try (f_equal; unfold stack_depth; simpl; lia).
  { unfold stack_size in Hs. simpl in Hs. pose proof (filter_size_pos node). lia. }
  apply Forall_cons in Hd as [Hd0 Hd]. cbn [snd] in Hd0.
  assert (Hchildren : forall filters, Forall (fun x => (0 < snd x)%nat)
    (rev (map (fun child => (child, S d)) filters) ++ stack)).
  { intros filters. apply Forall_app. split; [|done]. apply Forall_forall. intros x Hx.
    apply list_elem_of_In in Hx. rewrite <-in_rev in Hx. apply in_map_iff in Hx as (? & <- & _). simpl. lia. }
  destruct node as [f|g|filters|filters].
  1,2: rewrite IH by (unfold stack_size in *; simpl in *; first [lia|done]); f_equal; unfold stack_depth; simpl; lia.
  all: rewrite IH by (first [apply Hchildren|rewrite stack_size_app, children_size; unfold stack_size in *; simpl in *; lia]);
    f_equal; pose proof (children_depth filters d) as Hc; unfold stack_depth in *; rewrite max_list_with_app;
    simpl in *; lia.
Qed.

(** The loop over the stack ends and measures the nesting of the filter. *)
Lemma filter_depth_exact node : filter_depth node = nesting node.
Proof.
  unfold filter_depth. rewrite filter_depth_loop_exact.
  - unfold stack_depth. simpl. lia.
  - unfold stack_size. simpl. lia.
  - repeat constructor.
Qed.
End Tokens.

(** ** Pages *)

Lemma split_after_app {A} (p : A -> bool) l1 a l2 :
  Forall (fun x => p x = false) l1 -> p a = true -> split_after p (l1 ++ a :: l2) = Some l2.
Proof.
  intros Hl Ha. induction Hl as [|x l Hx Hl IH]; simpl; [by rewrite Ha|]. by rewrite Hx.
Qed.

Lemma cut_spec {A} n (l : list A) :
  (0 < n)%nat ->
  (length l <= n /\ cut (Some n) l = (l, false))%nat \/
  exists l1 a l2, l = l1 ++ a :: l2 /\ (length (l1 ++ [a]) = n)%nat /\ l2 <> [] /\ cut (Some n) l = (l1 ++ [a], true).
Proof.
  intros Hn. unfold cut. destruct (Nat.ltb_spec n (length l)) as [Hlt|Hge].
  - right. destruct (exists_last (l := take n l)) as (l1 & a & E).
    { intros E. apply (f_equal length) in E. rewrite length_take in E. simpl in E. lia. }
    exists l1, a, (drop n l). split_and!.
    + rewrite <-(take_drop n l) at 1. by rewrite E, <-app_assoc.
    + rewrite <-E, length_take. lia.
    + intros Ed. apply (f_equal length) in Ed. rewrite length_drop in Ed. simpl in Ed. lia.
    + by rewrite E.
  - left. split; [done|]. by rewrite take_ge.
Qed.

Section Pages.
Context `{RuleEnv} {S : Type} `{!StorageReads S}.
Variable fuel depth : nat.
Variable to_lowercase : string -> string.
Variable s : S.

Abbreviation query := (query_entities_with_read_context_unchecked fuel depth to_lowercase s).
Abbreviation prep := (prepare fuel depth s).

(** The cursor of a client that has read the entities [seen]. *)
Definition cursor_after (seen : list Entity) : option EntityId := option_map e_id (last seen).

Lemma page_after (seen rest : list Entity) n :
  NoDup (map e_id (seen ++ rest)) -> (0 < n)%nat ->
  (length rest <= n)%nat /\ page (cursor_after seen) (Some n) (seen ++ rest) = Ok (rest, None) \/
  exists p more, rest = p ++ more /\ more <> [] /\ (0 < length p <= n)%nat /\
    page (cursor_after seen) (Some n) (seen ++ rest) = Ok (p, cursor_after (seen ++ p)) /\
    is_Some (cursor_after (seen ++ p)).
Proof.
  intros Hnd Hn.
  assert (Hskip : match cursor_after seen with
    | None => Ok (seen ++ rest)
    | Some cursor_id =>
        match split_after (fun e => bool_decide (e_id e = cursor_id)) (seen ++ rest) with
        | Some rest => Ok rest
        | None => Err (InvalidArgument ("cursor entity '" +:+ cursor_id +:+ "' not found in result set"))
        end
    end = Ok rest).
  { destruct seen as [|e0 seen0] using rev_ind; [done|]. clear IHseen0. unfold cursor_after.
    rewrite last_snoc. cbn [option_map]. rewrite <-app_assoc. cbn [app].
    rewrite split_after_app; [done| |by apply bool_decide_eq_true].
    apply Forall_forall. intros x Hx. apply bool_decide_eq_false. intros E.
    rewrite <-app_assoc, map_app in Hnd. cbn [app map] in Hnd. apply NoDup_app in Hnd as (_ & Hnd & _).
    eapply (Hnd (e_id e0)); [|left]. rewrite <-E. apply list_elem_of_In, in_map. by apply list_elem_of_In. }
  unfold page. rewrite Hskip. cbn [result_bind].
  destruct (cut_spec n rest Hn) as [[Hle ->]|(l1 & a & l2 & -> & Hlen & Hl2 & ->)]; [by left|right].
  assert (Hc : cursor_after (seen ++ l1 ++ [a]) = Some (e_id a)).
  { unfold cursor_after. by rewrite app_assoc, last_snoc. }
  exists (l1 ++ [a]), l2. rewrite Hc, last_snoc, <-app_assoc, Hlen. by split_and!.
Qed.

(** *** Preparing entities *)

Lemma prepare_cons collection compiled snapshot e l es ws :
  prep collection compiled snapshot (e :: l) = Ok (es, ws) <->
  exists e' w es' ws', prepare_one fuel depth s collection compiled snapshot e = Ok (e', w) /\
    prep collection compiled snapshot l = Ok (es', ws') /\ es = e' :: es' /\ ws = w ++ ws'.
Proof.
  cbn [prepare]. destruct (prepare_one _ _ _ _ _ _ _) as [[e' w]| |]; cbn [result_bind];
    [|split; [done|by intros (? & ? & ? & ? & ? & _)]..].
  destruct (prep collection compiled snapshot l) as [[es' ws']| |]; cbn [result_bind];
    [|split; [done|by intros (? & ? & ? & ? & _ & ? & _)]..].
  split; [intros [= <- <-]; by exists e', w, es', ws'|].
  by intros (? & ? & ? & ? & [= <- <-] & [= <- <-] & -> & ->).
Qed.

Lemma prepare_app collection compiled snapshot l1 l2 es ws :
  prep collection compiled snapshot (l1 ++ l2) = Ok (es, ws) ->
  exists es1 ws1 es2 ws2, prep collection compiled snapshot l1 = Ok (es1, ws1) /\
    prep collection compiled snapshot l2 = Ok (es2, ws2) /\ es = es1 ++ es2 /\ ws = ws1 ++ ws2.
Proof.
  revert es ws. induction l1 as [|e l1 IH]; intros es ws.
  - intros Hp. by exists [], [], es, ws.
  - intros (e' & w & es' & ws' & He & Hl & -> & ->)%prepare_cons.
    destruct (IH _ _ Hl) as (es1 & ws1 & es2 & ws2 & H1 & H2 & -> & ->).
    exists (e' :: es1), (w ++ ws1), es2, ws2. split_and!; try done; [|by rewrite app_assoc].
    apply prepare_cons. by exists e', w, es1, ws1.
Qed.

Lemma projected_id collection e e' w : project_entity_for_lazy_read s collection e = Ok (e', w) -> e_id e' = e_id e.
Proof.
  unfold project_entity_for_lazy_read. intros Hp.
  apply result_bind_ok in Hp as (active & _ & Hp).
  repeat case_match; try (apply result_bind_ok in Hp as (? & _ & Hp)); repeat case_match; by inv_res.
Qed.

Lemma prepare_one_id collection compiled snapshot e e' w :
  prepare_one fuel depth s collection compiled snapshot e = Ok (e', w) -> e_id e' = e_id e.
Proof.
  unfold prepare_one. intros ([e1 w1] & Hp & Hr)%result_bind_ok. apply projected_id in Hp as <-.
  apply result_bind_ok in Hr as (e2 & He & Hr). inv_res.
  destruct compiled, snapshot; inv_res; try done.
  apply result_bind_ok in He as (d & _ & He). by inv_res.
Qed.

Lemma prepare_ids collection compiled snapshot l es ws :
  prep collection compiled snapshot l = Ok (es, ws) -> map e_id es = map e_id l.
Proof.
  revert es ws. induction l as [|e l IH]; intros es ws; [by intros [= <- <-]|].
  intros (e' & w & es' & ws' & He & Hl & -> & ->)%prepare_cons. cbn [map].
  by rewrite (IH _ _ Hl), (prepare_one_id _ _ _ _ _ _ He).
Qed.

(** *** Following the cursors of a query *)

Definition with_page (after_id : option EntityId) (limit : option nat) (req : QueryEntitiesRequest)
    : QueryEntitiesRequest := {|
  qe_collection := qe_collection req; qe_filter := qe_filter req; qe_sort := qe_sort req;
  qe_limit := limit; qe_after_id := after_id; qe_count_only := qe_count_only req |}.

(** A client that asks for page after page until there is no next cursor. *)
Fixpoint follow_cursors (requests : nat) (n : nat) (req : QueryEntitiesRequest)
    (caller : option CallerIdentity) (attribution : option AuditAttribution) (after_id : option EntityId)
    : result (list (list Entity)) AxonError :=
  match requests with
  | O => Panic
  | Datatypes.S requests =>
      let? r := query (with_page after_id (Some n) req) caller attribution in
      match qr_next_cursor r with
      | None => Ok [qr_entities r]
      | Some cursor =>
          let? rest := follow_cursors requests n req caller attribution (Some cursor) in
          Ok (qr_entities r :: rest)
      end
  end.

(** One request of the client, in terms of the matches of the query. *)
Lemma query_page req caller attribution m after n :
  qe_count_only req = false ->
  query_matched fuel depth to_lowercase s (qe_collection req) (qe_filter req) (qe_sort req) caller attribution = Ok m ->
  query (with_page after n req) caller attribution =
    let? (shown, next_cursor) := page after n (qm_matched m) in
    let? (entities, read_warnings) := prep (qe_collection req) (qm_compiled m) (qm_snapshot m) shown in
    Ok {| qr_entities := entities; qr_total_count := length (qm_matched m); qr_next_cursor := next_cursor;
          qr_policy_plan := option_map (fun _ => diagnostics (qm_storage_plan m)) (qm_compiled m);
          qr_read_warnings := read_warnings |}.
Proof.
  intros Hc Hm. unfold query_entities_with_read_context_unchecked.
  cbn [with_page qe_collection qe_filter qe_sort qe_limit qe_after_id qe_count_only]. by rewrite Hm, Hc.
Qed.

Lemma follow_from req caller attribution m n :
  (0 < n)%nat -> qe_count_only req = false ->
  query_matched fuel depth to_lowercase s (qe_collection req) (qe_filter req) (qe_sort req) caller attribution = Ok m ->
  NoDup (map e_id (qm_matched m)) ->
  forall requests rest seen es ws, qm_matched m = seen ++ rest -> (length rest < requests)%nat ->
    prep (qe_collection req) (qm_compiled m) (qm_snapshot m) rest = Ok (es, ws) ->
    exists pages, follow_cursors requests n req caller attribution (cursor_after seen) = Ok pages /\
      concat pages = es /\ Forall (fun p => (length p <= n)%nat) pages.
Proof.
  intros Hn Hcount Hm Hnd. induction requests as [|requests IH]; intros rest seen es ws Heq Hlen Hprep; [lia|].
  cbn [follow_cursors]. rewrite (query_page _ _ _ _ _ _ Hcount Hm), Heq. rewrite Heq in Hnd.
  destruct (page_after seen rest n Hnd Hn) as [[Hle ->]|(p & more & -> & Hmore & Hp & -> & [c Hc])]; cbn [result_bind].
  - rewrite Hprep. cbn [result_bind qr_next_cursor qr_entities]. exists [es]. cbn [concat]. rewrite app_nil_r.
    split_and!; [done|done|]. constructor; [|constructor].
    apply prepare_ids, (f_equal length) in Hprep. rewrite !length_map in Hprep. lia.
  - apply prepare_app in Hprep as (es1 & ws1 & es2 & ws2 & H1 & H2 & -> & ->).
    rewrite H1. cbn [result_bind qr_next_cursor qr_entities]. rewrite Hc, <-Hc.
    rewrite app_assoc in Heq. rewrite length_app in Hlen.
    assert (Hl : (0 < length p)%nat) by apply Hp.
    destruct (IH more (seen ++ p) es2 ws2 Heq ltac:(lia) H2) as (pages & Hf & <- & Hall).
    rewrite Hf. cbn [result_bind]. exists (es1 :: pages). split_and!; [done|done|]. constructor; [|done].
    apply prepare_ids, (f_equal length) in H1. rewrite !length_map in H1. lia.
Qed.

(** C23. Paging through a query is complete.  On a store that does not change, and
    with page size [n] above 0, the client that follows the cursors from the start
    gets after finitely many requests (at most one per entity and one more) pages
    of at most [n] entities whose concatenation is exactly the answer of the
    unlimited query, in its order. *)
Theorem query_pages_complete req caller attribution n full
    (Hn : (0 < n)%nat) (Hcount : qe_count_only req = false)
    (Hfull : query (with_page None None req) caller attribution = Ok full)
    (Hids : NoDup (map e_id (qr_entities full))) :
  exists pages,
    follow_cursors (Datatypes.S (length (qr_entities full))) n req caller attribution None = Ok pages /\
    concat pages = qr_entities full /\ Forall (fun p => (length p <= n)%nat) pages.
Proof.
  destruct (query_matched fuel depth to_lowercase s (qe_collection req) (qe_filter req) (qe_sort req) caller attribution)
    as [m| |] eqn:Hm.
  2,3: unfold query_entities_with_read_context_unchecked in Hfull;
    cbn [with_page qe_collection qe_filter qe_sort] in Hfull; by rewrite Hm in Hfull.
  rewrite (query_page _ _ _ _ _ _ Hcount Hm) in Hfull. cbn [page cut result_bind] in Hfull.
  apply result_bind_ok in Hfull as ([es ws] & Hprep & [= <-]). cbn [qr_entities] in *.
  pose proof (prepare_ids _ _ _ _ _ _ Hprep) as Hi.
  assert (Hlen : length es = length (qm_matched m)).
  { apply (f_equal length) in Hi. by rewrite !length_map in Hi. }
  rewrite Hi in Hids. rewrite Hlen.
  apply (follow_from req caller attribution m n Hn Hcount Hm Hids _ (qm_matched m) [] es ws); [done|lia|done].
Qed.

(** *** Following the page tokens of a snapshot *)

Definition token_after (seen : list Entity) : option string :=
  option_map (fun e => encode_snapshot_page_token (e_collection e) (e_id e)) (last seen).

(** Names that a token can carry. *)
Definition nameable (e : Entity) : Prop :=
  (N.of_nat (String.length (e_collection e)) <= usize_MAX)%N /\ starts_char (e_id e) = true.

Definition row_key (e : Entity) : string * string := (e_collection e, e_id e).

(** A page token of a snapshot reads back as the collection and id of the
    entity that it names, whatever characters (colons and digits included) they
    hold, for names of a machine-word length and ids that start at a character. *)
Theorem page_token_roundtrip e (He : nameable e) :
  decode_snapshot_page_token (encode_snapshot_page_token (e_collection e) (e_id e)) = Ok (row_key e).
Proof. by apply token_decodes; apply He. Qed.

Variable reserved_payload : string -> string -> string.
Abbreviation snapshot := (snapshot_entities reserved_payload s).

Definition snapshot_page (collections : option (list CollectionId)) (n : option nat) (token : option string)
    : SnapshotRequest :=
  {| ss_collections := collections; ss_limit := n; ss_after_page_token := token |}.

Fixpoint follow_tokens (requests : nat) (collections : option (list CollectionId)) (n : nat)
    (token : option string) : result (list (list Entity)) AxonError :=
  match requests with
  | O => Panic
  | Datatypes.S requests =>
      let? r := snapshot (snapshot_page collections (Some n) token) in
      match ss_next_page_token r with
      | None => Ok [ss_entities r]
      | Some token =>
          let? rest := follow_tokens requests collections n (Some token) in
          Ok (ss_entities r :: rest)
      end
  end.

Lemma token_skips (seen rest : list Entity) :
  NoDup (map row_key (seen ++ rest)) -> Forall nameable (seen ++ rest) ->
  match token_after seen with
  | None => Ok (seen ++ rest)
  | Some token =>
      let? cursor := decode_snapshot_page_token token in
      match split_after (token_matches cursor) (seen ++ rest) with
      | Some rest => Ok rest
      | None => Err (InvalidArgument ("snapshot page token '" +:+ token +:+
                                      "' does not match any entity in the snapshot"))
      end
  end = Ok rest.
Proof.
  intros Hnd Hname. destruct seen as [|e0 seen0] using rev_ind; [done|]. clear IHseen0. unfold token_after.
  rewrite last_snoc. cbn [option_map]. rewrite <-app_assoc in *. cbn [app] in *.
  apply Forall_app in Hname as [_ [[Hlen Hid] _]%Forall_cons].
  rewrite (token_decodes _ _ Hlen Hid). cbn [result_bind].
  rewrite split_after_app; [done| |by unfold token_matches; rewrite !bool_decide_true by done].
  apply Forall_forall. intros x Hx. unfold token_matches. cbn [fst snd].
  apply not_true_iff_false. intros [Ec%bool_decide_eq_true Ei%bool_decide_eq_true]%andb_true_iff.
  rewrite map_app in Hnd. cbn [map] in Hnd. apply NoDup_app in Hnd as (_ & Hnd & _).
  eapply (Hnd (row_key e0)); [|left]. unfold row_key at 1. rewrite <-Ec, <-Ei.
  apply list_elem_of_In, (in_map row_key). by apply list_elem_of_In.
Qed.

Lemma tokens_from collections all n :
  (0 < n)%nat -> snapshot_rows reserved_payload s collections = Ok all ->
  NoDup (map row_key all) -> Forall nameable all ->
  forall requests rest seen, all = seen ++ rest -> (length rest < requests)%nat ->
    exists pages, follow_tokens requests collections n (token_after seen) = Ok pages /\
      concat pages = rest /\ Forall (fun p => (length p <= n)%nat) pages.
Proof.
  intros Hn Hall Hnd Hname. induction requests as [|requests IH]; intros rest seen Heq Hlen; [lia|].
  cbn [follow_tokens]. unfold snapshot_entities.
  cbn [snapshot_page ss_collections ss_limit ss_after_page_token]. rewrite Hall. cbn [result_bind].
  rewrite Heq. rewrite token_skips by (by rewrite <-Heq). cbn [result_bind].
  destruct (cut_spec n rest Hn) as [[Hle ->]|(l1 & a & l2 & -> & Hl & Hl2 & ->)].
  - cbn [result_bind ss_next_page_token ss_entities]. exists [rest]. cbn [concat]. rewrite app_nil_r.
    split_and!; [done|done|]. by repeat constructor.
  - rewrite last_snoc. cbn [result_bind ss_next_page_token ss_entities option_map].
    assert (Ht : token_after (seen ++ l1 ++ [a]) = Some (encode_snapshot_page_token (e_collection a) (e_id a))).
    { unfold token_after. by rewrite app_assoc, last_snoc. }
    rewrite <-Ht. rewrite !length_app in *. simpl in Hlen, Hl.
    destruct (IH l2 (seen ++ l1 ++ [a])) as (pages & -> & <- & Hpages);
      [by rewrite Heq, <-!app_assoc|lia|].
    cbn [result_bind]. exists ((l1 ++ [a]) :: pages). split_and!; [done|by cbn [concat]; rewrite <-app_assoc|].
    constructor; [|done]. rewrite length_app. simpl. lia.
Qed.

(** Paging through a snapshot is complete.  On a store that does not change,
    when the collections of the request contribute no row twice, following the
    page tokens from the start yields after finitely many requests pages of at
    most [n] entities whose concatenation is exactly the sorted snapshot. *)
Theorem snapshot_pages_complete collections all n
    (Hn : (0 < n)%nat) (Hall : snapshot_rows reserved_payload s collections = Ok all)
    (Hkeys : NoDup (map row_key all)) (Hnames : Forall nameable all) :
  exists pages, follow_tokens (Datatypes.S (length all)) collections n None = Ok pages /\
    concat pages = all /\ Forall (fun p => (length p <= n)%nat) pages.
Proof. apply (tokens_from collections all n Hn Hall Hkeys Hnames _ all []); [done|lia]. Qed.
End Pages.
