(* ===== verification/IndexQueries.v ===== *)
(** * Index lookups do not change answers

    A query that finds its candidates through a secondary index returns the same
    answer as the query that reads every row its policy leaves: for equality
    filters and conjunctions on the in-memory adapter. *)

From S2P Require Import Prelude Json Ids Types Bfs IndexKeys Intents AuditLog.
From S2P Require Import Schema PolicyPlan PolicyCycles PolicyCompile.
From S2P Require Import Rules Gates JsonOps AuthStore Roles Storage Catalog.
From S2P Require Import PolicyEval PolicyDecide PolicyStatic Interface MemoryRows.
From S2P Require Import Requests EntityWrites EntityReads QueryPlan Queries.
Local Open Scope axon_scope.

Lemma ids_in_order_sorted (ids : gset EntityId) : StronglySorted id_lt (ids_in_order ids).
Proof.
  apply (sort_by_sorted id_lt id_lt_trans); [done|apply id_gt|by intros a b _ _ E%String.compare_eq_iff|].
  apply base.NoDup_ListNoDup, NoDup_elements.
Qed.

Lemma somes_cons {A} (o : option A) l : somes (o :: l) = match o with Some a => a :: somes l | None => somes l end.
Proof. by destruct o. Qed.

(** ** Rows of the in-memory adapter *)

(** Documented behaviour of [serde_json::Number]: equal numbers read as the same
    integer. *)
Class SerdeNumberEq `{SerdeNumber} : Prop := {
  eq_as_i64 : forall a b, number_eqb a b = true -> number_as_i64 a = number_as_i64 b
}.

Section Rows.
Context `{RuleEnv} `{!SerdeNumberEq}.
Abbreviation Mem := MemoryStorageAdapter.
Variable s : Mem.
Variable c : CollectionId.
Variable k : QualifiedCollectionId.
Hypothesis Hkey : resolve_catalog_key s c = Ok k.
(** Rows are stored under their own ids. *)
Hypothesis Hrows : forall id e, stored s k id = Some e -> e_id e = id.

Definition row_lt (a b : Entity) : Prop := id_lt (e_id a) (e_id b).

Lemma row_lt_trans a b d : row_lt a b -> row_lt b d -> row_lt a d.
Proof. apply id_lt_trans. Qed.
Lemma row_lt_irrefl a : ~ row_lt a a.
Proof. apply id_lt_irrefl. Qed.

(** The scan lists the stored rows in the order of their ids. *)
Lemma scan_rows : exists rows, sr_range_scan s c = Ok rows /\ StronglySorted row_lt rows /\
  forall e, In e rows <-> stored s k (e_id e) = Some e.
Proof.
  cbn [sr_range_scan memory_reads]. unfold range_scan. rewrite Hkey. cbn [result_bind].
  destruct (s_data s !! k) as [col|] eqn:Hd;
    [|exists []; split_and!; [done|constructor|]; intros e; unfold stored; by rewrite Hd].
  assert (Hst : forall i, stored s k i = col !! i) by (intros i; unfold stored; by rewrite Hd).
  assert (Hrows' : forall id e, col !! id = Some e -> e_id e = id) by (intros; apply Hrows; by rewrite Hst).
  eexists. split; [reflexivity|]. cbn [truncate_opt when_some andb].
  assert (Hf : forall l : list Entity, List.filter (fun _ => true) l = l).
  { clear. induction l as [|a l IH]; simpl; [done|]. by rewrite IH. }
  rewrite Hf. clear Hf.
  assert (Hin : forall e, In e (map snd (map_to_list col)) <-> col !! e_id e = Some e).
  { intros e. rewrite in_map_iff. split.
    - intros ([i e'] & <- & Hi%list_elem_of_In%elem_of_map_to_list). cbn [snd]. by rewrite (Hrows' _ _ Hi).
    - intros He. exists (e_id e, e). split; [done|]. by apply list_elem_of_In, elem_of_map_to_list. }
  split; [|intros e; rewrite sort_by_In, Hst; apply Hin].
  apply (sort_by_sorted row_lt row_lt_trans); [done|intros; apply id_gt| |].
  - intros a b Ha%Hin Hb%Hin E%String.compare_eq_iff. congruence.
  - apply base.NoDup_ListNoDup. assert (Hm : NoDup (map e_id (map snd (map_to_list col)))).
    { rewrite map_map. rewrite (List.map_ext_in _ fst); [apply NoDup_fst_map_to_list|].
      intros [i e] Hi%list_elem_of_In%elem_of_map_to_list. by apply Hrows'. }
    by apply (NoDup_fmap_1 e_id).
Qed.

Lemma fetch_rows ids : fetch s c ids = Ok (somes (map (stored s k) ids)).
Proof.
  induction ids as [|i ids IH]; cbn [fetch map]; [done|]. rewrite somes_cons.
  cbn [sr_get memory_reads]. unfold get. rewrite Hkey. cbn [result_bind]. rewrite IH. cbn [result_bind].
  by destruct (stored s k i).
Qed.

Lemma fetched_rows ids : StronglySorted id_lt ids ->
  StronglySorted row_lt (somes (map (stored s k) ids)) /\
  forall e, In e (somes (map (stored s k) ids)) <-> In (e_id e) ids /\ stored s k (e_id e) = Some e.
Proof.
  assert (Hin : forall l e, In e (somes (map (stored s k) l)) <-> In (e_id e) l /\ stored s k (e_id e) = Some e).
  { intros l e. induction l as [|i l IH]; cbn [map]; [simpl; tauto|]. rewrite somes_cons.
    destruct (stored s k i) as [e'|] eqn:Hi; cbn [In]; rewrite IH; split.
    - intros [<-|[? ?]]; [rewrite (Hrows _ _ Hi); by split; [left|]|by split; [right|]].
    - intros [[->|?] Hs]; [left; congruence|by right].
    - intros [? ?]. by split; [right|].
    - intros [[->|?] Hs]; [congruence|done]. }
  intros Hs. split; [|apply Hin]. induction Hs as [|i l Hl IH Hi]; cbn [map]; [constructor|]. rewrite somes_cons.
  destruct (stored s k i) as [e|] eqn:He; [|done]. constructor; [done|].
  rewrite List.Forall_forall in *. intros x [Hx _]%Hin. unfold row_lt. rewrite (Hrows _ _ He). by apply Hi.
Qed.

(** ** Index entries of matching rows *)

(** Indexes whose values are compared as the filter compares them: a plain path
    (no array marker) and a string, integer or boolean. *)
Definition plain_type (ty : IndexType) : bool :=
  match ty with TString | TInteger | TBoolean => true | _ => false end.
Definition plain_index (d : IndexDef) : bool :=
  plain_type (ix_type d) && forallb (fun seg => bool_decide (IndexKeys.strip_brackets seg = None)) (split_on dot (ix_field d)).

Lemma collect_plain v segs :
  forallb (fun seg => bool_decide (IndexKeys.strip_brackets seg = None)) segs = true ->
  collect_index_json_values v segs = option_list (get_segments v segs).
Proof.
  revert v. induction segs as [|seg segs IH]; intros v; cbn [forallb collect_index_json_values get_segments]; [done|].
  intros [Hseg%bool_decide_eq_true Hsegs]%andb_true_iff. rewrite Hseg.
  destruct (value_get v seg); [by apply IH|done].
Qed.

Lemma extract_eq v w ty o :
  plain_type ty = true -> value_eqb v w = true -> extract_index_value (E := AxonError) w ty = Ok o ->
  extract_index_value (E := AxonError) v ty = Ok o.
Proof.
  intros Hty Heq <-. destruct ty; try discriminate Hty; cbn [extract_index_value];
    destruct v, w; cbn [value_eqb] in Heq; try discriminate Heq; try reflexivity.
  - apply bool_decide_eq_true in Heq. by subst.
  - cbn [as_i64]. by rewrite (eq_as_i64 _ _ Heq).
  - apply Bool.eqb_prop in Heq. by subst.
Qed.

Lemma index_keys_in data defs d keys vals v :
  In d defs -> index_keys data defs = Ok keys ->
  extract_index_values (E := AxonError) data (ix_field d) (ix_type d) = Ok vals -> In v vals -> In (ix_field d, v) keys.
Proof.
  revert keys. induction defs as [|d' defs IH]; intros keys; [done|].
  cbn [index_keys]. intros Hin (vals' & Hv & Hk)%result_bind_ok Hvals Hinv.
  apply result_bind_ok in Hk as (rest & Hrest & [= <-]). apply in_app_iff.
  destruct Hin as [->|Hin]; [|right; by eapply IH].
  left. rewrite Hvals in Hv. injection Hv as <-. by apply (in_map (fun v => (ix_field d, v))).
Qed.

Variables (single : list IndexDef) (compound : list CompoundIndexDef).
Hypothesis Hindexed : indexed s.
Hypothesis Hdefs : fixed_defs s k single compound.
Hypothesis Hplain : Forall (fun d => plain_index d = true) single.

(** The ids that a lookup returns, in order, hold every row that the filter
    wants. *)
Lemma eq_lookup f d val :
  find (fun i => bool_decide (ix_field i = ff_field f)) single = Some d ->
  extract_index_value (E := AxonError) (ff_value f) (ix_type d) = Ok (Some val) -> is_eq_op (ff_op f) = true ->
  exists ids, sr_index_lookup s c (ff_field f) val = Ok ids /\ StronglySorted id_lt ids /\
    (forall i, In i ids -> is_Some (stored s k i)) /\
    forall e, stored s k (e_id e) = Some e -> apply_field_filter f (e_data e) = true -> In (e_id e) ids.
Proof.
  intros [Hin Hd%bool_decide_eq_true]%find_some Hval Hop.
  cbn [sr_index_lookup memory_reads]. unfold index_lookup. rewrite Hkey. cbn [result_bind].
  eexists. split; [reflexivity|]. split.
  { destruct (s_indexes s !! _); [apply ids_in_order_sorted|constructor]. }
  destruct (Hindexed k single compound Hdefs) as (Hexact & _ & _ & _ & Hrix). split.
  { intros i Hi. assert (Hat : i ∈ ids_at (s_indexes s) (k, ff_field f, val)).
    { unfold ids_at. destruct (s_indexes s !! _); [by apply ids_in_order_In|done]. }
    apply Hexact in Hat as (e & _ & He & _). by exists e. }
  intros e Hs Hf.
  destruct (Hrix _ _ Hs) as [[keys Hkeys] _].
  assert (Hids : e_id e ∈ ids_at (s_indexes s) (k, ff_field f, val)).
  { apply Hexact. exists e, keys. split_and!; [done|done|]. rewrite <-Hd.
    rewrite List.Forall_forall in Hplain. destruct (andb_prop _ _ (Hplain d Hin)) as [Hty Hpath].
    unfold apply_field_filter in Hf. destruct (ff_op f); try discriminate Hop.
    unfold get_field_value in Hf. destruct (get_segments (e_data e) (split_on dot (ff_field f))) as [v|] eqn:Hv; [|done].
    eapply (index_keys_in (e_data e) single d keys [val]); [done|done| |by left].
    unfold extract_index_values. rewrite collect_plain by done. rewrite Hd, Hv.
    change (option_list (Some v)) with [v]. cbn [result_map]. by rewrite (extract_eq v (ff_value f) _ (Some val)). }
  unfold ids_at in Hids. destruct (s_indexes s !! _); [by apply ids_in_order_In|set_solver].
Qed.

(** A lookup for a filter that is not a range comparison. *)
Definition not_range (filter : FilterNode) : bool :=
  match filter with FField f => match ff_op f with FGt | FGte | FLt | FLte => false | _ => true end | _ => true end.

Lemma lookup_covers schema filter :
  cs_indexes schema = single ->
  (forall d v, In d single -> exists o, extract_index_value (E := AxonError) v (ix_type d) = Ok o) /\
  (not_range filter = true ->
   try_index_lookup s c (Some filter) (Some schema) = Ok None \/
   exists ids, try_index_lookup s c (Some filter) (Some schema) = Ok (Some ids) /\ StronglySorted id_lt ids /\
     (forall i, In i ids -> is_Some (stored s k i)) /\
     forall e, stored s k (e_id e) = Some e -> apply_filter filter (e_data e) = true -> In (e_id e) ids).
Proof.
  intros Hsch.
  assert (Htotal : forall d v, In d single -> exists o, extract_index_value (E := AxonError) v (ix_type d) = Ok o).
  { intros d v Hin. rewrite List.Forall_forall in Hplain. destruct (andb_prop _ _ (Hplain d Hin)) as [Hty _].
    destruct (ix_type d); try discriminate Hty; by eexists. }
  split; [exact Htotal|]. intros Hnr. cbn [try_index_lookup]. rewrite Hsch. case_bool_decide; [by left|].
  destruct filter as [f|g|filters|filters]; [|by left| |by left].
  - destruct (find _ single) as [d|] eqn:Hf; [|by left].
    destruct (Htotal d (ff_value f)) as [o Ho]; [by apply find_some in Hf as [? _]|]. rewrite Ho. cbn [result_bind].
    destruct o as [val|]; [|by left]. destruct (is_eq_op (ff_op f)) eqn:Hop.
    + right. destruct (eq_lookup f d val Hf Ho Hop) as (ids & -> & Hs & Hst & Hall). by exists ids.
    + left. cbn [not_range] in Hnr. by destruct (ff_op f).
  - enough (Hgo : and_lookup s c schema filters = Ok None \/
      exists ids, and_lookup s c schema filters = Ok (Some ids) /\ StronglySorted id_lt ids /\
        (forall i, In i ids -> is_Some (stored s k i)) /\
        forall e, stored s k (e_id e) = Some e -> forallb (fun f => apply_filter f (e_data e)) filters = true ->
          In (e_id e) ids) by exact Hgo.
    induction filters as [|sub rest IH]; cbn [and_lookup forallb]; [by left|].
    assert (Hskip : and_lookup s c schema rest = Ok None \/
      exists ids, and_lookup s c schema rest = Ok (Some ids) /\ StronglySorted id_lt ids /\
        (forall i, In i ids -> is_Some (stored s k i)) /\
        forall e, stored s k (e_id e) = Some e ->
          apply_filter sub (e_data e) && forallb (fun f => apply_filter f (e_data e)) rest = true -> In (e_id e) ids).
    { destruct (IH eq_refl) as [?|(ids & ? & ? & ? & Hall)]; [by left|right]. exists ids. split_and!; try done.
      intros e Hs [_ Hr]%andb_true_iff. by apply Hall. }
    destruct sub as [f|g|l|l]; [|exact Hskip..].
    rewrite Hsch. destruct (is_eq_op (ff_op f)) eqn:Hop; [|exact Hskip].
    destruct (find _ single) as [d|] eqn:Hf; [|exact Hskip].
    destruct (Htotal d (ff_value f)) as [o Ho]; [by apply find_some in Hf as [? _]|]. rewrite Ho. cbn [result_bind].
    destruct o as [val|]; [|exact Hskip].
    right. destruct (eq_lookup f d val Hf Ho Hop) as (ids & -> & Hs & Hst & Hall). exists ids. split_and!; [done|done|done|].
    intros e He [Hw _]%andb_true_iff. by apply Hall.
Qed.

(** ** The answers agree *)

Variable fuel depth : nat.

(** Entities that the filter does not want leave no trace. *)
Lemma matching_filter schema filter compiled snapshot all :
  has_gate_filter filter = false ->
  matching fuel depth s c schema (Some filter) compiled snapshot all =
  matching fuel depth s c schema (Some filter) compiled snapshot
    (List.filter (fun e => apply_filter filter (e_data e)) all).
Proof.
  intros Hg. assert (Hreq : forall e, request_matches fuel schema (Some filter) e = Ok (apply_filter filter (e_data e))).
  { intros e. unfold request_matches. by rewrite Hg. }
  induction all as [|e all IH]; cbn [matching List.filter]; [done|]. rewrite Hreq. cbn [result_bind].
  destruct (apply_filter filter (e_data e)) eqn:Hw; cbn [matching result_bind].
  - rewrite Hreq, Hw. cbn [result_bind]. by rewrite IH.
  - rewrite IH. match goal with |- _ = ?x => by destruct x end.
Qed.

(** The rows that a list of candidates leaves, narrowed by those of the filter. *)
Lemma narrowed_rows schema filter compiled snapshot ids others :
  has_gate_filter filter = false -> StronglySorted id_lt ids ->
  (forall e, stored s k (e_id e) = Some e -> apply_filter filter (e_data e) = true -> In (e_id e) ids) ->
  (forall l, others = Some l -> StronglySorted id_lt l) ->
  (let? all := fetch_candidates s c (combine_candidate_ids (Some ids) others) in
   matching fuel depth s c schema (Some filter) compiled snapshot all) =
  (let? all := fetch_candidates s c others in
   matching fuel depth s c schema (Some filter) compiled snapshot all).
Proof.
  intros Hg Hs Hall Hothers. destruct others as [l|]; cbn [combine_candidate_ids fetch_candidates].
  - rewrite !fetch_rows. cbn [result_bind]. specialize (Hothers l eq_refl).
    destruct (fetched_rows (intersect_entity_ids ids l)) as [Hfs Hfin]; [by apply sorted_filter|].
    destruct (fetched_rows l Hothers) as [Hls Hlin].
    rewrite (matching_filter _ _ _ _ (somes (map _ l)) Hg), (matching_filter _ _ _ _ (somes _) Hg). f_equal.
    apply (sorted_unique row_lt row_lt_trans row_lt_irrefl); [by apply sorted_filter..|].
    intros e. unfold intersect_entity_ids in Hfin. rewrite !filter_In, Hfin, Hlin, filter_In, bool_decide_eq_true,
      list_elem_of_In. naive_solver.
  - destruct scan_rows as (rows & -> & Hsort & Hin). rewrite fetch_rows. cbn [result_bind].
    destruct (fetched_rows ids Hs) as [Hfs Hfin].
    rewrite (matching_filter _ _ _ _ rows Hg), (matching_filter _ _ _ _ (somes _) Hg). f_equal.
    apply (sorted_unique row_lt row_lt_trans row_lt_irrefl); [by apply sorted_filter..|].
    intros e. rewrite !filter_In, Hfin, Hin. naive_solver.
Qed.

(** Candidates of the filter are never more than the rows. *)
Lemma candidates_counted ids : StronglySorted id_lt ids -> (forall i, In i ids -> is_Some (stored s k i)) ->
  exists n, sr_count s c = Ok n /\ length ids <= n.
Proof.
  intros Hs Hst. cbn [sr_count memory_reads]. unfold count. rewrite Hkey. cbn [result_bind].
  eexists. split; [reflexivity|]. assert (Hnd : NoDup ids) by exact (sorted_NoDup id_lt id_lt_irrefl _ Hs).
  unfold stored in Hst. destruct (s_data s !! k) as [col|].
  - replace (length ids) with (size (list_to_set ids : gset EntityId)) by by rewrite size_list_to_set.
    rewrite <-size_dom. apply subseteq_size. intros i Hi%elem_of_list_to_set%list_elem_of_In.
    apply elem_of_dom. by apply Hst.
  - destruct ids as [|i ids]; [done|]. by destruct (Hst i (or_introl eq_refl)).
Qed.

Lemma intersect_length ids l : StronglySorted id_lt ids -> length (intersect_entity_ids ids l) <= length l.
Proof.
  intros Hs. apply NoDup_incl_length.
  - apply base.NoDup_ListNoDup, (sorted_NoDup id_lt id_lt_irrefl). by apply sorted_filter.
  - intros i [_ Hi%bool_decide_eq_true]%filter_In. by apply list_elem_of_In.
Qed.
End Rows.

(** ** The candidates of a read policy are in order *)

Section PolicyCandidates.
Context `{RuleEnv} {S : Type} `{!StorageReads S}.
Variable fuel depth : nat.
Variable to_lowercase : string -> string.
Variable s : S.

Definition candidates_sorted (p : PolicyStoragePlan) : Prop :=
  forall ids, sp_candidate_ids p = Some ids -> StronglySorted id_lt ids.

Lemma allow_plan_ids collection schema snapshot a output rules a' output' :
  allow_plan fuel depth to_lowercase s collection schema snapshot a output rules = Ok (a', output') ->
  sp_candidate_ids output' = sp_candidate_ids output.
Proof.
  revert a output. induction rules as [|r rules IH]; intros a output; cbn [allow_plan]; [by intros [= _ <-]|].
  intros (plan & _ & Hr)%result_bind_ok. destruct plan; by apply IH in Hr.
Qed.

Lemma plan_policy_in_order collection schema snapshot output policy output' :
  plan_policy fuel depth to_lowercase s collection schema snapshot output policy = Ok output' ->
  candidates_sorted output -> candidates_sorted output'.
Proof.
  unfold plan_policy. intros (o & Ho & Hr)%result_bind_ok Hin.
  assert (Hino : candidates_sorted o).
  { destruct (cp_deny policy); [by injection Ho as <-|].
    apply result_bind_ok in Ho as (missing & _ & [= <-]). exact Hin. }
  destruct (cp_allow policy) as [|rule rules]; [by injection Hr as <-|].
  apply result_bind_ok in Hr as ([a out] & _ & Hr). cbv zeta in Hr. injection Hr as <-.
  intros ids. destruct (al_allow_all a); [done|]. destruct (al_all_rules_indexed a); [|done].
  intros [= <-]. apply ids_in_order_sorted.
Qed.

Lemma plan_in_order collection schema plan snapshot p :
  plan_read_policy_storage_filters fuel depth to_lowercase s collection schema plan snapshot = Ok p -> candidates_sorted p.
Proof.
  unfold plan_read_policy_storage_filters. destruct schema as [schema|]; [|by intros [= <-]].
  destruct (applicable_operation_policies plan OpRead) as [|q qs]; [by intros [= <-]|].
  match goal with |- plan_policies _ _ _ _ _ _ _ ?o _ = _ -> _ => assert (Ho : candidates_sorted o) by done; revert Ho; generalize o end.
  generalize (q :: qs). clear. intros policies.
  induction policies as [|policy rest IH]; intros o Ho; cbn [plan_policies]; [by intros [= <-]|].
  intros (o1 & H1 & Hr)%result_bind_ok. eapply IH; [|exact Hr]. by eapply plan_policy_in_order.
Qed.
End PolicyCandidates.

(** ** The reference: a query that reads every row that its policy leaves *)

Section Reference.
Context `{RuleEnv} {S : Type} `{!StorageReads S}.
Variable fuel depth : nat.
Variable to_lowercase : string -> string.
Variable s : S.

Definition scan_matched (collection : CollectionId) (filter : option FilterNode) (sort : list SortField)
    (caller : option CallerIdentity) (attribution : option AuditAttribution) : result QueryMatched AxonError :=
  let? _ := check_filter_depth filter in
  let? schema := sr_get_schema s collection in
  let? snapshot := policy_snapshot_for_request s collection schema None caller attribution in
  let? compiled :=
    match schema, snapshot with
    | Some schema, Some _ => compile_policy_plan_for_schema fuel s schema
    | _, _ => Ok None
    end in
  let? plan :=
    match compiled, snapshot with
    | Some plan, Some snapshot => plan_read_policy_storage_filters fuel depth to_lowercase s collection schema plan snapshot
    | _, _ => Ok storage_plan_default
    end in
  let? scope :=
    match sp_candidate_ids plan with Some ids => Ok (length ids) | None => sr_count s collection end in
  let? _ := check_cost collection plan scope in
  let? all := fetch_candidates s collection (sp_candidate_ids plan) in
  let? matched := matching fuel depth s collection schema filter compiled snapshot all in
  Ok {| qm_compiled := compiled; qm_snapshot := snapshot; qm_storage_plan := plan;
        qm_matched := sort_matched sort matched |}.

(** The page of the answer that the request asks for. *)
Definition answer (req : QueryEntitiesRequest) (m : QueryMatched) : result QueryEntitiesResponse AxonError :=
  let? (shown, next_cursor) := page (qe_after_id req) (qe_limit req) (qm_matched m) in
  let? (entities, read_warnings) :=
    if qe_count_only req then Ok ([], [])
    else prepare fuel depth s (qe_collection req) (qm_compiled m) (qm_snapshot m) shown in
  Ok {| qr_entities := entities; qr_total_count := length (qm_matched m); qr_next_cursor := next_cursor;
        qr_policy_plan := option_map (fun _ => diagnostics (qm_storage_plan m)) (qm_compiled m);
        qr_read_warnings := read_warnings |}.

Definition scan_query (req : QueryEntitiesRequest) (caller : option CallerIdentity)
    (attribution : option AuditAttribution) : result QueryEntitiesResponse AxonError :=
  let? m := scan_matched (qe_collection req) (qe_filter req) (qe_sort req) caller attribution in answer req m.
End Reference.

Section Cost.
Context `{SerdeNumber}.

(** The error of a query that would compare too many rows with its policy. *)
Definition cost_refusal (e : AxonError) : bool :=
  match e with PolicyDenied d => bool_decide (pd_reason d = "policy_filter_unindexed") | _ => false end.

(** Fewer candidates cost no more. *)
Lemma check_cost_fewer collection plan n m :
  n <= m -> check_cost collection plan m = Ok tt -> check_cost collection plan n = Ok tt.
Proof.
  unfold check_cost. intros Hle. destruct (sp_missing_index plan); [|done].
  destruct (sp_post_filter plan); [cbn [andb]|done].
  destruct (Nat.ltb_spec POLICY_POST_FILTER_COST_LIMIT m); [done|].
  destruct (Nat.ltb_spec POLICY_POST_FILTER_COST_LIMIT n); [lia|done].
Qed.

Lemma check_cost_cases collection plan n :
  check_cost collection plan n = Ok tt \/ exists e, check_cost collection plan n = Err e /\ cost_refusal e = true.
Proof.
  unfold check_cost. destruct (sp_missing_index plan); [|by left]. destruct (_ && _); [right|by left].
  by eexists.
Qed.
End Cost.

(** C12. Index lookups do not change the answer of a query.  On the in-memory
    adapter, take a collection whose rows are stored under their own ids and are
    indexed exactly (as its writes maintain them) by string, integer or boolean
    indexes on plain paths, and a query whose filter has no gate condition and is
    not a single range comparison; equal JSON numbers are assumed to read as the
    same integer.  The whole query - its checks, the candidates of its filter
    combined with those of its read policy, the cost limit, the policy filter, the
    sort, the page, the redaction - returns the same entities in the same order,
    the same total, cursor, diagnostics and warnings, or the same error, as the
    query that does not look its filter up in an index.  The one exception is a
    query that is refused without the lookup because its policy would have to
    filter more than 128 rows: with the lookup it can be answered. *)
Theorem index_query_exact `{RuleEnv} `{!SerdeNumberEq} (s : MemoryStorageAdapter) (k : QualifiedCollectionId)
    (single : list IndexDef) (compound : list CompoundIndexDef) (fuel depth : nat)
    (to_lowercase : string -> string) (req : QueryEntitiesRequest) (schema : CollectionSchema) (filter : FilterNode)
    (caller : option CallerIdentity) (attribution : option AuditAttribution)
    (Hkey : resolve_catalog_key s (qe_collection req) = Ok k)
    (Hget : get_schema s (qe_collection req) = Ok (Some schema))
    (Hrows : forall id e, stored s k id = Some e -> e_id e = id)
    (Hindexed : indexed s) (Hdefs : fixed_defs s k single compound)
    (Hplain : Forall (fun d => plain_index d = true) single) (Hschema : cs_indexes schema = single)
    (Hfilter : qe_filter req = Some filter)
    (Hgates : has_gate_filter filter = false) (Hrange : not_range filter = true) :
  let run := query_entities_with_read_context_unchecked fuel depth to_lowercase s req caller attribution in
  let scan := scan_query fuel depth to_lowercase s req caller attribution in
  run = scan \/ exists e, scan = Err e /\ cost_refusal e = true.
Proof.
  cbv zeta. set (c := qe_collection req) in *.
  enough (Hm : query_matched fuel depth to_lowercase s c (qe_filter req) (qe_sort req) caller attribution =
      scan_matched fuel depth to_lowercase s c (qe_filter req) (qe_sort req) caller attribution \/
      exists e, scan_matched fuel depth to_lowercase s c (qe_filter req) (qe_sort req) caller attribution = Err e /\
        cost_refusal e = true).
  { unfold scan_query. fold c. destruct Hm as [Hm|(e & Hm & He)]; [left|right; exists e; by rewrite Hm].
    rewrite <-Hm. reflexivity. }
  rewrite Hfilter. unfold query_matched, scan_matched. destruct (check_filter_depth (Some filter)) as [[]|e|]; [|by left..].
  cbn [result_bind]. change (sr_get_schema s c) with (get_schema s c). rewrite Hget. cbn [result_bind].
  destruct (lookup_covers s c k Hkey Hrows single compound Hindexed Hdefs Hplain schema filter Hschema) as [_ Hlook].
  destruct (Hlook Hrange) as [->|(ids & -> & Hs & Hst & Hall)]; cbn [result_bind].
  { left. repeat (match goal with |- result_bind ?m _ = _ => destruct m as [?|?|] end; cbn [result_bind]; [|done..]).
    by destruct (sp_candidate_ids _). }
  destruct (policy_snapshot_for_request s c (Some schema) None caller attribution) as [snapshot|e|]; [|by left..].
  cbn [result_bind].
  match goal with |- result_bind ?m _ = _ \/ _ => destruct m as [compiled|e|] end; [|by left..]. cbn [result_bind].
  match goal with |- result_bind ?m _ = _ \/ _ => destruct m as [plan|e|] eqn:Hplan end; [|by left..]. cbn [result_bind].
  assert (Hord : candidates_sorted plan).
  { destruct compiled, snapshot; try (by injection Hplan as <-). by eapply plan_in_order. }
  pose proof (narrowed_rows s c k Hkey Hrows fuel depth (Some schema) filter compiled snapshot ids
    (sp_candidate_ids plan) Hgates Hs Hall Hord) as Hsame.
  assert (Hscope : exists n, (match sp_candidate_ids plan with Some l => Ok (length l) | None => sr_count s c end) = Ok n /\
    exists m, (match combine_candidate_ids (Some ids) (sp_candidate_ids plan) with
               | Some l => Ok (length l) | None => sr_count s c end : result nat AxonError) = Ok m /\ m <= n).
  { destruct (sp_candidate_ids plan) as [l|]; cbn [combine_candidate_ids].
    - exists (length l). split; [done|]. eexists. split; [done|]. by apply intersect_length.
    - destruct (candidates_counted s c k Hkey ids Hs Hst) as (n & Hn & Hle). exists n. split; [done|]. by eexists. }
  destruct Hscope as (n & -> & m & -> & Hle). cbn [result_bind].
  destruct (check_cost_cases c plan n) as [Hc|(e & Hc & He)].
  - left. rewrite Hc, (check_cost_fewer c plan m n Hle Hc). cbn [result_bind].
    revert Hsame. destruct (fetch_candidates s c (combine_candidate_ids _ _)), (fetch_candidates s c (sp_candidate_ids plan));
      cbn [result_bind]; intros Hsame;
      first [by rewrite Hsame | by rewrite <-Hsame | by injection Hsame as -> | discriminate Hsame | done].
  - right. exists e. by rewrite Hc.
Qed.
