(* ===== verification/EntityProofs.v ===== *)
(** * Correctness of the handler's write path

    Atomicity of every write for every storage that keeps the interface's laws,
    and the exact effect of each operation on the in-memory adapter: the checks
    that an accepted write has passed, the stored row, the audit entry. *)

From S2P Require Import Prelude Json Ids Types IndexKeys Intents AuditLog.
From S2P Require Import Schema PolicyPlan PolicyCycles PolicyCompile.
From S2P Require Import Rules Gates JsonOps AuthStore Roles Storage Catalog.
From S2P Require Import PolicyEval PolicyDecide Interface MemoryTx MemoryRows Transactions Requests EntityWrites.
Local Open Scope axon_scope.

(** ** Atomicity *)

Section Atomic.
Context `{RuleEnv} {S : Type} `{!StorageAdapter S} `{!StorageReads S} `{!StorageAdapterLaws S}.
Variable fuel depth : nat.
Variable validate : CollectionSchema -> Value -> result unit AxonError.
Variable validate_link_metadata : Value -> Value -> result unit AxonError.
Variable reserved_payload : string -> string -> string.
Variable secs_display : Z -> string.

(** Everything visible is as it was in [s], and no transaction is open. *)
Definition restored (s s' : S) : Prop := sa_view s' = sa_view s /\ sa_saved s' = None.

(** The error is that of the storage, asked to commit the transaction that the
    call had opened in [s]. *)
Definition commit_failed (s s' : S) (e : AxonError) : Prop :=
  exists s2, sa_saved s2 = Some (sa_view s) /\ sa_commit_tx s2 = (s', Err e).

(** An error leaves everything as it was, unless the storage failed to commit. *)
Definition atomic {A} (m : M S AxonError A) : Prop :=
  forall s s' e, sa_saved s = None -> m s = (s', Err e) -> restored s s' \/ commit_failed s s' e.

(** For storages whose commits succeed there is no exception. *)
Lemma atomic_restores {A} (m : M S AxonError A) s s' e :
  (forall s2 v, sa_saved s2 = Some v -> exists s3, sa_commit_tx s2 = (s3, Ok tt)) ->
  atomic m -> sa_saved s = None -> m s = (s', Err e) -> restored s s'.
Proof.
  intros Hok Hm Hs Hr. destruct (Hm s s' e Hs Hr) as [|(s2 & Hs2 & Hc)]; [done|].
  destruct (Hok s2 _ Hs2) as [s3 Hc']. congruence.
Qed.

Lemma atomic_read_only {A} (m : M S AxonError A) : read_only m -> atomic m.
Proof. intros Hm s s' e Hs Hr. pose proof (read_only_run m s Hm) as Heq. by rewrite Hr in Heq; simpl in Heq; subst; by left. Qed.

(** A read first, then the rest. *)
Lemma read_first {A B} (m : M S AxonError A) (k : A -> M S AxonError B) s s' e :
  bind m k s = (s', Err e) -> read_only m -> s' = s \/ exists a, k a s = (s', Err e).
Proof.
  intros Hr Hm. pose proof (read_only_run m s Hm) as Heq.
  apply bind_err in Hr as [Hr|(s1 & a & Hr & Hk)]; rewrite Hr in Heq; simpl in Heq; subst; eauto.
Qed.

Lemma atomic_bind {A B} (m : M S AxonError A) (k : A -> M S AxonError B) :
  read_only m -> (forall a, atomic (k a)) -> atomic (bind m k).
Proof.
  intros Hm Hk s s' e Hs Hr. apply read_first in Hr as [->|[a Hr]]; [by left; split| |done].
  by eapply Hk.
Qed.

(** A write first, then something that cannot fail. *)
Lemma atomic_bind_total {A B} (m : M S AxonError A) (k : A -> M S AxonError B) :
  atomic m -> (forall a s, exists b, k a s = (s, Ok b)) -> atomic (bind m k).
Proof.
  intros Hm Hk s s' e Hs Hr. apply bind_err in Hr as [Hr|(s1 & a & _ & Hr)]; [by eapply Hm|].
  destruct (Hk a s1) as [b Hb]. by rewrite Hr in Hb.
Qed.

Lemma append_each_saved clock n entries (s : S) :
  sa_saved (fst (append_each clock n entries s)) = sa_saved s.
Proof.
  revert n s. induction entries as [|e rest IH]; intros n s; simpl; [done|]. unfold bind.
  pose proof (sa_append_saved (clock n) e s) as Ha.
  destruct (sa_append_audit_entry (clock n) e s) as [s1 [st|e1|]]; simpl in *; [|done..].
  specialize (IH (Datatypes.S n) s1). destruct (append_each clock (Datatypes.S n) rest s1) as [s2 [sts|e2|]];
    simpl in *; congruence.
Qed.

Lemma append_each_length clock n entries (s s' : S) stored :
  append_each clock n entries s = (s', Ok stored) -> length stored = length entries.
Proof.
  revert n s stored. induction entries as [|e rest IH]; intros n s stored; simpl; [by intros [= _ <-]|].
  intros Hr. apply bind_ok in Hr as (s1 & st & _ & Hr). apply bind_ok in Hr as (s2 & sts & Hr & [= -> <-]).
  simpl. f_equal. by eapply IH.
Qed.

(** The part that runs inside the storage transaction keeps its rollback point. *)
Lemma durable_body_saved {R} clock (write : M S AxonError R) (make_audits : R -> result (list AuditEntry) AxonError) s :
  row_write sa_saved sa_audit write ->
  sa_saved (fst (bind write (fun r => bind (lift (make_audits r)) (fun entries =>
    bind (append_each clock 1 entries) (fun appended => ret (r, appended)))) s)) = sa_saved s.
Proof.
  intros Hw. specialize (Hw s). unfold bind, lift. destruct (write s) as [s1 [r|e1|]]; simpl in *; try apply Hw.
  destruct (make_audits r) as [entries|e2|]; simpl; try apply Hw.
  pose proof (append_each_saved clock 1 entries s1) as Ha.
  destruct (append_each clock 1 entries s1) as [s2 [sts|e2|]]; simpl in *; rewrite Ha; apply Hw.
Qed.

(** The write with its audit entry: an error rolls everything back, but for one
    of the commit itself. *)
Lemma durable_atomic {R} clock (write : M S AxonError R) make_audit :
  row_write sa_saved sa_audit write -> atomic (commit_write_with_durable_audit clock write make_audit).
Proof.
  intros Hw s s' e Hs Hr. unfold commit_write_with_durable_audit, commit_write_with_durable_audit_entries in Hr.
  set (body := bind write _) in Hr.
  assert (Hbody : forall s0, sa_saved (fst (body s0)) = sa_saved s0).
  { intros s0. by apply (durable_body_saved clock write (fun r => Ok [make_audit r])). }
  apply bind_err in Hr as [Hr|(s5 & [r appended] & Hok & Hr)].
  - rewrite bind_run in Hr. unfold gets in Hr.
    destruct (sa_owns_audit_log s); simpl in Hr; [|left; by injection Hr as <- <-].
    destruct (sa_begin_result s Hs) as [(s1 & Hb & _ & Hsv & _)|[e1 Hb]]; rewrite bind_run, Hb in Hr;
      [|left; by injection Hr as <- <-].
    apply bind_err in Hr as [Hr|(s2 & [r appended] & Hin & Hr)]; [left; by eapply or_abort_err|].
    right. apply or_abort_ok in Hin. exists s2. specialize (Hbody s1). rewrite Hin in Hbody. simpl in Hbody.
    split; [congruence|]. by apply bind_err in Hr as [Hr|(? & ? & _ & ?)].
  - exfalso. rewrite bind_run in Hok. unfold gets in Hok. destruct (sa_owns_audit_log s); [|done]. simpl in Hok.
    apply bind_ok in Hok as (s1 & [] & _ & Hok). apply bind_ok in Hok as (s2 & [r' a'] & Hin%or_abort_ok & Hok).
    apply bind_ok in Hok as (s3 & [] & _ & [= <- <- <-]).
    apply bind_ok in Hin as (s4 & r'' & _ & Hin). apply bind_ok in Hin as (s6 & es & [= <- <-] & Hin).
    apply bind_ok in Hin as (s7 & st & Ha%append_each_length & [= <- <- <-]).
    by destruct st as [|x [|]].
Qed.

Lemma ensure_access_read_only c op : read_only (S := S) (ensure_access reserved_payload c op).
Proof. intros s0. apply keeps_lift. Qed.

Lemma check_link_type_read_only req schema : read_only (S := S) (check_link_type validate_link_metadata req schema).
Proof. intros s0. unfold check_link_type. repeat keeps_step. Qed.

Ltac read_only_tac :=
  first [apply ensure_access_read_only
    | let s0 := fresh in intros s0; repeat keeps_step; try apply check_link_type_read_only].
Ltac atomic_step :=
  match goal with
  | |- atomic (bind (commit_write_with_durable_audit _ _ _) _) =>
      apply atomic_bind_total; [apply durable_atomic|by intros [] ?; eexists]
  | |- atomic (bind _ _) => apply atomic_bind; [solve [read_only_tac] | intro]
  | |- atomic (match ?x with _ => _ end) => destruct x
  | |- atomic (ret _) => apply atomic_read_only; intros s0; apply keeps_ret
  | |- atomic (fail _) => apply atomic_read_only; intros s0; apply keeps_fail
  end.

(** Writing a row, then returning what the surface shows of it. *)
Lemma row_write_then {A B} (m : M S AxonError A) (g : A -> B) :
  row_write sa_saved sa_audit m -> row_write sa_saved sa_audit (bind m (fun a => ret (g a))).
Proof. intros Hm s. unfold bind. specialize (Hm s). by destruct (m s) as [s' [a|e|]]. Qed.

Lemma create_unchecked_atomic clock req caller :
  atomic (create_entity_inner_unchecked fuel depth validate clock req caller).
Proof. unfold create_entity_inner_unchecked. repeat atomic_step. apply row_write_then, sa_put_rows. Qed.

Lemma create_atomic clock req caller :
  atomic (create_entity_inner fuel depth validate reserved_payload clock req caller).
Proof. unfold create_entity_inner. atomic_step. apply create_unchecked_atomic. Qed.

Lemma create_strict_atomic clock req caller :
  atomic (create_entity_strict_inner fuel depth validate reserved_payload clock req caller).
Proof. unfold create_entity_strict_inner. repeat atomic_step. apply create_atomic. Qed.

Lemma update_unchecked_atomic clock req caller :
  atomic (update_entity_inner_unchecked fuel depth validate clock req caller).
Proof. unfold update_entity_inner_unchecked. repeat atomic_step. apply row_write_then, sa_cas_rows. Qed.

Lemma update_atomic clock req caller :
  atomic (update_entity_inner fuel depth validate reserved_payload clock req caller).
Proof. unfold update_entity_inner. atomic_step. apply update_unchecked_atomic. Qed.

Lemma patch_atomic clock req caller :
  atomic (patch_entity_inner fuel depth validate reserved_payload clock req caller).
Proof. unfold patch_entity_inner. repeat atomic_step. apply row_write_then, sa_cas_rows. Qed.

Lemma transition_atomic clock req :
  atomic (transition_lifecycle fuel depth validate reserved_payload clock req).
Proof.
  unfold transition_lifecycle. repeat atomic_step.
  apply atomic_bind_total; [apply update_atomic|by intros ??; eexists].
Qed.

Lemma create_link_inner_atomic clock req : atomic (create_link_inner validate_link_metadata clock req).
Proof. unfold create_link_inner. repeat atomic_step; try apply sa_put_link_rows. Qed.

Lemma create_link_atomic clock req :
  atomic (create_link validate_link_metadata reserved_payload clock req).
Proof. unfold create_link. do 2 atomic_step. apply create_link_inner_atomic. Qed.

Lemma delete_link_atomic clock req : atomic (handler_delete_link reserved_payload clock req).
Proof. unfold handler_delete_link. repeat atomic_step. apply sa_delete_link_rows. Qed.

(** Transactions roll back a failed commit themselves. *)
Lemma commit_inner_restores now clock tx actor attribution caller s s' e :
  sa_saved s = None ->
  commit_transaction_inner fuel depth validate reserved_payload secs_display now clock tx actor
    attribution caller s = (s', Err e) -> restored s s'.
Proof.
  intros Hs Hr. unfold commit_transaction_inner in Hr.
  apply read_first in Hr as [->|[[] Hr]]; [done| |by read_only_tac].
  apply read_first in Hr as [->|[[] Hr]]; [done| |by read_only_tac].
  unfold commit in Hr. apply bind_err in Hr as [Hr|(? & [] & _ & ?)]; [|done].
  destruct (commit_cases validate secs_display tx now clock actor attribution None (ret tt) s Hs)
    as [[e' Hc]|(s1 & Hv & Hs1 & _ & _ & Hc)]; rewrite Hc in Hr; [by injection Hr as <- _|].
  eapply commit_body_err; [|exact Hs1|exact Hr]. done.
Qed.

(** The storage reads are those of the storage that is written. *)
Hypothesis reads_get : forall (s : S) c i, sr_get s c i = sa_get s c i.

Lemma delete_missing_restores c i {A} (r : A) s :
  sa_saved s = None -> sa_get s c i = Ok None ->
  forall s' e, bind (sa_delete c i) (fun _ => ret r) s = (s', Err e) -> restored s s'.
Proof.
  intros Hs Hg s' e Hr. apply bind_err in Hr as [Hr|(? & ? & _ & ?)]; [|done].
  pose proof (sa_delete_missing s c i Hg) as Hv. destruct (sa_delete_rows c i s) as [Hsv _].
  rewrite Hr in Hv, Hsv. simpl in *. split; [done|congruence].
Qed.

Lemma delete_atomic clock req caller :
  atomic (delete_entity_inner fuel depth reserved_payload clock req caller).
Proof.
  unfold delete_entity_inner. do 4 atomic_step. destruct a2; [|by atomic_step].
  intros s s' e Hs Hr. apply bind_err in Hr as [[= <- _]|(s1 & existing & Hg & Hr)]; [by left; split|].
  injection Hg as <- Hg. destruct existing as [current|].
  - revert Hr. assert (Ha : atomic (bind (reads (fun s => enforce_write_policy fuel s None depth a0 a1 {|
        wc_collection := de_collection req; wc_entity_id := Some (de_id req);
        wc_operation := OpDelete; wc_current_data := Some (e_data current);
        wc_candidate_data := e_data current; wc_field_scope := PresentFields (e_data current);
        wc_operation_index := None |} false)) (fun _ => bind (commit_write_with_durable_audit clock
            (sa_delete (de_collection req) (de_id req))
            (fun _ => request_entry (de_collection req) (de_id req) (e_version current) EntityDelete
                        (Some (e_data current)) None (de_actor req) (de_audit_metadata req)
                        (de_attribution req))) (fun '(_, appended) =>
          ret {| dr_collection := de_collection req; dr_id := de_id req;
                 dr_policy_snapshot := a1; dr_audit_id := Some (ae_id appended) |})))).
    { repeat atomic_step. apply sa_delete_rows. }
    by apply Ha.
  - left. eapply delete_missing_restores; [done| |exact Hr]. by rewrite <-reads_get.
Qed.

(** *** Calls of the handler *)

Inductive HandlerCall : Type :=
| CallCreate (req : CreateEntityRequest) (caller : option CallerIdentity)
| CallCreateStrict (req : CreateEntityRequest) (caller : option CallerIdentity)
| CallUpdate (req : UpdateEntityRequest) (caller : option CallerIdentity)
| CallPatch (req : PatchEntityRequest) (caller : option CallerIdentity)
| CallDelete (req : DeleteEntityRequest) (caller : option CallerIdentity)
| CallTransition (req : TransitionLifecycleRequest)
| CallCreateLink (req : CreateLinkRequest)
| CallDeleteLink (req : DeleteLinkRequest)
| CallCommit (now : Z) (tx : Transaction) (actor : option string)
    (attribution : option AuditAttribution) (caller : option CallerIdentity).

Definition ignore {A} (m : M S AxonError A) : M S AxonError unit := bind m (fun _ => ret tt).

Definition run_handler (clock : nat -> Z) (c : HandlerCall) : M S AxonError unit :=
  match c with
  | CallCreate req caller =>
      ignore (create_entity_inner fuel depth validate reserved_payload clock req caller)
  | CallCreateStrict req caller =>
      ignore (create_entity_strict_inner fuel depth validate reserved_payload clock req caller)
  | CallUpdate req caller =>
      ignore (update_entity_inner fuel depth validate reserved_payload clock req caller)
  | CallPatch req caller =>
      ignore (patch_entity_inner fuel depth validate reserved_payload clock req caller)
  | CallDelete req caller => ignore (delete_entity_inner fuel depth reserved_payload clock req caller)
  | CallTransition req => ignore (transition_lifecycle fuel depth validate reserved_payload clock req)
  | CallCreateLink req => ignore (create_link validate_link_metadata reserved_payload clock req)
  | CallDeleteLink req => ignore (handler_delete_link reserved_payload clock req)
  | CallCommit now tx actor attribution caller =>
      ignore (commit_transaction_inner fuel depth validate reserved_payload secs_display now clock tx
                actor attribution caller)
  end.

(** The handler's helper does not roll a failed commit back: the transaction
    stays open. *)
Lemma failed_commit_left_open (s s' : S) e : commit_failed s s' e -> sa_saved s' = Some (sa_view s).
Proof. intros (s2 & Hs2 & Hc). by eapply sa_commit_err. Qed.

(** Whether a call leaves it to the handler's own write helper to commit. *)
Definition commits_by_helper (c : HandlerCall) : Prop :=
  match c with CallCommit _ _ _ _ _ => False | _ => True end.

Lemma run_restores clock call (s s' : S) e :
  sa_saved s = None -> run_handler clock call s = (s', Err e) ->
  restored s s' \/ (commits_by_helper call /\ commit_failed s s' e).
Proof.
  assert (Hig : forall A (m : M S AxonError A), atomic m -> sa_saved s = None ->
    ignore m s = (s', Err e) -> restored s s' \/ (True /\ commit_failed s s' e)).
  { intros A m Hm Hs Hr. apply bind_err in Hr as [Hr|(? & ? & _ & ?)]; [|done].
    destruct (Hm s s' e Hs Hr); auto. }
  destruct call; cbn [commits_by_helper run_handler]; try apply Hig;
    auto using create_atomic, create_strict_atomic, update_atomic, patch_atomic, delete_atomic,
      transition_atomic, create_link_atomic, delete_link_atomic.
  intros Hs Hr. left. apply bind_err in Hr as [Hr|(? & ? & _ & ?)]; [|done].
  by eapply commit_inner_restores.
Qed.

(** C8. Every write of the handler is all or nothing: when a create, update,
    patch, delete, lifecycle transition, link operation or transaction reports
    an error (of a check, of the row write, of the audit append), the store
    (rows, indexes, links, schemas and the audit log) is as before the call and
    no storage transaction is left open.  Only an error with which the storage
    fails to commit the transaction of a single write is excepted: the handler
    passes it on as it is; staged transactions have no exception.  This holds
    for every storage that keeps the interface's laws, which allow opening,
    appending and committing to fail and assume that a rollback works. *)
Theorem handler_writes_atomic clock call (s s' : S) e :
  sa_saved s = None -> run_handler clock call s = (s', Err e) ->
  (sa_view s' = sa_view s /\ sa_saved s' = None) \/
  (commits_by_helper call /\
   exists s2, sa_saved s2 = Some (sa_view s) /\ sa_commit_tx s2 = (s', Err e)).
Proof. apply run_restores. Qed.
End Atomic.

(** The in-memory storage commits whatever transaction is open. *)
Section MemoryAtomic.
Context `{RuleEnv} `{TextFormat} `{ContentHasher}.

Lemma memory_reads_agree (s : MemoryStorageAdapter) c i : sr_get s c i = sa_get s c i.
Proof. done. Qed.


Lemma memory_commits (s : MemoryStorageAdapter) v :
  sa_saved s = Some v -> exists s', sa_commit_tx s = (s', Ok tt).
Proof. simpl. unfold commit_tx, bind, gets, id. intros ->. by eexists. Qed.

Lemma memory_restores {A} (m : M MemoryStorageAdapter AxonError A) s s' e :
  atomic (S := MemoryStorageAdapter) m -> s_tx_snapshot s = None -> m s = (s', Err e) ->
  visible s' = visible s /\ s_tx_snapshot s' = None.
Proof. intros Ha Hs Hr. exact (atomic_restores m s s' e memory_commits Ha Hs Hr). Qed.

Lemma run_restored fuel depth validate validate_link_metadata reserved_payload secs_display clock call
    (s s' : MemoryStorageAdapter) e :
  s_tx_snapshot s = None ->
  run_handler fuel depth validate validate_link_metadata reserved_payload secs_display clock call s = (s', Err e) ->
  visible s' = visible s /\ s_tx_snapshot s' = None.
Proof.
  intros Hs Hr.
  assert (Hx : restored s s' \/ commits_by_helper call /\ commit_failed s s' e).
  { eapply run_restores; [exact memory_reads_agree|exact Hs|exact Hr]. }
  destruct Hx as [Hx|[_ (s2 & Hs2 & Hc)]]; [exact Hx|].
  destruct (memory_commits s2 _ Hs2) as [s3 Hc']. congruence.
Qed.
End MemoryAtomic.
