(* ===== verification/MemoryCommit.v ===== *)
(** * Commits on the in-memory adapter

    The transaction protocol of the file Transactions run on
    [MemoryStorageAdapter]: what a successful commit does to the rows, why a
    second transaction over the same version cannot commit, and the behaviour
    of the structural versions that guard scans. *)

From S2P Require Import Prelude Json Ids Types IndexKeys Intents AuditLog Schema.
From S2P Require Import AuthStore Storage Catalog Interface MemoryTx MemoryRows.
From S2P Require Import Transactions.

Section MemoryCommit.
Context `{SerdeNumber} `{TextFormat} `{ContentHasher}.
Variable validate : CollectionSchema -> Value -> result unit AxonError.
Variable secs_display : Z -> string.

Abbreviation Mem := MemoryStorageAdapter (only parsing).

(** ** The shape of a successful commit *)

Lemma append_all_memory clock n entries (s : Mem) :
  exists log, append_all (S := Mem) clock n entries s = (set_audit_log log s, Ok tt).
Proof.
  revert n s. induction entries as [|e rest IH]; intros n s; cbn [append_all].
  - exists (s_audit_log s). by destruct s.
  - destruct (append (s_audit_log s) (clock n) e) as [l1 e1] eqn:Ha.
    destruct (IH (S n) (set_audit_log l1 s)) as [log Hl]. exists log.
    unfold bind. cbn [sa_append_audit_entry memory_adapter]. unfold append_audit_entry.
    rewrite Ha. rewrite Hl. done.
Qed.

Lemma memory_commit_inv t now clock actor attribution (s s' : Mem) w :
  s_tx_snapshot s = None ->
  commit validate secs_display t now clock actor attribution s = (s', Ok w) ->
  exists s2 res log,
    apply_ops (context_of t actor attribution None) (tx_ops t)
      (set_tx_snapshot (Some (visible s)) s) = (s2, Ok res) /\
    s' = set_tx_snapshot None (set_audit_log log s2) /\ w = map fst res /\
    Forall (op_current validate s) (tx_ops t) /\
    (is_serializable (tx_isolation t) = true ->
      Forall (read_current s) (tx_reads t) /\
      Forall (scan_current (is_strict (tx_isolation t)) s) (tx_scan_reads t)).
Proof.
  intros Hs Hok. unfold commit in Hok. apply bind_ok in Hok as (s5 & [w' []] & Hok & Hr). injection Hr as <- <-. cbn [fst] in *.
  unfold commit_with_storage_hook in Hok. destruct (_ <? _)%Z; [done|].
  apply bind_ok in Hok as (s0 & o & [= <- <-] & Hok). cbn [negb sa_owns_audit_log memory_adapter] in Hok.
  apply bind_ok in Hok as (s1 & [] & Hb & Hok).
  cbn [sa_begin_tx memory_adapter] in Hb. unfold begin_tx in Hb. apply gets_inv in Hb.
  unfold Datatypes.id in Hb. rewrite Hs in Hb. unfold modify in Hb. injection Hb as <-.
  apply bind_ok in Hok as (s2 & res & Hx%or_abort_ok & Hok).
  apply bind_ok in Hok as (s3 & [] & Ha%or_abort_ok & Hok).
  apply bind_ok in Hok as (s4 & [] & Hh%or_abort_ok & Hok). injection Hh as <-.
  apply bind_ok in Hok as (s6 & [] & Hc%or_abort_ok & Hr). injection Hr as <- <-.
  apply execute_checked in Hx as (Hops & Hser & Hx).
  destruct (append_all_memory clock 0 (map snd res) s2) as [log Hl]. rewrite Hl in Ha.
  injection Ha as <-. exists s2, res, log. split; [exact Hx|].
  split; [|split_and!; [reflexivity | | exact Hser]].
  2: { eapply Forall_impl; [|exact Hops]. intros op. by apply op_current_view. }
  cbn [sa_commit_tx memory_adapter] in Hc. unfold commit_tx in Hc. apply gets_inv in Hc.
  unfold Datatypes.id in Hc. destruct (s_tx_snapshot (set_audit_log log s2)); [|done]. unfold modify in Hc.
  by injection Hc as <-.
Qed.

(** ** Rows an operation touches *)

(** Operation [op], run in a state that resolves names as [s] does, writes the
    row [i] of the collection [k]. *)
Definition touches (s : Mem) (op : StagedOp) (k : QualifiedCollectionId) (i : EntityId) : Prop :=
  match op with
  | SEntity o => resolve_catalog_key s (e_collection (wo_entity o)) = Ok k /\ i = e_id (wo_entity o)
  | SLinkCreate l | SLinkDelete l =>
      (resolve_catalog_key s links_collection = Ok k /\ i = link_storage_id l) \/
      (resolve_catalog_key s links_rev_collection = Ok k /\
       i = rev_storage_id (l_target_collection l) (l_target_id l) (l_source_collection l)
             (l_source_id l) (l_link_type l))
  end.

Lemma resolve_collections (s s' : Mem) c :
  s_collections s' = s_collections s -> resolve_catalog_key s' c = resolve_catalog_key s c.
Proof. intros Hc. unfold resolve_catalog_key, registered_catalog_keys. by rewrite Hc. Qed.

Lemma frame_collections {A} (m : M Mem AxonError A) s :
  frame_kept m -> s_collections (fst (m s)) = s_collections s.
Proof. intros Hm. specialize (Hm s). unfold frame in Hm. congruence. Qed.

Lemma touches_collections (s s' : Mem) op k i :
  s_collections s' = s_collections s -> touches s' op k i <-> touches s op k i.
Proof. intros Hc. destruct op; simpl; by rewrite ?(resolve_collections s s' _ Hc). Qed.

Lemma put_untouched e (s s' : Mem) k i :
  put e s = (s', Ok tt) -> ~ (resolve_catalog_key s (e_collection e) = Ok k /\ i = e_id e) ->
  stored s' k i = stored s k i.
Proof.
  intros (key & Hkey & Hst & _)%put_effect Hn. rewrite Hst. unfold row_set.
  repeat case_decide; naive_solver.
Qed.

Lemma delete_untouched c id (s s' : Mem) k i :
  delete_entity c id s = (s', Ok tt) -> ~ (resolve_catalog_key s c = Ok k /\ i = id) ->
  stored s' k i = stored s k i.
Proof.
  intros (key & Hkey & Hst & _)%delete_effect Hn. rewrite Hst. unfold row_set.
  repeat case_decide; naive_solver.
Qed.

Lemma put_link_inv l (s s' : Mem) :
  put_link l s = (s', Ok tt) ->
  exists s0 s1, s_data s0 = s_data s /\ s_collections s0 = s_collections s /\
    s_structural_versions s0 = s_structural_versions s /\ s_collections s1 = s_collections s /\
    put (link_to_entity l) s0 = (s1, Ok tt) /\ put (link_to_rev_entity l) s1 = (s', Ok tt).
Proof.
  unfold put_link. intros Hc. apply bind_ok in Hc as (s0 & [] & [= <-] & Hc).
  apply bind_ok in Hc as (s1 & [] & Hp1 & Hp2). eexists _, s1. split_and!; try eassumption; try done.
  pose proof (frame_collections _ (set_links (<[link_key_of l := l]> (s_links s)) s)
    (put_frame (link_to_entity l))) as Hc. rewrite Hp1 in Hc. exact Hc.
Qed.

Lemma delete_link_inv sc si lt tc ti (s s' : Mem) :
  delete_link sc si lt tc ti s = (s', Ok tt) ->
  exists s0 s1, s_data s0 = s_data s /\ s_collections s0 = s_collections s /\
    s_structural_versions s0 = s_structural_versions s /\ s_collections s1 = s_collections s /\
    delete_entity links_collection (storage_id sc si lt tc ti) s0 = (s1, Ok tt) /\
    delete_entity links_rev_collection (rev_storage_id tc ti sc si lt) s1 = (s', Ok tt).
Proof.
  unfold delete_link. intros Hc. apply bind_ok in Hc as (s0 & [] & [= <-] & Hc).
  apply bind_ok in Hc as (s1 & [] & Hp1 & Hp2). eexists _, s1. split_and!; try eassumption; try done.
  pose proof (frame_collections _ (set_links (delete (sc, si, lt, tc, ti) (s_links s)) s)
    (delete_frame links_collection (storage_id sc si lt tc ti))) as Hc. rewrite Hp1 in Hc. exact Hc.
Qed.

Lemma stored_data (s s' : Mem) k i : s_data s' = s_data s -> stored s' k i = stored s k i.
Proof. intros Hd. unfold stored. by rewrite Hd. Qed.

(** A staged operation leaves every row it does not touch as it is. *)
Lemma apply_op_untouched cx op (s s' : Mem) o k i :
  apply_op cx op s = (s', Ok o) -> ~ touches s op k i -> stored s' k i = stored s k i.
Proof.
  intros Ha Hn. destruct op as [op|l|l]; cbn [apply_op touches] in *.
  - destruct (wo_mutation op); try (by injection Ha as <-).
    + apply bind_ok in Ha as (s1 & [] & Hp & [= <- _]). exact (put_untouched _ _ _ k i Hp Hn).
    + apply bind_ok in Ha as (s1 & u & Hp & [= <- _]).
      apply compare_and_swap_effect in Hp as (key & c & Hkey & _ & _ & _ & Hst & _).
      rewrite Hst. unfold row_set. repeat case_decide; naive_solver.
    + apply bind_ok in Ha as (s1 & [] & Hp & [= <- _]). exact (delete_untouched _ _ _ _ k i Hp Hn).
  - apply bind_ok in Ha as (s1 & [] & Hp & [= <- _]).
    apply put_link_inv in Hp as (s0 & s2 & Hd & Hc0 & _ & Hc2 & Hp1 & Hp2).
    rewrite (put_untouched _ _ _ k i Hp2), (put_untouched _ _ _ k i Hp1); [by apply stored_data|..].
    + rewrite (resolve_collections s s0) by done. intros Hx. apply Hn. left. exact Hx.
    + rewrite (resolve_collections s s2) by done. intros Hx. apply Hn. right. exact Hx.
  - apply reads_ok in Ha as ([le|] & _ & Ha); [|done].
    apply bind_ok in Ha as (s1 & [] & Hp & [= <- _]).
    apply delete_link_inv in Hp as (s0 & s2 & Hd & Hc0 & _ & Hc2 & Hp1 & Hp2).
    rewrite (delete_untouched _ _ _ _ k i Hp2), (delete_untouched _ _ _ _ k i Hp1); [by apply stored_data|..].
    + rewrite (resolve_collections s s0) by done. intros Hx. apply Hn. left. exact Hx.
    + rewrite (resolve_collections s s2) by done. intros Hx. apply Hn. right. exact Hx.
Qed.

Lemma apply_op_frame cx op : frame_kept (apply_op (S := Mem) cx op).
Proof.
  apply frame_keeps. intros x. destruct op as [op|l|l]; cbn [apply_op].
  - destruct (wo_mutation op); repeat keeps_step; apply frame_kept_keeps;
      [apply put_frame | apply compare_and_swap_frame | apply delete_frame].
  - repeat keeps_step. apply frame_kept_keeps, put_link_frame.
  - repeat keeps_step. apply frame_kept_keeps, delete_link_frame.
Qed.

Lemma apply_ops_frame cx ops : frame_kept (apply_ops (S := Mem) cx ops).
Proof.
  apply frame_keeps. intros x. induction ops as [|op ops IH]; cbn [apply_ops]; repeat keeps_step;
    [apply frame_kept_keeps, apply_op_frame | apply IH].
Qed.

Lemma apply_op_collections cx op (s s' : Mem) o :
  apply_op cx op s = (s', Ok o) -> s_collections s' = s_collections s.
Proof. intros Ha. pose proof (frame_collections _ s (apply_op_frame cx op)) as Hc. by rewrite Ha in Hc. Qed.

Lemma apply_ops_cons cx op ops (s s' : Mem) res :
  apply_ops cx (op :: ops) s = (s', Ok res) ->
  exists s1 o rest, apply_op cx op s = (s1, Ok o) /\ apply_ops cx ops s1 = (s', Ok rest) /\
    s_collections s1 = s_collections s.
Proof.
  cbn [apply_ops]. intros Ha. apply bind_ok in Ha as (s1 & o & Ho & Ha).
  apply bind_ok in Ha as (s2 & rest & Hr & [= <- _]). exists s1, o, rest.
  split_and!; [done | done | by eapply apply_op_collections].
Qed.

Lemma apply_ops_app cx pre post (s s' : Mem) res :
  apply_ops cx (pre ++ post) s = (s', Ok res) ->
  exists s1 res1 res2, apply_ops cx pre s = (s1, Ok res1) /\ apply_ops cx post s1 = (s', Ok res2).
Proof.
  revert s res. induction pre as [|op pre IH]; intros s res; [by exists s, [], res|].
  intros Ha. apply bind_ok in Ha as (s1 & o & Ho & Ha).
  apply bind_ok in Ha as (s2 & rest & Hr & [= <- _]).
  apply IH in Hr as (s3 & r1 & r2 & H1' & H2'). exists s3. do 2 eexists. split; [|exact H2'].
  cbn [apply_ops]. unfold bind at 1. rewrite Ho. unfold bind. by rewrite H1'.
Qed.

Lemma apply_ops_collections cx ops (s s' : Mem) res :
  apply_ops cx ops s = (s', Ok res) -> s_collections s' = s_collections s.
Proof.
  revert s res. induction ops as [|op ops IH]; intros s res; [by intros [= <- _]|].
  intros (s1 & o & rest & _ & Hr & Hc)%apply_ops_cons. by rewrite (IH _ _ Hr).
Qed.

Lemma apply_ops_untouched cx ops (s s' : Mem) res k i :
  apply_ops cx ops s = (s', Ok res) -> Forall (fun op => ~ touches s op k i) ops ->
  stored s' k i = stored s k i.
Proof.
  revert s res. induction ops as [|op ops IH]; intros s res; [by intros [= <- _]|].
  intros (s1 & o & rest & Ho & Hr & Hc)%apply_ops_cons Hall. inversion Hall as [|? ? Hn Hns]; subst.
  rewrite (IH _ _ Hr); [by eapply apply_op_untouched|].
  eapply Forall_impl; [|exact Hns]. intros op' Hop. by rewrite (touches_collections s s1).
Qed.

(** The row a staged write leaves under the key [k]. *)
Definition row_after (o : WriteOp) (k : QualifiedCollectionId) : option Entity :=
  let e := with_collection (q_collection k) (wo_entity o) in
  match wo_mutation o with
  | EntityDelete => None
  | EntityUpdate => Some (with_version (wrap64 (wo_expected_version o + 1)) e)
  | _ => Some e
  end.

Lemma apply_op_target cx o (s s' : Mem) r k :
  apply_op cx (SEntity o) s = (s', Ok r) -> effective (SEntity o) = true ->
  resolve_catalog_key s (e_collection (wo_entity o)) = Ok k ->
  stored s' k (e_id (wo_entity o)) = row_after o k.
Proof.
  cbn [apply_op effective]. intros Ha He Hk. unfold row_after.
  destruct (wo_mutation o); try done.
  - apply bind_ok in Ha as (s1 & [] & (key & Hkey & Hst & _)%put_effect & [= <- _]).
    rewrite Hst. unfold row_set. replace key with k by congruence. by rewrite !decide_True.
  - apply bind_ok in Ha as (s1 & u & Hc & [= <- _]).
    apply compare_and_swap_effect in Hc as (key & c & Hkey & _ & _ & -> & Hst & _).
    rewrite Hst. unfold row_set. replace key with k by congruence. by rewrite !decide_True.
  - apply bind_ok in Ha as (s1 & [] & (key & Hkey & Hst & _)%delete_effect & [= <- _]).
    rewrite Hst. unfold row_set. replace key with k by congruence. by rewrite !decide_True.
Qed.

(** C5. The effect of a commit, row by row: a successful commit changes no row
    that none of its operations names, keeps the catalog and the schemas, and
    the last write to a row decides it: a created entity is stored as given
    under its catalog key, an updated one with the version after the expected
    one, a deleted one is gone. *)
Theorem commit_effect (t : Transaction) (now : Z) (clock : nat -> Z) (actor : option string)
    (attribution : option AuditAttribution) (s s' : Mem) (w : list Entity)
    (Hidle : s_tx_snapshot s = None)
    (Hok : commit validate secs_display t now clock actor attribution s = (s', Ok w)) :
  s_collections s' = s_collections s /\ s_schema_versions s' = s_schema_versions s /\
  (forall k i, Forall (fun op => ~ touches s op k i) (tx_ops t) -> stored s' k i = stored s k i) /\
  (forall pre o post k, tx_ops t = pre ++ SEntity o :: post -> effective (SEntity o) = true ->
     resolve_catalog_key s (e_collection (wo_entity o)) = Ok k ->
     Forall (fun op => ~ touches s op k (e_id (wo_entity o))) post ->
     stored s' k (e_id (wo_entity o)) = row_after o k).
Proof.
  apply memory_commit_inv in Hok as (s2 & res & log & Ha & -> & _); [|done].
  set (s1 := set_tx_snapshot (Some (visible s)) s) in *.
  pose proof (apply_ops_collections _ _ _ _ _ Ha) as Hc. split; [exact Hc|]. split.
  { pose proof (apply_ops_frame (context_of t actor attribution None) (tx_ops t) s1) as Hf.
    rewrite Ha in Hf. unfold frame in Hf. cbn [fst] in Hf. simpl. unfold s1 in Hf. simpl in Hf. congruence. }
  split.
  - intros k i Hall. exact (apply_ops_untouched _ _ _ _ _ k i Ha Hall).
  - intros pre o post k Hops He Hk Hpost. rewrite Hops in Ha.
    apply apply_ops_app in Ha as (s3 & r1 & r2 & Hpre & Hrest).
    pose proof (apply_ops_collections _ _ _ _ _ Hpre) as Hc3.
    apply apply_ops_cons in Hrest as (s4 & oo & rest & Ho & Hpost' & Hc4).
    rewrite <-(apply_op_target _ _ _ _ _ k Ho He) by (by rewrite (resolve_collections s1 s3)).
    refine (apply_ops_untouched _ _ _ _ _ k _ Hpost' _).
    eapply Forall_impl; [|exact Hpost]. intros op Hop.
    by rewrite (touches_collections s1 s4) by congruence.
Qed.
End MemoryCommit.
