(* ===== verification/IntentProofs.v ===== *)
(** * The life cycle of stored intents

    The intent service of the file IntentService on the in-memory adapter, run
    through arbitrary histories of calls: which changes of state a stored intent
    can undergo, and what a successful commit has checked and done. *)

From S2P Require Import Prelude Json Ids Types IndexKeys Intents AuditLog Schema Rules JsonOps.
From S2P Require Import AuthStore Storage Catalog Interface MemoryTx MemoryRows.
From S2P Require Import Transactions MemoryCommit Requests IntentCanon IntentService IntentCommit.

(** ** Operations under [map_err] and [in_tx] *)

Lemma map_err_run {S E E' A} (f : E -> E') (m : M S E A) s s' a :
  map_err f m s = (s', Ok a) <-> m s = (s', Ok a).
Proof. unfold map_err. destruct (m s) as [s1 [x|e|]]; split; intros Heq; congruence. Qed.

Lemma keeps_map_err {S E E' A} (f : E -> E') (m : M S E A) P : keeps P m -> keeps P (map_err f m).
Proof. intros Hm s Hs. specialize (Hm s Hs). unfold map_err. by destruct (m s) as [s1 [x|e|]]. Qed.

Lemma keeps_lift_bind {S E A B} P (r : result A E) (f : A -> M S E B) :
  (forall a, r = Ok a -> keeps P (f a)) -> keeps P (bind (lift r) f).
Proof. intros Hf s Hs. unfold bind, lift. destruct r as [a| |]; [by apply Hf | done..]. Qed.

#[export] Hint Resolve keeps_map_err : axon.

(** ** The bindings of a commit *)

Section Bindings.
Context `{RuleEnv} {S : Type} `{!StorageAdapter S} `{!IntentStorage S} `{!IntentSerde} `{!OperationText} `{!TokenCodec}.

(** Everything the preview bound is as it was: the subject and its grant, the
    schema and policy versions, and the version of every row it had read. *)
Record bindings_fresh (s : S) (i : MutationIntent) (current : MutationIntentCommitValidationContext) : Prop := {
  bf_grant : sb_grant_version (mi_subject i) = sb_grant_version (vc_subject current);
  bf_subject : subject_without_grant (mi_subject i) = subject_without_grant (vc_subject current);
  bf_schema : mi_schema_version i = vc_schema_version current;
  bf_policy : mi_policy_version i = vc_policy_version current;
  bf_pre_images : Forall (fun p => current_pre_image_version s p = Ok (Some (pre_image_version p)))
                    (mi_pre_images i)
}.

Lemma stale_pre_images_nil s l :
  stale_pre_images (S := S) s l = Ok [] <->
  Forall (fun p => current_pre_image_version s p = Ok (Some (pre_image_version p))) l.
Proof.
  induction l as [|p l IH]; cbn [stale_pre_images]; [split; done|]. rewrite List.Forall_cons_iff, <- IH.
  destruct (current_pre_image_version s p) as [cur|e|]; [|naive_solver..].
  rewrite result_bind_ok. split.
  - intros (others & Ho & Hc). unfold changed in Hc.
    destruct (bool_decide_reflect (cur = Some (pre_image_version p))) as [->|]; [|done].
    simpl in Hc. injection Hc as ->. done.
  - intros [[= ->] Ho]. exists []. split; [done|]. by rewrite bool_decide_true.
Qed.

Lemma changed_nil b d : changed b d = [] <-> b = false.
Proof. by destruct b. Qed.

Lemma stale_dimensions_nil s i current :
  stale_commit_dimensions (S := S) s i current = Ok [] <-> bindings_fresh s i current.
Proof.
  unfold stale_commit_dimensions. rewrite result_bind_ok. split.
  - intros (ps & Hps & [= Hd]). apply app_nil in Hd as [Hd ->].
    apply app_nil in Hd as [Hd1%changed_nil Hd]. apply app_nil in Hd as [Hd2%changed_nil Hd].
    apply app_nil in Hd as [Hd3%changed_nil Hd4%changed_nil].
    rewrite negb_false_iff in Hd1, Hd2, Hd3, Hd4.
    apply stale_pre_images_nil in Hps.
    split; [exact (bool_decide_unpack _ (proj2 (Is_true_true _) Hd1)) | exact (bool_decide_unpack _ (proj2 (Is_true_true _) Hd2)) | lia.. | done].
  - intros [Hd1 Hd2 Hd3 Hd4 Hp]. exists []. split; [by apply stale_pre_images_nil|].
    rewrite !bool_decide_true, Hd3, Hd4, !Z.eqb_refl by done. done.
Qed.

(** The intent that [validate_commit_bindings] finds. *)
Definition bound_intent (signer : MutationIntentTokenSigner) (s : S) (scope : MutationIntentScopeBinding)
    (token : string) (current : MutationIntentCommitValidationContext) (now : Z) (i : MutationIntent) : Prop :=
  verify signer token = Ok (intent_id i) /\ load_intent s scope (intent_id i) = Ok i /\ mi_scope i = scope /\
  committable i now /\ operation_hash (mi_operation i) = vc_operation_hash current /\
  vc_caller_authorized current = true /\ bindings_fresh s i current.

Lemma map_token_error_ok {A} (r : result A MutationIntentTokenLookupError) a :
  map_token_error r = Ok a <-> r = Ok a.
Proof. destruct r; simpl; split; congruence. Qed.

Lemma validate_bindings_ok signer s scope token current now i :
  validate_commit_bindings (S := S) signer s scope token current now = Ok i <->
  bound_intent signer s scope token current now i.
Proof.
  unfold validate_commit_bindings, bound_intent. rewrite result_bind_ok. split.
  - intros (id & Hid%map_token_error_ok & Hv). apply result_bind_ok in Hv as (loaded & Hl & Hv).
    destruct (load_intent s scope id) as [l|e|] eqn:Hload; [injection Hl as ->|done..].
    apply result_bind_ok in Hv as (i' & Hr%map_token_error_ok & Hv).
    apply resolve_ok in Hr as (id' & Hid' & Hlk & Hscope & Hc).
    rewrite Hid in Hid'. injection Hid' as <-.
    destruct (bool_decide_reflect (id = intent_id loaded)) as [->|]; [|done].
    destruct (bool_decide_reflect (mi_scope loaded = scope)); [|done]. simpl in Hlk. injection Hlk as <-.
    destruct (bool_decide_reflect (operation_hash (mi_operation loaded) = vc_operation_hash current)); [|done].
    simpl in Hv. destruct (vc_caller_authorized current); [simpl in Hv|done].
    apply result_bind_ok in Hv as ([|d ds] & Hst & [= <-]).
    apply stale_dimensions_nil in Hst. done.
  - intros (Hid & Hl & Hs & Hc & Hh & Ha & Hf). exists (intent_id i).
    split; [by apply map_token_error_ok|]. rewrite Hl. simpl. rewrite result_bind_ok.
    exists i. split.
    + apply map_token_error_ok, resolve_ok. exists (intent_id i).
      rewrite !bool_decide_true by done. done.
    + rewrite bool_decide_true, Ha by done. simpl. by rewrite (proj2 (stale_dimensions_nil s i current) Hf).
Qed.
End Bindings.
Section IntentProofs.
Context `{RuleEnv} `{TextFormat} `{ContentHasher} `{!IntentSerde} `{!OperationText} `{!TokenCodec}.
Variable validate : CollectionSchema -> Value -> result unit AxonError.
Variable secs_display : Z -> string.

Abbreviation Mem := MemoryStorageAdapter (only parsing).

(** The intents of the in-memory adapter. *)
#[export] Instance memory_intents : IntentStorage Mem := {|
  is_create := create_mutation_intent;
  is_get s t d i := Ok (get_mutation_intent s t d i);
  is_list_expired s t d now limit := Ok (list_expired_mutation_intents s t d now limit);
  is_list_pending s t d now limit := Ok (list_pending_mutation_intents s t d now limit);
  is_list_by_state s t d st limit := Ok (list_mutation_intents_by_state s t d st limit);
  is_update_state := update_mutation_intent_state
|}.

(** ** The state machine *)

(** The changes of state of an intent, by the decision of its preview. *)
Inductive intent_edge : MutationIntentDecision -> ApprovalState -> ApprovalState -> Prop :=
| edge_approve : intent_edge NeedsApproval Pending Approved
| edge_reject : intent_edge NeedsApproval Pending Rejected
| edge_commit_allowed : intent_edge Allow AS_None Committed
| edge_commit_approved : intent_edge NeedsApproval Approved Committed
| edge_expire d st : expirable_state st = true -> intent_edge d st Expired.

(** One step of a stored intent: its state moves along an edge, nothing else
    changes. *)
Definition intent_move (i i' : MutationIntent) : Prop :=
  exists st, i' = set_approval_state st i /\ intent_edge (mi_decision i) (mi_approval_state i) st.

(** The stored intents of [m'] are those of [m], each moved along edges. *)
Definition moved (m m' : gmap IntentKey MutationIntent) : Prop :=
  forall k, option_relation (rtc intent_move) (fun _ => False) (fun _ => False) (m !! k) (m' !! k).

Lemma moved_refl m : moved m m.
Proof. intros k. destruct (m !! k); simpl; [apply rtc_refl | done]. Qed.

Lemma rtc_decision i i' : rtc intent_move i i' -> mi_decision i' = mi_decision i.
Proof. induction 1 as [|i j k (st & -> & _) _ IH]; [done|]. by rewrite IH. Qed.

(** The stored intents, and those an open transaction would restore, are
    intents of [m] moved along edges. *)
Definition follows (m : gmap IntentKey MutationIntent) (s : Mem) : Prop :=
  moved m (s_mutation_intents s) /\
  forall sn, s_tx_snapshot s = Some sn -> moved m (ts_mutation_intents sn).

Abbreviation key scope id := (mutation_intent_key (tenant_id scope) (database_id scope) id).

(** The decision of the intent under a key. *)
Definition decided (m : gmap IntentKey MutationIntent) (k : IntentKey) (d : MutationIntentDecision) : Prop :=
  forall i, m !! k = Some i -> mi_decision i = d.

Lemma update_state_follows m scope id from to :
  (forall i, m !! key scope id = Some i -> intent_edge (mi_decision i) from to) ->
  keeps (follows m) (update_state (S := Mem) scope id from to).
Proof.
  intros Hedge. apply keeps_map_err. intros s [Hm Hsn]. simpl.
  unfold update_mutation_intent_state, bind, gets, Datatypes.id.
  destruct (s_mutation_intents s !! _) as [i|] eqn:Hi; [|done].
  destruct (bool_decide_reflect (mi_approval_state i = from)) as [<-|]; [|done]. simpl.
  split; [|done]. simpl. intros k. specialize (Hm k).
  destruct (decide (k = key scope id)) as [->|Hne].
  - rewrite lookup_insert_eq. rewrite Hi in Hm.
    destruct (m !! key scope id) as [i0|] eqn:Hi0; [|done]. simpl in *.
    eapply rtc_r; [exact Hm|]. eexists. split; [done|].
    rewrite (rtc_decision _ _ Hm). by apply Hedge.
  - by rewrite lookup_insert_ne.
Qed.

(** Loading an intent tells the decision of its key. *)
Lemma load_intent_follows {B} m scope id (f : MutationIntent -> LOp (S := Mem) B) :
  (forall i, decided m (key scope id) (mi_decision i) -> keeps (follows m) (f i)) ->
  keeps (follows m) (bind (reads (fun s => load_intent s scope id)) f).
Proof.
  intros Hf s Hs. unfold bind, reads, load_intent. simpl. unfold get_mutation_intent.
  destruct (s_mutation_intents s !! _) as [i|] eqn:Hi; [|done]. apply Hf; [|done].
  intros i0 Hi0. destruct Hs as [Hm _]. specialize (Hm (key scope id)). rewrite Hi, Hi0 in Hm.
  simpl in Hm. by rewrite (rtc_decision _ _ Hm).
Qed.

Lemma begin_follows m : keeps (follows m) (begin_tx).
Proof.
  intros s [Hm Hsn]. unfold begin_tx, bind, gets, Datatypes.id.
  destruct (s_tx_snapshot s) eqn:Hs; [split; [done | by rewrite <- Hs in Hsn]|].
  split; [done|]. simpl. by intros sn [= <-].
Qed.

Lemma abort_follows m : keeps (follows m) (abort_tx).
Proof.
  intros s [Hm Hsn]. unfold abort_tx, modify. simpl. destruct (s_tx_snapshot s) as [sn|] eqn:Hs.
  - split; [by apply Hsn | done].
  - split; [done | by rewrite Hs].
Qed.

Lemma commit_follows m : keeps (follows m) (commit_tx).
Proof.
  intros s [Hm Hsn]. unfold commit_tx, bind, gets, Datatypes.id.
  destruct (s_tx_snapshot s) eqn:Hs; (split; [done|]); simpl; [done | by rewrite Hs].
Qed.

Lemma frame_follows {A} m (op : M Mem AxonError A) : frame_kept op -> keeps (follows m) op.
Proof.
  intros Hf s [Hm Hsn]. specialize (Hf s). unfold frame in Hf. injection Hf as Hs _ _ _ _ _ _ _ Hi _.
  unfold follows. by rewrite Hi, Hs.
Qed.

Lemma append_audit_follows m now e : keeps (follows m) (append_audit_entry now e).
Proof. intros s Hs. unfold append_audit_entry. by destruct (append _ _ _). Qed.

Lemma in_tx_follows {A} m (body : LOp (S := Mem) A) : keeps (follows m) body -> keeps (follows m) (in_tx body).
Proof.
  intros Hb. unfold in_tx. apply keeps_bind; [apply keeps_map_err, begin_follows|]. intros _.
  apply keeps_bind; [|intros a; apply keeps_bind; [apply keeps_map_err, commit_follows | intros _; apply keeps_ret]].
  intros s Hs. specialize (Hb s Hs). destruct (body s) as [s1 [a|e|]]; [done| |done].
  by apply (abort_follows m s1).
Qed.

Lemma append_intent_follows m clock n parts :
  keeps (follows m) (append_intent_lifecycle_audit_entry (S := Mem) clock n parts).
Proof. apply keeps_map_err, append_audit_follows. Qed.

Lemma require_log_follows m : keeps (follows m) (require_storage_audit_log (S := Mem)).
Proof. unfold require_storage_audit_log. repeat keeps_step. Qed.
(** ** Every operation follows the state machine *)

Lemma expire_edge m scope id st :
  expirable_state st = true -> keeps (follows m) (update_state (S := Mem) scope id st Expired).
Proof. intros Hst. apply update_state_follows. intros i _. by apply edge_expire. Qed.

Lemma reject_if_expired_follows m scope i now o :
  keeps (follows m) (reject_if_expired_or_expire (S := Mem) scope i now o).
Proof.
  unfold reject_if_expired_or_expire. apply keeps_bind; [|intros _; repeat keeps_step].
  destruct (_ && _) eqn:Hc; [|apply keeps_ret]. apply andb_prop in Hc as [_ Hst].
  apply keeps_bind; [by apply expire_edge | intros _; apply keeps_ret].
Qed.

Lemma review_follows m o to scope id md now :
  intent_edge NeedsApproval Pending to -> keeps (follows m) (review (S := Mem) o to scope id md now).
Proof.
  intros Hto. apply load_intent_follows. intros i Hi.
  apply keeps_bind; [apply reject_if_expired_follows|]. intros _.
  apply keeps_lift_bind. intros [] Hd. unfold require_decision in Hd.
  destruct (bool_decide_reflect (mi_decision i = NeedsApproval)) as [Hn|]; [|done].
  repeat keeps_step. apply update_state_follows. intros i0 Hi0. by rewrite (Hi i0 Hi0), Hn.
Qed.

Lemma review_with_audit_follows m clock body mutation scope id md :
  keeps (follows m) body -> keeps (follows m) (review_with_audit (S := Mem) clock body mutation scope id md).
Proof.
  intros Hb. unfold review_with_audit. apply keeps_bind; [apply keeps_reads|]. intros before.
  apply keeps_bind; [apply require_log_follows|]. intros _. apply in_tx_follows.
  repeat keeps_step; [exact Hb | apply append_intent_follows].
Qed.

Lemma expire_follows m scope id now : keeps (follows m) (expire (S := Mem) scope id now).
Proof.
  unfold expire. apply keeps_bind; [apply keeps_reads|]. intros i. destruct (_ <? _)%Z; [apply keeps_fail|].
  destruct (mi_approval_state i); try apply keeps_fail; by apply expire_edge.
Qed.

Lemma expire_all_follows m scope now due : keeps (follows m) (expire_all (S := Mem) scope now due).
Proof.
  induction due as [|i due IH]; cbn [expire_all]; repeat keeps_step; [apply expire_follows | apply IH].
Qed.

Lemma list_due_follows m scope now limit : keeps (follows m) (list_due (S := Mem) scope now limit).
Proof. apply keeps_map_err, keeps_reads. Qed.

Lemma expire_due_follows m scope now limit : keeps (follows m) (expire_due (S := Mem) scope now limit).
Proof. apply keeps_bind; [apply list_due_follows | intros due; apply expire_all_follows]. Qed.

Lemma expire_all_with_audit_follows m clock n scope now due :
  keeps (follows m) (expire_all_with_audit (S := Mem) clock n scope now due).
Proof.
  revert n. induction due as [|i due IH]; intros n; cbn [expire_all_with_audit]; repeat keeps_step;
    [apply expire_follows | apply append_intent_follows | apply IH].
Qed.

Lemma mark_committed_follows m scope id hash now :
  keeps (follows m) (mark_committed_internal (S := Mem) scope id hash now).
Proof.
  apply load_intent_follows. intros i Hi.
  apply keeps_bind; [apply reject_if_expired_follows|]. intros _.
  apply keeps_bind; [apply keeps_lift|]. intros _. apply keeps_lift_bind. intros st Hst.
  apply keeps_bind; [apply keeps_lift|]. intros _. apply update_state_follows. intros i0 Hi0.
  rewrite (Hi i0 Hi0). unfold commit_expected_state in Hst.
  destruct (mi_decision i); [injection Hst as <-; constructor..| done].
Qed.

(** *** Commits *)

Lemma or_abort_follows {A} m (op : M Mem AxonError A) : keeps (follows m) op -> keeps (follows m) (or_abort op).
Proof.
  intros Ho s Hs. specialize (Ho s Hs). unfold or_abort. destruct (op s) as [s1 [a|e|]]; [done| |done].
  exact (abort_follows m s1 Ho).
Qed.

Lemma append_all_follows m clock n entries : keeps (follows m) (append_all (S := Mem) clock n entries).
Proof.
  revert n. induction entries as [|e rest IH]; intros n; cbn [append_all]; [apply keeps_ret|].
  apply keeps_bind; [apply append_audit_follows | intros _; apply IH].
Qed.

Lemma execute_follows m t cx : keeps (follows m) (execute (S := Mem) validate t cx).
Proof.
  unfold execute. repeat keeps_step; auto using read_only_keeps, check_op_read_only, check_read_read_only, check_scan_read_only.
  apply frame_follows, apply_ops_frame.
Qed.

Lemma commit_with_hook_follows {T} m t now clock actor attribution lineage (hook : M Mem AxonError T) :
  keeps (follows m) hook ->
  keeps (follows m) (commit_with_storage_hook validate secs_display t now clock actor attribution lineage hook).
Proof.
  intros Hh. unfold commit_with_storage_hook. repeat keeps_step; try apply or_abort_follows;
    auto using begin_follows, commit_follows, execute_follows, append_all_follows.
Qed.
Lemma abort_on_err_follows {A} m (op : COp (S := Mem) A) :
  keeps (follows m) op -> keeps (follows m) (abort_on_err op).
Proof.
  intros Ho s Hs. specialize (Ho s Hs). unfold abort_on_err. destruct (op s) as [s1 [a|e|]]; [done| |done].
  exact (abort_follows m s1 Ho).
Qed.

Lemma failure_audit_follows m clock scope e actor :
  keeps (follows m) (append_commit_validation_failure_audit (S := Mem) clock scope e actor).
Proof.
  unfold append_commit_validation_failure_audit. repeat keeps_step; try apply abort_on_err_follows;
    apply keeps_map_err; auto using begin_follows, commit_follows, append_intent_follows.
Qed.

(** A validation that finds an intent leaves the store alone. *)
Lemma validate_with_audit_ok clock signer scope token current now actor (s s' : Mem) i :
  validate_commit_bindings_with_audit (S := Mem) clock signer scope token current now actor s = (s', Ok i) ->
  s' = s /\ bound_intent signer s scope token current now i.
Proof.
  unfold validate_commit_bindings_with_audit.
  destruct (validate_commit_bindings signer s scope token current now) as [i'|e|] eqn:Hv; [|intros Hf..].
  - intros [= <- ->]. by apply validate_bindings_ok in Hv.
  - by apply bind_ok in Hf as (? & [] & _ & ?).
  - done.
Qed.

Lemma load_ok (s : Mem) scope id i :
  load_intent s scope id = Ok i <-> s_mutation_intents s !! key scope id = Some i.
Proof.
  unfold load_intent. simpl. unfold get_mutation_intent.
  destruct (s_mutation_intents s !! _); split; congruence.
Qed.

Lemma commit_hook_follows m scope id st d :
  commit_expected_state d = Ok st -> decided m (key scope id) (mi_decision d) ->
  keeps (follows m) (commit_hook (S := Mem) scope id st).
Proof.
  intros Hst Hd. apply keeps_map_err, update_state_follows. intros i0 Hi0. rewrite (Hd i0 Hi0).
  unfold commit_expected_state in Hst. destruct (mi_decision d); [injection Hst as <-; constructor..| done].
Qed.

Lemma validate_with_audit_follows m clock signer scope token current now actor :
  keeps (follows m) (validate_commit_bindings_with_audit (S := Mem) clock signer scope token current now actor).
Proof.
  intros s Hs. unfold validate_commit_bindings_with_audit.
  destruct (validate_commit_bindings signer s scope token current now); [done| |done].
  apply (keeps_bind (follows m)); [apply failure_audit_follows | intros _; apply keeps_fail | done].
Qed.

Lemma commit_intent_follows m clock signer monotonic req :
  keeps (follows m) (commit_transaction_intent (S := Mem) validate secs_display clock signer monotonic req).
Proof.
  intros s Hs. unfold commit_transaction_intent, bind at 1.
  destruct (validate_commit_bindings_with_audit _ _ _ _ _ _ _ s) as [s1 r] eqn:Hv.
  pose proof (validate_with_audit_follows m clock signer (cr_scope req) (cr_token req) (with_operation_hash
    (operation_hash (default (canonical_staged_transaction_operation (cr_transaction req))
      (cr_canonical_operation req))) (cr_current req)) (cr_now_ns req) (cr_actor req) s Hs) as H1'.
  rewrite Hv in H1'. destruct r as [i|e|]; [|exact H1'..].
  apply validate_with_audit_ok in Hv as [-> (_ & Hl%load_ok & _)].
  refine (_ s Hs). apply keeps_lift_bind. intros st Hst.
  destruct (commit_expected_state i) as [st'| |] eqn:Hst'; [injection Hst as ->|done..].
  apply keeps_bind; [|intros [w c]; apply keeps_ret].
  apply keeps_map_err, commit_with_hook_follows. apply (commit_hook_follows _ _ _ _ i); [done|].
  intros i0 Hi0. destruct Hs as [Hm _]. specialize (Hm (key (cr_scope req) (intent_id i))).
  rewrite Hl, Hi0 in Hm. simpl in Hm. by rewrite (rtc_decision _ _ Hm).
Qed.
(** ** No call leaves a transaction open *)

(** Operations that leave the transaction of the store alone. *)
Definition tx_kept {E A} (op : M Mem E A) : Prop := forall x, keeps (fun s => s_tx_snapshot s = x) op.

Lemma update_state_tx scope id from to : tx_kept (update_state (S := Mem) scope id from to).
Proof.
  intros x. apply keeps_map_err. simpl. unfold update_mutation_intent_state. intros s Hs. unfold bind, gets.
  destruct (s_mutation_intents _ !! _); [|done]. by destruct (negb _).
Qed.

Lemma append_intent_tx clock n parts : tx_kept (append_intent_lifecycle_audit_entry (S := Mem) clock n parts).
Proof.
  intros x. apply keeps_map_err. intros s Hs. exact Hs.
Qed.

Lemma create_intent_tx i : tx_kept (create_mutation_intent i).
Proof.
  intros x s Hs. unfold create_mutation_intent, bind, gets. by destruct (s_mutation_intents _ !! _).
Qed.
End IntentProofs.

Ltac tx_tac := intros ?; repeat first
  [ keeps_step | progress cbn beta iota | apply update_state_tx | apply append_intent_tx | apply keeps_map_err ].

Section IntentTx.
Context `{RuleEnv} `{TextFormat} `{ContentHasher} `{!IntentSerde} `{!OperationText} `{!TokenCodec}.

Abbreviation Mem := MemoryStorageAdapter (only parsing).

Lemma review_tx o to scope id md now : tx_kept (review (S := Mem) o to scope id md now).
Proof. unfold review, reject_if_expired_or_expire. tx_tac. Qed.

Lemma expire_tx scope id now : tx_kept (expire (S := Mem) scope id now).
Proof. unfold expire. tx_tac. Qed.

Lemma expire_all_tx scope now due : tx_kept (expire_all (S := Mem) scope now due).
Proof. induction due as [|i due IH]; cbn [expire_all]; tx_tac; [apply expire_tx | apply IH]. Qed.

Lemma expire_due_tx scope now limit : tx_kept (expire_due (S := Mem) scope now limit).
Proof. unfold expire_due, list_due. tx_tac. apply expire_all_tx. Qed.

Lemma expire_all_with_audit_tx clock n scope now due :
  tx_kept (expire_all_with_audit (S := Mem) clock n scope now due).
Proof.
  revert n. induction due as [|i due IH]; intros n; cbn [expire_all_with_audit]; tx_tac;
    [apply expire_tx | apply IH].
Qed.

Lemma mark_committed_tx scope id hash now : tx_kept (mark_committed_internal (S := Mem) scope id hash now).
Proof. unfold mark_committed_internal, reject_if_expired_or_expire. tx_tac. Qed.

(** An operation that, started without a transaction, leaves none open. *)
Definition settles {E A} (op : M Mem E A) : Prop :=
  forall s, s_tx_snapshot s = None -> snd (op s) = Panic \/ s_tx_snapshot (fst (op s)) = None.

Lemma tx_kept_settles {E A} (op : M Mem E A) : tx_kept op -> settles op.
Proof. intros Hop s Hs. right. by apply Hop. Qed.

Lemma settles_bind {E A B} (op : M Mem E A) (f : A -> M Mem E B) :
  settles op -> (forall a, settles (f a)) -> settles (bind op f).
Proof.
  intros Ho Hf s Hs. specialize (Ho s Hs). unfold bind. destruct (op s) as [s1 [a|e|]]; simpl in *.
  - destruct Ho as [|Ho]; [done|]. by apply Hf.
  - destruct Ho as [|Ho]; [done|]. by right.
  - by left.
Qed.

Lemma settles_map_err {E E' A} (f : E -> E') (op : M Mem E A) : settles op -> settles (map_err f op).
Proof.
  intros Ho s Hs. specialize (Ho s Hs). unfold map_err. destruct (op s) as [s1 [a|e|]]; simpl in *; naive_solver.
Qed.

Lemma settles_pure {E A} (r : result A E) : settles (lift (S := Mem) r).
Proof. intros s Hs. by right. Qed.

Lemma settles_reads {E A} (f : Mem -> result A E) : settles (reads f).
Proof. intros s Hs. by right. Qed.

Lemma in_tx_settles {A} (body : LOp (S := Mem) A) : tx_kept body -> settles (in_tx body).
Proof.
  intros Hb s Hs. unfold in_tx, bind, storage, map_err. simpl. unfold begin_tx, bind, gets, Datatypes.id. rewrite Hs. simpl.
  match goal with |- context [body ?s1] => pose proof (Hb _ s1 eq_refl) as Hk; destruct (body s1) as [s2 [a|e|]] end;
    simpl in *; [|right|by left].
  - right. unfold commit_tx, bind, gets, Datatypes.id. by rewrite Hk.
  - unfold abort_tx, modify. simpl. by rewrite Hk.
Qed.

Lemma require_log_settles : settles (require_storage_audit_log (S := Mem)).
Proof. intros s Hs. by right. Qed.
End IntentTx.
