(* ===== verification/IntentHistories.v ===== *)
(** * Histories of intent service calls

    Arbitrary sequences of calls to the intent service on the in-memory adapter,
    each running to its end: what can become of a stored intent, and that an
    intent is executed at most once. *)

From S2P Require Import Prelude Json Ids Types IndexKeys Intents AuditLog Schema Rules JsonOps.
From S2P Require Import AuthStore Storage Catalog Interface MemoryTx MemoryRows.
From S2P Require Import Transactions MemoryCommit Requests IntentCanon IntentService IntentCommit IntentProofs.

Section Histories.
Context `{RuleEnv} `{TextFormat} `{ContentHasher} `{!IntentSerde} `{!OperationText} `{!TokenCodec}.
Variable validate : CollectionSchema -> Value -> result unit AxonError.
Variable secs_display : Z -> string.
Variable signer : MutationIntentTokenSigner.

Abbreviation Mem := MemoryStorageAdapter (only parsing).
Abbreviation key scope id := (mutation_intent_key (tenant_id scope) (database_id scope) id).

(** ** Calls *)

Inductive IntentCall : Type :=
| CallPreview (intent : MutationIntent) (origin : option MutationIntentAuditOrigin)
| CallApprove (audited : bool) (scope : MutationIntentScopeBinding) (id : string)
    (metadata : MutationIntentReviewMetadata) (now : Z)
| CallReject (audited : bool) (scope : MutationIntentScopeBinding) (id : string)
    (metadata : MutationIntentReviewMetadata) (now : Z)
| CallExpire (audited : bool) (scope : MutationIntentScopeBinding) (id : string) (now : Z)
| CallExpireDue (audited : bool) (scope : MutationIntentScopeBinding) (now : Z) (limit : option nat)
| CallListPending (scope : MutationIntentScopeBinding) (now : Z) (limit : option nat)
| CallListByState (scope : MutationIntentScopeBinding) (st : ApprovalState) (now : Z) (limit : option nat)
| CallMarkCommitted (scope : MutationIntentScopeBinding) (id : string) (hash : option string) (now : Z)
| CallValidate (scope : MutationIntentScopeBinding) (token : string)
    (current : MutationIntentCommitValidationContext) (now : Z) (actor : option string)
| CallCommit (monotonic : Z) (request : MutationIntentTransactionCommitRequest).

(** The effect of a call, its answer forgotten. *)
Definition effect {E A} (op : M Mem E A) : M Mem unit unit :=
  map_err (fun _ => tt) (bind op (fun _ => ret tt)).

Definition intent_call (clock : nat -> Z) (c : IntentCall) : M Mem unit unit :=
  match c with
  | CallPreview i origin => effect (create_preview_record_with_origin clock signer i origin)
  | CallApprove audited scope id md now =>
      effect (if audited then approve_with_audit clock scope id md now else approve scope id md now)
  | CallReject audited scope id md now =>
      effect (if audited then reject_with_audit clock scope id md now else reject scope id md now)
  | CallExpire audited scope id now =>
      effect (if audited then expire_with_audit clock scope id now else expire scope id now)
  | CallExpireDue audited scope now limit =>
      effect (if audited then expire_due_with_audit clock scope now limit else expire_due scope now limit)
  | CallListPending scope now limit => effect (list_pending scope now limit)
  | CallListByState scope st now limit => effect (list_by_state scope st now limit)
  | CallMarkCommitted scope id (Some hash) now => effect (mark_committed_with_operation_hash scope id hash now)
  | CallMarkCommitted scope id None now => effect (mark_committed scope id now)
  | CallValidate scope token current now actor =>
      effect (validate_commit_bindings_with_audit clock signer scope token current now actor)
  | CallCommit monotonic req =>
      effect (commit_transaction_intent validate secs_display clock signer monotonic req)
  end.

(** A sequence of calls, each with its own readings of the clock, none of which
    panics. *)
Inductive intent_history : Mem -> list IntentCall -> Mem -> Prop :=
| history_done s : intent_history s [] s
| history_call s s1 s' clock c cs r :
    intent_call clock c s = (s1, r) -> r <> Panic -> intent_history s1 cs s' ->
    intent_history s (c :: cs) s'.

(** The call does not preview an intent. *)
Definition no_preview (c : IntentCall) : Prop :=
  match c with CallPreview _ _ => False | _ => True end.

(** ** Calls follow the state machine *)

Lemma effect_keeps {E A} P (op : M Mem E A) : keeps P op -> keeps P (effect op).
Proof. intros Ho. apply keeps_map_err, keeps_bind; [done | intros _; apply keeps_ret]. Qed.

Lemma effect_settles {E A} (op : M Mem E A) : settles op -> settles (effect op).
Proof. intros Ho. apply settles_map_err, settles_bind; [done | intros _ s Hs; by right]. Qed.

Lemma call_follows m clock c : no_preview c -> keeps (follows m) (intent_call clock c).
Proof.
  destruct c as [i o|[] scope id md now|[] scope id md now|[] scope id now|[] scope now limit|scope now limit
    |scope st now limit|scope id [h|] now|scope tok cur now a|mono req]; intros Hc; apply effect_keeps.
  - done.
  - apply review_with_audit_follows, review_follows, edge_approve.
  - apply review_follows, edge_approve.
  - apply review_with_audit_follows, review_follows, edge_reject.
  - apply review_follows, edge_reject.
  - unfold expire_with_audit, append_intent_transition_audit. repeat (keeps_step || apply in_tx_follows);
      auto using expire_follows, append_intent_follows, require_log_follows.
  - apply expire_follows.
  - unfold expire_due_with_audit. repeat (keeps_step || apply in_tx_follows);
      auto using list_due_follows, expire_all_with_audit_follows, require_log_follows.
  - apply expire_due_follows.
  - unfold list_pending. repeat keeps_step; [apply expire_due_follows | apply keeps_map_err, keeps_reads].
  - unfold list_by_state. repeat keeps_step; [apply expire_due_follows | apply keeps_map_err, keeps_reads].
  - apply mark_committed_follows.
  - apply mark_committed_follows.
  - apply validate_with_audit_follows.
  - apply commit_intent_follows.
Qed.

(** ** No call leaves a transaction open *)

Lemma review_with_audit_settles clock body mutation scope id md :
  tx_kept body -> settles (review_with_audit (S := Mem) clock body mutation scope id md).
Proof.
  intros Hb. apply settles_bind; [apply settles_reads|]. intros before.
  apply settles_bind; [apply require_log_settles|]. intros _. apply in_tx_settles. tx_tac. apply Hb.
Qed.

Lemma failure_audit_settles clock scope e actor :
  settles (append_commit_validation_failure_audit (S := Mem) clock scope e actor).
Proof.
  unfold append_commit_validation_failure_audit.
  destruct (commit_validation_failure_intent_id e) as [iid|]; [|intros s Hs; by right].
  apply settles_bind; [apply settles_reads|]. intros i. apply settles_bind; [intros s Hs; by right|].
  intros owns. destruct (negb owns); [intros s Hs; by right|].
  intros s Hs. right. unfold bind, commit_storage, map_err, abort_on_err. simpl.
  unfold begin_tx, bind, gets, Datatypes.id. by rewrite Hs.
Qed.

Lemma validate_with_audit_settles clock scope token current now actor :
  settles (validate_commit_bindings_with_audit (S := Mem) clock signer scope token current now actor).
Proof.
  intros s Hs. unfold validate_commit_bindings_with_audit.
  destruct (validate_commit_bindings signer s scope token current now); [by right| |by right].
  apply settles_bind; [apply failure_audit_settles | intros _ s1 Hs1; by right | done].
Qed.

Lemma commit_hook_settles {T} t now clock actor attribution lineage (hook : M Mem AxonError T) :
  tx_kept hook ->
  settles (commit_with_storage_hook validate secs_display t now clock actor attribution lineage hook).
Proof.
  intros Hh s Hs. assert (Hh' : forall s : Mem, sa_saved (fst (hook s)) = sa_saved s).
  { intros s0. exact (Hh _ s0 eq_refl). }
  assert (Hs' : sa_saved s = None) by exact Hs.
  destruct (commit_cases validate secs_display t now clock actor attribution lineage hook s Hs')
    as [[e Hc]|(s1 & Hv & Hs1 & _ & _ & Hc)]; rewrite Hc; [by right|].
  destruct (commit_body _ _ _ _ _ s1) as [s2 [[w x]|e|]] eqn:Hb; [right|right|by left].
  - eapply commit_body_ok in Hb as (s3 & res & s4 & s5 & _ & _ & _ & _ & _ & Hsv); [exact Hsv | exact Hh' | exact Hs1].
  - eapply commit_body_err in Hb as [_ Hsv]; [exact Hsv | exact Hh' | exact Hs1].
Qed.

Lemma commit_intent_settles clock monotonic req :
  settles (commit_transaction_intent (S := Mem) validate secs_display clock signer monotonic req).
Proof.
  unfold commit_transaction_intent. apply settles_bind; [apply validate_with_audit_settles|]. intros i.
  apply settles_bind; [apply settles_pure|]. intros st.
  apply settles_bind; [|intros [w c] s Hs; by right].
  apply settles_map_err, commit_hook_settles. intros x. apply keeps_map_err, update_state_tx.
Qed.

Lemma preview_settles clock i origin :
  settles (create_preview_record_with_origin (S := Mem) clock signer i origin).
Proof.
  unfold create_preview_record_with_origin. destruct (negb _); [intros s Hs; by right|].
  apply settles_bind; [apply require_log_settles|]. intros _.
  apply settles_bind; [|intros _ s Hs; by right]. apply in_tx_settles. tx_tac. apply create_intent_tx.
Qed.

Lemma call_settles clock c : settles (intent_call clock c).
Proof.
  destruct c as [i o|[] scope id md now|[] scope id md now|[] scope id now|[] scope now limit|scope now limit
    |scope st now limit|scope id [h|] now|scope tok cur now a|mono req]; apply effect_settles.
  - apply preview_settles.
  - apply review_with_audit_settles, review_tx.
  - apply tx_kept_settles, review_tx.
  - apply review_with_audit_settles, review_tx.
  - apply tx_kept_settles, review_tx.
  - apply settles_bind; [apply settles_reads|]. intros before.
    apply settles_bind; [apply require_log_settles|]. intros _. apply in_tx_settles. tx_tac. apply expire_tx.
  - apply tx_kept_settles, expire_tx.
  - apply settles_bind; [apply settles_map_err, settles_reads|]. intros due.
    apply settles_bind; [apply require_log_settles|]. intros _. apply in_tx_settles, expire_all_with_audit_tx.
  - apply tx_kept_settles, expire_due_tx.
  - apply tx_kept_settles. unfold list_pending. tx_tac. apply expire_due_tx.
  - apply tx_kept_settles. unfold list_by_state. tx_tac. apply expire_due_tx.
  - apply tx_kept_settles, mark_committed_tx.
  - apply tx_kept_settles, mark_committed_tx.
  - apply validate_with_audit_settles.
  - apply commit_intent_settles.
Qed.
(** ** What becomes of the stored intents *)

(** The key of an intent, and a preview in the state its decision calls for. *)
Definition intent_key (i : MutationIntent) : IntentKey := key (mi_scope i) (intent_id i).
Definition initial (i : MutationIntent) : Prop :=
  mi_approval_state i = preview_state_for_decision (mi_decision i).

(** A preview stores its intent or leaves the stored intents alone. *)
Lemma preview_effect clock i origin (s : Mem) :
  s_tx_snapshot s = None ->
  let s1 := fst (create_preview_record_with_origin (S := Mem) clock signer i origin s) in
  s_mutation_intents s1 = s_mutation_intents s \/
  (s_mutation_intents s !! intent_key i = None /\ initial i /\
   s_mutation_intents s1 = <[intent_key i := i]> (s_mutation_intents s)).
Proof.
  intros Hs s1. subst s1. unfold create_preview_record_with_origin.
  destruct (bool_decide_reflect (mi_approval_state i = preview_state_for_decision (mi_decision i))) as [Hi|]; [|by left].
  cbn [negb]. unfold in_tx, bind, storage, map_err, require_storage_audit_log, gets. simpl.
  unfold begin_tx, bind, gets, Datatypes.id. rewrite Hs. simpl.
  unfold create_mutation_intent, bind, gets, Datatypes.id. simpl.
  destruct (s_mutation_intents s !! _) eqn:Hk; simpl; [by left|]. right. by split_and!.
Qed.

(** What a history makes of the intents [m]: those it finds move along edges;
    the others come from its previews, and move from there. *)
Definition lineage (cs : list IntentCall) (m m' : gmap IntentKey MutationIntent) : Prop :=
  (forall k i, m !! k = Some i -> exists i', m' !! k = Some i' /\ rtc intent_move i i') /\
  (forall k i', m !! k = None -> m' !! k = Some i' ->
     exists i origin, CallPreview i origin ∈ cs /\ intent_key i = k /\ initial i /\ rtc intent_move i i').

Lemma lineage_moved cs m m' : moved m m' -> lineage cs m m'.
Proof.
  intros Hm. split; intros k; specialize (Hm k).
  - intros i Hi. rewrite Hi in Hm. destruct (m' !! k); simpl in Hm; [eauto | done].
  - intros i' Hi Hi'. by rewrite Hi, Hi' in Hm.
Qed.

Lemma lineage_preview i origin cs m :
  m !! intent_key i = None -> initial i -> lineage (CallPreview i origin :: cs) m (<[intent_key i := i]> m).
Proof.
  intros Hk Hi. split; intros k.
  - intros j Hj. exists j. split; [|apply rtc_refl]. rewrite lookup_insert_ne; congruence.
  - intros i' Hm Hi'. destruct (decide (k = intent_key i)) as [->|Hne].
    + rewrite lookup_insert_eq in Hi'. injection Hi' as <-. exists i, origin.
      split_and!; [by apply elem_of_cons; left | done | done | apply rtc_refl].
    + rewrite lookup_insert_ne in Hi' by congruence. congruence.
Qed.

Lemma lineage_trans c cs m m1 m' : lineage [c] m m1 -> lineage cs m1 m' -> lineage (c :: cs) m m'.
Proof.
  intros [Ho Hn] [Ho1 Hn1]. split; intros k.
  - intros i Hi. destruct (Ho k i Hi) as (i1 & Hi1 & Hr). destruct (Ho1 k i1 Hi1) as (i' & Hi' & Hr').
    exists i'. split; [done | by etrans].
  - intros i' Hk Hi'. destruct (m1 !! k) as [i1|] eqn:Hk1.
    + destruct (Hn k i1 Hk Hk1) as (i & o & Hin & ? & ? & Hr). destruct (Ho1 k i1 Hk1) as (i2 & Hi2 & Hr').
      rewrite Hi' in Hi2. injection Hi2 as <-. apply list_elem_of_singleton in Hin.
      exists i, o. split_and!; [by apply elem_of_cons; left | done | done | by etrans].
    + destruct (Hn1 k i' Hk1 Hi') as (i & o & Hin & Hrest). exists i, o.
      split; [by apply elem_of_cons; right | done].
Qed.

Lemma effect_fst {E A} (op : M Mem E A) s : fst (effect op s) = fst (op s).
Proof. unfold effect, map_err, bind. by destruct (op s) as [s1 [a|e|]]. Qed.

Lemma call_lineage clock c (s : Mem) :
  s_tx_snapshot s = None ->
  lineage [c] (s_mutation_intents s) (s_mutation_intents (fst (intent_call clock c s))).
Proof.
  intros Hs. assert (Hc : no_preview c \/ exists i o, c = CallPreview i o).
  { destruct c; [right; eauto | by left..]. }
  destruct Hc as [Hc|(i & o & ->)].
  - apply lineage_moved. apply (call_follows (s_mutation_intents s) clock c Hc s).
    split; [apply moved_refl | by rewrite Hs].
  - cbn [intent_call]. rewrite effect_fst.
    destruct (preview_effect clock i o s Hs) as [->|(Hk & Hi & ->)].
    + apply lineage_moved, moved_refl.
    + by apply lineage_preview.
Qed.

Lemma history_lineage s cs s' :
  intent_history s cs s' -> s_tx_snapshot s = None ->
  lineage cs (s_mutation_intents s) (s_mutation_intents s') /\ s_tx_snapshot s' = None.
Proof.
  induction 1 as [s|s s1 s' clock c cs r Hc Hr _ IH]; intros Hs; [split; [apply lineage_moved, moved_refl | done]|].
  pose proof (call_lineage clock c s Hs) as Hl. pose proof (call_settles clock c s Hs) as Hset.
  rewrite Hc in Hl, Hset. destruct Hset as [|Hs1]; [done|]. destruct (IH Hs1) as [Hl' Hs'].
  split; [by eapply lineage_trans | done].
Qed.

(** The states an intent passes through, by decision. *)
Definition state_allowed (d : MutationIntentDecision) (st : ApprovalState) : bool :=
  match d, st with
  | _, Expired => true
  | Allow, (AS_None | Committed) => true
  | Deny, AS_None => true
  | NeedsApproval, (Pending | Approved | Rejected | Committed) => true
  | _, _ => false
  end.

Definition terminal (st : ApprovalState) : bool :=
  match st with Rejected | Expired | Committed => true | _ => false end.

Lemma terminal_final i i' : rtc intent_move i i' -> terminal (mi_approval_state i) = true -> i' = i.
Proof.
  induction 1 as [|i j k (st & -> & He) _ _]; [done|]. intros Ht. exfalso.
  inversion He as [Hd Hs|Hd Hs|Hd Hs|Hd Hs|d st' Hst Hd Hs]; subst; rewrite ?Hs in *; try (rewrite <- Hs in Ht; done).
  by destruct (mi_approval_state i).
Qed.

Lemma move_allowed i i' :
  rtc intent_move i i' -> state_allowed (mi_decision i) (mi_approval_state i) = true ->
  state_allowed (mi_decision i') (mi_approval_state i') = true.
Proof.
  induction 1 as [|i j k (st & -> & He) _ IH]; [done|]. intros Ha. apply IH. simpl.
  inversion He; subst; simpl; by destruct (mi_decision i).
Qed.

Lemma initial_allowed i : initial i -> state_allowed (mi_decision i) (mi_approval_state i) = true.
Proof. unfold initial. intros ->. by destruct (mi_decision i). Qed.

(** C33. Through any history of service calls an intent only ever moves along the
    edges of the life cycle and keeps everything but its state: an intent that
    was rejected, has expired or was committed never changes again; every new
    intent was previewed, in the state its decision calls for; and no intent
    stored by the history is committed unless its decision was to allow it, or it
    needed approval and was approved first. *)
Theorem intent_state_machine (s s' : Mem) (cs : list IntentCall)
    (Hidle : s_tx_snapshot s = None) (Hrun : intent_history s cs s') :
  (forall k i, s_mutation_intents s !! k = Some i ->
     exists i', s_mutation_intents s' !! k = Some i' /\ rtc intent_move i i' /\
       (terminal (mi_approval_state i) = true -> i' = i)) /\
  (forall k i', s_mutation_intents s !! k = None -> s_mutation_intents s' !! k = Some i' ->
     exists i origin, CallPreview i origin ∈ cs /\ intent_key i = k /\ initial i /\ rtc intent_move i i' /\
       state_allowed (mi_decision i') (mi_approval_state i') = true).
Proof.
  destruct (history_lineage _ _ _ Hrun Hidle) as [[Ho Hn] _]. split.
  - intros k i Hi. destruct (Ho k i Hi) as (i' & Hi' & Hr). eauto using terminal_final.
  - intros k i' Hk Hi'. destruct (Hn k i' Hk Hi') as (i & o & Hin & Hkey & Hinit & Hr).
    exists i, o. split_and!; [done..|]. eauto using move_allowed, initial_allowed.
Qed.
(** ** Commits *)

(** Two stores that differ at most in their audit log. *)
Definition same_but_audit (s s' : Mem) : Prop :=
  visible (set_audit_log (s_audit_log s) s') = visible s.

(** The hash a commit is checked against. *)
Definition committed_hash (req : MutationIntentTransactionCommitRequest) : string :=
  operation_hash (default (canonical_staged_transaction_operation (cr_transaction req))
                    (cr_canonical_operation req)).

Abbreviation commit_intent clock monotonic req :=
  (commit_transaction_intent (S := Mem) validate secs_display clock signer monotonic req).

Lemma failure_audit_same clock scope e actor (s : Mem) :
  s_tx_snapshot s = None ->
  same_but_audit s (fst (append_commit_validation_failure_audit (S := Mem) clock scope e actor s)).
Proof.
  intros Hs. unfold append_commit_validation_failure_audit, same_but_audit.
  destruct (commit_validation_failure_intent_id e) as [iid|]; [|by destruct s].
  unfold bind at 1, reads. destruct (load_intent s scope iid); [|by destruct s..].
  unfold bind, gets, commit_storage, map_err, abort_on_err. simpl.
  unfold begin_tx, bind, gets, Datatypes.id. rewrite Hs. simpl. by destruct s.
Qed.

Lemma validate_with_audit_err clock scope token current now actor (s s' : Mem) e :
  s_tx_snapshot s = None ->
  validate_commit_bindings_with_audit (S := Mem) clock signer scope token current now actor s = (s', Err e) ->
  same_but_audit s s'.
Proof.
  intros Hs. unfold validate_commit_bindings_with_audit.
  destruct (validate_commit_bindings signer s scope token current now) as [i|e'|]; [done| |done].
  intros Hf. pose proof (failure_audit_same clock scope e' actor s Hs) as Hk.
  apply bind_err in Hf as [Hf|(s1 & [] & Hf & [= <- _])]; by rewrite Hf in Hk.
Qed.

Lemma hook_tx scope id st : tx_kept (commit_hook (S := Mem) scope id st).
Proof. intros x. apply keeps_map_err, update_state_tx. Qed.

Lemma hook_run scope id st (s s' : Mem) i' :
  commit_hook (S := Mem) scope id st s = (s', Ok i') ->
  exists i, s_mutation_intents s !! key scope id = Some i /\ mi_approval_state i = st /\
    i' = set_approval_state Committed i /\
    s_mutation_intents s' = <[key scope id := i']> (s_mutation_intents s).
Proof.
  unfold commit_hook, update_state, storage. rewrite !map_err_run. simpl.
  unfold update_mutation_intent_state, bind, gets, Datatypes.id.
  destruct (s_mutation_intents s !! _) as [i|] eqn:Hi; [|done].
  destruct (bool_decide_reflect (mi_approval_state i = st)); [|done]. simpl.
  intros [= <- <-]. by exists i.
Qed.

(** The operations of a transaction leave the intents alone. *)
Lemma executed_intents t cx clock (s s2 s3 : Mem) res :
  execute validate t cx s = (s2, Ok res) -> append_all clock 0 (map snd res) s2 = (s3, Ok tt) ->
  s_mutation_intents s3 = s_mutation_intents s.
Proof.
  intros (_ & _ & Hx)%execute_checked Ha. pose proof (apply_ops_frame cx (tx_ops t) s) as Hf.
  rewrite Hx in Hf. unfold frame in Hf. simpl in Hf. injection Hf as _ _ _ _ _ _ _ _ Hi _.
  destruct (append_all_memory clock 0 (map snd res) s2) as [log Hl]. rewrite Hl in Ha.
  injection Ha as <-. exact Hi.
Qed.

Lemma hook_commit_ok t now clock actor attribution lin scope id st (s s' : Mem) w i' :
  s_tx_snapshot s = None ->
  commit_with_storage_hook validate secs_display t now clock actor attribution lin
    (commit_hook scope id st) s = (s', Ok (w, i')) ->
  exists i, s_mutation_intents s !! key scope id = Some i /\ mi_approval_state i = st /\
    i' = set_approval_state Committed i /\
    s_mutation_intents s' = <[key scope id := i']> (s_mutation_intents s).
Proof.
  intros Hs Hok. assert (Hh : forall s : Mem, sa_saved (fst (commit_hook scope id st s)) = sa_saved s).
  { intros s0. exact (hook_tx scope id st _ s0 eq_refl). }
  assert (Hs' : sa_saved s = None) by exact Hs.
  destruct (commit_cases validate secs_display t now clock actor attribution lin (commit_hook scope id st) s Hs')
    as [[e Hc]|(s1 & Hv & Hs1 & _ & _ & Hc)]; rewrite Hc in Hok; [done|].
  apply (commit_body_ok validate _ _ _ _ _ _ _ _ _ Hh Hs1) in Hok
    as (s2 & res & s3 & s4 & Hx & Ha & Hr & _ & Hview & _).
  apply hook_run in Hr as (i & Hi & Hst & Hi' & Hm).
  pose proof (executed_intents _ _ _ _ _ _ _ Hx Ha) as H13.
  assert (H01 : s_mutation_intents s1 = s_mutation_intents s) by exact (f_equal ts_mutation_intents Hv).
  assert (H04 : s_mutation_intents s' = s_mutation_intents s4) by exact (f_equal ts_mutation_intents Hview).
  exists i. rewrite <- H01, <- H13, H04. done.
Qed.

Lemma hook_commit_err t now clock actor attribution lin scope id st (s s' : Mem) e :
  s_tx_snapshot s = None ->
  commit_with_storage_hook validate secs_display t now clock actor attribution lin
    (commit_hook scope id st) s = (s', Err e) -> visible s' = visible s.
Proof.
  intros Hs He. assert (Hh : forall s : Mem, sa_saved (fst (commit_hook scope id st s)) = sa_saved s).
  { intros s0. exact (hook_tx scope id st _ s0 eq_refl). }
  assert (Hs' : sa_saved s = None) by exact Hs.
  destruct (commit_cases validate secs_display t now clock actor attribution lin (commit_hook scope id st) s Hs')
    as [[e' Hc]|(s1 & Hv & Hs1 & _ & _ & Hc)]; rewrite Hc in He; [by injection He as <-|].
  by apply (commit_body_err validate _ _ _ _ _ _ _ _ Hh Hs1) in He as [Hview _].
Qed.
(** The intent a commit executes: everything it was previewed with still holds,
    and its state is the one its decision calls for. *)
Definition executable (req : MutationIntentTransactionCommitRequest) (s : Mem) (i : MutationIntent) : Prop :=
  bound_intent signer s (cr_scope req) (cr_token req) (with_operation_hash (committed_hash req) (cr_current req))
    (cr_now_ns req) i /\
  (mi_decision i = Allow /\ mi_approval_state i = AS_None \/
   mi_decision i = NeedsApproval /\ mi_approval_state i = Approved).

Lemma commit_intent_ok clock monotonic req (s s' : Mem) res :
  s_tx_snapshot s = None -> commit_intent clock monotonic req s = (s', Ok res) ->
  exists i, executable req s i /\ ct_intent res = set_approval_state Committed i /\
    s_mutation_intents s' = <[intent_key i := set_approval_state Committed i]> (s_mutation_intents s) /\
    Forall (op_current validate s) (tx_ops (cr_transaction req)) /\
    (is_serializable (tx_isolation (cr_transaction req)) = true ->
       Forall (read_current s) (tx_reads (cr_transaction req)) /\
       Forall (scan_current (is_strict (tx_isolation (cr_transaction req))) s) (tx_scan_reads (cr_transaction req))).
Proof.
  intros Hs Hc. unfold commit_transaction_intent in Hc.
  apply bind_ok in Hc as (s1 & i & Hv & Hc). apply validate_with_audit_ok in Hv as [-> Hb].
  apply bind_ok in Hc as (s2 & st & Hst & Hc). unfold lift in Hst. injection Hst as <- Hst.
  destruct (commit_expected_state i) as [st'| |] eqn:Hexp; [injection Hst as <-|done..].
  apply bind_ok in Hc as (s3 & [w c] & Hx & Hc). injection Hc as <- <-. apply map_err_run in Hx.
  pose proof (hook_commit_ok _ _ _ _ _ _ _ _ _ _ _ _ _ Hs Hx) as (j & Hj & Hst & -> & Hm).
  pose proof Hb as (_ & Hl%load_ok & Hscope & _).
  assert (j = i) as -> by congruence.
  exists i. split_and!; [split; [exact Hb|] | done | by rewrite Hm; unfold intent_key; rewrite Hscope |..].
  - unfold commit_expected_state in Hexp. destruct (mi_decision i); [left|right|done]; split; congruence.
  - refine (proj1 (commit_checked (S := Mem) validate secs_display _ _ _ _ _ _ _ s s3 _ _ Hs _ Hx)).
    intros s0. exact (hook_tx _ _ _ _ s0 eq_refl).
  - refine (proj2 (commit_checked (S := Mem) validate secs_display _ _ _ _ _ _ _ s s3 _ _ Hs _ Hx)).
    intros s0. exact (hook_tx _ _ _ _ s0 eq_refl).
Qed.

Lemma commit_intent_err clock monotonic req (s s' : Mem) e :
  s_tx_snapshot s = None -> commit_intent clock monotonic req s = (s', Err e) -> same_but_audit s s'.
Proof.
  intros Hs Hc. assert (Hrefl : forall v : Mem, visible v = visible s -> same_but_audit s v).
  { intros v Hv. unfold same_but_audit. rewrite <- Hv.
    pose proof (f_equal ts_audit_log Hv) as Hlog. simpl in Hlog. rewrite <- Hlog. done. }
  unfold commit_transaction_intent in Hc. apply bind_err in Hc as [Hv|(s1 & i & Hv & Hc)].
  { by apply validate_with_audit_err in Hv. }
  apply validate_with_audit_ok in Hv as [-> Hb].
  apply bind_err in Hc as [Hst|(s2 & st & Hst & Hc)]; unfold lift in Hst; injection Hst as <-; [by apply Hrefl|].
  apply bind_err in Hc as [Hx|(s3 & [w c] & _ & Hc)]; [|done].
  unfold map_err in Hx. destruct (commit_with_storage_hook _ _ _ _ _ _ _ _ _ s) as [s4 [x|e4|]] eqn:Hk; try done.
  injection Hx as <- _. by apply Hrefl, (hook_commit_err _ _ _ _ _ _ _ _ _ _ _ _ Hs Hk).
Qed.

(** Committing an intent executes it or does nothing: a commit that succeeds has
    found, under a verified token, the stored intent of the caller's scope,
    unexpired, allowed or approved, previewed for the hash of the operation at
    hand, for the same subject, grant, schema and policy versions, with every row
    it had read at its recorded version, and the caller authorized; its transaction
    passed its own checks; and of the intents it has changed exactly this one, to
    committed.  A commit that fails has changed at most the audit log. *)
Theorem intent_commit_exact (clock : nat -> Z) (monotonic : Z)
    (req : MutationIntentTransactionCommitRequest) (s s' : Mem)
    (r : result MutationIntentCommitResult MutationIntentCommitValidationError)
    (Hidle : s_tx_snapshot s = None)
    (Hrun : commit_intent clock monotonic req s = (s', r)) :
  match r with
  | Ok res => exists i, executable req s i /\ ct_intent res = set_approval_state Committed i /\
      s_mutation_intents s' = <[intent_key i := set_approval_state Committed i]> (s_mutation_intents s) /\
      Forall (op_current validate s) (tx_ops (cr_transaction req)) /\
      (is_serializable (tx_isolation (cr_transaction req)) = true ->
         Forall (read_current s) (tx_reads (cr_transaction req)) /\
         Forall (scan_current (is_strict (tx_isolation (cr_transaction req))) s)
           (tx_scan_reads (cr_transaction req)))
  | Err _ => same_but_audit s s'
  | Panic => True
  end.
Proof. destruct r as [res|e|]; [by eapply commit_intent_ok | by eapply commit_intent_err | done]. Qed.

(** C32. An intent is executed at most once: after a successful commit, however the
    service is used in between, no commit with a token for the same intent in the
    same scope succeeds again. *)
Theorem intent_commits_once (clock clock2 : nat -> Z) (monotonic monotonic2 : Z)
    (req req2 : MutationIntentTransactionCommitRequest) (s s1 s2 s3 : Mem) (cs : list IntentCall)
    (res : MutationIntentCommitResult)
    (r : result MutationIntentCommitResult MutationIntentCommitValidationError)
    (Hidle : s_tx_snapshot s = None)
    (Hfirst : commit_intent clock monotonic req s = (s1, Ok res))
    (Hbetween : intent_history s1 cs s2)
    (Hsame : verify signer (cr_token req2) = Ok (intent_id (ct_intent res)) /\ cr_scope req2 = cr_scope req)
    (Hsecond : commit_intent clock2 monotonic2 req2 s2 = (s3, r)) :
  forall res2, r <> Ok res2.
Proof.
  intros res2 ->. pose proof (commit_intent_settles clock monotonic req s Hidle) as Hs1. rewrite Hfirst in Hs1.
  destruct Hs1 as [|Hs1]; [done|]. simpl in Hs1.
  destruct (commit_intent_ok _ _ _ _ _ _ Hidle Hfirst) as (i & [(_ & _ & Hscope & _) _] & Hres & Hm & _).
  destruct (history_lineage _ _ _ Hbetween Hs1) as [[Ho _] Hs2].
  destruct (Ho (intent_key i) (set_approval_state Committed i)) as (i2 & Hi2 & Hr);
    [by rewrite Hm, lookup_insert_eq|].
  apply terminal_final in Hr as ->; [|done].
  destruct (commit_intent_ok _ _ _ _ _ _ Hs2 Hsecond) as (j & [(Hid & Hl%load_ok & _) Hst] & _).
  destruct Hsame as [Hv Hsc]. rewrite Hv, Hres in Hid. injection Hid as Hid. simpl in Hid.
  assert (j = set_approval_state Committed i) as ->.
  { rewrite Hsc, <- Hid, <- Hscope in Hl. unfold intent_key in Hi2. congruence. }
  simpl in Hst. naive_solver.
Qed.
End Histories.
