(* ===== verification/EntitySpec.v ===== *)
(** * What an accepted write does

    An abstract account of the handler's entity operations as a step relation on
    the stored rows and the audit log, and the proof that the handler on the
    in-memory adapter implements it; invariants follow by induction on steps. *)

From S2P Require Import Prelude Json Ids Types IndexKeys Intents AuditLog.
From S2P Require Import Schema PolicyPlan PolicyCycles PolicyCompile.
From S2P Require Import Rules Gates JsonOps AuthStore Roles Storage Catalog.
From S2P Require Import PolicyEval PolicyDecide Interface MemoryTx MemoryRows Transactions.
From S2P Require Import MemoryCommit Requests EntityWrites EntityProofs.
Local Open Scope axon_scope.

(** ** Lifecycle states *)

Section LifecycleStates.
Context `{SerdeNumber}.

(** The document holds a known state of the lifecycle. *)
Definition in_known_state (data : Value) (lc : LifecycleDef) : Prop :=
  exists st, value_get data (lc_field lc) = Some (JString st) /\ is_known_lifecycle_state lc st = true.

Definition lifecycle_ok (schema : CollectionSchema) (data : Value) : Prop :=
  forall name lc, cs_lifecycles schema !! name = Some lc -> in_known_state data lc.

Lemma initial_known lc : is_known_lifecycle_state lc (lc_initial lc) = true.
Proof. unfold is_known_lifecycle_state. by rewrite bool_decide_true. Qed.

Lemma value_get_insert obj k v f :
  value_get (Object (map_insert k v obj)) f =
  if decide (f = k) then Some v else value_get (Object obj) f.
Proof.
  simpl. case_decide as Hf; [subst; apply assoc_get_insert_eq | by apply assoc_get_insert_ne].
Qed.

Lemma enforce_lifecycle_ok mode lc data data' :
  enforce_lifecycle mode lc data = Ok data' ->
  in_known_state data' lc /\
  (forall f st, value_get data f = Some (JString st) -> value_get data' f = Some (JString st)) /\
  (mode = ModeUpdate -> data' = data).
Proof.
  unfold enforce_lifecycle. intros He.
  assert (Hinit : forall obj, data = Object obj ->
    value_get data (lc_field lc) = None \/ value_get data (lc_field lc) = Some Null ->
    mode = ModeCreate -> data' = Object (map_insert (lc_field lc) (JString (lc_initial lc)) obj) ->
    in_known_state data' lc /\
    (forall f st, value_get data f = Some (JString st) -> value_get data' f = Some (JString st)) /\
    (mode = ModeUpdate -> data' = data)).
  { intros obj -> Hn -> ->. split; [|split; [|done]].
    - exists (lc_initial lc). rewrite value_get_insert, decide_True by done. by split; [|apply initial_known].
    - intros f st Hf. rewrite value_get_insert. case_decide; [subst|done].
      destruct Hn as [Hn|Hn]; rewrite Hn in Hf; done. }
  destruct (value_get data (lc_field lc)) as [v|] eqn:Hv.
  - destruct v; cbn [as_str] in He; try done.
    + destruct mode; [|done]. destruct data; try done. injection He as <-. apply (Hinit fields); auto.
    + destruct (is_known_lifecycle_state lc s) eqn:Hk; [|done]. injection He as <-.
      split; [by exists s|]. by split.
  - destruct mode; [|done]. destruct data; try done. injection He as <-. apply (Hinit fields); auto.
Qed.

Lemma enforce_lifecycles_ok mode lcs data data' :
  enforce_lifecycles mode lcs data = Ok data' ->
  (forall lc, In lc lcs -> in_known_state data' lc) /\
  (forall f st, value_get data f = Some (JString st) -> value_get data' f = Some (JString st)) /\
  (mode = ModeUpdate -> data' = data).
Proof.
  revert data. induction lcs as [|lc lcs IH]; intros data; simpl; [by intros [= <-]|].
  intros (d1 & H1 & H2)%result_bind_ok. apply enforce_lifecycle_ok in H1 as (Hk & Hkeep & Hu).
  apply IH in H2 as (Hks & Hkeep2 & Hu2). split_and!.
  - intros lc' [->|Hin]; [|by apply Hks]. destruct Hk as (st & Hst & Hkn). exists st. auto.
  - auto.
  - intros Hm. rewrite Hu2, Hu by done. done.
Qed.

Lemma enforce_optional_ok schema data mode data' :
  enforce_lifecycle_optional schema data mode = Ok data' ->
  (forall sch, schema = Some sch -> lifecycle_ok sch data') /\ (mode = ModeUpdate -> data' = data).
Proof.
  destruct schema as [sch|]; simpl; [|by intros [= <-]].
  intros (Hks & _ & Hu)%enforce_lifecycles_ok. split; [|done]. intros ? [= <-] name lc Hl.
  apply Hks. apply in_map_iff. exists (name, lc). split; [done|]. by apply list_elem_of_In, elem_of_map_to_list.
Qed.
End LifecycleStates.

(** ** The step relation *)

Section Spec.
Context `{RuleEnv} `{TextFormat} `{ContentHasher}.
Variable fuel depth : nat.
Variable validate : CollectionSchema -> Value -> result unit AxonError.
Variable validate_link_metadata : Value -> Value -> result unit AxonError.
Variable reserved_payload : string -> string -> string.
Variable secs_display : Z -> string.

Abbreviation Mem := MemoryStorageAdapter (only parsing).

(** One row replaced (or removed), all others as before. *)
Definition row_changed (s s' : Mem) (key : QualifiedCollectionId) (id : EntityId) (o : option Entity) : Prop :=
  forall k i, stored s' k i = if decide (k = key) then row_set (stored s key) id o i else stored s k i.

(** One entry more in the log, the given one with its id and time. *)
Definition logged_once (s s' : Mem) (e : AuditEntry) : Prop :=
  exists entry, log_entries (s_audit_log s') = log_entries (s_audit_log s) ++ [entry] /\ same_entry e entry.

(** Schemas, collections and links stay; no transaction is open. *)
Definition catalog_kept (s s' : Mem) : Prop :=
  s_schema_versions s' = s_schema_versions s /\ s_collections s' = s_collections s /\
  s_links s' = s_links s /\ s_tx_snapshot s' = None.

(** The policies of the schema, if there are any, admit the write. *)
Definition policy_admits (s : Mem) (schema : option CollectionSchema) (actor : option string)
    (caller : option CallerIdentity) (attribution : option AuditAttribution) (check : PolicyWriteCheck) : Prop :=
  exists snapshot,
    policy_snapshot_for_request s (wc_collection check) schema actor caller attribution = Ok snapshot /\
    enforce_write_policy fuel s None depth schema snapshot check false = Ok tt.

(** The document may be stored: it is valid, passes the save gate and holds
    known lifecycle states; [eval] is the verdict of the gates. *)
Definition document_ok (schema : option CollectionSchema) (data : Value) (eval : option GateEvaluation) : Prop :=
  validate_optional validate schema data = Ok tt /\ evaluate_save_gate fuel schema data = Ok eval /\
  (forall sch, schema = Some sch -> lifecycle_ok sch data).

(** The row that replaces [old] at the next version. *)
Definition successor (clock : nat -> Z) (key : QualifiedCollectionId) (schema : option CollectionSchema)
    (eval : option GateEvaluation) (actor : option string) (id : EntityId) (data : Value) (old : Entity)
    : Entity := {|
  e_collection := q_collection key; e_id := id; e_version := wrap64 (e_version old + 1);
  e_data := data; e_created_at_ns := e_created_at_ns old; e_updated_at_ns := Some (clock O);
  e_created_by := e_created_by old; e_updated_by := actor;
  e_schema_version := option_map cs_version schema; e_gate_results := gates_of eval |}.

Definition first_version (clock : nat -> Z) (key : QualifiedCollectionId) (schema : option CollectionSchema)
    (eval : option GateEvaluation) (actor : option string) (id : EntityId) (data : Value) : Entity := {|
  e_collection := q_collection key; e_id := id; e_version := 1; e_data := data;
  e_created_at_ns := Some (clock O); e_updated_at_ns := Some (clock O); e_created_by := actor;
  e_updated_by := actor; e_schema_version := option_map cs_version schema;
  e_gate_results := gates_of eval |}.

Definition update_check (req : UpdateEntityRequest) (current : Value) : PolicyWriteCheck := {|
  wc_collection := ue_collection req; wc_entity_id := Some (ue_id req); wc_operation := OpUpdate;
  wc_current_data := Some current; wc_candidate_data := ue_data req;
  wc_field_scope := PresentFields (ue_data req); wc_operation_index := None |}.

Definition patch_check (req : PatchEntityRequest) (current : Value) : PolicyWriteCheck := {|
  wc_collection := pe_collection req; wc_entity_id := Some (pe_id req); wc_operation := OpUpdate;
  wc_current_data := Some current; wc_candidate_data := json_merge_patch current (pe_patch req);
  wc_field_scope := PatchScope (pe_patch req); wc_operation_index := None |}.

Definition create_check (req : CreateEntityRequest) (data : Value) : PolicyWriteCheck := {|
  wc_collection := ce_collection req; wc_entity_id := Some (ce_id req); wc_operation := OpCreate;
  wc_current_data := None; wc_candidate_data := data; wc_field_scope := PresentFields data;
  wc_operation_index := None |}.

Definition delete_check (req : DeleteEntityRequest) (current : Value) : PolicyWriteCheck := {|
  wc_collection := de_collection req; wc_entity_id := Some (de_id req); wc_operation := OpDelete;
  wc_current_data := Some current; wc_candidate_data := current; wc_field_scope := PresentFields current;
  wc_operation_index := None |}.

(** The update request behind a transition. *)
Definition transition_update (req : TransitionLifecycleRequest) (data : Value) : UpdateEntityRequest := {|
  ue_collection := tl_collection_id req; ue_id := tl_entity_id req; ue_data := data;
  ue_expected_version := tl_expected_version req; ue_actor := tl_actor req;
  ue_audit_metadata := tl_audit_metadata req; ue_attribution := tl_attribution req |}.

(** [entity_step clock call s s']: what an accepted call has checked in [s] and
    how it changed the rows and the log. *)
Inductive entity_step (clock : nat -> Z) : HandlerCall -> Mem -> Mem -> Prop :=
| step_create req caller s s' key schema data eval :
    is_reserved_collection (ce_collection req) = false ->
    resolve_catalog_key s (ce_collection req) = Ok key -> get_schema s (ce_collection req) = Ok schema ->
    enforce_lifecycle_optional schema (ce_data req) ModeCreate = Ok data ->
    document_ok schema data eval ->
    policy_admits s schema (ce_actor req) caller (ce_attribution req) (create_check req data) ->
    row_changed s s' key (ce_id req)
      (Some (first_version clock key schema eval (ce_actor req) (ce_id req) data)) ->
    logged_once s s' (request_entry (ce_collection req) (ce_id req) 1 EntityCreate None (Some data)
      (ce_actor req) (ce_audit_metadata req) (ce_attribution req)) ->
    catalog_kept s s' ->
    entity_step clock (CallCreate req caller) s s'
| step_create_strict req caller s s' :
    get s (ce_collection req) (ce_id req) = Ok None ->
    entity_step clock (CallCreate req caller) s s' ->
    entity_step clock (CallCreateStrict req caller) s s'
| step_update req caller s s' key schema old eval :
    is_reserved_collection (ue_collection req) = false ->
    resolve_catalog_key s (ue_collection req) = Ok key -> get_schema s (ue_collection req) = Ok schema ->
    stored s key (ue_id req) = Some old -> e_version old = ue_expected_version req ->
    document_ok schema (ue_data req) eval ->
    policy_admits s schema (ue_actor req) caller (ue_attribution req) (update_check req (e_data old)) ->
    row_changed s s' key (ue_id req) (Some (successor clock key schema eval (ue_actor req) (ue_id req) (ue_data req) old)) ->
    logged_once s s' (request_entry (ue_collection req) (ue_id req) (wrap64 (e_version old + 1)) EntityUpdate
      (Some (e_data old)) (Some (ue_data req)) (ue_actor req) (ue_audit_metadata req) (ue_attribution req)) ->
    catalog_kept s s' ->
    entity_step clock (CallUpdate req caller) s s'
| step_patch req caller s s' key schema old eval :
    is_reserved_collection (pe_collection req) = false ->
    resolve_catalog_key s (pe_collection req) = Ok key -> get_schema s (pe_collection req) = Ok schema ->
    stored s key (pe_id req) = Some old -> e_version old = pe_expected_version req ->
    let data := json_merge_patch (e_data old) (pe_patch req) in
    document_ok schema data eval ->
    policy_admits s schema (pe_actor req) caller (pe_attribution req) (patch_check req (e_data old)) ->
    row_changed s s' key (pe_id req) (Some (successor clock key schema eval (pe_actor req) (pe_id req) data old)) ->
    logged_once s s' (request_entry (pe_collection req) (pe_id req) (wrap64 (e_version old + 1)) EntityUpdate
      (Some (e_data old)) (Some data) (pe_actor req) (pe_audit_metadata req) (pe_attribution req)) ->
    catalog_kept s s' ->
    entity_step clock (CallPatch req caller) s s'
| step_delete req caller s s' key schema old :
    is_reserved_collection (de_collection req) = false ->
    resolve_catalog_key s (de_collection req) = Ok key -> get_schema s (de_collection req) = Ok schema ->
    (de_force req = false -> list_inbound_links s (de_collection req) (de_id req) None = []) ->
    stored s key (de_id req) = Some old ->
    policy_admits s schema (de_actor req) caller (de_attribution req) (delete_check req (e_data old)) ->
    row_changed s s' key (de_id req) None ->
    logged_once s s' (request_entry (de_collection req) (de_id req) (e_version old) EntityDelete
      (Some (e_data old)) None (de_actor req) (de_audit_metadata req) (de_attribution req)) ->
    catalog_kept s s' ->
    entity_step clock (CallDelete req caller) s s'
| step_delete_missing req caller s s' :
    is_reserved_collection (de_collection req) = false ->
    (de_force req = false -> list_inbound_links s (de_collection req) (de_id req) None = []) ->
    get s (de_collection req) (de_id req) = Ok None ->
    (forall k i, stored s' k i = stored s k i) ->
    log_entries (s_audit_log s') = log_entries (s_audit_log s) -> catalog_kept s s' ->
    entity_step clock (CallDelete req caller) s s'
| step_transition req s s' schema lc old data :
    get_schema s (tl_collection_id req) = Ok (Some schema) ->
    cs_lifecycles schema !! tl_lifecycle_name req = Some lc ->
    get s (tl_collection_id req) (tl_entity_id req) = Ok (Some old) ->
    tl_target_state req ∈ default [] (lc_transitions lc !! default "" (value_get (e_data old) (lc_field lc) ≫= as_str)) ->
    value_index_assign (e_data old) (lc_field lc) (JString (tl_target_state req)) = Ok data ->
    (exists snapshot,
       policy_snapshot_for_request s (tl_collection_id req) (Some schema) (tl_actor req) None
         (tl_attribution req) = Ok snapshot /\
       enforce_transition_policy fuel s None depth schema snapshot {|
         tc_collection := tl_collection_id req; tc_entity_id := tl_entity_id req;
         tc_lifecycle_field := lc_field lc; tc_target_state := tl_target_state req;
         tc_data := data |} = Ok tt) ->
    entity_step clock (CallUpdate (transition_update req data) None) s s' ->
    entity_step clock (CallTransition req) s s'.

(** *** Inversion of a run *)

Lemma durable_run_rows {R} clock (write : M Mem AxonError R) make_audit (s s' : Mem) r entry :
  s_tx_snapshot s = None -> row_write s_tx_snapshot (fun s => log_entries (s_audit_log s)) write ->
  commit_write_with_durable_audit clock write make_audit s = (s', Ok (r, entry)) ->
  exists s2 log, write (set_tx_snapshot (Some (visible s)) s) = (s2, Ok r) /\
    s' = set_tx_snapshot None (set_audit_log log s2) /\
    log_entries log = log_entries (s_audit_log s) ++ [entry] /\ same_entry (make_audit r) entry.
Proof.
  intros Hs Hw Hr. unfold commit_write_with_durable_audit, commit_write_with_durable_audit_entries in Hr.
  apply bind_ok in Hr as (s5 & [r' appended] & Hok & Hr). apply gets_inv in Hok.
  cbn [negb sa_owns_audit_log memory_adapter] in Hok.
  apply bind_ok in Hok as (s1 & [] & Hb & Hok). cbn [sa_begin_tx memory_adapter] in Hb.
  unfold begin_tx in Hb. apply gets_inv in Hb. unfold Datatypes.id in Hb. rewrite Hs in Hb.
  unfold modify in Hb. injection Hb as <-.
  apply bind_ok in Hok as (s2 & [r2 a2] & Hin%or_abort_ok & Hok).
  apply bind_ok in Hok as (s3 & [] & Hc & [= <- <- <-]).
  apply bind_ok in Hin as (s4 & r3 & Hw' & Hin). apply bind_ok in Hin as (s6 & es & [= <- <-] & Hin).
  cbn [append_each] in Hin. apply bind_ok in Hin as (s7 & es & Hin & [= <- <- <-]).
  apply bind_ok in Hin as (s8 & e1 & Ha & Hin). injection Hin as <- <-.
  cbn [sa_append_audit_entry memory_adapter] in Ha. unfold append_audit_entry in Ha.
  destruct (append (s_audit_log s4) (clock 1%nat) (make_audit r3)) as [log e2] eqn:Hap. injection Ha as <- <-.
  injection Hr as <- <- <-.
  change (write (set_tx_snapshot (Some (visible s)) s) = (s4, Ok r3)) in Hw'.
  pose proof (Hw (set_tx_snapshot (Some (visible s)) s)) as Hf. rewrite Hw' in Hf.
  cbn [fst set_tx_snapshot s_tx_snapshot s_audit_log] in Hf. destruct Hf as [Hsnap Hlog].
  exists s4, log. split; [done|]. cbn [sa_commit_tx memory_adapter] in Hc. unfold commit_tx in Hc.
  apply gets_inv in Hc. unfold Datatypes.id in Hc. cbn [set_audit_log s_tx_snapshot] in Hc.
  rewrite Hsnap in Hc. unfold modify in Hc. injection Hc as <-. split; [done|].
  unfold append in Hap. injection Hap as <- <-. split; [by rewrite <-Hlog|]. by eexists _, _.
Qed.

Lemma durable_run {R} clock (write : M Mem AxonError R) make_audit (s s' : Mem) r entry :
  s_tx_snapshot s = None -> frame_kept write ->
  commit_write_with_durable_audit clock write make_audit s = (s', Ok (r, entry)) ->
  exists s2 log, write (set_tx_snapshot (Some (visible s)) s) = (s2, Ok r) /\
    s' = set_tx_snapshot None (set_audit_log log s2) /\
    log_entries log = log_entries (s_audit_log s) ++ [entry] /\ same_entry (make_audit r) entry.
Proof. intros Hs Hf%frame_rows. by apply durable_run_rows. Qed.

(** Returning the row as the client named its collection. *)
Lemma present_frame {A B} (m : M Mem AxonError A) (g : A -> B) :
  frame_kept m -> frame_kept (bind m (fun a => ret (g a))).
Proof. intros Hm s. unfold bind. specialize (Hm s). by destruct (m s) as [s' [a|e|]]. Qed.

(** What stays after a write, its audit entry and the commit. *)
Lemma catalog_after {R} (write : M Mem AxonError R) s s2 r log :
  frame_kept write -> write (set_tx_snapshot (Some (visible s)) s) = (s2, Ok r) ->
  s_links s2 = s_links s -> catalog_kept s (set_tx_snapshot None (set_audit_log log s2)).
Proof.
  intros Hw Hr Hl. specialize (Hw (set_tx_snapshot (Some (visible s)) s)). rewrite Hr in Hw.
  unfold frame in Hw. simpl in Hw. injection Hw as _ _ Hsv Hc _ _ _ _ _ _. done.
Qed.

Lemma access_granted c op (s s' : Mem) {A} (k : unit -> M Mem AxonError A) a :
  bind (ensure_access reserved_payload c op) k s = (s', Ok a) ->
  is_reserved_collection c = false /\ k tt s = (s', Ok a).
Proof.
  intros ([] & Hacc & Hk)%lift_ok. unfold ensure_generic_collection_access in Hacc.
  by destruct (is_reserved_collection c).
Qed.

Lemma get_stored (s : Mem) c i key : resolve_catalog_key s c = Ok key -> sr_get s c i = Ok (stored s key i).
Proof. intros Hk. cbn [sr_get memory_reads]. unfold get. by rewrite Hk. Qed.

(** A compare-and-swap with its audit entry. *)
Lemma swap_run clock cand v make_audit c (s s' : Mem) u entry :
  s_tx_snapshot s = None ->
  commit_write_with_durable_audit clock
    (bind (sa_compare_and_swap cand v) (fun stored => ret (present_entity c stored))) make_audit s = (s', Ok (u, entry)) ->
  exists key old, resolve_catalog_key s (e_collection cand) = Ok key /\ stored s key (e_id cand) = Some old /\
    e_version old = v /\
    u = present_entity c (with_version (wrap64 (v + 1)) cand) /\
    row_changed s s' key (e_id cand)
      (Some (with_version (wrap64 (v + 1)) (with_collection (q_collection key) cand))) /\
    logged_once s s' (make_audit u) /\ catalog_kept s s'.
Proof.
  intros Hs Hr. assert (Hf : frame_kept (bind (compare_and_swap cand v) (fun stored => ret (present_entity c stored)))).
  { apply present_frame, compare_and_swap_frame. }
  apply durable_run in Hr as (s2 & log & Hw & -> & Hlog & Hsame); [|done|exact Hf].
  pose proof (fun Hl => catalog_after _ s s2 u log Hf Hw Hl) as Hcat.
  apply bind_ok in Hw as (s3 & st & Hcas & [= <- <-]).
  apply compare_and_swap_effect in Hcas as (key & old & Hkey & Hold & Hv & -> & Hrows & _ & Hl & _).
  exists key, old. split_and!; [done..| |by apply Hcat]. exists entry. by split.
Qed.

Lemma update_run clock req caller (s s' : Mem) r :
  s_tx_snapshot s = None ->
  update_entity_inner fuel depth validate reserved_payload clock req caller s = (s', Ok r) ->
  entity_step clock (CallUpdate req caller) s s'.
Proof.
  intros Hs Hr. unfold update_entity_inner in Hr. apply access_granted in Hr as [Hres Hr].
  unfold update_entity_inner_unchecked in Hr.
  apply reads_inv in Hr as (schema & Hsch & Hr). apply reads_inv in Hr as (snap & Hsnap & Hr).
  apply lift_ok in Hr as (data & Hlc & Hr). apply lift_ok in Hr as ([] & Hval & Hr).
  apply lift_ok in Hr as (eval & Hev & Hr). apply reads_inv in Hr as (existing & Hex & Hr).
  apply reads_inv in Hr as ([] & Hpol & Hr). cbv zeta in Hr.
  apply bind_ok in Hr as (s1 & [u entry] & Hsw & [= <- <-]).
  apply swap_run in Hsw as (key & old & Hkey & Hold & Hv & -> & Hrows & Hlog & Hcat); [|done].
  cbn [e_collection e_id] in *. rewrite (get_stored _ _ _ _ Hkey), Hold in Hex. injection Hex as <-.
  apply enforce_optional_ok in Hlc as [Hlc Hdata]. specialize (Hdata eq_refl). subst data.
  apply (step_update clock req caller s s1 key schema old eval); try done.
  - exists snap. by split.
  - unfold successor. rewrite Hv. exact Hrows.
  - rewrite Hv. exact Hlog.
Qed.

Lemma patch_run clock req caller (s s' : Mem) r :
  s_tx_snapshot s = None ->
  patch_entity_inner fuel depth validate reserved_payload clock req caller s = (s', Ok r) ->
  entity_step clock (CallPatch req caller) s s'.
Proof.
  intros Hs Hr. unfold patch_entity_inner in Hr. apply access_granted in Hr as [Hres Hr].
  apply reads_inv in Hr as (found & Hex & Hr). destruct found as [existing|]; [|done]. cbv zeta in Hr.
  apply reads_inv in Hr as (schema & Hsch & Hr). apply reads_inv in Hr as (snap & Hsnap & Hr).
  apply lift_ok in Hr as (data & Hlc & Hr). apply lift_ok in Hr as ([] & Hval & Hr).
  apply lift_ok in Hr as (eval & Hev & Hr). apply reads_inv in Hr as ([] & Hpol & Hr).
  apply bind_ok in Hr as (s1 & [u entry] & Hsw & [= <- <-]).
  apply swap_run in Hsw as (key & old & Hkey & Hold & Hv & -> & Hrows & Hlog & Hcat); [|done].
  cbn [e_collection e_id] in *. rewrite (get_stored _ _ _ _ Hkey), Hold in Hex. injection Hex as <-.
  apply enforce_optional_ok in Hlc as [Hlc Hdata]. specialize (Hdata eq_refl). subst data.
  apply (step_patch clock req caller s s1 key schema old eval); try done.
  - exists snap. by split.
  - unfold successor. rewrite Hv. exact Hrows.
  - rewrite Hv. exact Hlog.
Qed.

Lemma create_run clock req caller (s s' : Mem) r :
  s_tx_snapshot s = None ->
  create_entity_inner fuel depth validate reserved_payload clock req caller s = (s', Ok r) ->
  entity_step clock (CallCreate req caller) s s'.
Proof.
  intros Hs Hr. unfold create_entity_inner in Hr. apply access_granted in Hr as [Hres Hr].
  unfold create_entity_inner_unchecked in Hr.
  apply reads_inv in Hr as (schema & Hsch & Hr). apply reads_inv in Hr as (snap & Hsnap & Hr).
  apply lift_ok in Hr as (data & Hlc & Hr). apply reads_inv in Hr as ([] & Hpol & Hr).
  apply lift_ok in Hr as ([] & Hval & Hr). apply lift_ok in Hr as (eval & Hev & Hr). cbv zeta in Hr.
  apply bind_ok in Hr as (s1 & [u entry] & Hw & [= <- <-]).
  match type of Hw with context [sa_put ?e] => set (entity := e) in * end.
  assert (Hf : frame_kept (bind (put entity) (fun _ => ret entity))) by apply (present_frame _ (fun _ => entity)), put_frame.
  apply durable_run in Hw as (s2 & log & Hw & -> & Hlog & Hsame); [|done|exact Hf].
  pose proof (fun Hl => catalog_after _ s s2 u log Hf Hw Hl) as Hcat.
  apply bind_ok in Hw as (s3 & [] & Hput & [= <- <-]).
  apply put_effect in Hput as (key & Hkey & Hrows & _ & Hl & _).
  pose proof (enforce_optional_ok _ _ _ _ Hlc) as [Hok _].
  apply (step_create clock req caller s _ key schema data eval); try done.
  - exists snap. by split.
  - exists entry. by split.
  - by apply Hcat.
Qed.

Lemma delete_run clock req caller (s s' : Mem) r :
  s_tx_snapshot s = None ->
  delete_entity_inner fuel depth reserved_payload clock req caller s = (s', Ok r) ->
  entity_step clock (CallDelete req caller) s s'.
Proof.
  intros Hs Hr. unfold delete_entity_inner in Hr. apply access_granted in Hr as [Hres Hr].
  apply reads_inv in Hr as (schema & Hsch & Hr). apply reads_inv in Hr as (snap & Hsnap & Hr).
  apply bind_ok in Hr as (s0 & inbound & Hin & Hr).
  assert (Hin' : s0 = s /\ (de_force req = false -> list_inbound_links s (de_collection req) (de_id req) None = inbound)).
  { destruct (de_force req); [by injection Hin as <- <-|]. unfold reads in Hin. simpl in Hin. by injection Hin as <- <-. }
  destruct Hin' as [-> Hin']. destruct inbound; [|done].
  apply reads_inv in Hr as (existing & Hex & Hr). destruct existing as [old|].
  - apply reads_inv in Hr as ([] & Hpol & Hr). apply bind_ok in Hr as (s1 & [[] entry] & Hw & [= <- <-]).
    apply durable_run in Hw as (s2 & log & Hw & -> & Hlog & Hsame); [|done|apply delete_frame].
    pose proof (fun Hl => catalog_after _ s s2 tt log (delete_frame _ _) Hw Hl) as Hcat.
    apply delete_effect in Hw as (key & Hkey & Hrows & _ & Hl & _).
    change (resolve_catalog_key s (de_collection req) = Ok key) in Hkey.
    rewrite (get_stored _ _ _ _ Hkey) in Hex. injection Hex as Hex.
    apply (step_delete clock req caller s _ key schema old); try done.
    + exists snap. by split.
    + exists entry. by split.
    + by apply Hcat.
  - apply bind_ok in Hr as (s1 & [] & Hd & [= <- <-]).
    pose proof (delete_frame (de_collection req) (de_id req) s) as Hf. cbn [sa_delete memory_adapter] in Hd.
    rewrite Hd in Hf. unfold frame in Hf. cbn [fst] in Hf. injection Hf as Hsn Hlg Hsv Hco _ _ _ _ _ _.
    apply delete_effect in Hd as (key & Hkey & Hrows & _ & Hl & _).
    pose proof Hex as Hex'.
    rewrite (get_stored _ _ _ _ Hkey) in Hex'. injection Hex' as Hex'.
    apply step_delete_missing; [exact Hres|exact Hin'|exact Hex| |by rewrite Hlg|].
    + intros k i. rewrite Hrows. unfold row_set. repeat case_decide; naive_solver.
    + split_and!; congruence.
Qed.

Lemma create_strict_run clock req caller (s s' : Mem) r :
  s_tx_snapshot s = None ->
  create_entity_strict_inner fuel depth validate reserved_payload clock req caller s = (s', Ok r) ->
  entity_step clock (CallCreateStrict req caller) s s'.
Proof.
  intros Hs Hr. unfold create_entity_strict_inner in Hr. apply access_granted in Hr as [Hres Hr].
  apply reads_inv in Hr as (existing & Hex & Hr). destruct existing; [done|].
  apply step_create_strict; [exact Hex|]. by eapply create_run.
Qed.

Lemma transition_run clock req (s s' : Mem) r :
  s_tx_snapshot s = None ->
  transition_lifecycle fuel depth validate reserved_payload clock req s = (s', Ok r) ->
  entity_step clock (CallTransition req) s s'.
Proof.
  intros Hs Hr. unfold transition_lifecycle in Hr. apply access_granted in Hr as [Hres Hr].
  apply reads_inv in Hr as (found & Hsch & Hr). destruct found as [schema|]; [|done].
  destruct (cs_lifecycles schema !! tl_lifecycle_name req) as [lc|] eqn:Hlc; [|done].
  apply reads_inv in Hr as (found & Hex & Hr). destruct found as [old|]; [|done]. cbv zeta in Hr.
  case_bool_decide as Hallowed; [cbn [negb] in Hr|done].
  apply lift_ok in Hr as (data & Hdata & Hr). apply reads_inv in Hr as (snap & Hsnap & Hr).
  apply reads_inv in Hr as ([] & Hpol & Hr). apply bind_ok in Hr as (s1 & resp & Hup & [= <- <-]).
  apply (step_transition clock req s s1 schema lc old data); try done.
  - exists snap. by split.
  - by eapply update_run.
Qed.


Definition is_entity_call (call : HandlerCall) : bool :=
  match call with
  | CallCreateLink _ | CallDeleteLink _ | CallCommit _ _ _ _ _ => false
  | _ => true
  end.

Abbreviation handle := (run_handler (S := Mem) fuel depth validate validate_link_metadata reserved_payload secs_display).

Lemma handler_step clock call (s s' : Mem) :
  is_entity_call call = true -> s_tx_snapshot s = None ->
  handle clock call s = (s', Ok tt) -> entity_step clock call s s'.
Proof.
  intros Hc Hs Hr. destruct call; try done; apply bind_ok in Hr as (s1 & r & Hr & [= <-]);
    eauto using create_run, create_strict_run, update_run, patch_run, delete_run, transition_run.
Qed.



(** ** The lifecycle invariant *)

(** The schema in force for a collection. *)
Definition schema_at (s : Mem) (key : QualifiedCollectionId) : option CollectionSchema :=
  s_schema_versions s !! key ≫= fun versions => option_map (fun e => fst (snd e)) (last_version versions).

Definition lifecycles_hold (s : Mem) : Prop :=
  forall key sch id e, schema_at s key = Some sch -> stored s key id = Some e -> lifecycle_ok sch (e_data e).

Lemma get_schema_at (s : Mem) c key schema :
  resolve_catalog_key s c = Ok key -> get_schema s c = Ok schema -> schema = schema_at s key.
Proof. intros Hk. unfold get_schema. rewrite Hk. by intros [= <-]. Qed.

Lemma row_changed_holds (s s' : Mem) key id o :
  row_changed s s' key id o -> s_schema_versions s' = s_schema_versions s ->
  (forall e sch, o = Some e -> schema_at s key = Some sch -> lifecycle_ok sch (e_data e)) ->
  lifecycles_hold s -> lifecycles_hold s'.
Proof.
  intros Hrows Hsv Hnew Hold k sch i e Hsch Hst. unfold schema_at in Hsch. rewrite Hsv in Hsch.
  rewrite Hrows in Hst. unfold row_set in Hst. destruct (decide (k = key)) as [->|]; [|by eapply Hold].
  destruct (decide (i = id)) as [->|]; [by eapply Hnew|by eapply Hold].
Qed.

Lemma step_holds clock call s s' : entity_step clock call s s' -> lifecycles_hold s -> lifecycles_hold s'.
Proof.
  induction 1 as [req caller s s' key schema data eval Hres Hkey Hsch Hlc Hdoc Hpol Hrows Hlog Hcat
    |req caller s s' Hex Hstep IH
    |req caller s s' key schema old eval Hres Hkey Hsch Hold Hv Hdoc Hpol Hrows Hlog Hcat
    |req caller s s' key schema old eval Hres Hkey Hsch Hold Hv data Hdoc Hpol Hrows Hlog Hcat
    |req caller s s' key schema old Hres Hkey Hsch Hin Hold Hpol Hrows Hlog Hcat
    |req caller s s' Hres Hin Hex Hrows Hlog Hcat
    |req s s' schema lc old data Hsch Hlc Hex Hall Hdata Hpol Hstep IH]; intros Hh; auto.
  - eapply row_changed_holds; [exact Hrows|apply Hcat| |done]. intros e sch [= <-] Hs.
    rewrite <-(get_schema_at s _ key schema Hkey Hsch) in Hs. by apply Hdoc.
  - eapply row_changed_holds; [exact Hrows|apply Hcat| |done]. intros e sch [= <-] Hs.
    rewrite <-(get_schema_at s _ key schema Hkey Hsch) in Hs. by apply Hdoc.
  - eapply row_changed_holds; [exact Hrows|apply Hcat| |done]. intros e sch [= <-] Hs.
    rewrite <-(get_schema_at s _ key schema Hkey Hsch) in Hs. by apply Hdoc.
  - eapply row_changed_holds; [exact Hrows|apply Hcat|done|done].
  - destruct Hcat as (Hsv & _). intros k sch i e Hs Hst. unfold schema_at in Hs. rewrite Hsv in Hs.
    rewrite Hrows in Hst. by eapply Hh.
Qed.

Lemma step_idle clock call s s' : entity_step clock call s s' -> s_tx_snapshot s' = None.
Proof. induction 1; try done; by match goal with Hc : catalog_kept _ _ |- _ => apply Hc end. Qed.

Lemma visible_holds (s s' : Mem) : visible s' = visible s -> lifecycles_hold s -> lifecycles_hold s'.
Proof.
  intros Hv Hh key sch id e. unfold schema_at, stored. unfold visible in Hv.
  injection Hv as Hd Hsv _ _ _ _ _ _ _ _ _ _. rewrite Hd, Hsv. apply Hh.
Qed.

(** The states that entity calls lead to, accepted or rejected. *)
Inductive reachable (s0 : Mem) : Mem -> Prop :=
| reach_start : reachable s0 s0
| reach_call clock call s s' r :
    reachable s0 s -> is_entity_call call = true -> handle clock call s = (s', r) -> r <> Panic ->
    reachable s0 s'.

(** C9. Lifecycle fields always hold known states: whatever entity calls a
    client makes, in any order and with any outcome, every stored row of a
    collection with lifecycles carries, in each lifecycle field, the initial
    state or a state that the lifecycle's transitions mention. *)
Theorem lifecycle_invariant (s0 s : Mem) :
  s_tx_snapshot s0 = None -> lifecycles_hold s0 -> reachable s0 s -> lifecycles_hold s.
Proof.
  intros Hs0 Hh0 Hr. assert (Hboth : s_tx_snapshot s = None /\ lifecycles_hold s); [|by destruct Hboth].
  induction Hr as [|clock call s s' r Hr [Hs Hh] Hc Hrun Hp]; [done|].
  destruct r as [[]|e|]; [| |done].
  - pose proof (handler_step clock call s s' Hc Hs Hrun) as Hstep.
    split; [by eapply step_idle|]. by eapply step_holds.
  - assert (Ha : sa_view s' = sa_view s /\ sa_saved s' = None).
    { eapply run_restored; [exact Hs|exact Hrun]. }
    destruct Ha as [Hv Hsv].
    split; [exact Hsv|]. exact (visible_holds s s' Hv Hh).
Qed.
End Spec.
