(* ===== verification/Histories.v ===== *)
(** * Histories of commits on the in-memory adapter

    Sequences of commits, successful and failed, by any number of clients on
    one [MemoryStorageAdapter] (the server runs commits one at a time under the
    adapter's lock): no update is lost, the first of two conflicting writers
    wins, and a serializable scan sees no phantoms. *)

From S2P Require Import Prelude Json Ids Types IndexKeys Intents AuditLog Schema.
From S2P Require Import AuthStore Storage Catalog Interface MemoryTx MemoryRows.
From S2P Require Import Transactions MemoryCommit.

Section Histories.
Context `{SerdeNumber} `{TextFormat} `{ContentHasher}.
Variable validate : CollectionSchema -> Value -> result unit AxonError.
Variable secs_display : Z -> string.

Abbreviation Mem := MemoryStorageAdapter (only parsing).

(** [history s ts s']: the commits [ts] run in this order take the store from
    [s] to [s']; each transaction is paired with whether it committed. *)
Inductive history : Mem -> list (Transaction * bool) -> Mem -> Prop :=
| history_nil s : history s [] s
| history_committed t now clock actor attribution s s1 w ts s2 :
    commit validate secs_display t now clock actor attribution s = (s1, Ok w) ->
    history s1 ts s2 -> history s ((t, true) :: ts) s2
| history_failed t now clock actor attribution s s1 e ts s2 :
    commit validate secs_display t now clock actor attribution s = (s1, Err e) ->
    history s1 ts s2 -> history s ((t, false) :: ts) s2.

(** The operations that took effect, in order. *)
Definition committed_ops (ts : list (Transaction * bool)) : list StagedOp :=
  concat (map (fun p => if snd p : bool then tx_ops (fst p) else []) ts).

Lemma commit_failed_visible t now clock actor attribution (s s1 : Mem) e :
  s_tx_snapshot s = None ->
  commit validate secs_display t now clock actor attribution s = (s1, Err e) ->
  visible s1 = visible s /\ s_tx_snapshot s1 = None.
Proof.
  intros Hidle Hc. unfold commit in Hc. apply bind_err in Hc as [Hc|(s2 & [w u] & _ & Hc)]; [|done].
  assert (Hsaved : sa_saved s = None) by exact Hidle.
  destruct (commit_cases validate secs_display t now clock actor attribution None (ret tt) s Hsaved)
    as [[e' Hx]|(s2 & Hv & Hs2 & _ & _ & Hx)]; rewrite Hx in Hc.
  - by injection Hc as <- _.
  - exact (commit_body_err validate t clock _ (ret tt) s2 s1 e (visible s) (fun _ => eq_refl) Hs2 Hc).
Qed.

Lemma commit_ok_idle t now clock actor attribution (s s1 : Mem) w :
  s_tx_snapshot s = None ->
  commit validate secs_display t now clock actor attribution s = (s1, Ok w) ->
  s_tx_snapshot s1 = None /\ s_collections s1 = s_collections s.
Proof.
  intros Hidle (s2 & res & log & Ha & -> & _)%memory_commit_inv; [|done]. split; [done|].
  exact (apply_ops_collections _ _ _ _ _ Ha).
Qed.

Lemma visible_data (s s1 : Mem) : visible s1 = visible s -> s_data s1 = s_data s.
Proof. intros Hv. exact (f_equal ts_data Hv). Qed.

Lemma visible_collections (s s1 : Mem) : visible s1 = visible s -> s_collections s1 = s_collections s.
Proof. intros Hv. exact (f_equal ts_collections Hv). Qed.

(** ** Versions *)

(** [op] updates the row [i] under [k]. *)
Definition updates (s : Mem) (k : QualifiedCollectionId) (i : EntityId) (op : StagedOp) : bool :=
  match op with
  | SEntity o =>
      match resolve_catalog_key s (e_collection (wo_entity o)) with
      | Ok k' => bool_decide (wo_mutation o = EntityUpdate /\ k' = k /\ e_id (wo_entity o) = i)
      | _ => false
      end
  | _ => false
  end.

(** [op] does not create, delete or relink the row. *)
Definition no_replace (s : Mem) (k : QualifiedCollectionId) (i : EntityId) (op : StagedOp) : Prop :=
  updates s k i op = true \/ ~ touches s op k i.

Lemma updates_collections (s s1 : Mem) k i op :
  s_collections s1 = s_collections s -> updates s1 k i op = updates s k i op.
Proof. intros Hc. destruct op; simpl; by rewrite ?(resolve_collections s s1 _ Hc). Qed.

Lemma no_replace_collections (s s1 : Mem) k i op :
  s_collections s1 = s_collections s -> no_replace s1 k i op <-> no_replace s k i op.
Proof.
  intros Hc. unfold no_replace.
  by rewrite (updates_collections s s1 k i op Hc), (touches_collections s s1 op k i Hc).
Qed.

Lemma updates_true (s : Mem) k i op :
  updates s k i op = true ->
  exists o, op = SEntity o /\ wo_mutation o = EntityUpdate /\
    resolve_catalog_key s (e_collection (wo_entity o)) = Ok k /\ e_id (wo_entity o) = i.
Proof.
  destruct op as [o|l|l]; simpl; try done. destruct (resolve_catalog_key s _) as [k'| |] eqn:Hk; try done.
  intros (Hm & -> & <-)%bool_decide_eq_true. by exists o.
Qed.

(** The version after [n] updates. *)
Definition bumped (n : nat) (v : Z) : Z := Nat.iter n (fun v => wrap64 (v + 1)) v.

Lemma bumped_wrap n v : u64_ok v = true -> bumped n v = wrap64 (v + Z.of_nat n).
Proof.
  intros Hv. unfold u64_ok, u64_max in Hv. unfold bumped, wrap64.
  induction n as [|n IH]; simpl.
  - rewrite Z.add_0_r, Z.mod_small; lia.
  - rewrite IH, Zplus_mod_idemp_l. f_equal. lia.
Qed.

Lemma bumped_ne n v :
  u64_ok v = true -> (0 < Z.of_nat n <= u64_max)%Z -> bumped n v <> v.
Proof.
  intros Hv Hn. rewrite bumped_wrap by done. unfold wrap64, u64_max, u64_ok in *.
  intros Heq. assert (Hd := Z.div_mod (v + Z.of_nat n) (2 ^ 64)).
  unfold u64_max in *. nia.
Qed.

Lemma bumped_add n m v : bumped n (bumped m v) = bumped (m + n) v.
Proof. unfold bumped. rewrite Nat.add_comm. by rewrite Nat.iter_add. Qed.

Definition row_version (s : Mem) (k : QualifiedCollectionId) (i : EntityId) : Z :=
  version_of (stored s k i).

Lemma apply_op_version cx op (s s' : Mem) o k i :
  apply_op cx op s = (s', Ok o) -> no_replace s k i op ->
  row_version s' k i = if updates s k i op then wrap64 (row_version s k i + 1) else row_version s k i.
Proof.
  intros Ha Hn. unfold row_version. destruct (updates s k i op) eqn:Hu.
  - apply updates_true in Hu as (w & -> & Hm & Hk & <-).
    rewrite (apply_op_target cx w s s' o k Ha) by (cbn [effective]; rewrite ?Hm; done).
    unfold row_after. rewrite Hm. cbn [version_of e_version with_version].
    cbn [apply_op] in Ha. rewrite Hm in Ha.
    apply bind_ok in Ha as (s1 & u & Hc & _).
    apply compare_and_swap_effect in Hc as (key & c & Hkey & Hst & <- & _).
    replace k with key by congruence. by rewrite Hst.
  - destruct Hn as [Hn|Hn]; [congruence|]. by rewrite (apply_op_untouched cx op s s' o k i Ha Hn).
Qed.

Lemma apply_ops_version cx ops (s s' : Mem) res k i :
  apply_ops cx ops s = (s', Ok res) -> Forall (no_replace s k i) ops ->
  row_version s' k i = bumped (length (List.filter (updates s k i) ops)) (row_version s k i).
Proof.
  revert s res. induction ops as [|op ops IH]; intros s res; [by intros [= <- _]|].
  intros (s1 & o & rest & Ho & Hr & Hc)%apply_ops_cons Hall. inversion Hall as [|? ? Hn Hns]; subst.
  rewrite (IH s1 rest Hr).
  - rewrite (apply_op_version _ _ _ _ _ k i Ho Hn).
    rewrite (List.filter_ext (updates s1 k i) (updates s k i))
      by (intros op'; by apply updates_collections).
    cbn [List.filter]. destruct (updates s k i op); [|done].
    cbn [length]. change (wrap64 (row_version s k i + 1)) with (bumped 1 (row_version s k i)).
    by rewrite bumped_add.
  - eapply Forall_impl; [|exact Hns]. intros op' Hop. by rewrite (no_replace_collections s s1).
Qed.

Lemma commit_version t now clock actor attribution (s s1 : Mem) w k i :
  s_tx_snapshot s = None ->
  commit validate secs_display t now clock actor attribution s = (s1, Ok w) ->
  Forall (no_replace s k i) (tx_ops t) ->
  row_version s1 k i = bumped (length (List.filter (updates s k i) (tx_ops t))) (row_version s k i).
Proof.
  intros Hidle (s2 & res & log & Ha & -> & _)%memory_commit_inv Hall; [|done].
  exact (apply_ops_version _ _ _ _ _ k i Ha Hall).
Qed.

Lemma history_version s ts s' k i :
  history s ts s' -> s_tx_snapshot s = None -> Forall (no_replace s k i) (committed_ops ts) ->
  s_tx_snapshot s' = None /\ s_collections s' = s_collections s /\
  row_version s' k i =
    bumped (length (List.filter (updates s k i) (committed_ops ts))) (row_version s k i).
Proof.
  intros Hh. induction Hh as [s|t now clock actor att s s1 w ts s2 Hc Hh IH
                            |t now clock actor att s s1 e ts s2 Hc Hh IH]; intros Hidle Hall.
  - done.
  - change (committed_ops ((t, true) :: ts)) with (tx_ops t ++ committed_ops ts) in *.
    apply Forall_app in Hall as [Ht Hts].
    destruct (commit_ok_idle _ _ _ _ _ _ _ _ Hidle Hc) as [Hi1 Hc1].
    destruct (IH Hi1) as (Hi2 & Hc2 & Hv2).
    { eapply Forall_impl; [|exact Hts]. intros op Hop. by rewrite (no_replace_collections s s1). }
    split_and!; [done | congruence|].
    rewrite Hv2, (commit_version _ _ _ _ _ _ _ _ k i Hidle Hc Ht), bumped_add.
    rewrite List.filter_app, length_app. do 2 f_equal.
    f_equal. apply List.filter_ext. intros op. by apply updates_collections.
  - change (committed_ops ((t, false) :: ts)) with (committed_ops ts) in *.
    destruct (commit_failed_visible _ _ _ _ _ _ _ _ Hidle Hc) as [Hv Hi1].
    pose proof (visible_collections _ _ Hv) as Hc1. pose proof (visible_data _ _ Hv) as Hd1.
    destruct (IH Hi1) as (Hi2 & Hc2 & Hv2).
    { eapply Forall_impl; [|exact Hall]. intros op Hop. by rewrite (no_replace_collections s s1). }
    split_and!; [done | congruence|]. rewrite Hv2.
    rewrite (List.filter_ext (updates s1 k i) (updates s k i))
      by (intros op'; by apply updates_collections).
    unfold row_version. by rewrite (stored_data s s1).
Qed.

(** C3. No update is ever lost: over any history of commits, successful and
    failed, that does not delete or recreate a row, the row's version is the
    initial one advanced (with the wrap-around of a u64) by exactly the
    number of committed updates of the row. *)
Theorem no_lost_updates (s s' : Mem) (ts : list (Transaction * bool))
    (k : QualifiedCollectionId) (i : EntityId) (row : Entity)
    (Hidle : s_tx_snapshot s = None) (Hrow : stored s k i = Some row)
    (Hver : u64_ok (e_version row) = true)
    (Hkept : Forall (no_replace s k i) (committed_ops ts))
    (Hrun : history s ts s') :
  row_version s' k i =
    wrap64 (e_version row + Z.of_nat (length (List.filter (updates s k i) (committed_ops ts)))).
Proof.
  destruct (history_version s ts s' k i Hrun Hidle Hkept) as (_ & _ & ->).
  unfold row_version. rewrite Hrow. by apply bumped_wrap.
Qed.

(** [t] relies on the row being at version [v]: it updates or deletes the row
    expecting that version, or has read it there at a serializable level. *)
Definition relies_on (s : Mem) (k : QualifiedCollectionId) (i : EntityId) (v : Z)
    (t : Transaction) : Prop :=
  (exists o, In (SEntity o) (tx_ops t) /\
     (wo_mutation o = EntityUpdate \/ wo_mutation o = EntityDelete) /\
     resolve_catalog_key s (e_collection (wo_entity o)) = Ok k /\ e_id (wo_entity o) = i /\
     wo_expected_version o = v) \/
  (is_serializable (tx_isolation t) = true /\
   exists r, In r (tx_reads t) /\ resolve_catalog_key s (rr_collection r) = Ok k /\
     rr_id r = i /\ rr_observed_version r = v).

Lemma history_get_stored (s : Mem) c i k cur :
  resolve_catalog_key s c = Ok k -> get s c i = Ok cur -> cur = stored s k i.
Proof. intros Hk. unfold get. rewrite Hk. by intros [= <-]. Qed.

Lemma relies_on_current t now clock actor attribution (s s1 s' : Mem) w k i v :
  s_tx_snapshot s = None ->
  commit validate secs_display t now clock actor attribution s = (s', Ok w) ->
  s_collections s = s_collections s1 -> relies_on s1 k i v t -> row_version s k i = v.
Proof.
  intros Hidle (s2 & res & log & _ & _ & _ & Hops & Hser)%memory_commit_inv Hcol Hrel; [|done].
  unfold row_version. destruct Hrel as [(o & Hin & Hm & Hk & <- & <-)|(Hi & r & Hin & Hk & <- & <-)].
  - destruct (proj1 (List.Forall_forall _ _) Hops _ Hin) as (cur & Hget & _ & Hv & _).
    rewrite <-(resolve_collections s1 s _ Hcol) in Hk.
    rewrite <-(history_get_stored s _ _ k cur Hk Hget). exact (Hv Hm).
  - destruct (Hser Hi) as [Hr _]. destruct (proj1 (List.Forall_forall _ _) Hr _ Hin) as (cur & Hget & Hv).
    rewrite <-(resolve_collections s1 s _ Hcol) in Hk.
    by rewrite <-(history_get_stored s _ _ k cur Hk Hget).
Qed.

(** C37. The first committer wins: once any transaction has committed an update
    of a row, no transaction that relies on the row's earlier version (to
    update it, to delete it, or as a serializable read) can commit any more,
    whatever other commits ran in between, as long as the row is not deleted
    or recreated and fewer than 2^64 updates were made. *)
Theorem first_committer_wins (s s' : Mem) (ts : list (Transaction * bool))
    (k : QualifiedCollectionId) (i : EntityId) (row : Entity) (t : Transaction)
    (Hidle : s_tx_snapshot s = None) (Hrow : stored s k i = Some row)
    (Hver : u64_ok (e_version row) = true)
    (Hkept : Forall (no_replace s k i) (committed_ops ts))
    (Hrun : history s ts s')
    (Hupd : (0 < Z.of_nat (length (List.filter (updates s k i) (committed_ops ts))) <= u64_max)%Z)
    (Hrel : relies_on s k i (e_version row) t) :
  forall now clock actor attribution s'' w,
    commit validate secs_display t now clock actor attribution s' <> (s'', Ok w).
Proof.
  intros now clock actor attribution s'' w Hok.
  destruct (history_version s ts s' k i Hrun Hidle Hkept) as (Hidle' & Hcol & Hv).
  pose proof (relies_on_current _ _ _ _ _ _ s _ _ k i _ Hidle' Hok Hcol Hrel) as Hcur.
  assert (Hv0 : row_version s k i = e_version row) by (unfold row_version; by rewrite Hrow).
  rewrite Hv, Hv0 in Hcur. exact (bumped_ne _ _ Hver Hupd Hcur).
Qed.

(** ** Structural versions *)

Definition sv (s : Mem) (k : QualifiedCollectionId) : Z := default 0%Z (s_structural_versions s !! k).

(** The counters are within a u64. *)
Definition sv_ok (s : Mem) : Prop := forall k, (sv s k <= u64_max)%Z.

(** No counter goes back, and a collection whose counter (below the saturation
    point) did not move has the same rows. *)
Definition tracked (s s' : Mem) : Prop :=
  sv_ok s' /\ forall k, (sv s k <= sv s' k)%Z /\
    (sv s' k = sv s k -> (sv s k < u64_max)%Z ->
     forall i, is_Some (stored s' k i) <-> is_Some (stored s k i)).

Lemma tracked_refl s : sv_ok s -> tracked s s.
Proof. intros Hs. split; [done|]. intros k. split; [lia | done]. Qed.

Lemma tracked_trans s1 s2 s3 : tracked s1 s2 -> tracked s2 s3 -> tracked s1 s3.
Proof.
  intros [_ H12] [Hok H23]. split; [done|]. intros k.
  destruct (H12 k) as [Hle Hm], (H23 k) as [Hle' Hm']. split; [lia|].
  intros Heq Hlt i. rewrite Hm', Hm by lia. done.
Qed.

Lemma sv_bump (s s' : Mem) key :
  s_structural_versions s' = <[key := saturating_add64 (sv s key) 1]> (s_structural_versions s) ->
  forall k, sv s' k = if decide (k = key) then saturating_add64 (sv s key) 1 else sv s k.
Proof.
  intros Hs k. unfold sv at 1. rewrite Hs. case_decide as Hk.
  - subst k. by rewrite lookup_insert_eq.
  - by rewrite lookup_insert_ne by congruence.
Qed.

(** A write of one row that moves the counter whenever it changes whether the
    row exists. *)
Lemma tracked_row (s s' : Mem) key id o (moved : bool) :
  (forall k i, stored s' k i =
     if decide (k = key) then row_set (stored s key) id o i else stored s k i) ->
  s_structural_versions s' =
    (if moved then <[key := saturating_add64 (sv s key) 1]> (s_structural_versions s)
     else s_structural_versions s) ->
  (moved = false -> is_Some o <-> is_Some (stored s key id)) ->
  sv_ok s -> tracked s s'.
Proof.
  intros Hst Hsv Hmv Hok.
  assert (Hs : forall k, sv s' k =
    if decide (k = key) then (if moved then saturating_add64 (sv s key) 1 else sv s k) else sv s k).
  { intros k. destruct moved; [by apply sv_bump|]. unfold sv. rewrite Hsv. by case_decide. }
  unfold saturating_add64 in Hs. pose proof (Hok key) as Hkey.
  split; [|intros k; split].
  - intros k. rewrite Hs. pose proof (Hok k). case_decide; [destruct moved|]; lia.
  - rewrite Hs. case_decide; [subst k; destruct moved|]; lia.
  - rewrite Hs. intros Heq Hlt i. rewrite Hst. case_decide as Hk; [|done]. subst k.
    destruct moved; [lia|]. unfold row_set. case_decide; [subst i; by apply Hmv | done].
Qed.

Lemma put_tracked e (s s' : Mem) : put e s = (s', Ok tt) -> sv_ok s -> tracked s s'.
Proof.
  intros (key & _ & Hst & Hsv & _)%put_effect Hok.
  apply (tracked_row s s' key (e_id e) _ (bool_decide (stored s key (e_id e) = None)) Hst); [..|done].
  - rewrite Hsv. by destruct (stored s key (e_id e)).
  - intros Hb%bool_decide_eq_false. split; [|by eexists].
    intros _. destruct (stored s key (e_id e)); [by eexists | done].
Qed.

Lemma delete_tracked c id (s s' : Mem) : delete_entity c id s = (s', Ok tt) -> sv_ok s -> tracked s s'.
Proof.
  intros (key & _ & Hst & Hsv & _)%delete_effect Hok.
  apply (tracked_row s s' key id _ (bool_decide (is_Some (stored s key id))) Hst); [..|done].
  - rewrite Hsv. by destruct (stored s key id).
  - intros Hb%bool_decide_eq_false. split; [by intros [] | done].
Qed.

Lemma tracked_fields (s0 s s' : Mem) :
  s_data s0 = s_data s -> s_structural_versions s0 = s_structural_versions s ->
  tracked s0 s' -> tracked s s'.
Proof.
  intros Hd Hs [Hok Ht]. split; [done|]. intros k. specialize (Ht k).
  unfold sv, stored in *. by rewrite Hd, Hs in Ht.
Qed.

Lemma apply_op_tracked cx op (s s' : Mem) o :
  apply_op cx op s = (s', Ok o) -> sv_ok s -> tracked s s'.
Proof.
  intros Ha Hok. destruct op as [op|l|l]; cbn [apply_op] in Ha.
  - destruct (wo_mutation op); try (injection Ha as <- _; by apply tracked_refl).
    + apply bind_ok in Ha as (s1 & [] & Hp & [= <- _]). exact (put_tracked _ _ _ Hp Hok).
    + apply bind_ok in Ha as (s1 & u & Hp & [= <- _]).
      apply compare_and_swap_effect in Hp as (key & c & _ & Hcur & _ & _ & Hst & Hsv & _).
      apply (tracked_row s s1 key _ _ false Hst); [done | | done].
      intros _. rewrite Hcur. split; by eexists.
    + apply bind_ok in Ha as (s1 & [] & Hp & [= <- _]). exact (delete_tracked _ _ _ _ Hp Hok).
  - apply bind_ok in Ha as (s1 & [] & Hp & [= <- _]).
    apply put_link_inv in Hp as (s0 & s2 & Hd & _ & Hsv & _ & Hp1 & Hp2).
    assert (Hok0 : sv_ok s0) by (intros k; unfold sv; rewrite Hsv; apply Hok).
    pose proof (put_tracked _ _ _ Hp1 Hok0) as Ht.
    apply (tracked_fields s0 s s1 Hd Hsv), (tracked_trans s0 s2 s1 Ht), (put_tracked _ _ _ Hp2).
    apply Ht.
  - apply reads_ok in Ha as ([le|] & _ & Ha); [|done].
    apply bind_ok in Ha as (s1 & [] & Hp & [= <- _]).
    apply delete_link_inv in Hp as (s0 & s2 & Hd & _ & Hsv & _ & Hp1 & Hp2).
    assert (Hok0 : sv_ok s0) by (intros k; unfold sv; rewrite Hsv; apply Hok).
    pose proof (delete_tracked _ _ _ _ Hp1 Hok0) as Ht.
    apply (tracked_fields s0 s s1 Hd Hsv), (tracked_trans s0 s2 s1 Ht), (delete_tracked _ _ _ _ Hp2).
    apply Ht.
Qed.

Lemma apply_ops_tracked cx ops (s s' : Mem) res :
  apply_ops cx ops s = (s', Ok res) -> sv_ok s -> tracked s s'.
Proof.
  revert s res. induction ops as [|op ops IH]; intros s res.
  - intros [= <- _] Hok. by apply tracked_refl.
  - intros (s1 & o & rest & Ho & Hr & _)%apply_ops_cons Hok.
    pose proof (apply_op_tracked _ _ _ _ _ Ho Hok) as Ht.
    apply (tracked_trans s s1 s' Ht), (IH _ _ Hr), Ht.
Qed.

(** The counters are at least [f], whatever the outcome of the step. *)
Definition sv_from (f : QualifiedCollectionId -> Z) (s : Mem) : Prop :=
  forall k, (f k <= sv s k <= u64_max)%Z.

Lemma bump_from f key : keeps (sv_from f) (bump_structural_version key).
Proof.
  intros s Hs k. pose proof (Hs key). pose proof (Hs k).
  assert (Hb : s_structural_versions (fst (bump_structural_version key s)) =
    <[key := saturating_add64 (sv s key) 1]> (s_structural_versions s)) by done.
  rewrite (sv_bump s _ key Hb k). unfold saturating_add64. case_decide; [subst k|]; lia.
Qed.

Ltac from_tac := repeat (keeps_step || (progress cbn beta iota)); try apply bump_from;
  try (intros ? Hfrom; exact Hfrom).

Lemma maintain_from f k i o d n : keeps (sv_from f) (maintain_indexes_for_write k i o d n).
Proof. autounfold with axon. from_tac. Qed.

Lemma remove_indexes_from f k i o d : keeps (sv_from f) (remove_indexes_for_delete k i o d).
Proof. autounfold with axon. from_tac. Qed.

Lemma put_from f e : keeps (sv_from f) (put e).
Proof. unfold put, insert_entity. from_tac; apply maintain_from. Qed.

Lemma swap_from f e v : keeps (sv_from f) (compare_and_swap e v).
Proof. unfold compare_and_swap, insert_entity. from_tac; apply maintain_from. Qed.

Lemma delete_from f c i : keeps (sv_from f) (delete_entity c i).
Proof.
  unfold delete_entity, remove_entity. from_tac; try apply remove_indexes_from.
  intros s Hs. by destruct (s_data s !! _).
Qed.

Lemma apply_ops_from f cx ops : keeps (sv_from f) (apply_ops (S := Mem) cx ops).
Proof.
  induction ops as [|op ops IH]; cbn [apply_ops]; repeat keeps_step; try exact IH.
  destruct op as [op|l|l]; cbn [apply_op].
  - destruct (wo_mutation op); repeat keeps_step;
      [apply put_from | apply swap_from | apply delete_from].
  - cbn [sa_put_link memory_adapter]. unfold put_link. from_tac; apply put_from.
  - cbn [sa_delete_link memory_adapter]. unfold delete_link. from_tac; apply delete_from.
Qed.

Lemma or_abort_from {A} f (m : M Mem AxonError A) : keeps (sv_from f) m -> keeps (sv_from f) (or_abort m).
Proof.
  intros Hm s Hs. specialize (Hm s Hs). unfold or_abort. destruct (m s) as [s1 [a|e|]]; try exact Hm.
  cbn [sa_abort_tx memory_adapter]. unfold abort_tx, modify. cbn [fst] in *.
  by destruct (s_tx_snapshot s1).
Qed.

Lemma commit_from f t now clock actor attribution :
  keeps (sv_from f) (commit validate secs_display t now clock actor attribution).
Proof.
  unfold commit, commit_with_storage_hook. repeat keeps_step.
  - cbn [sa_begin_tx memory_adapter]. unfold begin_tx. from_tac.
  - apply or_abort_from. unfold execute. repeat keeps_step; try apply apply_ops_from;
      apply read_only_keeps; auto using check_op_read_only, check_read_read_only, check_scan_read_only.
  - apply or_abort_from. intros s Hs.
    match goal with |- context [append_all clock 0 ?es s] =>
      by destruct (append_all_memory clock 0 es s) as [log ->] end.
  - apply or_abort_from. keeps_step.
  - apply or_abort_from. cbn [sa_commit_tx memory_adapter]. unfold commit_tx. from_tac.
Qed.

Lemma commit_failed_tracked t now clock actor attribution (s s' : Mem) e :
  s_tx_snapshot s = None -> sv_ok s ->
  commit validate secs_display t now clock actor attribution s = (s', Err e) -> tracked s s'.
Proof.
  intros Hidle Hok Hc.
  assert (Hfrom : sv_from (sv s) s') by (pose proof (commit_from (sv s) t now clock actor attribution s) as Hk;
    rewrite Hc in Hk; apply Hk; intros k; split; [lia | apply Hok]).
  apply commit_failed_visible in Hc as [Hv _]; [|done].
  split; [intros k; apply Hfrom|]. intros k. split; [apply Hfrom|]. intros _ _ i.
  by rewrite (stored_data s s' k i (visible_data _ _ Hv)).
Qed.

Lemma history_tracked s ts s' :
  history s ts s' -> s_tx_snapshot s = None -> sv_ok s ->
  s_tx_snapshot s' = None /\ s_collections s' = s_collections s /\ tracked s s'.
Proof.
  intros Hh. induction Hh as [s|t now clock actor att s s1 w ts s2 Hc Hh IH
                            |t now clock actor att s s1 e ts s2 Hc Hh IH]; intros Hidle Hok.
  - split_and!; [done..|]. by apply tracked_refl.
  - destruct (commit_ok_idle _ _ _ _ _ _ _ _ Hidle Hc) as [Hi1 Hc1].
    apply memory_commit_inv in Hc as (s3 & res & log & Ha & -> & _); [|done].
    pose proof (apply_ops_tracked _ _ _ _ _ Ha Hok) as Ht.
    assert (Ht1 : tracked s (set_tx_snapshot None (set_audit_log log s3))) by exact Ht.
    destruct (IH Hi1 (proj1 Ht1)) as (Hi2 & Hc2 & Ht2).
    split_and!; [done | congruence | by eapply tracked_trans].
  - pose proof (commit_failed_tracked _ _ _ _ _ _ _ _ Hidle Hok Hc) as Ht1.
    destruct (commit_failed_visible _ _ _ _ _ _ _ _ Hidle Hc) as [Hv Hi1].
    destruct (IH Hi1 (proj1 Ht1)) as (Hi2 & Hc2 & Ht2).
    split_and!; [done | by rewrite Hc2, (visible_collections _ _ Hv) | by eapply tracked_trans].
Qed.

(** C4. Serializable scans see no phantoms: when a transaction that scanned a
    collection at the serializable level (recording its structural version)
    commits after any history of other commits, successful or rolled back,
    the collection has exactly the rows (by id) it had when it was scanned.
    The counter saturates at the largest u64, where it stops detecting
    changes. *)
Theorem scan_sees_no_phantoms (s s' s'' : Mem) (ts : list (Transaction * bool))
    (c : CollectionId) (k : QualifiedCollectionId) (observed : Z) (t : Transaction)
    (now : Z) (clock : nat -> Z) (actor : option string) (attribution : option AuditAttribution)
    (w : list Entity)
    (Hidle : s_tx_snapshot s = None) (Hsv : sv_ok s)
    (Hkey : resolve_catalog_key s c = Ok k)
    (Hobs : structural_version s c = Ok observed) (Hsat : (observed < u64_max)%Z)
    (Hlevel : tx_isolation t = Serializable)
    (Hscan : In {| sr_scan_collection := c; sr_observed_structural_version := observed |}
                (tx_scan_reads t))
    (Hrun : history s ts s')
    (Hok : commit validate secs_display t now clock actor attribution s' = (s'', Ok w)) :
  forall i, is_Some (stored s' k i) <-> is_Some (stored s k i).
Proof.
  destruct (history_tracked s ts s' Hrun Hidle Hsv) as (Hidle' & Hcol & Ht).
  apply memory_commit_inv in Hok as (_ & _ & _ & _ & _ & _ & _ & Hser); [|done].
  rewrite Hlevel in Hser. destruct (Hser eq_refl) as [_ Hscans].
  pose proof (proj1 (List.Forall_forall _ _) Hscans _ Hscan) as Hcur.
  unfold scan_current in Hcur. cbn in Hcur. unfold structural_version in Hcur, Hobs.
  rewrite (resolve_collections s s' c Hcol), Hkey in Hcur. rewrite Hkey in Hobs.
  injection Hcur as Hcur. injection Hobs as Hobs. destruct (proj2 Ht k) as [_ Hsame].
  unfold sv in Hsame. apply Hsame; congruence.
Qed.
End Histories.
