(* ===== verification/CommitExamples.v ===== *)
(** * Transactions on a concrete store

    Runs of the commit protocol on a small in-memory store: instances of the
    theorems on commits and histories, and three transactions whose operations
    are validated one by one against the state before the commit although they
    conflict with each other. *)

From S2P Require Import Prelude Json Ids Types IndexKeys Intents AuditLog Schema.
From S2P Require Import AuthStore Storage Catalog Interface MemoryTx MemoryRows.
From S2P Require Import Transactions MemoryCommit Histories.

(** A hasher that only looks at the versions. *)
#[export] Instance sum_hasher : ContentHasher :=
  {| hash_pairs l := fold_right (fun p acc => (snd p + 31 * acc)%Z) 7%Z l |}.

Section Examples.
Local Existing Instance simple_serde_number.

Definition accept_all (_ : CollectionSchema) (_ : Value) : result unit AxonError := Ok tt.
Definition no_secs (_ : Z) : string := "0.0".
Definition clock0 (n : nat) : Z := Z.of_nat n.

Abbreviation commit_at t s := (commit accept_all no_secs t 0 clock0 (Some "ann") None s)
  (only parsing).

Definition staged (ops : list StagedOp) (isolation : IsolationLevel) (reads : list ReadRef)
    (scans : list ScanReadRef) : Transaction :=
  {| tx_id := "tx-1"; tx_ops := ops; tx_reads := reads; tx_scan_reads := scans;
     tx_isolation := isolation; tx_created_at := 0; tx_timeout := DEFAULT_TIMEOUT |}.

Definition rename_op (name : string) (expected : Z) : StagedOp :=
  SEntity {| wo_entity := user_row "u1" "a@x" name "red" None; wo_expected_version := expected;
             wo_data_before := None; wo_mutation := EntityUpdate; wo_write_scope := PresentEntity |}.

Definition create_op (id email : string) : StagedOp :=
  SEntity {| wo_entity := user_row id email id "red" None; wo_expected_version := 0;
             wo_data_before := None; wo_mutation := EntityCreate; wo_write_scope := PresentEntity |}.

Definition delete_op (id : string) (expected : Z) : StagedOp :=
  SEntity {| wo_entity := delete_sentinel "users" id expected; wo_expected_version := expected;
             wo_data_before := None; wo_mutation := EntityDelete; wo_write_scope := PresentEntity |}.

Definition rename_tx (name : string) (expected : Z) : Transaction :=
  staged [rename_op name expected] SnapshotIsolation [] [].

Definition is_ok {A} (r : result A AxonError) : bool := match r with Ok _ => true | _ => false end.
Definition is_err {A} (r : result A AxonError) : bool := match r with Err _ => true | _ => false end.

Lemma ran_ok {S A} (m : M S AxonError A) s :
  is_ok (snd (m s)) = true -> exists a, m s = (fst (m s), Ok a).
Proof. destruct (m s) as [s' [a|e|]]; try discriminate. by exists a. Qed.

Lemma ran_err {S A} (m : M S AxonError A) s :
  is_err (snd (m s)) = true -> exists e, m s = (fst (m s), Err e).
Proof. destruct (m s) as [s' [a|e|]]; try discriminate. by exists e. Qed.

Lemma full_users_idle : s_tx_snapshot full_users = None.
Proof.
  pose proof (run_rows_frame two_users empty_users) as Hf.
  fold full_users in Hf. unfold frame in Hf.
  assert (He : s_tx_snapshot empty_users = None) by vm_refl. congruence.
Qed.

Lemma full_users_saved : sa_saved full_users = None.
Proof. exact full_users_idle. Qed.

(** The row [u1] of the sample store. *)
Definition ann : Entity := user_row "u1" "a@x" "ann" "red" None.

Lemma full_users_ann : stored full_users users_key "u1" = Some ann.
Proof. vm_refl. Qed.

(** ** Instances of the theorems *)

Lemma commit_atomic_witness :
  let r := commit_with_storage_hook accept_all no_secs (rename_tx "bob" 5) 0 clock0 (Some "ann")
             None None (ret tt) full_users in
  sa_view (fst r) = sa_view full_users /\ sa_saved (fst r) = None.
Proof.
  intros r. destruct (ran_err (commit_with_storage_hook accept_all no_secs (rename_tx "bob" 5) 0
    clock0 (Some "ann") None None (ret tt)) full_users) as [e He]; [vm_refl|].
  exact (commit_atomic accept_all no_secs (rename_tx "bob" 5) 0 clock0 (Some "ann") None None
    (ret tt) full_users _ e full_users_saved (fun _ => eq_refl) He).
Defined.

Lemma commit_validates_witness :
  Forall (op_current accept_all full_users) (tx_ops (rename_tx "bob" 1)).
Proof.
  destruct (ran_ok (commit_with_storage_hook accept_all no_secs (rename_tx "bob" 1) 0
    clock0 (Some "ann") None None (ret tt)) full_users) as [[w x] Hw]; [vm_refl|].
  exact (proj1 (commit_validates accept_all no_secs (rename_tx "bob" 1) 0 clock0 (Some "ann") None
    None (ret tt) full_users _ w x full_users_saved (fun _ => eq_refl) Hw)).
Defined.

Definition renamed : MemoryStorageAdapter := fst (commit_at (rename_tx "bob" 1) full_users).

Lemma renamed_run : exists w, commit_at (rename_tx "bob" 1) full_users = (renamed, Ok w).
Proof. apply (ran_ok (commit accept_all no_secs (rename_tx "bob" 1) 0 clock0 (Some "ann") None)). vm_refl. Qed.

Lemma commit_audits_witness :
  exists entries, log_entries (s_audit_log renamed) = log_entries (s_audit_log full_users) ++ entries /\
    length entries = 1%nat.
Proof.
  destruct renamed_run as [w Hw].
  destruct (commit_audits accept_all no_secs (rename_tx "bob" 1) 0 clock0 (Some "ann") None
    full_users renamed w full_users_saved Hw) as (_ & s1 & entries & _ & Haud & Hlen & Hl).
  exists entries. split; [exact Haud|].
  inversion Hl as [|? ? ? ? ? He|? ? ? ? ? ? ? es _ _ _ Hrest]; [discriminate He|].
  by inversion Hrest.
Defined.

Lemma commit_effect_witness :
  stored renamed users_key "u2" = stored full_users users_key "u2" /\
  option_map e_version (stored renamed users_key "u1") = Some 2%Z.
Proof.
  destruct renamed_run as [w Hw].
  destruct (commit_effect accept_all no_secs (rename_tx "bob" 1) 0 clock0 (Some "ann") None
    full_users renamed w full_users_idle Hw) as (_ & _ & Hsame & Hlast).
  split.
  - apply Hsame. constructor; [|constructor]. intros [_ Hid]. discriminate Hid.
  - assert (Hkey : resolve_catalog_key full_users "users" = Ok users_key) by vm_refl.
    exact (f_equal (option_map e_version)
      (Hlast [] _ [] users_key eq_refl eq_refl Hkey (List.Forall_nil _))).
Defined.

(** One client renames, a second one comes too late. *)
Definition race : list (Transaction * bool) := [(rename_tx "bob" 1, true); (rename_tx "eve" 1, false)].
Definition raced : MemoryStorageAdapter := fst (commit_at (rename_tx "eve" 1) renamed).

Lemma race_run : history accept_all no_secs full_users race raced.
Proof.
  destruct renamed_run as [w Hw]. eapply history_committed; [exact Hw|].
  destruct (ran_err (commit accept_all no_secs (rename_tx "eve" 1) 0 clock0 (Some "ann") None) renamed)
    as [e He]; [vm_refl|].
  eapply history_failed; [exact He | constructor].
Qed.

Lemma race_updates : updates full_users users_key "u1" (rename_op "bob" 1) = true.
Proof. vm_refl. Qed.

Lemma race_kept : Forall (no_replace full_users users_key "u1") (committed_ops race).
Proof. constructor; [left; exact race_updates | constructor]. Qed.

Lemma race_count : length (List.filter (updates full_users users_key "u1") (committed_ops race)) = 1%nat.
Proof. vm_refl. Qed.

Lemma no_lost_updates_witness : row_version raced users_key "u1" = 2%Z.
Proof.
  rewrite (no_lost_updates accept_all no_secs full_users raced race users_key "u1" ann
    full_users_idle full_users_ann eq_refl race_kept race_run), race_count. reflexivity.
Defined.

Lemma first_committer_wins_witness :
  is_ok (snd (commit_at (rename_tx "eve" 1) full_users)) = true /\
  commit_at (rename_tx "eve" 1) raced <> (raced, Ok [user_row "u1" "a@x" "eve" "red" None]).
Proof.
  split; [vm_refl|].
  apply (first_committer_wins accept_all no_secs full_users raced race users_key "u1" ann
    (rename_tx "eve" 1) full_users_idle full_users_ann eq_refl race_kept race_run).
  - rewrite race_count. unfold u64_max. lia.
  - left. eexists. split; [left; reflexivity|]. split; [left; reflexivity|].
    split; [vm_refl|]. split; reflexivity.
Defined.

(** A transaction that scanned the users and then adds a link-free row. *)
Definition scan_tx : Transaction :=
  staged [create_op "u3" "c@x"] Serializable []
    [{| sr_scan_collection := "users"; sr_observed_structural_version := 2 |}].

Lemma full_users_sv_ok : sv_ok full_users.
Proof.
  assert (Hm : map_Forall (fun _ v => (v <= u64_max)%Z) (s_structural_versions full_users)).
  { apply map_Forall_to_list.
    assert (Hl : forallb (fun p => (snd p <=? u64_max)%Z)
      (map_to_list (s_structural_versions full_users)) = true) by vm_refl.
    apply List.Forall_forall. intros [k v] Hin.
    apply (proj1 (List.forallb_forall _ _) Hl) in Hin. 
    by apply Z.leb_le in Hin. }
  intros k. unfold sv. destruct (s_structural_versions full_users !! k) as [v|] eqn:Hk; simpl.
  - exact (Hm k v Hk).
  - by vm_compute.
Qed.

Lemma scan_sees_no_phantoms_witness :
  (is_Some (stored raced users_key "u1") <-> is_Some (stored full_users users_key "u1")) /\
  (is_Some (stored raced users_key "u3") <-> is_Some (stored full_users users_key "u3")).
Proof.
  destruct (ran_ok (commit accept_all no_secs scan_tx 0 clock0 (Some "ann") None) raced)
    as [w Hw]; [vm_refl|].
  cut (forall i, is_Some (stored raced users_key i) <-> is_Some (stored full_users users_key i));
    [intros Hall; split; apply Hall|].
  eapply (scan_sees_no_phantoms accept_all no_secs full_users raced _ race "users" users_key 2 scan_tx
    0 clock0 (Some "ann") None w full_users_idle full_users_sv_ok).
  - vm_refl.
  - vm_refl.
  - unfold u64_max. lia.
  - reflexivity.
  - left. reflexivity.
  - exact race_run.
  - exact Hw.
Defined.

(** ** Transactions whose operations conflict with each other *)

Definition friend_link : Link :=
  {| l_source_collection := "users"; l_source_id := "u1"; l_target_collection := "users";
     l_target_id := "u2"; l_link_type := "friend"; l_metadata := Null |}.

(** A transaction can create a dangling link: deleting an entity and
    linking to it in the same transaction commits, because the link's
    endpoints are looked up before any operation is applied; afterwards the
    link is stored and its target is gone.  FEAT-007 promises that no dangling
    link is observable at its creation. *)
Theorem dangling_link_commits :
  let r := commit_at (staged [delete_op "u2" 1; SLinkCreate friend_link] SnapshotIsolation [] []) full_users in
  is_ok (snd r) = true /\ get (fst r) "users" "u2" = Ok None /\
  option_map e_data (stored (fst r) (from_parts default_ns links_collection)
                       (link_storage_id friend_link)) = Some (link_to_value friend_link).
Proof. cbv zeta. split_and!; vm_refl. Qed.

(** A transaction can create the same entity twice: both creates pass the
    absence check, the second silently replaces the first, and the audit log
    gets two creations of one id.  ADR-022 says that a transaction's create
    rejects duplicate ids. *)
Theorem duplicate_create_commits :
  let r := commit_at (staged [create_op "u3" "c@x"; create_op "u3" "d@x"] SnapshotIsolation [] []) full_users in
  is_ok (snd r) = true /\
  get (fst r) "users" "u3" = Ok (Some (user_row "u3" "d@x" "u3" "red" None)) /\
  map (fun e => (ae_mutation e, ae_entity_id e)) (log_entries (s_audit_log (fst r))) =
    [(EntityCreate, "u3"); (EntityCreate, "u3")].
Proof. cbv zeta. split_and!; vm_refl. Qed.
End Examples.
