(* ===== verification/Evolution.v ===== *)
(** * Schema evolution *)

From S2P Require Import Prelude Json Ids Types IndexKeys Intents AuditLog Schema Rules Gates.
From S2P Require Import JsonOps.
Local Open Scope axon_scope.

(** ** Schema evolution ([crates/axon-schema/src/evolution.rs])

    The field-level comparison of two JSON Schema documents and the
    classification of the change as compatible, breaking or metadata-only. *)

Inductive Compatibility : Type := Compatible | Breaking | MetadataOnly.

Inductive FieldChangeKind : Type :=
| ChAdded | ChRemoved | ChModified | ChMadeRequired | ChMadeOptional
| ChEnumWidened | ChEnumNarrowed | ChConstraintTightened | ChConstraintRelaxed.

Record FieldChange : Type := {
  fc_path : string;
  fc_kind : FieldChangeKind;
  fc_description : string
}.

Record SchemaDiff : Type := {
  sd_compatibility : Compatibility;
  sd_changes : list FieldChange
}.

#[export] Instance Compatibility_eq_dec : EqDecision Compatibility.
Proof. solve_decision. Defined.
#[export] Instance FieldChangeKind_eq_dec : EqDecision FieldChangeKind.
Proof. solve_decision. Defined.

Section Evolution.
Context `{RuleEnv}.

(** The derived [Debug] forms the descriptions use. *)
Class DebugText : Type := {
  names_debug : list string -> string;
  option_value_debug : option Value -> string
}.
Context `{DebugText}.

(** [BTreeSet] of strings, iterated in order. *)
Definition in_order (names : gset string) : list string := sort_by String.compare (elements names).

Definition strings_of (v : option Value) : option (list string) :=
  option_map (fun items => somes (map as_str items)) (v ≫= as_array).

Definition extract_required (schema : Value) : gset string :=
  match strings_of (value_get schema "required") with Some l => list_to_set l | None => ∅ end.

Definition has_property (schema : Value) (name : string) : bool :=
  match value_get schema "properties" ≫= as_object with
  | Some obj => bool_decide (is_Some (assoc_get name obj))
  | None => false
  end.

(** The entries of [properties]; an object has one entry per key. *)
Definition extract_properties (schema : Value) : list (string * Value) :=
  default [] (value_get schema "properties" ≫= as_object).

Definition extract_enum (field_def : Value) : option (gset string) :=
  option_map list_to_set (strings_of (value_get field_def "enum")).

Definition collect_field_additions (schema : Value) (prefix : string) : list FieldChange :=
  match value_get schema "properties" ≫= as_object with
  | None => []
  | Some props =>
      let required := extract_required schema in
      map (fun '(name, _) => {|
        fc_path := if bool_decide (prefix = "") then name else prefix +:+ "." +:+ name;
        fc_kind := ChAdded;
        fc_description := (if bool_decide (name ∈ required) then "Required" else "Optional")
                            +:+ " field '" +:+ name +:+ "' added" |}) props
  end.

(** [f64::NEG_INFINITY], [f64::INFINITY] and [a < b] *)
Definition NEG_INFINITY : f64 := (2 ^ 63 + 2047 * 2 ^ 52)%Z.
Definition INFINITY : f64 := (2047 * 2 ^ 52)%Z.
Definition f64_ltb (a b : f64) : bool :=
  match f64_partial_cmp a b with Some Lt => true | _ => false end.

Inductive BoundSide : Type := LowerBound | UpperBound.

Definition is_tightened (side : BoundSide) (old_val new_val : option Value) : bool :=
  match side with
  | LowerBound =>
      f64_ltb (default NEG_INFINITY (old_val ≫= as_f64)) (default NEG_INFINITY (new_val ≫= as_f64))
  | UpperBound =>
      f64_ltb (default INFINITY (new_val ≫= as_f64)) (default INFINITY (old_val ≫= as_f64))
  end.

(** The changes collected so far and whether one of them is breaking. *)
Record Diff : Type := { df_changes : list FieldChange; df_breaking : bool }.

Definition push (path : string) (kind : FieldChangeKind) (description : string) (breaking : bool)
    (d : Diff) : Diff := {|
  df_changes := df_changes d ++ [{| fc_path := path; fc_kind := kind; fc_description := description |}];
  df_breaking := df_breaking d || breaking |}.

Definition field_text (path text : string) : string := "Field '" +:+ path +:+ "' " +:+ text.

Definition diff_enum (path : string) (old new : Value) (d : Diff) : Diff :=
  match extract_enum old, extract_enum new with
  | Some old_vals, Some new_vals =>
      let added := in_order (new_vals ∖ old_vals) in
      let removed := in_order (old_vals ∖ new_vals) in
      let d := match removed with
               | [] => d
               | _ => push path ChEnumNarrowed (field_text path ("enum values removed: " +:+ names_debug removed)) true d
               end in
      match added, removed with
      | _ :: _, [] => push path ChEnumWidened (field_text path ("enum values added: " +:+ names_debug added)) false d
      | _, _ => d
      end
  | Some _, None => push path ChConstraintRelaxed (field_text path "enum constraint removed") false d
  | None, Some _ => push path ChConstraintTightened (field_text path "enum constraint added") true d
  | None, None => d
  end.

Definition diff_constraint (path : string) (old new : Value) (d : Diff) (constraint : string * BoundSide) : Diff :=
  let '(name, side) := constraint in
  let old_val := value_get old name in
  let new_val := value_get new name in
  if opt_value_eqb old_val new_val then d
  else
    let values := option_value_debug old_val +:+ " → " +:+ option_value_debug new_val in
    if is_tightened side old_val new_val
    then push path ChConstraintTightened (field_text path (name +:+ " tightened: " +:+ values)) true d
    else push path ChConstraintRelaxed (field_text path (name +:+ " relaxed: " +:+ values)) false d.

Definition constraints : list (string * BoundSide) :=
  [("minLength", LowerBound); ("maxLength", UpperBound); ("minimum", LowerBound); ("maximum", UpperBound)].

Definition diff_field (path : string) (old new : Value) (d : Diff) : Diff :=
  if negb (opt_value_eqb (value_get old "type") (value_get new "type"))
  then push path ChModified
         (field_text path ("type changed from " +:+ value_text (default Null (value_get old "type")) +:+ " to "
            +:+ value_text (default Null (value_get new "type")))) true d
  else fold_left (diff_constraint path old new) constraints (diff_enum path old new d).

Definition mentions (d : Diff) (name : string) : bool :=
  existsb (fun c => bool_decide (fc_path c = name)) (df_changes d).

Definition add_required (old : Value) (d : Diff) (field : string) : Diff :=
  if has_property old field
  then push field ChMadeRequired (field_text field "changed from optional to required") true d
  else push field ChAdded ("Required field '" +:+ field +:+ "' added") true d.

Definition drop_required (new : Value) (d : Diff) (field : string) : Diff :=
  if has_property new field
  then push field ChMadeOptional (field_text field "changed from required to optional") false d
  else push field ChRemoved ("Required field '" +:+ field +:+ "' removed") true d.

Definition add_optional (d : Diff) (name : string) : Diff :=
  if mentions d name then d else push name ChAdded ("Optional field '" +:+ name +:+ "' added") false d.

Definition drop_property (d : Diff) (name : string) : Diff :=
  if mentions d name then d else push name ChRemoved (field_text name "removed") true d.

Definition diff_common (old_props new_props : list (string * Value)) (d : Diff) (name : string) : Diff :=
  match assoc_get name old_props, assoc_get name new_props with
  | Some old_def, Some new_def => diff_field name old_def new_def d
  | _, _ => d
  end.

Definition diff_object_schemas (old new : Value) : SchemaDiff :=
  let old_required := extract_required old in
  let new_required := extract_required new in
  let old_props := extract_properties old in
  let new_props := extract_properties new in
  let old_names : gset string := list_to_set (map fst old_props) in
  let new_names : gset string := list_to_set (map fst new_props) in
  let d := {| df_changes := []; df_breaking := false |} in
  let d := fold_left (add_required old) (in_order (new_required ∖ old_required)) d in
  let d := fold_left (drop_required new) (in_order (old_required ∖ new_required)) d in
  let d := fold_left add_optional (in_order (new_names ∖ old_names)) d in
  let d := fold_left drop_property (in_order (old_names ∖ new_names)) d in
  let d := fold_left (diff_common old_props new_props) (in_order (old_names ∩ new_names)) d in {|
  sd_compatibility :=
    match df_changes d with
    | [] => MetadataOnly
    | _ => if df_breaking d then Breaking else Compatible
    end;
  sd_changes := df_changes d |}.

Definition diff_schemas (old new : option Value) : SchemaDiff :=
  match old, new with
  | None, None => {| sd_compatibility := MetadataOnly; sd_changes := [] |}
  | None, Some new_schema =>
      let changes := collect_field_additions new_schema "" in
      {| sd_compatibility := match changes with [] => MetadataOnly | _ => Compatible end;
         sd_changes := changes |}
  | Some _, None =>
      {| sd_compatibility := Breaking;
         sd_changes := [{| fc_path := "(root)"; fc_kind := ChRemoved;
                           fc_description := "Entity schema removed entirely" |}] |}
  | Some old_schema, Some new_schema => diff_object_schemas old_schema new_schema
  end.

Definition classify (diff : SchemaDiff) : Compatibility := sd_compatibility diff.
End Evolution.

(** ** Soundness of the compatibility verdict

    What a verdict other than breaking guarantees, against a reference reading of
    the JSON Schema keywords that the comparison looks at, and a change that is
    called compatible although it invalidates documents. *)

(** ** Reference semantics of the compared keywords *)

Section Semantics.
Context `{RuleEnv}.

(** What JSON Schema says of the keyword [type] and of the length of a string,
    and how equal JSON numbers read. *)
Class SchemaVocabulary : Type := {
  has_type : Value -> Value -> bool;
  str_length : string -> f64;
  has_type_eq : forall t t' v, value_eqb t t' = true -> has_type t v = has_type t' v;
  str_length_finite : forall s, f64_ok (str_length s) = true /\ f64_is_finite (str_length s) = true;
  eq_as_f64 : forall a b, number_eqb a b = true -> number_as_f64 a = number_as_f64 b
}.
Context `{SchemaVocabulary}.

Definition type_accepts (def v : Value) : bool :=
  match value_get def "type" with Some t => has_type t v | None => true end.

Definition enum_accepts (def v : Value) : bool :=
  match value_get def "enum" ≫= as_array with Some items => existsb (fun x => value_eqb x v) items | None => true end.

(** The magnitude a bound applies to: the length of a string, the value of a number. *)
Definition length_measure (v : Value) : option f64 :=
  match v with JString s => Some (str_length s) | _ => None end.

Definition bound_accepts (side : BoundSide) (bound : option f64) (x : option f64) : bool :=
  match bound, x with
  | Some b, Some y => negb (match side with LowerBound => f64_ltb y b | UpperBound => f64_ltb b y end)
  | _, _ => true
  end.

Definition measure (name : string) (v : Value) : option f64 :=
  if bool_decide (name = "minLength" \/ name = "maxLength") then length_measure v else as_f64 v.

Definition constraint_accepts (def v : Value) (constraint : string * BoundSide) : bool :=
  let '(name, side) := constraint in
  bound_accepts side (value_get def name ≫= as_f64) (measure name v).

Definition field_accepts (def v : Value) : bool :=
  type_accepts def v && enum_accepts def v && forallb (constraint_accepts def v) constraints.

(** A document with these fields passes the compared keywords of the schema. *)
Definition schema_accepts (schema : Value) (doc : list (string * Value)) : bool :=
  forallb (fun f => bool_decide (is_Some (assoc_get f doc))) (elements (extract_required schema)) &&
  forallb (fun name =>
    match assoc_get name (extract_properties schema), assoc_get name doc with
    | Some def, Some v => field_accepts def v
    | _, _ => true
    end) (map fst (extract_properties schema)).

(** Every enumeration of the schema lists strings only. *)
Definition string_enum (def : Value) : bool :=
  match value_get def "enum" ≫= as_array with
  | Some items => forallb (fun x => bool_decide (is_Some (as_str x))) items
  | None => true
  end.
Definition string_enums (schema : Value) : bool :=
  forallb (fun p => string_enum (snd p)) (extract_properties schema).

(** No field of the document is a property that only the new schema has. *)
Definition no_new_property (old new : Value) (doc : list (string * Value)) : bool :=
  forallb (fun p => negb (has_property new (fst p)) || has_property old (fst p)) doc.
End Semantics.

(** ** Floats *)

Lemma land_2047 a : Z.land a 2047 = (a mod 2 ^ 11)%Z.
Proof. apply (Z.land_ones a 11). lia. Qed.

Lemma finite_exponent b : f64_is_finite b = true -> (b / 2 ^ 52 mod 2 ^ 11 <> 2047)%Z.
Proof.
  unfold f64_is_finite. rewrite negb_true_iff, Z.eqb_neq, Z.shiftr_div_pow2 by lia.
  intros Hb E. apply Hb. by rewrite land_2047.
Qed.

Lemma finite_magnitude b : (0 <= b < 2 ^ 63)%Z -> f64_is_finite b = true -> (b < 2047 * 2 ^ 52)%Z.
Proof.
  intros Hr Hf%finite_exponent. destruct (Z.lt_ge_cases b (2047 * 2 ^ 52)) as [|Hge]; [done|].
  exfalso. apply Hf. replace (b / 2 ^ 52)%Z with 2047%Z; [done|].
  apply (Z.div_unique b (2 ^ 52) 2047 (b - 2047 * 2 ^ 52))%Z; lia.
Qed.

Lemma finite_sign b : (2 ^ 63 <= b < 2 ^ 64)%Z -> f64_is_finite b = true -> f64_is_finite (b - 2 ^ 63)%Z = true.
Proof.
  intros Hr. unfold f64_is_finite. rewrite !Z.shiftr_div_pow2 by lia.
  assert (E : (b / 2 ^ 52 = (b - 2 ^ 63) / 2 ^ 52 + 2048)%Z).
  { replace b with ((b - 2 ^ 63) + 2048 * 2 ^ 52)%Z at 1 by lia. by rewrite Z.div_add by lia. }
  rewrite E, !land_2047.
  replace 2048%Z with (1 * 2 ^ 11)%Z at 1 by lia. by rewrite Z.mod_add by lia.
Qed.

(** The keys of finite numbers lie strictly between those of the infinities. *)
Lemma finite_key b : f64_ok b = true -> f64_is_finite b = true ->
  (f64_key NEG_INFINITY < f64_key b < f64_key INFINITY)%Z.
Proof.
  unfold f64_ok. intros [H1%Z.leb_le H2%Z.ltb_lt]%andb_prop Hf.
  change (f64_key NEG_INFINITY) with (- (2047 * 2 ^ 52))%Z. change (f64_key INFINITY) with (2047 * 2 ^ 52)%Z.
  unfold f64_key. destruct (Z.ltb_spec b (2 ^ 63)) as [Hlt|Hge].
  - pose proof (finite_magnitude b ltac:(lia) Hf). lia.
  - pose proof (finite_magnitude (b - 2 ^ 63)%Z ltac:(lia) (finite_sign b ltac:(lia) Hf)). lia.
Qed.

Lemma land_magnitude b : (0 <= b < 2 ^ 64)%Z ->
  Z.land b (2 ^ 63 - 1) = (if b <? 2 ^ 63 then b else b - 2 ^ 63)%Z.
Proof.
  intros Hr. change (2 ^ 63 - 1)%Z with (Z.ones 63). rewrite Z.land_ones by lia.
  destruct (Z.ltb_spec b (2 ^ 63)); [rewrite Z.mod_small; lia|].
  symmetry. apply (Z.mod_unique b (2 ^ 63) 1 (b - 2 ^ 63))%Z; lia.
Qed.

Lemma finite_not_nan b : f64_ok b = true -> f64_is_finite b = true -> f64_is_nan b = false.
Proof.
  intros Ho Hf. pose proof (finite_key b Ho Hf) as Hk. unfold f64_ok in Ho.
  apply andb_prop in Ho as [H1%Z.leb_le H2%Z.ltb_lt]. unfold f64_is_nan. rewrite land_magnitude by lia.
  change (f64_key NEG_INFINITY) with (- (2047 * 2 ^ 52))%Z in Hk. change (f64_key INFINITY) with (2047 * 2 ^ 52)%Z in Hk.
  unfold f64_key in Hk. apply Z.ltb_ge. destruct (b <? 2 ^ 63)%Z; lia.
Qed.

(** Numbers that compare by their keys. *)
Definition comparable (b : f64) : Prop := f64_is_nan b = false.

Lemma ltb_key a b : comparable a -> comparable b -> f64_ltb a b = (f64_key a <? f64_key b)%Z.
Proof. unfold comparable, f64_ltb, f64_partial_cmp, Z.ltb. intros -> ->. simpl. by destruct (Z.compare _ _). Qed.

Section Sound.
Context `{RuleEnv} `{!SerdeNumberLaws} `{!DebugText} `{!SchemaVocabulary}.

Lemma as_f64_finite v b : as_f64 v = Some b -> f64_ok b = true /\ f64_is_finite b = true.
Proof. destruct v; simpl; try discriminate. apply as_f64_range. Qed.

Lemma measure_finite name v b : measure name v = Some b -> f64_ok b = true /\ f64_is_finite b = true.
Proof.
  unfold measure. case_bool_decide; [|apply as_f64_finite]. destruct v; simpl; try discriminate.
  intros [= <-]. apply str_length_finite.
Qed.

Lemma opt_value_eqb_f64 a b : opt_value_eqb a b = true -> a ≫= as_f64 = b ≫= as_f64.
Proof.
  destruct a as [a|], b as [b|]; simpl; try done. destruct a, b; simpl; try done. apply eq_as_f64.
Qed.

(** A bound that was not tightened accepts what it accepted. *)
Lemma bound_kept side (a b : option Value) x :
  is_tightened side a b = false -> (forall y, x = Some y -> f64_ok y = true /\ f64_is_finite y = true) ->
  bound_accepts side (a ≫= as_f64) x = true -> bound_accepts side (b ≫= as_f64) x = true.
Proof.
  intros Ht Hx. destruct x as [y|]; [|by destruct (b ≫= as_f64)].
  destruct (Hx y eq_refl) as [Hy1 Hy2]. pose proof (finite_key y Hy1 Hy2) as Hk.
  pose proof (finite_not_nan y Hy1 Hy2) as Hn.
  assert (Hb : forall o q, o ≫= as_f64 = Some q -> comparable q).
  { intros [o|] q; simpl; [|done]. intros [Hq1 Hq2]%as_f64_finite. by apply finite_not_nan. }
  destruct (b ≫= as_f64) as [bb|] eqn:Eb; [|done]. pose proof (Hb b bb Eb) as Hbb.
  unfold is_tightened in Ht. rewrite Eb in Ht.
  destruct (a ≫= as_f64) as [ba|] eqn:Ea.
  - pose proof (Hb a ba Ea) as Hba.
    destruct side; cbn [bound_accepts default from_option id] in *;
      rewrite !ltb_key in * by done; rewrite !negb_true_iff, !Z.ltb_ge in *; lia.
  - intros _. destruct side; cbn [bound_accepts default from_option id] in *;
      rewrite ltb_key in * by done; rewrite negb_true_iff, Z.ltb_ge in *; lia.
Qed.
(** ** The comparison *)

(** A diff that has noted a breaking change has noted a change. *)
Definition noted (d : Diff) : Prop := df_breaking d = true -> df_changes d <> [].

(** A step only adds to the diff. *)
Definition step_ok {X} (f : Diff -> X -> Diff) : Prop :=
  forall d x, (noted d -> noted (f d x)) /\ (df_breaking d = true -> df_breaking (f d x) = true).

Lemma push_noted path kind desc b d : noted (push path kind desc b d).
Proof. intros _. unfold push. simpl. by destruct (df_changes d). Qed.

Lemma push_grows path kind desc b d : df_breaking d = true -> df_breaking (push path kind desc b d) = true.
Proof. simpl. by intros ->. Qed.

Lemma fold_noted {X} (f : Diff -> X -> Diff) l d : step_ok f -> noted d -> noted (fold_left f l d).
Proof.
  intros Hf. revert d. induction l as [|x l IH]; intros d Hd; simpl; [done|]. apply IH, Hf, Hd.
Qed.

(** A fold that did not break has not broken before, nor at any element. *)
Lemma fold_unbroken {X} (f : Diff -> X -> Diff) l d :
  step_ok f -> df_breaking (fold_left f l d) = false ->
  df_breaking d = false /\ forall x, In x l -> exists d', df_breaking (f d' x) = false.
Proof.
  intros Hf. revert d. induction l as [|x l IH]; intros d Hd; simpl in Hd; [split; [done | by intros ? []]|].
  apply IH in Hd as [Hd Hl]. split.
  - destruct (df_breaking d) eqn:E; [|done]. by rewrite (proj2 (Hf d x) E) in Hd.
  - intros y [<-|Hy]; [by exists d | by apply Hl].
Qed.

Lemma step_intro {X} (f : Diff -> X -> Diff) :
  (forall d x, f d x = d \/ exists path kind desc b, f d x = push path kind desc b d) -> step_ok f.
Proof.
  intros Hf d x. destruct (Hf d x) as [->|(path & kind & desc & b & ->)]; [done|].
  split; [intros _; apply push_noted | apply push_grows].
Qed.

Lemma add_required_step old : step_ok (add_required old).
Proof. apply step_intro. intros d x. right. unfold add_required. destruct (has_property old x); eauto. Qed.

Lemma drop_required_step new : step_ok (drop_required new).
Proof. apply step_intro. intros d x. right. unfold drop_required. destruct (has_property new x); eauto. Qed.

Lemma add_optional_step : step_ok add_optional.
Proof. apply step_intro. intros d x. unfold add_optional. destruct (mentions d x); eauto 6. Qed.

Lemma drop_property_step : step_ok drop_property.
Proof. apply step_intro. intros d x. unfold drop_property. destruct (mentions d x); eauto 6. Qed.

Lemma diff_constraint_step path old new : step_ok (diff_constraint path old new).
Proof.
  apply step_intro. intros d [name side]. unfold diff_constraint.
  destruct (opt_value_eqb _ _); [by left|]. right. destruct (is_tightened _ _ _); eauto.
Qed.

Lemma diff_enum_step path : step_ok (fun d (p : Value * Value) => diff_enum path (fst p) (snd p) d).
Proof.
  apply step_intro. intros d [old new]. cbn [fst snd]. unfold diff_enum.
  destruct (extract_enum old) as [ov|], (extract_enum new) as [nv|]; eauto 6.
  destruct (in_order (ov ∖ nv)), (in_order (nv ∖ ov)); eauto 6.
Qed.

Lemma diff_field_step path : step_ok (fun d (p : Value * Value) => diff_field path (fst p) (snd p) d).
Proof.
  intros d [old new]. cbn [fst snd]. unfold diff_field.
  destruct (negb _); [split; [intros _; apply push_noted | apply push_grows]|].
  destruct (diff_enum_step path d (old, new)) as [Hn Hg]. cbn [fst snd] in *. split.
  - intros Hd. apply fold_noted; [apply diff_constraint_step | by apply Hn].
  - intros Hd. specialize (Hg Hd). destruct (df_breaking (fold_left _ _ _)) eqn:E; [done|].
    apply fold_unbroken in E as [E _]; [congruence | apply diff_constraint_step].
Qed.

Lemma diff_common_step op np : step_ok (diff_common op np).
Proof.
  intros d name. unfold diff_common.
  destruct (assoc_get name op) as [o|]; [|done]. destruct (assoc_get name np) as [n|]; [|done].
  apply (diff_field_step name d (o, n)).
Qed.

Lemma in_order_In (X : gset string) x : In x (in_order X) <-> x ∈ X.
Proof. unfold in_order. rewrite sort_by_In, <- list_elem_of_In, elem_of_elements. done. Qed.
(** What an unbroken comparison says. *)
Lemma unbroken_object old new :
  sd_compatibility (diff_object_schemas old new) <> Breaking ->
  extract_required new ⊆ extract_required old /\
  (forall name o n, assoc_get name (extract_properties old) = Some o ->
     assoc_get name (extract_properties new) = Some n ->
     exists d, df_breaking (diff_field name o n d) = false).
Proof.
  unfold diff_object_schemas. cbv zeta. cbn [sd_compatibility].
  match goal with |- context [df_changes ?e] => set (d5 := e) end.
  intros Hc. assert (Hb : df_breaking d5 = false).
  { assert (Hn : noted d5).
    { repeat (apply fold_noted; [first [apply diff_common_step | apply drop_property_step | apply add_optional_step
        | apply drop_required_step | apply add_required_step]|]). done. }
    destruct (df_breaking d5) eqn:E; [|done]. specialize (Hn E). by destruct (df_changes d5). }
  clear Hc. subst d5.
  apply fold_unbroken in Hb as [Hb Hcommon]; [|apply diff_common_step].
  apply fold_unbroken in Hb as [Hb _]; [|apply drop_property_step].
  apply fold_unbroken in Hb as [Hb _]; [|apply add_optional_step].
  apply fold_unbroken in Hb as [Hb _]; [|apply drop_required_step].
  apply fold_unbroken in Hb as [_ Hreq]; [|apply add_required_step]. split.
  - intros f Hf. destruct (decide (f ∈ extract_required old)) as [|Hno]; [done|].
    destruct (Hreq f) as [d' Hd']; [apply in_order_In; set_solver|].
    unfold add_required in Hd'. destruct (has_property old f); simpl in Hd'; by rewrite orb_true_r in Hd'.
  - intros name o n Ho Hn. destruct (Hcommon name) as [d' Hd'].
    { apply in_order_In, elem_of_intersection. split; apply elem_of_list_to_set, list_elem_of_In.
      - apply (in_map fst _ (name, o)), (assoc_get_In name _ o Ho).
      - apply (in_map fst _ (name, n)), (assoc_get_In name _ n Hn). }
    unfold diff_common in Hd'. rewrite Ho, Hn in Hd'. by exists d'.
Qed.

Lemma In_somes {A} (x : A) l : In x (somes l) <-> In (Some x) l.
Proof.
  unfold somes. rewrite <- list_elem_of_In, list_elem_of_omap, <- list_elem_of_In. split.
  - intros (o & Ho & E). by destruct o; simplify_eq/=.
  - intros Hx. by exists (Some x).
Qed.

Lemma extract_enum_spec def items :
  value_get def "enum" ≫= as_array = Some items ->
  exists vals, extract_enum def = Some vals /\ forall s, s ∈ vals <-> In (JString s) items.
Proof.
  intros Hi. unfold extract_enum, strings_of. rewrite Hi. simpl. eexists. split; [done|]. intros s.
  rewrite elem_of_list_to_set, list_elem_of_In, In_somes, in_map_iff. split.
  - intros ([] & E & Hin); simplify_eq/=; done.
  - intros Hin. by exists (JString s).
Qed.

Lemma enum_kept path o n d v :
  df_breaking (diff_enum path o n d) = false -> string_enum o = true ->
  enum_accepts o v = true -> enum_accepts n v = true.
Proof.
  unfold string_enum, enum_accepts. intros Hd.
  destruct (value_get n "enum" ≫= as_array) as [ni|] eqn:En; [|done].
  destruct (extract_enum_spec n ni En) as (nv & Hnv & Hns). unfold diff_enum in Hd. rewrite Hnv in Hd.
  destruct (value_get o "enum" ≫= as_array) as [oi|] eqn:Eo.
  - destruct (extract_enum_spec o oi Eo) as (ov & Hov & Hos). rewrite Hov in Hd.
    intros Hstr (x & Hx & Hxv)%existsb_exists. rewrite forallb_forall in Hstr. specialize (Hstr x Hx).
    apply bool_decide_eq_true in Hstr as [s Hs]. destruct x; simplify_eq/=.
    apply existsb_exists. exists (JString s). split; [|done]. apply Hns.
    destruct (decide (s ∈ nv)) as [|Hno]; [done|].
    assert (Hin : In s (in_order (ov ∖ nv))) by (apply in_order_In, elem_of_difference; split; [by apply Hos | done]).
    destruct (in_order (ov ∖ nv)); [done|]. destruct (in_order (nv ∖ ov)); simpl in Hd; by rewrite orb_true_r in Hd.
  - unfold extract_enum, strings_of in Hd. rewrite Eo in Hd. simpl in Hd. by rewrite orb_true_r in Hd.
Qed.

Lemma constraint_kept path o n d v c :
  df_breaking (diff_constraint path o n d c) = false ->
  constraint_accepts o v c = true -> constraint_accepts n v c = true.
Proof.
  destruct c as [name side]. unfold diff_constraint, constraint_accepts.
  destruct (opt_value_eqb _ _) eqn:E; [by rewrite (opt_value_eqb_f64 _ _ E)|].
  destruct (is_tightened _ _ _) eqn:Ht; simpl; [by rewrite orb_true_r|].
  intros _. apply bound_kept; [done|]. apply measure_finite.
Qed.

Lemma field_kept path o n d v :
  df_breaking (diff_field path o n d) = false -> string_enum o = true ->
  field_accepts o v = true -> field_accepts n v = true.
Proof.
  unfold diff_field, field_accepts, type_accepts.
  destruct (opt_value_eqb (value_get o "type") (value_get n "type")) eqn:Et; simpl negb;
    [|simpl; by rewrite orb_true_r].
  intros [Hd Hcs]%fold_unbroken Hstr [[Hty Hen]%andb_prop Hall]%andb_prop; [|apply diff_constraint_step].
  rewrite (enum_kept _ _ _ _ _ Hd Hstr Hen), andb_true_r. apply andb_true_intro. split.
  - destruct (value_get o "type") as [t|], (value_get n "type") as [t'|]; simpl in Et; try done.
    by rewrite <- (has_type_eq t t' v Et).
  - rewrite forallb_forall in *. intros c Hc. destruct (Hcs c Hc) as [d' Hd'].
    eapply constraint_kept; [exact Hd' | by apply Hall].
Qed.

Lemma has_property_get schema name :
  has_property schema name = true <-> is_Some (assoc_get name (extract_properties schema)).
Proof.
  unfold has_property, extract_properties. destruct (_ ≫= as_object); simpl; [apply bool_decide_eq_true|].
  split; [done | by intros []].
Qed.

Lemma object_sound old new doc :
  sd_compatibility (diff_object_schemas old new) <> Breaking -> string_enums old = true ->
  no_new_property old new doc = true -> schema_accepts old doc = true -> schema_accepts new doc = true.
Proof.
  intros [Hreq Hcommon]%unbroken_object Hstr Hnew. unfold schema_accepts.
  intros [Hr Hp]%andb_prop. rewrite forallb_forall in Hr, Hp. apply andb_true_intro. rewrite !forallb_forall.
  split.
  - intros f Hf. apply Hr. rewrite <- list_elem_of_In, elem_of_elements in *. by apply Hreq.
  - intros name _. destruct (assoc_get name (extract_properties new)) as [n|] eqn:Hn; [|done].
    destruct (assoc_get name doc) as [v|] eqn:Hv; [|done].
    unfold no_new_property in Hnew. rewrite forallb_forall in Hnew.
    specialize (Hnew (name, v) (assoc_get_In name doc v Hv)). cbn [fst] in Hnew.
    rewrite (proj2 (has_property_get new name)) in Hnew by by rewrite Hn. simpl in Hnew.
    apply has_property_get in Hnew as [o Ho]. destruct (Hcommon name o n Ho Hn) as [d Hd].
    apply (field_kept name o n d v Hd).
    + unfold string_enums in Hstr. rewrite forallb_forall in Hstr. apply (Hstr (name, o)), assoc_get_In, Ho.
    + specialize (Hp name). rewrite Ho, Hv in Hp. apply Hp.
      apply (in_map fst _ (name, o)), assoc_get_In, Ho.
Qed.

(** C27. A schema change that is not called breaking keeps documents valid: for
    schemas whose enumerations list strings, a document that the old schema
    accepts and that has no field which only the new schema declares is accepted
    by the new schema, as far as the keywords [required], [type], [enum],
    [minLength], [maxLength], [minimum] and [maximum] of its fields go, with
    numbers read as doubles. *)
Theorem evolution_sound (old new : Value) (doc : list (string * Value))
    (Hverdict : classify (diff_schemas (Some old) (Some new)) <> Breaking)
    (Henums : string_enums old = true)
    (Hfields : no_new_property old new doc = true)
    (Hvalid : schema_accepts old doc = true) :
  schema_accepts new doc = true.
Proof. exact (object_sound old new doc Hverdict Henums Hfields Hvalid). Qed.
End Sound.

(** ** Concrete schemas *)

Section Examples.
Local Existing Instance simple_serde_number.

Definition simple_has_type (t v : Value) : bool :=
  match t, v with
  | JString name, JString _ => bool_decide (name = "string")
  | JString name, Number _ => bool_decide (name = "number")
  | _, _ => true
  end.

Definition byte_length (s : string) : f64 :=
  default 0%Z (simple_as_f64 (SInt (Z.of_nat (String.length s)))).

#[local] Instance simple_vocabulary : SchemaVocabulary.
Proof.
  refine {| has_type := simple_has_type; str_length := byte_length |}.
  - intros t t' v. destruct t, t'; try done. simpl. intros ->%bool_decide_eq_true. done.
  - intros s. unfold byte_length. destruct (simple_as_f64 _) as [b|] eqn:E; [|done].
    exact (as_f64_range (SInt (Z.of_nat (String.length s))) b E).
  - intros [a|a] [b|b]; simpl; try done; by intros ->%Z.eqb_eq.
Defined.

#[local] Instance simple_debug : DebugText :=
  {| names_debug l := String.concat ", " l; option_value_debug _ := "<value>" |}.

Definition schema_of (required : list string) (properties : list (string * Value)) : Value :=
  Object [("properties", Object properties); ("required", Array (map JString required))].
Definition enum_of (values : list string) : Value :=
  Object [("enum", Array (map JString values)); ("type", JString "string")].

Definition old_schema : Value := schema_of ["status"; "title"]
  [("status", enum_of ["done"; "draft"]); ("title", Object [("minLength", jint 2); ("type", JString "string")])].
Definition new_schema : Value := schema_of ["title"]
  [("note", enum_of ["x"]); ("status", enum_of ["done"; "draft"; "open"]);
   ("title", Object [("minLength", jint 1); ("type", JString "string")])].

Lemma evolution_sound_witness :
  classify (diff_schemas (Some old_schema) (Some new_schema)) = Compatible /\
  schema_accepts new_schema [("status", JString "draft"); ("title", JString "fix")] = true.
Proof.
  split; [vm_refl|].
  apply (evolution_sound old_schema new_schema [("status", JString "draft"); ("title", JString "fix")]);
    [by vm_compute | vm_refl..].
Defined.

(** Adding an optional field is called compatible, but a document that already
    had the field, undeclared, can become invalid. *)
Theorem added_field_invalidates :
  let doc := [("note", JString "y"); ("status", JString "draft"); ("title", JString "fix")] in
  classify (diff_schemas (Some old_schema) (Some new_schema)) = Compatible /\
  schema_accepts old_schema doc = true /\ schema_accepts new_schema doc = false.
Proof. split_and!; vm_refl. Qed.
End Examples.
