(* ===== verification/Rollback.v ===== *)
(** * Rollback of entities ([crates/axon-api/src/handler.rs])

    Reverting an audit entry, rolling an entity back to a version, a collection to
    a point in time, and undoing a transaction, on the in-memory adapter, whose
    audit log supplies the states to restore.

    [clock n] is the n-th reading of the clock in a write; the rollback of several
    entities takes one clock per entity.  [error_text] is the [Display] form of
    errors. *)

From S2P Require Import Prelude Json Ids Types IndexKeys Intents AuditLog.
From S2P Require Import Schema PolicyPlan Rules Gates JsonOps AuthStore Roles Storage Catalog.
From S2P Require Import PolicyEval PolicyDecide PolicyEnforce Interface MemoryTx Transactions Requests EntityWrites Queries.
From stdpp Require Import pretty.
Local Open Scope axon_scope.

Definition OP_ROLLBACK : string := "rollback".

(** ** Requests and responses *)

Section Data.
Context `{SerdeNumber}.

Record RevertEntityRequest : Type := {
  rv_audit_entry_id : Z;
  rv_actor : option string;
  rv_force : bool;
  rv_attribution : option AuditAttribution
}.

Inductive RollbackEntityTarget : Type :=
| TargetVersion (version : Z)
| TargetAuditEntryId (id : Z).

Record RollbackEntityRequest : Type := {
  re_collection : CollectionId;
  re_id : EntityId;
  re_target : RollbackEntityTarget;
  re_expected_version : option Z;
  re_actor : option string;
  re_dry_run : bool
}.

Record RollbackCollectionRequest : Type := {
  rc_collection : CollectionId;
  rc_timestamp_ns : Z;
  rc_actor : option string;
  rc_dry_run : bool
}.

Record RollbackTransactionRequest : Type := {
  rt_transaction_id : string;
  rt_actor : option string;
  rt_dry_run : bool
}.

Record RevertEntityResponse : Type := { rvr_entity : Entity; rvr_audit_entry : AuditEntry }.

Inductive RollbackEntityResponse : Type :=
| RollbackApplied (entity : Entity) (audit_entry : AuditEntry)
| RollbackDryRun (current : option Entity) (target : Entity) (diff : gmap string FieldDiff).

Record RollbackCollectionEntityResult : Type := {
  rce_id : string;
  rce_success : bool;
  rce_error : option string
}.

Record RollbackCollectionResponse : Type := {
  rcr_entities_affected : nat;
  rcr_entities_rolled_back : nat;
  rcr_errors : nat;
  rcr_dry_run : bool;
  rcr_details : list RollbackCollectionEntityResult
}.

Record RollbackTransactionEntityResult : Type := {
  rte_collection : string;
  rte_id : string;
  rte_success : bool;
  rte_error : option string
}.

Record RollbackTransactionResponse : Type := {
  rtr_transaction_id : string;
  rtr_entities_affected : nat;
  rtr_entities_rolled_back : nat;
  rtr_errors : nat;
  rtr_dry_run : bool;
  rtr_details : list RollbackTransactionEntityResult
}.
End Data.

Section Rollback.
Context `{RuleEnv} `{TextFormat} `{ContentHasher}.
Variable fuel depth : nat.
Variable validate : CollectionSchema -> Value -> result unit AxonError.
Variable reserved_payload : string -> string -> string.
Variable error_text : AxonError -> string.

Abbreviation Mem := MemoryStorageAdapter (only parsing).
Abbreviation MOp := (M Mem AxonError) (only parsing).

(** An entry with its metadata. *)
Definition rollback_entry (collection : CollectionId) (id : EntityId) (version : Z) (mutation : MutationType)
    (before after : option Value) (actor : option string) (metadata : gmap string string) : AuditEntry :=
  with_metadata metadata (audit_entry_new collection id version mutation before after actor).

Definition revert_metadata (entry_id : Z) : gmap string string :=
  {["reverted_from_entry_id" := pretty entry_id]}.
Definition collection_metadata (timestamp_ns : Z) : gmap string string :=
  {["collection_rollback" := "true"; "rollback_timestamp_ns" := pretty timestamp_ns]}.
Definition transaction_metadata (transaction_id : string) : gmap string string :=
  {["transaction_rollback" := "true"; "rolled_back_transaction_id" := transaction_id]}.

(** [Entity::new] with the fields a rollback sets. *)
Definition recreated_entity (collection : CollectionId) (id : EntityId) (data : Value) (actor : option string)
    (schema_version : option Z) : Entity :=
  let e := entity_new collection id data in {|
  e_collection := e_collection e; e_id := e_id e; e_version := e_version e; e_data := e_data e;
  e_created_at_ns := e_created_at_ns e; e_updated_at_ns := e_updated_at_ns e; e_created_by := e_created_by e;
  e_updated_by := actor; e_schema_version := schema_version; e_gate_results := e_gate_results e |}.

(** The candidate that restores [data] over an existing row. *)
Definition restored_entity (now : Z) (collection : CollectionId) (id : EntityId) (data : Value)
    (actor : option string) (schema_version : option Z) (gates : gmap string GateResult) (existing : Entity)
    : Entity := {|
  e_collection := collection; e_id := id; e_version := e_version existing; e_data := data;
  e_created_at_ns := e_created_at_ns existing; e_updated_at_ns := Some now;
  e_created_by := e_created_by existing; e_updated_by := actor;
  e_schema_version := schema_version; e_gate_results := gates |}.

(** ** One entity, one audit entry *)

Definition revert_entity_to_audit_entry (clock : nat -> Z) (req : RevertEntityRequest)
    : MOp RevertEntityResponse :=
  do found <- gets (fun s : Mem => find_by_id (s_audit_log s) (rv_audit_entry_id req));
  let missing := NotFound ("audit entry " +:+ pretty (rv_audit_entry_id req)) in
  match found with
  | None => fail missing
  | Some source =>
      if is_reserved_collection (ae_collection source) then fail missing
      else
        do! ensure_access reserved_payload (ae_collection source) OP_ROLLBACK;
        match ae_data_before source with
        | None => fail (InvalidOperation ("audit entry " +:+ pretty (rv_audit_entry_id req) +:+
                    " has no before state (cannot revert a create)"))
        | Some before_data =>
            do schema <- reads (fun s : Mem => get_schema s (ae_collection source));
            do! (if rv_force req then ret tt
                 else lift (match validate_optional validate schema before_data with
                            | Err e => Err (SchemaValidation ("before state from audit entry " +:+
                                pretty (rv_audit_entry_id req) +:+
                                " does not validate against current schema: " +:+ error_text e))
                            | ok => ok
                            end));
            do current <- reads (fun s : Mem => get s (ae_collection source) (ae_entity_id source));
            do policy_snapshot <- reads (fun s : Mem => policy_snapshot_for_request s (ae_collection source) schema
                                                    (rv_actor req) None (rv_attribution req));
            do! reads (fun s : Mem => enforce_write_policy fuel s None depth schema policy_snapshot {|
                  wc_collection := ae_collection source; wc_entity_id := Some (ae_entity_id source);
                  wc_operation := match current with Some _ => OpUpdate | None => OpCreate end;
                  wc_current_data := option_map e_data current; wc_candidate_data := before_data;
                  wc_field_scope := PresentFields before_data; wc_operation_index := None |} false);
            let write :=
              match current with
              | Some existing =>
                  compare_and_swap (restored_entity (clock O) (ae_collection source) (ae_entity_id source) before_data
                    (rv_actor req) (option_map cs_version schema) ∅ existing) (e_version existing)
              | None =>
                  let entity := recreated_entity (ae_collection source) (ae_entity_id source) before_data None
                                  (option_map cs_version schema) in
                  do! put entity; ret entity
              end in
            do (restored, appended) <- commit_write_with_durable_audit (S := Mem) clock write (fun restored =>
              let entry := rollback_entry (e_collection restored) (e_id restored) (e_version restored) EntityRevert
                (option_map e_data current) (Some before_data) (rv_actor req)
                (revert_metadata (rv_audit_entry_id req)) in
              match rv_attribution req with Some attr => with_attribution attr entry | None => entry end);
            ret {| rvr_entity := restored; rvr_audit_entry := appended |}
        end
  end.

Definition resolve_rollback_source_entry (log : MemoryAuditLog) (collection : CollectionId) (id : EntityId)
    (target : RollbackEntityTarget) : result AuditEntry AxonError :=
  match target with
  | TargetVersion version =>
      ok_or (List.find (fun e => (ae_version e =? version)%Z && bool_decide (is_Some (ae_data_after e)))
               (query_by_entity log collection id))
        (NotFound ("entity version " +:+ pretty version +:+ " not found in audit log for " +:+ id))
  | TargetAuditEntryId entry_id =>
      let? entry := ok_or (find_by_id log entry_id) (NotFound ("audit entry " +:+ pretty entry_id)) in
      if negb (bool_decide (ae_collection entry = collection)) || negb (bool_decide (ae_entity_id entry = id))
      then Err (NotFound ("audit entry " +:+ pretty entry_id +:+ " not found for " +:+ collection +:+ "/" +:+ id))
      else Ok entry
  end.

(** The version, creation time and creator of the row to replace or recreate. *)
Record RollbackBase : Type := {
  rb_version : Z;
  rb_created_at_ns : option Z;
  rb_created_by : option string
}.

(** The row, or what the log knows of a deleted one. *)
Definition rollback_base (id : EntityId) (current : option Entity) (history : list AuditEntry)
    (latest : AuditEntry) : result RollbackBase AxonError :=
  match current with
  | Some e => Ok {| rb_version := e_version e; rb_created_at_ns := e_created_at_ns e; rb_created_by := e_created_by e |}
  | None =>
      if negb (bool_decide (ae_mutation latest = EntityDelete)) then Err (NotFound id)
      else
        let created := default latest (List.find (fun e => bool_decide (is_Some (ae_data_after e))) history) in
        Ok {| rb_version := ae_version latest; rb_created_at_ns := Some (ae_timestamp_ns created);
              rb_created_by := if bool_decide (ae_actor created = "anonymous") then None
                               else Some (ae_actor created) |}
  end.

Definition target_missing (id : EntityId) (target : RollbackEntityTarget) : AxonError :=
  match target with
  | TargetVersion version =>
      NotFound ("entity version " +:+ pretty version +:+ " not found in audit log for " +:+ id)
  | TargetAuditEntryId entry_id => NotFound ("audit entry " +:+ pretty entry_id +:+ " has no stored entity state")
  end.

(** The row after the rollback. *)
Definition rollback_target (req : RollbackEntityRequest) (base : RollbackBase) (updated_at_ns : option Z)
    (data : Value) (schema : option CollectionSchema) (gates : gmap string GateResult) : Entity := {|
  e_collection := re_collection req; e_id := re_id req; e_version := wrap64 (rb_version base + 1); e_data := data;
  e_created_at_ns := rb_created_at_ns base; e_updated_at_ns := updated_at_ns; e_created_by := rb_created_by base;
  e_updated_by := re_actor req; e_schema_version := option_map cs_version schema; e_gate_results := gates |}.

(** The write of a rollback and its audit entry. *)
Definition rollback_write (clock : nat -> Z) (req : RollbackEntityRequest) (base : RollbackBase) (source_id : Z)
    (current : option Entity) (data : Value) (schema : option CollectionSchema) (gates : gmap string GateResult)
    : MOp RollbackEntityResponse :=
  let write :=
    match current with
    | Some existing =>
        compare_and_swap (restored_entity (clock O) (re_collection req) (re_id req) data (re_actor req)
          (option_map cs_version schema) gates existing) (rb_version base)
    | None => create_if_absent (rollback_target req base (Some (clock O)) data schema gates) (rb_version base)
    end in
  do (stored, audit_entry) <- commit_write_with_durable_audit (S := Mem) clock write (fun stored =>
    let entity := present_entity (re_collection req) stored in
    rollback_entry (e_collection entity) (e_id entity) (e_version entity) EntityRevert
      (option_map e_data current) (Some (e_data entity)) (re_actor req) (revert_metadata source_id));
  ret (RollbackApplied (present_entity (re_collection req) stored) audit_entry).

Definition rollback_entity (clock : nat -> Z) (req : RollbackEntityRequest) : MOp RollbackEntityResponse :=
  do! ensure_access reserved_payload (re_collection req) OP_ROLLBACK;
  do source <- reads (fun s : Mem => resolve_rollback_source_entry (s_audit_log s) (re_collection req) (re_id req)
                                 (re_target req));
  do target_data <- lift (ok_or (ae_data_after source) (target_missing (re_id req) (re_target req)));
  do audit_history <- gets (fun s : Mem => query_by_entity (s_audit_log s) (re_collection req) (re_id req));
  do latest_entry <- lift (ok_or (list.last audit_history) (NotFound (re_id req)));
  do current <- reads (fun s : Mem => get s (re_collection req) (re_id req));
  do base <- lift (rollback_base (re_id req) current audit_history latest_entry);
  let expected_version := default (rb_version base) (re_expected_version req) in
  if negb (expected_version =? rb_version base)%Z
  then fail (ConflictingVersion expected_version (rb_version base)
               (option_map (present_entity (re_collection req)) current))
  else
    do schema <- reads (fun s : Mem => get_schema s (re_collection req));
    do! lift (validate_optional validate schema target_data);
    do eval <- lift (evaluate_save_gate fuel schema target_data);
    if re_dry_run req
    then ret (RollbackDryRun (option_map (present_entity (re_collection req)) current)
                (rollback_target req base (current ≫= e_updated_at_ns) target_data schema (gates_of eval))
                (compute_diff (default (Object []) (option_map e_data current)) target_data))
    else
      do policy_snapshot <- reads (fun s : Mem => policy_snapshot_for_request s (re_collection req) schema
                                              (re_actor req) None None);
      do! reads (fun s : Mem => enforce_write_policy fuel s None depth schema policy_snapshot {|
            wc_collection := re_collection req; wc_entity_id := Some (re_id req);
            wc_operation := match current with Some _ => OpUpdate | None => OpCreate end;
            wc_current_data := option_map e_data current; wc_candidate_data := target_data;
            wc_field_scope := PresentFields target_data; wc_operation_index := None |} false);
      rollback_write clock req base (ae_id source) current target_data schema (gates_of eval).

(** ** The writes of a rollback of many entities *)

Definition rollback_delete (clock : nat -> Z) (collection : CollectionId) (id : EntityId) (existing : Entity)
    (actor : option string) (metadata : gmap string string) : MOp unit :=
  do! commit_write_with_durable_audit (S := Mem) clock (delete_entity collection id) (fun _ =>
        rollback_entry collection id (wrap64 (e_version existing + 1)) EntityDelete (Some (e_data existing)) None
          actor metadata);
  ret tt.

Definition rollback_restore (clock : nat -> Z) (collection : CollectionId) (id : EntityId) (existing : Entity)
    (schema_version : option Z) (data : Value) (actor : option string) (metadata : gmap string string) : MOp unit :=
  do! commit_write_with_durable_audit (S := Mem) clock
        (compare_and_swap (restored_entity (clock O) collection id data actor schema_version ∅ existing)
           (e_version existing))
        (fun stored => rollback_entry collection id (e_version stored) EntityRevert (Some (e_data existing))
                         (Some data) actor metadata);
  ret tt.

Definition rollback_recreate (clock : nat -> Z) (collection : CollectionId) (id : EntityId)
    (schema_version : option Z) (data : Value) (actor : option string) (metadata : gmap string string) : MOp unit :=
  do! commit_write_with_durable_audit (S := Mem) clock
        (let entity := recreated_entity collection id data actor schema_version in do! put entity; ret entity)
        (fun entity => rollback_entry collection id (e_version entity) EntityRevert None (Some data) actor metadata);
  ret tt.

(** Restore [data], over an existing row or anew. *)
Definition write_back (clock : nat -> Z) (collection : CollectionId) (id : EntityId) (current : option Entity)
    (data : Value) (actor : option string) (metadata : gmap string string) : MOp unit :=
  do schema <- reads (fun s : Mem => get_schema s collection);
  let schema_version := option_map cs_version schema in
  match current with
  | Some existing => rollback_restore clock collection id existing schema_version data actor metadata
  | None => rollback_recreate clock collection id schema_version data actor metadata
  end.

(** ** A collection at a point in time *)

Definition rollback_single_entity_to_timestamp (clock : nat -> Z) (collection : CollectionId) (id : EntityId)
    (timestamp_ns : Z) (actor : option string) (dry_run : bool) : MOp unit :=
  do history <- gets (fun s : Mem => query_by_entity (s_audit_log s) collection id);
  let state_at_timestamp := List.find (fun e => (ae_timestamp_ns e <=? timestamp_ns)%Z) (rev history) in
  do current <- reads (fun s : Mem => get s collection id);
  match state_at_timestamp with
  | Some target_entry =>
      match ae_data_after target_entry with
      | None =>
          match current with
          | Some existing =>
              if dry_run then ret tt
              else rollback_delete clock collection id existing actor (collection_metadata timestamp_ns)
          | None => ret tt
          end
      | Some target_data =>
          if match current with Some cur => value_eqb (e_data cur) target_data | None => false end then ret tt
          else if dry_run then ret tt
          else write_back clock collection id current target_data actor (collection_metadata timestamp_ns)
      end
  | None =>
      match current with
      | Some existing =>
          if dry_run then ret tt
          else rollback_delete clock collection id existing actor (collection_metadata timestamp_ns)
      | None => ret tt
      end
  end.

Definition is_entity_mutation (e : AuditEntry) : bool :=
  match ae_mutation e with EntityCreate | EntityUpdate | EntityDelete | EntityRevert => true | _ => false end.

(** The distinct ids, in the order of their first occurrence; [seen] holds the
    earlier ones. *)
Fixpoint distinct_ids (seen : gset EntityId) (entries : list AuditEntry) : list EntityId :=
  match entries with
  | [] => []
  | e :: rest =>
      let id := ae_entity_id e in
      if bool_decide (id = "") then distinct_ids seen rest
      else if bool_decide (id ∈ seen) then distinct_ids seen rest
      else id :: distinct_ids ({[id]} ∪ seen) rest
  end.

Definition entity_outcome {A} (id : EntityId) (r : result A AxonError) : RollbackCollectionEntityResult :=
  match r with
  | Err e => {| rce_id := id; rce_success := false; rce_error := Some (error_text e) |}
  | _ => {| rce_id := id; rce_success := true; rce_error := None |}
  end.

(** The loop over the affected entities: an error is recorded and the loop goes
    on; [n] counts the entities. *)
Fixpoint rollback_each (clock : nat -> nat -> Z) (n : nat) (collection : CollectionId) (timestamp_ns : Z)
    (actor : option string) (dry_run : bool) (ids : list EntityId)
    : MOp (list RollbackCollectionEntityResult) :=
  match ids with
  | [] => ret []
  | id :: rest => fun s =>
      match rollback_single_entity_to_timestamp (clock n) collection id timestamp_ns actor dry_run s with
      | (s', Panic) => (s', Panic)
      | (s', r) =>
          (do others <- rollback_each clock (Datatypes.S n) collection timestamp_ns actor dry_run rest;
           ret (entity_outcome id r :: others)) s'
      end
  end.

Definition rollback_query (req : RollbackCollectionRequest) : AuditQuery := {|
  aq_database := None; aq_collection := Some (rc_collection req); aq_collection_ids := []; aq_entity_id := None;
  aq_actor := None; aq_operation := None; aq_intent_id := None; aq_approval_id := None;
  aq_since_ns := Some (wrap64 (rc_timestamp_ns req + 1)); aq_until_ns := None; aq_after_id := None;
  aq_limit := None |}.

Definition rollback_collection (clock : nat -> nat -> Z) (req : RollbackCollectionRequest)
    : MOp RollbackCollectionResponse :=
  do! ensure_access reserved_payload (rc_collection req) OP_ROLLBACK;
  do page <- gets (fun s : Mem => query_paginated (s_audit_log s) (rollback_query req));
  let affected := distinct_ids ∅ (List.filter is_entity_mutation (ap_entries page)) in
  do details <- rollback_each clock 0 (rc_collection req) (rc_timestamp_ns req) (rc_actor req) (rc_dry_run req)
                  affected;
  ret {| rcr_entities_affected := length affected;
         rcr_entities_rolled_back := length (List.filter rce_success details);
         rcr_errors := length (List.filter (fun d => negb (rce_success d)) details);
         rcr_dry_run := rc_dry_run req; rcr_details := details |}.

(** ** The entities of a transaction *)

Definition no_snapshot (e : AuditEntry) : AxonError :=
  InvalidOperation ("audit entry " +:+ pretty (ae_id e) +:+ " has no data_before snapshot to restore").

Definition rollback_single_entity_from_transaction (clock : nat -> Z) (collection : CollectionId) (id : EntityId)
    (first_tx_entry : AuditEntry) (transaction_id : string) (actor : option string) (dry_run : bool) : MOp unit :=
  do current <- reads (fun s : Mem => get s collection id);
  let metadata := transaction_metadata transaction_id in
  match ae_mutation first_tx_entry with
  | EntityCreate =>
      match current with
      | None => ret tt
      | Some existing => if dry_run then ret tt else rollback_delete clock collection id existing actor metadata
      end
  | EntityUpdate | EntityRevert =>
      match ae_data_before first_tx_entry with
      | None => fail (no_snapshot first_tx_entry)
      | Some target_data =>
          if match current with Some cur => value_eqb (e_data cur) target_data | None => false end then ret tt
          else if dry_run then ret tt
          else write_back clock collection id current target_data actor metadata
      end
  | EntityDelete =>
      match ae_data_before first_tx_entry with
      | None => fail (no_snapshot first_tx_entry)
      | Some target_data =>
          match current with
          | Some _ => ret tt
          | None =>
              if dry_run then ret tt
              else write_back clock collection id None target_data actor metadata
          end
      end
  | _ => ret tt
  end.

Definition same_entity (e e' : AuditEntry) : bool :=
  bool_decide (ae_collection e = ae_collection e') && bool_decide (ae_entity_id e = ae_entity_id e').

(** The last entry of every entity, in the order of the entries; a reserved
    collection stops the rollback. *)
Fixpoint last_entries (entries : list AuditEntry) : list AuditEntry :=
  match entries with
  | [] => []
  | e :: rest => if existsb (same_entity e) rest then last_entries rest else e :: last_entries rest
  end.

Definition transaction_outcome {A} (e : AuditEntry) (r : result A AxonError) : RollbackTransactionEntityResult :=
  match r with
  | Err err => {| rte_collection := ae_collection e; rte_id := ae_entity_id e; rte_success := false;
                  rte_error := Some (error_text err) |}
  | _ => {| rte_collection := ae_collection e; rte_id := ae_entity_id e; rte_success := true; rte_error := None |}
  end.

Fixpoint rollback_entries (clock : nat -> nat -> Z) (n : nat) (tx_entries : list AuditEntry)
    (req : RollbackTransactionRequest) (entries : list AuditEntry) : MOp (list RollbackTransactionEntityResult) :=
  match entries with
  | [] => ret []
  | last_entry :: rest => fun s =>
      match List.find (same_entity last_entry) tx_entries with
      | None =>
          (do others <- rollback_entries clock (Datatypes.S n) tx_entries req rest;
           ret ({| rte_collection := ae_collection last_entry; rte_id := ae_entity_id last_entry;
                   rte_success := false;
                   rte_error := Some "no audit entry found for entity in transaction" |} :: others)) s
      | Some first_entry =>
          match rollback_single_entity_from_transaction (clock n) (ae_collection last_entry) (ae_entity_id last_entry)
                  first_entry (rt_transaction_id req) (rt_actor req) (rt_dry_run req) s with
          | (s', Panic) => (s', Panic)
          | (s', r) =>
              (do others <- rollback_entries clock (Datatypes.S n) tx_entries req rest;
               ret (transaction_outcome last_entry r :: others)) s'
          end
      end
  end.

Definition rollback_transaction (clock : nat -> nat -> Z) (req : RollbackTransactionRequest)
    : MOp RollbackTransactionResponse :=
  do tx_entries <- gets (fun s : Mem => visible_audit_entries (query_by_transaction_id (s_audit_log s)
                                                           (rt_transaction_id req)));
  match tx_entries with
  | [] => fail (NotFound ("transaction '" +:+ rt_transaction_id req +:+ "'"))
  | _ =>
      do! lift (ensure_generic_collection_accesses reserved_payload (map ae_collection (rev tx_entries)) OP_ROLLBACK);
      let entity_entries := last_entries tx_entries in
      do details <- rollback_entries clock 0 tx_entries req entity_entries;
      ret {| rtr_transaction_id := rt_transaction_id req; rtr_entities_affected := length entity_entries;
             rtr_entities_rolled_back := length (List.filter rte_success details);
             rtr_errors := length (List.filter (fun d => negb (rte_success d)) details);
             rtr_dry_run := rt_dry_run req; rtr_details := details |}
  end.
End Rollback.
