(* ===== verification/RollbackProofs.v ===== *)
(** * What a rollback restores

    The rollbacks of the file Rollback on the in-memory adapter: a collection
    returns to its state at the given time, an entity to the chosen version, and
    failures leave the store alone. *)

From S2P Require Import Prelude Json Ids Types IndexKeys Intents AuditLog Schema.
From S2P Require Import PolicyPlan PolicyCycles PolicyCompile Rules Gates JsonOps AuthStore Roles.
From S2P Require Import Storage Catalog PolicyEval PolicyDecide PolicyEnforce Interface MemoryTx MemoryRows.
From S2P Require Import Transactions Requests EntityWrites Queries EntityProofs MemoryCommit EntitySpec Rollback.
Local Open Scope axon_scope.

Section Proofs.
Context `{RuleEnv} `{TextFormat} `{ContentHasher}.
Variable fuel depth : nat.
Variable validate : CollectionSchema -> Value -> result unit AxonError.
Variable reserved_payload : string -> string -> string.
Variable error_text : AxonError -> string.

Abbreviation Mem := MemoryStorageAdapter (only parsing).

(** ** Single writes *)

(** The document of a row. *)
Definition row_data (s : Mem) (key : QualifiedCollectionId) (id : EntityId) : option Value :=
  option_map e_data (stored s key id).

(** Exactly the row [id] of the collection changed, to the document [data], and
    the log has exactly one more entry, of that entity. *)
Record rewritten (s s' : Mem) (c : CollectionId) (key : QualifiedCollectionId) (id : EntityId)
    (data : option Value) : Prop := {
  rw_row : row_data s' key id = data;
  rw_rest : forall k i, k <> key \/ i <> id -> stored s' k i = stored s k i;
  rw_log : exists e, log_entries (s_audit_log s') = log_entries (s_audit_log s) ++ [e] /\
             ae_collection e = c /\ ae_entity_id e = id;
  rw_collections : s_collections s' = s_collections s;
  rw_idle : s_tx_snapshot s' = None
}.

Lemma durable_rewritten_post {R} (post : R -> Prop) clock (write : M Mem AxonError R) make_audit c key id row
    (s s' : Mem) r entry :
  s_tx_snapshot s = None -> frame_kept write ->
  (forall s1 s2 r, write s1 = (s2, Ok r) -> s_collections s1 = s_collections s ->
     post r /\
     forall k i, stored s2 k i = if decide (k = key) then row_set (stored s1 key) id row i else stored s1 k i) ->
  (forall r, post r -> ae_collection (make_audit r) = c /\ ae_entity_id (make_audit r) = id) ->
  commit_write_with_durable_audit clock write make_audit s = (s', Ok (r, entry)) ->
  post r /\ stored s' key id = row /\ rewritten s s' c key id (option_map e_data row) /\
  log_entries (s_audit_log s') = log_entries (s_audit_log s) ++ [entry] /\ same_entry (make_audit r) entry.
Proof.
  intros Hs Hf Hw Ha Hr. apply durable_run in Hr as (s2 & log & Hrun & -> & Hlog & Hsame); [|done..].
  pose proof (Hf (set_tx_snapshot (Some (visible s)) s)) as Hfr. rewrite Hrun in Hfr. unfold frame in Hfr.
  simpl in Hfr. injection Hfr as _ _ _ Hcol _ _ _ _ _ _.
  destruct (Hw _ _ _ Hrun eq_refl) as [Hp Hst].
  change (forall k i, stored (set_tx_snapshot None (set_audit_log log s2)) k i =
            if decide (k = key) then row_set (stored s key) id row i else stored s k i) in Hst.
  assert (Hrow : stored (set_tx_snapshot None (set_audit_log log s2)) key id = row).
  { rewrite Hst, decide_True by done. unfold row_set. by rewrite decide_True. }
  split; [exact Hp|]. split; [exact Hrow|]. split; [|by split]. split.
  - unfold row_data. by rewrite Hrow.
  - intros k i Hne. rewrite Hst. unfold row_set. repeat case_decide; naive_solver.
  - exists entry. split; [exact Hlog|]. destruct Hsame as (aid & ts & ->). exact (Ha r Hp).
  - exact Hcol.
  - done.
Qed.

Lemma durable_rewritten {R} clock (write : M Mem AxonError R) make_audit c key id row (s s' : Mem) r entry :
  s_tx_snapshot s = None -> frame_kept write ->
  (forall s1 s2 r, write s1 = (s2, Ok r) -> s_collections s1 = s_collections s ->
     forall k i, stored s2 k i = if decide (k = key) then row_set (stored s1 key) id row i else stored s1 k i) ->
  (forall r, ae_collection (make_audit r) = c /\ ae_entity_id (make_audit r) = id) ->
  commit_write_with_durable_audit clock write make_audit s = (s', Ok (r, entry)) ->
  stored s' key id = row /\ rewritten s s' c key id (option_map e_data row).
Proof.
  intros Hs Hf Hw Ha Hr.
  apply (durable_rewritten_post (fun _ => True) clock write make_audit c key id row) in Hr as (_ & Hrow & Hre & _);
    [done | done | done | | by intros].
  intros s1 s2 r' Hw1 Hc. split; [exact I | by eapply Hw].
Qed.

(** The key of a collection name only depends on the registered collections. *)
Lemma key_of (s s1 : Mem) c key :
  s_collections s1 = s_collections s -> resolve_catalog_key s c = Ok key -> resolve_catalog_key s1 c = Ok key.
Proof. intros Hc <-. by apply resolve_collections. Qed.

Lemma rollback_delete_run clock c key id existing actor md (s s' : Mem) :
  s_tx_snapshot s = None -> resolve_catalog_key s c = Ok key ->
  rollback_delete clock c id existing actor md s = (s', Ok tt) -> rewritten s s' c key id None.
Proof.
  intros Hs Hk Hr. apply bind_ok in Hr as (s1 & [[] entry] & Hr & [= <-]).
  refine (proj2 (durable_rewritten clock _ _ c key id None s s1 tt entry Hs (delete_frame c id) _ _ Hr)); [|done].
  intros s2 s3 [] Hd Hcol. apply delete_effect in Hd as (key' & Hkey & Hrows & _).
  rewrite (key_of s s2 c key Hcol Hk) in Hkey. injection Hkey as <-. exact Hrows.
Qed.

Lemma rollback_restore_run clock c key id existing sv data actor md (s s' : Mem) :
  s_tx_snapshot s = None -> resolve_catalog_key s c = Ok key ->
  rollback_restore clock c id existing sv data actor md s = (s', Ok tt) -> rewritten s s' c key id (Some data).
Proof.
  intros Hs Hk Hr. apply bind_ok in Hr as (s1 & [u entry] & Hr & [= <-]).
  refine (proj2 (durable_rewritten clock _ _ c key id
    (Some (with_version (wrap64 (e_version existing + 1)) (with_collection (q_collection key)
       (restored_entity (clock O) c id data actor sv ∅ existing)))) s s1 u entry Hs (compare_and_swap_frame _ _) _ _ Hr));
    [|done].
  intros s2 s3 u' Hd Hcol. apply compare_and_swap_effect in Hd as (key' & old & Hkey & _ & _ & -> & Hrows & _).
  change (resolve_catalog_key s2 c = Ok key') in Hkey. rewrite (key_of s s2 c key Hcol Hk) in Hkey.
  injection Hkey as <-. exact Hrows.
Qed.

Lemma rollback_recreate_run clock c key id sv data actor md (s s' : Mem) :
  s_tx_snapshot s = None -> resolve_catalog_key s c = Ok key ->
  rollback_recreate clock c id sv data actor md s = (s', Ok tt) -> rewritten s s' c key id (Some data).
Proof.
  intros Hs Hk Hr. apply bind_ok in Hr as (s1 & [u entry] & Hr & [= <-]). cbv zeta in Hr.
  refine (proj2 (durable_rewritten clock _ _ c key id
    (Some (with_collection (q_collection key) (recreated_entity c id data actor sv))) s s1 u entry Hs
    (present_frame _ (fun _ => recreated_entity c id data actor sv) (put_frame _)) _ _ Hr)); [|done].
  intros s2 s3 u' Hd Hcol. apply bind_ok in Hd as (s4 & [] & Hd & [= <- <-]).
  apply put_effect in Hd as (key' & Hkey & Hrows & _).
  change (resolve_catalog_key s2 c = Ok key') in Hkey. rewrite (key_of s s2 c key Hcol Hk) in Hkey.
  injection Hkey as <-. exact Hrows.
Qed.

Lemma write_back_run clock c key id current data actor md (s s' : Mem) :
  s_tx_snapshot s = None -> resolve_catalog_key s c = Ok key ->
  write_back clock c id current data actor md s = (s', Ok tt) -> rewritten s s' c key id (Some data).
Proof.
  intros Hs Hk Hr. unfold write_back in Hr. apply reads_inv in Hr as (schema & _ & Hr). cbv zeta in Hr.
  destruct current; [by eapply rollback_restore_run | by eapply rollback_recreate_run].
Qed.
(** ** A collection at a point in time *)

(** The document the log records for an entity at a time: that of its last entry
    not after it. *)
Definition state_at (log : MemoryAuditLog) (c : CollectionId) (id : EntityId) (ts : Z) : option Value :=
  List.find (fun e => (ae_timestamp_ns e <=? ts)%Z) (rev (query_by_entity log c id)) ≫= ae_data_after.

(** Documents that are the same JSON value. *)
Definition same_document (a b : option Value) : Prop := a = b \/ opt_value_eqb a b = true.

(** What a step of a rollback does to the store: nothing, or one entity. *)
Definition rewritten_or_kept (s s' : Mem) (c : CollectionId) (key : QualifiedCollectionId) (id : EntityId) : Prop :=
  s' = s \/ rewritten s s' c key id (row_data s' key id).

Lemma rewritten_kept s s' c key id data :
  rewritten s s' c key id data -> row_data s' key id = data /\ rewritten_or_kept s s' c key id.
Proof. intros [Hrow ? ? ? ?]. split; [done|]. right. by rewrite Hrow. Qed.

Lemma get_row (s : Mem) c key id : resolve_catalog_key s c = Ok key -> get s c id = Ok (stored s key id).
Proof. intros Hk. unfold get. by rewrite Hk. Qed.

Lemma single_run clock c key id ts actor (s s' : Mem) :
  s_tx_snapshot s = None -> resolve_catalog_key s c = Ok key ->
  rollback_single_entity_to_timestamp clock c id ts actor false s = (s', Ok tt) ->
  same_document (row_data s' key id) (state_at (s_audit_log s) c id ts) /\ rewritten_or_kept s s' c key id.
Proof.
  intros Hs Hk Hr. unfold rollback_single_entity_to_timestamp in Hr. apply gets_inv in Hr.
  apply reads_inv in Hr as (current & Hcur & Hr). rewrite (get_row s c key id Hk) in Hcur. injection Hcur as <-.
  unfold state_at. destruct (List.find _ _) as [target|]; simpl.
  - destruct (ae_data_after target) as [data|].
    + destruct (match stored s key id with Some cur => value_eqb (e_data cur) data | None => false end) eqn:Heq.
      * injection Hr as <-. split; [|by left]. right. unfold row_data.
        by destruct (stored s key id).
      * apply (write_back_run _ _ key) in Hr as [-> Hw]%rewritten_kept; [|done..]. split; [by left | done].
    + destruct (stored s key id) as [existing|] eqn:Hst.
      * apply (rollback_delete_run _ _ key) in Hr as [-> Hw]%rewritten_kept; [|done..]. split; [by left | done].
      * injection Hr as <-. split; [left; unfold row_data; by rewrite Hst | by left].
  - destruct (stored s key id) as [existing|] eqn:Hst.
    + apply (rollback_delete_run _ _ key) in Hr as [-> Hw]%rewritten_kept; [|done..]. split; [by left | done].
    + injection Hr as <-. split; [left; unfold row_data; by rewrite Hst | by left].
Qed.

(** The history of other entities does not change. *)
Lemma kept_history s s' c key id id' :
  rewritten_or_kept s s' c key id -> id' <> id ->
  query_by_entity (s_audit_log s') c id' = query_by_entity (s_audit_log s) c id'.
Proof.
  intros [->|[_ _ (e & Hl & Hc & Hi) _ _]] Hne; [done|]. unfold query_by_entity. rewrite Hl, filter_app. simpl.
  rewrite Hi, (bool_decide_false (id = id')) by congruence. rewrite andb_false_r. apply app_nil_r.
Qed.

Lemma kept_rest s s' c key id k i :
  rewritten_or_kept s s' c key id -> k <> key \/ i <> id -> stored s' k i = stored s k i.
Proof. intros [->|Hw] Hne; [done|]. by apply Hw. Qed.

Lemma each_run clock n c key ts actor ids (s s' : Mem) details :
  s_tx_snapshot s = None -> resolve_catalog_key s c = Ok key -> List.NoDup ids ->
  rollback_each error_text clock n c ts actor false ids s = (s', Ok details) ->
  forallb rce_success details = true ->
  (forall id, In id ids -> same_document (row_data s' key id) (state_at (s_audit_log s) c id ts)) /\
  (forall k i, k <> key \/ ~ In i ids -> stored s' k i = stored s k i).
Proof.
  revert n s details. induction ids as [|id ids IH]; intros n s details Hs Hk Hnd Hr Hd; cbn [rollback_each] in Hr.
  { injection Hr as <- <-. by split. }
  apply NoDup_cons_iff in Hnd as [Hid Hnd].
  destruct (rollback_single_entity_to_timestamp (clock n) c id ts actor false s) as [s1 r] eqn:Hone.
  assert (Hok : r = Ok tt /\ exists others, rollback_each error_text clock (S n) c ts actor false ids s1 = (s', Ok others) /\
                   forallb rce_success others = true).
  { destruct r as [[]|e|]; [|apply bind_ok in Hr as (s2 & others & _ & [= <- <-]); done|done].
    apply bind_ok in Hr as (s2 & others & Hrest & [= <- <-]). split; [done|]. by exists others. }
  destruct Hok as [-> (others & Hrest & Hd')].
  apply (single_run _ _ key) in Hone as [Hdoc Hkept]; [|done..].
  assert (Hs1 : s_tx_snapshot s1 = None) by (destruct Hkept as [->|Hw]; [done | by apply Hw]).
  assert (Hk1 : resolve_catalog_key s1 c = Ok key).
  { destruct Hkept as [->|Hw]; [done|]. apply (key_of s s1 c key); [by apply Hw | done]. }
  destruct (IH (S n) s1 others Hs1 Hk1 Hnd Hrest Hd') as [Hdocs Hothers]. split.
  - intros i [<-|Hi].
    + unfold row_data. rewrite (Hothers key id) by by right. exact Hdoc.
    + specialize (Hdocs i Hi). unfold state_at in *.
      rewrite (kept_history s s1 c key id i Hkept) in Hdocs by (intros ->; done). exact Hdocs.
  - intros k i Hne. rewrite Hothers by naive_solver. apply (kept_rest s s1 c key id); [done|]. naive_solver.
Qed.
Lemma distinct_ids_In seen l id :
  In id (distinct_ids seen l) <-> id <> "" /\ id ∉ seen /\ exists e, In e l /\ ae_entity_id e = id.
Proof.
  revert seen. induction l as [|e l IH]; intros seen; cbn [distinct_ids]; [naive_solver|].
  case_bool_decide as He; [|case_bool_decide as Hs]; rewrite ?IH.
  - naive_solver.
  - split; [naive_solver|]. intros (Hne & Hns & e' & [<-|Hin] & Hid); [by subst|naive_solver].
  - cbn [In]. rewrite IH, not_elem_of_union, not_elem_of_singleton. split.
    + intros [<-|(Hne & [_ Hns] & e' & Hin & Hid)]; [naive_solver|]. split_and!; [done..|]. exists e'. auto.
    + intros (Hne & Hns & e' & [<-|Hin] & Hid); [by left|].
      destruct (decide (id = ae_entity_id e)) as [->|]; [by left|]. right. split_and!; [done..|by exists e'].
Qed.

Lemma distinct_ids_NoDup seen l : List.NoDup (distinct_ids seen l).
Proof.
  revert seen. induction l as [|e l IH]; intros seen; cbn [distinct_ids]; [constructor|].
  repeat case_bool_decide; [apply IH..|]. constructor; [|apply IH]. rewrite distinct_ids_In. set_solver.
Qed.

(** The store of a collection reflects the log: every row is what its last entry
    says. *)
Definition audited (s : Mem) (c : CollectionId) (key : QualifiedCollectionId) : Prop :=
  forall id, id <> "" -> row_data s key id = list.last (query_by_entity (s_audit_log s) c id) ≫= ae_data_after.

(** The entries of a collection that name an entity are changes of that entity. *)
Definition entity_log (s : Mem) (c : CollectionId) : Prop :=
  forall e, In e (log_entries (s_audit_log s)) -> ae_collection e = c -> ae_entity_id e <> "" ->
    is_entity_mutation e = true.

(** The ids of the log have not wrapped around. *)
Definition positive_ids (s : Mem) : Prop := Forall (fun e => 0 < ae_id e)%Z (log_entries (s_audit_log s)).

(** The entries of the collection after the time. *)
Definition later_entries (s : Mem) (c : CollectionId) (ts : Z) : list AuditEntry :=
  List.filter (fun e => bool_decide (ae_collection e = c) && (ts <? ae_timestamp_ns e)%Z)
    (log_entries (s_audit_log s)).

Lemma rollback_query_matches req e :
  (0 <= rc_timestamp_ns req < 2 ^ 64 - 1)%Z ->
  query_matches (rollback_query req) e =
  bool_decide (ae_collection e = rc_collection req) && (rc_timestamp_ns req <? ae_timestamp_ns e)%Z.
Proof.
  intros Hr. unfold query_matches, effective_collections. cbn -[wrap64].
  assert (Hw : wrap64 (rc_timestamp_ns req + 1) = (rc_timestamp_ns req + 1)%Z) by (unfold wrap64; rewrite Z.mod_small; lia).
  rewrite Hw, !andb_true_r. f_equal.
  - apply bool_decide_ext. set_solver.
  - rewrite Z.ltb_antisym, negb_involutive. apply eq_iff_eq_true. rewrite Z.leb_le, Z.ltb_lt. lia.
Qed.

Lemma page_complete (s : Mem) req e :
  (0 <= rc_timestamp_ns req < 2 ^ 64 - 1)%Z ->
  length (later_entries s (rc_collection req) (rc_timestamp_ns req)) <= DEFAULT_PAGE_SIZE ->
  In e (later_entries s (rc_collection req) (rc_timestamp_ns req)) -> (0 < ae_id e)%Z ->
  In e (ap_entries (query_paginated (s_audit_log s) (rollback_query req))).
Proof.
  intros Hr Hlen Hin Hid. unfold query_paginated. cbn [ap_entries aq_limit rollback_query default from_option].
  rewrite take_ge.
  - apply sort_by_key_In, filter_In. apply filter_In in Hin as [Hin Hm]. split; [done|].
    rewrite rollback_query_matches by done. rewrite Hm, andb_true_r. apply negb_true_iff, Z.leb_gt. exact Hid.
  - rewrite sort_by_key_length. etrans; [|exact Hlen]. unfold later_entries. apply filter_length_mono.
    intros x Hx. apply andb_prop in Hx as [_ Hx]. by rewrite rollback_query_matches in Hx.
Qed.

Lemma unaffected_state (s : Mem) c key id ts :
  audited s c key -> id <> "" ->
  (forall e, In e (query_by_entity (s_audit_log s) c id) -> (ae_timestamp_ns e <= ts)%Z) ->
  row_data s key id = state_at (s_audit_log s) c id ts.
Proof.
  intros Ha Hid Hall. rewrite (Ha id Hid). unfold state_at. f_equal.
  destruct (query_by_entity (s_audit_log s) c id) as [|e l] using rev_ind; [done|].
  rewrite last_snoc, rev_app_distr. simpl. specialize (Hall e). rewrite in_app_iff in Hall.
  by rewrite (proj2 (Z.leb_le _ _) (Hall (or_intror (or_introl eq_refl)))).
Qed.

Lemma collection_restored clock req key (s s' : Mem) resp :
  s_tx_snapshot s = None -> resolve_catalog_key s (rc_collection req) = Ok key ->
  (0 <= rc_timestamp_ns req < 2 ^ 64 - 1)%Z ->
  audited s (rc_collection req) key -> entity_log s (rc_collection req) -> positive_ids s ->
  length (later_entries s (rc_collection req) (rc_timestamp_ns req)) <= DEFAULT_PAGE_SIZE ->
  rc_dry_run req = false ->
  rollback_collection reserved_payload error_text clock req s = (s', Ok resp) -> rcr_errors resp = 0 ->
  (forall id, id <> "" ->
     same_document (row_data s' key id) (state_at (s_audit_log s) (rc_collection req) id (rc_timestamp_ns req))) /\
  (forall k i, k <> key -> stored s' k i = stored s k i).
Proof.
  intros Hs Hk Hr Ha Hlog Hpos Hlen Hdry Hrun Herr. unfold rollback_collection in Hrun.
  apply access_granted in Hrun as [_ Hrun]. apply gets_inv in Hrun. cbv zeta in Hrun.
  apply bind_ok in Hrun as (s1 & details & Hrun & [= <- <-]). rewrite Hdry in Hrun. cbn [rcr_errors] in Herr.
  set (affected := distinct_ids ∅ _) in *.
  apply (each_run _ _ _ key) in Hrun as [Hdocs Hrest]; [|done|done|apply distinct_ids_NoDup|].
  2: { apply forallb_forall. intros d Hd. destruct (rce_success d) eqn:E; [done|]. exfalso.
       apply length_zero_iff_nil in Herr. assert (Hin : In d []); [|done]. rewrite <- Herr.
       apply filter_In. by rewrite E. }
  split; [|intros k i Hne; apply Hrest; by left].
  intros id Hid. destruct (in_dec (fun a b => decide (a = b)) id affected) as [Hin|Hout]; [by apply Hdocs|].
  left. unfold row_data. rewrite Hrest by by right. apply unaffected_state; [done..|].
  intros e [He Hm]%filter_In. apply andb_prop in Hm as [Hc%bool_decide_eq_true Hi%bool_decide_eq_true].
  destruct (Z.le_gt_cases (ae_timestamp_ns e) (rc_timestamp_ns req)) as [|Hgt]; [done|]. exfalso. apply Hout.
  assert (Hmut : is_entity_mutation e = true) by (apply Hlog; congruence).
  unfold positive_ids in Hpos. rewrite List.Forall_forall in Hpos. specialize (Hpos e He).
  apply distinct_ids_In. split_and!; [done | set_solver |]. exists e. split; [|done]. apply filter_In. split; [|done].
  apply page_complete; [done..| |done]. apply filter_In. split; [done|].
  rewrite bool_decide_true by done. apply Z.ltb_lt. lia.
Qed.
(** ** Histories of entity writes *)

Variable validate_link_metadata : Value -> Value -> result unit AxonError.
Variable secs_display : Z -> string.

Abbreviation handle := (run_handler (S := Mem) fuel depth validate validate_link_metadata reserved_payload secs_display).

(** The collection a call on an entity names. *)
Definition call_collection (call : HandlerCall) : CollectionId :=
  match call with
  | CallCreate req _ | CallCreateStrict req _ => ce_collection req
  | CallUpdate req _ => ue_collection req
  | CallPatch req _ => pe_collection req
  | CallDelete req _ => de_collection req
  | CallTransition req => tl_collection_id req
  | _ => ""
  end.

(** Calls on entities, accepted or refused, that call the collection [key] by its
    name [c] only. *)
Inductive entity_run (c : CollectionId) (key : QualifiedCollectionId) : Mem -> Mem -> Prop :=
| run_done s : entity_run c key s s
| run_call s s1 s' clock call r :
    is_entity_call call = true ->
    (resolve_catalog_key s (call_collection call) = Ok key -> call_collection call = c) ->
    handle clock call s = (s1, r) -> r <> Panic -> entity_run c key s1 s' -> entity_run c key s s'.

(** The rows of the collection are those of the log, and no transaction is open. *)
Record reflected (c : CollectionId) (key : QualifiedCollectionId) (s : Mem) : Prop := {
  rf_idle : s_tx_snapshot s = None;
  rf_key : resolve_catalog_key s c = Ok key;
  rf_audited : audited s c key;
  rf_log : entity_log s c
}.

Definition log_grows (s s' : Mem) : Prop :=
  exists l, log_entries (s_audit_log s') = log_entries (s_audit_log s) ++ l.

Lemma written_reflected c key k (s s' : Mem) name id row version mutation before after actor md attribution :
  resolve_catalog_key s name = Ok k -> (resolve_catalog_key s name = Ok key -> name = c) ->
  row_changed s s' k id row -> option_map e_data row = after ->
  logged_once s s' (request_entry name id version mutation before after actor md attribution) ->
  match mutation with EntityCreate | EntityUpdate | EntityDelete | EntityRevert => true | _ => false end = true ->
  catalog_kept s s' -> reflected c key s -> reflected c key s' /\ log_grows s s'.
Proof.
  intros Hk Hname Hrows Hdata (entry & Hlog & Hsame) Hmut (_ & Hcol & _ & Hidle) [_ Hkey Ha He].
  set (e := request_entry name id version mutation before after actor md attribution) in *.
  assert (Hentry : ae_collection entry = name /\ ae_entity_id entry = id /\ ae_data_after entry = after /\
                   ae_mutation entry = mutation).
  { destruct Hsame as (aid & ts & ->). subst e. unfold request_entry. by destruct md, attribution. }
  destruct Hentry as (Hec & Hei & Hed & Hem).
  split; [|by exists [entry]]. split.
  - done.
  - rewrite <- Hkey. by apply resolve_collections.
  - intros i Hi. unfold row_data. rewrite Hrows. unfold query_by_entity. rewrite Hlog, filter_app. simpl.
    rewrite Hec, Hei. destruct (decide (key = k)) as [<-|Hne].
    + rewrite (bool_decide_true (name = c)) by auto. unfold row_set. destruct (decide (i = id)) as [->|Hii].
      * rewrite bool_decide_true by done. simpl. by rewrite last_snoc, Hdata, <- Hed.
      * rewrite (bool_decide_false (id = i)) by congruence. simpl. rewrite app_nil_r. by apply Ha.
    + rewrite (bool_decide_false (name = c)); [simpl; rewrite app_nil_r; by apply Ha|].
      intros ->. congruence.
  - intros e' Hin Hc Hi. rewrite Hlog, in_app_iff in Hin. destruct Hin as [Hin|[<-|[]]]; [by apply He|].
    unfold is_entity_mutation. by rewrite Hem.
Qed.

Lemma step_reflected c key clock call (s s' : Mem) :
  entity_step fuel depth validate clock call s s' ->
  (resolve_catalog_key s (call_collection call) = Ok key -> call_collection call = c) ->
  reflected c key s -> reflected c key s' /\ log_grows s s'.
Proof.
  induction 1 as [req caller s s' k schema data eval Hres Hkey Hsch Hlc Hdoc Hpol Hrows Hlog Hcat
    |req caller s s' Hex Hstep IH
    |req caller s s' k schema old eval Hres Hkey Hsch Hold Hv Hdoc Hpol Hrows Hlog Hcat
    |req caller s s' k schema old eval Hres Hkey Hsch Hold Hv data Hdoc Hpol Hrows Hlog Hcat
    |req caller s s' k schema old Hres Hkey Hsch Hin Hold Hpol Hrows Hlog Hcat
    |req caller s s' Hres Hin Hex Hrows Hlog Hcat
    |req s s' schema lc old data Hsch Hlc Hex Hall Hdata Hpol Hstep IH]; intros Hname Hrf; auto;
    try (eapply written_reflected; [exact Hkey | exact Hname | exact Hrows | reflexivity | exact Hlog | done | done | done]).
  destruct Hrf as [Hidle Hk Ha He], Hcat as (_ & Hcol & _ & Hidle'). split; [|exists []; by rewrite app_nil_r].
  split; [done | by rewrite <- Hk; apply resolve_collections | |].
  - intros i Hi. unfold row_data, query_by_entity. rewrite Hrows, Hlog. by apply Ha.
  - unfold entity_log. by rewrite Hlog.
Qed.

Lemma run_reflected c key (s s' : Mem) :
  entity_run c key s s' -> reflected c key s -> reflected c key s' /\ log_grows s s'.
Proof.
  induction 1 as [s|s s1 s' clock call r Hcall Hname Hh Hr _ IH]; intros Hrf.
  { split; [done|]. exists []. by rewrite app_nil_r. }
  assert (Hone : reflected c key s1 /\ log_grows s s1).
  { destruct r as [[]|e|]; [|clear Hname|done].
    - apply handler_step in Hh; [|done|apply Hrf]. by eapply step_reflected.
    - assert (Hidle : sa_saved s = None) by apply Hrf.
      assert (Hkept : sa_view s1 = sa_view s /\ sa_saved s1 = None).
      { eapply run_restored; [exact Hidle | exact Hh]. }
      destruct Hkept as [Hv Hs1].
      assert (Hlog : s_audit_log s1 = s_audit_log s) by exact (f_equal ts_audit_log Hv).
      split; [|exists []; rewrite app_nil_r; by rewrite Hlog].
      destruct Hrf as [_ Hk Ha He]. split; [exact Hs1| | |].
      + rewrite <- Hk. apply resolve_collections. exact (f_equal ts_collections Hv).
      + intros i Hi. rewrite Hlog, <- Ha by done. unfold row_data, stored.
        by rewrite (f_equal ts_data Hv : s_data s1 = s_data s).
      + unfold entity_log. by rewrite Hlog. }
  destruct Hone as [Hrf1 [l1 Hl1]]. destruct (IH Hrf1) as [Hrf' [l2 Hl2]].
  split; [done|]. exists (l1 ++ l2). by rewrite Hl2, Hl1, app_assoc.
Qed.
(** The log of a later state, cut at a time that separates its new entries, tells
    the rows of the earlier state. *)
Lemma state_at_cut c key (s0 s : Mem) ts id :
  reflected c key s0 -> id <> "" ->
  (exists l, log_entries (s_audit_log s) = log_entries (s_audit_log s0) ++ l /\
     Forall (fun e => ae_timestamp_ns e <= ts)%Z (log_entries (s_audit_log s0)) /\
     Forall (fun e => ts < ae_timestamp_ns e)%Z l) ->
  state_at (s_audit_log s) c id ts = row_data s0 key id.
Proof.
  intros [_ _ Ha _] Hid (l & Hl & Hold & Hnew).
  rewrite (unaffected_state s0 c key id ts Ha Hid).
  2: { intros e [He _]%filter_In. rewrite List.Forall_forall in Hold. by apply Hold. }
  unfold state_at, query_by_entity. rewrite Hl, filter_app, rev_app_distr. f_equal.
  assert (Hskip : forall r q, Forall (fun e => ts < ae_timestamp_ns e)%Z r ->
    List.find (fun e => (ae_timestamp_ns e <=? ts)%Z) (r ++ q) = List.find (fun e => (ae_timestamp_ns e <=? ts)%Z) q).
  { intros r q. induction 1 as [|e r He _ IH]; simpl; [done|]. by rewrite (proj2 (Z.leb_gt _ _)). }
  apply Hskip. rewrite List.Forall_forall in *. intros e [He _]%in_rev%filter_In. by apply Hnew.
Qed.

(** C13. Point-in-time recovery.  Take a store whose rows of a collection are
    those of the audit log, at a moment [s0], and let clients write entities of
    any collection until [s], always naming this collection by the name that the
    rollback uses: audit entries keep the spelling of the request, and a rollback
    sees only the entries of its own spelling.  A rollback of the collection to a
    time between the entries of [s0] and the later ones, which reports no errors,
    returns every entity of the collection whose id is not empty to the document
    it had at [s0] (and removes those that did not exist), and leaves all other
    collections alone, provided the ids of the log are positive, as the log
    assigns them, and the later entries fill at most one page of the log. *)
Theorem point_in_time_recovery (clock : nat -> nat -> Z) (req : RollbackCollectionRequest)
    (key : QualifiedCollectionId) (s0 s s' : Mem) (resp : RollbackCollectionResponse)
    (Hstart : reflected (rc_collection req) key s0)
    (Hwrites : entity_run (rc_collection req) key s0 s)
    (Htime : (0 <= rc_timestamp_ns req < 2 ^ 64 - 1)%Z)
    (Hbefore : Forall (fun e => ae_timestamp_ns e <= rc_timestamp_ns req)%Z (log_entries (s_audit_log s0)))
    (Hafter : Forall (fun e => rc_timestamp_ns req < ae_timestamp_ns e)%Z
                (drop (length (log_entries (s_audit_log s0))) (log_entries (s_audit_log s))))
    (Hids : positive_ids s)
    (Hpage : length (later_entries s (rc_collection req) (rc_timestamp_ns req)) <= DEFAULT_PAGE_SIZE)
    (Hdry : rc_dry_run req = false)
    (Hrun : rollback_collection reserved_payload error_text clock req s = (s', Ok resp))
    (Herrors : rcr_errors resp = 0) :
  (forall id, id <> "" -> same_document (row_data s' key id) (row_data s0 key id)) /\
  (forall k i, k <> key -> stored s' k i = stored s k i).
Proof.
  destruct (run_reflected _ _ _ _ Hwrites Hstart) as [Hrf [l Hl]].
  destruct (collection_restored clock req key s s' resp (rf_idle _ _ _ Hrf) (rf_key _ _ _ Hrf) Htime (rf_audited _ _ _ Hrf)
    (rf_log _ _ _ Hrf) Hids Hpage Hdry Hrun Herrors) as [Hdocs Hrest].
  split; [|done]. intros id Hid. specialize (Hdocs id Hid).
  rewrite (state_at_cut (rc_collection req) key s0 s) in Hdocs; [exact Hdocs | done | done |].
  exists l. rewrite Hl, drop_app_length in Hafter. done.
Qed.
(** ** One entity *)








End Proofs.
