(* ===== verification/Explain.v ===== *)
(** * Explanations of policy decisions ([crates/axon-api/src/handler.rs])

    Effective capabilities of a caller, explanations of the decisions on single
    operations and on transactions, and the explanations of a proposed schema's
    dry run, on the in-memory adapter.

    [fuel] and [depth] are those of the policy evaluator. *)

From S2P Require Import Prelude Json Ids Types IndexKeys Intents AuditLog.
From S2P Require Import Schema PolicyPlan PolicyCompile Rules Gates JsonOps AuthStore Roles Storage Catalog.
From S2P Require Import PolicyEval PolicyDecide PolicyStatic Interface MemoryTx Requests EntityWrites Rollback.
Local Open Scope axon_scope.

(** ** Text *)

Fixpoint ascii_lowercase (s : string) : string :=
  match s with
  | "" => ""
  | String c rest => String (to_ascii_lowercase c) (ascii_lowercase rest)
  end.

(** ** Requests and responses *)

Section Data.
Context `{SerdeNumber}.

Record EffectivePolicyResponse : Type := {
  ef_collection : string;
  ef_can_read : bool;
  ef_can_create : bool;
  ef_can_update : bool;
  ef_can_delete : bool;
  ef_redacted_fields : list string;
  ef_denied_fields : list string;
  ef_policy_version : Z
}.

Record PolicyRuleMatch : Type := {
  rm_rule_id : string;
  rm_name : option string;
  rm_kind : string;
  rm_field_path : option string
}.

Record PolicyApprovalEnvelopeSummary : Type := {
  pa_policy_id : string;
  pa_name : option string;
  pa_decision : string;
  pa_role : option string;
  pa_reason_required : bool;
  pa_deadline_seconds : option Z;
  pa_separation_of_duties : bool
}.

Inductive PolicyExplanationResponse : Type := {
  px_operation : string;
  px_collection : option string;
  px_entity_id : option string;
  px_operation_index : option Z;
  px_decision : string;
  px_reason : string;
  px_policy_version : Z;
  px_rule_ids : list string;
  px_policy_ids : list string;
  px_field_paths : list string;
  px_denied_fields : list string;
  px_rules : list PolicyRuleMatch;
  px_approval : option PolicyApprovalEnvelopeSummary;
  px_operations : list PolicyExplanationResponse
}.

Inductive ExplainPolicyRequest : Type := {
  xr_operation : string;
  xr_collection : option CollectionId;
  xr_entity_id : option EntityId;
  xr_expected_version : option Z;
  xr_data : option Value;
  xr_patch : option Value;
  xr_lifecycle_name : option string;
  xr_target_state : option string;
  xr_to_version : option Z;
  xr_operations : list ExplainPolicyRequest;
  xr_actor_override : option ExplainActorOverride
}.
End Data.

(** ** Building explanations *)

Definition policy_explanation (operation : string) (collection : option CollectionId) (entity_id : option EntityId)
    (operation_index : option Z) (decision reason : string) (policy_version : Z) : PolicyExplanationResponse := {|
  px_operation := operation; px_collection := collection; px_entity_id := entity_id;
  px_operation_index := operation_index; px_decision := decision; px_reason := reason;
  px_policy_version := policy_version; px_rule_ids := []; px_policy_ids := []; px_field_paths := [];
  px_denied_fields := []; px_rules := []; px_approval := None; px_operations := [] |}.

(** Assignments to the fields of a response. *)
Definition set_outcome (decision reason : string) (r : PolicyExplanationResponse) : PolicyExplanationResponse := {|
  px_operation := px_operation r; px_collection := px_collection r; px_entity_id := px_entity_id r;
  px_operation_index := px_operation_index r; px_decision := decision; px_reason := reason;
  px_policy_version := px_policy_version r; px_rule_ids := px_rule_ids r; px_policy_ids := px_policy_ids r;
  px_field_paths := px_field_paths r; px_denied_fields := px_denied_fields r; px_rules := px_rules r;
  px_approval := px_approval r; px_operations := px_operations r |}.

Definition set_lists (rule_ids policy_ids field_paths denied_fields : list string) (rules : list PolicyRuleMatch)
    (approval : option PolicyApprovalEnvelopeSummary) (r : PolicyExplanationResponse) : PolicyExplanationResponse := {|
  px_operation := px_operation r; px_collection := px_collection r; px_entity_id := px_entity_id r;
  px_operation_index := px_operation_index r; px_decision := px_decision r; px_reason := px_reason r;
  px_policy_version := px_policy_version r; px_rule_ids := rule_ids; px_policy_ids := policy_ids;
  px_field_paths := field_paths; px_denied_fields := denied_fields; px_rules := rules;
  px_approval := approval; px_operations := px_operations r |}.

Definition push_rules (rules : list PolicyRuleMatch) (r : PolicyExplanationResponse) : PolicyExplanationResponse :=
  set_lists (px_rule_ids r) (px_policy_ids r) (px_field_paths r) (px_denied_fields r) (px_rules r ++ rules)
    (px_approval r) r.
Definition push_policy_id (id : string) (r : PolicyExplanationResponse) : PolicyExplanationResponse :=
  set_lists (px_rule_ids r) (px_policy_ids r ++ [id]) (px_field_paths r) (px_denied_fields r) (px_rules r)
    (px_approval r) r.
Definition push_field_path (path : string) (r : PolicyExplanationResponse) : PolicyExplanationResponse :=
  set_lists (px_rule_ids r) (px_policy_ids r) (px_field_paths r ++ [path]) (px_denied_fields r) (px_rules r)
    (px_approval r) r.
Definition push_denied_field (path : string) (r : PolicyExplanationResponse) : PolicyExplanationResponse :=
  set_lists (px_rule_ids r) (px_policy_ids r) (px_field_paths r) (px_denied_fields r ++ [path]) (px_rules r)
    (px_approval r) r.
Definition set_approval (approval : option PolicyApprovalEnvelopeSummary) (r : PolicyExplanationResponse)
    : PolicyExplanationResponse :=
  set_lists (px_rule_ids r) (px_policy_ids r) (px_field_paths r) (px_denied_fields r) (px_rules r) approval r.
Definition raise_policy_version (v : Z) (r : PolicyExplanationResponse) : PolicyExplanationResponse := {|
  px_operation := px_operation r; px_collection := px_collection r; px_entity_id := px_entity_id r;
  px_operation_index := px_operation_index r; px_decision := px_decision r; px_reason := px_reason r;
  px_policy_version := Z.max (px_policy_version r) v; px_rule_ids := px_rule_ids r; px_policy_ids := px_policy_ids r;
  px_field_paths := px_field_paths r; px_denied_fields := px_denied_fields r; px_rules := px_rules r;
  px_approval := px_approval r; px_operations := px_operations r |}.
Definition push_operation (child r : PolicyExplanationResponse) : PolicyExplanationResponse := {|
  px_operation := px_operation r; px_collection := px_collection r; px_entity_id := px_entity_id r;
  px_operation_index := px_operation_index r; px_decision := px_decision r; px_reason := px_reason r;
  px_policy_version := px_policy_version r; px_rule_ids := px_rule_ids r; px_policy_ids := px_policy_ids r;
  px_field_paths := px_field_paths r; px_denied_fields := px_denied_fields r; px_rules := px_rules r;
  px_approval := px_approval r; px_operations := px_operations r ++ [child] |}.

Definition operation_rule_match `{SerdeNumber} (rule : CompiledPolicyRule) (kind : string) : PolicyRuleMatch :=
  {| rm_rule_id := rl_rule_id rule; rm_name := rl_name rule; rm_kind := kind; rm_field_path := None |}.
Definition field_rule_match `{SerdeNumber} (rule : CompiledFieldPolicyRule) (field_path kind : string)
    : PolicyRuleMatch :=
  {| rm_rule_id := fl_rule_id rule; rm_name := fl_name rule; rm_kind := kind; rm_field_path := Some field_path |}.

Definition policy_decision_name (d : PolicyDecision) : string :=
  match d with PolicyAllow => "allow" | PolicyNeedsApproval => "needs_approval" | PolicyDeny => "deny" end.

Definition approval_envelope_summary `{SerdeNumber} (e : CompiledPolicyEnvelope) : PolicyApprovalEnvelopeSummary := {|
  pa_policy_id := ev_envelope_id e; pa_name := ev_name e; pa_decision := policy_decision_name (ev_decision e);
  pa_role := ev_approval e ≫= rt_role;
  pa_reason_required := match ev_approval e with Some a => rt_reason_required a | None => false end;
  pa_deadline_seconds := ev_approval e ≫= rt_deadline_seconds;
  pa_separation_of_duties := match ev_approval e with Some a => rt_separation_of_duties a | None => false end |}.

Definition push_unique (values : list string) (value : string) : list string :=
  if bool_decide (value ∈ values) then values else values ++ [value].

Definition merge_policy_explanation (target source : PolicyExplanationResponse) : PolicyExplanationResponse :=
  set_lists (fold_left push_unique (px_rule_ids source) (px_rule_ids target))
    (fold_left push_unique (px_policy_ids source) (px_policy_ids target))
    (fold_left push_unique (px_field_paths source) (px_field_paths target))
    (fold_left push_unique (px_denied_fields source) (px_denied_fields target))
    (px_rules target ++ px_rules source)
    (match px_approval target with Some a => Some a | None => px_approval source end) target.

(** The separator [\u{1f}]. *)
Definition unit_separator : string := String (Stdlib.Strings.Ascii.ascii_of_nat 31) "".

Definition rule_key (rule : PolicyRuleMatch) : string :=
  rm_rule_id rule +:+ unit_separator +:+ rm_kind rule +:+ unit_separator +:+ default "" (rm_field_path rule).

(** [retain] with the keys seen so far. *)
Fixpoint distinct_rules (seen : gset string) (rules : list PolicyRuleMatch) : list PolicyRuleMatch :=
  match rules with
  | [] => []
  | rule :: rest =>
      if bool_decide (rule_key rule ∈ seen) then distinct_rules seen rest
      else rule :: distinct_rules ({[rule_key rule]} ∪ seen) rest
  end.

Definition finalize_policy_explanation (r : PolicyExplanationResponse) : PolicyExplanationResponse :=
  let rule_ids := fold_left (fun ids rule => push_unique ids (rm_rule_id rule)) (px_rules r) (px_rule_ids r) in
  let field_paths := fold_left (fun paths rule =>
    match rm_field_path rule with Some p => push_unique paths p | None => paths end) (px_rules r) (px_field_paths r) in
  let policy_ids := match px_approval r with
    | Some a => push_unique (px_policy_ids r) (pa_policy_id a) | None => px_policy_ids r end in
  let sorted l := dedup (sort_by String.compare l) in
  set_lists (sorted rule_ids) (sorted policy_ids) (sorted field_paths) (sorted (px_denied_fields r))
    (distinct_rules ∅ (px_rules r)) (px_approval r) r.

(** All elements that match, in order; every element is evaluated. *)
Fixpoint matching_rules {A E} (f : A -> result bool E) (l : list A) : result (list A) E :=
  match l with
  | [] => Ok []
  | a :: rest =>
      let? b := f a in
      let? others := matching_rules f rest in
      Ok (if b then a :: others else others)
  end.

Section Explain.
Context `{RuleEnv} `{TextFormat} `{ContentHasher}.
Variable fuel depth : nat.
Variable s : MemoryStorageAdapter.

(** ** Decisions on a plan *)

Section Decisions.
Variable preview : option PreviewedSchemaPlan.

(** The loop over the applicable policies. *)
Fixpoint explain_over (matches : CompiledPolicyRule -> result bool AxonError) (operation : PolicyOperation)
    (denied_reason : string) (policies : list CompiledOperationPolicy) (allow_rules_present allow_matched : bool)
    (response : PolicyExplanationResponse) : result PolicyExplanationResponse AxonError :=
  match policies with
  | [] =>
      Ok (finalize_policy_explanation
            (if allow_rules_present && negb allow_matched
             then push_policy_id (policy_operation_as_str operation) (set_outcome "deny" denied_reason response)
             else response))
  | policy :: rest =>
      let? denied := first_match matches (cp_deny policy) in
      match denied with
      | Some rule =>
          Ok (finalize_policy_explanation
                (push_rules [operation_rule_match rule "operation_deny"] (set_outcome "deny" denied_reason response)))
      | None =>
          let? allowed := matching_rules matches (cp_allow policy) in
          explain_over matches operation denied_reason rest
            (allow_rules_present || negb (bool_decide (cp_allow policy = [])))
            (allow_matched || negb (bool_decide (allowed = [])))
            (push_rules (map (fun rule => operation_rule_match rule "operation_allow") allowed) response)
      end
  end.

Definition explain_operation_policy_response (operation_name : string) (collection : CollectionId)
    (entity_id : option EntityId) (plan : PolicyPlan) (snapshot : PolicyRequestSnapshot) (operation : PolicyOperation)
    (data : Value) (denied_reason : string) (policy_version : Z) (operation_index : option Z)
    : result PolicyExplanationResponse AxonError :=
  explain_over (policy_rule_matches fuel s preview depth snapshot operation data) operation denied_reason
    (applicable_operation_policies plan operation) false false
    (policy_explanation operation_name (Some collection) entity_id operation_index "allow" "allowed" policy_version).

Definition field_denial (check : PolicyWriteCheck) (policy_version : Z) (field_path : string)
    (rule : CompiledFieldPolicyRule) (kind : string) : PolicyExplanationResponse :=
  finalize_policy_explanation (push_rules [field_rule_match rule field_path kind]
    (push_field_path field_path (push_denied_field field_path
       (policy_explanation (policy_operation_as_str (wc_operation check)) (Some (wc_collection check))
          (wc_entity_id check) (wc_operation_index check) "deny" "field_write_denied" policy_version)))).

Fixpoint explain_fields (snapshot : PolicyRequestSnapshot) (check : PolicyWriteCheck) (policy_version : Z)
    (fields : list (string * CompiledFieldPolicy)) : result (option PolicyExplanationResponse) AxonError :=
  match fields with
  | [] => Ok None
  | (field_path, field_policy) :: rest =>
      match cf_write field_policy with
      | None => explain_fields snapshot check policy_version rest
      | Some write_policy =>
          if negb (field_write_scope_touches_path (wc_field_scope check) field_path)
          then explain_fields snapshot check policy_version rest
          else
            let matches := field_policy_rule_matches fuel s preview depth snapshot (wc_operation check)
                             (wc_candidate_data check) in
            let? denied := first_match matches (cf_deny write_policy) in
            match denied with
            | Some rule => Ok (Some (field_denial check policy_version field_path rule "field_write_deny"))
            | None =>
                match cf_allow write_policy with
                | [] => explain_fields snapshot check policy_version rest
                | first :: _ =>
                    let? allowed := first_match matches (cf_allow write_policy) in
                    match allowed with
                    | Some _ => explain_fields snapshot check policy_version rest
                    | None => Ok (Some (field_denial check policy_version field_path first "field_write_allow"))
                    end
                end
            end
      end
  end.

Definition explain_field_write_policy (plan : PolicyPlan) (snapshot : PolicyRequestSnapshot)
    (check : PolicyWriteCheck) (policy_version : Z) : result (option PolicyExplanationResponse) AxonError :=
  explain_fields snapshot check policy_version (map_to_list (pp_fields plan)).

Definition envelope_explanation (check : PolicyWriteCheck) (policy_version : Z) (decision reason : string)
    (envelope : CompiledPolicyEnvelope) (approval : option PolicyApprovalEnvelopeSummary)
    : PolicyExplanationResponse :=
  finalize_policy_explanation (set_approval approval (push_policy_id (ev_envelope_id envelope)
    (policy_explanation (policy_operation_as_str (wc_operation check)) (Some (wc_collection check))
       (wc_entity_id check) (wc_operation_index check) decision reason policy_version))).

(** The loop over the envelopes; [needs] is the last one that asks for approval. *)
Fixpoint explain_envelopes (snapshot : PolicyRequestSnapshot) (check : PolicyWriteCheck) (policy_version : Z)
    (needs : option CompiledPolicyEnvelope) (envelopes : list CompiledPolicyEnvelope)
    : result (option PolicyExplanationResponse) AxonError :=
  match envelopes with
  | [] =>
      Ok (option_map (fun e => envelope_explanation check policy_version "needs_approval" "needs_approval" e
                                 (Some (approval_envelope_summary e))) needs)
  | envelope :: rest =>
      let? matched := policy_predicate_matches fuel s preview depth snapshot (wc_operation check)
                        (wc_candidate_data check) (ev_when envelope) in
      if matched then
        match ev_decision envelope with
        | PolicyDeny =>
            Ok (Some (envelope_explanation check policy_version "deny" "row_write_denied" envelope None))
        | PolicyNeedsApproval => explain_envelopes snapshot check policy_version (Some envelope) rest
        | PolicyAllow => explain_envelopes snapshot check policy_version needs rest
        end
      else explain_envelopes snapshot check policy_version needs rest
  end.

Definition explain_policy_envelopes (plan : PolicyPlan) (snapshot : PolicyRequestSnapshot)
    (check : PolicyWriteCheck) (policy_version : Z) : result (option PolicyExplanationResponse) AxonError :=
  explain_envelopes snapshot check policy_version None (applicable_policy_envelopes plan (wc_operation check)).

(** The checks after the one on the present row. *)
Definition explain_candidate (operation_name : string) (collection : CollectionId) (entity_id : option EntityId)
    (plan : PolicyPlan) (snapshot : PolicyRequestSnapshot) (check : PolicyWriteCheck) (policy_version : Z)
    (response : PolicyExplanationResponse) : result PolicyExplanationResponse AxonError :=
  let? operation := explain_operation_policy_response operation_name collection entity_id plan snapshot
    (wc_operation check) (wc_candidate_data check) "row_write_denied" policy_version (wc_operation_index check) in
  let response := merge_policy_explanation response operation in
  if bool_decide (px_decision operation = "deny")
  then Ok (finalize_policy_explanation (set_outcome "deny" (px_reason operation) response))
  else
    let? field_denial := explain_field_write_policy plan snapshot check policy_version in
    match field_denial with
    | Some denial =>
        Ok (finalize_policy_explanation
              (set_outcome "deny" (px_reason denial) (merge_policy_explanation response denial)))
    | None =>
        let? envelope := explain_policy_envelopes plan snapshot check policy_version in
        Ok (finalize_policy_explanation
              match envelope with
              | Some e => set_approval (px_approval e)
                            (set_outcome (px_decision e) (px_reason e) (merge_policy_explanation response e))
              | None => response
              end)
    end.

Definition explain_write_policy_response (operation_name : string) (collection : CollectionId)
    (entity_id : option EntityId) (plan : PolicyPlan) (snapshot : PolicyRequestSnapshot) (check : PolicyWriteCheck)
    (policy_version : Z) : result PolicyExplanationResponse AxonError :=
  let response := policy_explanation operation_name (Some collection) entity_id (wc_operation_index check)
                    "allow" "allowed" policy_version in
  let explain_candidate :=
    explain_candidate operation_name collection entity_id plan snapshot check policy_version in
  match wc_current_data check with
  | Some current_data =>
      let? read := explain_operation_policy_response operation_name collection entity_id plan snapshot OpRead
        current_data "row_read_denied" policy_version (wc_operation_index check) in
      let response := merge_policy_explanation response read in
      if bool_decide (px_decision read = "deny")
      then Ok (finalize_policy_explanation (set_outcome "deny" (px_reason read) response))
      else explain_candidate response
  | None => explain_candidate response
  end.
End Decisions.
(** ** One operation *)

Section Requests.
Variable caller : CallerIdentity.
Variable attribution : option AuditAttribution.
Variable preview : option PreviewedSchemaPlan.

(** The keys of [subject] may carry the prefix [subject.]. *)
Definition bare_binding (key : string) : string := default key (str_strip_prefix "subject." key).

Definition apply_actor_override_subject (snapshot : PolicyRequestSnapshot) (o : ExplainActorOverride)
    : PolicyRequestSnapshot :=
  let subject := sn_subject snapshot in
  let actor := default (ps_actor subject) (eo_actor o) in
  let bindings := match eo_actor o with
    | Some a => <["user_id" := JString a]> (<["actor" := JString a]> (ps_bindings subject))
    | None => ps_bindings subject
    end in
  let bindings := match eo_role o with Some r => <["tenant_role" := JString r]> bindings | None => bindings end in
  let bindings := fold_left (fun b e => <[bare_binding (fst e) := snd e]> b) (map_to_list (eo_subject o)) bindings in
  {| sn_collection := sn_collection snapshot; sn_namespace := sn_namespace snapshot;
     sn_database_id := sn_database_id snapshot; sn_tenant_id := sn_tenant_id snapshot;
     sn_schema_version := sn_schema_version snapshot; sn_policy_version := sn_policy_version snapshot;
     sn_subject := {| ps_actor := actor; ps_bindings := bindings; ps_attributes := ps_attributes subject |} |}.

Definition explain_policy_plan_for_request (collection : CollectionId) (schema : CollectionSchema)
    : result (option (PolicyRequestSnapshot * PolicyPlan)) AxonError :=
  let? snapshot := policy_snapshot_for_request s collection (Some schema) None (Some caller) attribution in
  match snapshot with
  | None => Ok None
  | Some snapshot =>
      let snapshot := match preview ≫= pv_actor_override with
                      | Some o => apply_actor_override_subject snapshot o | None => snapshot end in
      match preview with
      | Some p =>
          if bool_decide (cs_collection (pv_schema p) = collection) then Ok (Some (snapshot, pv_plan p))
          else
            let? plan := compile_policy_plan_for_schema fuel s schema in
            Ok (option_map (pair snapshot) plan)
      | None =>
          let? plan := compile_policy_plan_for_schema fuel s schema in
          Ok (option_map (pair snapshot) plan)
      end
  end.

Definition explain_collection_schema (req : ExplainPolicyRequest)
    : result (CollectionId * CollectionSchema) AxonError :=
  let? collection := ok_or (xr_collection req) (InvalidArgument "collection is required") in
  match preview with
  | Some p =>
      if bool_decide (cs_collection (pv_schema p) = collection) then Ok (collection, pv_schema p)
      else
        let? found := get_schema s collection in
        let? schema := ok_or found (NotFound collection) in
        Ok (collection, schema)
  | None =>
      let? found := get_schema s collection in
      let? schema := ok_or found (NotFound collection) in
      Ok (collection, schema)
  end.

(** The snapshot and plan, or the answer for a collection without a policy. *)
Definition with_plan (operation : string) (collection : CollectionId) (schema : CollectionSchema)
    (entity_id : option EntityId) (operation_index : option Z)
    (k : PolicyRequestSnapshot -> PolicyPlan -> result PolicyExplanationResponse AxonError)
    : result PolicyExplanationResponse AxonError :=
  let? found := explain_policy_plan_for_request collection schema in
  match found with
  | None => Ok (policy_explanation operation (Some collection) entity_id operation_index "allow" "no_policy"
                  (cs_version schema))
  | Some (snapshot, plan) => k snapshot plan
  end.

(** The data of entities after the earlier steps of a transaction. *)
Definition Shadows : Type := gmap (string * string) Value.

Definition stored_entity (collection : CollectionId) (id : EntityId) : result Entity AxonError :=
  let? found := get s collection id in ok_or found (NotFound id).

Definition shadowed_data (shadows : Shadows) (collection : CollectionId) (id : EntityId) : result Value AxonError :=
  match shadows !! (collection, id) with
  | Some data => Ok data
  | None => let? e := stored_entity collection id in Ok (e_data e)
  end.

Definition required {A} (o : option A) (operation field : string) : result A AxonError :=
  ok_or o (InvalidArgument (operation +:+ " explanation requires " +:+ field)).

Definition explain_read_policy_with_shadow (req : ExplainPolicyRequest) (operation_index : option Z)
    (shadows : Shadows) : result PolicyExplanationResponse AxonError :=
  let? (collection, schema) := explain_collection_schema req in
  with_plan "read" collection schema (xr_entity_id req) operation_index (fun snapshot plan =>
    let? (entity_id, data) :=
      match xr_entity_id req with
      | Some id =>
          match shadows !! (collection, id) with
          | Some shadowed => Ok (Some id, policy_data_with_entity_id id shadowed)
          | None => let? e := stored_entity collection id in Ok (Some id, entity_policy_data e)
          end
      | None => let? data := required (xr_data req) "read" "entityId or data" in Ok (None, data)
      end in
    explain_operation_policy_response preview "read" collection entity_id plan snapshot OpRead data "row_read_denied"
      (cs_version schema) operation_index).

Definition explain_read_policy (req : ExplainPolicyRequest) (operation_index : option Z) :=
  explain_read_policy_with_shadow req operation_index ∅.

Definition explain_create_policy (req : ExplainPolicyRequest) (operation_index : option Z)
    : result PolicyExplanationResponse AxonError :=
  let? (collection, schema) := explain_collection_schema req in
  let? data := required (xr_data req) "create" "data" in
  let? data := enforce_lifecycle_initial_state schema data ModeCreate in
  with_plan "create" collection schema (xr_entity_id req) operation_index (fun snapshot plan =>
    explain_write_policy_response preview "create" collection (xr_entity_id req) plan snapshot {|
      wc_collection := collection; wc_entity_id := xr_entity_id req; wc_operation := OpCreate;
      wc_current_data := None; wc_candidate_data := data; wc_field_scope := PresentFields data;
      wc_operation_index := operation_index |} (cs_version schema)).

Definition explain_update_policy_with_shadow (req : ExplainPolicyRequest) (operation_index : option Z)
    (shadows : Shadows) : result PolicyExplanationResponse AxonError :=
  let? (collection, schema) := explain_collection_schema req in
  let? id := required (xr_entity_id req) "update" "entityId" in
  let? data := required (xr_data req) "update" "data" in
  let? data := enforce_lifecycle_initial_state schema data ModeUpdate in
  let? current_data := shadowed_data shadows collection id in
  with_plan "update" collection schema (Some id) operation_index (fun snapshot plan =>
    explain_write_policy_response preview "update" collection (Some id) plan snapshot {|
      wc_collection := collection; wc_entity_id := Some id; wc_operation := OpUpdate;
      wc_current_data := Some current_data; wc_candidate_data := data; wc_field_scope := PresentFields data;
      wc_operation_index := operation_index |} (cs_version schema)).

Definition explain_update_policy (req : ExplainPolicyRequest) (operation_index : option Z) :=
  explain_update_policy_with_shadow req operation_index ∅.

Definition explain_patch_policy_with_shadow (req : ExplainPolicyRequest) (operation_index : option Z)
    (shadows : Shadows) : result PolicyExplanationResponse AxonError :=
  let? (collection, schema) := explain_collection_schema req in
  let? id := required (xr_entity_id req) "patch" "entityId" in
  let? patch := required (xr_patch req) "patch" "patch" in
  let? current_data := shadowed_data shadows collection id in
  let? merged := enforce_lifecycle_initial_state schema (json_merge_patch current_data patch) ModeUpdate in
  with_plan "patch" collection schema (Some id) operation_index (fun snapshot plan =>
    explain_write_policy_response preview "patch" collection (Some id) plan snapshot {|
      wc_collection := collection; wc_entity_id := Some id; wc_operation := OpUpdate;
      wc_current_data := Some current_data; wc_candidate_data := merged; wc_field_scope := PatchScope patch;
      wc_operation_index := operation_index |} (cs_version schema)).

Definition explain_patch_policy (req : ExplainPolicyRequest) (operation_index : option Z) :=
  explain_patch_policy_with_shadow req operation_index ∅.

Definition explain_delete_policy_with_shadow (req : ExplainPolicyRequest) (operation_index : option Z)
    (shadows : Shadows) : result PolicyExplanationResponse AxonError :=
  let? (collection, schema) := explain_collection_schema req in
  let? id := required (xr_entity_id req) "delete" "entityId" in
  let? current_data := shadowed_data shadows collection id in
  with_plan "delete" collection schema (Some id) operation_index (fun snapshot plan =>
    explain_write_policy_response preview "delete" collection (Some id) plan snapshot {|
      wc_collection := collection; wc_entity_id := Some id; wc_operation := OpDelete;
      wc_current_data := Some current_data; wc_candidate_data := current_data;
      wc_field_scope := PresentFields current_data; wc_operation_index := operation_index |} (cs_version schema)).

Definition explain_delete_policy (req : ExplainPolicyRequest) (operation_index : option Z) :=
  explain_delete_policy_with_shadow req operation_index ∅.
Definition explain_transition_policy_response (collection : CollectionId) (id : EntityId) (plan : PolicyPlan)
    (snapshot : PolicyRequestSnapshot) (lifecycle_field target_state : string) (data : Value) (policy_version : Z)
    (operation_index : option Z) : result PolicyExplanationResponse AxonError :=
  let response := policy_explanation "transition" (Some collection) (Some id) operation_index "allow" "allowed"
                    policy_version in
  match pp_transitions plan !! lifecycle_field ≫= (fun transitions => transitions !! target_state) with
  | None => Ok response
  | Some policy =>
      let matches := policy_rule_matches fuel s preview depth snapshot OpUpdate data in
      let denied := fun r => push_field_path lifecycle_field (set_outcome "deny" "row_write_denied" r) in
      let? deny := first_match matches (cp_deny policy) in
      match deny with
      | Some rule =>
          Ok (finalize_policy_explanation (push_rules [operation_rule_match rule "transition_deny"] (denied response)))
      | None =>
          match cp_allow policy with
          | [] => Ok (finalize_policy_explanation response)
          | _ =>
              let? allowed := matching_rules matches (cp_allow policy) in
              let response := push_rules (map (fun r => operation_rule_match r "transition_allow") allowed) response in
              Ok (finalize_policy_explanation match allowed with [] => denied response | _ => response end)
          end
      end
  end.

Definition explain_transition_policy (req : ExplainPolicyRequest) (operation_index : option Z)
    : result PolicyExplanationResponse AxonError :=
  let? (collection, schema) := explain_collection_schema req in
  let? id := required (xr_entity_id req) "transition" "entityId" in
  let? lifecycle_name := required (xr_lifecycle_name req) "transition" "lifecycleName" in
  let? target_state := required (xr_target_state req) "transition" "targetState" in
  let? lifecycle := ok_or (cs_lifecycles schema !! lifecycle_name) (LifecycleNotFound lifecycle_name) in
  let? entity := stored_entity collection id in
  let current_state := default "" (value_get (e_data entity) (lc_field lifecycle) ≫= as_str) in
  let allowed := default [] (lc_transitions lifecycle !! current_state) in
  if negb (bool_decide (target_state ∈ allowed))
  then Err (InvalidTransition lifecycle_name current_state target_state allowed)
  else
    let? data := value_index_assign (e_data entity) (lc_field lifecycle) (JString target_state) in
    with_plan "transition" collection schema (Some id) operation_index (fun snapshot plan =>
      let? transition := explain_transition_policy_response collection id plan snapshot (lc_field lifecycle)
                           target_state data (cs_version schema) operation_index in
      if bool_decide (px_decision transition = "deny") then Ok transition
      else
        let? write := explain_write_policy_response preview "transition" collection (Some id) plan snapshot {|
          wc_collection := collection; wc_entity_id := Some id; wc_operation := OpUpdate;
          wc_current_data := Some (e_data entity); wc_candidate_data := data; wc_field_scope := PresentFields data;
          wc_operation_index := operation_index |} (cs_version schema) in
        Ok (finalize_policy_explanation (merge_policy_explanation write transition))).

Definition explain_rollback_policy (req : ExplainPolicyRequest) (operation_index : option Z)
    : result PolicyExplanationResponse AxonError :=
  let? (collection, schema) := explain_collection_schema req in
  let? id := required (xr_entity_id req) "rollback" "entityId" in
  let? to_version := required (xr_to_version req) "rollback" "toVersion" in
  let? source := resolve_rollback_source_entry (s_audit_log s) collection id (TargetVersion to_version) in
  let? target_data := ok_or (ae_data_after source) (target_missing id (TargetVersion to_version)) in
  let? current := get s collection id in
  with_plan "rollback" collection schema (Some id) operation_index (fun snapshot plan =>
    explain_write_policy_response preview "rollback" collection (Some id) plan snapshot {|
      wc_collection := collection; wc_entity_id := Some id;
      wc_operation := match current with Some _ => OpUpdate | None => OpCreate end;
      wc_current_data := option_map e_data current; wc_candidate_data := target_data;
      wc_field_scope := PresentFields target_data; wc_operation_index := operation_index |} (cs_version schema)).

(** ** Transactions *)

(** One step, with the data that the earlier steps leave; [inner] explains the
    step on the stored data alone. *)
Definition explain_transaction_step (inner : option Z -> result PolicyExplanationResponse AxonError)
    (req : ExplainPolicyRequest) (index : Z) (shadows : Shadows)
    : result (PolicyExplanationResponse * Shadows) AxonError :=
  let operation := ascii_lowercase (trim (xr_operation req)) in
  let key := match xr_collection req, xr_entity_id req with Some c, Some i => Some (c, i) | _, _ => None end in
  if bool_decide (operation = "create") then
    let? r := inner (Some index) in
    Ok (r, match key, xr_data req with Some k, Some data => <[k := data]> shadows | _, _ => shadows end)
  else if bool_decide (operation = "update") then
    let? r := explain_update_policy_with_shadow req (Some index) shadows in
    Ok (r, match key, xr_data req with Some k, Some data => <[k := data]> shadows | _, _ => shadows end)
  else if bool_decide (operation = "patch") then
    let? post_shadow :=
      match xr_collection req, xr_entity_id req, xr_patch req with
      | Some c, Some i, Some patch =>
          let? base := match shadows !! (c, i) with
                       | Some shadowed => Ok shadowed
                       | None => let? found := get s c i in Ok (default (Object []) (option_map e_data found))
                       end in
          Ok (Some ((c, i), json_merge_patch base patch))
      | _, _, _ => Ok None
      end in
    let? r := explain_patch_policy_with_shadow req (Some index) shadows in
    Ok (r, match post_shadow with Some (k, merged) => <[k := merged]> shadows | None => shadows end)
  else if bool_decide (operation = "delete") then
    let? r := explain_delete_policy_with_shadow req (Some index) shadows in
    Ok (r, match key with Some k => delete k shadows | None => shadows end)
  else if bool_decide (operation = "read") then
    let? r := explain_read_policy_with_shadow req (Some index) shadows in
    Ok (r, shadows)
  else
    let? r := inner (Some index) in
    Ok (r, shadows).

(** The response of the transaction after one more step. *)
Definition add_step (response child : PolicyExplanationResponse) : PolicyExplanationResponse :=
  let response := raise_policy_version (px_policy_version child) response in
  let response :=
    if bool_decide (px_decision child = "deny") then set_outcome "deny" "transaction_denied" response
    else if negb (bool_decide (px_decision response = "deny")) && bool_decide (px_decision child = "needs_approval")
    then set_approval (match px_approval response with Some a => Some a | None => px_approval child end)
           (set_outcome "needs_approval" "needs_approval" response)
    else response in
  push_operation child (merge_policy_explanation response child).

(** The loop over the steps; [inner] explains a step by itself. *)
Fixpoint explain_steps (inner : ExplainPolicyRequest -> option Z -> result PolicyExplanationResponse AxonError)
    (operations : list ExplainPolicyRequest) (index : Z) (shadows : Shadows) (response : PolicyExplanationResponse)
    : result PolicyExplanationResponse AxonError :=
  match operations with
  | [] => Ok response
  | req :: rest =>
      let? (child, shadows) := explain_transaction_step (inner req) req index shadows in
      explain_steps inner rest (index + 1) shadows (add_step response child)
  end.

Definition explain_transaction_over
    (inner : ExplainPolicyRequest -> option Z -> result PolicyExplanationResponse AxonError)
    (operations : list ExplainPolicyRequest) (operation_index : option Z)
    : result PolicyExplanationResponse AxonError :=
  let? response := explain_steps inner operations 0 ∅
    (policy_explanation "transaction" None None operation_index "allow" "allowed" 0) in
  Ok (finalize_policy_explanation
        (if bool_decide (px_decision response = "allow") then set_outcome "allow" "allowed" response else response)).

Fixpoint explain_policy_inner (req : ExplainPolicyRequest) (operation_index : option Z)
    : result PolicyExplanationResponse AxonError :=
  let operation := ascii_lowercase (trim (xr_operation req)) in
  if bool_decide (operation = "read") then explain_read_policy req operation_index
  else if bool_decide (operation = "create") then explain_create_policy req operation_index
  else if bool_decide (operation = "update") then explain_update_policy req operation_index
  else if bool_decide (operation = "patch") then explain_patch_policy req operation_index
  else if bool_decide (operation = "delete") then explain_delete_policy req operation_index
  else if bool_decide (operation = "transition") then explain_transition_policy req operation_index
  else if bool_decide (operation = "rollback") then explain_rollback_policy req operation_index
  else if bool_decide (operation = "transaction")
  then explain_transaction_over explain_policy_inner (xr_operations req) operation_index
  else if bool_decide (operation = "create_link") || bool_decide (operation = "delete_link")
  then Ok (policy_explanation operation None None operation_index "allow" "link_policy_not_configured" 0)
  else Err (InvalidArgument ("unsupported policy explanation operation '" +:+ operation +:+ "'")).

Definition explain_transaction_inner (operations : list ExplainPolicyRequest) (operation_index : option Z)
    : result PolicyExplanationResponse AxonError :=
  explain_transaction_over explain_policy_inner operations operation_index.
End Requests.
(** ** Effective capabilities *)

Section Effective.
Variable caller : CallerIdentity.
Variable attribution : option AuditAttribution.
Variable preview : option PreviewedSchemaPlan.

Definition effective_operation_allows (collection : CollectionId) (plan : PolicyPlan)
    (snapshot : PolicyRequestSnapshot) (operation : PolicyOperation) (data : option Value) : result bool AxonError :=
  match data with
  | Some data =>
      policy_operation_allows fuel s preview depth plan snapshot {|
        oc_collection := collection; oc_entity_id := None; oc_operation := operation; oc_data := data;
        oc_operation_index := None |}
  | None => Ok (effective_operation_allows_static plan snapshot operation)
  end.

Definition effective_redacted_fields (plan : PolicyPlan) (snapshot : PolicyRequestSnapshot) (data : option Value)
    : result (list string) AxonError :=
  match data with
  | Some data =>
      let? redactions := field_read_redactions fuel s preview depth plan snapshot data in
      Ok (dedup (sort_by String.compare (map fst redactions)))
  | None =>
      Ok (omap (fun e : string * CompiledFieldPolicy =>
                  match cf_read (snd e) with
                  | Some read_policy =>
                      if effective_field_read_redacted_static read_policy snapshot then Some (fst e) else None
                  | None => None
                  end) (map_to_list (pp_fields plan)))
  end.

(** Whether some write operation on the field is denied. *)
Fixpoint denied_for_some (snapshot : PolicyRequestSnapshot) (data : option Value)
    (policy : CompiledFieldAccessPolicy) (operations : list PolicyOperation) : result bool AxonError :=
  match operations with
  | [] => Ok false
  | operation :: rest =>
      let? denied := match data with
        | Some data => effective_field_write_denied_for_data fuel s preview depth policy snapshot operation data
        | None => Ok (effective_field_write_denied_static policy snapshot operation)
        end in
      if denied then Ok true else denied_for_some snapshot data policy rest
  end.

Fixpoint denied_fields_over (snapshot : PolicyRequestSnapshot) (data : option Value)
    (fields : list (string * CompiledFieldPolicy)) : result (gset string) AxonError :=
  match fields with
  | [] => Ok ∅
  | (field_path, field_policy) :: rest =>
      match cf_write field_policy with
      | None => denied_fields_over snapshot data rest
      | Some write_policy =>
          let? denied := denied_for_some snapshot data write_policy [OpCreate; OpUpdate; OpDelete] in
          let? others := denied_fields_over snapshot data rest in
          Ok (if denied then {[field_path]} ∪ others else others)
      end
  end.

Definition effective_denied_fields (plan : PolicyPlan) (snapshot : PolicyRequestSnapshot) (data : option Value)
    : result (list string) AxonError :=
  let? fields := denied_fields_over snapshot data (map_to_list (pp_fields plan)) in
  Ok (sort_by String.compare (elements fields)).

Definition unrestricted (collection : CollectionId) (policy_version : Z) : EffectivePolicyResponse := {|
  ef_collection := collection; ef_can_read := true; ef_can_create := true; ef_can_update := true;
  ef_can_delete := true; ef_redacted_fields := []; ef_denied_fields := []; ef_policy_version := policy_version |}.

Definition effective_policy_inner (collection : CollectionId) (entity_id : option EntityId)
    : result EffectivePolicyResponse AxonError :=
  let? found := get_schema s collection in
  let? schema := ok_or found (NotFound collection) in
  let? snapshot := policy_snapshot_for_request s collection
    (Some match preview with Some p => pv_schema p | None => schema end) None (Some caller) attribution in
  match snapshot with
  | None => Ok (unrestricted collection (cs_version schema))
  | Some snapshot =>
      let? plan := match preview with
                   | Some p => Ok (Some (pv_plan p))
                   | None => compile_policy_plan_for_schema fuel s schema
                   end in
      match plan with
      | None => Ok (unrestricted collection (cs_version schema))
      | Some plan =>
          let? entity := match entity_id with
            | Some id => let? e := stored_entity collection id in Ok (Some e)
            | None => Ok None
            end in
          let data := option_map entity_policy_data entity in
          let? can_read := match data with
            | Some data =>
                policy_operation_allows fuel s preview depth plan snapshot {|
                  oc_collection := collection; oc_entity_id := option_map e_id entity; oc_operation := OpRead;
                  oc_data := data; oc_operation_index := None |}
            | None => Ok (effective_operation_allows_static plan snapshot OpRead)
            end in
          let allows operation := effective_operation_allows collection plan snapshot operation data in
          let? can_create := allows OpCreate in
          let? can_update := if can_read then allows OpUpdate else Ok false in
          let? can_delete := if can_read then allows OpDelete else Ok false in
          let? redacted_fields := effective_redacted_fields plan snapshot data in
          let? denied_fields := effective_denied_fields plan snapshot data in
          Ok {| ef_collection := collection; ef_can_read := can_read; ef_can_create := can_create;
                ef_can_update := can_update; ef_can_delete := can_delete; ef_redacted_fields := redacted_fields;
                ef_denied_fields := denied_fields; ef_policy_version := cs_version schema |}
      end
  end.
End Effective.

(** ** Entry points *)

Definition preview_of (schema : CollectionSchema) (plan : PolicyPlan) (plans : gmap string PolicyPlan)
    (actor_override : option ExplainActorOverride) : PreviewedSchemaPlan :=
  {| pv_schema := schema; pv_plan := plan; pv_plans := plans; pv_actor_override := actor_override |}.

Definition effective_policy_with_caller (collection : CollectionId) (entity_id : option EntityId)
    (caller : CallerIdentity) (attribution : option AuditAttribution) : result EffectivePolicyResponse AxonError :=
  effective_policy_inner caller attribution None collection entity_id.

Definition effective_policy_with_plan (collection : CollectionId) (entity_id : option EntityId)
    (caller : CallerIdentity) (attribution : option AuditAttribution) (schema : CollectionSchema) (plan : PolicyPlan)
    (plans : gmap string PolicyPlan) : result EffectivePolicyResponse AxonError :=
  effective_policy_inner caller attribution (Some (preview_of schema plan plans None)) collection entity_id.

Definition policy_subject_snapshot_with_caller (collection : CollectionId) (caller : CallerIdentity)
    (attribution : option AuditAttribution) : result (option PolicySubjectSnapshot) AxonError :=
  let? found := get_schema s collection in
  match found with
  | None => Ok None
  | Some schema =>
      let? snapshot := policy_snapshot_for_request s collection (Some schema) None (Some caller) attribution in
      Ok (option_map sn_subject snapshot)
  end.

Definition explain_policy_with_caller (req : ExplainPolicyRequest) (caller : CallerIdentity)
    (attribution : option AuditAttribution) : result PolicyExplanationResponse AxonError :=
  explain_policy_inner caller attribution None req None.

Definition explain_policy_with_plan (req : ExplainPolicyRequest) (caller : CallerIdentity)
    (attribution : option AuditAttribution) (schema : CollectionSchema) (plan : PolicyPlan)
    (plans : gmap string PolicyPlan) (actor_override : option ExplainActorOverride)
    : result PolicyExplanationResponse AxonError :=
  explain_policy_inner caller attribution (Some (preview_of schema plan plans actor_override)) req None.

Definition explain_transaction_with_caller (operations : list ExplainPolicyRequest) (caller : CallerIdentity)
    (attribution : option AuditAttribution) : result PolicyExplanationResponse AxonError :=
  explain_transaction_inner caller attribution None operations None.

Definition explain_transaction_with_plan (operations : list ExplainPolicyRequest) (caller : CallerIdentity)
    (attribution : option AuditAttribution) (schema : CollectionSchema) (plan : PolicyPlan)
    (plans : gmap string PolicyPlan) (actor_override : option ExplainActorOverride)
    : result PolicyExplanationResponse AxonError :=
  explain_transaction_inner caller attribution (Some (preview_of schema plan plans actor_override)) operations None.

(** ** The dry run of a proposed schema *)

Definition parse_explain_role (role : string) : result Role AxonError :=
  let role := ascii_lowercase (trim role) in
  if bool_decide (role = "admin") then Ok RoleAdmin
  else if bool_decide (role = "write") || bool_decide (role = "writer") then Ok RoleWrite
  else if bool_decide (role = "read") || bool_decide (role = "reader") then Ok RoleRead
  else if bool_decide (role = "none") then Ok RoleNone
  else Err (InvalidArgument ("unsupported actor_override role '" +:+ role +:+
              "' (expected admin, write, read, or none)")).

Definition synthetic_dry_run_caller (req_actor : option string) (actor_override : option ExplainActorOverride)
    : result CallerIdentity AxonError :=
  let actor := match actor_override ≫= eo_actor with
               | Some a => a | None => default "anonymous" req_actor end in
  let? role := match actor_override ≫= eo_role with None => Ok RoleAdmin | Some role => parse_explain_role role end in
  Ok (caller_new actor role).

Definition validate_dry_run_explain_collection (proposed_schema : CollectionSchema) (input : ExplainPolicyRequest)
    : result unit AxonError :=
  match xr_collection input with
  | Some target =>
      if negb (bool_decide (target = cs_collection proposed_schema))
      then Err (InvalidArgument ("putSchema dry-run explain_inputs must target the proposed collection '" +:+
                  cs_collection proposed_schema +:+ "', got '" +:+ target +:+ "'"))
      else Ok tt
  | None => Ok tt
  end.

(** Assignments to a request. *)
Definition with_request_collection (c : CollectionId) (r : ExplainPolicyRequest) : ExplainPolicyRequest := {|
  xr_operation := xr_operation r; xr_collection := Some c; xr_entity_id := xr_entity_id r;
  xr_expected_version := xr_expected_version r; xr_data := xr_data r; xr_patch := xr_patch r;
  xr_lifecycle_name := xr_lifecycle_name r; xr_target_state := xr_target_state r; xr_to_version := xr_to_version r;
  xr_operations := xr_operations r; xr_actor_override := xr_actor_override r |}.
Definition with_request_operations (ops : list ExplainPolicyRequest) (r : ExplainPolicyRequest)
    : ExplainPolicyRequest := {|
  xr_operation := xr_operation r; xr_collection := xr_collection r; xr_entity_id := xr_entity_id r;
  xr_expected_version := xr_expected_version r; xr_data := xr_data r; xr_patch := xr_patch r;
  xr_lifecycle_name := xr_lifecycle_name r; xr_target_state := xr_target_state r; xr_to_version := xr_to_version r;
  xr_operations := ops; xr_actor_override := xr_actor_override r |}.

(** The children of a transaction input, aimed at the proposed collection. *)
Fixpoint aim_children (proposed_schema : CollectionSchema) (children : list ExplainPolicyRequest)
    : result (list ExplainPolicyRequest) AxonError :=
  match children with
  | [] => Ok []
  | child :: rest =>
      let? _ := validate_dry_run_explain_collection proposed_schema child in
      let? others := aim_children proposed_schema rest in
      Ok (with_request_collection (cs_collection proposed_schema) child :: others)
  end.

Fixpoint explain_inputs_over (proposed_schema : CollectionSchema) (plan : PolicyPlan) (plans : gmap string PolicyPlan)
    (actor : option string) (inputs : list ExplainPolicyRequest)
    : result (list PolicyExplanationResponse) AxonError :=
  match inputs with
  | [] => Ok []
  | input :: rest =>
      let? _ := validate_dry_run_explain_collection proposed_schema input in
      let aimed := with_request_collection (cs_collection proposed_schema) input in
      let? aimed := if bool_decide (ascii_lowercase (trim (xr_operation input)) = "transaction")
                    then let? children := aim_children proposed_schema (xr_operations input) in
                         Ok (with_request_operations children aimed)
                    else Ok aimed in
      let? caller := synthetic_dry_run_caller actor (xr_actor_override input) in
      let? response := explain_policy_with_plan aimed caller None proposed_schema plan plans
                         (xr_actor_override input) in
      let? others := explain_inputs_over proposed_schema plan plans actor rest in
      Ok (response :: others)
  end.

Definition dry_run_explanations_for_proposed (proposed_schema : CollectionSchema) (report : PolicyCompileReport)
    (explain_inputs : list ExplainPolicyRequest) (actor : option string)
    : result (option (list PolicyExplanationResponse)) AxonError :=
  match rep_errors report with
  | _ :: _ => Ok None
  | [] =>
      match explain_inputs with
      | [] => Ok (Some [])
      | _ =>
          let? schemas := policy_catalog_schemas fuel s proposed_schema in
          match compile_policy_catalog schemas with
          | Err _ => Ok None
          | Panic => Panic
          | Ok catalog =>
              match pc_plans catalog !! cs_collection proposed_schema with
              | None => Ok (Some [])
              | Some plan =>
                  let? out := explain_inputs_over proposed_schema plan (pc_plans catalog) actor explain_inputs in
                  Ok (Some out)
              end
          end
      end
  end.
End Explain.
