(* ===== verification/ExplainProofs.v ===== *)
(** * Explanations agree with enforcement

    An explanation of a write evaluates the same rules as its enforcement, and
    says "allow", "needs_approval" or "deny" exactly when enforcement accepts,
    accepts with an approval only, or refuses. *)

From S2P Require Import Prelude Json Ids Types IndexKeys Intents AuditLog.
From S2P Require Import Schema PolicyPlan PolicyCompile Rules Gates JsonOps AuthStore Roles Storage Catalog.
From S2P Require Import PolicyEval PolicyDecide PolicyStatic PolicyEnforce Interface MemoryTx Requests EntityWrites.
From S2P Require Import MemoryRows Transactions EntityProofs EntitySpec Rollback Explain.
Local Open Scope axon_scope.

(** ** Computations with the same errors *)

Definition same_outcome {A B E} (R : A -> B -> Prop) (x : result A E) (y : result B E) : Prop :=
  match x, y with
  | Ok a, Ok b => R a b
  | Err e, Err e' => e = e'
  | Panic, Panic => True
  | _, _ => False
  end.

Lemma same_bind {A A' B B' E} (R : A -> A' -> Prop) (Q : B -> B' -> Prop) (x : result A E) (y : result A' E) f g :
  same_outcome R x y -> (forall a a', R a a' -> same_outcome Q (f a) (g a')) ->
  same_outcome Q (result_bind x f) (result_bind y g).
Proof. destruct x, y; simpl; try done. intros HR Hf. by apply Hf. Qed.

Lemma same_refl {A E} (x : result A E) : same_outcome eq x x.
Proof. by destruct x. Qed.

Lemma matching_any {A E} (f : A -> result bool E) l :
  same_outcome (fun found b => b = negb (bool_decide (found = []))) (matching_rules f l) (any_matches f l).
Proof.
  induction l as [|a l IH]; simpl; [done|].
  apply (same_bind eq); [apply same_refl|]. intros b ? <-. eapply same_bind; [exact IH|].
  intros found c ->. by destruct b.
Qed.

Section Agree.
Context `{RuleEnv} `{TextFormat} `{ContentHasher}.
Variable fuel depth : nat.
Variable s : MemoryStorageAdapter.
Variable preview : option PreviewedSchemaPlan.

(** The decision of an explanation, by the denial label of enforcement. *)
Definition decision_of (allowed : string) (denial : option string) : string :=
  match denial with Some _ => "deny" | None => allowed end.

Lemma explain_over_agrees f op reason policies : forall present matched response,
  same_outcome (fun r d => px_decision r = decision_of (px_decision response) d)
    (explain_over f op reason policies present matched response) (denial_over f op policies present matched).
Proof.
  induction policies as [|p policies IH]; intros present matched response; simpl.
  { by destruct (present && negb matched). }
  apply (same_bind eq); [apply same_refl|]. intros [rule|] ? <-; [done|].
  eapply same_bind; [apply matching_any|]. intros allowed m ->.
  exact (IH _ _ (push_rules _ response)).
Qed.

(** The decision on one operation. *)
Lemma explain_operation_agrees name c id plan snapshot op data reason version index check :
  oc_operation check = op -> oc_data check = data ->
  same_outcome (fun r d => px_decision r = decision_of "allow" d)
    (explain_operation_policy_response fuel depth s preview name c id plan snapshot op data reason version index)
    (policy_operation_denial_label fuel s preview depth plan snapshot check).
Proof. intros <- <-. rewrite denial_label_eq. apply explain_over_agrees. Qed.

(** A refusal by a policy. *)
Definition refused {A} (r : result A AxonError) : Prop := exists d, r = Err (PolicyDenied d).

Lemma explain_fields_agrees snapshot check version fields :
  match explain_fields fuel depth s preview snapshot check version fields with
  | Ok None => enforce_field_policies fuel s preview depth snapshot check fields = Ok tt
  | Ok (Some _) => refused (enforce_field_policies fuel s preview depth snapshot check fields)
  | Err e => enforce_field_policies fuel s preview depth snapshot check fields = Err e
  | Panic => enforce_field_policies fuel s preview depth snapshot check fields = Panic
  end.
Proof.
  induction fields as [|[f fp] fields IH]; simpl; [done|].
  destruct (cf_write fp) as [wp|]; [|exact IH].
  destruct (negb (field_write_scope_touches_path _ f)); [exact IH|]. unfold field_access_denied.
  set (m := field_policy_rule_matches _ _ _ _ _ _ _).
  destruct (first_match m (cf_deny wp)) as [[rule|]|e|]; simpl; try done; [by eexists|].
  destruct (cf_allow wp) as [|first rest]; [exact IH|].
  destruct (first_match m (first :: rest)) as [[rule|]|e|]; simpl; try done. by eexists.
Qed.

Lemma explain_envelopes_agrees snapshot check version : forall envelopes needs needs',
  (is_Some needs <-> is_Some needs') ->
  match explain_envelopes fuel depth s preview snapshot check version needs envelopes with
  | Ok None => envelope_decision fuel s preview depth snapshot check needs' envelopes = Ok None
  | Ok (Some r) =>
      px_decision r = "needs_approval" /\
        (exists label, envelope_decision fuel s preview depth snapshot check needs' envelopes = Ok (Some label)) \/
      px_decision r = "deny" /\ refused (envelope_decision fuel s preview depth snapshot check needs' envelopes)
  | Err e => envelope_decision fuel s preview depth snapshot check needs' envelopes = Err e
  | Panic => envelope_decision fuel s preview depth snapshot check needs' envelopes = Panic
  end.
Proof.
  induction envelopes as [|e envelopes IH]; intros needs needs' Hn; simpl.
  { destruct needs as [n|], needs' as [n'|]; simpl.
    - left. split; [done|by eexists].
    - destruct (proj1 Hn) as [x Hx]; [by eexists|done].
    - destruct (proj2 Hn) as [x Hx]; [by eexists|done].
    - done. }
  destruct (policy_predicate_matches _ _ _ _ _ _ _ _) as [[]|err|]; simpl; try done; [|by apply IH].
  destruct (ev_decision e); [by apply IH| |right; split; [done|by eexists]].
  apply IH. split; intros _; by eexists.
Qed.

(** Enforcement on a plan. *)
Definition enforce_on_plan (plan : PolicyPlan) (snapshot : PolicyRequestSnapshot) (check : PolicyWriteCheck)
    (approved : bool) : result unit AxonError :=
  let? _ :=
    match wc_current_data check with
    | Some current_data =>
        enforce_policy_operation fuel s preview depth plan snapshot {|
          oc_collection := wc_collection check; oc_entity_id := wc_entity_id check;
          oc_operation := OpRead; oc_data := current_data; oc_operation_index := wc_operation_index check |}
    | None => Ok tt
    end in
  let? _ := enforce_policy_operation fuel s preview depth plan snapshot {|
    oc_collection := wc_collection check; oc_entity_id := wc_entity_id check;
    oc_operation := wc_operation check; oc_data := wc_candidate_data check;
    oc_operation_index := wc_operation_index check |} in
  let? _ := enforce_field_write_policy fuel s preview depth plan snapshot check in
  enforce_policy_envelopes fuel s preview depth plan snapshot check approved.

(** What a decision says about enforcement without and with an approval. *)
Definition decides (decision : string) (enforce : bool -> result unit AxonError) : Prop :=
  decision = "allow" /\ (forall approved, enforce approved = Ok tt) \/
  decision = "needs_approval" /\ refused (enforce false) /\ enforce true = Ok tt \/
  decision = "deny" /\ forall approved, refused (enforce approved).

Definition outcome_agrees (explained : result PolicyExplanationResponse AxonError)
    (enforce : bool -> result unit AxonError) : Prop :=
  match explained with
  | Ok r => decides (px_decision r) enforce
  | Err e => forall approved, enforce approved = Err e
  | Panic => forall approved, enforce approved = Panic
  end.
Lemma enforce_operation_label plan snapshot check :
  match policy_operation_denial_label fuel s preview depth plan snapshot check with
  | Ok None => enforce_policy_operation fuel s preview depth plan snapshot check = Ok tt
  | Ok (Some _) => refused (enforce_policy_operation fuel s preview depth plan snapshot check)
  | Err e => enforce_policy_operation fuel s preview depth plan snapshot check = Err e
  | Panic => enforce_policy_operation fuel s preview depth plan snapshot check = Panic
  end.
Proof.
  unfold enforce_policy_operation. destruct (policy_operation_denial_label _ _ _ _ _ _ _) as [[l|]|e|]; simpl; try done.
  by eexists.
Qed.

(** One operation: explained and enforced. *)
Lemma explained_operation name c id plan snapshot op data reason version index check :
  oc_operation check = op -> oc_data check = data ->
  match explain_operation_policy_response fuel depth s preview name c id plan snapshot op data reason version index with
  | Ok r =>
      px_decision r = "allow" /\ enforce_policy_operation fuel s preview depth plan snapshot check = Ok tt \/
      px_decision r = "deny" /\ refused (enforce_policy_operation fuel s preview depth plan snapshot check)
  | Err e => enforce_policy_operation fuel s preview depth plan snapshot check = Err e
  | Panic => enforce_policy_operation fuel s preview depth plan snapshot check = Panic
  end.
Proof.
  intros Ho Hd. pose proof (explain_operation_agrees name c id plan snapshot op data reason version index check Ho Hd) as Hs.
  pose proof (enforce_operation_label plan snapshot check) as He. unfold same_outcome in Hs.
  destruct (explain_operation_policy_response _ _ _ _ _ _ _ _ _ _ _ _ _ _) as [r|e|],
    (policy_operation_denial_label _ _ _ _ _ _ _) as [[l|]|e'|]; try done; simpl in Hs; subst; eauto.
Qed.

Lemma refused_bind {A B} (x : result A AxonError) (f : A -> result B AxonError) : refused x -> refused (result_bind x f).
Proof. intros [d ->]. by exists d. Qed.

(** The checks after the one on the present row. *)
Definition enforce_candidate (plan : PolicyPlan) (snapshot : PolicyRequestSnapshot) (check : PolicyWriteCheck)
    (approved : bool) : result unit AxonError :=
  let? _ := enforce_policy_operation fuel s preview depth plan snapshot {|
    oc_collection := wc_collection check; oc_entity_id := wc_entity_id check;
    oc_operation := wc_operation check; oc_data := wc_candidate_data check;
    oc_operation_index := wc_operation_index check |} in
  let? _ := enforce_field_write_policy fuel s preview depth plan snapshot check in
  enforce_policy_envelopes fuel s preview depth plan snapshot check approved.

Lemma explain_candidate_agrees name c id plan snapshot check version response :
  px_decision response = "allow" ->
  outcome_agrees (explain_candidate fuel depth s preview name c id plan snapshot check version response)
    (enforce_candidate plan snapshot check).
Proof.
  intros Hallow. unfold explain_candidate, enforce_candidate. cbv zeta.
  set (oc := {| oc_collection := _ |}).
  pose proof (explained_operation name c id plan snapshot (wc_operation check) (wc_candidate_data check)
    "row_write_denied" version (wc_operation_index check) oc eq_refl eq_refl) as Ho.
  destruct (explain_operation_policy_response _ _ _ _ _ _ _ _ _ _ _ _ _ _) as [r|e|]; simpl in Ho |- *;
    [|intros approved; by rewrite Ho..].
  destruct Ho as [[-> Ho]|[-> Ho]]; [|right; right; split; [done|]; intros approved; by apply refused_bind].
  simpl. rewrite Ho. simpl. unfold enforce_field_write_policy, explain_field_write_policy.
  pose proof (explain_fields_agrees snapshot check version (map_to_list (pp_fields plan))) as Hf.
  destruct (explain_fields _ _ _ _ _ _ _ _) as [[r'|]|e|]; simpl;
    [right; right; split; [done|]; intros approved; by apply refused_bind | | intros approved; by rewrite Hf..].
  rewrite Hf. simpl. unfold enforce_policy_envelopes, explain_policy_envelopes.
  pose proof (explain_envelopes_agrees snapshot check version (applicable_policy_envelopes plan (wc_operation check))
    None None ltac:(done)) as He.
  destruct (explain_envelopes _ _ _ _ _ _ _ _ _) as [[r'|]|e|]; simpl;
    [|left; split; [done|]; intros approved; by rewrite He | intros approved; by rewrite He..].
  destruct He as [[-> (label & Hl)]|[-> Hl]]; [right; left|right; right]; (split; [done|]).
  - rewrite Hl. split; [by eexists|done].
  - intros approved. by apply refused_bind.
Qed.

(** The decision on a write and its enforcement. *)
Lemma explain_write_agrees name c id plan snapshot check version :
  outcome_agrees (explain_write_policy_response fuel depth s preview name c id plan snapshot check version)
    (enforce_on_plan plan snapshot check).
Proof.
  unfold explain_write_policy_response, enforce_on_plan. cbv zeta.
  destruct (wc_current_data check) as [current|]; [|by apply explain_candidate_agrees].
  set (oc := {| oc_operation := OpRead |}).
  pose proof (explained_operation name c id plan snapshot OpRead current "row_read_denied" version
    (wc_operation_index check) oc eq_refl eq_refl) as Ho.
  destruct (explain_operation_policy_response _ _ _ _ _ _ _ _ _ _ _ _ _ _) as [r|e|]; simpl in Ho |- *;
    [|intros approved; by rewrite Ho..].
  destruct Ho as [[-> Ho]|[-> Ho]]; [|right; right; split; [done|]; intros approved; by apply refused_bind].
  rewrite Ho. by apply explain_candidate_agrees.
Qed.
End Agree.

(** ** Explanations of requests *)

Section Requests.
Context `{RuleEnv} `{TextFormat} `{ContentHasher}.
Variable fuel depth : nat.
Variable validate : CollectionSchema -> Value -> result unit AxonError.
Variable validate_link_metadata : Value -> Value -> result unit AxonError.
Variable reserved_payload : string -> string -> string.
Variable secs_display : Z -> string.

Abbreviation handle := (run_handler (S := MemoryStorageAdapter) fuel depth validate validate_link_metadata
  reserved_payload secs_display).

(** The actor of a request is its caller. *)
Lemma snapshot_actor (s : MemoryStorageAdapter) c schema caller attribution :
  policy_snapshot_for_request s c schema (Some (ci_actor caller)) (Some caller) attribution =
  policy_snapshot_for_request s c schema None (Some caller) attribution.
Proof. done. Qed.

Lemma enforce_write_plan s schema plan snapshot check approved :
  compile_policy_plan_for_schema fuel s schema = Ok (Some plan) ->
  enforce_write_policy fuel s None depth (Some schema) (Some snapshot) check approved =
  enforce_on_plan fuel depth s None plan snapshot check approved.
Proof. intros Hp. unfold enforce_write_policy. by rewrite Hp. Qed.

(** The decision on a write of a request is that of the write policy for its
    caller. *)
Lemma with_plan_agrees s caller attribution name c schema id index name' check version r :
  with_plan fuel s caller attribution None name c schema id index
    (fun snapshot plan => explain_write_policy_response fuel depth s None name' c id plan snapshot check version) = Ok r ->
  exists snapshot,
    policy_snapshot_for_request s c (Some schema) (Some (ci_actor caller)) (Some caller) attribution = Ok snapshot /\
    decides (px_decision r) (enforce_write_policy fuel s None depth (Some schema) snapshot check).
Proof.
  unfold with_plan, explain_policy_plan_for_request. rewrite snapshot_actor.
  intros (found & (snapshot & Hsn & Hf)%result_bind_ok & Hr)%result_bind_ok. exists snapshot. split; [done|].
  destruct snapshot as [snapshot|]; cycle 1.
  { injection Hf as <-. injection Hr as <-. left. by split. }
  simpl in Hf. apply result_bind_ok in Hf as ([plan|] & Hp & [= <-]).
  - pose proof (explain_write_agrees fuel depth s None name' c id plan snapshot check version) as Ha.
    rewrite Hr in Ha. simpl in Ha. unfold decides in *.
    setoid_rewrite (enforce_write_plan s schema plan snapshot check); done.
  - injection Hr as <-. left. split; [done|]. intros approved. unfold enforce_write_policy. by rewrite Hp.
Qed.

(** The schema that a request without a preview is explained with. *)
Lemma explained_schema s req c schema :
  explain_collection_schema s None req = Ok (c, schema) ->
  xr_collection req = Some c /\ get_schema s c = Ok (Some schema).
Proof.
  unfold explain_collection_schema. intros (c' & Hc%ok_or_ok & (found & Hf & (sch & Hs%ok_or_ok & [= <- <-])%result_bind_ok)
    %result_bind_ok)%result_bind_ok. by subst.
Qed.

(** The call that a request explains, made by the caller. *)
Definition call_of (req : ExplainPolicyRequest) (caller : CallerIdentity) (attribution : option AuditAttribution)
    (expected_version : Z) (force : bool) : option HandlerCall :=
  match xr_collection req, xr_entity_id req with
  | Some c, Some i =>
      let operation := ascii_lowercase (trim (xr_operation req)) in
      let actor := Some (ci_actor caller) in
      if bool_decide (operation = "create") then
        option_map (fun data => CallCreate {| ce_collection := c; ce_id := i; ce_data := data; ce_actor := actor;
          ce_audit_metadata := None; ce_attribution := attribution |} (Some caller)) (xr_data req)
      else if bool_decide (operation = "update") then
        option_map (fun data => CallUpdate {| ue_collection := c; ue_id := i; ue_data := data;
          ue_expected_version := expected_version; ue_actor := actor; ue_audit_metadata := None;
          ue_attribution := attribution |} (Some caller)) (xr_data req)
      else if bool_decide (operation = "patch") then
        option_map (fun patch => CallPatch {| pe_collection := c; pe_id := i; pe_patch := patch;
          pe_expected_version := expected_version; pe_actor := actor; pe_audit_metadata := None;
          pe_attribution := attribution |} (Some caller)) (xr_patch req)
      else if bool_decide (operation = "delete") then
        Some (CallDelete {| de_collection := c; de_id := i; de_actor := actor; de_force := force;
          de_audit_metadata := None; de_attribution := attribution |} (Some caller))
      else None
  | _, _ => None
  end.

(** What the write policy of a call looks at. *)
Definition check_of (s : MemoryStorageAdapter) (schema : CollectionSchema) (call : HandlerCall)
    : result PolicyWriteCheck AxonError :=
  let check c i op current data scope := Ok {|
    wc_collection := c; wc_entity_id := Some i; wc_operation := op; wc_current_data := current;
    wc_candidate_data := data; wc_field_scope := scope; wc_operation_index := None |} in
  match call with
  | CallCreate req _ =>
      let? data := enforce_lifecycle_initial_state schema (ce_data req) ModeCreate in
      check (ce_collection req) (ce_id req) OpCreate None data (PresentFields data)
  | CallUpdate req _ =>
      let? data := enforce_lifecycle_initial_state schema (ue_data req) ModeUpdate in
      let? e := stored_entity s (ue_collection req) (ue_id req) in
      check (ue_collection req) (ue_id req) OpUpdate (Some (e_data e)) data (PresentFields data)
  | CallPatch req _ =>
      let? e := stored_entity s (pe_collection req) (pe_id req) in
      let? data := enforce_lifecycle_initial_state schema (json_merge_patch (e_data e) (pe_patch req)) ModeUpdate in
      check (pe_collection req) (pe_id req) OpUpdate (Some (e_data e)) data (PatchScope (pe_patch req))
  | CallDelete req _ =>
      let? e := stored_entity s (de_collection req) (de_id req) in
      check (de_collection req) (de_id req) OpDelete (Some (e_data e)) (e_data e) (PresentFields (e_data e))
  | _ => Err (InvalidOperation "")
  end.
(** The collection, caller, actor and attribution of a call. *)
Definition call_subject (call : HandlerCall)
    : option (CollectionId * option string * option CallerIdentity * option AuditAttribution) :=
  match call with
  | CallCreate req caller => Some (ce_collection req, ce_actor req, caller, ce_attribution req)
  | CallUpdate req caller => Some (ue_collection req, ue_actor req, caller, ue_attribution req)
  | CallPatch req caller => Some (pe_collection req, pe_actor req, caller, pe_attribution req)
  | CallDelete req caller => Some (de_collection req, de_actor req, caller, de_attribution req)
  | _ => None
  end.

(** A call that succeeds passed its write policy, without an approval. *)
Lemma success_enforced clock call (s s' : MemoryStorageAdapter) c actor caller attribution schema snapshot check :
  handle clock call s = (s', Ok tt) -> call_subject call = Some (c, actor, caller, attribution) ->
  get_schema s c = Ok (Some schema) ->
  policy_snapshot_for_request s c (Some schema) actor caller attribution = Ok snapshot ->
  check_of s schema call = Ok check ->
  enforce_write_policy fuel s None depth (Some schema) snapshot check false = Ok tt.
Proof.
  intros Hrun Hsub Hsch Hsn Hcheck.
  destruct call as [req cl|req cl|req cl|req cl|req cl|req|req|req|]; try done; injection Hsub as <- <- <- <-;
    apply bind_ok in Hrun as (s1 & w & Hr & _); cbn [check_of] in Hcheck.
  - unfold create_entity_inner in Hr. apply access_granted in Hr as [_ Hr]. unfold create_entity_inner_unchecked in Hr.
    apply reads_inv in Hr as (schema' & Hsch' & Hr). cbn [sr_get_schema memory_reads] in Hsch'. rewrite Hsch in Hsch'. injection Hsch' as <-.
    apply reads_inv in Hr as (snapshot' & Hsn' & Hr). rewrite Hsn in Hsn'. injection Hsn' as <-.
    apply lift_ok in Hr as (data & Hlc & Hr). simpl in Hlc. rewrite Hlc in Hcheck. injection Hcheck as <-.
    apply reads_inv in Hr as ([] & Hpol & _). exact Hpol.
  - unfold update_entity_inner in Hr. apply access_granted in Hr as [_ Hr]. unfold update_entity_inner_unchecked in Hr.
    apply reads_inv in Hr as (schema' & Hsch' & Hr). cbn [sr_get_schema memory_reads] in Hsch'. rewrite Hsch in Hsch'. injection Hsch' as <-.
    apply reads_inv in Hr as (snapshot' & Hsn' & Hr). rewrite Hsn in Hsn'. injection Hsn' as <-.
    apply lift_ok in Hr as (data & Hlc & Hr). simpl in Hlc. rewrite Hlc in Hcheck. cbn [result_bind] in Hcheck.
    apply lift_ok in Hr as ([] & _ & Hr). apply lift_ok in Hr as (eval & _ & Hr).
    apply reads_inv in Hr as (existing & Hex & Hr). apply reads_inv in Hr as ([] & Hpol & _).
    apply result_bind_ok in Hcheck as (e & (found & Hf & ->%ok_or_ok)%result_bind_ok & [= <-]).
    cbn [sr_get memory_reads] in Hex. rewrite Hf in Hex. injection Hex as <-. exact Hpol.
  - unfold patch_entity_inner in Hr. apply access_granted in Hr as [_ Hr].
    apply reads_inv in Hr as ([existing|] & Hex & Hr); [|done]. cbv zeta in Hr.
    apply reads_inv in Hr as (schema' & Hsch' & Hr). cbn [sr_get_schema memory_reads] in Hsch'. rewrite Hsch in Hsch'. injection Hsch' as <-.
    apply reads_inv in Hr as (snapshot' & Hsn' & Hr). rewrite Hsn in Hsn'. injection Hsn' as <-.
    apply result_bind_ok in Hcheck as (e & (found & Hf & ->%ok_or_ok)%result_bind_ok & Hcheck).
    cbn [sr_get memory_reads] in Hex. rewrite Hf in Hex. injection Hex as <-.
    apply lift_ok in Hr as (data & Hlc & Hr). simpl in Hlc. rewrite Hlc in Hcheck. injection Hcheck as <-.
    apply lift_ok in Hr as ([] & _ & Hr). apply lift_ok in Hr as (eval & _ & Hr).
    apply reads_inv in Hr as ([] & Hpol & _). exact Hpol.
  - unfold delete_entity_inner in Hr. apply access_granted in Hr as [_ Hr].
    apply reads_inv in Hr as (schema' & Hsch' & Hr). cbn [sr_get_schema memory_reads] in Hsch'. rewrite Hsch in Hsch'. injection Hsch' as <-.
    apply reads_inv in Hr as (snapshot' & Hsn' & Hr). rewrite Hsn in Hsn'. injection Hsn' as <-.
    apply bind_ok in Hr as (s2 & inbound & Hin & Hr).
    assert (s2 = s) as -> by (destruct (de_force req); [by injection Hin | unfold reads in Hin; by destruct (sr_list_inbound_links _ _ _ _); simplify_eq]).
    destruct inbound; [|done]. apply reads_inv in Hr as (existing & Hex & Hr).
    apply result_bind_ok in Hcheck as (e & (found & Hf & ->%ok_or_ok)%result_bind_ok & [= <-]).
    cbn [sr_get memory_reads] in Hex. rewrite Hf in Hex. injection Hex as <-.
    apply reads_inv in Hr as ([] & Hpol & _). exact Hpol.
Qed.
(** The explanations of the four writes. *)
Lemma explain_policy_writes (s : MemoryStorageAdapter) caller attribution req index :
  let operation := ascii_lowercase (trim (xr_operation req)) in
  let explain := explain_policy_inner fuel depth s caller attribution None req index in
  (operation = "create" -> explain = explain_create_policy fuel depth s caller attribution None req index) /\
  (operation = "update" -> explain = explain_update_policy fuel depth s caller attribution None req index) /\
  (operation = "patch" -> explain = explain_patch_policy fuel depth s caller attribution None req index) /\
  (operation = "delete" -> explain = explain_delete_policy fuel depth s caller attribution None req index).
Proof.
  intros operation explain. subst operation explain. destruct req as [op c i ev data patch ln ts tv ops ao].
  cbv [explain_policy_inner]. cbv zeta. split_and!; intros Ho; rewrite Ho; done.
Qed.

(** The explanation of a request and the check of its call. *)
Lemma explained_call (s : MemoryStorageAdapter) req caller attribution version force call r :
  explain_policy_with_caller fuel depth s req caller attribution = Ok r ->
  call_of req caller attribution version force = Some call ->
  exists c schema snapshot check,
    call_subject call = Some (c, Some (ci_actor caller), Some caller, attribution) /\
    get_schema s c = Ok (Some schema) /\
    policy_snapshot_for_request s c (Some schema) (Some (ci_actor caller)) (Some caller) attribution = Ok snapshot /\
    check_of s schema call = Ok check /\
    decides (px_decision r) (enforce_write_policy fuel s None depth (Some schema) snapshot check).
Proof.
  unfold explain_policy_with_caller, call_of. intros Hx Hcall.
  destruct (xr_collection req) as [c|] eqn:Ec; [|done]. destruct (xr_entity_id req) as [i|] eqn:Ei; [|done].
  cbv zeta in Hcall.
  destruct (explain_policy_writes s caller attribution req None) as (Hcreate & Hupdate & Hpatch & Hdelete).
  assert (Hschema : forall c' schema, explain_collection_schema s None req = Ok (c', schema) ->
    c' = c /\ get_schema s c = Ok (Some schema)).
  { intros c' schema [Hc' Hs]%explained_schema. rewrite Ec in Hc'. injection Hc' as <-. done. }
  destruct (bool_decide_reflect (ascii_lowercase (trim (xr_operation req)) = "create")) as [Ho|_].
  { rewrite (Hcreate Ho) in Hx. destruct (xr_data req) as [data|] eqn:Edata; [|done]. injection Hcall as <-.
    apply result_bind_ok in Hx as ([c' schema] & Hs & Hx). apply Hschema in Hs as [-> Hs].
    rewrite Edata, Ei in Hx. cbn [required ok_or result_bind] in Hx.
    apply result_bind_ok in Hx as (data' & Hlc & Hx). apply with_plan_agrees in Hx as (snapshot & Hsn & Hd).
    do 4 eexists. split_and!; [done | exact Hs | exact Hsn | | exact Hd]. cbn. by rewrite Hlc. }
  destruct (bool_decide_reflect (ascii_lowercase (trim (xr_operation req)) = "update")) as [Ho|_].
  { rewrite (Hupdate Ho) in Hx. destruct (xr_data req) as [data|] eqn:Edata; [|done]. injection Hcall as <-.
    apply result_bind_ok in Hx as ([c' schema] & Hs & Hx). apply Hschema in Hs as [-> Hs].
    rewrite Edata, Ei in Hx. cbn [required ok_or result_bind] in Hx.
    apply result_bind_ok in Hx as (data' & Hlc & Hx). apply result_bind_ok in Hx as (cur & Hcur & Hx).
    apply result_bind_ok in Hcur as (e & He & [= <-]). apply with_plan_agrees in Hx as (snapshot & Hsn & Hd).
    do 4 eexists. split_and!; [done | exact Hs | exact Hsn | | exact Hd].
    cbn [check_of ue_data ue_collection ue_id]. rewrite Hlc. cbn [result_bind]. by rewrite He. }
  destruct (bool_decide_reflect (ascii_lowercase (trim (xr_operation req)) = "patch")) as [Ho|_].
  { rewrite (Hpatch Ho) in Hx. destruct (xr_patch req) as [patch|] eqn:Epatch; [|done]. injection Hcall as <-.
    apply result_bind_ok in Hx as ([c' schema] & Hs & Hx). apply Hschema in Hs as [-> Hs].
    rewrite Epatch, Ei in Hx. cbn [required ok_or result_bind] in Hx.
    apply result_bind_ok in Hx as (cur & Hcur & Hx). apply result_bind_ok in Hcur as (e & He & [= <-]).
    apply result_bind_ok in Hx as (data' & Hlc & Hx). apply with_plan_agrees in Hx as (snapshot & Hsn & Hd).
    do 4 eexists. split_and!; [done | exact Hs | exact Hsn | | exact Hd].
    cbn [check_of pe_patch pe_collection pe_id]. rewrite He. cbn [result_bind]. by rewrite Hlc. }
  destruct (bool_decide_reflect (ascii_lowercase (trim (xr_operation req)) = "delete")) as [Ho|_]; [|done].
  rewrite (Hdelete Ho) in Hx. injection Hcall as <-.
  apply result_bind_ok in Hx as ([c' schema] & Hs & Hx). apply Hschema in Hs as [-> Hs].
  rewrite Ei in Hx. cbn [required ok_or result_bind] in Hx.
  apply result_bind_ok in Hx as (cur & Hcur & Hx). apply result_bind_ok in Hcur as (e & He & [= <-]).
  apply with_plan_agrees in Hx as (snapshot & Hsn & Hd).
  do 4 eexists. split_and!; [done | exact Hs | exact Hsn | | exact Hd].
  cbn [check_of de_collection de_id]. by rewrite He.
Qed.

(** C14. Explanations of creates, updates, patches and deletes tell what the
    write will meet.  The decision is "allow" exactly when the write policy, for
    the same caller, the stored row and the document the write would store,
    accepts the write; "needs_approval" exactly when it accepts it only with an
    approval; "deny" exactly when it refuses it either way.  So a write that is
    explained with anything but "allow" does not succeed. *)
Theorem explanation_exact (s : MemoryStorageAdapter) (req : ExplainPolicyRequest) (caller : CallerIdentity)
    (attribution : option AuditAttribution) (version : Z) (force : bool) (call : HandlerCall)
    (r : PolicyExplanationResponse)
    (Hexplained : explain_policy_with_caller fuel depth s req caller attribution = Ok r)
    (Hcall : call_of req caller attribution version force = Some call) :
  (exists c schema snapshot check,
    call_subject call = Some (c, Some (ci_actor caller), Some caller, attribution) /\
    get_schema s c = Ok (Some schema) /\
    policy_snapshot_for_request s c (Some schema) (Some (ci_actor caller)) (Some caller) attribution = Ok snapshot /\
    check_of s schema call = Ok check /\
    decides (px_decision r) (enforce_write_policy fuel s None depth (Some schema) snapshot check)) /\
  (px_decision r <> "allow" -> forall clock s', handle clock call s <> (s', Ok tt)).
Proof.
  pose proof (explained_call s req caller attribution version force call r Hexplained Hcall) as Hx.
  split; [exact Hx|]. destruct Hx as (c & schema & snapshot & check & Hsub & Hsch & Hsn & Hcheck & Hd).
  intros Hne clock s' Hrun.
  pose proof (success_enforced clock call s s' c _ _ _ schema snapshot check Hrun Hsub Hsch Hsn Hcheck) as Henf.
  destruct Hd as [[Ha _]|[(_ & [d Hd] & _)|[_ Hd]]]; [done|congruence|].
  destruct (Hd false) as [d Hd']. congruence.
Qed.
End Requests.
