(* ===== verification/Templates.v ===== *)
(** * Markdown templates ([crates/axon-render], the template cache of
    [crates/axon-api/src/handler.rs])

    Validation of the fields a Mustache template refers to, the context an entity
    is rendered in, and the handler's cache of compiled templates, which evicts
    the least recently used one.

    The Mustache engine and the regular expression that finds the tags are
    third-party code: [TemplateEngine]. *)

From S2P Require Import Prelude Json Ids Types Intents IndexKeys Schema PolicyPlan PolicyCycles PolicyCompile Rules JsonOps.
Local Open Scope axon_scope.

(** [ramhorns::Template], the captures of the tag pattern, and JSON numbers of
    unsigned integers. *)
Class TemplateEngine `{SerdeNumber} : Type := {
  engine_template : Type;
  engine_new : string -> result engine_template string;
  engine_render : engine_template -> Value -> string;
  engine_captures : string -> list (option string * option string * option string);
  engine_u64 : Z -> number
}.

Section Render.
Context `{TemplateEngine}.

(** ** Fields of a template *)

Definition is_skipped_modifier (modifier : string) : bool :=
  bool_decide (modifier = "/") || bool_decide (modifier = "!") || bool_decide (modifier = ">").

(** The field of one tag: the unescaped form, or a name with its modifier. *)
Definition field_of_capture (capture : option string * option string * option string) : option string :=
  let named text := let field := trim text in if bool_decide (field = "") then None else Some field in
  match capture with
  | (Some triple, _, _) => named triple
  | (None, Some modifier, Some name) => if is_skipped_modifier modifier then None else named name
  | _ => None
  end.

Definition extract_field_refs (template : string) : gset string :=
  list_to_set (omap field_of_capture (engine_captures template)).

Definition extract_template_fields (template : string) : list string :=
  sort_by String.compare (elements (extract_field_refs template)).

Definition SYSTEM_FIELDS : list string :=
  ["_id"; "_version"; "_created_at"; "_updated_at"; "_created_by"; "_updated_by"].

Record TemplateFieldError : Type := { te_field : string; te_message : string }.
Record TemplateFieldWarning : Type := { tw_field : string; tw_message : string }.
Record TemplateValidationResult : Type := {
  tv_errors : list TemplateFieldError;
  tv_warnings : list TemplateFieldWarning
}.
Definition template_is_valid (r : TemplateValidationResult) : bool := bool_decide (tv_errors r = []).

Definition template_top_level_field (path : string) : string := default path (head (split_on dot path)).

(** The members of an array of strings. *)
Definition string_members (v : option Value) : list string :=
  match v with Some (Array items) => omap as_str items | _ => [] end.
Definition object_keys (v : option Value) : list string :=
  match v with Some (Object fields) => map fst fields | _ => [] end.

(** What one reference adds to the result. *)
Definition check_field (properties required : list string) (field : string) (r : TemplateValidationResult)
    : TemplateValidationResult :=
  let top := template_top_level_field field in
  if bool_decide (top ∈ SYSTEM_FIELDS) then r
  else if negb (bool_decide (top ∈ properties)) then
    {| tv_errors := tv_errors r ++ [{| te_field := field; te_message :=
         "template references field '" +:+ field +:+ "' which does not exist in the entity schema" |}];
       tv_warnings := tv_warnings r |}
  else if negb (bool_decide (top ∈ required)) then
    {| tv_errors := tv_errors r;
       tv_warnings := tv_warnings r ++ [{| tw_field := field; tw_message :=
         "field '" +:+ field +:+ "' is optional — template output may be incomplete for entities without this field" |}] |}
  else r.

Definition validate_template (template : string) (entity_schema : option Value) : TemplateValidationResult :=
  let none := {| tv_errors := []; tv_warnings := [] |} in
  match entity_schema with
  | None => none
  | Some schema =>
      fold_left (fun r field => check_field (object_keys (value_get schema "properties"))
                                  (string_members (value_get schema "required")) field r)
        (extract_template_fields template) none
  end.

(** ** Rendering *)

Fixpoint resolve_segments (value : Value) (segments : list string) : option Value :=
  match segments with
  | [] => Some value
  | segment :: rest =>
      match value with
      | Object fields => assoc_get segment fields ≫= fun v => resolve_segments v rest
      | _ => None
      end
  end.
Definition resolve_path (value : Value) (name : string) : option Value :=
  if bool_decide (name = ".") then Some value else resolve_segments value (split_on dot name).

Definition json_u64 (z : Z) : Value := Number (engine_u64 z).
Definition or_null {A} (f : A -> Value) (o : option A) : Value := match o with Some a => f a | None => Null end.

Definition build_render_context (entity : Entity) : Value :=
  let context := match e_data entity with
    | Object fields => fields
    | data => [("data", data)]
    end in
  Object (map_insert "_updated_by" (or_null JString (e_updated_by entity))
    (map_insert "_created_by" (or_null JString (e_created_by entity))
    (map_insert "_updated_at" (or_null json_u64 (e_updated_at_ns entity))
    (map_insert "_created_at" (or_null json_u64 (e_created_at_ns entity))
    (map_insert "_version" (json_u64 (e_version entity))
    (map_insert "_id" (JString (e_id entity)) context)))))).

Definition CompiledTemplate : Type := engine_template.

Definition compile_template (template : string) : result CompiledTemplate AxonError :=
  map_err (fun error => InvalidArgument ("invalid markdown template: " +:+ error)) (engine_new template).
Definition render_compiled (entity : Entity) (template : CompiledTemplate) : string :=
  engine_render template (build_render_context entity).
Definition render (entity : Entity) (template : string) : result string AxonError :=
  let? compiled := compile_template template in
  Ok (render_compiled entity compiled).

(** ** The cache of compiled templates *)

Record CachedMarkdownTemplate : Type := {
  ct_version : Z;
  ct_template : CompiledTemplate
}.

(** [lru] lists the cached collections, the least recently used one first. *)
Record MarkdownTemplateCache : Type := {
  mc_entries : gmap CollectionId CachedMarkdownTemplate;
  mc_lru : list CollectionId;
  mc_capacity : nat
}.

Definition DEFAULT_MARKDOWN_TEMPLATE_CACHE_CAPACITY : nat := 256.

Definition cache_new (capacity : nat) : MarkdownTemplateCache :=
  {| mc_entries := ∅; mc_lru := []; mc_capacity := capacity |}.

Definition with_cache (entries : gmap CollectionId CachedMarkdownTemplate) (lru : list CollectionId)
    (c : MarkdownTemplateCache) : MarkdownTemplateCache :=
  {| mc_entries := entries; mc_lru := lru; mc_capacity := mc_capacity c |}.

Definition cache_touch (collection : CollectionId) (c : MarkdownTemplateCache) : MarkdownTemplateCache :=
  with_cache (mc_entries c) (List.filter (fun x => negb (bool_decide (x = collection))) (mc_lru c) ++ [collection]) c.

Definition cache_get (collection : CollectionId) (version : Z) (c : MarkdownTemplateCache)
    : MarkdownTemplateCache * option CompiledTemplate :=
  match mc_entries c !! collection with
  | Some cached =>
      if (ct_version cached =? version)%Z then (cache_touch collection c, Some (ct_template cached)) else (c, None)
  | None => (c, None)
  end.

(** The loop pops the least recently used collections until the cache fits. *)
Fixpoint evict (capacity : nat) (entries : gmap CollectionId CachedMarkdownTemplate) (lru : list CollectionId)
    : gmap CollectionId CachedMarkdownTemplate * list CollectionId :=
  if capacity <? size entries then
    match lru with
    | [] => (entries, [])
    | oldest :: rest => evict capacity (delete oldest entries) rest
    end
  else (entries, lru).

Definition evict_to_capacity (c : MarkdownTemplateCache) : MarkdownTemplateCache :=
  let '(entries, lru) := evict (mc_capacity c) (mc_entries c) (mc_lru c) in with_cache entries lru c.

Definition template_cache_insert (collection : CollectionId) (cached : CachedMarkdownTemplate) (c : MarkdownTemplateCache)
    : MarkdownTemplateCache :=
  if bool_decide (mc_capacity c = 0) then c
  else evict_to_capacity (cache_touch collection (with_cache (<[collection := cached]> (mc_entries c)) (mc_lru c) c)).

Definition cache_remove (collection : CollectionId) (c : MarkdownTemplateCache) : MarkdownTemplateCache :=
  with_cache (delete collection (mc_entries c))
    (if bool_decide (is_Some (mc_entries c !! collection))
     then List.filter (fun x => negb (bool_decide (x = collection))) (mc_lru c) else mc_lru c) c.

Definition cache_retain (keep : CollectionId -> bool) (c : MarkdownTemplateCache) : MarkdownTemplateCache :=
  let entries := filter (fun e : CollectionId * CachedMarkdownTemplate => keep (fst e) = true) (mc_entries c) in
  with_cache entries (List.filter (fun x => bool_decide (is_Some (entries !! x))) (mc_lru c)) c.
(** *** The invariant of the cache *)

(** The list names every cached collection once, and the cache fits. *)
Record cache_ok (c : MarkdownTemplateCache) : Prop := {
  co_nodup : base.NoDup (mc_lru c);
  co_names : forall x, x ∈ mc_lru c <-> is_Some (mc_entries c !! x);
  co_size : size (mc_entries c) <= mc_capacity c
}.

Lemma cache_new_ok capacity : cache_ok (cache_new capacity).
Proof.
  split; simpl.
  - constructor.
  - intros x. rewrite lookup_empty. split; [by intros ?%elem_of_nil | by intros [? ?]].
  - rewrite map_size_empty. lia.
Qed.

Lemma filter_nodup (f : CollectionId -> bool) l : base.NoDup l -> base.NoDup (List.filter f l).
Proof.
  induction 1 as [|x l Hx _ IH]; simpl; [constructor|]. destruct (f x); [|done]. constructor; [|done].
  intros Hin%list_elem_of_In. apply filter_In in Hin as [Hin _]. by apply list_elem_of_In in Hin.
Qed.

Lemma elem_of_filter_bool (f : CollectionId -> bool) l x : x ∈ List.filter f l <-> x ∈ l /\ f x = true.
Proof. by rewrite !list_elem_of_In, filter_In. Qed.

Lemma touch_names collection c x : x ∈ mc_lru (cache_touch collection c) <-> x ∈ mc_lru c \/ x = collection.
Proof.
  simpl. rewrite elem_of_app, elem_of_filter_bool, list_elem_of_singleton, negb_true_iff, bool_decide_eq_false.
  destruct (decide (x = collection)); naive_solver.
Qed.

Lemma touch_nodup collection c : base.NoDup (mc_lru c) -> base.NoDup (mc_lru (cache_touch collection c)).
Proof.
  intros Hn. simpl. apply list.NoDup_app. split_and!; [by apply filter_nodup | | apply NoDup_singleton].
  intros x Hx%elem_of_filter_bool ->%list_elem_of_singleton. destruct Hx as [_ Hx].
  by rewrite bool_decide_true in Hx.
Qed.

(** The loop ends with a cache that fits, and only forgets. *)
Lemma evict_ok capacity lru : forall entries,
  base.NoDup lru -> (forall x, x ∈ lru <-> is_Some (entries !! x)) ->
  let '(entries', lru') := evict capacity entries lru in
  base.NoDup lru' /\ (forall x, x ∈ lru' <-> is_Some (entries' !! x)) /\ size entries' <= capacity /\
  (forall x t, entries' !! x = Some t -> entries !! x = Some t) /\
  (capacity <> 0 -> forall x, list.last lru = Some x -> size entries <= Datatypes.S capacity -> entries' !! x = entries !! x).
Proof.
  induction lru as [|o lru IH]; intros entries Hn Hx; simpl.
  - assert (Hempty : entries = ∅).
    { apply map_empty. intros x. destruct (entries !! x) eqn:E; [|done].
      assert (x ∈ @nil CollectionId) as ?%elem_of_nil by (by apply Hx; rewrite E; eexists). done. }
    subst. rewrite map_size_empty. simpl. split_and!; try done. rewrite map_size_empty. lia.
  - destruct (Nat.ltb_spec capacity (size entries)) as [Hlt|Hle]; [|split_and!; done].
    apply list.NoDup_cons in Hn as [Ho Hn].
    assert (Hsome : is_Some (entries !! o)) by (apply Hx; apply elem_of_cons; by left).
    assert (Hx' : forall x, x ∈ lru <-> is_Some (delete o entries !! x)).
    { intros x. destruct (decide (x = o)) as [->|Hne].
      - rewrite lookup_delete_eq. split; [done | by intros [? ?]].
      - rewrite lookup_delete_ne by done. rewrite <-Hx, elem_of_cons. naive_solver. }
    specialize (IH (delete o entries) Hn Hx').
    destruct (evict capacity (delete o entries) lru) as [entries' lru']. destruct IH as (H1 & H2 & H3 & H4 & H5).
    split_and!; [done | done | done | |].
    + intros x t Hl. apply H4 in Hl. by apply lookup_delete_Some in Hl as [_ ?].
    + intros Hc x Hlast Hsz. destruct lru as [|y l].
      { simpl in Hlast. injection Hlast as <-. exfalso.
        assert (size (delete o entries) = 0) as Hz.
        { apply map_size_empty_iff, map_empty. intros x. destruct (delete o entries !! x) eqn:E; [|done].
          assert (x ∈ @nil CollectionId) as ?%elem_of_nil by (by apply Hx'; rewrite E; eexists). done. }
        rewrite map_size_delete_Some in Hz by done. lia. }
      rewrite map_size_delete_Some in H5 by done. rewrite (H5 Hc x) by (first [exact Hlast | lia]).
      assert (x ∈ y :: l) as Hin by (by apply last_Some_elem_of).
      rewrite lookup_delete_ne; [done|]. intros ->. done.
Qed.
Lemma touch_ok collection c : is_Some (mc_entries c !! collection) -> cache_ok c -> cache_ok (cache_touch collection c).
Proof.
  intros Hs [Hn Hx Hz]. split; [by apply touch_nodup | | done].
  intros x. rewrite touch_names, Hx. cbn [cache_touch with_cache mc_entries]. naive_solver.
Qed.

Lemma get_ok collection version c : cache_ok c -> cache_ok (fst (cache_get collection version c)).
Proof.
  intros Hok. unfold cache_get. destruct (mc_entries c !! collection) eqn:E; [|done].
  case_match; [|done]. apply touch_ok; [by rewrite E; eexists | done].
Qed.

Lemma remove_ok collection c : cache_ok c -> cache_ok (cache_remove collection c).
Proof.
  intros [Hn Hx Hz]. split; unfold cache_remove; cbn [with_cache mc_lru mc_entries mc_capacity].
  - case_bool_decide; [by apply filter_nodup | done].
  - intros x. rewrite lookup_delete. case_bool_decide as Hs; [rewrite elem_of_filter_bool|]; rewrite Hx.
    + rewrite negb_true_iff, bool_decide_eq_false. case_decide; [subst; naive_solver|naive_solver].
    + case_decide; [subst; split; [done | by intros [? ?]] | done].
  - etrans; [|exact Hz]. apply map_subseteq_size, delete_subseteq.
Qed.

Lemma retain_ok keep c : cache_ok c -> cache_ok (cache_retain keep c).
Proof.
  intros [Hn Hx Hz]. split; unfold cache_retain; cbn [with_cache mc_lru mc_entries mc_capacity].
  - by apply filter_nodup.
  - intros x. rewrite elem_of_filter_bool, bool_decide_eq_true, Hx. split; [by intros [_ ?]|]. intros Hs. split; [|done].
    destruct Hs as [t Ht]. apply map_lookup_filter_Some in Ht as [Ht _]. by exists t.
  - etrans; [|exact Hz]. apply map_subseteq_size, map_filter_subseteq.
Qed.

(** Inserting evicts other collections, never the inserted one. *)
Lemma insert_ok collection cached c :
  cache_ok c -> cache_ok (template_cache_insert collection cached c) /\
  (mc_capacity c <> 0 -> mc_entries (template_cache_insert collection cached c) !! collection = Some cached) /\
  forall x t, mc_entries (template_cache_insert collection cached c) !! x = Some t ->
    x = collection /\ t = cached \/ mc_entries c !! x = Some t.
Proof.
  intros [Hn Hx Hz]. unfold template_cache_insert. case_bool_decide as Hc; [split_and!; [done | done | by right]|].
  unfold evict_to_capacity.
  set (c' := cache_touch collection (with_cache (<[collection := cached]> (mc_entries c)) (mc_lru c) c)).
  assert (Hn' : base.NoDup (mc_lru c')) by (by apply touch_nodup).
  assert (Hx' : forall x, x ∈ mc_lru c' <-> is_Some (mc_entries c' !! x)).
  { intros x. unfold c'. rewrite touch_names. cbn [cache_touch with_cache mc_lru mc_entries]. rewrite Hx.
    destruct (decide (x = collection)) as [->|Hne].
    - rewrite lookup_insert_eq. split; [by eexists | by right].
    - rewrite lookup_insert_ne by done. naive_solver. }
  pose proof (evict_ok (mc_capacity c') (mc_lru c') (mc_entries c') Hn' Hx') as He.
  destruct (evict (mc_capacity c') (mc_entries c') (mc_lru c')) as [entries lru].
  destruct He as (H1 & H2 & H3 & H4 & H5). cbn [with_cache mc_lru mc_entries mc_capacity].
  assert (Hl : mc_entries c' !! collection = Some cached) by apply lookup_insert_eq.
  split_and!; [by split | |].
  - intros _. rewrite H5; [done | done | apply last_snoc |].
    cbn [c' cache_touch with_cache mc_entries mc_capacity]. rewrite map_size_insert. case_match; cbn; lia.
  - intros x t Ht. apply H4 in Ht. cbn [c' cache_touch with_cache mc_entries] in Ht.
    apply lookup_insert_Some in Ht as [[<- <-]|[_ Ht]]; auto.
Qed.
End Render.
