(* ===== verification/Collections.v ===== *)
(** * Collections, schemas, namespaces, templates *)

From S2P Require Import Prelude Json Ids Types IndexKeys Intents AuditLog Schema PolicyPlan PolicyCycles.
From S2P Require Import PolicyCompile Rules Gates JsonOps AuthStore Roles Storage Catalog PolicyEval.
From S2P Require Import PolicyDecide Interface MemoryTx MemoryRows Transactions Requests EntityWrites.
From S2P Require Import EntityReads Queries EntityProofs EntitySpec Evolution Rollback Explain.
From S2P Require Import Templates.
From stdpp Require Import pretty.
Local Open Scope axon_scope.

(** ** Collections and schemas ([crates/axon-api/src/handler.rs])

    Creating, dropping and describing collections, replacing schemas under the
    compatibility check, markdown templates, namespaces and databases, on the
    in-memory adapter with the handler's template cache.

    The JSON Schema compiler and validator, the compiler of named queries, the
    serialized form of views and the [Debug] text of values are parameters;
    [clock n] is the n-th reading of the clock in a write. *)

Definition OP_SCHEMA : string := "schema".
Definition OP_TEMPLATE : string := "template".

(** ** JSON-LD aliases of reserved fields ([crates/axon-schema/src/schema.rs]) *)

Definition JSON_LD_RESERVED_KEYWORDS : list string := ["@context"; "@graph"; "@id"; "@type"].
Definition is_json_ld_reserved_keyword (name : string) : bool := bool_decide (name ∈ JSON_LD_RESERVED_KEYWORDS).

(** The suffixes from [suffix] on; [fuel] bounds the search. *)
Fixpoint alias_suffix (fuel : nat) (base : string) (suffix : nat) (occupied : gset string) : option string :=
  match fuel with
  | O => None
  | Datatypes.S fuel' =>
      let candidate := base +:+ "_" +:+ pretty suffix in
      if bool_decide (candidate ∈ occupied) then alias_suffix fuel' base (Datatypes.S suffix) occupied
      else Some candidate
  end.

(** Among more suffixes than occupied names one is free. *)
Definition unique_json_ld_alias (base : string) (occupied : gset string) : option string :=
  if bool_decide (base ∈ occupied) then alias_suffix (Datatypes.S (size occupied)) base 2 occupied else Some base.

Definition json_ld_base (name : string) : string :=
  if bool_decide (name = "@context") then "axon_context"
  else if bool_decide (name = "@graph") then "axon_graph"
  else if bool_decide (name = "@id") then "axon_id"
  else if bool_decide (name = "@type") then "axon_type"
  else "axon_field".

Fixpoint assign_aliases (occupied : gset string) (names : list string) : option (list (string * string)) :=
  match names with
  | [] => Some []
  | name :: rest =>
      match unique_json_ld_alias (json_ld_base name) occupied with
      | None => None
      | Some alias =>
          option_map (cons (name, alias)) (assign_aliases ({[alias]} ∪ occupied) rest)
      end
  end.

(** ** Named queries *)

Inductive NamedQueryStatus : Type :=
| StatusOk | ParseError | UnknownIdentifier | UnsupportedQueryPlan | PolicyRequiredBypass.

#[export] Instance NamedQueryStatus_eq_dec : EqDecision NamedQueryStatus.
Proof. solve_decision. Defined.

Record NamedQueryDiagnostic : Type := {
  nd_name : string;
  nd_status : NamedQueryStatus;
  nd_code : string;
  nd_message : string
}.

Record CompileReport : Type := { rep_queries : list NamedQueryDiagnostic }.
Definition report_is_success (r : CompileReport) : bool :=
  forallb (fun d => bool_decide (nd_status d = StatusOk)) (rep_queries r).

Definition query_compile_summary (r : CompileReport) : string :=
  join_str "; " (map (fun d => nd_name d +:+ ":" +:+ nd_code d +:+ ":" +:+ nd_message d)
    (List.filter (fun d => negb (bool_decide (nd_status d = StatusOk))) (rep_queries r))).

(** ** Requests and responses *)

Section Data.
Context `{SerdeNumber}.

Record CreateCollectionRequest : Type := {
  cc_name : CollectionId;
  cc_schema : CollectionSchema;
  cc_request_actor : option string
}.
Record DropCollectionRequest : Type := {
  dc_name : CollectionId;
  dc_actor : option string;
  dc_confirm : bool
}.
Record PutSchemaRequest : Type := {
  pq_schema : CollectionSchema;
  pq_actor : option string;
  pq_force : bool;
  pq_dry_run : bool;
  pq_explain_inputs : list ExplainPolicyRequest
}.
Record PutSchemaResponse : Type := {
  sr_schema : CollectionSchema;
  sr_compatibility : option Compatibility;
  sr_diff : option SchemaDiff;
  sr_policy_compile_report : option PolicyCompileReport;
  sr_compile_report : option CompileReport;
  sr_warnings : list string;
  sr_dry_run_explanations : option (list PolicyExplanationResponse);
  sr_dry_run : bool
}.
Record PutCollectionTemplateRequest : Type := {
  pt_collection : CollectionId;
  pt_template : string;
  pt_actor : option string
}.
Record DeleteCollectionTemplateRequest : Type := { dt_collection : CollectionId; dt_actor : option string }.

Record DropCollectionResponse : Type := { dcr_name : string; dcr_entities_removed : nat }.
Record CollectionMetadata : Type := {
  cm_name : string;
  cm_entity_count : nat;
  cm_schema_version : option Z;
  cm_created_at_ns : option Z;
  cm_updated_at_ns : option Z
}.
Record DescribeCollectionResponse : Type := {
  dcl_name : string;
  dcl_entity_count : nat;
  dcl_schema : option CollectionSchema;
  dcl_created_at_ns : option Z;
  dcl_updated_at_ns : option Z
}.
Record PutCollectionTemplateResponse : Type := { ptr_view : CollectionView; ptr_warnings : list string }.
Record InvalidEntity : Type := { iv_id : string; iv_version : Z; iv_errors : list string }.
Record RevalidateResponse : Type := {
  rvl_total_scanned : nat;
  rvl_valid_count : nat;
  rvl_invalid : list InvalidEntity
}.
Record DropNamespaceRequest : Type := { dn_database : string; dn_schema : string; dn_force : bool }.
Record DropDatabaseRequest : Type := { dd_name : string; dd_force : bool }.
Record DiffSchemaResponse : Type := { dsr_version_a : Z; dsr_version_b : Z; dsr_diff : SchemaDiff }.
Inductive GetEntityMarkdownResponse : Type :=
| Rendered (entity : Entity) (rendered_markdown : string)
| RenderFailed (entity : Entity) (detail : string).

Definition json_ld_reserved_field_aliases (schema : CollectionSchema) : option (list (string * string)) :=
  match cs_entity_schema schema ≫= (fun v => value_get v "properties") with
  | Some (Object properties) =>
      let names := map fst properties in
      assign_aliases (list_to_set (List.filter (fun n => negb (is_json_ld_reserved_keyword n)) names))
        (sort_by String.compare (List.filter is_json_ld_reserved_keyword names))
  | _ => Some []
  end.

Definition json_ld_reserved_field_warnings (schema : CollectionSchema) : list string :=
  map (fun e => "field '" +:+ fst e +:+ "' collides with a JSON-LD reserved keyword and will be exposed as '" +:+
                snd e +:+ "' in JSON-LD contexts")
    (default [] (json_ld_reserved_field_aliases schema)).
End Data.

(** ** Names *)

(** The first character of a UTF-8 text. *)
Definition is_continuation (b : Z) : bool := ((128 <=? b) && (b <=? 191))%Z.
Fixpoint continuation (l : list Z) : list Z :=
  match l with b :: rest => if is_continuation b then b :: continuation rest else [] | [] => [] end.
Definition first_char (l : list Z) : string :=
  match l with b :: rest => string_of_bytes (b :: continuation rest) | [] => "" end.

Definition name_char (b : Z) : bool :=
  ((97 <=? b) && (b <=? 122) || (48 <=? b) && (b <=? 57) || (b =? 45) || (b =? 95))%Z.
Fixpoint invalid_char (l : list Z) : option string :=
  match l with
  | [] => None
  | b :: rest => if name_char b then invalid_char rest else Some (first_char l)
  end.

Definition validate_collection_name `{SerdeNumber} (name : CollectionId) : result unit AxonError :=
  if String.prefix "__" name then Ok tt
  else
    let bytes := as_bytes name in
    match bytes with
    | [] => Err (InvalidArgument ("collection name '" +:+ name +:+ "' must be 1-128 characters"))
    | first :: rest =>
        if 128 <? length bytes
        then Err (InvalidArgument ("collection name '" +:+ name +:+ "' must be 1-128 characters"))
        else if negb ((97 <=? first) && (first <=? 122))%Z
        then Err (InvalidArgument ("collection name '" +:+ name +:+ "' must start with a lowercase letter"))
        else
          match invalid_char rest with
          | Some c => Err (InvalidArgument ("collection name '" +:+ name +:+ "' contains invalid character '" +:+ c +:+
              "'; only lowercase letters, digits, hyphens, and underscores are allowed"))
          | None => Ok tt
          end
    end.

Section Handler.
Context `{RuleEnv} `{TextFormat} `{ContentHasher} `{!TemplateEngine} `{!DebugText}.
Variable fuel depth : nat.
Variable reserved_payload : string -> string -> string.
Variable compile_entity_schema : Value -> result unit AxonError.
Variable compile_named_queries : CollectionSchema -> list CollectionSchema -> gmap string Z -> CompileReport.
Variable validate_entity : CollectionSchema -> Value -> result unit (list string).
Variable view_json : CollectionView -> Value.
Variable error_text : AxonError -> string.

Abbreviation Mem := MemoryStorageAdapter (only parsing).
Abbreviation MOp := (M Mem AxonError) (only parsing).

(** ** Checks of a schema *)

Definition policy_compile_report_for_schema (s : Mem) (schema : CollectionSchema)
    : result PolicyCompileReport AxonError :=
  let? schemas := policy_catalog_schemas fuel s schema in
  match compile_policy_catalog schemas with
  | Ok catalog => Ok (pc_report catalog)
  | Err err => Ok (from_compile_error err)
  | Panic => Panic
  end.

(** The schemas of the linked collections, each once. *)
Fixpoint linked_schemas (s : Mem) (seen : gset string) (link_types : list LinkTypeDef)
    : result (list CollectionSchema) AxonError :=
  match link_types with
  | [] => Ok []
  | link_type :: rest =>
      let target := lt_target_collection link_type in
      if bool_decide (target ∈ seen) then linked_schemas s seen rest
      else
        let? active := get_schema s target in
        let? others := linked_schemas s ({[target]} ∪ seen) rest in
        Ok (match active with Some schema => schema :: others | None => others end)
  end.

Definition count_or_zero (s : Mem) (collection : CollectionId) : nat :=
  match count s collection with Ok n => n | _ => 0 end.

Definition estimated_counts (s : Mem) (schemas : list CollectionSchema) : gmap string Z :=
  fold_left (fun counts active => <[cs_collection active := Z.of_nat (count_or_zero s (cs_collection active))]> counts)
    schemas ∅.

Definition compile_report_for_schema (s : Mem) (schema : CollectionSchema) : result CompileReport AxonError :=
  if bool_decide (cs_queries schema = ∅) then Ok {| rep_queries := [] |}
  else
    let? schemas := linked_schemas s {[cs_collection schema]} (map snd (map_to_list (cs_link_types schema))) in
    Ok (compile_named_queries schema schemas (estimated_counts s (schemas ++ [schema]))).

Definition rule_error_display (e : RuleDefinitionError) : string :=
  match rde_rule e with
  | Some name => "rule '" +:+ name +:+ "': " +:+ rde_message e
  | None => rde_message e
  end.

Definition query_compile_check (report : CompileReport) : result unit AxonError :=
  if negb (report_is_success report)
  then Err (SchemaValidation ("query_compile_failed: " +:+ query_compile_summary report)) else Ok tt.

Definition validate_schema_for_put (s : Mem) (schema : CollectionSchema) : result unit AxonError :=
  let? _ := match cs_entity_schema schema with Some v => compile_entity_schema v | None => Ok tt end in
  if existsb (fun idx => bool_decide (ix_field idx = "")) (cs_indexes schema)
  then Err (SchemaValidation "index declaration has an empty field path")
  else
    let rule_errors := match cs_validation_rules schema with
      | [] => [] | rules => validate_rule_definitions rules (cs_entity_schema schema) end in
    match rule_errors with
    | _ :: _ => Err (SchemaValidation ("invalid validation rules: " +:+ join_str "; " (map rule_error_display rule_errors)))
    | [] =>
        let? report := compile_report_for_schema s schema in
        query_compile_check report
    end.

(** ** Collections *)

Definition create_collection_inner (clock : nat -> Z) (req : CreateCollectionRequest) : MOp string :=
  let '(namespace, bare_name) := parse (cc_name req) in
  do! lift (validate_collection_name bare_name);
  if negb (bool_decide (cs_collection (cc_schema req) = cc_name req))
  then fail (InvalidArgument ("schema.collection '" +:+ cs_collection (cc_schema req) +:+
               "' does not match collection name '" +:+ cc_name req +:+ "'"))
  else
    do! reads (fun s => validate_schema_for_put s (cc_schema req));
    do registered <- reads (fun s => collection_registered_in_namespace s bare_name namespace);
    if registered : bool then fail (AlreadyExists (cc_name req))
    else
      do! commit_write_with_durable_audit (S := Mem) clock
            (do! register_collection_in_namespace bare_name namespace;
             put_schema (clock 0) (cc_schema req))
            (fun _ => audit_entry_new (cc_name req) "" 0 CollectionCreate None None (cc_request_actor req));
      ret (cc_name req).

Definition create_collection (clock : nat -> Z) (req : CreateCollectionRequest) : MOp string :=
  do! ensure_access reserved_payload (cc_name req) OP_SCHEMA;
  create_collection_inner clock req.

Definition ensure_collection_exists (s : Mem) (collection : CollectionId) : result unit AxonError :=
  let? qualified := resolve_catalog_key s collection in
  let? registered := collection_registered_in_namespace s (q_collection qualified) (q_namespace qualified) in
  if registered : bool then Ok tt else Err (NotFound collection).

(** The timestamps of the first and the last entry of the first page. *)
Definition collection_timestamps (s : Mem) (collection : CollectionId) : option Z * option Z :=
  let page := query_paginated (s_audit_log s) {|
    aq_database := None; aq_collection := Some collection; aq_collection_ids := []; aq_entity_id := None;
    aq_actor := None; aq_operation := None; aq_intent_id := None; aq_approval_id := None; aq_since_ns := None;
    aq_until_ns := None; aq_after_id := None; aq_limit := None |} in
  (option_map ae_timestamp_ns (head (ap_entries page)), option_map ae_timestamp_ns (list.last (ap_entries page))).

Definition collection_metadata_of (s : Mem) (name : CollectionId) : CollectionMetadata :=
  let '(created_at_ns, updated_at_ns) := collection_timestamps s name in
  {| cm_name := name; cm_entity_count := count_or_zero s name;
     cm_schema_version := match get_schema s name with Ok o => option_map cs_version o | _ => None end;
     cm_created_at_ns := created_at_ns; cm_updated_at_ns := updated_at_ns |}.

Definition handler_list_collections (s : Mem) : list CollectionMetadata :=
  map (collection_metadata_of s) (visible_collection_ids (list_collections s)).

Definition describe_collection (s : Mem) (name : CollectionId) : result DescribeCollectionResponse AxonError :=
  let? _ := ensure_generic_collection_access reserved_payload name OP_QUERY in
  let? _ := ensure_collection_exists s name in
  let? entity_count := count s name in
  let? schema := get_schema s name in
  let '(created_at_ns, updated_at_ns) := collection_timestamps s name in
  Ok {| dcl_name := name; dcl_entity_count := entity_count; dcl_schema := schema;
        dcl_created_at_ns := created_at_ns; dcl_updated_at_ns := updated_at_ns |}.

(** ** Schemas *)

(** [AxonHandler::put_schema] *)
Definition handler_put_schema (clock : nat -> Z) (schema : CollectionSchema) : MOp unit :=
  do! ensure_access reserved_payload (cs_collection schema) OP_SCHEMA;
  do! reads (fun s => validate_schema_for_put s schema);
  put_schema (clock 0) schema.

Definition compatibility_text (c : Compatibility) : string :=
  match c with Compatible => "compatible" | Breaking => "breaking" | MetadataOnly => "metadata_only" end.

Definition count_kind (kind : FieldChangeKind) (diff : SchemaDiff) : nat :=
  length (List.filter (fun c => bool_decide (fc_kind c = kind)) (sd_changes diff)).

Definition schema_audit_metadata (existing : option CollectionSchema) (schema : CollectionSchema) (diff : SchemaDiff)
    (compatibility : Compatibility) (report : PolicyCompileReport) : gmap string string :=
  let fields_added := count_kind ChAdded diff in
  let fields_removed := count_kind ChRemoved diff in
  let total := length (sd_changes diff) in
  let version_text (o : option Z) := match o with Some v => pretty v | None => "none" end in
  let policy_version (c : CollectionSchema) := option_map (fun _ => cs_version c) (cs_access_control c) in
  list_to_map [
    ("compatibility", compatibility_text compatibility);
    ("fields_added", pretty fields_added); ("fields_removed", pretty fields_removed);
    ("fields_modified", pretty (total - fields_added - fields_removed)%nat); ("total_changes", pretty total);
    ("old_schema_version", version_text (option_map cs_version existing));
    ("new_schema_version", pretty (cs_version schema));
    ("old_policy_version", version_text (existing ≫= policy_version));
    ("new_policy_version", version_text (policy_version schema));
    ("policy_nullable_fields", pretty (length (rep_nullable_fields report)));
    ("policy_denied_write_fields", pretty (length (rep_denied_write_fields report)));
    ("policy_envelopes", pretty (length (rep_envelope_summaries report)))].

Definition handle_put_schema_inner (clock : nat -> Z) (req : PutSchemaRequest) : MOp PutSchemaResponse :=
  let schema := pq_schema req in
  let collection := cs_collection schema in
  do existing <- reads (fun s => get_schema s collection);
  let diff := diff_schemas (existing ≫= cs_entity_schema) (cs_entity_schema schema) in
  let compatibility := classify diff in
  do policy_report <- reads (fun s => policy_compile_report_for_schema s schema);
  do report <- reads (fun s => compile_report_for_schema s schema);
  let response explanations dry_run := {|
    sr_schema := schema; sr_compatibility := Some compatibility; sr_diff := Some diff;
    sr_policy_compile_report := Some policy_report; sr_compile_report := Some report;
    sr_warnings := json_ld_reserved_field_warnings schema;
    sr_dry_run_explanations := explanations; sr_dry_run := dry_run |} in
  if pq_dry_run req then
    do explanations <- reads (fun s => dry_run_explanations_for_proposed fuel depth s schema policy_report
                                         (pq_explain_inputs req) (pq_actor req));
    ret (response explanations true)
  else
    match rep_errors policy_report with
    | _ :: _ =>
        fail (SchemaValidation ("policy_compile_failed: " +:+ join_str "; " (map dg_message (rep_errors policy_report))))
    | [] =>
        do! lift (query_compile_check report);
        if bool_decide (compatibility = Breaking) && negb (pq_force req)
        then fail (InvalidOperation ("schema change is breaking (" +:+ pretty (length (sd_changes diff)) +:+
               "). Use force=true to apply. Changes: " +:+ join_str "; " (map fc_description (sd_changes diff))))
        else
          do! reads (fun s => validate_schema_for_put s schema);
          do! commit_write_with_durable_audit (S := Mem) clock (put_schema (clock 0) schema) (fun _ =>
                with_metadata (schema_audit_metadata existing schema diff compatibility policy_report)
                  (audit_entry_new collection "" 0 SchemaUpdate None None (pq_actor req)));
          ret (response None false)
    end.

Definition handle_put_schema (clock : nat -> Z) (req : PutSchemaRequest) : MOp PutSchemaResponse :=
  do! ensure_access reserved_payload (cs_collection (pq_schema req)) OP_SCHEMA;
  handle_put_schema_inner clock req.
(** [ensure_governed_system_collection]: the capability names the collection. *)
Definition ensure_governed_system_collection (clock : nat -> Z) (name : CollectionId) (schema : CollectionSchema)
    (actor : option string) : MOp string :=
  let '(namespace, bare_name) := parse name in
  let schema := schema_with name (cs_version schema) schema in
  do registered <- reads (fun s => collection_registered_in_namespace s bare_name namespace);
  if registered : bool then
    do existing <- reads (fun s => get_schema s name);
    if match existing with Some e => (cs_version e <? cs_version schema)%Z | None => true end then
      do! handle_put_schema_inner clock {|
            pq_schema := schema; pq_actor := actor; pq_force := false; pq_dry_run := false; pq_explain_inputs := [] |};
      ret name
    else ret name
  else create_collection_inner clock {| cc_name := name; cc_schema := schema; cc_request_actor := actor |}.

Definition present_schema (requested : CollectionId) (schema : CollectionSchema) : CollectionSchema :=
  schema_with requested (cs_version schema) schema.

Definition handle_get_schema (s : Mem) (collection : CollectionId) : result CollectionSchema AxonError :=
  let? _ := ensure_generic_collection_access reserved_payload collection OP_SCHEMA in
  let? found := get_schema s collection in
  ok_or (option_map (present_schema collection) found)
    (NotFound ("schema for collection '" +:+ collection +:+ "'")).

Definition revalidate (s : Mem) (collection : CollectionId) : result RevalidateResponse AxonError :=
  let? _ := ensure_generic_collection_access reserved_payload collection OP_SCHEMA in
  let? found := get_schema s collection in
  let? schema := ok_or found (NotFound ("schema for collection '" +:+ collection +:+ "'")) in
  let? all := range_scan s collection None None None in
  let invalid := omap (fun e => match validate_entity schema (e_data e) with
    | Err errors => Some {| iv_id := e_id e; iv_version := e_version e; iv_errors := errors |}
    | _ => None
    end) all in
  Ok {| rvl_total_scanned := length all; rvl_valid_count := length all - length invalid; rvl_invalid := invalid |}.

Definition diff_schema_versions (s : Mem) (collection : CollectionId) (version_a version_b : Z)
    : result DiffSchemaResponse AxonError :=
  let? _ := ensure_generic_collection_access reserved_payload collection OP_SCHEMA in
  let missing (v : Z) := NotFound ("schema version " +:+ pretty v +:+ " for collection '" +:+ collection +:+ "'") in
  let? found_a := get_schema_version s collection version_a in
  let? schema_a := ok_or found_a (missing version_a) in
  let? found_b := get_schema_version s collection version_b in
  let? schema_b := ok_or found_b (missing version_b) in
  Ok {| dsr_version_a := version_a; dsr_version_b := version_b;
        dsr_diff := diff_schemas (cs_entity_schema schema_a) (cs_entity_schema schema_b) |}.

(** ** The handler with its template cache *)

Record AxonHandler : Type := { h_storage : Mem; h_cache : MarkdownTemplateCache }.
Abbreviation HOp := (M AxonHandler AxonError) (only parsing).

Definition on_storage {A} (m : MOp A) : HOp A := fun h =>
  let '(s, r) := m (h_storage h) in ({| h_storage := s; h_cache := h_cache h |}, r).
Definition on_cache (f : MarkdownTemplateCache -> MarkdownTemplateCache) : HOp unit := fun h =>
  ({| h_storage := h_storage h; h_cache := f (h_cache h) |}, Ok tt).

Definition handler_new (storage : Mem) : AxonHandler :=
  {| h_storage := storage; h_cache := cache_new DEFAULT_MARKDOWN_TEMPLATE_CACHE_CAPACITY |}.

Definition invalidate_markdown_template (collection : CollectionId) : HOp unit := on_cache (cache_remove collection).

(** A cached name is either bare, or spells its namespace out. *)
Definition doomed_template (collections : list QualifiedCollectionId) (name : CollectionId) : bool :=
  let '(namespace, bare) := parse name in
  if bool_decide (bare = name) then bool_decide (name ∈ map q_collection collections)
  else bool_decide (from_parts namespace bare ∈ collections).
Definition invalidate_markdown_templates_for_collections (collections : list QualifiedCollectionId) : HOp unit :=
  match collections with
  | [] => ret tt
  | _ => on_cache (cache_retain (fun name => negb (doomed_template collections name)))
  end.

Definition compiled_markdown_template (collection : CollectionId) (view : CollectionView) : HOp CompiledTemplate :=
  fun h =>
    match cache_get collection (cv_version view) (h_cache h) with
    | (cache, Some template) => ({| h_storage := h_storage h; h_cache := cache |}, Ok template)
    | (cache, None) =>
        match compile_template (cv_markdown_template view) with
        | Ok compiled =>
            ({| h_storage := h_storage h;
                h_cache := template_cache_insert collection {| ct_version := cv_version view; ct_template := compiled |} cache |},
             Ok compiled)
        | Err e => ({| h_storage := h_storage h; h_cache := cache |}, Err e)
        | Panic => ({| h_storage := h_storage h; h_cache := cache |}, Panic)
        end
    end.

(** *** Dropping *)

Fixpoint delete_rows (collection : CollectionId) (entities : list Entity) : MOp unit :=
  match entities with
  | [] => ret tt
  | e :: rest => do! delete_entity collection (e_id e); delete_rows collection rest
  end.

Definition drop_collection (clock : nat -> Z) (req : DropCollectionRequest) : HOp DropCollectionResponse :=
  if negb (dc_confirm req)
  then fail (InvalidArgument "drop_collection requires confirm=true to acknowledge the destructive operation")
  else
    do! on_storage (reads (fun s => ensure_collection_exists s (dc_name req)));
    let name := dc_name req in
    do (count, _) <- on_storage (commit_write_with_durable_audit (S := Mem) clock
      (do entities <- reads (fun s => range_scan s name None None None);
       do! delete_rows name entities;
       do! delete_schema name;
       do! delete_collection_view name;
       do! unregister_collection name;
       ret (length entities))
      (fun count => with_metadata {["entities_removed" := pretty (count : nat)]}
         (audit_entry_new name "" 0 CollectionDrop None None (dc_actor req))));
    do! invalidate_markdown_template name;
    ret {| dcr_name := name; dcr_entities_removed := count |}.

Definition collection_drop_audit_entries (collections : list CollectionId) : list AuditEntry :=
  map (fun c => audit_entry_new c "" 0 CollectionDrop None None None) collections.

Definition handler_create_namespace (ns : Namespace) : HOp unit := on_storage (create_namespace ns).
Definition handler_create_database (name : string) : HOp unit := on_storage (create_database name).

Definition handler_list_namespace_collections (s : Mem) (ns : Namespace) : result (list CollectionId) AxonError :=
  let? collections := list_namespace_collections s ns in
  Ok (List.filter (fun c => negb (is_reserved_collection c)) collections).

(** The answer is the number of collections removed. *)
Definition handler_drop_namespace (clock : nat -> Z) (req : DropNamespaceRequest) : HOp nat :=
  if bool_decide (dn_schema req = DEFAULT_SCHEMA)
  then fail (InvalidOperation ("schema '" +:+ dn_schema req +:+ "' cannot be dropped"))
  else
    let namespace := {| ns_database := dn_database req; ns_schema := dn_schema req |} in
    do collections <- on_storage (reads (fun s => list_namespace_collections s namespace));
    if (0 <? length collections) && negb (dn_force req)
    then fail (InvalidOperation ("namespace '" +:+ namespace_display namespace +:+ "' contains " +:+
           pretty (length collections) +:+ " collections: " +:+ join_str ", " (take 5 collections) +:+
           ". Use force=true to drop"))
    else
      do! on_storage (commit_write_with_durable_audit_entries (S := Mem) clock (drop_namespace namespace)
            (fun _ => Ok (collection_drop_audit_entries collections)));
      do! invalidate_markdown_templates_for_collections (map (from_parts namespace) collections);
      ret (length collections).

(** The collections of a database, with their keys. *)
Fixpoint database_collections (s : Mem) (database : string) (schemas : list string)
    : result (list (QualifiedCollectionId * CollectionId)) AxonError :=
  match schemas with
  | [] => Ok []
  | schema :: rest =>
      let namespace := {| ns_database := database; ns_schema := schema |} in
      let? collections := list_namespace_collections s namespace in
      let? others := database_collections s database rest in
      Ok (map (fun c => (from_parts namespace c, c)) collections ++ others)
  end.

Definition handler_drop_database (clock : nat -> Z) (req : DropDatabaseRequest) : HOp nat :=
  if bool_decide (dd_name req = DEFAULT_DATABASE)
  then fail (InvalidOperation ("database '" +:+ DEFAULT_DATABASE +:+ "' is implicit and cannot be dropped"))
  else
    do databases <- on_storage (gets list_databases);
    if negb (bool_decide (dd_name req ∈ databases)) then fail (NotFound ("database '" +:+ dd_name req +:+ "'"))
    else
      do schemas <- on_storage (reads (fun s => list_namespaces s (dd_name req)));
      do collections <- on_storage (reads (fun s => database_collections s (dd_name req) schemas));
      if (0 <? length collections) && negb (dd_force req)
      then fail (InvalidOperation ("database '" +:+ dd_name req +:+ "' contains " +:+
             pretty (length collections) +:+ " collections. Use force=true to drop"))
      else
        do! on_storage (commit_write_with_durable_audit_entries (S := Mem) clock (drop_database (dd_name req))
              (fun _ => Ok (collection_drop_audit_entries (map snd collections))));
        do! invalidate_markdown_templates_for_collections (map fst collections);
        ret (length collections).

(** *** Templates *)

Definition present_collection_view (requested : CollectionId) (view : CollectionView) : CollectionView := {|
  cv_collection := requested; cv_description := cv_description view;
  cv_markdown_template := cv_markdown_template view; cv_version := cv_version view;
  cv_updated_at_ns := cv_updated_at_ns view; cv_updated_by := cv_updated_by view |}.
Definition collection_view_audit_state (requested : CollectionId) (view : CollectionView) : Value :=
  view_json (present_collection_view requested view).

Definition put_collection_template (clock : nat -> Z) (req : PutCollectionTemplateRequest)
    : HOp PutCollectionTemplateResponse :=
  let collection := pt_collection req in
  do! on_storage (ensure_access (S := Mem) reserved_payload collection OP_TEMPLATE);
  do! on_storage (reads (fun s => ensure_collection_exists s collection));
  do before_view <- on_storage (reads (fun s => get_collection_view s collection));
  do! lift (compile_template (pt_template req));
  do schema <- on_storage (reads (fun s => get_schema s collection));
  let validation := validate_template (pt_template req) (schema ≫= cs_entity_schema) in
  if negb (template_is_valid validation)
  then fail (SchemaValidation (join_str "; " (map te_message (tv_errors validation))))
  else
    let view := {|
      cv_collection := collection; cv_description := None; cv_markdown_template := pt_template req; cv_version := 1;
      cv_updated_at_ns := None; cv_updated_by := pt_actor req |} in
    do (view, _) <- on_storage (commit_write_with_durable_audit_entries (S := Mem) clock
      (put_collection_view (clock 0) view)
      (fun view =>
         let presented := present_collection_view collection view in
         Ok [audit_entry_new collection "" (cv_version presented)
               (match before_view with Some _ => TemplateUpdate | None => TemplateCreate end)
               (option_map (collection_view_audit_state collection) before_view) (Some (view_json presented))
               (pt_actor req)]));
    do! invalidate_markdown_template collection;
    ret {| ptr_view := present_collection_view collection view; ptr_warnings := map tw_message (tv_warnings validation) |}.

Definition get_collection_template (s : Mem) (collection : CollectionId) : result CollectionView AxonError :=
  let? _ := ensure_generic_collection_access reserved_payload collection OP_TEMPLATE in
  let? _ := ensure_collection_exists s collection in
  let? found := get_collection_view s collection in
  let? view := ok_or found (NotFound ("collection '" +:+ collection +:+ "' has no markdown template defined")) in
  Ok (present_collection_view collection view).

Definition delete_collection_template (clock : nat -> Z) (req : DeleteCollectionTemplateRequest) : HOp string :=
  let collection := dt_collection req in
  do! on_storage (ensure_access (S := Mem) reserved_payload collection OP_TEMPLATE);
  do! on_storage (reads (fun s => ensure_collection_exists s collection));
  do before_view <- on_storage (reads (fun s => get_collection_view s collection));
  match before_view with
  | Some before =>
      do! on_storage (commit_write_with_durable_audit (S := Mem) clock (delete_collection_view collection) (fun _ =>
            audit_entry_new collection "" (cv_version before) TemplateDelete
              (Some (collection_view_audit_state collection before)) None (dt_actor req)));
      do! invalidate_markdown_template collection;
      ret collection
  | None =>
      do! on_storage (delete_collection_view collection);
      do! invalidate_markdown_template collection;
      ret collection
  end.

Definition get_entity_markdown_with_read_context (collection : CollectionId) (id : EntityId)
    (caller : option CallerIdentity) (attribution : option AuditAttribution) : HOp GetEntityMarkdownResponse :=
  do! on_storage (ensure_access (S := Mem) reserved_payload collection OP_ENTITY);
  do found <- on_storage (reads (fun s =>
       get_visible_entity_for_read_with_context fuel depth s collection id caller attribution));
  do entity <- lift (ok_or found (NotFound id));
  do entity <- on_storage (reads (fun s =>
       redact_entity_for_read_with_context fuel depth s collection entity caller attribution));
  do found_view <- on_storage (reads (fun s => get_collection_view s collection));
  do view <- lift (ok_or found_view
       (InvalidArgument ("collection '" +:+ collection +:+ "' has no markdown template defined")));
  fun h =>
    match compiled_markdown_template collection view h with
    | (h', Ok template) =>
        (h', Ok (Rendered (present_entity collection entity) (render_compiled entity template)))
    | (h', Err error) =>
        (h', Ok (RenderFailed (present_entity collection entity)
                   ("failed to render markdown for collection '" +:+ collection +:+ "': " +:+ error_text error)))
    | (h', Panic) => (h', Panic)
    end.
End Handler.

(** ** Schema changes and dropped collections

    What an accepted schema change does to the store, why documents stay valid
    under an unforced one, and what is left of a dropped collection. *)

(** ** The latest version *)

Section Sorted.
Context {A : Type} (key : A -> Z).

Lemma insert_by_key_sorted a l :
  StronglySorted (fun x y => key x <= key y)%Z l -> StronglySorted (fun x y => key x <= key y)%Z (insert_by_key key a l).
Proof.
  induction 1 as [|b r Hr IH Hb]; cbn [insert_by_key]; [by repeat constructor|].
  destruct (Z.leb_spec (key a) (key b)) as [Hle|Hlt].
  - constructor; [by constructor|]. constructor; [done|].
    eapply List.Forall_impl; [|exact Hb]. simpl. lia.
  - constructor; [done|]. rewrite List.Forall_forall in *. intros x Hx.
    assert (Hx' : x = a \/ In x r).
    { clear -Hx. induction r as [|c r IHr]; simpl in *; [naive_solver|]. destruct (_ <=? _)%Z; simpl in Hx; naive_solver. }
    destruct Hx' as [->|Hx']; [lia|by apply Hb].
Qed.

Lemma sort_by_key_le l : StronglySorted (fun x y => key x <= key y)%Z (sort_by_key key l).
Proof. induction l as [|a l IH]; simpl; [constructor|]. by apply insert_by_key_sorted. Qed.

Lemma sorted_last l a :
  StronglySorted (fun x y => key x <= key y)%Z l -> list.last l = Some a ->
  In a l /\ forall x, In x l -> (key x <= key a)%Z.
Proof.
  induction 1 as [|b r Hr IH Hb]; [done|]. destruct r as [|c r].
  - simpl. intros [= ->]. split; [by left|]. intros x [->|[]]. lia.
  - intros Hl. change (list.last (c :: r) = Some a) in Hl. destruct (IH Hl) as [Hin Hmax].
    split; [by right|]. intros x [<-|Hx]; [|by apply Hmax].
    rewrite List.Forall_forall in Hb. by apply Hb.
Qed.
End Sorted.

Section Versions.
Context `{SerdeNumber}.
Implicit Types versions : gmap Z (CollectionSchema * Z).

Lemma last_version_some versions v e :
  last_version versions = Some (v, e) ->
  versions !! v = Some e /\ forall w e', versions !! w = Some e' -> (w <= v)%Z.
Proof.
  unfold last_version. intros Hl. destruct (sorted_last fst _ _ (sort_by_key_le fst _) Hl) as [Hin Hmax].
  split.
  - by apply elem_of_map_to_list, list_elem_of_In, (sort_by_key_In fst).
  - intros w e' Hw. apply (Hmax (w, e')), sort_by_key_In, list_elem_of_In. by apply elem_of_map_to_list.
Qed.

Lemma last_version_none versions : last_version versions = None -> versions = ∅.
Proof.
  unfold last_version. intros Hl. apply map_to_list_empty_iff.
  apply last_None in Hl. apply length_zero_iff_nil. rewrite <- (sort_by_key_length fst). by rewrite Hl.
Qed.

(** A version above all others is the last one. *)
Lemma last_version_insert versions v e :
  (forall w e', versions !! w = Some e' -> (w < v)%Z) -> last_version (<[v := e]> versions) = Some (v, e).
Proof.
  intros Hlt. destruct (last_version (<[v := e]> versions)) as [[w e']|] eqn:Hl.
  - apply last_version_some in Hl as [Hw Hmax]. specialize (Hmax v e (lookup_insert_eq _ _ _)).
    destruct (decide (w = v)) as [->|Hne]; [rewrite lookup_insert_eq in Hw; congruence|].
    rewrite lookup_insert_ne in Hw by done. specialize (Hlt w e' Hw). lia.
  - apply last_version_none in Hl. by apply insert_non_empty in Hl.
Qed.

Definition next_version versions : Z :=
  match last_version versions with Some (v, _) => wrap32 (v + 1) | None => 1%Z end.

(** Versions are [u32]; the last one is not the greatest. *)
Definition room versions : Prop := forall v e, last_version versions = Some (v, e) -> (0 <= v < 2 ^ 32 - 1)%Z.

Lemma next_version_fresh versions :
  room versions -> forall w e, versions !! w = Some e -> (w < next_version versions)%Z.
Proof.
  intros Hroom w e Hw. unfold next_version. destruct (last_version versions) as [[v e']|] eqn:Hl.
  - specialize (Hroom v e' Hl). apply last_version_some in Hl as [_ Hmax]. specialize (Hmax w e Hw).
    unfold wrap32. rewrite Z.mod_small; lia.
  - apply last_version_none in Hl as ->. by rewrite lookup_empty in Hw.
Qed.
End Versions.

(** ** Storing a schema *)

Section Store.
Context `{RuleEnv} `{ContentHasher}.
Abbreviation Mem := MemoryStorageAdapter (only parsing).
Implicit Types s : Mem.

Definition versions_of s (c : CollectionId) : gmap Z (CollectionSchema * Z) :=
  match resolve_catalog_key s c with Ok key => default ∅ (s_schema_versions s !! key) | _ => ∅ end.

Lemma get_schema_versions s c key :
  resolve_catalog_key s c = Ok key ->
  get_schema s c = Ok (option_map (fun e => fst (snd e)) (last_version (versions_of s c))).
Proof.
  intros Hk. unfold get_schema, versions_of. rewrite Hk. simpl. by destruct (s_schema_versions s !! key).
Qed.

Lemma get_schema_version_versions s c key v :
  resolve_catalog_key s c = Ok key -> get_schema_version s c v = Ok (option_map fst (versions_of s c !! v)).
Proof.
  intros Hk. unfold get_schema_version, versions_of. rewrite Hk. simpl. by destruct (s_schema_versions s !! key).
Qed.

Lemma put_schema_rows now schema :
  row_write s_tx_snapshot (fun s => log_entries (s_audit_log s)) (put_schema now schema).
Proof. intros s. unfold put_schema, bind, reads. by destruct (resolve_catalog_key s _). Qed.

(** What storing a schema changes: one version more under one key. *)
Lemma put_schema_effect now schema s s' :
  put_schema now schema s = (s', Ok tt) ->
  exists key, resolve_catalog_key s (cs_collection schema) = Ok key /\
    s' = set_schema_versions (<[key :=
      <[next_version (versions_of s (cs_collection schema)) :=
          (schema_with (last_segment (cs_collection schema)) (next_version (versions_of s (cs_collection schema))) schema,
           timestamp_of now)]> (versions_of s (cs_collection schema))]> (s_schema_versions s)) s.
Proof.
  unfold put_schema. intros (key & Hk & Hr)%reads_inv. exists key. split; [done|].
  unfold modify in Hr. injection Hr as <-. unfold versions_of. by rewrite Hk.
Qed.
End Store.

(** ** Changing a schema *)

Section Change.
Context `{RuleEnv} `{TextFormat} `{ContentHasher} `{!SerdeNumberLaws} `{!DebugText} `{!SchemaVocabulary}.
Variable fuel depth : nat.
Variable reserved_payload : string -> string -> string.
Variable compile_entity_schema : Value -> result unit AxonError.
Variable compile_named_queries : CollectionSchema -> list CollectionSchema -> gmap string Z -> CompileReport.
Abbreviation Mem := MemoryStorageAdapter (only parsing).
Abbreviation put_request :=
  (handle_put_schema fuel depth reserved_payload compile_entity_schema compile_named_queries) (only parsing).

(** The difference that a request is judged by. *)
Definition requested_diff (existing : option CollectionSchema) (schema : CollectionSchema) : SchemaDiff :=
  diff_schemas (existing ≫= cs_entity_schema) (cs_entity_schema schema).

(** What an accepted request does to the store. *)
Record schema_changed (schema : CollectionSchema) (existing : option CollectionSchema) (s s' : Mem) : Prop := {
  sc_fresh : forall w e, versions_of s (cs_collection schema) !! w = Some e ->
    (w < next_version (versions_of s (cs_collection schema)))%Z;
  sc_latest : get_schema s' (cs_collection schema) =
    Ok (Some (schema_with (last_segment (cs_collection schema)) (next_version (versions_of s (cs_collection schema))) schema));
  sc_earlier : forall w, w <> next_version (versions_of s (cs_collection schema)) ->
    get_schema_version s' (cs_collection schema) w = get_schema_version s (cs_collection schema) w;
  sc_others : forall c key key', resolve_catalog_key s (cs_collection schema) = Ok key ->
    resolve_catalog_key s c = Ok key' -> key' <> key -> get_schema s' c = get_schema s c;
  sc_rows : s_data s' = s_data s;
  sc_logged : exists entry, log_entries (s_audit_log s') = log_entries (s_audit_log s) ++ [entry] /\
    ae_mutation entry = SchemaUpdate /\ ae_collection entry = cs_collection schema
}.

Lemma put_schema_changed now schema existing (s s2 : Mem) entry log :
  room (versions_of s (cs_collection schema)) ->
  put_schema now schema (set_tx_snapshot (Some (visible s)) s) = (s2, Ok tt) ->
  log_entries log = log_entries (s_audit_log s) ++ [entry] ->
  ae_mutation entry = SchemaUpdate -> ae_collection entry = cs_collection schema ->
  schema_changed schema existing s (set_tx_snapshot None (set_audit_log log s2)).
Proof.
  intros Hroom Hput Hlog Hm Hc. apply put_schema_effect in Hput as (key & Hkey & ->).
  change (resolve_catalog_key (set_tx_snapshot (Some (visible s)) s) (cs_collection schema))
    with (resolve_catalog_key s (cs_collection schema)) in Hkey.
  change (versions_of (set_tx_snapshot (Some (visible s)) s)) with (versions_of s).
  set (v := next_version _). set (e := (schema_with _ v schema, _)).
  set (s' := set_tx_snapshot None _).
  assert (Hkey' : resolve_catalog_key s' (cs_collection schema) = Ok key) by exact Hkey.
  assert (Hvs : versions_of s' (cs_collection schema) = <[v := e]> (versions_of s (cs_collection schema))).
  { unfold versions_of at 1. rewrite Hkey'. cbn [s' s_schema_versions set_tx_snapshot set_audit_log set_schema_versions].
    by rewrite lookup_insert_eq. }
  constructor.
  - by apply next_version_fresh.
  - rewrite (get_schema_versions _ _ _ Hkey'), Hvs, last_version_insert; [done|]. by apply next_version_fresh.
  - intros w Hw. rewrite (get_schema_version_versions _ _ _ w Hkey'), (get_schema_version_versions _ _ _ w Hkey), Hvs.
    by rewrite lookup_insert_ne.
  - intros c k k' Hk Hk' Hne. rewrite Hkey in Hk. injection Hk as <-. unfold get_schema.
    rewrite (Hk' : resolve_catalog_key s' c = Ok k'), Hk'.
    cbn [result_bind s' s_schema_versions set_tx_snapshot set_audit_log set_schema_versions].
    by rewrite lookup_insert_ne.
  - done.
  - eauto.
Qed.

(** The steps of an accepted request. *)
Lemma put_inner_ok clock req (s s' : Mem) resp :
  handle_put_schema_inner fuel depth compile_entity_schema compile_named_queries clock req s = (s', Ok resp) ->
  exists existing report, get_schema s (cs_collection (pq_schema req)) = Ok existing /\
    policy_compile_report_for_schema fuel s (pq_schema req) = Ok report /\
    sr_compatibility resp = Some (classify (requested_diff existing (pq_schema req))) /\
    sr_dry_run resp = pq_dry_run req /\
    if pq_dry_run req then s' = s
    else rep_errors report = [] /\
      (classify (requested_diff existing (pq_schema req)) = Breaking -> pq_force req = true) /\
      exists r metadata, commit_write_with_durable_audit (S := Mem) clock (put_schema (clock 0) (pq_schema req))
        (fun _ => with_metadata metadata (audit_entry_new (cs_collection (pq_schema req)) "" 0 SchemaUpdate None None
                    (pq_actor req))) s = (s', Ok r).
Proof.
  intros Hr. unfold handle_put_schema_inner in Hr.
  apply reads_inv in Hr as (existing & Hex & Hr). apply reads_inv in Hr as (report & Hrep & Hr).
  apply reads_inv in Hr as (queries & _ & Hr). exists existing, report. fold (requested_diff existing (pq_schema req)) in *.
  destruct (pq_dry_run req).
  - apply reads_inv in Hr as (explanations & _ & Hr). injection Hr as <- <-. done.
  - destruct (rep_errors report); [|done]. apply lift_ok in Hr as ([] & _ & Hr).
    destruct (bool_decide (classify (requested_diff existing (pq_schema req)) = Breaking) && negb (pq_force req)) eqn:Hb; [done|].
    apply reads_inv in Hr as ([] & _ & Hr). apply bind_ok in Hr as (s1 & r & Hw & Hr). injection Hr as -> <-.
    split_and!; try done; [|by eauto].
    intros Hbr. rewrite bool_decide_eq_true_2 in Hb by done. by destruct (pq_force req).
Qed.

Lemma put_request_ok clock req (s s' : Mem) resp :
  put_request clock req s = (s', Ok resp) ->
  handle_put_schema_inner fuel depth compile_entity_schema compile_named_queries clock req s = (s', Ok resp).
Proof.
  unfold handle_put_schema. intros Hr. apply bind_ok in Hr as (s0 & [] & Ha & Hr).
  unfold ensure_access, lift in Ha. by injection Ha as -> _.
Qed.

Lemma put_inner_atomic clock req :
  atomic (S := Mem) (handle_put_schema_inner fuel depth compile_entity_schema compile_named_queries clock req).
Proof.
  unfold handle_put_schema_inner. do 3 (apply atomic_bind; [intros s0; repeat keeps_step|intro]). cbv zeta.
  destruct (pq_dry_run req); [apply atomic_read_only; intros s0; repeat keeps_step|].
  destruct (rep_errors _); [|apply atomic_read_only; intros s0; repeat keeps_step].
  apply atomic_bind; [intros s0; repeat keeps_step|intro].
  destruct (_ && _); [apply atomic_read_only; intros s0; repeat keeps_step|].
  apply atomic_bind; [intros s0; repeat keeps_step|intro].
  apply atomic_bind_total; [apply durable_atomic, put_schema_rows|by intros [] ?; eexists].
Qed.

Lemma put_request_atomic clock req : atomic (S := Mem) (put_request clock req).
Proof. unfold handle_put_schema. apply atomic_bind; [apply ensure_access_read_only|intros _; apply put_inner_atomic]. Qed.

(** C26. A request to change a schema, on an idle store in which the latest
    schema version of the collection, if there is one, is below 2^32 - 1: an
    accepted one has no policy error and is forced when the change is breaking, and then the schema
    is the latest one under a version above all earlier ones, the earlier
    versions, the schemas of other collections and all rows are as before, and
    the log gains one entry of a schema update; documents of a collection that
    satisfied the compared keywords of the former schema, with string
    enumerations and no field that only the new schema declares, satisfy those of
    the latest schema unless the change was forced.  A dry run changes nothing,
    and a refused request leaves everything visible as it was. *)
Theorem schema_change_exact (clock : nat -> Z) (req : PutSchemaRequest) (s s' : Mem)
    (r : result PutSchemaResponse AxonError)
    (Hidle : s_tx_snapshot s = None)
    (Hroom : room (versions_of s (cs_collection (pq_schema req))))
    (Hrun : put_request clock req s = (s', r)) :
  match r with
  | Ok resp =>
      exists existing report, get_schema s (cs_collection (pq_schema req)) = Ok existing /\
        policy_compile_report_for_schema fuel s (pq_schema req) = Ok report /\
        sr_compatibility resp = Some (classify (requested_diff existing (pq_schema req))) /\
        sr_dry_run resp = pq_dry_run req /\
        if pq_dry_run req then s' = s
        else rep_errors report = [] /\
          (sr_compatibility resp = Some Breaking -> pq_force req = true) /\
          schema_changed (pq_schema req) existing s s' /\
          forall former latest old doc, existing = Some former -> cs_entity_schema former = Some old ->
            get_schema s' (cs_collection (pq_schema req)) = Ok (Some latest) ->
            pq_force req = false -> string_enums old = true ->
            schema_accepts old doc = true ->
            forall new, cs_entity_schema latest = Some new -> no_new_property old new doc = true ->
              schema_accepts new doc = true
  | Err _ => visible s' = visible s
  | Panic => True
  end.
Proof.
  destruct r as [resp|e|]; [|exact (proj1 (memory_restores _ s s' e (put_request_atomic clock req) Hidle Hrun))|done].
  apply put_request_ok, put_inner_ok in Hrun as (existing & report & Hex & Hrep & Hcomp & Hdry & Hrun).
  exists existing, report. split_and!; try done. destruct (pq_dry_run req); [done|].
  destruct Hrun as (Herr & Hforce & [u entry] & metadata & Hw).
  assert (Hch : schema_changed (pq_schema req) existing s s').
  { apply durable_run_rows in Hw as (s2 & log & Hput & -> & Hlog & id & ts & ->); [|done|apply put_schema_rows].
    destruct u. by eapply put_schema_changed. }
  split_and!; try done.
  - rewrite Hcomp. intros [= Hb]. by apply Hforce.
  - intros former latest old doc -> Hold Hlatest Hunforced Henums Hvalid new Hnew Hfields.
    rewrite (sc_latest _ _ _ _ Hch) in Hlatest. injection Hlatest as <-. cbn [schema_with cs_entity_schema] in Hnew.
    apply (object_sound old new doc); [|done..]. unfold requested_diff in Hforce. simpl in Hforce.
    rewrite Hold, Hnew in Hforce. intros Hb. by rewrite (Hforce Hb) in Hunforced.
Qed.
End Change.
