(* ===== verification/AuditReads.v ===== *)
(** * Reads of the audit log ([crates/axon-api/src/handler.rs], [policy.rs], [response.rs])

    Audit queries for applications and administrators, the redaction of the
    entries that are returned under the read policies, the redaction of mutation
    intents, and the view of credentials.

    [AuditSerde] is derived code that reads intents and review summaries back from
    JSON; [parse_grants] reads the stored grants of a credential. *)

From S2P Require Import Prelude Json Ids Types IndexKeys Intents AuditLog.
From S2P Require Import Schema PolicyPlan PolicyCompile Rules Gates JsonOps AuthStore Roles Storage Catalog.
From S2P Require Import PolicyEval PolicyDecide PolicyEnforce Interface Transactions Requests.
From S2P Require Import IntentCanon IntentService EntityWrites EntityReads Queries.
Local Open Scope axon_scope.

Definition OP_AUDIT : string := "audit".
Definition OP_INTENT : string := "intent".
Definition HANDLER_AUDIT_DEFAULT_PAGE_SIZE : nat := 100.

(** ** Requests, callers and responses *)

Record QueryAuditRequest : Type := {
  qa_database : option string;
  qa_collection : option CollectionId;
  qa_collection_ids : list CollectionId;
  qa_entity_id : option EntityId;
  qa_actor : option string;
  qa_operation : option string;
  qa_intent_id : option string;
  qa_approval_id : option string;
  qa_since_ns : option Z;
  qa_until_ns : option Z;
  qa_after_id : option Z;
  qa_limit : option nat
}.

Record QuerySystemAuditRequest : Type := {
  qs_tenant_id : string;
  qs_database : string;
  qs_query : QueryAuditRequest
}.

Record QueryAuthAuditRequest : Type := { qh_tenant_id : string; qh_user_id : option string }.

Record AdministrativeAuditCaller : Type := {
  ac_user_id : string;
  ac_tenant_id : string;
  ac_tenant_role : option TenantRole;
  ac_grants : Grants;
  ac_deployment_admin : bool
}.

#[export] Instance TenantRole_eq_dec : EqDecision TenantRole.
Proof. solve_decision. Defined.

Inductive SystemAuditAuthorization : Type := AuthTenantAdmin | AuthDeploymentAdmin.

Definition authorize_system_audit_query (caller : option AdministrativeAuditCaller) (tenant_id database : string)
    : result SystemAuditAuthorization AuthError :=
  let? caller := ok_or caller Unauthenticated in
  if ac_deployment_admin caller then Ok AuthDeploymentAdmin
  else if negb (bool_decide (ac_tenant_id caller = tenant_id)) then Err CredentialWrongTenant
  else if negb (bool_decide (ac_tenant_role caller = Some TenantAdmin)) then Err OpNotGranted
  else
    let? database_grant := ok_or (find_database (ac_grants caller) database) DatabaseNotGranted in
    if negb (has_op database_grant GrantAdmin) then Err OpNotGranted else Ok AuthTenantAdmin.

(** [?] with the conversion of the error. *)
Definition convert_err {A E E'} (f : E -> E') (r : result A E) : result A E' :=
  match r with Ok a => Ok a | Err e => Err (f e) | Panic => Panic end.

(** ** Credentials *)

Record AuthAuditGrantRedactionV1 : Type := { ag_database : string; ag_ops : list string }.

Record AuthAuditRedactionV1 : Type := {
  aa_jti : string;
  aa_user_id : string;
  aa_tenant_id : string;
  aa_issued_at_ms : Z;
  aa_expires_at_ms : Z;
  aa_revoked : bool;
  aa_grants : list AuthAuditGrantRedactionV1
}.

Definition redact_auth_audit_op (op : GrantOp) : string :=
  match op with GrantRead => "read" | GrantWrite => "write" | GrantAdmin => "admin" end.

Section Credentials.
Variable parse_grants : string -> option Grants.

Definition redact_auth_audit_grants (grants_json : string) : list AuthAuditGrantRedactionV1 :=
  match parse_grants grants_json with
  | None => []
  | Some grants =>
      map (fun grant => {| ag_database := gdb_name grant; ag_ops := map redact_auth_audit_op (gdb_ops grant) |})
        (gr_databases grants)
  end.

Definition auth_audit_redaction (m : CredentialMetadata) : AuthAuditRedactionV1 := {|
  aa_jti := cm_jti m; aa_user_id := cm_user_id m; aa_tenant_id := cm_tenant_id m;
  aa_issued_at_ms := cm_issued_at_ms m; aa_expires_at_ms := cm_expires_at_ms m; aa_revoked := cm_revoked m;
  aa_grants := redact_auth_audit_grants (cm_grants_json m) |}.

Definition query_auth_audit `{UuidText} (a : AuthStore) (req : QueryAuthAuditRequest) : list AuthAuditRedactionV1 :=
  map auth_audit_redaction (list_credentials a (qh_tenant_id req) (qh_user_id req)).
End Credentials.

(** ** Pages of the log *)

(** The operations a request can name. *)
Definition audit_operations : list (string * MutationType) := [
  ("entity.create", EntityCreate); ("entity.update", EntityUpdate); ("entity.delete", EntityDelete);
  ("entity.revert", EntityRevert); ("link.create", LinkCreate); ("link.delete", LinkDelete);
  ("collection.create", CollectionCreate); ("collection.drop", CollectionDrop);
  ("template.create", TemplateCreate); ("template.update", TemplateUpdate); ("template.delete", TemplateDelete);
  ("schema.update", SchemaUpdate); ("mutation_intent.preview", IntentPreview); ("intent.preview", IntentPreview);
  ("intent.approve", IntentApprove); ("intent.reject", IntentReject); ("intent.expire", IntentExpire);
  ("intent.commit", IntentCommit)].

Section Pages.
Context `{SerdeNumber}.

Inductive SystemAuditQueryError : Type :=
| SysAuth (e : AuthError)
| SysQuery (e : AxonError).

Definition audit_operation_filter (operation : option string) : result (option MutationType) AxonError :=
  match operation with
  | None => Ok None
  | Some name =>
      match assoc_get name audit_operations with
      | Some m => Ok (Some m)
      | None => Err (InvalidOperation ("unknown operation type: " +:+ name))
      end
  end.

Definition ensure_manifest_system_collection (collection : CollectionId)
    : result unit AxonError :=
  if is_reserved_collection collection then Ok tt
  else Err (InvalidArgument ("collection '" +:+ collection +:+ "' is not an Axon system collection")).

Record QueryAuditResponse : Type := { qar_entries : list AuditEntry; qar_next_cursor : option Z }.

Definition system_audit_entries (entries : list AuditEntry) : list AuditEntry :=
  List.filter (fun e => is_reserved_collection (ae_collection e)) entries.

Definition visible_audit_page (entries : list AuditEntry) (limit : nat) : AuditPage :=
  let entries := sort_by_key ae_id (visible_audit_entries entries) in
  let has_more := (limit <? length entries)%nat in
  let entries := take limit entries in
  {| ap_entries := entries;
     ap_next_cursor := if has_more then option_map ae_id (list.last entries) else None |}.

Definition system_audit_page (entries : list AuditEntry) (limit : nat) : AuditPage :=
  let entries := sort_by_key ae_id (system_audit_entries entries) in
  let has_more := (limit <? length entries)%nat in
  let entries := take limit entries in
  {| ap_entries := entries;
     ap_next_cursor := if has_more then option_map ae_id (list.last entries) else None |}.

(** The query of a request.  [usize::MAX] bounds the length of every vector;
    [bound], the length of the log, does the same here. *)
Definition audit_query_of (bound : nat) (database : option string) (operation : option MutationType)
    (req : QueryAuditRequest) : AuditQuery := {|
  aq_database := database; aq_collection := qa_collection req; aq_collection_ids := qa_collection_ids req;
  aq_entity_id := qa_entity_id req; aq_actor := qa_actor req; aq_operation := operation;
  aq_intent_id := qa_intent_id req; aq_approval_id := qa_approval_id req; aq_since_ns := qa_since_ns req;
  aq_until_ns := qa_until_ns req; aq_after_id := qa_after_id req; aq_limit := Some bound |}.

Fixpoint ensure_manifest_system_collections (collections : list CollectionId)
    : result unit AxonError :=
  match collections with
  | [] => Ok tt
  | c :: rest =>
      let? _ := ensure_manifest_system_collection c in
      ensure_manifest_system_collections rest
  end.

Definition query_system_audit (log : MemoryAuditLog) (req : QuerySystemAuditRequest)
    (caller : option AdministrativeAuditCaller) : result QueryAuditResponse SystemAuditQueryError :=
  let? _ := convert_err SysAuth (authorize_system_audit_query caller (qs_tenant_id req) (qs_database req)) in
  let query := qs_query req in
  let? _ := match qa_collection query with
            | Some c => convert_err SysQuery (ensure_manifest_system_collection c)
            | None => Ok tt
            end in
  let? _ := convert_err SysQuery (ensure_manifest_system_collections (qa_collection_ids query)) in
  let requested_limit := default HANDLER_AUDIT_DEFAULT_PAGE_SIZE (qa_limit query) in
  let? operation := convert_err SysQuery (audit_operation_filter (qa_operation query)) in
  let q := audit_query_of (length (log_entries log)) (Some (qs_database req)) operation query in
  let page := system_audit_page (ap_entries (query_paginated log q)) requested_limit in
  Ok {| qar_entries := ap_entries page; qar_next_cursor := ap_next_cursor page |}.
End Pages.

(** ** Redaction of diffs *)

Section Diffs.
Context `{SerdeNumber}.

(** [value.get_mut(key)] and a write through it. *)
Definition value_update (key : string) (f : Value -> Value) (v : Value) : Value :=
  match v with
  | Object fields =>
      match assoc_get key fields with
      | Some x => Object (map_insert key (f x) fields)
      | None => v
      end
  | _ => v
  end.

Definition redact_field_diff (rest : list string) (redaction : Value) (d : FieldDiff) : FieldDiff :=
  match rest with
  | [] => {| fd_before := Some redaction; fd_after := Some redaction |}
  | _ => {| fd_before := redact_json_segments rest redaction <$> fd_before d;
            fd_after := redact_json_segments rest redaction <$> fd_after d |}
  end.

Definition apply_diff_redaction (diff : gmap string FieldDiff) (r : string * Value) : gmap string FieldDiff :=
  match split_on dot (fst r) with
  | [] => diff
  | first :: rest =>
      let first := default first (str_strip_suffix "[]" first) in
      match diff !! first with
      | None => diff
      | Some d => <[first := redact_field_diff rest (snd r) d]> diff
      end
  end.

Definition apply_diff_redactions (diff : gmap string FieldDiff) (redactions : list (string * Value))
    : gmap string FieldDiff :=
  fold_left apply_diff_redaction redactions diff.

(** [serde_json] of [Option<Value>] and of [FieldDiff]: null and a missing
    field are [None]; a struct is an object or the array of its fields. *)
Definition optional_of_value (v : Value) : option Value := if is_null v then None else Some v.

Definition field_diff_of_value (v : Value) : option FieldDiff :=
  match v with
  | Object fields =>
      Some {| fd_before := assoc_get "before" fields ≫= optional_of_value;
              fd_after := assoc_get "after" fields ≫= optional_of_value |}
  | Array [b; a] => Some {| fd_before := optional_of_value b; fd_after := optional_of_value a |}
  | _ => None
  end.

Definition field_diff_to_value (d : FieldDiff) : Value :=
  Object (match fd_after d with Some a => [("after", a)] | None => [] end ++
          match fd_before d with Some b => [("before", b)] | None => [] end).

(** [HashMap<String, FieldDiff>] *)
Definition diff_of_value (v : Value) : option (gmap string FieldDiff) :=
  match v with
  | Object fields =>
      (fun l => list_to_map l) <$> mapM (fun e => (fun d => (fst e, d)) <$> field_diff_of_value (snd e)) fields
  | _ => None
  end.

Definition diff_to_value (m : gmap string FieldDiff) : Value :=
  Object (fold_left (fun acc e => map_insert (fst e) (field_diff_to_value (snd e)) acc) (map_to_list m) []).

Definition apply_diff_value_redactions (diff : Value) (redactions : list (string * Value)) : Value :=
  match redactions with
  | [] => diff
  | _ =>
      match diff_of_value diff with
      | None => diff
      | Some diff_map => diff_to_value (apply_diff_redactions diff_map redactions)
      end
  end.

Definition apply_review_summary_diff_redactions (diff : Value) (redactions : list (string * Value)) : Value :=
  match diff with
  | Array entries =>
      Array (map (value_update "diff" (fun child => apply_diff_value_redactions child redactions)) entries)
  | _ => apply_diff_value_redactions diff redactions
  end.

(** ** Operations of intents *)

Definition intent_operation_entity_ref (operation : Value) : option (CollectionId * EntityId) :=
  match value_get operation "collection" ≫= as_str, value_get operation "id" ≫= as_str with
  | Some collection, Some id => Some (collection, id)
  | _, _ => None
  end.

Definition transaction_child_operation_kind (operation : Value) : option MutationOperationKind :=
  name ← value_get operation "op" ≫= as_str;
  assoc_get name [
    ("create_entity", CreateEntity); ("update_entity", UpdateEntity); ("delete_entity", DeleteEntity);
    ("patch_entity", PatchEntity); ("transition", Transition); ("rollback", Rollback); ("revert", Revert);
    ("create_link", CreateLink); ("delete_link", DeleteLink); ("transaction", TransactionOp)].

(** [as_u64] of the index, which is compared with a position in a vector. *)
Definition child_diff_matches (operation_index : nat) (entry : Value) : bool :=
  match value_get entry "operationIndex" ≫= as_i64 with
  | Some index => bool_decide (index = Z.of_nat operation_index)
  | None => false
  end.

(** [transaction_child_diff_mut]: the diff of the child, and the writing back. *)
Definition transaction_child_diff (diff : Value) (operation_index : nat) : option Value :=
  match diff with
  | Array entries =>
      match List.find (child_diff_matches operation_index) entries with
      | Some entry => value_get entry "diff"
      | None => None
      end
  | _ => None
  end.

Fixpoint update_first {A} (p : A -> bool) (f : A -> A) (l : list A) : list A :=
  match l with
  | [] => []
  | a :: l' => if p a then f a :: l' else a :: update_first p f l'
  end.

Definition set_transaction_child_diff (diff : Value) (operation_index : nat) (child_diff : Value) : Value :=
  match diff with
  | Array entries =>
      Array (update_first (child_diff_matches operation_index) (value_update "diff" (fun _ => child_diff)) entries)
  | _ => diff
  end.

Section Access.
Variable reserved_payload : string -> string -> string.

Definition ensure_generic_intent_operation_access (operation : Value) : result unit AxonError :=
  ensure_generic_collection_accesses reserved_payload
    (omap (fun key => value_get operation key ≫= as_str) ["collection"; "source_collection"; "target_collection"])
    OP_INTENT.

Fixpoint ensure_generic_intent_operation_kind_access (operation : Value) (operation_kind : MutationOperationKind)
    {struct operation} : result unit AxonError :=
  let child_access child :=
    match transaction_child_operation_kind child with
    | Some child_kind => ensure_generic_intent_operation_kind_access child child_kind
    | None => ensure_generic_intent_operation_access child
    end in
  match operation_kind with
  | TransactionOp =>
      match operation with
      | Object fields =>
          (fix in_fields (l : list (string * Value)) : result unit AxonError :=
             match l with
             | [] => ensure_generic_intent_operation_access operation
             | (key, v) :: l' =>
                 if bool_decide (key = "operations") then
                   match v with
                   | Array operations =>
                       (fix children (l : list Value) : result unit AxonError :=
                          match l with
                          | [] => Ok tt
                          | child :: l' => let? _ := child_access child in children l'
                          end) operations
                   | _ => ensure_generic_intent_operation_access operation
                   end
                 else in_fields l'
             end) fields
      | _ => ensure_generic_intent_operation_access operation
      end
  | _ => ensure_generic_intent_operation_access operation
  end.

Definition ensure_generic_mutation_intent_access (intent : MutationIntent) : result unit AxonError :=
  let? operation := ok_or (canonical_operation (mi_operation intent))
    (InvalidArgument "mutation intent preview requires canonical_operation for namespace validation") in
  ensure_generic_intent_operation_kind_access operation (operation_kind (mi_operation intent)).
End Access.
End Diffs.

(** ** Redaction under the read policies *)

(** Derived [Deserialize]. *)
Class AuditSerde `{SerdeNumber} : Type := {
  intent_of_value : Value -> option MutationIntent;
  summary_of_value : Value -> option MutationReviewSummary
}.

Section Redaction.
Context `{SerdeNumber} {S : Type} `{!StorageReads S} `{!IntentSerde} `{!AuditSerde}.
Variable fuel depth : nat.
Variable reserved_payload : string -> string -> string.
Variable caller : option CallerIdentity.
Variable attribution : option AuditAttribution.

Definition field_read_redactions_for_data (s : S) (collection : CollectionId) (id : EntityId) (data : Value)
    : result (list (string * Value)) AxonError :=
  let? compiled := read_plan fuel s collection caller attribution in
  match compiled with
  | Some (plan, snapshot) =>
      field_read_redactions fuel s None depth plan snapshot (policy_data_with_entity_id id data)
  | None => Ok []
  end.

(** [option.map(f).transpose()?.unwrap_or_default()] *)
Definition redactions_of (f : Value -> result (list (string * Value)) AxonError) (data : option Value)
    : result (list (string * Value)) AxonError :=
  match data with Some data => f data | None => Ok [] end.

Record IntentEntityRedaction : Type := {
  ir_collection : CollectionId;
  ir_id : EntityId;
  ir_before : option Value;
  ir_after : option Value
}.

(** [operation_key] is the field of the operation that is redacted in place. *)
Definition redact_entity_intent_values_for_read (s : S) (input : IntentEntityRedaction)
    (operation_key : option string) (operation : Value) (diff : option Value)
    : result (Value * option Value) AxonError :=
  let redactions := redactions_of (field_read_redactions_for_data s (ir_collection input) (ir_id input)) in
  let? before_redactions := redactions (ir_before input) in
  let? after_redactions := redactions (ir_after input) in
  let operation :=
    match operation_key with
    | Some key => value_update key (fun data => apply_existing_field_redactions data after_redactions) operation
    | None => operation
    end in
  let diff := (fun d => apply_diff_value_redactions (apply_diff_value_redactions d before_redactions)
                          after_redactions) <$> diff in
  Ok (operation, diff).

Definition stored_data (s : S) (collection : CollectionId) (id : EntityId) : result (option Value) AxonError :=
  let? found := sr_get s collection id in
  Ok (e_data <$> found).

(** The document a transition leads to; assigning into anything but an object
    or null panics. *)
Definition transition_after (s : S) (collection : CollectionId) (operation before : Value)
    : result Value AxonError :=
  match value_get operation "lifecycle_name" ≫= as_str, value_get operation "target_state" with
  | Some lifecycle_name, Some target_state =>
      match sr_get_schema s collection with
      | Ok (Some schema) =>
          match cs_lifecycles schema !! lifecycle_name with
          | Some lifecycle => value_index_assign before (lc_field lifecycle) target_state
          | None => Ok before
          end
      | Panic => Panic
      | _ => Ok before
      end
  | _, _ => Ok before
  end.

Definition result_option_map {A B E} (f : A -> result B E) (o : option A) : result (option B) E :=
  match o with Some a => let? b := f a in Ok (Some b) | None => Ok None end.

(** The match on the kind of an operation that is not a transaction. *)
Definition redact_single_operation_for_read (s : S) (operation_kind : MutationOperationKind) (operation : Value)
    (diff : option Value) : result (Value * option Value) AxonError :=
  let? _ := ensure_generic_intent_operation_access reserved_payload operation in
  match intent_operation_entity_ref operation with
  | None => Ok (operation, diff)
  | Some (collection, id) =>
      let redact before after key :=
        redact_entity_intent_values_for_read s
          {| ir_collection := collection; ir_id := id; ir_before := before; ir_after := after |} key operation diff in
      match operation_kind with
      | CreateEntity => redact None (value_get operation "data") (Some "data")
      | UpdateEntity =>
          let? before := stored_data s collection id in
          redact before (value_get operation "data") (Some "data")
      | PatchEntity =>
          let? before := stored_data s collection id in
          let after := (fun before =>
            match value_get operation "patch" with
            | Some patch => json_merge_patch before patch
            | None => before
            end) <$> before in
          redact before after (Some "patch")
      | DeleteEntity =>
          let? before := stored_data s collection id in
          redact before None None
      | Transition =>
          let? before := stored_data s collection id in
          let? after := result_option_map (transition_after s collection operation) before in
          redact before after None
      | Rollback | Revert => redact None None (Some "data")
      | CreateLink | DeleteLink | TransactionOp => Ok (operation, diff)
      end
  end.

(** [redact_intent_operation_for_read] and, in the case of a transaction,
    [redact_transaction_intent_operation_for_read], by recursion on the operation. *)
Fixpoint redact_intent_operation_for_read (s : S) (operation : Value) (operation_kind : MutationOperationKind)
    (diff : option Value) {struct operation} : result (Value * option Value) AxonError :=
  match operation_kind with
  | TransactionOp =>
      match operation with
      | Object fields =>
          let? (fields, diff) :=
            (fix in_fields (l : list (string * Value)) : result (list (string * Value) * option Value) AxonError :=
               match l with
               | [] => Ok ([], diff)
               | (key, v) :: l' =>
                   if bool_decide (key = "operations") then
                     match v with
                     | Array operations =>
                         let? (operations, diff) :=
                           (fix children (index : nat) (diff : option Value) (l : list Value)
                              : result (list Value * option Value) AxonError :=
                              match l with
                              | [] => Ok ([], diff)
                              | child :: l' =>
                                  let? (child, diff) :=
                                    match transaction_child_operation_kind child with
                                    | None => Ok (child, diff)
                                    | Some child_kind =>
                                        let child_diff := diff ≫= fun d => transaction_child_diff d index in
                                        let? (child, child_diff) :=
                                          redact_intent_operation_for_read s child child_kind child_diff in
                                        Ok (child,
                                            match diff, child_diff with
                                            | Some d, Some cd => Some (set_transaction_child_diff d index cd)
                                            | _, _ => diff
                                            end)
                                    end in
                                  let? (rest, diff) := children (index + 1) diff l' in
                                  Ok (child :: rest, diff)
                              end) 0 diff operations in
                         Ok ((key, Array operations) :: l', diff)
                     | _ => Ok (l, diff)
                     end
                   else
                     let? (rest, diff) := in_fields l' in
                     Ok ((key, v) :: rest, diff)
               end) fields in
          Ok (Object fields, diff)
      | _ => Ok (operation, diff)
      end
  | _ => redact_single_operation_for_read s operation_kind operation diff
  end.

(** Assignments to the fields of an intent, a summary and an entry. *)
Definition set_summary_diff (diff : Value) (r : MutationReviewSummary) : MutationReviewSummary := {|
  rs_title := rs_title r; rs_summary := rs_summary r; rs_risk := rs_risk r;
  rs_affected_records := rs_affected_records r; rs_affected_fields := rs_affected_fields r; rs_diff := diff;
  rs_policy_explanation := rs_policy_explanation r |}.

Definition set_reviewed_operation (operation : Value) (diff : Value) (i : MutationIntent) : MutationIntent := {|
  intent_id := intent_id i; mi_scope := mi_scope i; mi_subject := mi_subject i;
  mi_schema_version := mi_schema_version i; mi_policy_version := mi_policy_version i;
  mi_operation := {| operation_kind := operation_kind (mi_operation i);
                     operation_hash := operation_hash (mi_operation i);
                     canonical_operation := Some operation |};
  mi_pre_images := mi_pre_images i; mi_decision := mi_decision i; mi_approval_state := mi_approval_state i;
  mi_approval_route := mi_approval_route i; mi_expires_at := mi_expires_at i;
  mi_review_summary := set_summary_diff diff (mi_review_summary i) |}.

Definition set_entry_data (before after : option Value) (diff : option (gmap string FieldDiff)) (e : AuditEntry)
    : AuditEntry := {|
  ae_id := ae_id e; ae_timestamp_ns := ae_timestamp_ns e; ae_collection := ae_collection e;
  ae_entity_id := ae_entity_id e; ae_version := ae_version e; ae_mutation := ae_mutation e;
  ae_data_before := before; ae_data_after := after; ae_diff := diff; ae_actor := ae_actor e;
  ae_metadata := ae_metadata e; ae_transaction_id := ae_transaction_id e; ae_attribution := ae_attribution e;
  ae_intent_lineage := ae_intent_lineage e |}.

Definition redact_mutation_intent_for_read_with_context (s : S) (intent : MutationIntent)
    : result MutationIntent AxonError :=
  match canonical_operation (mi_operation intent) with
  | None => Ok intent
  | Some operation =>
      let? (operation, diff) :=
        redact_intent_operation_for_read s operation (operation_kind (mi_operation intent))
          (Some (rs_diff (mi_review_summary intent))) in
      Ok (set_reviewed_operation operation (default Null diff) intent)
  end.

Fixpoint redact_summary_for_records (s : S) (records : list PreImageBinding) (diff : Value)
    : result Value AxonError :=
  match records with
  | [] => Ok diff
  | PreImageLink _ _ _ :: rest => redact_summary_for_records s rest diff
  | PreImageEntity collection id _ :: rest =>
      let? _ := ensure_generic_collection_access reserved_payload collection OP_INTENT in
      let? found := sr_get s collection id in
      match found with
      | None => redact_summary_for_records s rest diff
      | Some entity =>
          let? redactions := field_read_redactions_for_data s collection id (e_data entity) in
          redact_summary_for_records s rest (apply_review_summary_diff_redactions diff redactions)
      end
  end.

Definition redact_preview_audit_review_summary_for_read (s : S) (entry : AuditEntry) : result AuditEntry AxonError :=
  match ae_data_after entry ≫= summary_of_value with
  | None => Ok entry
  | Some summary =>
      let? diff := redact_summary_for_records s (rs_affected_records summary) (rs_diff summary) in
      Ok (set_entry_data (ae_data_before entry) (Some (summary_value (set_summary_diff diff summary)))
            (ae_diff entry) entry)
  end.

Definition redact_intent_payload (s : S) (payload : Value) : result Value AxonError :=
  match intent_of_value payload with
  | None => Ok payload
  | Some intent =>
      let? intent := redact_mutation_intent_for_read_with_context s intent in
      Ok (intent_value intent)
  end.

Definition is_intent_mutation (m : MutationType) : bool :=
  match m with
  | IntentPreview | IntentApprove | IntentReject | IntentExpire | IntentCommit => true
  | _ => false
  end.

Definition redact_intent_audit_payload_for_read (s : S) (entry : AuditEntry) : result AuditEntry AxonError :=
  if negb (is_intent_mutation (ae_mutation entry)) then Ok entry
  else
    let? entry :=
      match ae_mutation entry with
      | IntentPreview => redact_preview_audit_review_summary_for_read s entry
      | _ => Ok entry
      end in
    let? before := result_option_map (redact_intent_payload s) (ae_data_before entry) in
    let? after := result_option_map (redact_intent_payload s) (ae_data_after entry) in
    Ok (set_entry_data before after (ae_diff entry) entry).

Definition redact_audit_entry_for_read_with_context (s : S) (entry : AuditEntry) : result AuditEntry AxonError :=
  let? entry := redact_intent_audit_payload_for_read s entry in
  let? compiled := read_plan fuel s (ae_collection entry) caller attribution in
  match compiled with
  | None => Ok entry
  | Some (plan, snapshot) =>
      let redactions := redactions_of (fun data =>
        field_read_redactions fuel s None depth plan snapshot
          (policy_data_with_entity_id (ae_entity_id entry) data)) in
      let? before_redactions := redactions (ae_data_before entry) in
      let? after_redactions := redactions (ae_data_after entry) in
      Ok (set_entry_data
            ((fun d => apply_field_redactions d before_redactions) <$> ae_data_before entry)
            ((fun d => apply_field_redactions d after_redactions) <$> ae_data_after entry)
            ((fun d => apply_diff_redactions (apply_diff_redactions d before_redactions) after_redactions)
               <$> ae_diff entry)
            entry)
  end.

(** ** The application's audit query *)

Definition query_audit_with_read_context (s : S) (log : MemoryAuditLog) (req : QueryAuditRequest)
    : result QueryAuditResponse AxonError :=
  let? _ := match qa_collection req with
            | Some c => ensure_generic_collection_access reserved_payload c OP_AUDIT
            | None => Ok tt
            end in
  let? _ := ensure_generic_collection_accesses reserved_payload (qa_collection_ids req) OP_AUDIT in
  let? operation := audit_operation_filter (qa_operation req) in
  let requested_limit := default HANDLER_AUDIT_DEFAULT_PAGE_SIZE (qa_limit req) in
  let q := audit_query_of (length (log_entries log)) (qa_database req) operation req in
  let page := visible_audit_page (ap_entries (query_paginated log q)) requested_limit in
  let? entries := result_map (redact_audit_entry_for_read_with_context s) (ap_entries page) in
  Ok {| qar_entries := entries; qar_next_cursor := ap_next_cursor page |}.
End Redaction.

(** [query_audit] and [query_audit_with_caller] on the in-memory adapter, whose
    own audit log is read. *)
Definition query_audit `{SerdeNumber} `{!IntentSerde} `{!AuditSerde} (fuel depth : nat)
    (reserved_payload : string -> string -> string) (s : MemoryStorageAdapter) (req : QueryAuditRequest)
    : result QueryAuditResponse AxonError :=
  query_audit_with_read_context fuel depth reserved_payload None None s (s_audit_log s) req.

Definition query_audit_with_caller `{SerdeNumber} `{!IntentSerde} `{!AuditSerde} (fuel depth : nat)
    (reserved_payload : string -> string -> string) (s : MemoryStorageAdapter) (req : QueryAuditRequest)
    (caller : CallerIdentity) (attribution : option AuditAttribution) : result QueryAuditResponse AxonError :=
  query_audit_with_read_context fuel depth reserved_payload (Some caller) attribution s (s_audit_log s) req.

Definition redact_mutation_intent_for_read `{SerdeNumber} `{!IntentSerde} `{!AuditSerde} (fuel depth : nat)
    (reserved_payload : string -> string -> string) (s : MemoryStorageAdapter) (intent : MutationIntent)
    (caller : CallerIdentity) (attribution : option AuditAttribution) : result MutationIntent AxonError :=
  redact_mutation_intent_for_read_with_context fuel depth reserved_payload (Some caller) attribution s intent.
