(* ===== verification/AuditReadProofs.v ===== *)
(** * What reads of the audit log show

    Pages of the application's audit query, and the redaction of documents and
    diffs: no value at a redacted path survives, in any order of the redactions. *)

From S2P Require Import Prelude Json Ids Types IndexKeys Intents AuditLog.
From S2P Require Import Schema PolicyPlan PolicyCompile Rules Gates JsonOps AuthStore Roles Storage Catalog.
From S2P Require Import PolicyEval PolicyDecide PolicyEnforce Interface Transactions Requests.
From S2P Require Import IntentCanon IntentService EntityWrites EntityReads Queries AuditReads.
Local Open Scope axon_scope.

(** ** Hidden paths *)

Section Hidden.
Context `{SerdeNumber}.

Definition is_scalar (v : Value) : bool := match v with Array _ | Object _ => false | _ => true end.

(** The field a segment leads to. *)
Definition segment_field (segment : string) : string := default segment (str_strip_suffix "[]" segment).

Section Values.
Variable R : list Value.

(** Everything under [segments] is a redaction value, and stays so when other
    paths are redacted: a plain segment of an object is present. *)
Fixpoint hidden (segments : list string) (v : Value) : Prop :=
  match segments with
  | [] => In v R
  | segment :: rest =>
      match v with
      | Object fields =>
          match str_strip_suffix "[]" segment with
          | Some field =>
              match assoc_get field fields with
              | Some (Array items) => Forall (hidden rest) items
              | _ => True
              end
          | None => exists x, assoc_get segment fields = Some x /\ hidden rest x
          end
      | _ => True
      end
  end.

Hypothesis scalars : Forall (fun v => is_scalar v = true) R.

Lemma scalar_in r : In r R -> is_scalar r = true.
Proof. intros Hr. exact (proj1 (List.Forall_forall _ _) scalars r Hr). Qed.

Lemma redact_array segment rest r items :
  redact_json_segments (segment :: rest) r (Array items) = Array (map (redact_json_segments (segment :: rest) r) items).
Proof. done. Qed.

Lemma redact_scalar segments r v : is_scalar v = true -> redact_json_segments segments r v = v.
Proof. by destruct segments, v. Qed.

Lemma redact_shape segments r v :
  match v with
  | Array items => exists items', redact_json_segments segments r v = Array items' /\
                     (segments = [] /\ items' = items \/ items' = map (redact_json_segments segments r) items)
  | Object _ => exists fields, redact_json_segments segments r v = Object fields
  | _ => redact_json_segments segments r v = v
  end.
Proof.
  destruct segments as [|segment rest].
  - destruct v; eauto 6.
  - destruct v as [| | | |items|fields]; try done.
    + exists (map (redact_json_segments (segment :: rest) r) items). auto.
    + cbn [redact_json_segments]. destruct (str_strip_suffix "[]" segment) as [f|]; case_bool_decide; eauto.
      destruct (assoc_get f fields) as [[]|]; eauto.
Qed.

Lemma hidden_scalar segments r : In r R -> hidden segments r.
Proof. intros Hr. destruct segments; [done|]. apply scalar_in in Hr. by destruct r. Qed.

(** What is hidden at a path is only redaction values. *)
Lemma hidden_values segments : forall v, hidden segments v ->
  Forall (fun x => In x R) (collect_policy_values_at_path segments v).
Proof.
  induction segments as [|segment rest IH]; intros v Hv; [by repeat constructor|].
  cbn [collect_policy_values_at_path hidden] in *.
  destruct v as [| | | | |fields]; destruct (str_strip_suffix "[]" segment) as [f|]; simpl; try by constructor.
  - destruct (assoc_get f fields) as [[| | | |items|]|]; simpl; try by constructor.
    induction Hv as [|x l Hx _ IHl]; simpl; [constructor|]. apply Forall_app. split; [by apply IH|done].
  - destruct Hv as (x & -> & Hx). by apply IH.
Qed.

(** Redacting a path hides it. *)
Lemma redact_hides segments r : segments <> [] -> In r R ->
  forall v, hidden segments (redact_json_segments segments r v).
Proof.
  intros Hne Hr. revert Hne. induction segments as [|segment rest IH]; [done|]. intros _ v.
  destruct v as [| | | | |fields]; try done. cbn [redact_json_segments].
  destruct (str_strip_suffix "[]" segment) as [f|] eqn:Es; case_bool_decide as Hrest; cbn [hidden]; rewrite ?Es.
  - rewrite assoc_get_insert_eq. pose proof (scalar_in r Hr). by destruct r.
  - destruct (assoc_get f fields) as [[| | | |items|]|] eqn:Ef; cbn [hidden]; rewrite ?Es, ?Ef; try done.
    rewrite assoc_get_insert_eq. apply Forall_map, List.Forall_forall. intros x _. by apply IH.
  - exists r. rewrite assoc_get_insert_eq. split; [done|]. by apply hidden_scalar.
  - eexists. rewrite assoc_get_insert_eq. split; [done|]. by apply IH.
Qed.
(** How redacting an object changes the field it leads to. *)
Definition field_redacted (path : list string) (r : Value) (old new : option Value) : Prop :=
  new = Some r \/ new = old \/
  (exists x, old = Some x /\ new = Some (redact_json_segments path r x)) \/
  (old = None /\ exists o, new = Some (Object o)).

Lemma redact_object q path r fields :
  exists fields', redact_json_segments (q :: path) r (Object fields) = Object fields' /\
    forall k, assoc_get k fields' = assoc_get k fields \/
              field_redacted path r (assoc_get k fields) (assoc_get k fields').
Proof.
  assert (Hins : forall f x, field_redacted path r (assoc_get f fields) (Some x) ->
    exists fields', Object (map_insert f x fields) = Object fields' /\
    forall k, assoc_get k fields' = assoc_get k fields \/
              field_redacted path r (assoc_get k fields) (assoc_get k fields')).
  { intros f x Hx. eexists. split; [done|]. intros k. destruct (decide (k = f)) as [->|Hne].
    - right. by rewrite assoc_get_insert_eq.
    - left. by apply assoc_get_insert_ne. }
  cbn [redact_json_segments]. destruct (str_strip_suffix "[]" q) as [f|]; case_bool_decide as Hp.
  - apply Hins. by left.
  - destruct (assoc_get f fields) as [[| | | |items|]|] eqn:Ef; eauto.
    apply Hins. rewrite Ef. right; right; left. eexists. split; [done|]. by destruct path.
  - apply Hins. by left.
  - apply Hins. destruct (assoc_get q fields) as [x|] eqn:Eq; simpl; [right; right; left; eauto|].
    right; right; right. split; [done|]. destruct (redact_shape path r (Object [])) as [o ->]. eauto.
Qed.

(** Redacting any path keeps what is hidden hidden. *)
Lemma hidden_redact segments : forall path r v, In r R ->
  hidden segments v -> hidden segments (redact_json_segments path r v).
Proof.
  induction segments as [|segment rest IH]; intros path r v Hr Hv.
  { cbn [hidden] in *. by rewrite redact_scalar by by apply scalar_in. }
  destruct path as [|q path]; [done|].
  destruct v as [| | | | |fields]; try done.
  destruct (redact_object q path r fields) as (fields' & -> & Hk). cbn [hidden] in *.
  destruct (str_strip_suffix "[]" segment) as [f|].
  - destruct (Hk f) as [-> |[-> |[-> |[(x & Ex & ->)|(Ef & o & ->)]]]]; try done.
    + apply scalar_in in Hr. by destruct r.
    + rewrite Ex in Hv. pose proof (redact_shape path r x) as Hs.
      destruct x as [| | | |items|]; rewrite ?Hs; try done; [|by destruct Hs as [? ->]].
      destruct Hs as (items' & -> & [[_ ->]| ->]); [done|].
      apply Forall_map. eapply List.Forall_impl; [|exact Hv]. intros y. by apply IH.
  - destruct Hv as (x & Ex & Hx). destruct (Hk segment) as [-> |[-> |[-> |[(y & Ey & ->)|(Ef & o & ->)]]]]; eauto.
    + exists r. split; [done|]. by apply hidden_scalar.
    + exists (redact_json_segments path r y). split; [done|]. apply IH; [done|]. congruence.
    + congruence.
Qed.

(** Whatever the order, every path that is redacted ends up hidden. *)
Lemma apply_redactions_keep rs : forall v segments, Forall (fun e => In (snd e) R) rs ->
  hidden segments v -> hidden segments (apply_field_redactions v rs).
Proof.
  induction rs as [|[p r] rs IH]; intros v segments Hrs Hv; [done|].
  inversion Hrs; subst. cbn. apply IH; [done|]. by apply hidden_redact.
Qed.

Lemma apply_redactions_hide rs : forall v path r, Forall (fun e => In (snd e) R) rs -> In (path, r) rs ->
  hidden (split_on dot path) (apply_field_redactions v rs).
Proof.
  induction rs as [|[p r'] rs IH]; intros v path r Hrs Hin; [done|].
  inversion Hrs; subst. cbn. destruct Hin as [[= -> ->]|Hin]; [|by eapply IH].
  apply apply_redactions_keep; [done|]. apply redact_hides; [apply split_on_nonempty|done].
Qed.
(** *** Diffs *)

(** [v], a side of the difference of a field, shows nothing of a path. *)
Definition side_hidden (segments : list string) (field : string) (v : Value) : Prop :=
  match segments with
  | [] => False
  | segment :: rest =>
      segment_field segment = field ->
      match str_strip_suffix "[]" segment with
      | Some _ => match v with Array items => Forall (hidden rest) items | _ => True end
      | None => hidden rest v
      end
  end.

Definition diff_hidden (segments : list string) (diff : gmap string FieldDiff) : Prop :=
  forall field d v, diff !! field = Some d -> fd_before d = Some v \/ fd_after d = Some v ->
    side_hidden segments field v.

Lemma side_values segments field v : side_hidden segments field v ->
  Forall (fun x => In x R) (collect_policy_values_at_path segments (Object [(field, v)])).
Proof.
  destruct segments as [|segment rest]; [done|]. cbn [side_hidden collect_policy_values_at_path value_get assoc_get].
  unfold segment_field. destruct (str_strip_suffix "[]" segment) as [f|]; simpl; case_decide as Hf;
    try by constructor.
  - intros Hv. specialize (Hv Hf). destruct v as [| | | |items|]; simpl; try by constructor.
    induction Hv as [|x l Hx _ IHl]; simpl; [constructor|].
    apply Forall_app. split; [by apply hidden_values|done].
  - intros Hv. by apply hidden_values, Hv.
Qed.

Lemma side_scalar segments field r : segments <> [] -> In r R -> side_hidden segments field r.
Proof.
  intros Hne Hr. destruct segments as [|segment rest]; [done|]. intros _.
  destruct (str_strip_suffix "[]" segment); [|by apply hidden_scalar]. apply scalar_in in Hr. by destruct r.
Qed.

Lemma side_keep segments field path r v : In r R -> side_hidden segments field v ->
  side_hidden segments field (redact_json_segments path r v).
Proof.
  intros Hr. destruct segments as [|segment rest]; [done|]. intros Hv Hf. specialize (Hv Hf).
  destruct (str_strip_suffix "[]" segment); [|by apply hidden_redact].
  pose proof (redact_shape path r v) as Hs. destruct v as [| | | |items|]; rewrite ?Hs; try done;
    [|by destruct Hs as [? ->]].
  destruct Hs as (items' & -> & [[_ ->]| ->]); [done|].
  apply Forall_map. eapply List.Forall_impl; [|exact Hv]. intros y. by apply hidden_redact.
Qed.

(** The difference of a field after one redaction, side by side. *)
Lemma redact_field_diff_side rest r d v :
  fd_before (redact_field_diff rest r d) = Some v \/ fd_after (redact_field_diff rest r d) = Some v ->
  v = r \/ (rest <> [] /\ exists old, (fd_before d = Some old \/ fd_after d = Some old) /\
            v = redact_json_segments rest r old).
Proof.
  destruct rest as [|seg rest]; [simpl; intros [[= ->]|[= ->]]; by left|].
  cbn [redact_field_diff fd_before fd_after].
  intros [(old & Eo & ->)%fmap_Some|(old & Eo & ->)%fmap_Some]; right; eauto.
Qed.

Lemma diff_redaction_keep segments diff path r : segments <> [] -> In r R ->
  diff_hidden segments diff -> diff_hidden segments (apply_diff_redaction diff (path, r)).
Proof.
  intros Hne Hr Hd. unfold apply_diff_redaction. simpl.
  destruct (split_on dot path) as [|q rest]; [done|].
  fold (segment_field q). destruct (diff !! segment_field q) as [d|] eqn:Ed; [|done].
  intros field d' v Hlook Hv. destruct (decide (field = segment_field q)) as [->|Hf].
  2:{ rewrite lookup_insert_ne in Hlook by done. by eapply Hd. }
  rewrite lookup_insert_eq in Hlook. injection Hlook as <-.
  apply redact_field_diff_side in Hv as [-> |(_ & old & Ho & ->)]; [by apply side_scalar|].
  apply side_keep; [done|]. by eapply Hd.
Qed.

Lemma diff_redaction_hide diff path r : In r R ->
  diff_hidden (split_on dot path) (apply_diff_redaction diff (path, r)).
Proof.
  intros Hr. unfold apply_diff_redaction. simpl. pose proof (split_on_nonempty dot path) as Hne.
  destruct (split_on dot path) as [|q rest]; [done|]. fold (segment_field q).
  destruct (diff !! segment_field q) as [d|] eqn:Ed.
  2:{ intros field d v Hl _ Hf. congruence. }
  intros field d' v Hlook Hv Hf. subst field. rewrite lookup_insert_eq in Hlook. injection Hlook as <-.
  apply redact_field_diff_side in Hv as [-> |(Hrest & old & Ho & ->)].
  { by apply (side_scalar (q :: rest) (segment_field q) r). }
  destruct (str_strip_suffix "[]" q); [|by apply redact_hides].
  pose proof (redact_shape rest r old) as Hs. destruct old as [| | | |items|]; rewrite ?Hs; try done;
    [|by destruct Hs as [? ->]].
  destruct Hs as (items' & -> & [[? _]| ->]); [done|].
  apply Forall_map, List.Forall_forall. intros y _. by apply redact_hides.
Qed.

Lemma diff_redactions_keep rs : forall diff segments, segments <> [] -> Forall (fun e => In (snd e) R) rs ->
  diff_hidden segments diff -> diff_hidden segments (apply_diff_redactions diff rs).
Proof.
  induction rs as [|[p r] rs IH]; intros diff segments Hne Hrs Hd; [done|].
  inversion Hrs; subst. cbn. apply IH; [done..|]. by apply diff_redaction_keep.
Qed.

Lemma diff_redactions_hide rs : forall diff path r, Forall (fun e => In (snd e) R) rs -> In (path, r) rs ->
  diff_hidden (split_on dot path) (apply_diff_redactions diff rs).
Proof.
  induction rs as [|[p r'] rs IH]; intros diff path r Hrs Hin; [done|].
  inversion Hrs; subst. cbn. destruct Hin as [[= -> ->]|Hin]; [|by eapply IH].
  apply diff_redactions_keep; [apply split_on_nonempty|done|]. by apply diff_redaction_hide.
Qed.
End Values.

(** Only redaction values of [rs] are left at the paths of [rs]. *)
Definition shows_only (rs : list (string * Value)) (values : list Value) (doc : Value) : Prop :=
  forall path r, In (path, r) rs -> Forall (fun x => In x values) (policy_values_at_path doc path).

Definition scalar_values (rs : list (string * Value)) : Prop := Forall (fun v => is_scalar v = true) (map snd rs).

Lemma in_values (rs : list (string * Value)) : Forall (fun e => In (snd e) (map snd rs)) rs.
Proof. apply List.Forall_forall. intros e He. by apply in_map. Qed.

Lemma document_shows rs doc : scalar_values rs -> shows_only rs (map snd rs) (apply_field_redactions doc rs).
Proof.
  intros Hs path r Hin. apply hidden_values. eapply apply_redactions_hide; [exact Hs|apply in_values|exact Hin].
Qed.

Lemma diff_shows rb ra diff field d v : scalar_values (rb ++ ra) ->
  apply_diff_redactions (apply_diff_redactions diff rb) ra !! field = Some d ->
  fd_before d = Some v \/ fd_after d = Some v ->
  shows_only (rb ++ ra) (map snd (rb ++ ra)) (Object [(field, v)]).
Proof.
  intros Hs Hd Hv path r Hin. apply side_values. unfold apply_diff_redactions in Hd.
  rewrite <-fold_left_app in Hd.
  eapply (diff_redactions_hide (map snd (rb ++ ra)) Hs (rb ++ ra) diff path r); [apply in_values|done|exact Hd|done].
Qed.
End Hidden.

(** ** The application's audit query *)

Section Reads.
Context `{SerdeNumber} {S : Type} `{!StorageReads S} `{!IntentSerde} `{!AuditSerde}.
Variable fuel depth : nat.
Variable reserved_payload : string -> string -> string.
Variable caller : option CallerIdentity.
Variable attribution : option AuditAttribution.

(** [e'] is what the caller sees of the entry [e]: it differs in its documents
    only; without a read policy, and for entries of entities, it is [e] itself,
    otherwise the documents and the difference lack what the policy redacts. *)
Definition entry_view (s : S) (e e' : AuditEntry) : Prop :=
  e' = set_entry_data (ae_data_before e') (ae_data_after e') (ae_diff e') e /\
  (is_intent_mutation (ae_mutation e) = false ->
   exists compiled, read_plan fuel s (ae_collection e) caller attribution = Ok compiled /\
   match compiled with
   | None => e' = e
   | Some (plan, snapshot) =>
       let redactions := redactions_of (fun data =>
         field_read_redactions fuel s None depth plan snapshot (policy_data_with_entity_id (ae_entity_id e) data)) in
       exists before after,
         redactions (ae_data_before e) = Ok before /\ redactions (ae_data_after e) = Ok after /\
         ae_data_before e' = (fun d => apply_field_redactions d before) <$> ae_data_before e /\
         ae_data_after e' = (fun d => apply_field_redactions d after) <$> ae_data_after e /\
         (scalar_values (before ++ after) ->
          (forall doc, ae_data_before e' = Some doc -> shows_only before (map snd before) doc) /\
          (forall doc, ae_data_after e' = Some doc -> shows_only after (map snd after) doc) /\
          (forall diff field d v, ae_diff e' = Some diff -> diff !! field = Some d ->
             fd_before d = Some v \/ fd_after d = Some v ->
             shows_only (before ++ after) (map snd (before ++ after)) (Object [(field, v)])))
   end).

Lemma scalar_values_app rs rs' : scalar_values (rs ++ rs') -> scalar_values rs /\ scalar_values rs'.
Proof. unfold scalar_values. rewrite map_app. by intros ?%Forall_app. Qed.

Lemma intent_payload_skipped (s : S) e : is_intent_mutation (ae_mutation e) = false ->
  redact_intent_audit_payload_for_read fuel depth reserved_payload caller attribution s e = Ok e.
Proof. intros Hm. unfold redact_intent_audit_payload_for_read. by rewrite Hm. Qed.

Lemma set_entry_data_self b a d b' a' d' e :
  set_entry_data b a d (set_entry_data b' a' d' e) = set_entry_data b a d e.
Proof. done. Qed.

(** The redaction of payloads and documents touches the documents only. *)
Definition same_but_data (e e' : AuditEntry) : Prop :=
  e' = set_entry_data (ae_data_before e') (ae_data_after e') (ae_diff e') e.

Lemma same_but_data_trans e1 e2 e3 : same_but_data e1 e2 -> same_but_data e2 e3 -> same_but_data e1 e3.
Proof. unfold same_but_data. intros -> ->. done. Qed.

Lemma same_but_data_refl e : same_but_data e e.
Proof. by destruct e. Qed.

Lemma intent_payload_same s e e' :
  redact_intent_audit_payload_for_read fuel depth reserved_payload caller attribution s e = Ok e' ->
  same_but_data e e'.
Proof.
  unfold redact_intent_audit_payload_for_read. destruct (negb _); [intros [= <-]; apply same_but_data_refl|].
  intros (e1 & He1 & (b & _ & (a & _ & [= <-])%result_bind_ok)%result_bind_ok)%result_bind_ok.
  apply same_but_data_trans with e1; [|done].
  destruct (ae_mutation e); try by injection He1 as <-; apply same_but_data_refl.
  unfold redact_preview_audit_review_summary_for_read in He1.
  destruct (ae_data_after e ≫= summary_of_value); [|injection He1 as <-; apply same_but_data_refl].
  by apply result_bind_ok in He1 as (d & _ & [= <-]).
Qed.

Lemma entry_view_exact s e e' :
  redact_audit_entry_for_read_with_context fuel depth reserved_payload caller attribution s e = Ok e' ->
  entry_view s e e'.
Proof.
  unfold redact_audit_entry_for_read_with_context.
  intros (e1 & He1 & (compiled & Hc & Hr)%result_bind_ok)%result_bind_ok.
  pose proof (intent_payload_same _ _ _ He1) as Hsame. split.
  - apply same_but_data_trans with e1; [done|].
    destruct compiled as [[plan snapshot]|]; [|injection Hr as <-; apply same_but_data_refl].
    by apply result_bind_ok in Hr as (rb & _ & (ra & _ & [= <-])%result_bind_ok).
  - intros Hm. rewrite (intent_payload_skipped s e Hm) in He1. injection He1 as <-.
    exists compiled. split; [done|]. destruct compiled as [[plan snapshot]|]; [|by injection Hr as <-].
    apply result_bind_ok in Hr as (rb & Hb & (ra & Ha & [= <-])%result_bind_ok).
    exists rb, ra. do 2 (split; [done|]). split; [done|]. split; [done|]. intros Hs.
    pose proof (scalar_values_app _ _ Hs) as [Hsb Hsa]. cbn [set_entry_data ae_data_before ae_data_after ae_diff].
    split; [|split].
    + intros doc (d & _ & ->)%fmap_Some. by apply document_shows.
    + intros doc (d & _ & ->)%fmap_Some. by apply document_shows.
    + intros diff field d v (df & _ & ->)%fmap_Some. by apply diff_shows.
Qed.

Lemma result_map_forall2 {A B E} (f : A -> result B E) l : forall l', result_map f l = Ok l' ->
  Forall2 (fun a b => f a = Ok b) l l'.
Proof.
  induction l as [|a l IH]; cbn; [intros ? [= <-]; constructor|].
  intros l' (b & Hb & (bs & Hbs & [= <-])%result_bind_ok)%result_bind_ok. constructor; [done|]. by apply IH.
Qed.

Lemma query_page_all (log : MemoryAuditLog) database operation req :
  log_wf log ->
  ap_entries (query_paginated log (audit_query_of (length (log_entries log)) database operation req)) =
  selected log (audit_query_of (length (log_entries log)) database operation req) (default 0%Z (qa_after_id req)).
Proof.
  intros Hwf. set (q := audit_query_of _ _ _ _).
  change q with (query_after (qa_after_id req) q) at 1. rewrite query_paginated_page by done.
  cbn. apply take_ge. apply List.filter_length_le.
Qed.

Lemma visible_selected_sorted (log : MemoryAuditLog) q after : log_wf log ->
  sort_by_key ae_id (visible_audit_entries (selected log q after)) = visible_audit_entries (selected log q after).
Proof. intros Hwf. apply sort_by_key_sorted, StronglySorted_filter. by apply selected_sorted. Qed.

Lemma accesses_ok ids op : ensure_generic_collection_accesses reserved_payload ids op = Ok tt ->
  forall c, In c ids -> is_reserved_collection c = false.
Proof.
  induction ids as [|c ids IH]; cbn; [done|].
  intros (u & Hu & Hr)%result_bind_ok c' [<-|Hin]; [|by apply IH].
  unfold ensure_generic_collection_access in Hu. by destruct (is_reserved_collection c).
Qed.

(** The caller's reads of the collection are under no policy. *)
Definition no_read_policy (s : S) (c : CollectionId) : Prop := read_plan fuel s c caller attribution = Ok None.

(** C28. Audit reads redact fields.  On a log whose entries are numbered from one,
    as the log numbers them, an answer to an audit query shows entries of the log
    in their order, at most as many as the limit (100 by default), each of them
    after the cursor, satisfying every given filter and outside of the hidden
    system collections; a request that names a reserved collection is refused.
    An entry is shown unchanged but for its documents.  For an entry of an entity
    under a read policy whose redaction values are scalars, the documents before
    and after, and both sides of every changed field, have at every redacted path
    (through objects and arrays, in whatever order the redactions are applied)
    only redaction values; without a policy the entry is shown as it is.  When no
    read policy is in force for the entries that satisfy the filters, the answer
    has precisely the first ones, and for a positive limit a cursor exactly when
    more are left.  The property says nothing about the visibility of rows, which
    audit reads do not apply: see the findings. *)
Theorem audit_reads_redacted (s : S) (log : MemoryAuditLog) (req : QueryAuditRequest) (resp : QueryAuditResponse)
    (Hwf : log_wf log)
    (Hq : query_audit_with_read_context fuel depth reserved_payload caller attribution s log req = Ok resp) :
  exists operation,
    audit_operation_filter (qa_operation req) = Ok operation /\
    let q := audit_query_of (length (log_entries log)) (qa_database req) operation req in
    let entries := visible_audit_entries (selected log q (default 0%Z (qa_after_id req))) in
    let limit := default HANDLER_AUDIT_DEFAULT_PAGE_SIZE (qa_limit req) in
    (exists shown, sublist shown entries /\ length shown <= limit /\
       Forall2 (entry_view s) shown (qar_entries resp)) /\
    ((forall e, In e entries -> no_read_policy s (ae_collection e)) ->
       Forall2 (entry_view s) (take limit entries) (qar_entries resp) /\
       (0 < limit -> qar_next_cursor resp =
          (if (limit <? length entries)%nat then option_map ae_id (list.last (take limit entries)) else None))) /\
    (forall c, qa_collection req = Some c \/ In c (qa_collection_ids req) -> is_reserved_collection c = false).
Proof.
  unfold query_audit_with_read_context in Hq.
  apply result_bind_ok in Hq as ([] & Hc & ([] & Hids & (operation & Hop & Hq)%result_bind_ok)%result_bind_ok).
  rewrite query_page_all in Hq by done. unfold visible_audit_page in Hq.
  rewrite visible_selected_sorted in Hq by done. cbn [ap_entries ap_next_cursor] in Hq.
  apply result_bind_ok in Hq as (entries & He & Hr). exists operation. split; [done|].
  assert (resp = {| qar_entries := entries; qar_next_cursor := qar_next_cursor resp |}) as -> by by injection Hr as <-.
  match type of He with result_map _ ?l = _ => assert (Hview : Forall2 (entry_view s) l entries) end.
  { eapply list.Forall2_impl; [exact (result_map_forall2 _ _ _ He)|]. intros e e' Hv. by eapply entry_view_exact. }
  split; [|split; [intros _; split; [exact Hview|intros _; by injection Hr as <-]|]].
  - eexists. split; [apply sublist_take|]. split; [rewrite length_take; apply Nat.le_min_l|exact Hview].
  - intros c [Hc'|Hin]; [|by eapply accesses_ok]. rewrite Hc' in Hc.
    unfold ensure_generic_collection_access in Hc. by destruct (is_reserved_collection c).
Qed.
End Reads.
