(* ===== verification/Beads.v ===== *)
(** * Beads ([crates/axon-api/src/bead.rs])

    Work items as entities of a system collection: the schema and its life
    cycle, the migration of former statuses, creation, updates, reopening,
    dependencies between beads without cycles, the ready queue, export and
    import.

    The functions run on the handler over the in-memory adapter.  [clock w n] is
    the [n]-th reading of the clock in the write [w] of an operation.  Loops over
    pages and over the queue of a search have the fuel that the store at hand
    needs at most: one page per row and one more, one node per link and one
    more. *)

From S2P Require Import Prelude Json Ids Types Bfs IndexKeys AuditLog Schema PolicyPlan PolicyCycles.
From S2P Require Import PolicyCompile Rules Gates JsonOps AuthStore Roles Storage Catalog PolicyEval PolicyDecide.
From S2P Require Import Interface MemoryTx MemoryRows Transactions Requests EntityWrites EntityReads Graph Queries.
From S2P Require Import IndexQueries EntityProofs MemoryCommit EntitySpec Evolution Rollback Explain Templates.
From S2P Require Import Collections.
From stdpp Require Import pretty.
Local Open Scope axon_scope.

Definition BEAD_COLLECTION : string := "__axon_beads__".
Definition DEPENDS_ON_LINK : string := "depends-on".
Definition STATUS_LIFECYCLE : string := "status".
Definition STATUS_FIELD : string := "status".
Definition BEAD_ACTOR : string := "bead-system".
Definition IMPORT_ACTOR : string := "bead-import".
Definition QUERY_PAGE_SIZE : nat := 1000.

Definition OPTIONAL_SCHEMA_FIELDS : list string :=
  ["schema_version"; "issue_type"; "description"; "acceptance"; "priority"; "owner"; "assignee"; "parent";
   "labels"; "notes"; "created_at"; "updated_at"; "claimed-at"; "claimed-machine"; "claimed-pid"; "dependencies"].

(** ** Statuses *)

Inductive BeadStatus : Type := Proposed | Open | InProgress | Blocked | Closed | Cancelled.

#[export] Instance BeadStatus_eq_dec : EqDecision BeadStatus.
Proof. solve_decision. Defined.

Definition status_str (st : BeadStatus) : string :=
  match st with
  | Proposed => "proposed" | Open => "open" | InProgress => "in_progress"
  | Blocked => "blocked" | Closed => "closed" | Cancelled => "cancelled"
  end.

Definition all_statuses : list BeadStatus := [Proposed; Open; InProgress; Blocked; Closed; Cancelled].

Definition parse_status (s : string) : option BeadStatus :=
  if bool_decide (s = "proposed") then Some Proposed
  else if bool_decide (s = "open") then Some Open
  else if bool_decide (s = "in_progress") then Some InProgress
  else if bool_decide (s = "blocked") then Some Blocked
  else if bool_decide (s = "closed") then Some Closed
  else if bool_decide (s = "cancelled") then Some Cancelled
  else None.

Definition is_terminal (st : BeadStatus) : bool := match st with Closed | Cancelled => true | _ => false end.

Definition status_vocabulary : list string := map status_str all_statuses.
Definition migration_status_vocabulary : list string :=
  status_vocabulary ++ ["draft"; "pending"; "ready"; "review"; "done"].

Definition normalize_legacy_status (status : string) : option string :=
  if bool_decide (status = "draft") then Some (status_str Proposed)
  else if bool_decide (status = "pending") || bool_decide (status = "ready") then Some (status_str Open)
  else if bool_decide (status = "review") then Some (status_str InProgress)
  else if bool_decide (status = "done") then Some (status_str Closed)
  else None.

Definition bead_lifecycle : LifecycleDef := {|
  lc_field := STATUS_FIELD;
  lc_initial := status_str Open;
  lc_transitions := list_to_map [
    (status_str Proposed, map status_str [Open; Blocked; Cancelled]);
    (status_str Open, map status_str [InProgress; Blocked; Closed; Cancelled]);
    (status_str InProgress, map status_str [Open; Blocked; Closed; Cancelled]);
    (status_str Blocked, map status_str [Open; Cancelled]);
    (status_str Closed, []);
    (status_str Cancelled, [])] |}.

Definition ordinary_valid_next_states (current : BeadStatus) : list string :=
  default [] (lc_transitions bead_lifecycle !! status_str current).

(** ** A search over identifiers

    The queue of [VecDeque] and the visited set that the searches of beads
    share.  [None]: a neighbour that [stop] asks for. *)

Section Walk.
Context {X E : Type}.
Variable id_of : X -> string.
Variable next : string -> result (list X) E.
Variable stop : string -> bool.

(** The loop over the neighbours of one node: the new ones, in order. *)
Fixpoint visit_new (visited : gset string) (xs : list X) : option (gset string * list X) :=
  match xs with
  | [] => Some (visited, [])
  | x :: rest =>
      if stop (id_of x) then None
      else if bool_decide (id_of x ∈ visited) then visit_new visited rest
      else
        match visit_new ({[id_of x]} ∪ visited) rest with
        | None => None
        | Some (visited, fresh) => Some (visited, x :: fresh)
        end
  end.

Fixpoint walk_ids (fuel : nat) (visited : gset string) (queue : list string) : result (option (list X)) E :=
  match queue with
  | [] => Ok (Some [])
  | current :: queue =>
      match fuel with
      | O => Panic
      | Datatypes.S fuel =>
          let? neighbours := next current in
          match visit_new visited neighbours with
          | None => Ok None
          | Some (visited, fresh) =>
              let? rest := walk_ids fuel visited (queue ++ map id_of fresh) in
              Ok (option_map (app fresh) rest)
          end
      end
  end.
End Walk.

(** [str::lines] *)
Definition line_feed : ascii := Eval compute in Stdlib.Strings.Ascii.ascii_of_nat 10.
Definition return_char : string :=
  Eval compute in String (Stdlib.Strings.Ascii.ascii_of_nat 13) EmptyString.
Definition without_return (line : string) : string := default line (str_strip_suffix return_char line).
Definition str_lines (s : string) : list string :=
  let pieces := split_on line_feed s in
  map without_return (removelast pieces) ++
    match list.last pieces with Some EmptyString | None => [] | Some line => [line] end.

Section Documents.
Context `{SerdeNumber}.

(** [json!] of an object: its keys in order. *)
Definition json_object (fields : list (string * Value)) : Value :=
  Object (fold_left (fun obj e => map_insert (fst e) (snd e) obj) fields []).
Definition json_strings (l : list string) : Value := Array (map JString l).
Definition typed (name : string) : Value := json_object [("type", JString name)].

(** ** The schema *)

Definition dependency_item_schema : Value := json_object [
  ("type", JString "object"); ("required", json_strings ["depends_on_id"]); ("additionalProperties", Bool true);
  ("properties", json_object [
     ("issue_id", typed "string"); ("depends_on_id", typed "string"); ("type", typed "string");
     ("created_at", typed "string")])].

Definition bead_entity_schema (vocabulary : list string) : Value := json_object [
  ("type", JString "object"); ("required", json_strings ["status"; "title"]); ("additionalProperties", Bool true);
  ("properties", json_object [
     ("schema_version", json_object [("type", JString "integer"); ("minimum", Number (number_of_i64 0))]);
     ("issue_type", typed "string");
     ("status", json_object [("type", JString "string"); ("enum", json_strings vocabulary)]);
     ("title", json_object [("type", JString "string"); ("minLength", Number (number_of_i64 1))]);
     ("description", typed "string"); ("acceptance", typed "string");
     ("priority", json_object [("type", JString "integer"); ("minimum", Number (number_of_i64 0))]);
     ("owner", typed "string"); ("assignee", typed "string"); ("parent", typed "string");
     ("labels", json_object [("type", JString "array"); ("items", typed "string")]);
     ("notes", typed "string"); ("created_at", typed "string"); ("updated_at", typed "string");
     ("claimed-at", typed "string"); ("claimed-machine", typed "string"); ("claimed-pid", typed "string");
     ("dependencies", json_object [("type", JString "array"); ("items", dependency_item_schema)])])].

Definition string_index (field : string) : IndexDef := {| ix_field := field; ix_type := TString; ix_unique := false |}.

Definition bead_schema_with_statuses (vocabulary : list string) (lifecycles : gmap string LifecycleDef)
    : CollectionSchema := {|
  cs_collection := BEAD_COLLECTION;
  cs_description := Some "Bead work-item collection (FEAT-006)";
  cs_version := 2;
  cs_entity_schema := Some (bead_entity_schema vocabulary);
  cs_link_types := {[ DEPENDS_ON_LINK := {|
    lt_target_collection := BEAD_COLLECTION; lt_cardinality := ManyToMany; lt_required := false;
    lt_metadata_schema := Some (json_object [("type", JString "object"); ("additionalProperties", Bool true)]) |} ]};
  cs_access_control := None; cs_gates := ∅; cs_validation_rules := [];
  cs_indexes := map string_index [STATUS_FIELD; "issue_type"; "owner"; "parent"];
  cs_compound_indexes := []; cs_queries := ∅; cs_lifecycles := lifecycles |}.

Definition bead_schema : CollectionSchema :=
  bead_schema_with_statuses status_vocabulary {[ STATUS_LIFECYCLE := bead_lifecycle ]}.
Definition bead_migration_schema : CollectionSchema :=
  bead_schema_with_statuses migration_status_vocabulary ∅.

(** ** Statuses of documents *)

Definition parse_status_from_data (data : Value) : result BeadStatus AxonError :=
  match value_get data STATUS_FIELD with
  | None => Err (LifecycleFieldMissing STATUS_FIELD)
  | Some v =>
      match as_str v with
      | None => Err (LifecycleStateInvalid STATUS_FIELD v)
      | Some status => ok_or (parse_status status) (LifecycleStateInvalid STATUS_FIELD (JString status))
      end
  end.

Definition validate_status_literal (status : string) : result unit AxonError :=
  match parse_status status with
  | Some _ => Ok tt
  | None => Err (LifecycleStateInvalid STATUS_FIELD (JString status))
  end.

Definition invalid_transition (current target : BeadStatus) : AxonError :=
  InvalidTransition STATUS_LIFECYCLE (status_str current) (status_str target) (ordinary_valid_next_states current).

Definition validate_ordinary_status_update (current_data target_data : Value) : result unit AxonError :=
  let? current := parse_status_from_data current_data in
  let? target := parse_status_from_data target_data in
  if bool_decide (current = target) then Ok tt
  else if bool_decide (status_str target ∈ ordinary_valid_next_states current) then Ok tt
  else Err (invalid_transition current target).

Definition remove_projected_null_optional_fields (data : Value) : Value :=
  match data with
  | Object obj =>
      Object (fold_left (fun obj field => match assoc_get field obj with Some Null => map_remove field obj | _ => obj end)
                OPTIONAL_SCHEMA_FIELDS obj)
  | _ => data
  end.

(** ** Deserialization

    What [serde] derives for the two structures: the fields in the order of the
    keys of the document, the others kept as extension.  The text of its errors
    is a parameter. *)

Inductive DeError : Type :=
| DeInvalidType (v : Value) (expected : string)
| DeMissingField (field : string).

Definition de_string (v : Value) : result string DeError :=
  match v with JString s => Ok s | _ => Err (DeInvalidType v "a string") end.
Definition de_u32 (v : Value) : result Z DeError :=
  match v with
  | Number n =>
      match number_as_i64 n with
      | Some z => if (0 <=? z)%Z && (z <? 2 ^ 32)%Z then Ok z else Err (DeInvalidType v "u32")
      | None => Err (DeInvalidType v "u32")
      end
  | _ => Err (DeInvalidType v "u32")
  end.
Definition de_option {A} (de : Value -> result A DeError) (v : Value) : result (option A) DeError :=
  match v with Null => Ok None | _ => let? a := de v in Ok (Some a) end.
Fixpoint de_each {A} (de : Value -> result A DeError) (items : list Value) : result (list A) DeError :=
  match items with
  | [] => Ok []
  | v :: rest =>
      let? a := de v in
      let? others := de_each de rest in
      Ok (a :: others)
  end.
Definition de_vec {A} (de : Value -> result A DeError) (v : Value) : result (list A) DeError :=
  match v with Array items => de_each de items | _ => Err (DeInvalidType v "a sequence") end.

(** A field with [serde(default)]. *)
Definition de_field {A} (obj : list (string * Value)) (key : string) (de : Value -> result A DeError) (missing : A)
    : result A DeError :=
  match assoc_get key obj with Some v => de v | None => Ok missing end.

Definition extension_of (known : list string) (obj : list (string * Value)) : list (string * Value) :=
  List.filter (fun e => negb (bool_decide (fst e ∈ known))) obj.

Record BeadDependency : Type := {
  bd_issue_id : string;
  bd_depends_on_id : string;
  bd_dependency_type : string;
  bd_created_at : option string;
  bd_extension : list (string * Value)
}.

Record Bead : Type := {
  b_id : string;
  b_bead_type : string;
  b_issue_type : option string;
  b_status : string;
  b_title : string;
  b_description : option string;
  b_acceptance : option string;
  b_priority : Z;
  b_owner : option string;
  b_assignee : option string;
  b_parent : option string;
  b_tags : list string;
  b_labels : list string;
  b_notes : option string;
  b_dependencies : list BeadDependency;
  b_extension : list (string * Value)
}.

Definition de_dependency (v : Value) : result BeadDependency DeError :=
  match v with
  | Object obj =>
      let? created_at := de_field obj "created_at" (de_option de_string) None in
      let? depends_on := de_field obj "depends_on_id" (fun v => let? s := de_string v in Ok (Some s)) None in
      let? issue_id := de_field obj "issue_id" de_string "" in
      let? dependency_type := de_field obj "type" de_string "" in
      let? depends_on_id := ok_or depends_on (DeMissingField "depends_on_id") in
      Ok {| bd_issue_id := issue_id; bd_depends_on_id := depends_on_id; bd_dependency_type := dependency_type;
            bd_created_at := created_at;
            bd_extension := extension_of ["created_at"; "depends_on_id"; "issue_id"; "type"] obj |}
  | _ => Err (DeInvalidType v "struct BeadDependency")
  end.

Definition bead_fields : list string :=
  ["acceptance"; "assignee"; "bead_type"; "dependencies"; "description"; "id"; "issue_type"; "labels"; "notes";
   "owner"; "parent"; "priority"; "status"; "tags"; "title"].

Definition de_bead (v : Value) : result Bead DeError :=
  match v with
  | Object obj =>
      let? acceptance := de_field obj "acceptance" (de_option de_string) None in
      let? assignee := de_field obj "assignee" (de_option de_string) None in
      let? bead_type := de_field obj "bead_type" de_string "" in
      let? dependencies := de_field obj "dependencies" (de_vec de_dependency) [] in
      let? description := de_field obj "description" (de_option de_string) None in
      let? id := de_field obj "id" de_string "" in
      let? issue_type := de_field obj "issue_type" (de_option de_string) None in
      let? labels := de_field obj "labels" (de_vec de_string) [] in
      let? notes := de_field obj "notes" (de_option de_string) None in
      let? owner := de_field obj "owner" (de_option de_string) None in
      let? parent := de_field obj "parent" (de_option de_string) None in
      let? priority := de_field obj "priority" de_u32 0%Z in
      let? status := de_field obj "status" de_string "" in
      let? tags := de_field obj "tags" (de_vec de_string) [] in
      let? title := de_field obj "title" de_string "" in
      Ok {| b_id := id; b_bead_type := bead_type; b_issue_type := issue_type; b_status := status; b_title := title;
            b_description := description; b_acceptance := acceptance; b_priority := priority; b_owner := owner;
            b_assignee := assignee; b_parent := parent; b_tags := tags; b_labels := labels; b_notes := notes;
            b_dependencies := dependencies; b_extension := extension_of bead_fields obj |}
  | _ => Err (DeInvalidType v "struct Bead")
  end.

Variable de_message : DeError -> string.

Definition entity_to_bead (entity : Entity) : result Bead AxonError :=
  match de_bead (e_data entity) with
  | Ok bead =>
      Ok {| b_id := e_id entity;
            b_bead_type := if bool_decide (b_bead_type bead = "") then default "" (b_issue_type bead) else b_bead_type bead;
            b_issue_type := b_issue_type bead; b_status := b_status bead; b_title := b_title bead;
            b_description := b_description bead; b_acceptance := b_acceptance bead; b_priority := b_priority bead;
            b_owner := b_owner bead; b_assignee := b_assignee bead; b_parent := b_parent bead;
            b_tags := match b_tags bead with [] => b_labels bead | tags => tags end;
            b_labels := b_labels bead; b_notes := b_notes bead; b_dependencies := b_dependencies bead;
            b_extension := b_extension bead |}
  | Err e => Err (StorageError ("bead deserialization: " +:+ de_message e))
  | Panic => Panic
  end.

Fixpoint entities_to_beads (entities : list Entity) : result (list Bead) AxonError :=
  match entities with
  | [] => Ok []
  | e :: rest =>
      let? bead := entity_to_bead e in
      let? beads := entities_to_beads rest in
      Ok (bead :: beads)
  end.

(** ** Dependencies in documents *)

Definition dependency_key (fallback_source : string) (dep : Value) : option (string * string) :=
  match value_get dep "depends_on_id" ≫= as_str with
  | Some target => Some (default fallback_source (value_get dep "issue_id" ≫= as_str), target)
  | None => None
  end.

Definition dependency_links_from_import_item (item : Value) (fallback_source : string) : list (string * string) :=
  match value_get item "dependencies" ≫= as_array with
  | Some dependencies => omap (dependency_key fallback_source) dependencies
  | None => []
  end.

(** The map and the set have no order; the answer does not depend on one. *)
Definition graph_path_exists (graph : gmap string (gset string)) (from_id target_id : string) : bool :=
  if bool_decide (from_id = target_id) then true
  else
    match walk_ids (E := unit) id (fun current => Ok (elements (default ∅ (graph !! current))))
            (fun dependency => bool_decide (dependency = target_id))
            (Datatypes.S (list_sum (map (fun e => size (snd e)) (map_to_list graph)))) {[from_id]} [from_id] with
    | Ok None => true
    | _ => false
    end.

(** ** The text of an import *)

Variable from_str : string -> result Value string.

Fixpoint parse_lines (line_index : nat) (lines : list string) : result (list Value) AxonError :=
  match lines with
  | [] => Ok []
  | line :: rest =>
      if bool_decide (trim line = "") then parse_lines (Datatypes.S line_index) rest
      else
        match from_str (trim line) with
        | Ok record =>
            let? records := parse_lines (Datatypes.S line_index) rest in
            Ok (record :: records)
        | Err error =>
            Err (InvalidArgument ("invalid bead JSONL line " +:+ pretty (Datatypes.S line_index) +:+ ": " +:+ error))
        | Panic => Panic
        end
  end.

Definition parse_bead_import_data (input : string) : result Value AxonError :=
  let trimmed := trim input in
  if bool_decide (trimmed = "") then Ok (Array [])
  else if String.prefix "[" trimmed then
    match from_str trimmed with
    | Ok v => Ok v
    | Err error => Err (InvalidArgument ("invalid bead JSON: " +:+ error))
    | Panic => Panic
    end
  else
    let? records := parse_lines 0 (str_lines trimmed) in
    Ok (Array records).
End Documents.

(** ** The handler's interface for the system collection

    [capability.collection()] is the collection of beads; there is no caller,
    and graph searches see the links of system collections. *)

(** The writes of an operation, for the readings of the clock. *)
Inductive BeadWrite : Type :=
| WEnsure | WMigrationSchema | WMigrate (n : nat) | WFinalSchema | WEntity (n : nat) | WLink (n : nat).

Section Operations.
Context `{RuleEnv} `{TextFormat} `{ContentHasher} `{!DebugText}.
Variable fuel depth : nat.
Variable to_lowercase : string -> string.
Variable compile_entity_schema : Value -> result unit AxonError.
Variable compile_named_queries : CollectionSchema -> list CollectionSchema -> gmap string Z -> CompileReport.
Variable validate : CollectionSchema -> Value -> result unit AxonError.
Variable validate_link_metadata : Value -> Value -> result unit AxonError.
Variable de_message : DeError -> string.
Variable clock : BeadWrite -> nat -> Z.

Abbreviation Mem := MemoryStorageAdapter (only parsing).
Abbreviation MOp := (M Mem AxonError) (only parsing).

Definition create_entity_in_system_collection (w : BeadWrite) (id : EntityId) (data : Value) (actor : option string)
    (audit_metadata : option (gmap string string)) : MOp EntityWriteResponse :=
  create_entity_inner_unchecked fuel depth validate (clock w) {|
    ce_collection := BEAD_COLLECTION; ce_id := id; ce_data := data; ce_actor := actor;
    ce_audit_metadata := audit_metadata; ce_attribution := None |} None.

Definition update_entity_in_system_collection (w : BeadWrite) (id : EntityId) (data : Value) (expected_version : Z)
    (actor : option string) (audit_metadata : option (gmap string string)) : MOp EntityWriteResponse :=
  update_entity_inner_unchecked fuel depth validate (clock w) {|
    ue_collection := BEAD_COLLECTION; ue_id := id; ue_data := data; ue_expected_version := expected_version;
    ue_actor := actor; ue_audit_metadata := audit_metadata; ue_attribution := None |} None.

Definition query_entities_in_system_collection (filter : option FilterNode) (limit : option nat)
    (after_id : option EntityId) (s : Mem) : result QueryEntitiesResponse AxonError :=
  query_entities_with_read_context_unchecked fuel depth to_lowercase s {|
    qe_collection := BEAD_COLLECTION; qe_filter := filter; qe_sort := []; qe_limit := limit;
    qe_after_id := after_id; qe_count_only := false |} None None.

Definition handle_put_schema_in_system_collection (w : BeadWrite) (schema : CollectionSchema)
    (actor : option string) (force : bool) : MOp PutSchemaResponse :=
  handle_put_schema_inner fuel depth compile_entity_schema compile_named_queries (clock w) {|
    pq_schema := schema_with BEAD_COLLECTION (cs_version schema) schema; pq_actor := actor; pq_force := force;
    pq_dry_run := false; pq_explain_inputs := [] |}.

Definition create_link_in_system_collection (w : BeadWrite) (source_id target_id : EntityId) (link_type : string)
    (metadata : Value) (actor : option string) : MOp Link :=
  create_link_inner validate_link_metadata (clock w) {|
    kl_source_collection := BEAD_COLLECTION; kl_source_id := source_id; kl_target_collection := BEAD_COLLECTION;
    kl_target_id := target_id; kl_link_type := link_type; kl_metadata := metadata; kl_actor := actor;
    kl_attribution := None |}.

Definition traverse_system_collection (id : EntityId) (link_type : option string) (max_depth : option nat)
    (direction : TraverseDirection) (s : Mem) : result TraverseResponse AxonError :=
  traverse_with_read_context_unchecked fuel depth s {|
    tq_collection := BEAD_COLLECTION; tq_id := id; tq_link_type := link_type; tq_max_depth := max_depth;
    tq_direction := direction; tq_hop_filter := None |} None None true.

Definition reachable_system_collection (source_id target_id : EntityId) (link_type : option string)
    (max_depth : option nat) (direction : TraverseDirection) (s : Mem) : result ReachableResponse AxonError :=
  reachable_with_read_context_unchecked fuel depth s {|
    rq_source_collection := BEAD_COLLECTION; rq_source_id := source_id; rq_target_collection := BEAD_COLLECTION;
    rq_target_id := target_id; rq_link_type := link_type; rq_max_depth := max_depth; rq_direction := direction |}
    None None true.

(** ** Queries *)

(** One page per bead and one more. *)
Definition page_fuel (s : Mem) : nat :=
  Datatypes.S (match count s BEAD_COLLECTION with Ok n => n | _ => O end).

Fixpoint query_pages (fuel : nat) (filter : option FilterNode) (after_id : option EntityId) (s : Mem)
    : result (list Entity) AxonError :=
  match fuel with
  | O => Panic
  | Datatypes.S fuel =>
      let? page := query_entities_in_system_collection filter (Some QUERY_PAGE_SIZE) after_id s in
      match qr_next_cursor page with
      | None => Ok (qr_entities page)
      | Some cursor =>
          let? rest := query_pages fuel filter (Some cursor) s in
          Ok (qr_entities page ++ rest)
      end
  end.

Definition query_bead_entities (filter : option FilterNode) (s : Mem) : result (list Entity) AxonError :=
  query_pages (page_fuel s) filter None s.

Fixpoint find_in_pages (fuel : nat) (id : string) (after_id : option EntityId) (s : Mem) : result Entity AxonError :=
  match fuel with
  | O => Panic
  | Datatypes.S fuel =>
      let? page := query_entities_in_system_collection None (Some QUERY_PAGE_SIZE) after_id s in
      match List.find (fun e => bool_decide (e_id e = id)) (qr_entities page) with
      | Some entity => Ok entity
      | None =>
          match qr_next_cursor page with
          | Some cursor => find_in_pages fuel id (Some cursor) s
          | None => Err (NotFound ("bead " +:+ id))
          end
      end
  end.

Definition get_bead_entity (id : string) (s : Mem) : result Entity AxonError := find_in_pages (page_fuel s) id None s.

Definition list_beads (status_filter : option string) (s : Mem) : result (list Bead) AxonError :=
  let? _ := match status_filter with Some status => validate_status_literal status | None => Ok tt end in
  let filter := option_map (fun status =>
    FField {| ff_field := STATUS_FIELD; ff_op := FEq; ff_value := JString status |}) status_filter in
  let? entities := query_bead_entities filter s in
  entities_to_beads de_message entities.

(** ** Searches *)

Definition direct_dependencies (bead_id : string) (s : Mem) : result TraverseResponse AxonError :=
  traverse_system_collection bead_id (Some DEPENDS_ON_LINK) (Some 1%nat) Forward s.
Definition direct_dependency_entities (bead_id : string) (s : Mem) : result (list Entity) AxonError :=
  let? resp := direct_dependencies bead_id s in
  Ok (ts_entities resp).
Definition direct_dependency_links (bead_id : string) (s : Mem) : result (list Link) AxonError :=
  let? resp := direct_dependencies bead_id s in
  Ok (ts_links_traversed resp).

(** One node per link and one more. *)
Definition dependency_fuel (s : Mem) : nat :=
  Datatypes.S (match load_all_links s with Ok links => length links | _ => O end).

Definition dependency_entities_unbounded (bead_id : string) (s : Mem) : result (list Entity) AxonError :=
  let? _ := get_bead_entity bead_id s in
  let? found := walk_ids e_id (fun current => direct_dependency_entities current s) (fun _ => false)
                  (dependency_fuel s) {[bead_id]} [bead_id] in
  Ok (default [] found).

Definition dependency_path_exists (from_id target_id : string) (s : Mem) : result bool AxonError :=
  if bool_decide (from_id = target_id) then Ok true
  else
    let? bounded := reachable_system_collection from_id target_id (Some DEPENDS_ON_LINK) None Forward s in
    if rr_reachable bounded then Ok true
    else
      let? found := walk_ids e_id (fun current => direct_dependency_entities current s)
                      (fun id => bool_decide (id = target_id)) (dependency_fuel s) {[from_id]} [from_id] in
      Ok (match found with None => true | Some _ => false end).

Fixpoint ready_of_beads (s : Mem) (open_beads : list Bead) : result (list Bead) AxonError :=
  match open_beads with
  | [] => Ok []
  | bead :: rest =>
      let? deps := direct_dependencies (b_id bead) s in
      let all_deps_closed := forallb (fun e =>
        match parse_status_from_data (e_data e) with Ok Closed => true | _ => false end) (ts_entities deps) in
      let? output := ready_of_beads s rest in
      Ok (if all_deps_closed then bead :: output else output)
  end.

Definition ready_queue (s : Mem) : result (list Bead) AxonError :=
  let? open_beads := list_beads (Some (status_str Open)) s in
  ready_of_beads s open_beads.

Definition dependency_tree (bead_id : string) (s : Mem) : result (list Bead) AxonError :=
  let? entities := dependency_entities_unbounded bead_id s in
  entities_to_beads de_message entities.

(** ** Initialization and migration *)

(** A call whose error the caller looks at. *)
Definition attempt {A} (m : MOp A) : MOp (result A AxonError) := fun s =>
  let '(s', r) := m s in (s', match r with Panic => Panic | _ => Ok r end).

Definition migrated_data (entity : Entity) (target_status : string) : result Value AxonError :=
  value_index_assign (remove_projected_null_optional_fields (e_data entity)) STATUS_FIELD (JString target_status).

Fixpoint migrate_entities (n : nat) (entities : list Entity) : MOp unit :=
  match entities with
  | [] => ret tt
  | entity :: rest =>
      do status <- lift (match value_get (e_data entity) STATUS_FIELD with
                         | None => Err (LifecycleFieldMissing STATUS_FIELD)
                         | Some v => ok_or (as_str v) (LifecycleStateInvalid STATUS_FIELD v)
                         end);
      match normalize_legacy_status status with
      | None =>
          match parse_status status with
          | Some _ => migrate_entities (Datatypes.S n) rest
          | None => fail (LifecycleStateInvalid STATUS_FIELD (JString status))
          end
      | Some target_status =>
          do data <- lift (migrated_data entity target_status);
          do! update_entity_in_system_collection (WMigrate n) (e_id entity) data (e_version entity) (Some "system")
                (Some {[ "operation" := "migrate-legacy-status" ]});
          migrate_entities (Datatypes.S n) rest
      end
  end.

Definition migrate_legacy_bead_statuses : MOp unit :=
  do entities <- reads (query_bead_entities None);
  migrate_entities 0 entities.

Definition init_beads : MOp unit :=
  let actor := Some "system" in
  do result <- attempt (ensure_governed_system_collection fuel depth compile_entity_schema compile_named_queries
                          (clock WEnsure) BEAD_COLLECTION bead_schema actor);
  match result with
  | Err (InvalidOperation message) =>
      if str_contains message "schema change is breaking" then
        do! handle_put_schema_in_system_collection WMigrationSchema bead_migration_schema actor true;
        do! migrate_legacy_bead_statuses;
        do! handle_put_schema_in_system_collection WFinalSchema bead_schema actor true;
        ret tt
      else fail (InvalidOperation message)
  | Err e => fail e
  | _ => ret tt
  end.

(** ** Writes *)

Record CreateBeadParams : Type := {
  cb_id : string;
  cb_bead_type : string;
  cb_title : string;
  cb_description : option string;
  cb_priority : Z;
  cb_assignee : option string;
  cb_tags : list string;
  cb_acceptance : option string
}.

Definition new_bead_data (params : CreateBeadParams) : Value :=
  let field key (o : option string) := match o with Some v => [(key, JString v)] | None => [] end in
  json_object ([("issue_type", JString (cb_bead_type params)); ("status", JString (status_str Open));
                ("title", JString (cb_title params)); ("priority", Number (number_of_i64 (cb_priority params)));
                ("labels", json_strings (cb_tags params))] ++
               field "description" (cb_description params) ++ field "assignee" (cb_assignee params) ++
               field "acceptance" (cb_acceptance params)).

Definition create_bead (params : CreateBeadParams) : MOp Bead :=
  do! init_beads;
  do created <- create_entity_in_system_collection (WEntity 0) (cb_id params) (new_bead_data params) (Some BEAD_ACTOR) None;
  lift (entity_to_bead de_message (wr_entity created)).

Definition update_bead (id : string) (data : Value) (expected_version : Z) : MOp Bead :=
  do existing <- reads (get_bead_entity id);
  do! lift (validate_ordinary_status_update (e_data existing) data);
  do updated <- update_entity_in_system_collection (WEntity 0) id data expected_version (Some BEAD_ACTOR) None;
  lift (entity_to_bead de_message (wr_entity updated)).

Definition transition_bead_with_expected_version (id new_status : string) (expected_version : Z) : MOp Bead :=
  do entity <- reads (get_bead_entity id);
  do data <- lift (value_index_assign (e_data entity) STATUS_FIELD (JString new_status));
  update_bead id data expected_version.

Definition transition_bead (id new_status : string) : MOp unit :=
  do entity <- reads (get_bead_entity id);
  do! transition_bead_with_expected_version id new_status (e_version entity);
  ret tt.

Definition reopen_bead_with_expected_version (id : string) (expected_version : Z) : MOp Bead :=
  do entity <- reads (get_bead_entity id);
  do current <- lift (parse_status_from_data (e_data entity));
  if negb (bool_decide (current = Closed)) then fail (invalid_transition current Open)
  else
    do data <- lift (value_index_assign (e_data entity) STATUS_FIELD (JString (status_str Open)));
    do updated <- update_entity_in_system_collection (WEntity 0) id data expected_version (Some BEAD_ACTOR)
                    (Some {[ "operation" := "reopen" ]});
    lift (entity_to_bead de_message (wr_entity updated)).

Definition reopen_bead (id : string) : MOp Bead :=
  do entity <- reads (get_bead_entity id);
  reopen_bead_with_expected_version id (e_version entity).

Definition add_dependency_at (w : BeadWrite) (bead_id dep_id : string) : MOp unit :=
  do! reads (get_bead_entity bead_id);
  do! reads (get_bead_entity dep_id);
  if bool_decide (bead_id = dep_id)
  then fail (InvalidOperation ("circular dependency: " +:+ bead_id +:+ " cannot depend on itself"))
  else
    do cyclic <- reads (dependency_path_exists dep_id bead_id);
    if cyclic : bool
    then fail (InvalidOperation ("circular dependency: " +:+ dep_id +:+ " already reaches " +:+ bead_id))
    else
      do! create_link_in_system_collection w bead_id dep_id DEPENDS_ON_LINK
            (json_object [("type", JString "blocks")]) (Some BEAD_ACTOR);
      ret tt.

Definition add_dependency (bead_id dep_id : string) : MOp unit := add_dependency_at (WLink 0) bead_id dep_id.

(** ** Export *)

(** The loop over the typed links. *)
Fixpoint merge_links (seen : gset (string * string)) (links : list Link) (dependency_array : list Value) : list Value :=
  match links with
  | [] => dependency_array
  | link :: rest =>
      let key := (l_source_id link, l_target_id link) in
      if bool_decide (key ∈ seen) then merge_links seen rest dependency_array
      else
        let dep_obj := match l_metadata link with Object map => map | _ => [] end in
        let dep_obj := map_insert "depends_on_id" (JString (l_target_id link))
                         (map_insert "issue_id" (JString (l_source_id link)) dep_obj) in
        let dep_obj := match assoc_get "type" dep_obj with
                       | Some _ => dep_obj
                       | None => map_insert "type" (JString "blocks") dep_obj
                       end in
        merge_links ({[key]} ∪ seen) rest (dependency_array ++ [Object dep_obj])
  end.

Definition merge_typed_dependencies_for_export (bead_id : string) (obj : list (string * Value)) (s : Mem)
    : result (list (string * Value)) AxonError :=
  let? links := direct_dependency_links bead_id s in
  match links with
  | [] => Ok obj
  | _ =>
      let? dependency_array :=
        match assoc_get "dependencies" obj with
        | None => Ok []
        | Some v => ok_or (as_array v) (StorageError "bead dependencies must be an array")
        end in
      let obj := map_remove "dependencies" obj in
      let seen := list_to_set (omap (dependency_key bead_id) dependency_array) in
      match merge_links seen links dependency_array with
      | [] => Ok obj
      | dependencies => Ok (map_insert "dependencies" (Array dependencies) obj)
      end
  end.

Fixpoint export_entities (s : Mem) (entities : list Entity) : result (list Value) AxonError :=
  match entities with
  | [] => Ok []
  | entity :: rest =>
      let? obj := match e_data entity with
                  | Object obj => Ok obj
                  | _ => Err (StorageError "bead entity data must be an object")
                  end in
      let? obj := merge_typed_dependencies_for_export (e_id entity) obj s in
      let? values := export_entities s rest in
      Ok (Object (map_insert "id" (JString (e_id entity)) obj) :: values)
  end.

Definition export_beads (s : Mem) : result Value AxonError :=
  let? entities := query_bead_entities None s in
  let? values := export_entities s entities in
  Ok (Array values).

(** ** Import *)

Record ImportBeadPlan : Type := {
  ip_id : string;
  ip_data : Value;
  ip_dependency_links : list (string * string)
}.

Definition existing_bead_ids (s : Mem) : result (gset string) AxonError :=
  let? entities := query_bead_entities None s in
  Ok (list_to_set (map e_id entities)).

Fixpoint plan_items (existing_ids planned_ids : gset string) (items : list Value)
    : result (list ImportBeadPlan) AxonError :=
  match items with
  | [] => Ok []
  | item :: rest =>
      let? id := ok_or (value_get item "id" ≫= as_str) (InvalidArgument "bead missing id") in
      if bool_decide (id ∈ existing_ids) then plan_items existing_ids planned_ids rest
      else if bool_decide (id ∈ planned_ids) then Err (AlreadyExists ("bead " +:+ id))
      else
        let? obj := match item with
                    | Object obj => Ok obj
                    | _ => Err (InvalidArgument "bead item must be an object")
                    end in
        let entity_data := Object (map_remove "id" obj) in
        let? _ := validate bead_schema entity_data in
        let? plan := plan_items existing_ids ({[id]} ∪ planned_ids) rest in
        Ok ({| ip_id := id; ip_data := entity_data;
               ip_dependency_links := dependency_links_from_import_item item id |} :: plan)
  end.

Definition build_import_plan (items : list Value) (s : Mem) : result (list ImportBeadPlan) AxonError :=
  let? existing_ids := existing_bead_ids s in
  plan_items existing_ids ∅ items.

(** The identifiers come in some order; the first error depends on it. *)
Fixpoint dependency_graph_of (s : Mem) (ids : list string) : result (gmap string (gset string)) AxonError :=
  match ids with
  | [] => Ok ∅
  | id :: rest =>
      let? deps := direct_dependency_entities id s in
      let? graph := dependency_graph_of s rest in
      Ok (<[id := list_to_set (map e_id deps)]> graph)
  end.

Definition existing_dependency_graph (existing_ids : gset string) (s : Mem)
    : result (gmap string (gset string)) AxonError :=
  dependency_graph_of s (elements existing_ids).

(** The loop over the links that can be made, with the growing graph. *)
Fixpoint check_import_links (graph : gmap string (gset string)) (links : list (string * string))
    : result unit AxonError :=
  match links with
  | [] => Ok tt
  | (source_id, target_id) :: rest =>
      if bool_decide (source_id = target_id)
      then Err (InvalidOperation ("circular dependency: " +:+ source_id +:+ " cannot depend on itself"))
      else if graph_path_exists graph target_id source_id
      then Err (InvalidOperation ("circular dependency: " +:+ target_id +:+ " already reaches " +:+ source_id))
      else check_import_links (<[source_id := {[target_id]} ∪ default ∅ (graph !! source_id)]> graph) rest
  end.

Definition validate_import_dependency_links (plan : list ImportBeadPlan) (s : Mem)
    : result (list (string * string)) AxonError :=
  let? existing_ids := existing_bead_ids s in
  let all_ids : gset string := existing_ids ∪ list_to_set (map ip_id plan) in
  let? graph := existing_dependency_graph existing_ids s in
  let links := List.filter (fun l => bool_decide (fst l ∈ all_ids) && bool_decide (snd l ∈ all_ids))
                 (flat_map ip_dependency_links plan) in
  let? _ := check_import_links graph links in
  Ok links.

Fixpoint create_planned (n : nat) (plan : list ImportBeadPlan) : MOp unit :=
  match plan with
  | [] => ret tt
  | item :: rest =>
      do! create_entity_in_system_collection (WEntity n) (ip_id item) (ip_data item) (Some IMPORT_ACTOR) None;
      create_planned (Datatypes.S n) rest
  end.

Fixpoint add_planned_links (n : nat) (links : list (string * string)) : MOp unit :=
  match links with
  | [] => ret tt
  | (source_id, target_id) :: rest =>
      do result <- attempt (add_dependency_at (WLink n) source_id target_id);
      match result with
      | Ok _ | Err (AlreadyExists _) => add_planned_links (Datatypes.S n) rest
      | Err err => fail err
      | Panic => ret tt
      end
  end.

Definition import_beads (data : Value) : MOp nat :=
  do! init_beads;
  do items <- lift (ok_or (as_array data) (InvalidArgument "expected JSON array"));
  do import_plan <- reads (build_import_plan items);
  do dependency_links <- reads (validate_import_dependency_links import_plan);
  do! create_planned 0 import_plan;
  do! add_planned_links 0 dependency_links;
  ret (length import_plan).
End Operations.
