(* ===== verification/BeadSearch.v ===== *)
(** * The dependency graph of beads and its searches

    The invariant of a store with beads, and what the reads of beads answer in
    such a store: the collection page by page, the neighbours of a bead, whether
    a path leads from one bead to another, and everything a bead depends on.
    The searches return, and answer exactly. *)

From S2P Require Import Prelude Json Ids Types Bfs IndexKeys AuditLog Schema PolicyPlan PolicyCycles.
From S2P Require Import PolicyCompile Rules Gates JsonOps AuthStore Roles Storage Catalog PolicyEval PolicyDecide.
From S2P Require Import Interface MemoryTx MemoryRows Transactions Requests EntityWrites EntityReads Graph Queries.
From S2P Require Import IndexQueries EntityProofs MemoryCommit EntitySpec Evolution Rollback Explain Templates.
From S2P Require Import QueryPlan QueryProofs Collections Beads.
Local Open Scope axon_scope.

(** ** The search over identifiers *)

Section Walk.
Context {X E : Type}.
Variable id_of : X -> string.
Variable next : string -> result (list X) E.
Variable stop : string -> bool.

(** The nodes that the search can come to, and a set they lie in. *)
Variable P : string -> Prop.
Variable U : gset string.
Hypothesis next_ok : forall a, P a ->
  exists xs, next a = Ok xs /\ forall x, In x xs -> P (id_of x) /\ id_of x ∈ U.

Lemma visit_new_spec xs : forall visited,
  match visit_new id_of stop visited xs with
  | None => exists x, In x xs /\ stop (id_of x) = true
  | Some (v, fresh) =>
      v = list_to_set (map id_of fresh) ∪ visited /\ NoDup (map id_of fresh) /\
      (forall x, In x fresh -> In x xs /\ id_of x ∉ visited) /\
      forall x, In x xs -> stop (id_of x) = false /\ id_of x ∈ v
  end.
Proof.
  induction xs as [|x xs IH]; intros visited; cbn [visit_new].
  { cbn [map list_to_set]. split_and!; [by rewrite union_empty_l_L|constructor|done..]. }
  destruct (stop (id_of x)) eqn:Hs; [exists x; by split; [left|]|]. case_bool_decide as Hv.
  - specialize (IH visited). destruct (visit_new id_of stop visited xs) as [[v f]|].
    + destruct IH as (-> & Hnd & Hf & Hall). split_and!; [done|done| |].
      * intros y Hy. destruct (Hf y Hy). by split; [right|].
      * intros y [<-|Hy]; [|by apply Hall]. split; [done|]. set_solver.
    + destruct IH as (y & Hy & Hst). exists y. by split; [right|].
  - specialize (IH ({[id_of x]} ∪ visited)). destruct (visit_new id_of stop _ xs) as [[v f]|].
    + destruct IH as (-> & Hnd & Hf & Hall). cbn [map list_to_set]. split_and!.
      * set_solver.
      * apply list.NoDup_cons. split; [|done]. intros Hin.
        apply list_elem_of_In, in_map_iff in Hin as (y & Hy & Hin). destruct (Hf y Hin) as [_ Hn]. set_solver.
      * intros y [<-|Hy]; [by split; [left|]|]. destruct (Hf y Hy). split; [by right|set_solver].
      * intros y [<-|Hy]; [|by apply Hall]. split; [done|]. set_solver.
    + destruct IH as (y & Hy & Hst). exists y. by split; [right|].
Qed.

(** The neighbours of a node are in the set, and [stop] asks for none of them. *)
Definition expanded (V : gset string) (a : string) : Prop :=
  exists xs, next a = Ok xs /\ forall x, In x xs -> stop (id_of x) = false /\ id_of x ∈ V.

Lemma expanded_mono V V' a : V ⊆ V' -> expanded V a -> expanded V' a.
Proof.
  intros HV (xs & Hn & Hall). exists xs. split; [done|]. intros x [? ?]%Hall. split; [done|]. by apply HV.
Qed.

Lemma unseen_fresh (fresh : list string) (visited : gset string) :
  NoDup fresh -> (forall i, i ∈ fresh -> i ∈ U /\ i ∉ visited) ->
  (size (U ∖ (list_to_set fresh ∪ visited)) + length fresh = size (U ∖ visited))%nat.
Proof.
  intros Hnd Hf. rewrite <-(gset_size_list fresh) by done.
  assert (Hsub : (list_to_set fresh : gset string) ⊆ U ∖ visited) by set_solver.
  assert (Heq : U ∖ (list_to_set fresh ∪ visited) = (U ∖ visited) ∖ list_to_set fresh) by set_solver.
  rewrite Heq, size_difference by done. apply subseteq_size in Hsub. lia.
Qed.

(** What the search answers: a hit, or all that it found, each once, with
    everything expanded. *)
Lemma walk_spec fuel : forall visited queue,
  (forall a, In a queue -> P a) -> (forall a, a ∈ visited -> In a queue \/ expanded visited a) ->
  (length queue + size (U ∖ visited) <= fuel)%nat ->
  match walk_ids id_of next stop fuel visited queue with
  | Ok None => exists a xs x, P a /\ next a = Ok xs /\ In x xs /\ stop (id_of x) = true
  | Ok (Some found) =>
      let V := list_to_set (map id_of found) ∪ visited in
      NoDup (map id_of found) /\ (forall x, In x found -> P (id_of x) /\ id_of x ∉ visited) /\
      forall a, a ∈ V -> expanded V a
  | _ => False
  end.
Proof.
  assert (Hempty : forall visited, (forall a, a ∈ visited -> In a [] \/ expanded visited a) ->
    let V := list_to_set (map id_of []) ∪ visited in
    NoDup (map id_of []) /\ (forall x : X, In x [] -> P (id_of x) /\ id_of x ∉ visited) /\ forall a, a ∈ V -> expanded V a).
  { intros visited Hd. cbn [map list_to_set]. rewrite union_empty_l_L. split_and!; [constructor|done|].
    intros a Ha. by destruct (Hd a Ha). }
  induction fuel as [|fuel IH]; intros visited [|current queue] HP Hd Hf; cbn [walk_ids];
    try (by apply Hempty); [simpl in Hf; lia|].
  destruct (next_ok current (HP _ (or_introl eq_refl))) as (xs & Hn & Hxs). rewrite Hn. cbn [result_bind].
  pose proof (visit_new_spec xs visited) as Hv. destruct (visit_new id_of stop visited xs) as [[v fresh]|].
  2: { destruct Hv as (x & Hx & Hs). exists current, xs, x. split_and!; try done. by apply HP; left. }
  destruct Hv as (-> & Hnd & Hfresh & Hall). specialize (IH (list_to_set (map id_of fresh) ∪ visited) (queue ++ map id_of fresh)).
  assert (Hsize : (size (U ∖ (list_to_set (map id_of fresh) ∪ visited)) + length (map id_of fresh) = size (U ∖ visited))%nat).
  { apply unseen_fresh; [done|]. intros i (x & <- & Hx)%list_elem_of_In%in_map_iff.
    destruct (Hfresh x Hx) as [Hin Hnot]. split; [by apply Hxs|done]. }
  specialize (IH ltac:(intros a [Ha|Ha]%in_app_iff; [by apply HP; right|];
    apply in_map_iff in Ha as (x & <- & Hx); by apply Hxs, Hfresh)).
  destruct (walk_ids id_of next stop fuel _ _) as [[found|]|e|]; cbn [result_bind option_map];
    [destruct IH as (Hnd' & Hfound & Hex)|apply IH|apply IH|apply IH];
    try (by rewrite length_app; simpl in Hf; lia);
    try (intros a [Ha|Ha]%elem_of_union;
      [left; apply in_app_iff; right; apply elem_of_list_to_set in Ha; by apply list_elem_of_In|];
      destruct (Hd a Ha) as [[<-|Hq]|He];
      [right; by exists xs|left; apply in_app_iff; by left|right; eapply expanded_mono; [|exact He]; set_solver]).
  assert (HV : list_to_set (map id_of (fresh ++ found)) ∪ visited =
    (list_to_set (map id_of found) ∪ (list_to_set (map id_of fresh) ∪ visited) : gset string)).
  { rewrite map_app, list_to_set_app_L. set_solver. }
  cbv zeta. rewrite HV. split_and!; [|intros x [Hx|Hx]%in_app_iff|exact Hex].
  - rewrite map_app. apply list.NoDup_app. split_and!; [done| |done]. intros i Hi Hin.
    apply list_elem_of_In, in_map_iff in Hin as (x & <- & Hx). destruct (Hfound x Hx) as [_ Hnot]. set_solver.
  - destruct (Hfresh x Hx) as [Hin Hnot]. split; [by apply Hxs|done].
  - destruct (Hfound x Hx) as [HPx Hnot]. split; [done|set_solver].
Qed.
End Walk.

Section Beads.
Context `{RuleEnv} `{TextFormat} `{ContentHasher}.
Variable fuel depth : nat.
Variable to_lowercase : string -> string.

Abbreviation Mem := MemoryStorageAdapter (only parsing).

(** ** The invariant *)

Definition bead_key : QualifiedCollectionId := from_parts default_ns BEAD_COLLECTION.
Definition link_key : QualifiedCollectionId := from_parts default_ns links_collection.

(** The bead [a] depends on the bead [b]: a stored link says so. *)
Definition depends (s : Mem) (a b : string) : Prop :=
  exists i e l, stored s link_key i = Some e /\ link_from_entity e = Some l /\ l_link_type l = DEPENDS_ON_LINK /\
    near_end Forward l = (BEAD_COLLECTION, a) /\ far_end Forward l = (BEAD_COLLECTION, b).

(** A dependency of a bead, wherever it leads. *)
Definition bead_link (s : Mem) (l : Link) : Prop :=
  exists i e, stored s link_key i = Some e /\ link_from_entity e = Some l /\ l_link_type l = DEPENDS_ON_LINK /\
    l_source_collection l = BEAD_COLLECTION.

(** The system collections are registered in the default namespace only. *)
Definition plain_names (s : Mem) : Prop :=
  forall key, key ∈ s_collections s -> is_reserved_collection (q_collection key) = true ->
    key = from_parts default_ns (q_collection key).

Record beads_ok (s : Mem) : Prop := {
  bo_idle : s_tx_snapshot s = None;
  bo_names : plain_names s;
  (** No schema of the beads restricts access. *)
  bo_open : forall v e, default ∅ (s_schema_versions s !! bead_key) !! v = Some e ->
    cs_access_control (fst e) = None;
  bo_ids : forall i e, stored s bead_key i = Some e -> e_id e = i;
  bo_targets : forall l, bead_link s l -> l_target_collection l = BEAD_COLLECTION;
  bo_ends : forall a b, depends s a b -> is_Some (stored s bead_key a) /\ is_Some (stored s bead_key b);
  bo_acyclic : forall a, ~ tc (depends s) a a
}.

Lemma plain_key s c :
  plain_names s -> is_reserved_collection c = true -> snd (parse c) = c -> fst (parse c) = default_ns ->
  resolve_catalog_key s c = Ok (from_parts default_ns c).
Proof.
  intros Hn Hc Hsnd Hfst. unfold resolve_catalog_key.
  destruct (parse c) as [ns bare]. cbn [fst snd] in *. subst. rewrite bool_decide_true by done. cbn [negb].
  assert (Hall : forall k, In k (registered_catalog_keys s c) -> k = from_parts default_ns c).
  { intros k Hk. unfold registered_catalog_keys in Hk. apply sort_by_In, filter_In in Hk as [Hk Hq].
    apply bool_decide_eq_true in Hq as <-. apply Hn; [|done]. by apply elem_of_elements, list_elem_of_In. }
  destruct (registered_catalog_keys s c) as [|k [|k' ks]] eqn:Hk; [done|by rewrite (Hall k (or_introl eq_refl))|].
  rewrite bool_decide_true; [done|]. apply list_elem_of_In. left. by apply Hall; left.
Qed.

Lemma bead_resolves s : beads_ok s -> resolve_catalog_key s BEAD_COLLECTION = Ok bead_key.
Proof. intros Hs. by apply plain_key; [apply Hs|..]. Qed.

Lemma links_resolve s : beads_ok s -> resolve_catalog_key s links_collection = Ok link_key.
Proof. intros Hs. by apply plain_key; [apply Hs|..]. Qed.

(** ** Reads of one bead *)

Lemma open_schema s sch :
  beads_ok s -> get_schema s BEAD_COLLECTION = Ok (Some sch) -> cs_access_control sch = None.
Proof.
  intros Hs. rewrite (get_schema_versions _ _ _ (bead_resolves s Hs)).
  destruct (last_version _) as [[v e]|] eqn:Hl; [|done]. intros [= <-]. apply last_version_some in Hl as [Hl _].
  unfold versions_of in Hl. rewrite (bead_resolves s Hs) in Hl. by eapply (bo_open s Hs).
Qed.

(** Reads of beads are not restricted. *)
Lemma bead_read_plan_ok s : beads_ok s -> read_plan fuel s BEAD_COLLECTION None None = Ok None.
Proof.
  intros Hs. unfold read_plan. cbn [sr_get_schema memory_reads].
  destruct (get_schema s BEAD_COLLECTION) as [[sch|]|e|] eqn:Hg; try done; cbn [result_bind].
  - unfold policy_snapshot_for_request. by rewrite (open_schema s sch Hs Hg).
  - by rewrite (get_schema_versions _ _ _ (bead_resolves s Hs)) in Hg.
  - by rewrite (get_schema_versions _ _ _ (bead_resolves s Hs)) in Hg.
Qed.

Lemma in_range_scan s c k :
  resolve_catalog_key s c = Ok k ->
  exists rows, sr_range_scan s c = Ok rows /\ forall e, In e rows <-> exists i, stored s k i = Some e.
Proof.
  intros Hk. cbn [sr_range_scan memory_reads]. unfold range_scan. rewrite Hk. cbn [result_bind]. unfold stored.
  destruct (s_data s !! k) as [col|]; cbn [mbind option_bind]; [|by exists []; split; [|naive_solver]].
  eexists. split; [reflexivity|]. intros e. cbn [truncate_opt]. rewrite sort_by_In, filter_In, in_map_iff.
  cbn [when_some andb]. split.
  - intros [([i e'] & <- & Hi%list_elem_of_In%elem_of_map_to_list) _]. by exists i.
  - intros [i Hi]. split; [|done]. exists (i, e). split; [done|]. by apply list_elem_of_In, elem_of_map_to_list.
Qed.

Lemma in_somes {A} (l : list (option A)) a : In a (somes l) <-> In (Some a) l.
Proof. induction l as [|[b|] l IH]; [done|rewrite somes_cons|rewrite somes_cons]; simpl; naive_solver. Qed.

(** The links that the searches load are those of the stored rows. *)
Lemma in_loaded_links s :
  beads_ok s -> exists links, load_all_links s = Ok links /\
    forall l, In l links <-> exists i e, stored s link_key i = Some e /\ link_from_entity e = Some l.
Proof.
  intros Hs. destruct (in_range_scan s links_collection link_key (links_resolve s Hs)) as (rows & Hrows & Hin).
  unfold load_all_links. rewrite Hrows. eexists. split; [reflexivity|]. intros l.
  rewrite in_somes, in_map_iff. split.
  - intros (e & Hl & [i Hi]%Hin). eauto.
  - intros (i & e & Hi & Hl). exists e. split; [done|]. apply Hin. eauto.
Qed.

(** Older rows are projected without failing. *)
Lemma project_returns s e : beads_ok s -> exists r, project_entity_for_lazy_read s BEAD_COLLECTION e = Ok r.
Proof.
  intros Hs. unfold project_entity_for_lazy_read. cbn [sr_get_schema sr_get_schema_version memory_reads].
  rewrite (get_schema_versions _ _ _ (bead_resolves s Hs)). cbn [result_bind].
  destruct (option_map _ _) as [active|]; [|by eexists]. destruct (e_schema_version e) as [v|]; [|by eexists].
  rewrite (get_schema_version_versions _ _ _ v (bead_resolves s Hs)). cbn [result_bind].
  repeat case_match; by eexists.
Qed.

(** What a search sees of a bead: the stored one, under its id. *)
Lemma bead_probe s b :
  beads_ok s -> exists o, traverse_probe fuel depth s None None None (BEAD_COLLECTION, b) = Ok o /\
    match stored s bead_key b with None => o = None | Some _ => exists e, o = Some e /\ e_id e = b end.
Proof.
  intros Hs. unfold traverse_probe, get_visible_entity_for_read_with_context.
  cbn [fst snd sr_get memory_reads]. unfold get. rewrite (bead_resolves s Hs). cbn [result_bind].
  destruct (stored s bead_key b) as [e|] eqn:Hst; cbn [result_bind]; [|by exists None].
  unfold entity_visible_for_read_with_context. rewrite (bead_read_plan_ok s Hs). cbn [result_bind when_some].
  unfold redact_entity_for_read_with_context, prepare_entity_for_read_with_context.
  destruct (project_returns s e Hs) as [[e' w] Hp]. rewrite Hp. cbn [result_bind]. rewrite (bead_read_plan_ok s Hs).
  cbn [result_bind]. exists (Some e'). split; [done|]. exists e'. split; [done|].
  rewrite (projected_id _ _ _ _ _ Hp). by apply (bo_ids s Hs).
Qed.

Lemma bead_visible s b : beads_ok s ->
  Graph.visible fuel depth s None None (BEAD_COLLECTION, b) = Ok (stored s bead_key b).
Proof.
  intros Hs. unfold Graph.visible, get_visible_entity_for_read_with_context.
  cbn [fst snd sr_get memory_reads]. unfold get. rewrite (bead_resolves s Hs). cbn [result_bind].
  destruct (stored s bead_key b) as [e|]; cbn [result_bind]; [|done].
  unfold entity_visible_for_read_with_context. by rewrite (bead_read_plan_ok s Hs).
Qed.

(** ** The graph that the searches see *)

Lemma bead_edge {X} s links (probe : Node -> result (option X) AxonError) a node :
  beads_ok s -> (forall l, In l links <-> exists i e, stored s link_key i = Some e /\ link_from_entity e = Some l) ->
  (forall b, is_Some (stored s bead_key b) -> exists x, probe (BEAD_COLLECTION, b) = Ok (Some x)) ->
  edge links Forward (Some DEPENDS_ON_LINK) probe (BEAD_COLLECTION, a) node <->
  exists b, node = (BEAD_COLLECTION, b) /\ depends s a b.
Proof.
  intros Hs Hin Hp. split.
  - intros (l & x & Hl & Ht & Hn & Hf & _). apply Hin in Hl as (i & e & Hst & Hl). specialize (Ht _ eq_refl).
    cbn [near_end] in Hn. injection Hn as Hc Ha.
    assert (Htc : l_target_collection l = BEAD_COLLECTION).
    { apply (bo_targets s Hs). exists i, e. by split_and!. }
    exists (l_target_id l). cbn [far_end] in Hf. rewrite Htc in Hf. split; [done|].
    exists i, e, l. split_and!; try done; cbn [near_end far_end]; congruence.
  - intros (b & -> & Hd). destruct (bo_ends s Hs a b Hd) as [_ [x Hx]%Hp].
    destruct Hd as (i & e & l & Hst & Hl & Ht & Hn & Hf). exists l, x. split_and!; try done.
    + apply Hin. eauto.
    + by intros lt [= <-].
Qed.

(** The nodes within reach of a bead are beads. *)
Lemma bead_steps {X} s links (probe : Node -> result (option X) AxonError) n a node :
  beads_ok s -> (forall l, In l links <-> exists i e, stored s link_key i = Some e /\ link_from_entity e = Some l) ->
  (forall b, is_Some (stored s bead_key b) -> exists x, probe (BEAD_COLLECTION, b) = Ok (Some x)) ->
  bsteps (edge links Forward (Some DEPENDS_ON_LINK) probe) n (BEAD_COLLECTION, a) node ->
  exists b, node = (BEAD_COLLECTION, b) /\ rtc (depends s) a b.
Proof.
  intros Hs Hin Hp. revert a. induction n as [|n IH]; intros a Hb; inversion Hb as [|? ? y ? Hay Hyn]; subst.
  - by exists a.
  - by exists a.
  - apply (bead_edge s links probe a y Hs Hin Hp) in Hay as (b & -> & Hab).
    apply IH in Hyn as (c & -> & Hbc). exists c. split; [done|]. by eapply rtc_l.
Qed.

(** A link that the search can come to leads to a bead. *)
Lemma bead_target s links l :
  beads_ok s -> (forall l, In l links <-> exists i e, stored s link_key i = Some e /\ link_from_entity e = Some l) ->
  In l (typed_links (Some DEPENDS_ON_LINK) links) -> l_source_collection l = BEAD_COLLECTION ->
  far_end Forward l = (BEAD_COLLECTION, l_target_id l).
Proof.
  intros Hs Hin [(i & e & Hst & Hl)%Hin Ht]%in_typed_links Hc. cbn [far_end]. f_equal. apply (bo_targets s Hs).
  exists i, e. split_and!; try done. by apply Ht.
Qed.

(** ** The neighbours of a bead *)

Lemma forall2_zip_map {A B C D} (R : A -> B * C -> Prop) (f : A -> D) (g : B -> D) la : forall lb lc,
  Forall2 R la (zip lb lc) -> length lc = length la -> length lb = length la ->
  (forall a b c, In a la -> R a (b, c) -> f a = g b) -> map f la = map g lb.
Proof.
  induction la as [|a la IH]; intros [|b lb] [|c lc] Hall Hc Hb Hr; try done. cbn [zip zip_with] in Hall.
  inversion Hall; subst. cbn [map]. f_equal; [by apply (Hr a b c); [left|]|]. apply (IH lb lc); [done|simpl in *; lia..|].
  intros x y z Hx. by apply Hr; right.
Qed.

Lemma direct_exact s a :
  beads_ok s -> exists es, direct_dependency_entities fuel depth a s = Ok es /\ NoDup (map e_id es) /\
    forall b, In b (map e_id es) <-> b <> a /\ depends s a b.
Proof.
  intros Hs. destruct (in_loaded_links s Hs) as (links & Hlinks & Hin).
  assert (Hp : forall b, is_Some (stored s bead_key b) -> exists x,
    traverse_probe fuel depth s None None None (BEAD_COLLECTION, b) = Ok (Some x)).
  { intros b [e He]. destruct (bead_probe s b Hs) as (o & Ho & Hm). rewrite He in Hm. destruct Hm as (e' & -> & _). by exists e'. }
  set (req := {| tq_collection := BEAD_COLLECTION; tq_id := a; tq_link_type := Some DEPENDS_ON_LINK;
                 tq_max_depth := Some 1%nat; tq_direction := Forward; tq_hop_filter := None |}).
  destruct (traverse_answers fuel depth s None None req true links (BEAD_COLLECTION, a) eq_refl)
    as (r & Hr & Hnd & Hnode & Hshown & Hlp & Hle).
  - exact Hlinks.
  - pose proof (bead_visible s a Hs) as Hv. cbn [fst snd sr_get memory_reads]. unfold get.
    rewrite (bead_resolves s Hs). cbn [result_bind]. destruct (stored s bead_key a) as [e|]; [right; by exists e|by left].
  - intros l n Hl Hn. unfold req in Hl, Hn |- *. cbn [tq_direction tq_link_type tq_hop_filter] in *.
    apply (bead_steps s links _ n a _ Hs Hin Hp) in Hn as (b & Hn & _). injection Hn as Hc _.
    rewrite (bead_target s links l Hs Hin Hl Hc). destruct (bead_probe s (l_target_id l) Hs) as (o & Ho & _). by exists o.
  - exists (ts_entities r). unfold direct_dependency_entities, direct_dependencies, traverse_system_collection.
    fold req. rewrite Hr. cbn [result_bind]. split; [done|]. change (tq_direction req) with Forward in *.
    change (depth_limit (tq_max_depth req)) with 1%nat in Hnode.
    assert (Hmap : map (far_end Forward) (ts_links_traversed r) = map (fun e => (BEAD_COLLECTION, e_id e)) (ts_entities r)).
    { apply (forall2_zip_map _ _ _ _ _ _ Hshown); [done..|]. intros l e p Hl (Hpr & _). cbn [fst snd] in Hpr.
      change (tq_direction req) with Forward in Hpr. change (tq_hop_filter req) with (@None FilterNode) in Hpr.
      assert (Hn : far_end Forward l ∈ (BEAD_COLLECTION, a) :: map (far_end Forward) (ts_links_traversed r)).
      { right. apply list_elem_of_In. by apply in_map. }
      apply Hnode in Hn. apply (bead_steps s links _ 1 a _ Hs Hin Hp) in Hn as (b & Hn & _). rewrite Hn in *.
      destruct (bead_probe s b Hs) as (o & Ho & Hm). rewrite Ho in Hpr. injection Hpr as ->.
      destruct (stored s bead_key b); [|done]. destruct Hm as (e' & [= <-] & <-). done. }
    rewrite Hmap in *. apply list.NoDup_cons in Hnd as [Hstart Hnd]. split.
    + apply (NoDup_fmap_1 (fun i => (BEAD_COLLECTION, i))). by rewrite <-list_fmap_compose.
    + assert (Hids : forall b, In b (map e_id (ts_entities r)) <->
        (BEAD_COLLECTION, b) ∈ map (fun e => (BEAD_COLLECTION, e_id e)) (ts_entities r)).
      { intros b. rewrite list_elem_of_In, !in_map_iff. split; intros (e & He & Hine); exists e; split; congruence. }
      intros b. rewrite Hids. split.
      * intros Hb. assert (Hne : b <> a) by (intros ->; done). split; [done|].
        assert (Hb1 := proj1 (Hnode (BEAD_COLLECTION, b)) ltac:(by right)).
        inversion Hb1 as [|? ? y ? Hay Hyb]; subst; [done|]. inversion Hyb; subst.
        apply (bead_edge s links _ a _ Hs Hin Hp) in Hay as (b' & Heq & Hd). congruence.
      * intros [Hne Hd]. assert (Hb : (BEAD_COLLECTION, b) ∈ (BEAD_COLLECTION, a) :: map (fun e => (BEAD_COLLECTION, e_id e)) (ts_entities r)).
        { apply Hnode. eapply bsteps_l; [|constructor]. apply (bead_edge s links _ a _ Hs Hin Hp). by exists b. }
        apply elem_of_cons in Hb as [Hb|Hb]; [congruence|done].
Qed.

(** ** Pages of beads *)

(** The filters of bead queries: none, or a status. *)
Definition bead_filter (filter : option FilterNode) : Prop :=
  filter = None \/ exists v, filter = Some (FField {| ff_field := STATUS_FIELD; ff_op := FEq; ff_value := v |}).

Lemma bead_candidates s filter schema ids :
  beads_ok s -> bead_filter filter -> try_index_lookup s BEAD_COLLECTION filter schema = Ok ids ->
  (filter = None -> ids = None) /\ (ids = None \/ exists l, ids = Some l /\ StronglySorted id_lt l).
Proof.
  intros Hs [->|[v ->]]; [by intros [= <-]; split; [|left]|]. intros Hr. split; [done|]. revert Hr. destruct schema as [sch|]; [|by intros [= <-]; left].
  cbn [try_index_lookup]. case_bool_decide; [by intros [= <-]; left|].
  destruct (find _ _) as [idx|]; [|by intros [= <-]; left]. intros (o & _ & Hr)%result_bind_ok.
  destruct o as [val|]; [|by injection Hr as <-; left]. cbn [ff_op ff_field is_eq_op] in Hr.
  cbn [sr_index_lookup memory_reads] in Hr. unfold index_lookup in Hr. rewrite (bead_resolves s Hs) in Hr.
  cbn [result_bind result_ok] in Hr. injection Hr as <-. right. eexists. split; [done|].
  destruct (s_indexes s !! _); [apply ids_in_order_sorted|constructor].
Qed.

(** Without a policy a query keeps what its filter wants. *)
Lemma matching_sorted s schema filter all l :
  matching fuel depth s BEAD_COLLECTION schema filter None None all = Ok l -> StronglySorted row_lt all ->
  StronglySorted row_lt l /\ (forall e, In e l -> In e all) /\ (filter = None -> l = all).
Proof.
  revert l. induction all as [|e all IH]; intros l; cbn [matching]; [by intros [= <-]|].
  intros (wanted & Hw & Hr)%result_bind_ok Hsort. apply StronglySorted_inv in Hsort as [Hsort He].
  apply result_bind_ok in Hr as (kept & Hk & Hr). apply result_bind_ok in Hr as (rest & Hrest & Hr).
  destruct (IH _ Hrest Hsort) as (Hs & Hin & Hall).
  assert (Hkept : kept = wanted) by (destruct wanted; [by injection Hk|by injection Hk]). subst kept.
  destruct wanted; injection Hr as <-.
  - split_and!.
    + constructor; [done|]. rewrite List.Forall_forall in *. auto.
    + intros x [<-|Hx]; [by left|right; auto].
    + intros Hf. by rewrite Hall.
  - split_and!; [done|intros x Hx; right; auto|]. intros ->. discriminate Hw.
Qed.

Lemma bead_matched s filter m :
  beads_ok s -> bead_filter filter ->
  query_matched fuel depth to_lowercase s BEAD_COLLECTION filter [] None None = Ok m ->
  qm_compiled m = None /\ qm_snapshot m = None /\ StronglySorted row_lt (qm_matched m) /\
  (forall e, In e (qm_matched m) -> stored s bead_key (e_id e) = Some e) /\
  (filter = None -> forall e, stored s bead_key (e_id e) = Some e -> In e (qm_matched m)).
Proof.
  intros Hs Hfilter Hq. unfold query_matched in Hq. apply result_bind_ok in Hq as ([] & _ & Hq).
  apply result_bind_ok in Hq as (schema & Hsch & Hq). apply result_bind_ok in Hq as (ids & Hids & Hq).
  apply bead_candidates in Hids as [Hnone Hids]; [|done..].
  assert (Hsnap : policy_snapshot_for_request s BEAD_COLLECTION schema None None None = Ok None).
  { unfold policy_snapshot_for_request. destruct schema as [sch|]; [|done]. by rewrite (open_schema s sch Hs Hsch). }
  rewrite Hsnap in Hq. cbn [result_bind] in Hq.
  assert (Hc : match schema with Some _ | _ => Ok (E := AxonError) (@None PolicyPlan) end = Ok None) by (by destruct schema).
  rewrite Hc in Hq. cbn [result_bind] in Hq. unfold combine_candidate_ids in Hq. cbn [sp_candidate_ids storage_plan_default] in Hq.
  apply result_bind_ok in Hq as (scope & _ & Hq). apply result_bind_ok in Hq as ([] & _ & Hq).
  apply result_bind_ok in Hq as (all & Hall & Hq). apply result_bind_ok in Hq as (l & Hl & [= <-]).
  cbn [qm_compiled qm_snapshot qm_matched sort_matched]. split; [done|]. split; [done|].
  assert (Hrows : StronglySorted row_lt all /\ (forall e, In e all -> stored s bead_key (e_id e) = Some e) /\
    (ids = None -> forall e, stored s bead_key (e_id e) = Some e -> In e all)).
  { destruct Hids as [->|(cands & -> & Hsorted)].
    - destruct (scan_rows s BEAD_COLLECTION bead_key (bead_resolves s Hs) (bo_ids s Hs)) as (rows & Hrows & Hsort & Hin).
      cbn [fetch_candidates] in Hall. rewrite Hrows in Hall. injection Hall as <-.
      split_and!; [done|by intros e ?%Hin|by intros _ e ?%Hin].
    - cbn [fetch_candidates] in Hall. rewrite (fetch_rows s BEAD_COLLECTION bead_key (bead_resolves s Hs)) in Hall.
      injection Hall as <-. destruct (fetched_rows s bead_key (bo_ids s Hs) cands Hsorted) as [Hsort Hin].
      split_and!; [done|by intros e [_ ?]%Hin|done]. }
  destruct Hrows as (Hsort & Hst & Hevery). destruct (matching_sorted s schema filter all l Hl Hsort) as (Hs' & Hin & Heq).
  split_and!; [done|by intros e ?%Hin; auto|]. intros -> e He. rewrite Heq by done. apply Hevery; auto.
Qed.

Lemma prepare_returns s l : beads_ok s -> exists es ws, prepare fuel depth s BEAD_COLLECTION None None l = Ok (es, ws).
Proof.
  intros Hs. induction l as [|e l (es & ws & IH)]; [by exists [], []|]. cbn [prepare]. unfold prepare_one.
  destruct (project_returns s e Hs) as [[e' w] ->]. cbn [result_bind]. rewrite IH. cbn [result_bind]. eauto.
Qed.

Lemma sorted_ids l : StronglySorted row_lt l -> NoDup (map e_id l).
Proof.
  induction 1 as [|e l Hl IH He]; [constructor|]. cbn [map]. apply list.NoDup_cons. split; [|done].
  intros Hin. apply list_elem_of_In, in_map_iff in Hin as (x & Hx & Hin).
  rewrite List.Forall_forall in He. specialize (He x Hin). unfold row_lt in He. rewrite Hx in He.
  by apply id_lt_irrefl in He.
Qed.

(** A page of a query, in terms of the matches. *)
Lemma bead_page s filter m after n :
  query_matched fuel depth to_lowercase s BEAD_COLLECTION filter [] None None = Ok m ->
  query_entities_in_system_collection fuel depth to_lowercase filter (Some n) after s =
    let? (shown, next_cursor) := page after (Some n) (qm_matched m) in
    let? (entities, read_warnings) := prepare fuel depth s BEAD_COLLECTION (qm_compiled m) (qm_snapshot m) shown in
    Ok {| qr_entities := entities; qr_total_count := length (qm_matched m); qr_next_cursor := next_cursor;
          qr_policy_plan := option_map (fun _ => diagnostics (qm_storage_plan m)) (qm_compiled m);
          qr_read_warnings := read_warnings |}.
Proof.
  intros Hm. unfold query_entities_in_system_collection.
  set (req := {| qe_collection := BEAD_COLLECTION; qe_filter := filter; qe_sort := []; qe_limit := None;
                 qe_after_id := None; qe_count_only := false |}).
  exact (query_page fuel depth to_lowercase s req None None m after (Some n) eq_refl Hm).
Qed.

(** The fuel of the pages is more than the matches. *)
Lemma enough_pages s l :
  beads_ok s -> StronglySorted row_lt l -> (forall e, In e l -> stored s bead_key (e_id e) = Some e) ->
  (length l < page_fuel s)%nat.
Proof.
  intros Hs Hsort Hst. unfold page_fuel, count. rewrite (bead_resolves s Hs). cbn [result_bind].
  rewrite <-(length_map e_id). pose proof (sorted_ids l Hsort) as Hnd.
  unfold stored in Hst. destruct (s_data s !! bead_key) as [col|]; cbn [mbind option_bind] in Hst.
  - rewrite <-(gset_size_list (map e_id l)) by done. rewrite <-size_dom. apply Nat.lt_succ_r, subseteq_size.
    intros i Hi. apply elem_of_list_to_set, list_elem_of_In, in_map_iff in Hi as (e & <- & He).
    apply elem_of_dom. rewrite (Hst e He). by eexists.
  - destruct l as [|e l]; [simpl; lia|]. by specialize (Hst e (or_introl eq_refl)).
Qed.

Lemma query_pages_from s filter m :
  beads_ok s -> bead_filter filter ->
  query_matched fuel depth to_lowercase s BEAD_COLLECTION filter [] None None = Ok m ->
  forall pages rest seen, qm_matched m = seen ++ rest -> (length rest < pages)%nat ->
    exists es, query_pages fuel depth to_lowercase pages filter (cursor_after seen) s = Ok es /\
      map e_id es = map e_id rest.
Proof.
  intros Hs Hf Hm. destruct (bead_matched s filter m Hs Hf Hm) as (Hc & Hsn & Hsort & _).
  pose proof (sorted_ids _ Hsort) as Hnd. induction pages as [|pages IH]; intros rest seen Heq Hlen; [lia|].
  cbn [query_pages]. rewrite (bead_page s filter m _ _ Hm), Heq, Hc, Hsn. rewrite Heq in Hnd.
  assert (Hps : (0 < QUERY_PAGE_SIZE)%nat) by (unfold QUERY_PAGE_SIZE; lia).
  destruct (page_after seen rest QUERY_PAGE_SIZE Hnd Hps)
    as [[_ ->]|(p & more & -> & Hmore & Hp & -> & [c Hcur])]; cbn [result_bind].
  - destruct (prepare_returns s rest Hs) as (es & ws & Hpr). rewrite Hpr. cbn [result_bind qr_next_cursor qr_entities].
    exists es. split; [done|]. by eapply prepare_ids.
  - destruct (prepare_returns s p Hs) as (es & ws & Hpr). rewrite Hpr. cbn [result_bind qr_next_cursor qr_entities].
    rewrite Hcur, <-Hcur. rewrite app_assoc in Heq. rewrite length_app in Hlen.
    destruct (IH more (seen ++ p) Heq ltac:(lia)) as (es' & -> & Hes'). cbn [result_bind]. exists (es ++ es').
    split; [done|]. rewrite !map_app, Hes'. f_equal. by eapply prepare_ids.
Qed.

Lemma find_in_pages_from s id m :
  beads_ok s -> query_matched fuel depth to_lowercase s BEAD_COLLECTION None [] None None = Ok m ->
  forall pages rest seen, qm_matched m = seen ++ rest -> (length rest < pages)%nat ->
    match find_in_pages fuel depth to_lowercase pages id (cursor_after seen) s with
    | Ok e => e_id e = id /\ In id (map e_id rest)
    | Err e => e = NotFound ("bead " +:+ id) /\ ~ In id (map e_id rest)
    | Panic => False
    end.
Proof.
  intros Hs Hm. destruct (bead_matched s None m Hs (or_introl eq_refl) Hm) as (Hc & Hsn & Hsort & _).
  pose proof (sorted_ids _ Hsort) as Hnd.
  assert (Hfind : forall es, match List.find (fun e => bool_decide (e_id e = id)) es with
    | Some e => e_id e = id /\ In id (map e_id es) | None => ~ In id (map e_id es) end).
  { intros es. destruct (List.find _ es) as [e|] eqn:Hf.
    - apply List.find_some in Hf as [Hin He]. apply bool_decide_eq_true in He. split; [done|]. subst id. by apply in_map.
    - intros (e & He & Hin)%in_map_iff. pose proof (List.find_none _ _ Hf e Hin) as Hn. by apply bool_decide_eq_false in Hn. }
  induction pages as [|pages IH]; intros rest seen Heq Hlen; [lia|].
  cbn [find_in_pages]. rewrite (bead_page s None m _ _ Hm), Heq, Hc, Hsn. rewrite Heq in Hnd.
  assert (Hps : (0 < QUERY_PAGE_SIZE)%nat) by (unfold QUERY_PAGE_SIZE; lia).
  destruct (page_after seen rest QUERY_PAGE_SIZE Hnd Hps)
    as [[_ ->]|(p & more & -> & Hmore & Hp & -> & [c Hcur])]; cbn [result_bind].
  - destruct (prepare_returns s rest Hs) as (es & ws & Hpr). rewrite Hpr. cbn [result_bind qr_next_cursor qr_entities].
    specialize (Hfind es). rewrite (prepare_ids _ _ _ _ _ _ _ _ _ Hpr) in Hfind.
    destruct (List.find _ es); [done|]. by split.
  - destruct (prepare_returns s p Hs) as (es & ws & Hpr). rewrite Hpr. cbn [result_bind qr_next_cursor qr_entities].
    specialize (Hfind es). rewrite (prepare_ids _ _ _ _ _ _ _ _ _ Hpr) in Hfind. rewrite map_app.
    destruct (List.find _ es) as [e|]; [destruct Hfind; split; [done|]; apply in_app_iff; by left|].
    rewrite Hcur, <-Hcur. rewrite app_assoc in Heq. rewrite length_app in Hlen.
    specialize (IH more (seen ++ p) Heq ltac:(lia)).
    destruct (find_in_pages _ _ _ pages id _ s) as [e|e|]; [|destruct IH as [He Hn]|done].
    + destruct IH. split; [done|]. apply in_app_iff. by right.
    + split; [done|]. by intros [?|?]%in_app_iff.
Qed.

(** A query without a filter is answered. *)
Lemma bead_query_returns s :
  beads_ok s -> exists m, query_matched fuel depth to_lowercase s BEAD_COLLECTION None [] None None = Ok m.
Proof.
  intros Hs. unfold query_matched. cbn [check_filter_depth result_bind sr_get_schema sr_count memory_reads].
  destruct (get_schema s BEAD_COLLECTION) as [schema|e|] eqn:Hsch;
    [|by rewrite (get_schema_versions _ _ _ (bead_resolves s Hs)) in Hsch..].
  cbn [result_bind try_index_lookup].
  assert (Hsnap : policy_snapshot_for_request s BEAD_COLLECTION schema None None None = Ok None).
  { unfold policy_snapshot_for_request. destruct schema as [sch|]; [|done]. by rewrite (open_schema s sch Hs Hsch). }
  rewrite Hsnap. cbn [result_bind].
  assert (Hc : match schema with Some _ | _ => Ok (E := AxonError) (@None PolicyPlan) end = Ok None) by (by destruct schema).
  rewrite Hc. cbn [result_bind combine_candidate_ids sp_candidate_ids storage_plan_default].
  unfold count at 1. rewrite (bead_resolves s Hs). cbn [result_bind check_cost sp_missing_index storage_plan_default fetch_candidates].
  destruct (scan_rows s BEAD_COLLECTION bead_key (bead_resolves s Hs) (bo_ids s Hs)) as (rows & -> & _).
  cbn [result_bind].
  assert (Hm : matching fuel depth s BEAD_COLLECTION schema None None None rows = Ok rows).
  { induction rows as [|e rows IH]; [done|]. cbn [matching request_matches result_bind policy_allows]. by rewrite IH. }
  rewrite Hm. by eexists.
Qed.

(** All beads, each once. *)
Lemma query_all_exact s :
  beads_ok s -> exists es, query_bead_entities fuel depth to_lowercase None s = Ok es /\
    NoDup (map e_id es) /\ forall b, In b (map e_id es) <-> is_Some (stored s bead_key b).
Proof.
  intros Hs. destruct (bead_query_returns s Hs) as [m Hm].
  destruct (bead_matched s None m Hs (or_introl eq_refl) Hm) as (_ & _ & Hsort & Hst & Hall).
  destruct (query_pages_from s None m Hs (or_introl eq_refl) Hm (page_fuel s) (qm_matched m) [] eq_refl
    (enough_pages s _ Hs Hsort Hst)) as (es & Hes & Hids).
  exists es. split; [exact Hes|]. rewrite Hids. split; [by apply sorted_ids|]. intros b. rewrite in_map_iff. split.
  - intros (e & <- & He). rewrite (Hst e He). by eexists.
  - intros [e He]. exists e. pose proof (bo_ids s Hs b e He) as Hid. subst b. by split; [|apply Hall].
Qed.

(** The beads of a filter that the index can serve: no page is missing. *)
Lemma query_filtered_exact s filter m :
  beads_ok s -> bead_filter filter ->
  query_matched fuel depth to_lowercase s BEAD_COLLECTION filter [] None None = Ok m ->
  exists es, query_bead_entities fuel depth to_lowercase filter s = Ok es /\ map e_id es = map e_id (qm_matched m).
Proof.
  intros Hs Hf Hm. destruct (bead_matched s filter m Hs Hf Hm) as (_ & _ & Hsort & Hst & _).
  exact (query_pages_from s filter m Hs Hf Hm (page_fuel s) (qm_matched m) [] eq_refl (enough_pages s _ Hs Hsort Hst)).
Qed.

(** A bead is found when it is stored, and only then. *)
Lemma get_bead_exact s b :
  beads_ok s ->
  match get_bead_entity fuel depth to_lowercase b s with
  | Ok e => e_id e = b /\ is_Some (stored s bead_key b)
  | Err e => e = NotFound ("bead " +:+ b) /\ stored s bead_key b = None
  | Panic => False
  end.
Proof.
  intros Hs. destruct (bead_query_returns s Hs) as [m Hm].
  destruct (bead_matched s None m Hs (or_introl eq_refl) Hm) as (_ & _ & Hsort & Hst & Hall).
  pose proof (find_in_pages_from s b m Hs Hm (page_fuel s) (qm_matched m) [] eq_refl
    (enough_pages s _ Hs Hsort Hst)) as Hf.
  change (cursor_after []) with (@None EntityId) in Hf. fold (get_bead_entity fuel depth to_lowercase b s) in Hf.
  destruct (get_bead_entity _ _ _ b s) as [e|e|]; [| |done].
  - destruct Hf as [He Hin]. split; [done|]. apply in_map_iff in Hin as (x & <- & Hx). rewrite (Hst x Hx). by eexists.
  - destruct Hf as [He Hn]. split; [done|]. destruct (stored s bead_key b) as [x|] eqn:Hx; [|done]. exfalso. apply Hn.
    pose proof (bo_ids s Hs b x Hx) as Hid. subst b. apply in_map. by apply Hall.
Qed.

(** ** Paths of dependencies *)

(** The hypotheses on the search, for beads. *)
Lemma dependency_next s links :
  beads_ok s -> (forall l, In l links <-> exists i e, stored s link_key i = Some e /\ link_from_entity e = Some l) ->
  forall start a, rtc (depends s) start a ->
  exists es, direct_dependency_entities fuel depth a s = Ok es /\
    forall e, In e es -> rtc (depends s) start (e_id e) /\ e_id e ∈ (list_to_set (map l_target_id links) : gset string).
Proof.
  intros Hs Hin start a Ha. destruct (direct_exact s a Hs) as (es & Hes & _ & Hids). exists es. split; [done|].
  intros e He. assert (Hd : depends s a (e_id e)) by (apply Hids; by apply in_map). split; [by eapply rtc_r|].
  destruct Hd as (i & row & l & Hst & Hl & _ & _ & Hfar). apply elem_of_list_to_set, list_elem_of_In, in_map_iff.
  exists l. cbn [far_end] in Hfar. injection Hfar as _ <-. split; [done|]. apply Hin. eauto.
Qed.

(** What the search for everything from a bead answers. *)
Lemma dependency_walk s start (stop : string -> bool) :
  beads_ok s ->
  match walk_ids e_id (fun current => direct_dependency_entities fuel depth current s) stop (dependency_fuel s)
          {[start]} [start] with
  | Ok None => exists b, tc (depends s) start b /\ stop b = true
  | Ok (Some found) =>
      NoDup (map e_id found) /\ (forall b, b <> start -> In b (map e_id found) <-> tc (depends s) start b) /\
      ~ In start (map e_id found) /\
      forall a b, rtc (depends s) start a -> depends s a b -> b <> a -> stop b = false
  | _ => False
  end.
Proof.
  intros Hs. destruct (in_loaded_links s Hs) as (links & Hlinks & Hin).
  pose proof (walk_spec e_id (fun current => direct_dependency_entities fuel depth current s) stop
    (rtc (depends s) start) (list_to_set (map l_target_id links)) (dependency_next s links Hs Hin start)
    (dependency_fuel s) {[start]} [start]) as Hw.
  specialize (Hw ltac:(by intros a [<-|[]]) ltac:(intros a ->%elem_of_singleton; left; by left)).
  assert (Hfuel : (length [start] + size ((list_to_set (map l_target_id links) : gset string) ∖ {[start]}) <= dependency_fuel s)%nat).
  { unfold dependency_fuel. rewrite Hlinks. cbn [length]. apply le_n_S.
    etrans; [apply (subseteq_size _ (list_to_set (map l_target_id links))); set_solver|].
    rewrite <-(length_map l_target_id links). apply size_list_to_set_le. }
  specialize (Hw Hfuel).
  destruct (walk_ids _ _ _ _ _ _) as [[found|]|e|]; [|destruct Hw as (a & es & e & Ha & Hes & He & Hstop)|done..].
  - destruct Hw as (Hnd & Hfound & Hex). set (V := list_to_set (map e_id found) ∪ {[start]}) in *.
    assert (Hstep : forall a b, a ∈ V -> depends s a b -> b ∈ V /\ (b <> a -> stop b = false)).
    { intros a b Ha Hab. destruct (decide (b = a)) as [->|Hne]; [done|].
      destruct (Hex a Ha) as (es & Hes & Hall). destruct (direct_exact s a Hs) as (es' & Hes' & _ & Hids).
      rewrite Hes in Hes'. injection Hes' as <-. assert (Hb : In b (map e_id es)) by (by apply Hids).
      apply in_map_iff in Hb as (e & <- & He). by destruct (Hall e He). }
    assert (Hreach : forall a, rtc (depends s) start a -> a ∈ V).
    { intros a Ha. assert (Hs0 : start ∈ V) by set_solver. clear -Ha Hs0 Hstep. clearbody V.
      induction Ha as [x|x y z Hxy Hyz IH]; [done|]. apply IH. by apply (Hstep x y). }
    split_and!; [done| | |].
    + intros b Hne. split.
      * intros (e & <- & He)%in_map_iff. destruct (Hfound e He) as [Hr _].
        apply rtc_tc in Hr as [Heq|]; [congruence|done].
      * intros Hb%tc_rtc. apply Hreach in Hb. apply list_elem_of_In. unfold V in Hb. set_solver.
    + intros (e & He & Hine)%in_map_iff. destruct (Hfound e Hine) as [_ Hn]. set_solver.
    + intros a b Ha Hab Hne. by apply (Hstep a b (Hreach a Ha) Hab).
  - destruct (direct_exact s a Hs) as (es' & Hes' & _ & Hids). cbv beta in Hes. rewrite Hes in Hes'. injection Hes' as <-.
    exists (e_id e). split; [|done]. eapply tc_rtc_l; [exact Ha|]. apply tc_once, Hids. by apply in_map.
Qed.

(** The cycle check: it returns, and finds a path precisely when there is one. *)
Lemma path_exact s from target :
  beads_ok s -> exists r, dependency_path_exists fuel depth from target s = Ok r /\
    (r = true <-> rtc (depends s) from target).
Proof.
  intros Hs. unfold dependency_path_exists. case_bool_decide as Hne; [subst; by exists true|].
  destruct (in_loaded_links s Hs) as (links & Hlinks & Hin).
  set (req := {| rq_source_collection := BEAD_COLLECTION; rq_source_id := from; rq_target_collection := BEAD_COLLECTION;
                 rq_target_id := target; rq_link_type := Some DEPENDS_ON_LINK; rq_max_depth := None;
                 rq_direction := Forward |}).
  assert (Hp : forall b, is_Some (stored s bead_key b) -> exists x,
    Graph.visible fuel depth s None None (BEAD_COLLECTION, b) = Ok (Some x)).
  { intros b [e He]. exists e. by rewrite bead_visible, He. }
  destruct (reachable_answers fuel depth s None None req true links Hlinks) as (resp & Hr & Hreach & Hdepth).
  - eexists. by apply bead_visible.
  - intros l n Hl Hn. unfold req in Hl, Hn |- *. cbn [rq_direction rq_link_type rq_source_collection rq_source_id] in *.
    apply (bead_steps s links _ n from _ Hs Hin Hp) in Hn as (b & Hn & _). injection Hn as Hc _.
    rewrite (bead_target s links l Hs Hin Hl Hc). eexists. by apply bead_visible.
  - unfold reachable_system_collection. fold req. rewrite Hr. cbn [result_bind].
    destruct (rr_reachable resp) eqn:Hrr.
    { exists true. split; [done|]. split; [intros _|done]. symmetry in Hreach.
      apply bool_decide_eq_true in Hreach as [d Hd]. apply Hdepth in Hd as (_ & _ & [Hb _]).
      apply (bead_steps s links _ d from _ Hs Hin Hp) in Hb as (b & Hb & Hpath). cbn in Hb. by injection Hb as <-. }
    pose proof (dependency_walk s from (fun id => bool_decide (id = target)) Hs) as Hw.
    destruct (walk_ids _ _ _ _ _ _) as [[found|]|e|]; cbn [result_bind]; [| |done..].
    + destruct Hw as (_ & _ & _ & Hstop). exists false. split; [done|]. split; [done|]. intros Hpath. exfalso.
      assert (Hend : exists a, rtc (depends s) from a /\ depends s a target /\ target <> a).
      { clear -Hpath Hne. induction Hpath as [x|x y z Hxy Hyz IH]; [done|]. destruct (decide (y = z)) as [->|Hyz'].
        - exists x. split_and!; [apply rtc_refl|done|congruence].
        - destruct (IH Hyz') as (a & Ha & Hab & Hn). exists a. split; [by eapply rtc_l|done]. }
      destruct Hend as (a & Ha & Hab & Hn). specialize (Hstop a target Ha Hab Hn). by rewrite bool_decide_true in Hstop.
    + destruct Hw as (b & Hb & ->%bool_decide_eq_true). exists true. split; [done|]. split; [intros _|done]. by apply tc_rtc.
Qed.

(** Everything that a bead depends on, each once. *)
Lemma dependencies_exact s b :
  beads_ok s -> is_Some (stored s bead_key b) ->
  exists es, dependency_entities_unbounded fuel depth to_lowercase b s = Ok es /\ NoDup (map e_id es) /\
    forall a, In a (map e_id es) <-> tc (depends s) b a.
Proof.
  intros Hs Hb. unfold dependency_entities_unbounded. pose proof (get_bead_exact s b Hs) as Hg.
  destruct (get_bead_entity _ _ _ b s) as [e|e|]; cbn [result_bind]; [|destruct Hg as [_ Hg]; rewrite Hg in Hb; by destruct Hb|done].
  pose proof (dependency_walk s b (fun _ => false) Hs) as Hw.
  destruct (walk_ids _ _ _ _ _ _) as [[found|]|e'|]; cbn [result_bind]; [| |done..].
  - destruct Hw as (Hnd & Hids & Hn & _). exists found. split; [done|]. split; [done|]. intros a.
    destruct (decide (a = b)) as [->|Hne]; [|by apply Hids]. split; [done|]. intros Ha. by destruct (bo_acyclic s Hs b).
  - destruct Hw as (? & _ & ?). done.
Qed.
End Beads.

(** ** The graph of an import *)

Section ImportGraph.
Variable graph : gmap string (gset string).

Definition graph_edge (a b : string) : Prop := b ∈ default ∅ (graph !! a).

Lemma size_union_list (l : list (gset string)) : (size (⋃ l) <= list_sum (map size l))%nat.
Proof.
  induction l as [|a l IH]; cbn [union_list foldr map]; [by rewrite size_empty|].
  change (list_sum (size a :: map size l)) with (size a + list_sum (map size l))%nat.
  change (⋃ (a :: l)) with (a ∪ ⋃ l). rewrite size_union_alt.
  pose proof (subseteq_size (⋃ l ∖ a) (⋃ l) ltac:(set_solver)). lia.
Qed.

Lemma edge_end a b : graph_edge a b -> b ∈ ⋃ map snd (map_to_list graph).
Proof.
  unfold graph_edge. destruct (graph !! a) as [bs|] eqn:Ha; cbn [default]; [|set_solver]. intros Hb.
  apply elem_of_union_list. exists bs. split; [|done]. apply list_elem_of_In, in_map_iff. exists (a, bs).
  split; [done|]. by apply list_elem_of_In, elem_of_map_to_list.
Qed.

(** The search over the planned dependencies is exact. *)
Lemma graph_path_exact from target : graph_path_exists graph from target = true <-> rtc graph_edge from target.
Proof.
  unfold graph_path_exists. case_bool_decide as Hne; [by subst|].
  set (next := fun current => Ok (E := unit) (elements (default ∅ (graph !! current)))).
  pose proof (walk_spec id next (fun dependency => bool_decide (dependency = target)) (rtc graph_edge from)
    (⋃ map snd (map_to_list graph))) as Hw.
  specialize (Hw ltac:(intros a Ha; eexists; split; [reflexivity|]; intros x Hx%list_elem_of_In%elem_of_elements;
    split; [by eapply rtc_r|by eapply edge_end])).
  specialize (Hw (Datatypes.S (list_sum (map (fun e => size (snd e)) (map_to_list graph)))) {[from]} [from]
    ltac:(by intros a [<-|[]]) ltac:(intros a ->%elem_of_singleton; left; by left)).
  assert (Hfuel : (length [from] + size ((⋃ map snd (map_to_list graph)) ∖ {[from]}) <=
    Datatypes.S (list_sum (map (fun e => size (snd e)) (map_to_list graph))))%nat).
  { cbn [length]. apply le_n_S. pose proof (size_union_list (map snd (map_to_list graph))) as Hu.
    rewrite map_map in Hu. etrans; [|exact Hu]. apply subseteq_size. set_solver. }
  specialize (Hw Hfuel).
  destruct (walk_ids id next _ _ _ _) as [[found|]|e|]; [| |done..].
  - destruct Hw as (_ & _ & Hex). split; [done|]. intros Hpath. exfalso.
    set (V := list_to_set (map id found) ∪ {[from]}) in *.
    assert (Hstep : forall a b, a ∈ V -> graph_edge a b -> b ∈ V /\ b <> target).
    { intros a b Ha Hab. destruct (Hex a Ha) as (xs & [= <-] & Hall).
      destruct (Hall b) as [Hs Hb]; [by apply list_elem_of_In, elem_of_elements|].
      apply bool_decide_eq_false in Hs. by split. }
    assert (Hfrom : from ∈ V) by set_solver. clearbody V. clear -Hpath Hne Hfrom Hstep.
    induction Hpath as [x|x y z Hxy Hyz IH]; [done|]. destruct (Hstep x y Hfrom Hxy). by apply IH.
  - split; [intros _|done]. destruct Hw as (a & xs & x & Ha & [= <-] & Hx & Hxt%bool_decide_eq_true).
    change (x = target) in Hxt. subst x. eapply rtc_r; [exact Ha|]. apply list_elem_of_In, elem_of_elements in Hx. exact Hx.
Qed.
End ImportGraph.
