(* ===== verification/BeadProofs.v ===== *)
(** * Beads depend on each other without cycles

    Every operation on beads, accepted or refused, keeps the invariant of the
    store with beads: the dependencies are acyclic and lie between stored beads. *)

From S2P Require Import Prelude Json Ids Types Bfs IndexKeys AuditLog Schema PolicyPlan PolicyCycles.
From S2P Require Import PolicyCompile Rules Gates JsonOps AuthStore Roles Storage Catalog PolicyEval PolicyDecide.
From S2P Require Import Interface MemoryTx MemoryRows Transactions Requests EntityWrites EntityReads Graph Queries.
From S2P Require Import IndexQueries EntityProofs MemoryCommit EntitySpec Evolution Rollback Explain Templates.
From S2P Require Import Collections Beads BeadSearch.
Local Open Scope axon_scope.

(** ** One edge more *)

Lemma fewer_edges_acyclic {K} (R R' : relation K) :
  (forall a b, R' a b -> R a b) -> (forall a, ~ tc R a a) -> forall a, ~ tc R' a a.
Proof.
  intros HR Hac a Ha. apply (Hac a). revert Ha. generalize a at 2 4 as b.
  induction 1 as [x y Hxy|x y z Hxy _ IH]; [apply tc_once|eapply tc_l; [|exact IH]]; by apply HR.
Qed.

(** A cycle through a new edge goes back from its end to its start. *)
Lemma new_edge_acyclic {K} (R R' : relation K) (p q : K) :
  (forall a b, R' a b -> R a b \/ (a = p /\ b = q)) ->
  (forall a, ~ tc R a a) -> ~ rtc R q p -> forall a, ~ tc R' a a.
Proof.
  intros HR Hac Hqp.
  assert (Hpath : forall a b, tc R' a b -> tc R a b \/ (rtc R a p /\ rtc R q b)).
  { induction 1 as [a b [Hab|[-> ->]]%HR|a b c [Hab|[-> ->]]%HR Hbc IH].
    - left. by apply tc_once.
    - right. split; apply rtc_refl.
    - destruct IH as [Hb|[Hb Hq]]; [left; by eapply tc_l|right; split; [by eapply rtc_l|done]].
    - destruct IH as [Hb|[Hb Hq]].
      + right. split; [apply rtc_refl|by apply tc_rtc].
      + by destruct Hqp. }
  intros a [Ha|[Hap Hqa]]%Hpath; [by eapply Hac|]. apply Hqp. by etrans.
Qed.

Section Beads.
Context `{RuleEnv} `{TextFormat} `{ContentHasher} `{!DebugText}.
Variable fuel depth : nat.
Variable to_lowercase : string -> string.
Variable compile_entity_schema : Value -> result unit AxonError.
Variable compile_named_queries : CollectionSchema -> list CollectionSchema -> gmap string Z -> CompileReport.
Variable validate : CollectionSchema -> Value -> result unit AxonError.
Variable validate_link_metadata : Value -> Value -> result unit AxonError.
Variable de_message : DeError -> string.

Abbreviation Mem := MemoryStorageAdapter (only parsing).
Abbreviation MOp := (M Mem AxonError) (only parsing).

(** ** The invariant is kept *)

(** The invariant reads the visible rows, schemas and names. *)
Lemma beads_ok_same s s' :
  s_tx_snapshot s' = None -> s_collections s' = s_collections s -> s_data s' = s_data s ->
  s_schema_versions s' = s_schema_versions s -> beads_ok s -> beads_ok s'.
Proof.
  intros Hi Hc Hd Hv [Hidle Hn Ho Hid Ht He Ha].
  assert (Hst : forall k i, stored s' k i = stored s k i) by (intros; unfold stored; by rewrite Hd).
  assert (Hdep : forall a b, depends s' a b -> depends s a b).
  { intros a b (i & e & l & Hs & Hl). exists i, e, l. by rewrite <-Hst. }
  split.
  - done.
  - unfold plain_names. by rewrite Hc.
  - by rewrite Hv.
  - intros i e. rewrite Hst. apply Hid.
  - intros l (i & e & Hs & Hl). apply Ht. exists i, e. by rewrite <-Hst.
  - intros a b Hab. rewrite !Hst. by apply He, Hdep.
  - by eapply fewer_edges_acyclic.
Qed.

Lemma beads_ok_visible (s s' : Mem) : MemoryTx.visible s' = MemoryTx.visible s -> s_tx_snapshot s' = None -> beads_ok s -> beads_ok s'.
Proof.
  intros Hv Hi. unfold MemoryTx.visible in Hv. injection Hv as Hd Hsv _ Hc _ _ _ _ _ _ _ _.
  by apply beads_ok_same.
Qed.

(** A row of a bead, under its id. *)
Lemma beads_ok_row s s' id e :
  row_changed s s' bead_key id (Some e) -> e_id e = id -> catalog_kept s s' -> beads_ok s -> beads_ok s'.
Proof.
  intros Hrow Hid (Hsv & Hc & _ & Hi) [Hidle Hn Ho Hids Ht He Ha].
  assert (Hlink : forall i, stored s' link_key i = stored s link_key i) by (intros i; by rewrite Hrow).
  assert (Hbead : forall i, stored s' bead_key i = if decide (i = id) then Some e else stored s bead_key i).
  { intros i. rewrite Hrow, decide_True by done. unfold row_set. done. }
  assert (Hdep : forall a b, depends s' a b -> depends s a b).
  { intros a b (i & x & l & Hs & Hl). exists i, x, l. by rewrite <-Hlink. }
  split.
  - done.
  - unfold plain_names. by rewrite Hc.
  - by rewrite Hsv.
  - intros i x. rewrite Hbead. case_decide; [naive_solver|apply Hids].
  - intros l (i & x & Hs & Hl). apply Ht. exists i, x. by rewrite <-Hlink.
  - intros a b Hab. rewrite !Hbead. destruct (He a b (Hdep a b Hab)).
    split; case_decide; done.
  - by eapply fewer_edges_acyclic.
Qed.
(** ** Operations that keep it *)

(** Whatever an operation answers, the invariant holds afterwards. *)
Definition keeps_beads {A} (m : MOp A) : Prop :=
  forall s s' r, beads_ok s -> m s = (s', r) -> r <> Panic -> beads_ok s'.

Lemma kb_read_only {A} (m : MOp A) : read_only m -> keeps_beads m.
Proof. intros Hm s s' r Hs Hr _. pose proof (read_only_run m s Hm) as Heq. by rewrite Hr in Heq; simpl in Heq; subst. Qed.

Lemma kb_bind {A B} (m : MOp A) (k : A -> MOp B) :
  keeps_beads m -> (forall a, keeps_beads (k a)) -> keeps_beads (bind m k).
Proof.
  intros Hm Hk s s' r Hs Hr Hp. unfold bind in Hr. destruct (m s) as [s1 o] eqn:Hms.
  destruct o as [a|e|]; [|by injection Hr as <- <-; eapply Hm|by injection Hr as <- <-].
  eapply Hk; [|exact Hr|done]. by eapply Hm.
Qed.

Lemma kb_ret {A} (a : A) : keeps_beads (ret a).
Proof. apply kb_read_only. intros s. apply keeps_ret. Qed.
Lemma kb_fail {A} e : keeps_beads (fail (A := A) e).
Proof. apply kb_read_only. intros s. apply keeps_fail. Qed.
Lemma kb_reads {A} (f : Mem -> result A AxonError) : keeps_beads (reads f).
Proof. apply kb_read_only. intros s. apply keeps_reads. Qed.
Lemma kb_lift {A} (r : result A AxonError) : keeps_beads (lift r).
Proof. apply kb_read_only. intros s. apply keeps_lift. Qed.

Lemma kb_attempt {A} (m : MOp A) : keeps_beads m -> keeps_beads (attempt m).
Proof.
  intros Hm s s' r Hs Hr Hp. unfold attempt in Hr. destruct (m s) as [s1 o] eqn:Hms. injection Hr as <- <-.
  eapply Hm; [done|done|]. by destruct o.
Qed.

(** An atomic operation has only its successes to answer for. *)
Lemma kb_atomic {A} (m : MOp A) :
  atomic (S := Mem) m -> (forall s s' a, beads_ok s -> m s = (s', Ok a) -> beads_ok s') -> keeps_beads m.
Proof.
  intros Ha Hok s s' r Hs Hr Hp. destruct r as [a|e|]; [by eapply Hok| |done].
  destruct (memory_restores m s s' e Ha (bo_idle s Hs) Hr) as [Hv Hi]. by apply (beads_ok_visible s).
Qed.

Lemma create_bead_entity_keeps clock w id data actor metadata :
  keeps_beads (create_entity_in_system_collection fuel depth validate clock w id data actor metadata).
Proof.
  apply kb_atomic; [apply create_unchecked_atomic|]. intros s s' r Hs Hr.
  unfold create_entity_in_system_collection, create_entity_inner_unchecked in Hr.
  apply reads_inv in Hr as (schema & _ & Hr). apply reads_inv in Hr as (snap & _ & Hr).
  apply lift_ok in Hr as (data' & _ & Hr). apply reads_inv in Hr as ([] & _ & Hr).
  apply lift_ok in Hr as ([] & _ & Hr). apply lift_ok in Hr as (eval & _ & Hr). cbv zeta in Hr.
  apply bind_ok in Hr as (s1 & [u entry] & Hw & [= <- _]).
  match type of Hw with context [sa_put ?e] => set (entity := e) in * end.
  assert (Hf : frame_kept (bind (put entity) (fun _ => ret entity))) by apply (present_frame _ (fun _ => entity)), put_frame.
  apply durable_run in Hw as (s2 & log & Hw & -> & _); [|apply Hs|exact Hf].
  pose proof (fun Hl => catalog_after _ s s2 u log Hf Hw Hl) as Hcat.
  apply bind_ok in Hw as (s3 & [] & Hput & [= <- _]).
  apply put_effect in Hput as (key & Hkey & Hrows & _ & Hl & _).
  change (resolve_catalog_key s BEAD_COLLECTION = Ok key) in Hkey. rewrite bead_resolves in Hkey by done.
  injection Hkey as <-. eapply (beads_ok_row s); [exact Hrows|done|by apply Hcat|done].
Qed.

Lemma update_bead_entity_keeps clock w id data v actor metadata :
  keeps_beads (update_entity_in_system_collection fuel depth validate clock w id data v actor metadata).
Proof.
  apply kb_atomic; [apply update_unchecked_atomic|]. intros s s' r Hs Hr.
  unfold update_entity_in_system_collection, update_entity_inner_unchecked in Hr.
  apply reads_inv in Hr as (schema & _ & Hr). apply reads_inv in Hr as (snap & _ & Hr).
  apply lift_ok in Hr as (data' & _ & Hr). apply lift_ok in Hr as ([] & _ & Hr).
  apply lift_ok in Hr as (eval & _ & Hr). apply reads_inv in Hr as (existing & _ & Hr).
  apply reads_inv in Hr as ([] & _ & Hr). cbv zeta in Hr.
  apply bind_ok in Hr as (s1 & [u entry] & Hsw & [= <- _]).
  apply swap_run in Hsw as (key & old & Hkey & _ & _ & _ & Hrows & _ & Hcat); [|apply Hs].
  cbn [e_collection e_id ue_collection ue_id] in *. rewrite bead_resolves in Hkey by done. injection Hkey as <-.
  by eapply (beads_ok_row s); [exact Hrows|..].
Qed.

(** *** Schemas and names *)

(** One schema more under the key of the beads, and its name registered. *)
Lemma beads_ok_schema (s s' : Mem) v e :
  s_tx_snapshot s' = None -> s_data s' = s_data s ->
  (s_collections s' = s_collections s \/ s_collections s' = {[bead_key]} ∪ s_collections s) ->
  s_schema_versions s' =
    <[bead_key := <[v := e]> (default ∅ (s_schema_versions s !! bead_key))]> (s_schema_versions s) ->
  cs_access_control (fst e) = None -> beads_ok s -> beads_ok s'.
Proof.
  intros Hi Hd Hc Hv Hopen [Hidle Hn Ho Hid Ht He Ha].
  assert (Hst : forall k i, stored s' k i = stored s k i) by (intros; unfold stored; by rewrite Hd).
  assert (Hdep : forall a b, depends s' a b -> depends s a b).
  { intros a b (i & x & l & Hs & Hl). exists i, x, l. by rewrite <-Hst. }
  split.
  - done.
  - intros key Hk. destruct Hc as [Hc|Hc]; rewrite Hc in Hk; [by apply Hn|].
    apply elem_of_union in Hk as [->%elem_of_singleton|Hk]; [done|by apply Hn].
  - intros w x. rewrite Hv, lookup_insert_eq. simpl. destruct (decide (w = v)) as [->|Hne].
    + rewrite lookup_insert_eq. by intros [= <-].
    + rewrite lookup_insert_ne by done. apply Ho.
  - intros i x. rewrite Hst. apply Hid.
  - intros l (i & x & Hs & Hl). apply Ht. exists i, x. by rewrite <-Hst.
  - intros a b Hab. rewrite !Hst. by apply He, Hdep.
  - by eapply fewer_edges_acyclic.
Qed.

Lemma put_bead_schema now schema (s s' : Mem) :
  resolve_catalog_key s BEAD_COLLECTION = Ok bead_key -> cs_collection schema = BEAD_COLLECTION ->
  put_schema now schema s = (s', Ok tt) ->
  exists v e, s' = set_schema_versions
      (<[bead_key := <[v := e]> (default ∅ (s_schema_versions s !! bead_key))]> (s_schema_versions s)) s /\
    cs_access_control (fst e) = cs_access_control schema.
Proof.
  intros Hkey Hc (key & Hk & Heq)%put_schema_effect. rewrite Hc in *. rewrite Hkey in Hk. injection Hk as <-.
  unfold versions_of in Heq. rewrite Hkey in Heq. eexists _, _. split; [exact Heq|done].
Qed.

Lemma put_schema_keeps clock req :
  cs_collection (pq_schema req) = BEAD_COLLECTION -> cs_access_control (pq_schema req) = None ->
  keeps_beads (handle_put_schema_inner fuel depth compile_entity_schema compile_named_queries clock req).
Proof.
  intros Hc Ho. apply kb_atomic; [apply put_inner_atomic|]. intros s s' r Hs Hr.
  apply put_inner_ok in Hr as (existing & report & _ & _ & _ & _ & Hr).
  destruct (pq_dry_run req); [by subst|]. destruct Hr as (_ & _ & [u entry] & metadata & Hw).
  apply durable_run_rows in Hw as (s2 & log & Hput & -> & _); [|apply Hs|apply put_schema_rows].
  destruct u. apply put_bead_schema in Hput as (v & e & -> & He); [|exact (bead_resolves s Hs)|done].
  apply (beads_ok_schema s _ v e); try done; [by left|by rewrite He].
Qed.

Lemma register_rows c ns :
  row_write s_tx_snapshot (fun s : Mem => log_entries (s_audit_log s)) (register_collection_in_namespace c ns).
Proof.
  intros s. unfold register_collection_in_namespace, bind, gets, modify, fail, id.
  destruct (s_namespaces s !! _); [|done]. by destruct (negb _).
Qed.

Lemma create_collection_writes schema now :
  row_write s_tx_snapshot (fun s : Mem => log_entries (s_audit_log s))
    (bind (register_collection_in_namespace BEAD_COLLECTION default_ns) (fun _ => put_schema now schema)).
Proof.
  intros s. unfold bind. pose proof (register_rows BEAD_COLLECTION default_ns s) as Hr.
  destruct (register_collection_in_namespace _ _ s) as [s1 [a|e|]]; try done. simpl in Hr.
  destruct (put_schema_rows now schema s1) as [Hi Hl]. destruct Hr. split; congruence.
Qed.

Lemma create_collection_atomic clock req :
  cc_name req = BEAD_COLLECTION ->
  atomic (S := Mem) (create_collection_inner compile_entity_schema compile_named_queries clock req).
Proof.
  intros Hc. unfold create_collection_inner. rewrite Hc. change (parse BEAD_COLLECTION) with (default_ns, BEAD_COLLECTION).
  cbv iota beta. apply atomic_bind; [intros s0; repeat keeps_step|intro].
  destruct (negb _); [apply atomic_read_only; intros s0; repeat keeps_step|].
  do 2 (apply atomic_bind; [intros s0; repeat keeps_step|intro]).
  destruct a1; [apply atomic_read_only; intros s0; repeat keeps_step|].
  apply atomic_bind_total; [apply durable_atomic, create_collection_writes|by intros [] ?; eexists].
Qed.

Lemma create_collection_keeps clock req :
  cc_name req = BEAD_COLLECTION -> cs_access_control (cc_schema req) = None ->
  keeps_beads (create_collection_inner compile_entity_schema compile_named_queries clock req).
Proof.
  intros Hc Ho. apply kb_atomic; [by apply create_collection_atomic|]. intros s s' r Hs Hr.
  unfold create_collection_inner in Hr. rewrite Hc in Hr.
  change (parse BEAD_COLLECTION) with (default_ns, BEAD_COLLECTION) in Hr. cbv iota beta in Hr.
  apply lift_ok in Hr as ([] & _ & Hr). case_bool_decide as Hcs; [|done]. cbn [negb] in Hr.
  apply reads_inv in Hr as ([] & _ & Hr). apply reads_inv in Hr as ([] & _ & Hr); [done|].
  apply bind_ok in Hr as (s1 & [u entry] & Hw & [= <- _]).
  apply durable_run_rows in Hw as (s2 & log & Hw & -> & _); [|apply Hs|apply create_collection_writes].
  apply bind_ok in Hw as (s3 & [] & Hreg & Hput). destruct u.
  assert (Hs3 : s_data s3 = s_data s /\ s_collections s3 = {[bead_key]} ∪ s_collections s /\
    s_schema_versions s3 = s_schema_versions s).
  { unfold register_collection_in_namespace, bind, gets, modify, fail, id in Hreg.
    cbn [set_tx_snapshot s_namespaces] in Hreg. destruct (s_namespaces s !! _); [|done].
    destruct (negb _); [done|]. by injection Hreg as <-. }
  destruct Hs3 as (Hd & Hcol & Hv).
  assert (Hk : resolve_catalog_key s3 BEAD_COLLECTION = Ok bead_key).
  { apply plain_key; try done. intros key Hkey. rewrite Hcol in Hkey.
    apply elem_of_union in Hkey as [->%elem_of_singleton|Hkey]; [done|by apply (bo_names s Hs)]. }
  apply put_bead_schema in Hput as (v & e & -> & He); [|done|done].
  apply (beads_ok_schema s _ v e); try done.
  - right. exact Hcol.
  - cbn [set_tx_snapshot set_audit_log set_schema_versions s_schema_versions]. by rewrite Hv.
  - by rewrite He.
Qed.

Lemma ensure_beads_keeps clock actor :
  keeps_beads (ensure_governed_system_collection fuel depth compile_entity_schema compile_named_queries clock
                 BEAD_COLLECTION bead_schema actor).
Proof.
  unfold ensure_governed_system_collection. change (parse BEAD_COLLECTION) with (default_ns, BEAD_COLLECTION).
  cbv iota beta zeta. apply kb_bind; [apply kb_reads|intros []].
  - apply kb_bind; [apply kb_reads|intros existing]. destruct (match existing with Some _ => _ | None => _ end).
    + apply kb_bind; [by apply put_schema_keeps|intros; apply kb_ret].
    + apply kb_ret.
  - by apply create_collection_keeps.
Qed.
(** *** Operations built on them *)

Ltac kb_step :=
  match goal with
  | |- keeps_beads (bind _ _) => apply kb_bind; [|intro]
  | |- keeps_beads (ret _) => apply kb_ret
  | |- keeps_beads (fail _) => apply kb_fail
  | |- keeps_beads (reads _) => apply kb_reads
  | |- keeps_beads (lift _) => apply kb_lift
  | |- keeps_beads (attempt _) => apply kb_attempt
  | |- keeps_beads (match ?x with _ => _ end) => destruct x
  | |- keeps_beads (create_entity_in_system_collection _ _ _ _ _ _ _ _ _) => apply create_bead_entity_keeps
  | |- keeps_beads (update_entity_in_system_collection _ _ _ _ _ _ _ _ _ _) => apply update_bead_entity_keeps
  | |- keeps_beads (ensure_governed_system_collection _ _ _ _ _ _ _ _) => apply ensure_beads_keeps
  | |- keeps_beads (handle_put_schema_in_system_collection _ _ _ _ _ _ _ _ _) => apply put_schema_keeps
  end.

Variable clock : BeadWrite -> nat -> Z.

Lemma migrate_entities_keeps n entities : keeps_beads (migrate_entities fuel depth validate clock n entities).
Proof.
  revert n. induction entities as [|e rest IH]; intros n; cbn [migrate_entities]; repeat kb_step; try apply IH.
Qed.

Lemma init_beads_keeps :
  keeps_beads (init_beads fuel depth to_lowercase compile_entity_schema compile_named_queries validate clock).
Proof.
  unfold init_beads, migrate_legacy_bead_statuses. cbv zeta. repeat kb_step; try done. apply migrate_entities_keeps.
Qed.

Lemma create_bead_keeps params :
  keeps_beads (create_bead fuel depth to_lowercase compile_entity_schema compile_named_queries validate de_message
                 clock params).
Proof. unfold create_bead. kb_step; [apply init_beads_keeps|]. repeat kb_step. Qed.

Lemma update_bead_keeps id data v :
  keeps_beads (update_bead fuel depth to_lowercase validate de_message clock id data v).
Proof. unfold update_bead. repeat kb_step. Qed.

Lemma transition_bead_keeps id st :
  keeps_beads (transition_bead fuel depth to_lowercase validate de_message clock id st).
Proof.
  unfold transition_bead, transition_bead_with_expected_version. repeat kb_step. apply update_bead_keeps.
Qed.

Lemma transition_bead_version_keeps id st v :
  keeps_beads (transition_bead_with_expected_version fuel depth to_lowercase validate de_message clock id st v).
Proof. unfold transition_bead_with_expected_version. repeat kb_step. apply update_bead_keeps. Qed.

Lemma reopen_bead_keeps id v :
  keeps_beads (reopen_bead_with_expected_version fuel depth to_lowercase validate de_message clock id v).
Proof. unfold reopen_bead_with_expected_version. repeat kb_step. Qed.

(** *** The write of a dependency *)

Lemma create_link_run w src dst metadata actor (s s' : Mem) l :
  beads_ok s ->
  create_link_in_system_collection validate_link_metadata clock w src dst DEPENDS_ON_LINK metadata actor s = (s', Ok l) ->
  l = link_of_request {|
    kl_source_collection := BEAD_COLLECTION; kl_source_id := src; kl_target_collection := BEAD_COLLECTION;
    kl_target_id := dst; kl_link_type := DEPENDS_ON_LINK; kl_metadata := metadata; kl_actor := actor;
    kl_attribution := None |} /\
  is_Some (stored s bead_key src) /\ is_Some (stored s bead_key dst) /\
  s_tx_snapshot s' = None /\ s_collections s' = s_collections s /\ s_schema_versions s' = s_schema_versions s /\
  (forall i, stored s' bead_key i = stored s bead_key i) /\
  (forall a b, depends s' a b -> depends s a b \/ (a = src /\ b = dst)) /\
  (forall l', bead_link s' l' -> bead_link s l' \/ l' = l).
Proof.
  intros Hs Hr. unfold create_link_in_system_collection, create_link_inner in Hr.
  cbn [kl_source_collection kl_source_id kl_target_collection kl_target_id] in Hr.
  apply reads_inv in Hr as (source & Hsrc & Hr). case_bool_decide as Hsome; [|done]. cbn [negb] in Hr.
  apply reads_inv in Hr as (target & Hdst & Hr). case_bool_decide as Hsome'; [|done]. cbn [negb] in Hr.
  rewrite (get_stored _ _ _ _ (bead_resolves s Hs)) in Hsrc. rewrite (get_stored _ _ _ _ (bead_resolves s Hs)) in Hdst.
  injection Hsrc as <-. injection Hdst as <-.
  apply reads_inv in Hr as (schema & _ & Hr). apply bind_ok in Hr as (s0 & [] & Hck & Hr).
  assert (s0 = s) as ->.
  { destruct schema as [sch|]; [|by injection Hck].
    match type of Hck with check_link_type _ ?req _ _ = _ =>
      pose proof (read_only_run _ s (check_link_type_read_only validate_link_metadata req sch)) as Hro end.
    rewrite Hck in Hro. exact Hro. }
  cbv zeta in Hr. set (lk := link_of_request _) in *. apply reads_inv in Hr as (existing & _ & Hr).
  case_bool_decide; [done|]. apply bind_ok in Hr as (s1 & [u entry] & Hw & [= <- <-]).
  apply durable_run in Hw as (s2 & log & Hput & -> & _); [|apply Hs|apply put_link_frame]. destruct u.
  pose proof (put_link_frame lk (set_tx_snapshot (Some (MemoryTx.visible s)) s)) as Hf.
  cbn [sa_put_link memory_adapter] in Hput. rewrite Hput in Hf. unfold frame in Hf.
  cbn [fst] in Hf. injection Hf as _ _ Hsv Hcol _ _ _ _ _ _.
  apply put_link_inv in Hput as (s3 & s4 & Hd & Hc3 & _ & Hc4 & Hp1 & Hp2).
  apply put_effect in Hp1 as (k1 & Hk1 & Hrows1 & _). apply put_effect in Hp2 as (k2 & Hk2 & Hrows2 & _).
  rewrite (resolve_collections s) in Hk1, Hk2 by (by rewrite ?Hc4, ?Hc3).
  assert (k1 = link_key) as ->.
  { change (e_collection (link_to_entity lk)) with links_collection in Hk1. rewrite links_resolve in Hk1 by done. congruence. }
  assert (k2 = from_parts default_ns links_rev_collection) as ->.
  { change (e_collection (link_to_rev_entity lk)) with links_rev_collection in Hk2.
    rewrite plain_key in Hk2 by (apply Hs || done). congruence. }
  assert (Hst3 : forall k i, stored s3 k i = stored s k i) by (intros; apply stored_data; exact Hd).
  assert (Hnew : link_from_entity (link_to_entity lk) = Some lk) by (by destruct lk).
  split_and!; try done.
  - intros i. rewrite (stored_data s2) by done. by rewrite Hrows2, Hrows1, Hst3.
  - intros a b (i & e & l' & Hst & Hl & Htype & Hnear & Hfar). rewrite (stored_data s2) in Hst by done.
    rewrite Hrows2, decide_False in Hst by done. rewrite Hrows1, decide_True in Hst by done.
    unfold row_set in Hst. case_decide as Hi.
    + right. injection Hst as <-.
      change (link_from_entity (link_to_entity lk) = Some l') in Hl. rewrite Hnew in Hl. injection Hl as <-. cbn in Hnear, Hfar. split; congruence.
    + left. rewrite Hst3 in Hst. exists i, e, l'. split_and!; done.
  - intros l' (i & e & Hst & Hl & Htype & Hnear). rewrite (stored_data s2) in Hst by done.
    rewrite Hrows2, decide_False in Hst by done. rewrite Hrows1, decide_True in Hst by done.
    unfold row_set in Hst. case_decide as Hi.
    + right. injection Hst as <-.
      change (link_from_entity (link_to_entity lk) = Some l') in Hl. rewrite Hnew in Hl. by injection Hl as <-.
    + left. rewrite Hst3 in Hst. exists i, e. split_and!; done.
Qed.

Lemma add_dependency_keeps w a b :
  keeps_beads (add_dependency_at fuel depth to_lowercase validate_link_metadata clock w a b).
Proof.
  apply kb_atomic.
  { unfold add_dependency_at. do 2 (apply atomic_bind; [intros s0; apply keeps_reads|intro]).
    case_bool_decide; [apply atomic_read_only; intros s0; apply keeps_fail|].
    apply atomic_bind; [intros s0; apply keeps_reads|intros []]; [apply atomic_read_only; intros s0; apply keeps_fail|].
    apply atomic_bind_total; [apply create_link_inner_atomic|by intros ??; eexists]. }
  intros s s' [] Hs Hr. unfold add_dependency_at in Hr.
  apply reads_inv in Hr as (? & _ & Hr). apply reads_inv in Hr as (? & _ & Hr).
  case_bool_decide as Hne; [done|]. apply reads_inv in Hr as ([] & Hpath & Hr); [done|].
  assert (Hnone : ~ rtc (depends s) b a).
  { destruct (path_exact fuel depth to_lowercase s b a Hs) as (r & Hr' & Hiff). rewrite Hpath in Hr'.
    injection Hr' as <-. by intros Hab%Hiff. }
  apply bind_ok in Hr as (s1 & l & Hr & [= <-]).
  apply create_link_run in Hr as (-> & Ha & Hb & Hi & Hc & Hv & Hrows & Hdep & Htarget); [|done].
  destruct Hs as [Hidle Hn Ho Hids Ht He Hac]. split.
  - done.
  - unfold plain_names. by rewrite Hc.
  - by rewrite Hv.
  - intros i e. rewrite Hrows. apply Hids.
  - intros l' [Hl'| ->]%Htarget; [by apply Ht|done].
  - intros ? ? [Hxy|[-> ->]]%Hdep; rewrite !Hrows; [by apply He|by split].
  - by eapply new_edge_acyclic.
Qed.

Lemma create_planned_keeps n plan : keeps_beads (create_planned fuel depth validate clock n plan).
Proof. revert n. induction plan as [|item rest IH]; intros n; cbn [create_planned]; repeat kb_step. apply IH. Qed.

Lemma add_planned_links_keeps n links :
  keeps_beads (add_planned_links fuel depth to_lowercase validate_link_metadata clock n links).
Proof.
  revert n. induction links as [|[x y] rest IH]; intros n; cbn [add_planned_links]; [apply kb_ret|].
  kb_step; [kb_step; apply add_dependency_keeps|]. repeat kb_step; try apply IH.
Qed.

Lemma import_beads_keeps data :
  keeps_beads (import_beads fuel depth to_lowercase compile_entity_schema compile_named_queries validate
                 validate_link_metadata clock data).
Proof.
  unfold import_beads. kb_step; [apply init_beads_keeps|]. repeat kb_step;
    [apply create_planned_keeps|apply add_planned_links_keeps].
Qed.
End Beads.

(** ** The dependency graph *)

Section Histories.
Context `{RuleEnv} `{TextFormat} `{ContentHasher} `{!DebugText}.
Variable fuel depth : nat.
Variable to_lowercase : string -> string.
Variable compile_entity_schema : Value -> result unit AxonError.
Variable compile_named_queries : CollectionSchema -> list CollectionSchema -> gmap string Z -> CompileReport.
Variable validate : CollectionSchema -> Value -> result unit AxonError.
Variable validate_link_metadata : Value -> Value -> result unit AxonError.
Variable de_message : DeError -> string.

Abbreviation Mem := MemoryStorageAdapter (only parsing).
Abbreviation MOp := (M Mem AxonError) (only parsing).

(** The operations that change beads. *)
Inductive BeadCall : Type :=
| CallInit
| CallCreateBead (params : CreateBeadParams)
| CallUpdateBead (id : string) (data : Value) (expected_version : Z)
| CallTransitionBead (id new_status : string)
| CallTransitionVersion (id new_status : string) (expected_version : Z)
| CallReopenBead (id : string)
| CallReopenVersion (id : string) (expected_version : Z)
| CallAddDependency (bead_id dep_id : string)
| CallImport (data : Value).

Definition run_bead (clock : BeadWrite -> nat -> Z) (call : BeadCall) : MOp unit :=
  match call with
  | CallInit => init_beads fuel depth to_lowercase compile_entity_schema compile_named_queries validate clock
  | CallCreateBead params =>
      ignore (create_bead fuel depth to_lowercase compile_entity_schema compile_named_queries validate de_message clock params)
  | CallUpdateBead id data v => ignore (update_bead fuel depth to_lowercase validate de_message clock id data v)
  | CallTransitionBead id st => transition_bead fuel depth to_lowercase validate de_message clock id st
  | CallTransitionVersion id st v =>
      ignore (transition_bead_with_expected_version fuel depth to_lowercase validate de_message clock id st v)
  | CallReopenBead id => ignore (reopen_bead fuel depth to_lowercase validate de_message clock id)
  | CallReopenVersion id v =>
      ignore (reopen_bead_with_expected_version fuel depth to_lowercase validate de_message clock id v)
  | CallAddDependency a b => add_dependency fuel depth to_lowercase validate_link_metadata clock a b
  | CallImport data =>
      ignore (import_beads fuel depth to_lowercase compile_entity_schema compile_named_queries validate
                validate_link_metadata clock data)
  end.

Lemma run_bead_keeps clock call : keeps_beads (run_bead clock call).
Proof.
  destruct call; cbn [run_bead]; unfold ignore, reopen_bead;
    repeat first [apply init_beads_keeps | apply create_bead_keeps | apply update_bead_keeps
      | apply transition_bead_keeps | apply transition_bead_version_keeps | apply reopen_bead_keeps
      | apply add_dependency_keeps | apply import_beads_keeps | apply kb_ret | apply kb_reads
      | apply kb_bind; [|intro]].
Qed.

(** The states that bead operations lead to, accepted or refused. *)
Inductive beads_reach (s0 : Mem) : Mem -> Prop :=
| beads_start : beads_reach s0 s0
| beads_call clock call s s' r :
    beads_reach s0 s -> run_bead clock call s = (s', r) -> r <> Panic -> beads_reach s0 s'.

(** C10. Beads never depend on each other in a circle: from a store where they
    do not (an empty one, for instance), with no open transaction, beads without
    access control and system collections registered where they belong, every
    sequence of bead operations (initialization with its migration, creation,
    updates, transitions, reopening, new dependencies and imports), whatever each
    of them answers, leads to a store whose dependencies are acyclic and lie
    between stored beads.  In every such store the cycle check of a new dependency
    returns and finds a path precisely when there is one, however long, and the
    dependency tree of a stored bead lists everything it depends on, directly or
    not, and nothing else, each bead once. *)
Theorem dependencies_acyclic (s0 s : Mem) (Hstart : beads_ok s0) (Hreach : beads_reach s0 s) :
  (forall a, ~ tc (depends s) a a) /\
  (forall a b, depends s a b -> is_Some (stored s bead_key a) /\ is_Some (stored s bead_key b)) /\
  (forall from target, exists r, dependency_path_exists fuel depth from target s = Ok r /\
     (r = true <-> rtc (depends s) from target)) /\
  (forall b, is_Some (stored s bead_key b) ->
     exists es, dependency_entities_unbounded fuel depth to_lowercase b s = Ok es /\ NoDup (map e_id es) /\
       forall a, In a (map e_id es) <-> tc (depends s) b a).
Proof.
  assert (Hok : beads_ok s);
    [|split_and!; [apply Hok..|by intros; apply path_exact|by intros; apply dependencies_exact]].
  induction Hreach as [|clock call s s' r _ IH Hrun Hp]; [done|]. by eapply run_bead_keeps.
Qed.
End Histories.
