(* ===== verification/IntentApi.v ===== *)
(** * Mutation intents through the request handler ([crates/axon-api/src/handler.rs])

    Preview, reading, listing and review of intents behind the guard of reserved
    names, and the governed commit: the intent's bindings, the write policy and
    the transaction itself, in this order. *)

From S2P Require Import Prelude Json Ids Types IndexKeys Intents AuditLog.
From S2P Require Import Schema PolicyPlan PolicyCompile Rules Gates JsonOps AuthStore Roles Storage Catalog.
From S2P Require Import PolicyEval PolicyDecide PolicyEnforce Interface MemoryTx MemoryRows Transactions MemoryCommit.
From S2P Require Import Requests EntityWrites EntityReads Queries AuditReads.
From S2P Require Import IntentCanon IntentService IntentCommit IntentProofs IntentHistories.
Local Open Scope axon_scope.

Section Requests.
Context `{SerdeNumber}.

Record PreviewMutationIntentRequest : Type := {
  pm_intent : MutationIntent;
  pm_origin : option MutationIntentAuditOrigin
}.
Record GetMutationIntentRequest : Type := {
  gm_scope : MutationIntentScopeBinding;
  gm_intent_id : string;
  gm_now_ns : Z
}.
Record ListMutationIntentsRequest : Type := {
  lm_scope : MutationIntentScopeBinding;
  lm_states : list ApprovalState;
  lm_include_expired : bool;
  lm_now_ns : Z
}.
Record ReviewMutationIntentRequest : Type := {
  rm_scope : MutationIntentScopeBinding;
  rm_intent_id : string;
  rm_metadata : MutationIntentReviewMetadata;
  rm_now_ns : Z
}.
Record ExecuteTransactionRequest : Type := {
  et_transaction : Transaction;
  et_actor : option string;
  et_attribution : option AuditAttribution
}.
Record ExecuteTransactionResponse : Type := { etr_transaction_id : string; etr_written : list Entity }.
End Requests.

Section Api.
Context `{RuleEnv} {S : Type} `{!StorageAdapter S} `{!StorageReads S} `{!IntentStorage S} `{!IntentSerde}
  `{!OperationText} `{!TokenCodec}.
Variable fuel depth : nat.
Variable validate : CollectionSchema -> Value -> result unit AxonError.
Variable reserved_payload : string -> string -> string.
Variable secs_display : Z -> string.
Variable token_signer : MutationIntentTokenSigner.

Abbreviation LOp := (M S MutationIntentLifecycleError).
Abbreviation COp := (M S MutationIntentCommitValidationError).

Definition ensure_intent_access (intent : MutationIntent) : LOp unit :=
  storage (lift (ensure_generic_mutation_intent_access reserved_payload intent)).

Fixpoint ensure_intents_access (intents : list MutationIntent) : LOp unit :=
  match intents with
  | [] => ret tt
  | i :: rest =>
      do! ensure_intent_access i;
      ensure_intents_access rest
  end.

Definition preview_mutation_intent (clock : nat -> Z) (req : PreviewMutationIntentRequest)
    : LOp MutationIntentPreviewRecord :=
  do! ensure_intent_access (pm_intent req);
  create_preview_record_with_origin clock token_signer (pm_intent req) (pm_origin req).

Definition stored_intent (scope : MutationIntentScopeBinding) (id : string) : LOp (option MutationIntent) :=
  storage (reads (fun s => is_get s (tenant_id scope) (database_id scope) id)).

Definition handler_get_mutation_intent (clock : nat -> Z) (req : GetMutationIntentRequest) : LOp (option MutationIntent) :=
  do! expire_due_with_audit clock (gm_scope req) (gm_now_ns req) None;
  do intent <- stored_intent (gm_scope req) (gm_intent_id req);
  do! match intent with Some i => ensure_intent_access i | None => ret tt end;
  ret intent.

Definition intents_in_state (scope : MutationIntentScopeBinding) (st : ApprovalState) : LOp (list MutationIntent) :=
  storage (reads (fun s => is_list_by_state s (tenant_id scope) (database_id scope) st None)).

Fixpoint intents_in_states (scope : MutationIntentScopeBinding) (states : list ApprovalState)
    : LOp (list MutationIntent) :=
  match states with
  | [] => ret []
  | st :: rest =>
      do found <- intents_in_state scope st;
      do others <- intents_in_states scope rest;
      ret (found ++ others)
  end.

Definition list_mutation_intents (clock : nat -> Z) (req : ListMutationIntentsRequest) : LOp (list MutationIntent) :=
  do! expire_due_with_audit clock (lm_scope req) (lm_now_ns req) None;
  do intents <-
    match lm_states req with
    | [] =>
        do pending <- storage (reads (fun s =>
          is_list_pending s (tenant_id (lm_scope req)) (database_id (lm_scope req)) (lm_now_ns req) None));
        if lm_include_expired req then
          do expired <- intents_in_state (lm_scope req) Expired;
          ret (pending ++ expired)
        else ret pending
    | states => intents_in_states (lm_scope req) states
    end;
  do! ensure_intents_access intents;
  ret intents.

(** [approve_mutation_intent] and [reject_mutation_intent]; the expiry and the
    review read the clock each. *)
Definition review_mutation_intent_inner (clock : nat -> nat -> Z) (req : ReviewMutationIntentRequest)
    (is_approval : bool) : LOp MutationIntent :=
  do! expire_due_with_audit (clock 0) (rm_scope req) (rm_now_ns req) None;
  do found <- stored_intent (rm_scope req) (rm_intent_id req);
  match found with
  | None => fail (LeNotFound (rm_intent_id req))
  | Some intent =>
      do! ensure_intent_access intent;
      if is_approval
      then approve_with_audit (clock 1) (rm_scope req) (rm_intent_id req) (rm_metadata req) (rm_now_ns req)
      else reject_with_audit (clock 1) (rm_scope req) (rm_intent_id req) (rm_metadata req) (rm_now_ns req)
  end.

(** ** Transactions *)

Definition execute_transaction_inner (now : Z) (clock : nat -> Z) (req : ExecuteTransactionRequest)
    (caller : option CallerIdentity) : M S AxonError ExecuteTransactionResponse :=
  do written <- commit_transaction_inner fuel depth validate reserved_payload secs_display now clock
                  (et_transaction req) (et_actor req) (et_attribution req) caller;
  ret {| etr_transaction_id := tx_id (et_transaction req); etr_written := written |}.

Definition execute_transaction_with_caller (now : Z) (clock : nat -> Z) (req : ExecuteTransactionRequest)
    (caller : CallerIdentity) (attribution : option AuditAttribution) : M S AxonError ExecuteTransactionResponse :=
  execute_transaction_inner now clock
    {| et_transaction := et_transaction req; et_actor := Some (ci_actor caller); et_attribution := attribution |}
    (Some caller).

(** ** The governed commit *)

Definition mutation_intent_commit_failed (id : string) (e : AxonError) : MutationIntentCommitValidationError :=
  CvCommitFailed id (error_text e).

Definition approval_satisfied (intent : MutationIntent) : bool :=
  match mi_decision intent, mi_approval_state intent with NeedsApproval, Approved => true | _, _ => false end.

Definition commit_request_with (operation : CanonicalOperationMetadata)
    (current : MutationIntentCommitValidationContext) (req : MutationIntentTransactionCommitRequest)
    : MutationIntentTransactionCommitRequest := {|
  cr_scope := cr_scope req; cr_token := cr_token req; cr_transaction := cr_transaction req;
  cr_canonical_operation := Some operation; cr_current := current; cr_now_ns := cr_now_ns req;
  cr_actor := cr_actor req; cr_attribution := cr_attribution req |}.

Definition commit_mutation_intent_transaction_inner (clock : nat -> nat -> Z) (monotonic : Z)
    (req : MutationIntentTransactionCommitRequest) (caller : option CallerIdentity)
    : COp MutationIntentCommitResult :=
  do! map_err (mutation_intent_commit_failed "unknown")
        (lift (ensure_generic_transaction_access reserved_payload (cr_transaction req)));
  let operation := default (canonical_staged_transaction_operation (cr_transaction req))
                     (cr_canonical_operation req) in
  let current := with_operation_hash (operation_hash operation) (cr_current req) in
  do intent <- validate_commit_bindings_with_audit (clock 0) token_signer (cr_scope req) (cr_token req) current
                 (cr_now_ns req) (cr_actor req);
  do! map_err (mutation_intent_commit_failed (intent_id intent))
        (reads (enforce_transaction_policy fuel depth (cr_transaction req) (cr_actor req) (cr_attribution req) caller
                  (approval_satisfied intent)));
  commit_transaction_intent validate secs_display (clock 1) token_signer monotonic
    (commit_request_with operation current req).

Definition commit_mutation_intent_transaction_with_caller (clock : nat -> nat -> Z) (monotonic : Z)
    (req : MutationIntentTransactionCommitRequest) (caller : CallerIdentity) (attribution : option AuditAttribution)
    : COp MutationIntentCommitResult :=
  commit_mutation_intent_transaction_inner clock monotonic
    {| cr_scope := cr_scope req; cr_token := cr_token req; cr_transaction := cr_transaction req;
       cr_canonical_operation := cr_canonical_operation req; cr_current := cr_current req;
       cr_now_ns := cr_now_ns req; cr_actor := Some (ci_actor caller); cr_attribution := attribution |}
    (Some caller).
End Api.

(** ** What a governed commit guarantees *)

Section Governed.
Context `{RuleEnv} `{TextFormat} `{ContentHasher} `{!IntentSerde} `{!OperationText} `{!TokenCodec}.
Variable fuel depth : nat.
Variable validate : CollectionSchema -> Value -> result unit AxonError.
Variable reserved_payload : string -> string -> string.
Variable secs_display : Z -> string.
Variable signer : MutationIntentTokenSigner.

Abbreviation Mem := MemoryStorageAdapter (only parsing).

Lemma commit_request_executable req s i :
  executable signer (commit_request_with
      (default (canonical_staged_transaction_operation (cr_transaction req)) (cr_canonical_operation req))
      (with_operation_hash (committed_hash req) (cr_current req)) req) s i <->
  executable signer req s i.
Proof. done. Qed.

Lemma lift_map_err_ok {S E E' A} (f : E -> E') (r : result A E) (s s' : S) a :
  map_err f (lift r) s = (s', Ok a) <-> s' = s /\ r = Ok a.
Proof. unfold map_err, lift. destruct r; naive_solver. Qed.

Lemma reads_map_err_ok {S E E' A} (f : E -> E') (r : S -> result A E) (s s' : S) a :
  map_err f (reads r) s = (s', Ok a) <-> s' = s /\ r s = Ok a.
Proof. unfold map_err, reads. destruct (r s); naive_solver. Qed.

Lemma same_but_audit_refl (s : Mem) : same_but_audit s s.
Proof. by destruct s. Qed.

Lemma bound_intent_unique s scope token current current' now now' i j :
  bound_intent (S := Mem) signer s scope token current now i ->
  bound_intent (S := Mem) signer s scope token current' now' j -> i = j.
Proof. intros (Hi & Hl & _) (Hj & Hl' & _). rewrite Hi in Hj. injection Hj as Hj. congruence. Qed.

(** C31. A governed commit obeys the intent, the policy and the transaction at
    once. When it succeeds, its transaction names no reserved collection; the
    token was that of the stored intent of the caller's scope, unexpired, allowed
    or approved, previewed for the hash of the canonical operation that the
    request supplies next to its transaction (nothing compares the two, see the
    findings), for the same subject, grant, schema and policy versions, with every
    row it had read at its recorded version; the write policy admits every operation of the transaction
    for this caller in the state it is executed in, and envelopes that ask for an
    approval are waived only when the intent itself was approved; the transaction
    passed its own checks; and of the intents exactly this one has changed, to
    committed. When it fails, at most the audit log has changed. *)
Theorem governed_commit_exact (clock : nat -> nat -> Z) (monotonic : Z)
    (req : MutationIntentTransactionCommitRequest) (caller : option CallerIdentity) (s s' : Mem)
    (r : result MutationIntentCommitResult MutationIntentCommitValidationError)
    (Hidle : s_tx_snapshot s = None)
    (Hrun : commit_mutation_intent_transaction_inner fuel depth validate reserved_payload secs_display signer clock
              monotonic req caller s = (s', r)) :
  match r with
  | Ok res =>
      ensure_generic_transaction_access reserved_payload (cr_transaction req) = Ok tt /\
      exists i, executable signer req s i /\
        enforce_transaction_policy fuel depth (cr_transaction req) (cr_actor req) (cr_attribution req) caller
          (approval_satisfied i) s = Ok tt /\
        (approval_satisfied i = true <-> mi_decision i = NeedsApproval) /\
        ct_intent res = set_approval_state Committed i /\
        s_mutation_intents s' = <[intent_key i := set_approval_state Committed i]> (s_mutation_intents s) /\
        Forall (op_current validate s) (tx_ops (cr_transaction req)) /\
        (is_serializable (tx_isolation (cr_transaction req)) = true ->
           Forall (read_current s) (tx_reads (cr_transaction req)) /\
           Forall (scan_current (is_strict (tx_isolation (cr_transaction req))) s)
             (tx_scan_reads (cr_transaction req)))
  | Err _ => same_but_audit s s'
  | Panic => True
  end.
Proof.
  unfold commit_mutation_intent_transaction_inner in Hrun. destruct r as [res|e|]; [| |done].
  - apply bind_ok in Hrun as (s1 & [] & [-> Ha]%lift_map_err_ok & Hrun). split; [done|].
    apply bind_ok in Hrun as (s2 & i & [-> Hb]%validate_with_audit_ok & Hrun).
    apply bind_ok in Hrun as (s3 & [] & [-> Hp]%reads_map_err_ok & Hrun).
    apply (commit_intent_ok validate secs_display signer _ _ _ _ _ _ Hidle) in Hrun
      as (j & Hex & Hres & Hm & Hops & Hser).
    apply commit_request_executable in Hex. pose proof Hex as [Hbj Hst].
    pose proof (bound_intent_unique _ _ _ _ _ _ _ _ _ Hb Hbj) as ->.
    exists j. split_and!; try done. unfold approval_satisfied.
    destruct Hst as [[Hd Ha']|[Hd Ha']]; rewrite ?Hd, ?Ha'; naive_solver.
  - apply bind_err in Hrun as [Ha|(s1 & [] & [-> _]%lift_map_err_ok & Hrun)].
    { unfold map_err, lift in Ha. destruct (ensure_generic_transaction_access _ _); try done.
      injection Ha as <- _. apply same_but_audit_refl. }
    apply bind_err in Hrun as [Hv|(s2 & i & [-> Hb]%validate_with_audit_ok & Hrun)].
    { by apply validate_with_audit_err in Hv. }
    apply bind_err in Hrun as [Hp|(s3 & [] & [-> _]%reads_map_err_ok & Hrun)]; [|by eapply commit_intent_err].
    unfold map_err, reads in Hp. destruct (enforce_transaction_policy _ _ _ _ _ _ _ _); try done.
    injection Hp as <- _. apply same_but_audit_refl.
Qed.
End Governed.
