(* ===== verification/IntentExamples.v ===== *)
(** * Intents on a concrete store

    Instances of the theorems on the intent service, and two runs that contradict
    its documentation: an audited approval that undoes the expiry it has just
    recorded, and a commit whose transaction is not the one that was previewed. *)

From S2P Require Import Prelude Json Ids Types IndexKeys Intents AuditLog Schema.
From S2P Require Import Rules Gates JsonOps AuthStore Storage Catalog.
From S2P Require Import Interface MemoryTx MemoryRows PolicyEval Transactions Requests EntityWrites IntentCanon IntentService IntentCommit.
From S2P Require Import MemoryCommit IntentProofs IntentHistories Histories CommitExamples IntentApi.
Local Open Scope axon_scope.

(** ** Numerals *)

Fixpoint ones (n : nat) : string :=
  match n with O => "1" | S n => "1" +:+ ones n end.

Definition z_text (z : Z) : string := (if (z <? 0)%Z then "-" else "+") +:+ ones (Z.to_nat (Z.abs z)).

Definition numeral (n : simple_number) : string :=
  match n with SInt z => z_text z | SFloat b => "e" +:+ z_text b end.

(** Values print as the numerals they are, or as a placeholder. *)
Definition numeral_env : RuleEnv (H := simple_serde_number) := {|
  Regex := string;
  regex_new p := inl p;
  is_match r s := bool_decide (r = s);
  value_text v := match v with Number n => numeral n | _ => "<value>" end;
  condition_op_debug _ := "<op>"
|}.

Lemma ones_numeric n : all_numeric (ones n) = true.
Proof. by induction n. Qed.

Lemma ones_inj n m : ones n = ones m -> n = m.
Proof.
  revert m. induction n as [|n IH]; intros [|m] E; [done| | |].
  - by destruct m.
  - by destruct n.
  - injection E as E. by rewrite (IH m E).
Qed.

Lemma z_text_inj a b : z_text a = z_text b -> a = b.
Proof.
  unfold z_text. intros E. destruct (Z.ltb_spec a 0), (Z.ltb_spec b 0); simpl in E; try discriminate;
    injection E as E%ones_inj; lia.
Qed.

Lemma numeral_text : NumberText (H0 := numeral_env).
Proof.
  split.
  - intros [a|a] [b|b]; simpl; intros E; [by apply z_text_inj in E as -> | | |].
    + unfold z_text in E. by destruct (a <? 0)%Z.
    + unfold z_text in E. by destruct (b <? 0)%Z.
    + injection E as E. by apply z_text_inj in E as ->.
  - intros [z|b]; simpl; unfold z_text; [destruct (z <? 0)%Z | destruct (b <? 0)%Z];
      (split; [done | exact (ones_numeric _)]).
Qed.

Section Examples.
Local Existing Instance simple_serde_number.

(** The hash of an operation does not see the order of keys. *)
Lemma operation_hash_binds_witness :
  let op1 := Object [("id", JString "u1"); ("n", jint 2)] in
  let op2 := Object [("n", jint 2); ("id", JString "u1")] in
  operation_hash (canonicalize_intent_operation (H0 := numeral_env) CreateEntity op1) =
  operation_hash (canonicalize_intent_operation (H0 := numeral_env) CreateEntity op2) /\
  canonicalize_json_value op1 = canonicalize_json_value op2.
Proof.
  split; [vm_refl|].
  destruct (operation_hash_binds (H0 := numeral_env) (NT := numeral_text) CreateEntity CreateEntity
    (Object [("id", JString "u1"); ("n", jint 2)]) (Object [("n", jint 2); ("id", JString "u1")]))
    as [[_ E]|[E _]]; [vm_refl | vm_refl | vm_refl | exact E | by destruct E].
Defined.
(** ** A store with intents *)

#[local] Instance plain_serde : IntentSerde := {|
  intent_value i := JString (intent_id i);
  summary_value r := JString (rs_summary r);
  subject_value b := JString (default "" (sb_user_id b));
  dimensions_value ds := Array (map (fun d => JString (sd_dimension d)) ds);
  error_text _ := "storage error"
|}.

#[local] Instance plain_text : OperationText :=
  {| number_of_u64 z := SInt z; mutation_debug _ := "mutation" |}.

Definition acme : MutationIntentScopeBinding := {| tenant_id := "acme"; database_id := "finance" |}.
Definition secret : MutationIntentTokenSigner := [1; 2; 3]%Z.

(** The transaction that was previewed, and another one. *)
Definition previewed_tx : Transaction := rename_tx "anna" 1.
Definition other_tx : Transaction := staged [create_op "u9" "z@x"; delete_op "u2" 1] SnapshotIsolation [] [].

Definition rename_intent (d : MutationIntentDecision) (st : ApprovalState) : MutationIntent :=
  let i := sample_intent d st in {|
  intent_id := intent_id i; mi_scope := acme; mi_subject := mi_subject i;
  mi_schema_version := 12; mi_policy_version := 12;
  mi_operation := canonical_staged_transaction_operation previewed_tx;
  mi_pre_images := [PreImageEntity "users" "u1" 1];
  mi_decision := d; mi_approval_state := st; mi_approval_route := None; mi_expires_at := 1000;
  mi_review_summary := mi_review_summary i |}.

Definition current : MutationIntentCommitValidationContext := {|
  vc_subject := mi_subject (rename_intent Allow AS_None); vc_schema_version := 12; vc_policy_version := 12;
  vc_operation_hash := ""; vc_caller_authorized := true |}.

Definition commit_request (t : Transaction) (operation : option CanonicalOperationMetadata)
    : MutationIntentTransactionCommitRequest := {|
  cr_scope := acme; cr_token := issue_for_id secret "mint_01H"; cr_transaction := t;
  cr_canonical_operation := operation; cr_current := current; cr_now_ns := 500;
  cr_actor := Some "ann"; cr_attribution := None |}.

Definition no_review : MutationIntentReviewMetadata :=
  {| rm_actor := Some "bob"; rm_reason := None; rm_tenant_role := None; rm_credential_id := None; rm_origin := None |}.

Abbreviation serve := (intent_call accept_all no_secs secret clock0) (only parsing).
Abbreviation commit_with req s :=
  (commit_transaction_intent (S := MemoryStorageAdapter) accept_all no_secs clock0 secret 0 req s) (only parsing).

(** The sample store with one pending intent, and with its approval. *)
Definition pending_store : MemoryStorageAdapter :=
  fst (serve (CallPreview (rename_intent NeedsApproval Pending) None) full_users).
Definition approved_store : MemoryStorageAdapter :=
  fst (serve (CallApprove true acme "mint_01H" no_review 400) pending_store).

Definition state_of (s : MemoryStorageAdapter) : option ApprovalState :=
  option_map mi_approval_state (get_mutation_intent s "acme" "finance" "mint_01H").
(** ** Instances *)

Lemma pending_idle : s_tx_snapshot pending_store = None.
Proof. vm_refl. Qed.
Lemma approved_idle : s_tx_snapshot approved_store = None.
Proof. vm_refl. Qed.

Definition succeeded {E A} (r : result A E) : bool := match r with Ok _ => true | _ => false end.
Definition not_panicked {E A} (r : result A E) : bool := match r with Panic => false | _ => true end.

Lemma succeeded_run {S E A} (m : M S E A) s :
  succeeded (snd (m s)) = true -> exists a, m s = (fst (m s), Ok a).
Proof. destruct (m s) as [s' [a|e|]]; try discriminate. by exists a. Qed.

Lemma one_call c s :
  not_panicked (snd (serve c s)) = true -> intent_history accept_all no_secs secret s [c] (fst (serve c s)).
Proof.
  intros Hp. econstructor; [apply surjective_pairing | intros Hr; by rewrite Hr in Hp | constructor].
Qed.

(** The previewed intent was pending and becomes approved. *)
Lemma intent_state_machine_witness :
  exists i', s_mutation_intents approved_store !! ("acme", "finance", "mint_01H") = Some i' /\
    rtc intent_move (rename_intent NeedsApproval Pending) i'.
Proof.
  destruct (intent_state_machine accept_all no_secs secret pending_store approved_store
    [CallApprove true acme "mint_01H" no_review 400] pending_idle
    (one_call (CallApprove true acme "mint_01H" no_review 400) pending_store ltac:(vm_refl))) as [Hold _].
  destruct (Hold ("acme", "finance", "mint_01H") (rename_intent NeedsApproval Pending)) as (i' & Hi' & Hr & _);
    [vm_refl|]. exact (ex_intro _ i' (conj Hi' Hr)).
Defined.

Definition good_request : MutationIntentTransactionCommitRequest := commit_request previewed_tx None.

(** The approved intent is committed. *)
Lemma intent_commit_exact_witness :
  exists res i, snd (commit_with good_request approved_store) = Ok res /\
    executable secret good_request approved_store i /\ ct_intent res = set_approval_state Committed i.
Proof.
  destruct (succeeded_run (commit_transaction_intent (S := MemoryStorageAdapter) accept_all no_secs clock0 secret 0
    good_request) approved_store ltac:(vm_refl)) as [res Hres].
  destruct (intent_commit_exact accept_all no_secs secret clock0 0 good_request approved_store _ _ approved_idle Hres)
    as (i & Hex & Hct & _).
  exists res, i. exact (conj (f_equal snd Hres) (conj Hex Hct)).
Defined.

(** The same commit through the handler. *)
Definition governed := (commit_mutation_intent_transaction_inner (S := MemoryStorageAdapter) 10 5 accept_all
  (fun _ op => op) no_secs secret (fun _ => clock0) 0 good_request None).

Lemma governed_commit_exact_witness :
  exists res i, snd (governed approved_store) = Ok res /\ executable secret good_request approved_store i /\
    enforce_transaction_policy 10 5 previewed_tx (cr_actor good_request) (cr_attribution good_request) None
      (approval_satisfied i) approved_store = Ok tt.
Proof.
  destruct (succeeded_run governed approved_store ltac:(vm_refl)) as [res Hres].
  destruct (governed_commit_exact 10 5 accept_all (fun _ op => op) no_secs secret (fun _ => clock0) 0 good_request
    None approved_store _ _ approved_idle Hres) as (_ & i & Hex & Hp & _).
  exists res, i. exact (conj (f_equal snd Hres) (conj Hex Hp)).
Defined.

(** The same request again is refused. *)
Lemma intent_commits_once_witness :
  succeeded (snd (commit_with good_request approved_store)) = true /\
  ~ exists res, snd (commit_with good_request (fst (commit_with good_request approved_store))) = Ok res.
Proof.
  split; [vm_refl|]. intros [res2 Hres2]. revert res2 Hres2.
  destruct (succeeded_run (commit_transaction_intent (S := MemoryStorageAdapter) accept_all no_secs clock0 secret 0
    good_request) approved_store ltac:(vm_refl)) as [res Hres].
  apply (intent_commits_once accept_all no_secs secret clock0 clock0 0 0 good_request good_request approved_store
    (fst (commit_with good_request approved_store)) (fst (commit_with good_request approved_store))
    (fst (commit_with good_request (fst (commit_with good_request approved_store)))) [] res);
    [exact approved_idle | exact Hres | constructor | split; [|reflexivity] | apply surjective_pairing].
  destruct (commit_intent_ok accept_all no_secs secret clock0 0 good_request approved_store _ _ approved_idle Hres)
    as (i & [(Hv & _) _] & Hct & _). rewrite Hct. exact Hv.
Defined.

(** ** Divergences *)

(** An audited approval of an intent that is due answers that the intent has
    expired, and leaves it pending: the expiry it recorded is undone with the
    transaction of the failed approval.  The approval without audit records it. *)
Theorem audited_review_undoes_expiry :
  state_of pending_store = Some Pending /\
  snd (approve_with_audit clock0 acme "mint_01H" no_review 1000 pending_store) =
    Err (LeExpired "mint_01H" LoApprove 1000 1000) /\
  state_of (fst (approve_with_audit clock0 acme "mint_01H" no_review 1000 pending_store)) = Some Pending /\
  state_of (fst (approve acme "mint_01H" no_review 1000 pending_store)) = Some Expired.
Proof. split_and!; vm_refl. Qed.

(** A commit that names its operation itself executes any transaction: an intent
    previewed and approved for the renaming of a row is committed by creating one
    row and deleting another, which the hash of that transaction refuses. *)
Theorem supplied_operation_not_checked :
  operation_hash (canonical_staged_transaction_operation other_tx) <>
    operation_hash (mi_operation (rename_intent NeedsApproval Pending)) /\
  succeeded (snd (commit_with (commit_request other_tx None) approved_store)) = false /\
  state_of (fst (commit_with (commit_request other_tx (Some (mi_operation (rename_intent NeedsApproval Pending))))
                   approved_store)) = Some Committed /\
  stored (fst (commit_with (commit_request other_tx (Some (mi_operation (rename_intent NeedsApproval Pending))))
                   approved_store)) users_key "u2" = None.
Proof. split_and!; [by vm_compute | vm_refl..]. Qed.
End Examples.
