(* ===== verification/HandlerExamples.v ===== *)
(** * Concrete runs of the request handler *)

From S2P Require Import Prelude Json Ids Types Bfs IndexKeys Intents AuditLog Schema PolicyPlan PolicyCycles.
From S2P Require Import PolicyCompile Rules Gates JsonOps AuthStore Roles Storage Catalog.
From S2P Require Import PolicyEval PolicyDecide PolicyEnforce Interface MemoryTx MemoryRows PolicyExamples.
From S2P Require Import Transactions Requests IntentCanon IntentService EntityWrites EntityReads Graph.
From S2P Require Import QueryPlan Queries QueryProofs IndexQueries EntityProofs MemoryCommit EntitySpec.
From S2P Require Import Histories CommitExamples Evolution Rollback RollbackProofs Explain.
From S2P Require Import ExplainProofs Templates Collections AuditReads AuditReadProofs.
From S2P Require Import Beads BeadSearch BeadProofs.
Local Open Scope axon_scope.

(** ** Entity writes on a concrete store

    Instances of the theorems on the write path, and runs that contradict the
    documented behaviour: updates that jump between lifecycle states,
    transactions that skip gates and lifecycles, creates that reset versions. *)

Section Examples.
Local Existing Instance simple_serde_number.

Definition payload (name operation : string) : string := operation +:+ ":" +:+ name.
Definition any_metadata (_ _ : Value) : result unit AxonError := Ok tt.

Abbreviation handle := (run_handler (S := MemoryStorageAdapter) 5 5 accept_all any_metadata payload no_secs clock0).

(** Tickets go from draft over review to done; they need a title. *)
Definition ticket_lifecycle : LifecycleDef :=
  {| lc_field := "state"; lc_initial := "draft";
     lc_transitions := {[ "draft" := ["review"]; "review" := ["done"; "draft"] ]} |}.

Definition tickets_schema : CollectionSchema := {|
  cs_collection := "tickets"; cs_description := None; cs_version := 1; cs_entity_schema := None;
  cs_link_types := ∅; cs_access_control := None; cs_gates := ∅;
  cs_validation_rules := [{| vr_name := "title"; vr_gate := Some "save"; vr_advisory := false;
    vr_when := None; vr_require := {| rq_field := "title"; rq_op := RNotNull true |};
    vr_message := "a title is needed"; vr_fix := None |}];
  cs_indexes := []; cs_compound_indexes := []; cs_queries := ∅;
  cs_lifecycles := {[ "flow" := ticket_lifecycle ]} |}.

Definition ticket (title state : string) : Value :=
  Object [("state", JString state); ("title", JString title)].

Definition tickets_store : MemoryStorageAdapter :=
  fst (bind (register_collection "tickets") (fun _ => put_schema 0 tickets_schema) storage_default).

Definition create_call (id : EntityId) (data : Value) : HandlerCall :=
  CallCreate {| ce_collection := "tickets"; ce_id := id; ce_data := data; ce_actor := Some "ann";
                ce_audit_metadata := None; ce_attribution := None |} None.
Definition update_call (id : EntityId) (data : Value) (version : Z) : HandlerCall :=
  CallUpdate {| ue_collection := "tickets"; ue_id := id; ue_data := data; ue_expected_version := version;
                ue_actor := Some "bob"; ue_audit_metadata := None; ue_attribution := None |} None.
Definition transition_call (id : EntityId) (target : string) (version : Z) : HandlerCall :=
  CallTransition {| tl_collection_id := "tickets"; tl_entity_id := id; tl_lifecycle_name := "flow";
                    tl_target_state := target; tl_expected_version := version; tl_actor := Some "bob";
                    tl_audit_metadata := None; tl_attribution := None |}.

Fixpoint after (calls : list HandlerCall) (s : MemoryStorageAdapter) : MemoryStorageAdapter :=
  match calls with
  | [] => s
  | c :: rest => after rest (fst (handle c s))
  end.

Definition accepted (c : HandlerCall) (s : MemoryStorageAdapter) : bool := is_ok (snd (handle c s)).
Definition shown (s : MemoryStorageAdapter) (id : EntityId) : option (Z * Value) :=
  match get s "tickets" id with Ok (Some e) => Some (e_version e, e_data e) | _ => None end.

(** One draft ticket. *)
Definition one_ticket : MemoryStorageAdapter := after [create_call "t1" (Object [("title", JString "fix")])] tickets_store.

Lemma one_ticket_shown : shown one_ticket "t1" = Some (1%Z, ticket "fix" "draft").
Proof. vm_refl. Qed.

(** ** Instances *)

Lemma one_ticket_idle : s_tx_snapshot one_ticket = None.
Proof. vm_refl. Qed.

Lemma ran c s : is_ok (snd (handle c s)) = true -> handle c s = (fst (handle c s), Ok tt).
Proof. destruct (handle c s) as [s' [[]|e|]]; done. Qed.

(** Closing the ticket at once is refused and changes nothing. *)
Lemma handler_writes_atomic_witness :
  sa_view (fst (handle (transition_call "t1" "done" 1) one_ticket)) = sa_view one_ticket /\
  sa_saved (fst (handle (transition_call "t1" "done" 1) one_ticket)) = None.
Proof.
  destruct (handle (transition_call "t1" "done" 1) one_ticket) as [s' r] eqn:E.
  assert (Hr : is_err r = true) by (change r with (snd (s', r)); rewrite <-E; vm_refl).
  destruct r as [[]|e|]; [discriminate|clear Hr|discriminate].
  assert (Hx : restored one_ticket s' \/ (commits_by_helper (transition_call "t1" "done" 1) /\
    commit_failed one_ticket s' e)).
  { exact (handler_writes_atomic 5 5 accept_all any_metadata payload no_secs memory_reads_agree clock0
      (transition_call "t1" "done" 1) one_ticket s' e one_ticket_idle E). }
  destruct Hx as [Hx|(_ & s2 & Hs2 & Hc)]; [exact Hx|].
  destruct (memory_commits s2 _ Hs2) as [s3 Hc']. congruence.
Defined.


(** A patch that changes nothing makes a version and an entry of its own. *)
Definition idle_patch : HandlerCall :=
  CallPatch {| pe_collection := "tickets"; pe_id := "t1"; pe_patch := Object [];
    pe_expected_version := 1; pe_actor := Some "bob"; pe_audit_metadata := None;
    pe_attribution := None |} None.

Lemma idle_patch_counts :
  shown one_ticket "t1" = Some (1%Z, ticket "fix" "draft") /\
  shown (fst (handle idle_patch one_ticket)) "t1" = Some (2%Z, ticket "fix" "draft").
Proof. split; vm_refl. Qed.

(** Deleting an id that is not stored succeeds. *)
Definition delete_nothing : HandlerCall :=
  CallDelete {| de_collection := "tickets"; de_id := "t9"; de_actor := Some "bob"; de_audit_metadata := None;
    de_force := false; de_attribution := None |} None.

Lemma delete_missing_accepted :
  shown one_ticket "t9" = None /\ is_ok (snd (handle delete_nothing one_ticket)) = true.
Proof. split; vm_refl. Qed.

Lemma no_rows_hold (s : MemoryStorageAdapter) : s_data s = ∅ -> lifecycles_hold s.
Proof. intros Hd key sch id e _. unfold stored. by rewrite Hd, lookup_empty. Qed.

Lemma tickets_store_holds : lifecycles_hold tickets_store.
Proof. apply no_rows_hold. vm_refl. Qed.

Lemma lifecycle_invariant_witness :
  lifecycles_hold one_ticket /\ shown one_ticket "t1" = Some (1%Z, ticket "fix" "draft").
Proof.
  split; [|vm_refl].
  apply (lifecycle_invariant 5 5 accept_all any_metadata payload no_secs tickets_store one_ticket).
  - vm_refl.
  - exact tickets_store_holds.
  - eapply (reach_call _ _ _ _ _ _ _ clock0 (create_call "t1" (Object [("title", JString "fix")])) tickets_store _ (Ok tt));
      [constructor|reflexivity|apply ran; vm_refl|discriminate].
Defined.

(** ** Lifecycles can be bypassed *)

(** An update may jump between lifecycle states: it only checks that the new
    state is known, so it takes a draft ticket straight to done although the
    lifecycle has no such transition and [transition_lifecycle] refuses it; a
    create may likewise start in any known state.  FEAT-010 (LCM-02, LCM-03) asks
    for the initial state on creation and for a check of the transition on every
    update that changes the field. *)
Theorem update_skips_transitions :
  accepted (transition_call "t1" "done" 1) one_ticket = false /\
  accepted (update_call "t1" (ticket "fix" "done") 1) one_ticket = true /\
  shown (after [update_call "t1" (ticket "fix" "done") 1] one_ticket) "t1" = Some (2%Z, ticket "fix" "done") /\
  accepted (create_call "t2" (ticket "new" "done")) one_ticket = true.
Proof. split_and!; vm_refl. Qed.

(** A transaction that stages one ticket. *)
Definition stage_ticket (id : EntityId) (data : Value) : Transaction :=
  {| tx_id := "tx-1";
     tx_ops := [SEntity {| wo_entity := entity_new "tickets" id data; wo_expected_version := 0;
                           wo_data_before := None; wo_mutation := EntityCreate;
                           wo_write_scope := PresentEntity |}];
     tx_reads := []; tx_scan_reads := []; tx_isolation := SnapshotIsolation; tx_created_at := 0;
     tx_timeout := DEFAULT_TIMEOUT |}.
Definition commit_call (t : Transaction) : HandlerCall := CallCommit 0 t (Some "ann") None None.

(** Transactions skip gates and lifecycles: a direct create of a ticket
    without title is blocked by the save gate, and one in an unknown state by the
    lifecycle check, but a transaction stores a ticket with both defects.
    FEAT-019 (VAL-04) says a failing save gate blocks persistence, and FEAT-010
    that lifecycle behaviour is impossible to bypass. *)
Theorem transaction_skips_gates :
  accepted (create_call "t2" (Object [("state", JString "draft")])) one_ticket = false /\
  accepted (create_call "t2" (ticket "x" "limbo")) one_ticket = false /\
  (let broken := Object [("state", JString "limbo")] in
   accepted (commit_call (stage_ticket "t2" broken)) one_ticket = true /\
   shown (after [commit_call (stage_ticket "t2" broken)] one_ticket) "t2" = Some (1%Z, broken)).
Proof. cbv zeta. split_and!; vm_refl. Qed.

(** ** Creates reset versions *)

(** A create over an existing entity loses an update: it stores version 1
    again, whatever the version was.  Here a reader sees version 1, an update
    moves the row to version 2, a create replaces it and is audited as a creation
    without a previous image, and then the reader's update, based on the first
    version 1, passes the version check.  FEAT-004 (ENT-09) says that versions
    grow by exactly one with every mutation. *)
Theorem create_resets_version :
  let calls := [update_call "t1" (ticket "two" "draft") 1; create_call "t1" (ticket "three" "draft")] in
  accepted (update_call "t1" (ticket "stale" "draft") 1) (after (firstn 1 calls) one_ticket) = false /\
  shown (after calls one_ticket) "t1" = Some (1%Z, ticket "three" "draft") /\
  accepted (update_call "t1" (ticket "stale" "draft") 1) (after calls one_ticket) = true /\
  map (fun e => (ae_mutation e, ae_data_before e)) (drop 2 (log_entries (s_audit_log (after calls one_ticket))))
    = [(EntityCreate, None)].
Proof. cbv zeta. split_and!; vm_refl. Qed.
End Examples.

(** ** Reads on a concrete store

    Instances of the theorems on graph searches, and a transaction that can never
    commit because a policy hides one of the entities it read. *)

Section Examples.
Local Existing Instance simple_serde_number.

Definition caller_named (name : string) : option CallerIdentity :=
  Some {| ci_actor := name; ci_role := RoleWrite; ci_entity_filter := None |}.

Lemma ok_exists {A} (r : result A AxonError) : is_ok r = true -> exists o, r = Ok o.
Proof. destruct r; [by eexists|done..]. Qed.

Definition d1_in_f1 : Link := link_between "docs" "d1" "in" "folders" "f1".

Definition ann_asks : ReachableRequest := {|
  rq_source_collection := "docs"; rq_source_id := "d1"; rq_target_collection := "folders";
  rq_target_id := "f1"; rq_link_type := Some "in"; rq_max_depth := Some 2; rq_direction := Forward |}.

(** Ann sees her folder one hop from the document. *)
Lemma reachable_exact_witness :
  exists r, reachable_with_read_context_unchecked 10 5 store ann_asks (caller_named "ann") None false = Ok r /\
    rr_depth r = Some 1.
Proof.
  destruct (reachable_exact 10 5 store (caller_named "ann") None ann_asks false [d1_in_f1]) as (r & Hr & _ & _).
  - vm_refl.
  - apply ok_exists. vm_refl.
  - intros l n [[<-|[]] _]%in_typed_links _. apply ok_exists. vm_refl.
  - exists r. split; [exact Hr|].
    assert (E : Ok (E := AxonError) (rr_depth r) = Ok (Some 1)); [|by injection E].
    change (Ok (rr_depth r)) with (let? r := Ok (E := AxonError) r in Ok (rr_depth r)).
    rewrite <-Hr. vm_refl.
Defined.

Definition ann_walks : TraverseRequest := {|
  tq_collection := "folders"; tq_id := "f1"; tq_link_type := None; tq_max_depth := None;
  tq_direction := Reverse; tq_hop_filter := None |}.

(** From the folder back to the document. *)
Lemma traverse_exact_witness :
  exists r nodes, traverse_with_read_context_unchecked 10 5 store ann_walks (caller_named "ann") None false = Ok r /\
    base.NoDup (("folders", "f1") :: nodes) /\ length nodes = length (ts_entities r).
Proof.
  destruct (traverse_exact 10 5 store (caller_named "ann") None ann_walks false [d1_in_f1] ("folders", "f1"))
    as (r & nodes & Hr & Hnd & _ & Hlen%Forall2_length & _).
  - reflexivity.
  - vm_refl.
  - right. destruct (ok_exists (visible 10 5 store (caller_named "ann") None ("folders", "f1"))) as [o Ho]; [vm_refl|].
    destruct o as [e|]; [by exists e|]. exfalso.
    assert (E : is_ok (let? o := visible 10 5 store (caller_named "ann") None ("folders", "f1") in
      match o with Some _ => Ok tt | None => Err (NotFound "f1") end) = true) by vm_refl.
    by rewrite Ho in E.
  - intros l n [[<-|[]] _]%in_typed_links _. apply ok_exists. vm_refl.
  - exists r, nodes. split; [exact Hr|split; [exact Hnd|exact Hlen]].
Defined.

(** ** A hidden read *)

(** Eve stages a document of her own; her Serializable transaction may read the
    document that the policy hides from her. *)
Definition eve_stages (reads : list (CollectionId * EntityId)) : Transaction :=
  let start := {| tx_id := "tx-1";
     tx_ops := [SEntity {| wo_entity := row "docs" "d2" "eve"; wo_expected_version := 0;
                           wo_data_before := None; wo_mutation := EntityCreate;
                           wo_write_scope := PresentEntity |}];
     tx_reads := []; tx_scan_reads := []; tx_isolation := Serializable; tx_created_at := 0;
     tx_timeout := DEFAULT_TIMEOUT |} in
  fold_left (fun tx read =>
    fst (tx_get_entity_inner 10 5 payload store tx (fst read) (snd read) (caller_named "eve") None)) reads start.

Definition eve_commits (tx : Transaction) : result unit AxonError :=
  match commit_transaction_inner 10 5 accept_all payload no_secs 0 clock0 tx (Some "eve") None
          (caller_named "eve") store with
  | (_, Ok _) => Ok tt
  | (_, Err e) => Err e
  | (_, Panic) => Panic
  end.

(** The versions and the data that a conflict shows. *)
Definition disclosed (r : result unit AxonError) : option (Z * Z * Value) :=
  match r with
  | Err (ConflictingVersion expected actual (Some e)) => Some (expected, actual, e_data e)
  | _ => None
  end.

(** A transaction that reads an entity which the read policy hides cannot
    commit under Serializable isolation, although nothing changed since: the read
    answers that the entity is missing and records it as absent, and the commit
    finds it present.  The conflict that it reports also hands the hidden entity
    to the client. *)
Theorem hidden_read_dooms_transaction :
  eve_commits (eve_stages []) = Ok tt /\
  snd (tx_get_entity_inner 10 5 payload store (eve_stages []) "docs" "d1" (caller_named "eve") None)
    = Err (NotFound "d1") /\
  disclosed (eve_commits (eve_stages [("docs", "d1")])) = Some (0%Z, 1%Z, Object [("owner", JString "bob")]).
Proof. split_and!; vm_refl. Qed.
End Examples.

(** ** Queries on a concrete store

    Instances of the theorems on queries and snapshots, and runs that contradict
    the documented behaviour: an index that changes the answer of a range query,
    counts that reveal hidden rows, a snapshot whose pages never end. *)

Section Examples.
Local Existing Instance simple_serde_number.

#[local] Instance simple_number_eq : SerdeNumberEq.
Proof. split. intros [x|x] [y|y] E; try discriminate E; [|done]. by apply Z.eqb_eq in E as ->. Qed.

Abbreviation run_query := (query_entities_with_read_context_unchecked (S := MemoryStorageAdapter) 10 5 id).

Definition field_filter (field : string) (op : FilterOp) (value : Value) : FilterNode :=
  FField {| ff_field := field; ff_op := op; ff_value := value |}.

Definition query_of (c : CollectionId) (filter : option FilterNode) (limit : option nat) : QueryEntitiesRequest := {|
  qe_collection := c; qe_filter := filter; qe_sort := []; qe_limit := limit; qe_after_id := None;
  qe_count_only := false |}.

(** The ids that a query returns. *)
Definition found (r : result QueryEntitiesResponse AxonError) : option (list EntityId) :=
  match r with Ok r => Some (map e_id (qr_entities r)) | _ => None end.

(** ** Instances *)

(** Two users by name, through the index and by the scan. *)
Lemma rows_keyed (s : MemoryStorageAdapter) (k : QualifiedCollectionId) :
  match s_data s !! k with
  | Some col => forallb (fun row => bool_decide (e_id (snd row) = fst row)) (map_to_list col)
  | None => true
  end = true ->
  forall id e, stored s k id = Some e -> e_id e = id.
Proof.
  unfold stored. intros Hc i e. destruct (s_data s !! k) as [col|]; [|done]. cbn. intros He.
  rewrite forallb_forall in Hc. apply elem_of_map_to_list, list_elem_of_In, Hc, bool_decide_eq_true in He. exact He.
Qed.

Definition named_ann : FilterNode :=
  FAnd [field_filter "team" FEq (JString "blue"); field_filter "name" FEq (JString "ann")].
Definition users_full_schema : CollectionSchema := users_schema [email_index; name_index] [name_team_index].

Definition ann_of_blue : QueryEntitiesRequest := query_of "users" (Some named_ann) None.

Lemma index_query_exact_witness :
  try_index_lookup full_users "users" (Some named_ann) (Some users_full_schema) = Ok (Some ["u1"; "u2"]) /\
  found (scan_query 10 5 id full_users ann_of_blue None None) = Some ["u2"].
Proof.
  split; [vm_refl|].
  assert (E : found (run_query full_users ann_of_blue None None) = Some ["u2"]) by vm_refl.
  destruct (index_query_exact full_users users_key [email_index; name_index] [name_team_index] 10 5 id
    ann_of_blue users_full_schema named_ann None None) as [R|(e & R & _)];
    [vm_refl|vm_refl| | | | |reflexivity|reflexivity|reflexivity|reflexivity| |].
  - apply rows_keyed. vm_refl.
  - apply (run_rows_indexed two_users empty_users); [apply indexed_no_rows; reflexivity|exact full_users_run].
  - exact full_users_fixed.
  - repeat constructor.
  - by rewrite <-R.
  - assert (Hok : is_err (scan_query 10 5 id full_users ann_of_blue None None) = false) by vm_refl.
    rewrite R in Hok. discriminate Hok.
Defined.

Lemma found_ids r full l : found r = Some l -> r = Ok full -> map e_id (qr_entities full) = l.
Proof. intros Hf ->. by injection Hf. Qed.

Lemma two_users_distinct : NoDup ["u1"; "u2"].
Proof. by apply (bool_decide_unpack _). Qed.

Definition all_users : QueryEntitiesRequest := query_of "users" None None.

Lemma query_pages_complete_witness :
  exists pages, follow_cursors 10 5 id full_users 3 1 all_users None None None = Ok pages /\
    map e_id (concat pages) = ["u1"; "u2"].
Proof.
  destruct (ok_exists (run_query full_users (with_page None None all_users) None None)) as [full Hfull]; [vm_refl|].
  assert (Hids : map e_id (qr_entities full) = ["u1"; "u2"]) by (eapply found_ids; [|exact Hfull]; vm_refl).
  destruct (query_pages_complete 10 5 id full_users all_users None None 1 full) as (pages & Hp & Hc & _);
    [exact Nat.lt_0_1|reflexivity|exact Hfull|rewrite Hids; exact two_users_distinct|].
  assert (Hlen : length (qr_entities full) = 2) by (rewrite <-(length_map e_id), Hids; reflexivity).
  rewrite Hlen in Hp. exists pages. rewrite Hc. split; [exact Hp|exact Hids].
Defined.

Lemma page_token_roundtrip_witness :
  encode_snapshot_page_token "a:1" "2:b" = "3:a:12:b" /\
  decode_snapshot_page_token (encode_snapshot_page_token "a:1" "2:b") = Ok ("a:1", "2:b").
Proof.
  split; [vm_refl|]. apply (page_token_roundtrip (row "a:1" "2:b" "ann")). split; [vm_compute; discriminate|reflexivity].
Defined.

Lemma two_rows_distinct : NoDup [("docs", "d1"); ("folders", "f1")].
Proof. by apply (bool_decide_unpack _). Qed.
Lemma two_rows_nameable : Forall (fun key => (N.of_nat (String.length (fst key)) <= usize_MAX)%N /\
  starts_char (snd key) = true) [("docs", "d1"); ("folders", "f1")].
Proof. repeat constructor; vm_compute; discriminate. Qed.

Definition both : list CollectionId := ["folders"; "docs"].

Lemma snapshot_pages_complete_witness :
  exists pages, follow_tokens store payload 3 (Some both) 1 None = Ok pages /\
    map row_key (concat pages) = [("docs", "d1"); ("folders", "f1")].
Proof.
  destruct (ok_exists (snapshot_rows payload store (Some both))) as [all Hall]; [vm_refl|].
  assert (Hkeys : map row_key all = [("docs", "d1"); ("folders", "f1")]).
  { assert (E : Ok (E := AxonError) (map row_key all) = Ok [("docs", "d1"); ("folders", "f1")]); [|by injection E].
    change (Ok (map row_key all)) with (let? all := Ok (E := AxonError) all in Ok (map row_key all)).
    rewrite <-Hall. vm_refl. }
  assert (Hlen : length all = 2) by (rewrite <-(length_map row_key), Hkeys; reflexivity).
  destruct (snapshot_pages_complete store payload (Some both) all 1) as (pages & Hp & Hc & _);
    [exact Nat.lt_0_1|exact Hall| | |].
  - rewrite Hkeys. exact two_rows_distinct.
  - assert (Hn : Forall (fun key => (N.of_nat (String.length (fst key)) <= usize_MAX)%N /\ starts_char (snd key) = true)
      (map row_key all)).
    { rewrite Hkeys. exact two_rows_nameable. }
    rewrite Forall_map in Hn. exact Hn.
  - rewrite Hlen in Hp. exists pages. rewrite Hc. split; [exact Hp|exact Hkeys].
Defined.

(** ** An index changes the answer of a range query *)

Definition age_index : IndexDef := {| ix_field := "age"; ix_type := TInteger; ix_unique := false |}.
Definition aged (id : EntityId) (data : list (string * Value)) : Entity := entity_new "users" id (Object data).
Definition ages_store (indexes : list IndexDef) : MemoryStorageAdapter :=
  fst ((do! put (aged "u1" [("age", jint 5)]); put (aged "u2" [])) (users_store indexes [])).
Definition younger : QueryEntitiesRequest := query_of "users" (Some (field_filter "age" FLt (jint 10))) None.

(** Declaring an index changes the answer of a range query: a row without the
    field counts as smaller than every value when the rows are scanned, but has no
    entry in the index. *)
Theorem index_changes_range_query :
  found (run_query (ages_store []) younger None None) = Some ["u1"; "u2"] /\
  found (run_query (ages_store [age_index]) younger None None) = Some ["u1"].
Proof. split; vm_refl. Qed.

(** ** Counts ignore the read policy *)

Definition counted (r : result CountEntitiesResponse AxonError) : option nat :=
  match r with Ok r => Some (cn_total_count r) | _ => None end.

(** Counts reveal hidden rows: Eve can see no document, and a query tells her
    so, but the count of the documents with a given owner is 1.  The count does
    not even take the caller.  FEAT-029 asks that hidden rows leak neither through
    counts nor through aggregates. *)
Theorem count_reveals_hidden_rows :
  found (run_query store (query_of "docs" (Some (field_filter "owner" FEq (JString "bob"))) None)
           (caller_named "eve") None) = Some [] /\
  counted (count_entities payload store {| cn_collection := "docs";
    cn_filter := Some (field_filter "owner" FEq (JString "bob")); cn_group_by := None |}) = Some 1.
Proof. split; vm_refl. Qed.

(** ** A snapshot whose pages never end *)

Definition twice : option (list CollectionId) := Some ["docs"; "docs"; "folders"].

(** The keys of a page and its token. *)
Definition page_keys (token : option string) : option (list (string * string) * option string) :=
  match snapshot_entities payload store (snapshot_page twice (Some 1) token) with
  | Ok r => Some (map row_key (ss_entities r), ss_next_page_token r)
  | _ => None
  end.

(** A snapshot of a collection list with a repetition never ends: its rows
    occur twice, and a token always leads behind the first occurrence, so the
    second page has the same token as the first and the client is given that page
    forever. *)
Theorem repeated_snapshot_loops :
  let token := Some "4:docsd1" in
  page_keys None = Some ([("docs", "d1")], token) /\ page_keys token = Some ([("docs", "d1")], token) /\
  forall requests, follow_tokens store payload requests twice 1 token = Panic.
Proof.
  cbv zeta. assert (Hp : page_keys (Some "4:docsd1") = Some ([("docs", "d1")], Some "4:docsd1")) by vm_refl.
  split_and!; [vm_refl|exact Hp|]. intros requests. induction requests as [|requests IH]; [reflexivity|].
  cbn [follow_tokens]. unfold page_keys in Hp.
  destruct (snapshot_entities _ _ _) as [r| |]; [|discriminate Hp..]. cbn [result_bind].
  injection Hp as _ Ht. rewrite Ht, IH. reflexivity.
Qed.
End Examples.

(** ** Rollbacks of a concrete collection

    Instances of the theorems on rollbacks, and runs in which a rollback that
    reports success does not restore the collection, or skips what the other
    writes check. *)

Section Examples.
Local Existing Instance simple_serde_number.

Abbreviation Mem := MemoryStorageAdapter (only parsing).
Abbreviation call_at ts := (run_handler (S := MemoryStorageAdapter) 5 5 accept_all any_metadata payload no_secs
  (fun _ => ts%Z)).

(** Calls with the times at which they run. *)
Fixpoint timed (calls : list (Z * HandlerCall)) (s : Mem) : Mem :=
  match calls with
  | [] => s
  | (ts, c) :: rest => timed rest (fst (call_at ts c s))
  end.

Definition tickets_key : QualifiedCollectionId :=
  {| q_namespace := default_ns; q_collection := "tickets" |}.
Definition delete_call (id : EntityId) : HandlerCall :=
  CallDelete {| de_collection := "tickets"; de_id := id; de_actor := Some "bob"; de_audit_metadata := None;
                de_force := false; de_attribution := None |} None.

Definition no_text (_ : AxonError) : string := "error".
Definition to_time (ts : Z) : RollbackCollectionRequest :=
  {| rc_collection := "tickets"; rc_timestamp_ns := ts; rc_actor := Some "eve"; rc_dry_run := false |}.
Definition later_clock (n m : nat) : Z := 1000 + Z.of_nat n.
Definition collection_to (ts : Z) (s : Mem) : Mem * result RollbackCollectionResponse AxonError :=
  rollback_collection payload no_text later_clock (to_time ts) s.

(** Two tickets at time 10; later one is updated, the other deleted, and a third
    one created. *)
Definition two_tickets : Mem :=
  timed [(9%Z, create_call "t1" (ticket "fix" "draft")); (10%Z, create_call "t2" (ticket "new" "draft"))] tickets_store.
Definition later_calls : list (Z * HandlerCall) :=
  [(20%Z, update_call "t1" (ticket "fix" "review") 1); (21%Z, delete_call "t2");
   (22%Z, create_call "t3" (ticket "x" "draft"))].
Definition later : Mem := timed later_calls two_tickets.

(** ** Instances *)

Lemma empty_reflected : reflected "tickets" tickets_key tickets_store.
Proof. split; [vm_refl | vm_refl | intros id _; vm_refl | intros e He; vm_compute in He; destruct He]. Qed.

(** Calls on tickets that do not panic. *)
Fixpoint on_tickets (calls : list (Z * HandlerCall)) (s : Mem) : bool :=
  match calls with
  | [] => true
  | (ts, c) :: rest =>
      let run := call_at ts c s in
      is_entity_call c && bool_decide (call_collection c = "tickets") && (is_ok (snd run) || is_err (snd run)) &&
      on_tickets rest (fst run)
  end.

Lemma timed_run calls (s : Mem) :
  on_tickets calls s = true ->
  entity_run 5 5 accept_all payload any_metadata no_secs "tickets" tickets_key s (timed calls s).
Proof.
  revert s. induction calls as [|[ts c] rest IH]; intros s Hok; [constructor|]. simpl timed. simpl in Hok.
  apply andb_prop in Hok as [[[Hcall Hname%bool_decide_eq_true]%andb_prop Hr]%andb_prop Hok].
  destruct (call_at ts c s) as [s1 r] eqn:E. simpl in *.
  eapply (run_call _ _ _ _ _ _ _ _ s s1 _ (fun _ => ts) c r); [done | done | exact E | by destruct r | by apply IH].
Qed.

Lemma two_tickets_reflected : reflected "tickets" tickets_key two_tickets.
Proof.
  eapply run_reflected; [|exact empty_reflected]. apply (timed_run _ tickets_store). vm_refl.
Qed.

Ltac by_decision := refine (bool_decide_unpack _ _); vm_compute; exact I.

(** Back to time 15: the first ticket is a draft again, the second one exists
    again and the third one is gone. *)
Lemma point_in_time_recovery_witness :
  let s' := fst (collection_to 15 later) in
  (forall id, id <> "" -> same_document (row_data s' tickets_key id) (row_data two_tickets tickets_key id)) /\
  row_data s' tickets_key "t1" = Some (ticket "fix" "draft") /\
  row_data s' tickets_key "t2" = Some (ticket "new" "draft") /\ row_data s' tickets_key "t3" = None.
Proof.
  intros s'. split; [|split_and!; vm_refl].
  destruct (collection_to 15 later) as [s1 r] eqn:E.
  assert (Hr : match r with Ok resp => rcr_errors resp = 0 | _ => False end)
    by (change r with (snd (s1, r)); rewrite <-E; vm_compute; reflexivity).
  destruct r as [resp|e|]; [|destruct Hr..].
  assert (Hrun : entity_run 5 5 accept_all payload any_metadata no_secs "tickets" tickets_key two_tickets later)
    by (apply (timed_run later_calls two_tickets); vm_refl).
  unfold collection_to in E. simpl in s'. subst s'.
  assert (Htime : (0 <= rc_timestamp_ns (to_time 15) < 2 ^ 64 - 1)%Z) by (split; vm_compute; congruence).
  refine (proj1 (point_in_time_recovery 5 5 accept_all payload no_text any_metadata no_secs later_clock (to_time 15)
    tickets_key two_tickets later s1 resp two_tickets_reflected Hrun Htime _ _ _ _ eq_refl E Hr));
    [by_decision | by_decision | by_decision | apply Nat.leb_le; vm_refl].
Defined.

(** ** Rollbacks that restore too little *)

(** [n] updates of a ticket. *)
Fixpoint updates (id : EntityId) (n : nat) (version : Z) : list (Z * HandlerCall) :=
  match n with
  | O => []
  | S n => ((20 + version)%Z, update_call id (ticket "fix" "review") version) :: updates id n (version + 1)
  end.

(** The first ticket is updated a hundred times, then the second one once. *)
Definition busy : Mem := timed (updates "t1" 100 1 ++ [(500%Z, update_call "t2" (ticket "new" "review") 1)]) two_tickets.

(** Errors, entities affected and entities rolled back, as reported. *)
Definition summary (r : result RollbackCollectionResponse AxonError) : option (nat * nat * nat) :=
  match r with
  | Ok resp => Some (rcr_errors resp, rcr_entities_affected resp, rcr_entities_rolled_back resp)
  | _ => None
  end.

(** A rollback only looks at the first page of the log, a hundred entries, so that
    with more changes since the given time it leaves the entities it did not see
    at their later state, and still reports that nothing failed. *)
Theorem rollback_stops_at_first_page :
  let run := collection_to 15 busy in
  summary (snd run) = Some (0, 1, 1) /\
  row_data two_tickets tickets_key "t2" = Some (ticket "new" "draft") /\
  row_data (fst run) tickets_key "t2" = Some (ticket "new" "review").
Proof. split_and!; vm_refl. Qed.
(** ** A rollback of one entity *)

Definition entity_to (version : Z) (s : Mem) : Mem * result RollbackEntityResponse AxonError :=
  rollback_entity 5 5 accept_all payload (fun _ => 1000%Z)
    {| re_collection := "tickets"; re_id := "t1"; re_target := TargetVersion version; re_expected_version := Some 2%Z;
       re_actor := Some "eve"; re_dry_run := false |} s.



(** ** Rollbacks that skip the checks of other writes *)

(** The schema after the tickets need an owner. *)
Definition owned_schema : CollectionSchema := {|
  cs_collection := "tickets"; cs_description := None; cs_version := 2; cs_entity_schema := None;
  cs_link_types := ∅; cs_access_control := None; cs_gates := ∅;
  cs_validation_rules := [{| vr_name := "owner"; vr_gate := Some "save"; vr_advisory := false;
    vr_when := None; vr_require := {| rq_field := "owner"; rq_op := RNotNull true |};
    vr_message := "an owner is needed"; vr_fix := None |}];
  cs_indexes := []; cs_compound_indexes := []; cs_queries := ∅; cs_lifecycles := ∅ |}.
Definition owned : Mem := fst (put_schema 30 owned_schema later).

(** A rollback of a collection does not check what it writes back: it restores a
    ticket that violates the current schema's save gate, which an update to the
    very same document and a rollback of the single entity refuse.  FEAT-023 wants
    such a restored payload rejected by normal write validation. *)
Theorem rollback_skips_gates :
  accepted (update_call "t1" (ticket "fix" "draft") 2) owned = false /\
  is_ok (snd (entity_to 1 owned)) = false /\
  summary (snd (collection_to 15 owned)) = Some (0, 3, 3) /\
  row_data (fst (collection_to 15 owned)) tickets_key "t1" = Some (ticket "fix" "draft").
Proof. split_and!; vm_refl. Qed.

(** ** Versions that name two states *)

(** A ticket that is deleted and created anew counts its versions from one again,
    and a rollback to a version takes the first entry of the log that has it: asked
    for the first version of the present ticket, it restores that of the deleted
    one. *)
Definition two_lives : Mem :=
  timed [(1%Z, create_call "t1" (ticket "old" "draft")); (2%Z, delete_call "t1");
         (3%Z, create_call "t1" (ticket "young" "draft")); (4%Z, update_call "t1" (ticket "young" "review") 1)]
    tickets_store.

Theorem rollback_restores_earlier_life :
  row_data two_lives tickets_key "t1" = Some (ticket "young" "review") /\
  row_data (fst (entity_to 1 two_lives)) tickets_key "t1" = Some (ticket "old" "draft").
Proof. split_and!; vm_refl. Qed.
End Examples.

(** ** Explanations on a concrete store

    An instance of the theorem on explanations, and runs in which an explanation
    and the write it explains part ways, or a write goes around a policy. *)

Section Examples.
Local Existing Instance simple_serde_number.

Abbreviation handle := (run_handler (S := MemoryStorageAdapter) 5 5 accept_all any_metadata payload no_secs clock0).

(** Only administrators update tickets; everybody may do the rest. *)
Definition admin_only : OperationPolicy :=
  {| op_allow := [{| pr_name := Some "admins"; pr_when := Some (PSubject "tenant_role" (PEq (JString "admin")));
                     pr_where := None |}]; op_deny := [] |}.
Definition ticket_policy : AccessControlPolicy := {|
  ac_identity := None; ac_read := None; ac_create := None; ac_update := Some admin_only; ac_delete := None;
  ac_write := None; ac_admin := None; ac_fields := ∅; ac_transitions := ∅; ac_envelopes := ∅ |}.

Definition guarded_schema : CollectionSchema := {|
  cs_collection := "tickets"; cs_description := None; cs_version := 2;
  cs_entity_schema := None; cs_link_types := ∅; cs_access_control := Some ticket_policy; cs_gates := ∅;
  cs_validation_rules := []; cs_indexes := []; cs_compound_indexes := []; cs_queries := ∅;
  cs_lifecycles := {[ "flow" := ticket_lifecycle ]} |}.
Definition guarded : MemoryStorageAdapter := fst (put_schema 30 guarded_schema one_ticket).

Definition admin : CallerIdentity := caller_new "ann" RoleAdmin.
Definition writer : CallerIdentity := caller_new "bob" RoleWrite.

Definition ask (operation id : string) (data : option Value) : ExplainPolicyRequest := {|
  xr_operation := operation; xr_collection := Some "tickets"; xr_entity_id := Some id; xr_expected_version := None;
  xr_data := data; xr_patch := None; xr_lifecycle_name := Some "flow"; xr_target_state := Some "review";
  xr_to_version := None; xr_operations := []; xr_actor_override := None |}.
Definition decision (r : result PolicyExplanationResponse AxonError) : option string :=
  match r with Ok r => Some (px_decision r) | _ => None end.
Definition explained (req : ExplainPolicyRequest) (caller : CallerIdentity) : option string :=
  decision (explain_policy_with_caller 5 5 guarded req caller None).

(** ** An instance *)

(** A writer's update is explained as denied, and is. *)
Lemma explanation_exact_witness :
  explained (ask " Update " "t1" (Some (ticket "fix" "review"))) admin = Some "allow" /\
  explained (ask "update" "t1" (Some (ticket "fix" "review"))) writer = Some "deny" /\
  forall clock s', run_handler (S := MemoryStorageAdapter) 5 5 accept_all any_metadata payload no_secs clock
    (CallUpdate {| ue_collection := "tickets"; ue_id := "t1"; ue_data := ticket "fix" "review";
       ue_expected_version := 1; ue_actor := Some "bob"; ue_audit_metadata := None; ue_attribution := None |}
       (Some writer)) guarded <> (s', Ok tt).
Proof.
  split; [vm_refl|]. split; [vm_refl|].
  destruct (explain_policy_with_caller 5 5 guarded (ask "update" "t1" (Some (ticket "fix" "review"))) writer None)
    as [r|e|] eqn:E.
  - assert (Hd : px_decision r = "deny").
    { assert (Hs : decision (Ok r) = Some "deny") by (rewrite <-E; vm_refl). by injection Hs. }
    refine (proj2 (explanation_exact 5 5 accept_all any_metadata payload no_secs guarded
      (ask "update" "t1" (Some (ticket "fix" "review"))) writer None 1 false _ r E eq_refl) _).
    rewrite Hd. discriminate.
  - exfalso. assert (Hs : decision (Err e) = Some "deny") by (rewrite <-E; vm_refl). discriminate Hs.
  - exfalso. assert (Hs : decision Panic = Some "deny") by (rewrite <-E; vm_refl). discriminate Hs.
Defined.

(** ** Where explanations and writes part ways *)

(** A transition goes through [transition_lifecycle_with_caller] without the
    caller, so that policies on the caller's role do not see it: the explanation
    tells an administrator that the transition is allowed, and the transition is
    refused. *)
Theorem transition_loses_caller :
  explained (ask "transition" "t1" None) admin = Some "allow" /\
  explained (ask "update" "t1" (Some (ticket "fix" "review"))) admin = Some "allow" /\
  is_ok (snd (handle (CallUpdate {| ue_collection := "tickets"; ue_id := "t1"; ue_data := ticket "fix" "review";
    ue_expected_version := 1; ue_actor := Some "ann"; ue_audit_metadata := None; ue_attribution := None |}
    (Some admin)) guarded)) = true /\
  is_ok (snd (handle (CallTransition {| tl_collection_id := "tickets"; tl_entity_id := "t1";
    tl_lifecycle_name := "flow"; tl_target_state := "review"; tl_expected_version := 1; tl_actor := Some "ann";
    tl_audit_metadata := None; tl_attribution := None |}) guarded)) = false.
Proof. split_and!; vm_refl. Qed.

(** A create replaces an existing row under the create policy alone: a writer,
    who may not update tickets, replaces one. *)
Theorem create_skips_update_policy :
  explained (ask "update" "t1" (Some (ticket "mine" "done"))) writer = Some "deny" /\
  shown guarded "t1" = Some (1%Z, ticket "fix" "draft") /\
  shown (fst (handle (CallCreate {| ce_collection := "tickets"; ce_id := "t1"; ce_data := ticket "mine" "done";
    ce_actor := Some "bob"; ce_audit_metadata := None; ce_attribution := None |} (Some writer)) guarded)) "t1" =
  Some (1%Z, ticket "mine" "done").
Proof. split_and!; vm_refl. Qed.

(** The explanation of a transaction forgets that an earlier step deleted the
    entity: the update that follows is explained on the stored row. *)
Theorem explained_after_delete :
  decision (explain_transaction_with_caller 5 5 guarded
    [ask "delete" "t1" None; ask "update" "t1" (Some (ticket "fix" "review"))] admin None) = Some "allow".
Proof. vm_refl. Qed.
End Examples.

(** ** Collections and schemas on a concrete store

    An instance of the theorem on schema changes, and runs in which a response or
    a rendered document does not show what is stored. *)

Section Examples.
Local Existing Instance simple_serde_number.
Local Existing Instance simple_vocabulary.
Local Existing Instance simple_debug.
Abbreviation Mem := MemoryStorageAdapter (only parsing).

Definition any_schema (_ : Value) : result unit AxonError := Ok tt.
Definition no_queries (_ : CollectionSchema) (_ : list CollectionSchema) (_ : gmap string Z) : CompileReport :=
  {| rep_queries := [] |}.
Abbreviation put_request := (handle_put_schema 5 5 payload any_schema no_queries clock0).

(** ** Schemas *)

Definition documents (version : Z) (entity_schema : Value) : CollectionSchema := {|
  cs_collection := "documents"; cs_description := None; cs_version := version; cs_entity_schema := Some entity_schema;
  cs_link_types := ∅; cs_access_control := None; cs_gates := ∅; cs_validation_rules := []; cs_indexes := [];
  cs_compound_indexes := []; cs_queries := ∅; cs_lifecycles := ∅ |}.

Definition documents_store : Mem :=
  fst (create_collection payload any_schema no_queries clock0
    {| cc_name := "documents"; cc_schema := documents 1 old_schema; cc_request_actor := Some "ann" |} storage_default).

Definition change (version : Z) (entity_schema : Value) : PutSchemaRequest := {|
  pq_schema := documents version entity_schema; pq_actor := Some "ann"; pq_force := false; pq_dry_run := false;
  pq_explain_inputs := [] |}.

Definition latest_version (s : Mem) : option Z :=
  match get_schema s "documents" with Ok (Some schema) => Some (cs_version schema) | _ => None end.

Lemma documents_room : room (versions_of documents_store "documents").
Proof.
  intros v e Hl. assert (Hv : option_map fst (last_version (versions_of documents_store "documents")) = Some 1%Z) by vm_refl.
  rewrite Hl in Hv. injection Hv as ->. lia.
Qed.

(** The widened schema becomes version two, and a document of the old one is
    still valid; going back is refused. *)
Lemma schema_change_exact_witness :
  let s' := fst (put_request (change 2 new_schema) documents_store) in
  latest_version s' = Some 2%Z /\ s_data s' = s_data documents_store /\
  is_err (snd (put_request (change 3 old_schema) s')) = true /\
  schema_accepts new_schema [("status", JString "draft"); ("title", JString "fix")] = true.
Proof.
  intros s'. split; [vm_refl|].
  enough (Hboth : s_data s' = s_data documents_store /\
    schema_accepts new_schema [("status", JString "draft"); ("title", JString "fix")] = true)
    by (split; [exact (proj1 Hboth)|split; [vm_refl|exact (proj2 Hboth)]]).
  subst s'. destruct (put_request (change 2 new_schema) documents_store) as [s1 r] eqn:E.
  assert (Hr : is_ok r = true) by (change r with (snd (s1, r)); rewrite <- E; vm_refl).
  destruct r as [resp|e|]; [clear Hr|discriminate..].
  destruct (schema_change_exact 5 5 payload any_schema no_queries clock0 (change 2 new_schema) documents_store s1 (Ok resp)
    ltac:(vm_refl) documents_room E) as (existing & report & Hex & _ & _ & _ & _ & _ & Hch & Hkeep).
  split; [exact (sc_rows _ _ _ _ Hch)|].
  assert (Hget : match get_schema documents_store "documents" with
                 | Ok e => e ≫= cs_entity_schema | _ => None end = Some old_schema) by vm_refl.
  change (get_schema documents_store "documents" = Ok existing) in Hex. rewrite Hex in Hget.
  destruct existing as [former|]; [|discriminate]. change (cs_entity_schema former = Some old_schema) in Hget.
  apply (Hkeep former _ old_schema _ eq_refl Hget (sc_latest _ _ _ _ Hch) eq_refl); vm_refl.
Defined.

(** The response and the audit entry show the version that the request carries,
    not the one that the schema is stored under. *)
Theorem reported_version_differs :
  let '(s', r) := put_request (change 7 new_schema) documents_store in
  match r with Ok resp => cs_version (sr_schema resp) = 7%Z | _ => False end /\
  latest_version s' = Some 2%Z /\
  option_map (fun e => ae_metadata e !! "new_schema_version") (list.last (log_entries (s_audit_log s'))) = Some (Some "7").
Proof. vm_compute. done. Qed.

(** ** Timestamps *)

(** With more than a hundred entries the time of the last change is that of the
    hundredth entry. *)
Theorem updated_at_stops_at_first_page :
  option_map ae_timestamp_ns (list.last (log_entries (s_audit_log busy))) = Some 500%Z /\
  match snd (collection_timestamps busy "tickets") with Some at_ns => (at_ns < 500)%Z | None => False end.
Proof. split; vm_compute; reflexivity. Qed.

(** ** Templates *)

(** An engine whose templates are their text. *)
#[local] Instance literal_engine : TemplateEngine := {|
  engine_template := string;
  engine_new text := Ok text;
  engine_render text _ := text;
  engine_captures _ := [];
  engine_u64 v := SInt v
|}.

Definition view_text (v : CollectionView) : Value := JString (cv_markdown_template v).
Definition no_error_text (_ : AxonError) : string := "".

Definition put_template (name text : string) : M AxonHandler AxonError PutCollectionTemplateResponse :=
  put_collection_template payload view_text clock0 {| pt_collection := name; pt_template := text; pt_actor := None |}.
Definition drop_template (name : string) : M AxonHandler AxonError string :=
  delete_collection_template payload view_text clock0 {| dt_collection := name; dt_actor := None |}.
Definition show (name : string) : M AxonHandler AxonError GetEntityMarkdownResponse :=
  get_entity_markdown_with_read_context 5 5 payload no_error_text name "t1" None None.

Definition rendered (r : result GetEntityMarkdownResponse AxonError) : option string :=
  match r with Ok (Rendered _ text) => Some text | _ => None end.

(** The cache is keyed by the name a request spells and by the version, and the
    version of a deleted template starts again at one: after the template is
    replaced under the qualified name, the bare name still shows the old one. *)
Theorem stale_template_shown :
  let '(h1, first) := bind (put_template "tickets" "old") (fun _ => show "tickets") (handler_new one_ticket) in
  let '(h2, _) := bind (drop_template "default.tickets") (fun _ => put_template "default.tickets" "new") h1 in
  rendered first = Some "old" /\
  rendered (snd (show "default.tickets" h2)) = Some "new" /\
  rendered (snd (show "tickets" h2)) = Some "old".
Proof. vm_compute. done. Qed.
End Examples.

(** ** Audit reads on a concrete store

    An instance of the theorem on audit reads, and runs in which the audit log or
    an intent shows what the read policy of the rows hides. *)

Section Examples.
Local Existing Instance simple_serde_number.

(** A review summary is stored with its diff and its records, an intent by its
    id; the latter is not read back. *)
Definition record_value (r : PreImageBinding) : Value :=
  match r with
  | PreImageEntity c i v | PreImageLink c i v => Array [JString c; JString i; jint v]
  end.

#[local] Instance summary_serde : IntentSerde := {|
  intent_value i := JString (intent_id i);
  summary_value r := Object [("diff", rs_diff r); ("records", Array (map record_value (rs_affected_records r)))];
  subject_value b := JString (default "" (sb_user_id b));
  dimensions_value _ := Null;
  error_text _ := "storage error"
|}.

Definition record_of_value (v : Value) : option PreImageBinding :=
  match v with
  | Array [JString c; JString i; v] => (fun z => PreImageEntity c i z) <$> as_i64 v
  | _ => None
  end.

#[local] Instance plain_decode : AuditSerde := {|
  intent_of_value _ := None;
  summary_of_value v :=
    match value_get v "diff", value_get v "records" with
    | Some diff, Some (Array records) =>
        Some {| rs_title := None; rs_summary := ""; rs_risk := None; rs_affected_records := omap record_of_value records;
                rs_affected_fields := []; rs_diff := diff; rs_policy_explanation := [] |}
    | _, _ => None
    end
|}.

(** Notes are for their owner only, and so are their titles. *)
Definition notes_schema : CollectionSchema :=
  schema_with "notes" ∅ {|
    ac_identity := None; ac_read := Some (one_rule owner_only); ac_create := None; ac_update := None;
    ac_delete := None; ac_write := None; ac_admin := None;
    ac_fields := {[ "title" := {| fp_read := Some {|
      fa_allow := [{| fr_name := None; fr_when := None; fr_where := Some owner_only; fr_redact_as := None |}];
      fa_deny := [] |}; fp_write := None |} ]};
    ac_transitions := ∅; ac_envelopes := ∅ |}.

Definition note (title : string) : Value := Object [("owner", JString "ann"); ("title", JString title)].

Definition notes_store : MemoryStorageAdapter :=
  fst ((do! put_schema 0 notes_schema; put (entity_new "notes" "n1" (note "new"))) storage_default).

Definition note_updated : AuditEntry :=
  audit_entry_new "notes" "n1" 2 EntityUpdate (Some (note "old")) (Some (note "new")) (Some "ann").

Definition notes_log : MemoryAuditLog :=
  fst (append (fst (append audit_log_default 10
    (audit_entry_new "notes" "n1" 1 EntityCreate None (Some (note "old")) (Some "ann")))) 20 note_updated).

Definition updates_of_notes : QueryAuditRequest := {|
  qa_database := None; qa_collection := Some "notes"; qa_collection_ids := []; qa_entity_id := None; qa_actor := None;
  qa_operation := Some "entity.update"; qa_intent_id := None; qa_approval_id := None; qa_since_ns := None;
  qa_until_ns := None; qa_after_id := None; qa_limit := Some 5 |}.

Abbreviation eve_asks := (query_audit_with_read_context (S := MemoryStorageAdapter) 10 5 (fun _ op => op)
  (caller_named "eve") None notes_store).

Definition answer : QueryAuditResponse :=
  match eve_asks notes_log updates_of_notes with
  | Ok r => r
  | _ => {| qar_entries := []; qar_next_cursor := None |}
  end.

(** Eve gets the update with the titles taken out of both documents and of the
    difference. *)
Lemma audit_reads_redacted_witness :
  eve_asks notes_log updates_of_notes = Ok answer /\ map ae_id (qar_entries answer) = [2%Z] /\
  exists operation shown, audit_operation_filter (qa_operation updates_of_notes) = Ok operation /\
    sublist shown (visible_audit_entries (selected notes_log
      (audit_query_of 2 None operation updates_of_notes) 0%Z)) /\
    Forall2 (entry_view 10 5 (caller_named "eve") None notes_store) shown (qar_entries answer).
Proof.
  assert (Ha : eve_asks notes_log updates_of_notes = Ok answer) by vm_refl.
  split; [exact Ha|]. split; [vm_refl|].
  destruct (audit_reads_redacted 10 5 (fun _ op => op) (caller_named "eve") None notes_store notes_log
    updates_of_notes answer) as (operation & Ho & (shown & Hsub & _ & Hv) & _ & _).
  - split; [vm_refl|]. split; [vm_refl|]. by vm_compute.
  - exact Ha.
  - exists operation, shown. split; [exact Ho|]. split; [exact Hsub|exact Hv].
Defined.

Definition shown_entry (e : AuditEntry) : option Value * option Value * option FieldDiff :=
  (ae_data_before e, ae_data_after e, ae_diff e ≫= (fun d => d !! "title")).

(** The audit log shows rows that the caller may not read: the note is not found
    for Eve, but its documents, and that Ann owns it, are in the audit log for
    her; only the redacted field is missing. *)
Theorem audit_shows_hidden_rows :
  get_entity_with_read_context 10 5 (fun _ op => op) notes_store "notes" "n1" (caller_named "eve") None =
    Err (NotFound "n1") /\
  map shown_entry (qar_entries answer) =
    [(Some (Object [("owner", JString "ann"); ("title", Null)]),
      Some (Object [("owner", JString "ann"); ("title", Null)]),
      Some {| fd_before := Some Null; fd_after := Some Null |})].
Proof. split; vm_refl. Qed.

(** ** Intents *)

Definition title_diff (before after : option Value) : Value :=
  diff_to_value {[ "title" := {| fd_before := before; fd_after := after |} ]}.

Definition intent_on_note (kind : MutationOperationKind) (operation : Value) : MutationIntent :=
  let i := sample_intent NeedsApproval Pending in {|
  intent_id := intent_id i; mi_scope := mi_scope i; mi_subject := mi_subject i;
  mi_schema_version := mi_schema_version i; mi_policy_version := mi_policy_version i;
  mi_operation := {| operation_kind := kind; operation_hash := ""; canonical_operation := Some operation |};
  mi_pre_images := []; mi_decision := mi_decision i; mi_approval_state := mi_approval_state i;
  mi_approval_route := None; mi_expires_at := 0;
  mi_review_summary := {| rs_title := None; rs_summary := ""; rs_risk := None; rs_affected_records := [];
                          rs_affected_fields := [];
                          rs_diff := title_diff (Some (JString "new")) (Some (JString "old"));
                          rs_policy_explanation := [] |} |}.

Definition reviewed_diff (i : MutationIntent) : option Value :=
  match redact_mutation_intent_for_read 10 5 (fun _ op => op) notes_store i
          {| ci_actor := "eve"; ci_role := RoleWrite; ci_entity_filter := None |} None with
  | Ok i => Some (rs_diff (mi_review_summary i))
  | _ => None
  end.

(** An intent to roll a row back shows the redacted field in its difference; the
    same change as an update does not. *)
Theorem rollback_intent_unredacted :
  reviewed_diff (intent_on_note UpdateEntity (Object [("collection", JString "notes"); ("data", note "old");
    ("id", JString "n1")])) = Some (title_diff (Some Null) (Some Null)) /\
  reviewed_diff (intent_on_note Rollback (Object [("collection", JString "notes"); ("id", JString "n1")])) =
    Some (title_diff (Some (JString "new")) (Some (JString "old"))).
Proof. split; vm_refl. Qed.

(** The entry of the preview of a new row has no affected record, and shows the
    redacted field in its difference. *)
Definition preview_of_create : AuditEntry :=
  audit_entry_new "__axon_mutation_intents__" "mint_01H" 1 IntentPreview None
    (Some (summary_value {| rs_title := None; rs_summary := ""; rs_risk := None; rs_affected_records := [];
       rs_affected_fields := []; rs_diff := title_diff None (Some (JString "secret")); rs_policy_explanation := [] |}))
    (Some "ann").

Theorem create_preview_unredacted :
  match eve_asks (fst (append audit_log_default 10 preview_of_create)) {|
    qa_database := None; qa_collection := None; qa_collection_ids := []; qa_entity_id := None; qa_actor := None;
    qa_operation := Some "intent.preview"; qa_intent_id := None; qa_approval_id := None; qa_since_ns := None;
    qa_until_ns := None; qa_after_id := None; qa_limit := None |} with
  | Ok r => map (fun e => ae_data_after e ≫= fun v => value_get v "diff") (qar_entries r)
  | _ => []
  end = [Some (title_diff None (Some (JString "secret")))].
Proof. vm_refl. Qed.
End Examples.

(** ** Beads on a concrete store

    An instance of the theorem on dependencies, and runs that contradict the
    documentation of beads. *)

Section Examples.
Local Existing Instance simple_serde_number.
Local Existing Instance simple_debug.
Abbreviation Mem := MemoryStorageAdapter (only parsing).

Definition bead_clock (w : BeadWrite) (n : nat) : Z := 1000.
Definition no_bead_text (e : DeError) : string := "".
Definition same_text (s : string) : string := s.

Abbreviation bead_run := (run_bead 5 5 same_text any_schema no_queries accept_all any_metadata no_bead_text bead_clock).

Definition plain_bead (id : string) : BeadCall :=
  CallCreateBead {| cb_id := id; cb_bead_type := "task"; cb_title := id; cb_description := None; cb_priority := 1;
                    cb_assignee := None; cb_tags := []; cb_acceptance := None |}.

Fixpoint after_beads (calls : list BeadCall) (s : Mem) : Mem :=
  match calls with
  | [] => s
  | c :: rest => after_beads rest (fst (bead_run c s))
  end.

Definition bead_ids (r : result (list Bead) AxonError) : option (list string) :=
  match r with Ok beads => Some (map b_id beads) | _ => None end.
Definition bead_status_of (s : Mem) (id : string) : option string :=
  match get s BEAD_COLLECTION id with Ok (Some e) => value_get (e_data e) "status" ≫= as_str | _ => None end.
Abbreviation ready s := (bead_ids (ready_queue 5 5 same_text no_bead_text s)).
Abbreviation tree id s := (bead_ids (dependency_tree 5 5 same_text no_bead_text id s)).

Definition three_beads : Mem :=
  after_beads [plain_bead "a"; plain_bead "b"; plain_bead "c"; CallAddDependency "a" "b"; CallAddDependency "b" "c"]
    storage_default.
Definition history : list BeadCall :=
  [plain_bead "a"; plain_bead "b"; plain_bead "c"; CallAddDependency "a" "b"; CallAddDependency "b" "c";
   CallAddDependency "c" "a"].

Lemma three_beads_shown :
  (ready three_beads, tree "a" three_beads, snd (bead_run (CallAddDependency "c" "a") three_beads)) =
  (Some ["c"], Some ["b"; "c"], Err (InvalidOperation "circular dependency: a already reaches c")).
Proof. vm_refl. Qed.

Lemma no_beads : beads_ok storage_default.
Proof.
  assert (Hst : forall k i, stored storage_default k i = None) by done. split; try done.
  - intros l (i & e & Hi & _). by rewrite Hst in Hi.
  - intros a b (i & e & l & Hi & _). by rewrite Hst in Hi.
  - intros a Ha. by inversion Ha as [? ? (i & e & l & Hi & _)|? ? ? (i & e & l & Hi & _)]; rewrite Hst in Hi.
Qed.

Fixpoint all_answered (calls : list BeadCall) (s : Mem) : bool :=
  match calls with
  | [] => true
  | c :: rest =>
      match snd (bead_run c s) with Panic => false | _ => all_answered rest (fst (bead_run c s)) end
  end.

Lemma histories_reach calls s0 : forall s,
  beads_reach 5 5 same_text any_schema no_queries accept_all any_metadata no_bead_text s0 s ->
  all_answered calls s = true ->
  beads_reach 5 5 same_text any_schema no_queries accept_all any_metadata no_bead_text s0 (after_beads calls s).
Proof.
  induction calls as [|c calls IH]; intros s Hs Ha; [done|]. cbn [after_beads all_answered] in *. apply IH.
  - eapply (beads_call _ _ _ _ _ _ _ _ s0 bead_clock c s _ (snd (bead_run c s))); [done| |].
    + by destruct (bead_run c s).
    + by destruct (snd (bead_run c s)).
  - by destruct (snd (bead_run c s)).
Qed.

(** The history of the three beads, with the refused dependency at its end. *)
Lemma dependencies_acyclic_witness :
  beads_ok storage_default /\
  forall a, ~ tc (depends (after_beads history storage_default)) a a.
Proof.
  split; [exact no_beads|].
  assert (Ha : all_answered history storage_default = true) by vm_refl.
  assert (Hr := histories_reach history storage_default storage_default (beads_start _ _ _ _ _ _ _ _ _) Ha).
  exact (proj1 (dependencies_acyclic 5 5 same_text any_schema no_queries accept_all any_metadata no_bead_text _ _ no_beads Hr)).
Defined.

(** Creating a bead under the id of a cancelled one opens it again. *)
Lemma create_reopens_cancelled :
  let cancelled := after_beads [plain_bead "a"; CallTransitionBead "a" "cancelled"] storage_default in
  (bead_status_of cancelled "a", is_ok (snd (bead_run (CallReopenBead "a") cancelled)),
   bead_status_of (after_beads [plain_bead "a"] cancelled) "a") = (Some "cancelled", false, Some "open").
Proof. cbv zeta. vm_refl. Qed.

Definition item (id : string) (more : list (string * Value)) : Value :=
  json_object ([("id", JString id); ("status", JString "open"); ("title", JString id)] ++ more).
Definition needs (id : string) : string * Value :=
  ("dependencies", Array [json_object [("depends_on_id", JString id)]]).

(** A dependency on a bead of a later import is never made, even when its bead
    is imported again: the bead is ready although what it depends on is open. *)
Lemma later_import_ignored :
  let a := item "a" [needs "b"] in
  (ready (after_beads [CallImport (Array [a; item "b" []])] storage_default),
   ready (after_beads [CallImport (Array [a]); CallImport (Array [a; item "b" []])] storage_default)) =
  (Some ["b"], Some ["a"; "b"]).
Proof. cbv zeta. vm_refl. Qed.

(** The schema admits a priority that no bead can have: after its import no
    list of beads is answered. *)
Lemma priority_hides_all_beads :
  let s := after_beads [CallImport (Array [item "a" [("priority", jint 5000000000)]; item "b" []])] storage_default in
  (bead_status_of s "a", bead_status_of s "b", ready s) = (Some "open", Some "open", None).
Proof. cbv zeta. vm_refl. Qed.
End Examples.
