(* ===== verification/CypherAst.v ===== *)
(** * Cypher: syntax, errors and schema snapshots ([crates/axon-cypher-ast])

    The syntax tree of the supported openCypher subset, the errors of its parser,
    planner and executor, and the schema snapshot that queries are compiled
    against.  Patterns are parameterized by the type of expressions, which occur
    in them and contain them. *)

From S2P Require Import Prelude Json.
From stdpp Require Import pretty.
Local Open Scope axon_scope.

(** ** Syntax ([ast.rs]) *)

Inductive Direction : Type := Outgoing | Incoming | Either.
Record HopRange : Type := { hr_min : Z; hr_max : Z }.
Inductive LogicalOp : Type := LogicalAnd | LogicalOr.
Inductive ComparisonOp : Type :=
| CmpEq | CmpNotEq | CmpLt | CmpLtEq | CmpGt | CmpGtEq | CmpIn | CmpContains | CmpStartsWith | CmpEndsWith.

Section Patterns.
Variable E : Type.

Record PropertyEntry : Type := { pe_key : string; pe_value : E }.
Record NodePattern : Type := {
  np_variable : option string;
  np_label : option string;
  np_properties : list PropertyEntry
}.
Record RelationshipPattern : Type := {
  rp_variable : option string;
  rp_direction : Direction;
  rp_types : list string;
  rp_properties : list PropertyEntry;
  rp_range : option HopRange
}.
Record PathStep : Type := { st_relationship : RelationshipPattern; st_node : NodePattern }.
Record PathPattern : Type := { pt_start : NodePattern; pt_steps : list PathStep }.
Record MatchClause : Type := { mc_optional : bool; mc_patterns : list PathPattern }.
Record Subquery : Type := { sq_matches : list MatchClause; sq_where_clause : option E }.

Inductive FunctionArg : Type := ArgStar | ArgExpression (e : E).
Inductive Literal : Type :=
| LitNull
| LitBool (b : bool)
| LitInteger (i : Z)
| LitFloat (f : f64)
| LitString (s : string)
| LitList (items : list E).
End Patterns.

Arguments pe_key {E}.
Arguments pe_value {E}.
Arguments np_variable {E}.
Arguments np_label {E}.
Arguments np_properties {E}.
Arguments rp_variable {E}.
Arguments rp_direction {E}.
Arguments rp_types {E}.
Arguments rp_properties {E}.
Arguments rp_range {E}.
Arguments st_relationship {E}.
Arguments st_node {E}.
Arguments pt_start {E}.
Arguments pt_steps {E}.
Arguments mc_optional {E}.
Arguments mc_patterns {E}.
Arguments sq_matches {E}.
Arguments sq_where_clause {E}.
Arguments ArgStar {E}.
Arguments ArgExpression {E}.
Arguments LitNull {E}.
Arguments LitBool {E}.
Arguments LitInteger {E}.
Arguments LitFloat {E}.
Arguments LitString {E}.
Arguments LitList {E}.

Inductive Expression : Type :=
| ELiteral (l : Literal Expression)
| EVariable (name : string)
| EProperty (variable : string) (path : list string)
| EParameter (name : string)
| EExists (sq : Subquery Expression)
| ENotExists (sq : Subquery Expression)
| EBinaryLogical (op : LogicalOp) (left right : Expression)
| ENot (inner : Expression)
| EComparison (op : ComparisonOp) (left right : Expression)
| EIsNull (expression : Expression) (negated : bool)
| EFunctionCall (name : string) (arguments : list (FunctionArg Expression)).

Record ReturnItem : Type := { ri_expression : Expression; ri_alias : option string }.
Record ReturnClause : Type := { rc_distinct : bool; rc_items : list ReturnItem }.
Record SortItem : Type := { si_expression : Expression; si_descending : bool }.

Record Query : Type := {
  qu_matches : list (MatchClause Expression);
  qu_where_clause : option Expression;
  qu_return_clause : ReturnClause;
  qu_order_by : list SortItem;
  qu_skip : option Z;
  qu_limit : option Z
}.

(** ** Errors ([error.rs]) *)

Inductive CypherError : Type :=
| CypherParse (line column : nat) (message : string)
| UnsupportedClause (clause : string)
| UnknownName (kind name : string)
| UnsupportedPlan (message : string)
| RequiresBypass (message : string)
| QueryTooLarge (message : string)
| QueryTimeout (message : string)
| StorageFailure (message : string).

Definition cypher_error_code (e : CypherError) : string :=
  match e with
  | CypherParse _ _ _ => "parse_error"
  | UnsupportedClause _ => "unsupported_clause"
  | UnknownName _ _ => "unknown_identifier"
  | UnsupportedPlan _ => "unsupported_query_plan"
  | RequiresBypass _ => "policy_required_bypass"
  | QueryTooLarge _ => "query_too_large"
  | QueryTimeout _ => "query_timeout"
  | StorageFailure _ => "storage_error"
  end.

(** The text of an error ([thiserror]). *)
Definition cypher_error_display (e : CypherError) : string :=
  match e with
  | CypherParse line column message =>
      "parse error at line " +:+ pretty line +:+ ", column " +:+ pretty column +:+ ": " +:+ message
  | UnsupportedClause m => "unsupported clause: " +:+ m
  | UnknownName kind name => "unknown identifier in schema: " +:+ kind +:+ ": " +:+ name
  | UnsupportedPlan m => "unsupported query plan: " +:+ m
  | RequiresBypass m => "policy required bypass: " +:+ m
  | QueryTooLarge m => "query too large: " +:+ m
  | QueryTimeout m => "query timeout: " +:+ m
  | StorageFailure m => "storage error: " +:+ m
  end.

(** ** Schema snapshots ([schema.rs]) *)

Inductive PropertyKind : Type := KindString | KindInteger | KindFloat | KindBoolean | KindDateTime | KindOther.

Record IndexedProperty : Type := {
  ip_property : string;
  ip_kind : PropertyKind;
  ip_unique : bool;
  ip_estimated_equality_rows : Z;
  ip_estimated_range_rows : Z
}.
Record LabelDef : Type := {
  ld_collection_name : string;
  ld_estimated_count : Z;
  ld_properties : gmap string PropertyKind;
  ld_indexed_properties : list IndexedProperty
}.
Record RelationshipDef : Type := { rd_source_labels : list string; rd_target_labels : list string }.
Record PlannerConfig : Type := {
  cfg_unindexed_scan_threshold : Z;
  cfg_depth_cap : Z;
  cfg_cardinality_budget : Z;
  cfg_enforce_cardinality_budget : bool
}.
Definition planner_config_default : PlannerConfig := {|
  cfg_unindexed_scan_threshold := 1000; cfg_depth_cap := 10; cfg_cardinality_budget := 1000000;
  cfg_enforce_cardinality_budget := true |}.
(** [NamedQuery] *)
Record SnapshotQuery : Type := { snq_description : string; snq_cypher : string; snq_parameters : list string }.
Record SchemaSnapshot : Type := {
  ss_labels : gmap string LabelDef;
  ss_relationships : gmap string RelationshipDef;
  ss_planner_config : PlannerConfig;
  ss_queries : gmap string SnapshotQuery
}.

Definition snapshot_label (s : SchemaSnapshot) (name : string) : option LabelDef := ss_labels s !! name.
Definition has_label (s : SchemaSnapshot) (name : string) : bool := bool_decide (is_Some (ss_labels s !! name)).
Definition has_relationship (s : SchemaSnapshot) (name : string) : bool :=
  bool_decide (is_Some (ss_relationships s !! name)).

Definition is_indexed (d : LabelDef) (property : string) : bool :=
  existsb (fun p => bool_decide (ip_property p = property)) (ld_indexed_properties d).
Definition unique_index (d : LabelDef) (property : string) : bool :=
  existsb (fun p => bool_decide (ip_property p = property) && ip_unique p) (ld_indexed_properties d).
(** [LabelDef::index] *)
Definition label_index (d : LabelDef) (property : string) : option IndexedProperty :=
  List.find (fun p => bool_decide (ip_property p = property)) (ld_indexed_properties d).

(** ** What a query reads ([lib.rs]) *)

Definition pattern_labels (p : PathPattern Expression) : list string :=
  somes (np_label (pt_start p) :: map (fun st => np_label (st_node st)) (pt_steps p)).

(** The labels of a query, sorted and without duplicates. *)
Definition referenced_labels (q : Query) : list string :=
  sort_by String.compare
    (elements (list_to_set (flat_map (fun c => flat_map pattern_labels (mc_patterns c)) (qu_matches q)) : gset string)).

Definition references_relationships (q : Query) : bool :=
  existsb (fun c => existsb (fun p => negb (Nat.eqb (length (pt_steps p)) 0)) (mc_patterns c)) (qu_matches q).
