(* ===== verification/CypherLexer.v ===== *)
(** * Cypher: the tokenizer ([crates/axon-cypher-ast/src/lexer.rs])

    A Rust [char] is the piece of UTF-8 text that encodes it.  The classes of
    characters outside ASCII, the parser of decimal fractions and the [Debug] text
    of characters and tokens are those of the standard library, a parameter. *)

From S2P Require Import Prelude Json Datetime CypherAst.
Local Open Scope axon_scope.

Record SourcePos : Type := { sp_line : nat; sp_column : nat }.

Inductive TokenKind : Type :=
| LParen | RParen | LBracket | RBracket | LBrace | RBrace | Comma | Colon | Dot | Pipe | DotDot | Star | Dollar
| Dash | DashGt | LtDash
| TkEq | TkNotEq | TkLt | TkLtEq | TkGt | TkGtEq
| KwMatch | KwOptional | KwWhere | KwReturn | KwDistinct | KwAs | KwOrder | KwBy | KwAsc | KwDesc | KwLimit | KwSkip
| KwAnd | KwOr | KwNot | KwExists | KwIs | KwNull | KwTrue | KwFalse | KwIn | KwContains | KwStarts | KwEnds | KwWith
| Identifier (name : string)
| StringLit (s : string)
| IntLit (i : Z)
| FloatLit (f : f64)
| Eof.

Record Token : Type := { tk_kind : TokenKind; tk_line : nat; tk_column : nat }.

(** ** Characters *)

(** A character: one ASCII byte, or a lead byte with its continuation bytes. *)
Abbreviation char := string (only parsing).

Class CypherText : Type := {
  wide_whitespace : char -> bool;
  wide_alphabetic : char -> bool;
  wide_numeric : char -> bool;
  parse_f64 : string -> f64 + string;
  char_debug : char -> string;
  token_debug : TokenKind -> string
}.

Definition continues (s : string) : bool :=
  match s with String c _ => ((128 <=? byte_of c) && (byte_of c <=? 191))%Z | "" => false end.

(** [str::chars] *)
Fixpoint chars_of (s : string) : list char :=
  match s with
  | "" => []
  | String c rest =>
      match chars_of rest with
      | x :: others => if continues x then String c x :: others else String c "" :: x :: others
      | [] => [String c ""]
      end
  end.

(** The byte of an ASCII character. *)
Definition ascii_byte (c : char) : option Z :=
  match c with String a "" => if (byte_of a <? 128)%Z then Some (byte_of a) else None | _ => None end.

Definition is_digit (c : char) : bool :=
  match ascii_byte c with Some b => is_ascii_digit b | None => false end.
Definition ascii_letter (b : Z) : bool := ((65 <=? b) && (b <=? 90) || (97 <=? b) && (b <=? 122))%Z.

Section Lexer.
Context `{CypherText}.

Definition is_whitespace (c : char) : bool :=
  match ascii_byte c with Some b => ((9 <=? b) && (b <=? 13) || (b =? 32))%Z | None => wide_whitespace c end.
Definition is_alphabetic (c : char) : bool :=
  match ascii_byte c with Some b => ascii_letter b | None => wide_alphabetic c end.
Definition is_alphanumeric (c : char) : bool :=
  match ascii_byte c with Some b => ascii_letter b || is_ascii_digit b | None => wide_alphabetic c || wide_numeric c end.

Definition newline : char := String (Stdlib.Strings.Ascii.ascii_of_nat 10) "".
Definition backslash_char : char := String (Stdlib.Strings.Ascii.ascii_of_nat 92) "".
Definition double_quote : char := String (Stdlib.Strings.Ascii.ascii_of_nat 34) "".
Definition tab : char := String (Stdlib.Strings.Ascii.ascii_of_nat 9) "".
Definition carriage_return : char := String (Stdlib.Strings.Ascii.ascii_of_nat 13) "".

(** ** Numbers *)

(** The digits and decimal points from here on, whether a point is among them,
    and the rest. *)
Fixpoint scan_number (chars : list char) : string * bool * list char :=
  match chars with
  | c :: rest =>
      if is_digit c then
        let '(text, float, others) := scan_number rest in (c +:+ text, float, others)
      else if bool_decide (c = ".") then
        match rest with
        | d :: _ =>
            if is_digit d then
              let '(text, _, others) := scan_number rest in ("." +:+ text, true, others)
            else ("", false, chars)
        | [] => ("", false, chars)
        end
      else ("", false, chars)
  | [] => ("", false, [])
  end.

(** [str::parse::<i64>] of a text of digits. *)
Definition parse_i64 (text : string) : option Z := parse_uint i64_max (as_bytes text).

Definition read_number (chars : list char) (line column : nat) : result (Token * nat * list char) CypherError :=
  let '(text, is_float, rest) := scan_number chars in
  let? kind :=
    if is_float : bool then
      match parse_f64 text with
      | inl f => Ok (FloatLit f)
      | inr e => Err (CypherParse line column ("invalid float literal: " +:+ e))
      end
    else
      match parse_i64 text with
      | Some i => Ok (IntLit i)
      | None => Err (CypherParse line column "invalid integer literal: number too large to fit in target type")
      end in
  Ok ({| tk_kind := kind; tk_line := line; tk_column := column |}, String.length text, rest).

(** ** Strings *)

(** The place after a character: offset, line and start of the line. *)
Record Place : Type := { pl_idx : nat; pl_line : nat; pl_line_start : nat }.
Definition past (c : char) (p : Place) : Place :=
  {| pl_idx := pl_idx p + String.length c; pl_line := pl_line p; pl_line_start := pl_line_start p |}.
Definition past_newline (p : Place) : Place :=
  {| pl_idx := S (pl_idx p); pl_line := S (pl_line p); pl_line_start := S (pl_idx p) |}.

Definition unescape_char (c : char) : string :=
  if bool_decide (c = "n") then newline
  else if bool_decide (c = "t") then tab
  else if bool_decide (c = "r") then carriage_return
  else c.

(** The characters after the opening quote. *)
Fixpoint string_body (quote : char) (start : SourcePos) (chars : list char) (p : Place)
    : result (string * list char * Place) CypherError :=
  match chars with
  | [] => Err (CypherParse (sp_line start) (sp_column start) "unterminated string literal")
  | c :: rest =>
      if bool_decide (c = quote) then Ok ("", rest, past c p)
      else if bool_decide (c = backslash_char) then
        match rest with
        | [] => Err (CypherParse (sp_line start) (sp_column start) "unterminated escape in string literal")
        | d :: rest' =>
            let? (text, others, p') := string_body quote start rest' (past d (past c p)) in
            Ok (unescape_char d +:+ text, others, p')
        end
      else
        let? (text, others, p') :=
          string_body quote start rest (if bool_decide (c = newline) then past_newline p else past c p) in
        Ok (c +:+ text, others, p')
  end.

(** ** Identifiers and keywords *)

Definition identifier_char (c : char) : bool := bool_decide (c = "_") || is_alphanumeric c.

Fixpoint scan_identifier (chars : list char) : string * list char :=
  match chars with
  | c :: rest =>
      if identifier_char c then let '(text, others) := scan_identifier rest in (c +:+ text, others) else ("", chars)
  | [] => ("", [])
  end.

Definition ascii_upper (a : ascii) : ascii :=
  if ((97 <=? byte_of a) && (byte_of a <=? 122))%Z
  then Stdlib.Strings.Ascii.ascii_of_N (Z.to_N (byte_of a - 32)) else a.
(** [str::to_ascii_uppercase] *)
Fixpoint ascii_uppercase (s : string) : string :=
  match s with "" => "" | String a rest => String (ascii_upper a) (ascii_uppercase rest) end.

Definition keywords : list (string * TokenKind) := [
  ("MATCH", KwMatch); ("OPTIONAL", KwOptional); ("WHERE", KwWhere); ("RETURN", KwReturn); ("DISTINCT", KwDistinct);
  ("AS", KwAs); ("ORDER", KwOrder); ("BY", KwBy); ("ASC", KwAsc); ("ASCENDING", KwAsc); ("DESC", KwDesc);
  ("DESCENDING", KwDesc); ("LIMIT", KwLimit); ("SKIP", KwSkip); ("AND", KwAnd); ("OR", KwOr); ("NOT", KwNot);
  ("EXISTS", KwExists); ("IS", KwIs); ("NULL", KwNull); ("TRUE", KwTrue); ("FALSE", KwFalse); ("IN", KwIn);
  ("CONTAINS", KwContains); ("STARTS", KwStarts); ("ENDS", KwEnds); ("WITH", KwWith)].

(** The token of a word. *)
Definition word_kind (s : string) : TokenKind :=
  match List.find (fun k => bool_decide (fst k = ascii_uppercase s)) keywords with
  | Some (_, kind) => kind
  | None => Identifier s
  end.

Definition read_identifier_or_keyword (chars : list char) (line column : nat) : Token * nat * list char :=
  let '(text, rest) := scan_identifier chars in
  ({| tk_kind := word_kind text; tk_line := line; tk_column := column |}, String.length text, rest).

(** ** Punctuation *)

Definition single_punctuation : list (char * TokenKind) := [
  ("(", LParen); (")", RParen); ("[", LBracket); ("]", RBracket); ("{", LBrace); ("}", RBrace); (",", Comma);
  (":", Colon); ("|", Pipe); ("*", Star); ("$", Dollar); ("=", TkEq)].

(** The token that starts with [c], and the number of characters it takes. *)
Definition punctuation (c : char) (next : option char) (line column : nat) : result (TokenKind * nat) CypherError :=
  match List.find (fun k => bool_decide (fst k = c)) single_punctuation with
  | Some (_, kind) => Ok (kind, 1)
  | None =>
      let followed (d : char) := bool_decide (next = Some d) in
      if bool_decide (c = "+") || bool_decide (c = "%")
      then Err (CypherParse line column ("unsupported operator '" +:+ c +:+ "' in V1 subset"))
      else if bool_decide (c = ".") then Ok (if followed "." then (DotDot, 2) else (Dot, 1))
      else if bool_decide (c = "-") then Ok (if followed ">" then (DashGt, 2) else (Dash, 1))
      else if bool_decide (c = "<")
      then Ok (if followed "-" then (LtDash, 2) else if followed "=" then (TkLtEq, 2)
               else if followed ">" then (TkNotEq, 2) else (TkLt, 1))
      else if bool_decide (c = ">") then Ok (if followed "=" then (TkGtEq, 2) else (TkGt, 1))
      else if bool_decide (c = "!")
      then if followed "=" then Ok (TkNotEq, 2)
           else Err (CypherParse line column "unexpected '!' (did you mean '!='?)")
      else Err (CypherParse line column ("unexpected character: " +:+ char_debug c))
  end.

(** ** The loop *)

(** The rest of a line. *)
Fixpoint skip_line (chars : list char) (p : Place) : list char * Place :=
  match chars with
  | c :: rest => if bool_decide (c = newline) then (chars, p) else skip_line rest (past c p)
  | [] => ([], p)
  end.

Definition offset (n : nat) (p : Place) : Place :=
  {| pl_idx := pl_idx p + n; pl_line := pl_line p; pl_line_start := pl_line_start p |}.

Inductive LexStep : Type :=
| LexDone
| LexSkip (rest : list char) (p : Place)
| LexToken (t : Token) (rest : list char) (p : Place).

(** One iteration of the loop. *)
Definition lex_step (chars : list char) (p : Place) : result LexStep CypherError :=
  match chars with
  | [] => Ok LexDone
  | c :: rest =>
      let line := pl_line p in
      let column := pl_idx p - pl_line_start p + 1 in
      if is_whitespace c then Ok (LexSkip rest (if bool_decide (c = newline) then past_newline p else past c p))
      else if bool_decide (c = "/") && bool_decide (head rest = Some "/") then
        let '(others, p') := skip_line chars p in Ok (LexSkip others p')
      else if is_digit c then
        let? (token, n, others) := read_number chars line column in
        Ok (LexToken token others (offset n p))
      else if bool_decide (c = "'") || bool_decide (c = double_quote) then
        let? (text, others, p') := string_body c {| sp_line := line; sp_column := column |} rest (past c p) in
        Ok (LexToken {| tk_kind := StringLit text; tk_line := line; tk_column := column |} others p')
      else if bool_decide (c = "_") || is_alphabetic c then
        let '(token, n, others) := read_identifier_or_keyword chars line column in
        Ok (LexToken token others (offset n p))
      else
        let? (kind, n) := punctuation c (head rest) line column in
        Ok (LexToken {| tk_kind := kind; tk_line := line; tk_column := column |} (drop n chars) (offset n p))
  end.

(** [fuel] bounds the iterations; each takes a character. *)
Fixpoint lex (fuel : nat) (chars : list char) (p : Place) : result (list Token) CypherError :=
  match fuel with
  | O => Panic
  | S fuel' =>
      let? step := lex_step chars p in
      match step with
      | LexDone => Ok [{| tk_kind := Eof; tk_line := pl_line p; tk_column := 0 |}]
      | LexSkip rest p' => lex fuel' rest p'
      | LexToken t rest p' => let? tokens := lex fuel' rest p' in Ok (t :: tokens)
      end
  end.

Definition tokenize (input : string) : result (list Token) CypherError :=
  let chars := chars_of input in
  lex (S (length chars)) chars {| pl_idx := 0; pl_line := 1; pl_line_start := 0 |}.
End Lexer.
