(* ===== verification/CypherParser.v ===== *)
(** * Cypher: the parser ([crates/axon-cypher-ast/src/parser.rs])

    The parser's state is the tokens from its position on; [advance] stays on the
    last one.  Functions that recur through expressions take the parser of
    expressions as an argument, and [parse_expression] ties the knot with fuel;
    loops take as many rounds as there are tokens. *)

From S2P Require Import Prelude Json CypherAst CypherLexer.
Local Open Scope axon_scope.

(** ** The state *)

Definition P (A : Type) : Type := list Token -> result (A * list Token) CypherError.

Definition p_ret {A} (a : A) : P A := fun ts => Ok (a, ts).
Definition p_bind {A B} (m : P A) (k : A -> P B) : P B := fun ts => let? (a, ts') := m ts in k a ts'.

Notation "'pdo' x <- m ; k" := (p_bind m (fun x => k))
  (at level 200, x pattern, m at level 100, k at level 200) : axon_scope.
Notation "'pdo!' m ; k" := (p_bind m (fun _ => k)) (at level 200, m at level 100, k at level 200) : axon_scope.

(** The variant of a token, without its payload. *)
Definition discriminant (k : TokenKind) : nat :=
  match k with
  | LParen => 0 | RParen => 1 | LBracket => 2 | RBracket => 3 | LBrace => 4 | RBrace => 5 | Comma => 6 | Colon => 7
  | Dot => 8 | Pipe => 9 | DotDot => 10 | Star => 11 | Dollar => 12 | Dash => 13 | DashGt => 14 | LtDash => 15
  | TkEq => 16 | TkNotEq => 17 | TkLt => 18 | TkLtEq => 19 | TkGt => 20 | TkGtEq => 21
  | KwMatch => 22 | KwOptional => 23 | KwWhere => 24 | KwReturn => 25 | KwDistinct => 26 | KwAs => 27 | KwOrder => 28
  | KwBy => 29 | KwAsc => 30 | KwDesc => 31 | KwLimit => 32 | KwSkip => 33 | KwAnd => 34 | KwOr => 35 | KwNot => 36
  | KwExists => 37 | KwIs => 38 | KwNull => 39 | KwTrue => 40 | KwFalse => 41 | KwIn => 42 | KwContains => 43
  | KwStarts => 44 | KwEnds => 45 | KwWith => 46
  | Identifier _ => 47 | StringLit _ => 48 | IntLit _ => 49 | FloatLit _ => 50 | Eof => 51
  end.
Definition is_kind (k k' : TokenKind) : bool := Nat.eqb (discriminant k) (discriminant k').

Definition peek : P TokenKind := fun ts => match ts with t :: _ => Ok (tk_kind t, ts) | [] => Panic end.

Definition advance : P unit := fun ts =>
  match ts with
  | _ :: (_ :: _) as rest => Ok (tt, rest)
  | [t] => Ok (tt, [t])
  | [] => Panic
  end.

Definition error_here {A} (message : string) : P A := fun ts =>
  match ts with t :: _ => Err (CypherParse (tk_line t) (tk_column t) message) | [] => Panic end.

(** [match_kind] and [match_keyword] *)
Definition match_kind (expected : TokenKind) : P bool :=
  pdo k <- peek;
  if is_kind k expected then (pdo! advance; p_ret true) else p_ret false.

(** [expect] and [expect_keyword] *)
Definition expect (expected : TokenKind) (label : string) : P unit :=
  pdo found <- match_kind expected;
  if found : bool then p_ret tt else error_here ("expected " +:+ label).

Definition expect_identifier (label : string) : P string :=
  pdo k <- peek;
  match k with
  | Identifier name => pdo! advance; p_ret name
  | _ => error_here ("expected identifier (" +:+ label +:+ ")")
  end.

Definition parse_u64 (label : string) : P Z :=
  pdo k <- peek;
  match k with
  | IntLit i =>
      if (0 <=? i)%Z then (pdo! advance; p_ret i)
      else error_here ("expected non-negative integer (" +:+ label +:+ ")")
  | _ => error_here ("expected non-negative integer (" +:+ label +:+ ")")
  end.

Definition expect_u32 (label : string) : P Z :=
  pdo k <- peek;
  match k with
  | IntLit i =>
      if ((0 <=? i) && (i <? 2 ^ 32))%Z then (pdo! advance; p_ret i)
      else error_here ("expected non-negative u32 (" +:+ label +:+ ")")
  | _ => error_here ("expected non-negative u32 (" +:+ label +:+ ")")
  end.

(** [while match_kind(sep) { items.push(item) }] *)
Fixpoint more (fuel : nat) {A} (sep : TokenKind) (item : P A) : P (list A) := fun ts =>
  match fuel with
  | O => Panic
  | S fuel' =>
      (pdo found <- match_kind sep;
       if found : bool then (pdo a <- item; pdo rest <- more fuel' sep item; p_ret (a :: rest))
       else p_ret []) ts
  end.

(** One item, then more of them after separators. *)
Definition separated {A} (sep : TokenKind) (item : P A) : P (list A) :=
  pdo a <- item;
  pdo rest <- (fun ts => more (S (length ts)) sep item ts);
  p_ret (a :: rest).

(** A list that may be empty, up to a closing token that is not consumed. *)
Definition separated_until {A} (stop : TokenKind) (item : P A) : P (list A) :=
  pdo k <- peek;
  if is_kind k stop then p_ret [] else separated Comma item.

Definition optionally {A} (k : TokenKind) (m : P A) : P (option A) :=
  pdo found <- match_kind k;
  if found : bool then (pdo a <- m; p_ret (Some a)) else p_ret None.

(** An identifier, if there is one. *)
Definition identifier_here : P (option string) :=
  pdo k <- peek;
  match k with Identifier name => pdo! advance; p_ret (Some name) | _ => p_ret None end.

Section Grammar.
Variable parse_expression : P Expression.

(** ** Patterns *)

Definition parse_property_entry : P (PropertyEntry Expression) :=
  pdo key <- expect_identifier "property key";
  pdo! expect Colon ":";
  pdo value <- parse_expression;
  p_ret {| pe_key := key; pe_value := value |}.

Definition parse_property_map : P (list (PropertyEntry Expression)) :=
  pdo! expect LBrace "{";
  pdo entries <- separated_until RBrace parse_property_entry;
  pdo! expect RBrace "}";
  p_ret entries.

Definition property_map_here : P (list (PropertyEntry Expression)) :=
  pdo k <- peek;
  if is_kind k LBrace then parse_property_map else p_ret [].

Definition parse_node_pattern : P (NodePattern Expression) :=
  pdo! expect LParen "(";
  pdo variable <- identifier_here;
  pdo label <- optionally Colon (expect_identifier "label");
  pdo properties <- property_map_here;
  pdo! expect RParen ")";
  p_ret {| np_variable := variable; np_label := label; np_properties := properties |}.

Definition parse_hop_range : P HopRange :=
  pdo min <- expect_u32 "variable-length minimum";
  pdo! expect DotDot "..";
  pdo max <- expect_u32 "variable-length maximum";
  if (min =? 0)%Z then error_here "variable-length lower bound must be >= 1"
  else if (max <? min)%Z then error_here "variable-length max must be >= min"
  else p_ret {| hr_min := min; hr_max := max |}.

(** What stands between the brackets of a relationship. *)
Definition parse_relationship_detail
    : P (option string * list string * list (PropertyEntry Expression) * option HopRange) :=
  pdo variable <- identifier_here;
  pdo types <- optionally Colon (separated Pipe (expect_identifier "relationship type"));
  pdo range <- optionally Star parse_hop_range;
  pdo properties <- property_map_here;
  pdo! expect RBracket "]";
  p_ret (variable, default [] types, properties, range).

Definition parse_relationship_pattern : P (RelationshipPattern Expression) :=
  pdo starts_left <- match_kind LtDash;
  pdo! (if starts_left : bool then p_ret tt else expect Dash "- or <-");
  pdo detail <- optionally LBracket parse_relationship_detail;
  pdo ends_right <- match_kind DashGt;
  pdo! (if ends_right : bool then p_ret tt else expect Dash "- or ->");
  let '(variable, types, properties, range) := default (None, [], [], None) detail in
  let pattern direction := {|
    rp_variable := variable; rp_direction := direction; rp_types := types; rp_properties := properties;
    rp_range := range |} in
  match starts_left, ends_right with
  | false, true => p_ret (pattern Outgoing)
  | true, false => p_ret (pattern Incoming)
  | false, false => p_ret (pattern Either)
  | true, true => error_here "relationship cannot be both <- and -> directional"
  end.

(** [while matches!(self.peek(), Dash | LtDash)] *)
Fixpoint parse_steps (fuel : nat) : P (list (PathStep Expression)) := fun ts =>
  match fuel with
  | O => Panic
  | S fuel' =>
      (pdo k <- peek;
       if is_kind k Dash || is_kind k LtDash then
         (pdo relationship <- parse_relationship_pattern;
          pdo node <- parse_node_pattern;
          pdo rest <- parse_steps fuel';
          p_ret ({| st_relationship := relationship; st_node := node |} :: rest))
       else p_ret []) ts
  end.

Definition parse_path_pattern : P (PathPattern Expression) :=
  pdo start <- parse_node_pattern;
  pdo steps <- (fun ts => parse_steps (S (length ts)) ts);
  p_ret {| pt_start := start; pt_steps := steps |}.

Definition parse_path_patterns : P (list (PathPattern Expression)) := separated Comma parse_path_pattern.

(** The loop over [MATCH] and [OPTIONAL MATCH]. *)
Fixpoint parse_matches (fuel : nat) : P (list (MatchClause Expression)) := fun ts =>
  match fuel with
  | O => Panic
  | S fuel' =>
      (pdo opt <- match_kind KwOptional;
       pdo found <- match_kind KwMatch;
       if found : bool then
         (pdo patterns <- parse_path_patterns;
          pdo rest <- parse_matches fuel';
          p_ret ({| mc_optional := opt; mc_patterns := patterns |} :: rest))
       else if opt : bool then error_here "expected MATCH after OPTIONAL"
       else p_ret []) ts
  end.

(** One or more of them. *)
Definition parse_match_clauses (missing : string) : P (list (MatchClause Expression)) :=
  pdo matches <- (fun ts => parse_matches (S (length ts)) ts);
  match matches with [] => error_here missing | _ => p_ret matches end.

Definition parse_subquery : P (Subquery Expression) :=
  pdo! expect LBrace "{";
  pdo matches <- parse_match_clauses "EXISTS subquery must contain at least one MATCH";
  pdo where_clause <- optionally KwWhere parse_expression;
  pdo! expect RBrace "}";
  p_ret {| sq_matches := matches; sq_where_clause := where_clause |}.

(** ** Expressions *)

Definition parse_function_arg : P (FunctionArg Expression) :=
  pdo star <- match_kind Star;
  if star : bool then p_ret ArgStar else (pdo e <- parse_expression; p_ret (ArgExpression e)).

Definition parse_primary `{CypherText} : P Expression :=
  pdo k <- peek;
  match k with
  | LParen =>
      pdo! advance;
      pdo inner <- parse_expression;
      pdo! expect RParen ")";
      p_ret inner
  | Dollar =>
      pdo! advance;
      pdo name <- expect_identifier "parameter name";
      p_ret (EParameter name)
  | IntLit i => pdo! advance; p_ret (ELiteral (LitInteger i))
  | FloatLit f => pdo! advance; p_ret (ELiteral (LitFloat f))
  | StringLit s => pdo! advance; p_ret (ELiteral (LitString s))
  | KwNull => pdo! advance; p_ret (ELiteral LitNull)
  | KwTrue => pdo! advance; p_ret (ELiteral (LitBool true))
  | KwFalse => pdo! advance; p_ret (ELiteral (LitBool false))
  | LBracket =>
      pdo! advance;
      pdo items <- separated_until RBracket parse_expression;
      pdo! expect RBracket "]";
      p_ret (ELiteral (LitList items))
  | Identifier name =>
      pdo! advance;
      pdo call <- match_kind LParen;
      if call : bool then
        (pdo arguments <- separated_until RParen parse_function_arg;
         pdo! expect RParen ")";
         p_ret (EFunctionCall name arguments))
      else
        (pdo path <- optionally Dot (separated Dot (expect_identifier "property"));
         p_ret (match path with Some path => EProperty name path | None => EVariable name end))
  | other => error_here ("unexpected token in expression: " +:+ token_debug other)
  end.

Definition comparison_op (k : TokenKind) : option ComparisonOp :=
  match k with
  | TkEq => Some CmpEq | TkNotEq => Some CmpNotEq | TkLt => Some CmpLt | TkLtEq => Some CmpLtEq
  | TkGt => Some CmpGt | TkGtEq => Some CmpGtEq | KwIn => Some CmpIn | KwContains => Some CmpContains
  | _ => None
  end.

Definition parse_comparison `{CypherText} : P Expression :=
  pdo lhs <- parse_primary;
  pdo is_null <- match_kind KwIs;
  if is_null : bool then
    (pdo negated <- match_kind KwNot;
     pdo! expect KwNull "IS [NOT] NULL";
     p_ret (EIsNull lhs negated))
  else
    pdo k <- peek;
    match comparison_op k with
    | Some op => pdo! advance; pdo rhs <- parse_primary; p_ret (EComparison op lhs rhs)
    | None =>
        if is_kind k KwStarts then
          (pdo! advance; pdo! expect KwWith "STARTS WITH";
           pdo rhs <- parse_primary; p_ret (EComparison CmpStartsWith lhs rhs))
        else if is_kind k KwEnds then
          (pdo! advance; pdo! expect KwWith "ENDS WITH";
           pdo rhs <- parse_primary; p_ret (EComparison CmpEndsWith lhs rhs))
        else p_ret lhs
    end.

(** [NOT] may be repeated. *)
Fixpoint parse_negation `{CypherText} (fuel : nat) : P Expression := fun ts =>
  match fuel with
  | O => Panic
  | S fuel' =>
      (pdo not <- match_kind KwNot;
       pdo exists_ <- match_kind KwExists;
       if exists_ : bool then
         (pdo sq <- parse_subquery; p_ret (if not : bool then ENotExists sq else EExists sq))
       else if not : bool then (pdo inner <- parse_negation fuel'; p_ret (ENot inner))
       else parse_comparison) ts
  end.

Definition negation `{CypherText} : P Expression := fun ts => parse_negation (S (length ts)) ts.

(** Operands joined by [AND] or [OR], to the left. *)
Definition parse_conjunction `{CypherText} : P Expression :=
  pdo operands <- separated KwAnd negation;
  match operands with
  | [] => fun _ => Panic
  | first :: rest => p_ret (fold_left (EBinaryLogical LogicalAnd) rest first)
  end.

Definition parse_disjunction `{CypherText} : P Expression :=
  pdo operands <- separated KwOr parse_conjunction;
  match operands with
  | [] => fun _ => Panic
  | first :: rest => p_ret (fold_left (EBinaryLogical LogicalOr) rest first)
  end.
End Grammar.

Section Query.
Context `{CypherText}.

Fixpoint parse_expression (fuel : nat) : P Expression := fun ts =>
  match fuel with
  | O => Panic
  | S fuel' => parse_disjunction (parse_expression fuel') ts
  end.

(** Each level of nesting takes a token. *)
Definition expression : P Expression := fun ts => parse_expression (S (length ts)) ts.

(** ** Queries *)

Definition parse_return_item : P ReturnItem :=
  pdo e <- expression;
  pdo alias <- optionally KwAs (expect_identifier "alias");
  p_ret {| ri_expression := e; ri_alias := alias |}.

Definition parse_return_clause : P ReturnClause :=
  pdo distinct <- match_kind KwDistinct;
  pdo items <- separated Comma parse_return_item;
  p_ret {| rc_distinct := distinct; rc_items := items |}.

Definition parse_sort_item : P SortItem :=
  pdo e <- expression;
  pdo descending <- match_kind KwDesc;
  if descending : bool then p_ret {| si_expression := e; si_descending := true |}
  else (pdo! match_kind KwAsc; p_ret {| si_expression := e; si_descending := false |}).

Definition parse_sort_items : P (list SortItem) := separated Comma parse_sort_item.

Definition excluded_clauses : list string :=
  ["CREATE"; "MERGE"; "SET"; "DELETE"; "DETACH"; "REMOVE"; "CALL"; "LOAD"; "USING"; "UNION"; "FOREACH"].

Definition reject_unsupported_top_level : P unit :=
  pdo k <- peek;
  match k with
  | Identifier name =>
      let upper := ascii_uppercase name in
      if bool_decide (upper ∈ excluded_clauses) then fun _ => Err (UnsupportedClause upper) else p_ret tt
  | _ => p_ret tt
  end.

Definition parse_query : P Query :=
  pdo! reject_unsupported_top_level;
  pdo matches <- parse_match_clauses expression "query must begin with MATCH";
  pdo where_clause <- optionally KwWhere expression;
  pdo! expect KwReturn "RETURN";
  pdo return_clause <- parse_return_clause;
  pdo order_by <- optionally KwOrder (pdo! expect KwBy "ORDER BY"; parse_sort_items);
  pdo skip <- optionally KwSkip (parse_u64 "SKIP");
  pdo limit <- optionally KwLimit (parse_u64 "LIMIT");
  pdo k <- peek;
  if negb (is_kind k Eof) then error_here "unexpected trailing tokens after query"
  else p_ret {| qu_matches := matches; qu_where_clause := where_clause; qu_return_clause := return_clause;
                qu_order_by := default [] order_by; qu_skip := skip; qu_limit := limit |}.

(** [parse] of the crate. *)
Definition parse_cypher (input : string) : result Query CypherError :=
  let? tokens := tokenize input in
  let? (query, _) := parse_query tokens in
  Ok query.
End Query.
