(* ===== verification/ReadApi.v ===== *)
(** * Further reads of the request handler ([crates/axon-api/src/handler.rs])

    Numeric aggregates, neighbours, candidates for links, and the reads that a
    transaction records for its commit. *)

From S2P Require Import Prelude Json Ids Types IndexKeys Intents AuditLog.
From S2P Require Import Schema PolicyPlan PolicyCycles PolicyCompile Rules Gates JsonOps AuthStore Roles Storage Catalog.
From S2P Require Import PolicyEval PolicyDecide Interface Transactions Requests EntityWrites EntityReads QueryPlan Queries.
From S2P Require Import MemoryRows PolicyExamples CypherAst CypherLexer CypherParser.
From Stdlib Require Import Floats.SpecFloat.
Local Open Scope axon_scope.

(** ** Arithmetic of [f64]

    IEEE 754 binary64 on bit patterns, through the standard library's
    specification of floating-point operations. *)

Definition f64_decode (b : f64) : spec_float :=
  let s := Z.testbit b 63 in
  let e := Z.land (Z.shiftr b 52) 2047 in
  let m := Z.land b (2 ^ 52 - 1) in
  if (e =? 0)%Z then match m with Zpos p => S754_finite s p (-1074) | _ => S754_zero s end
  else if (e =? 2047)%Z then if (m =? 0)%Z then S754_infinity s else S754_nan
  else match (m + 2 ^ 52)%Z with Zpos p => S754_finite s p (e - 1075) | _ => S754_nan end.

Definition f64_encode (f : spec_float) : f64 :=
  let sign (s : bool) := if s then (2 ^ 63)%Z else 0%Z in
  match f with
  | S754_zero s => sign s
  | S754_infinity s => (sign s + 2047 * 2 ^ 52)%Z
  | S754_nan => (2047 * 2 ^ 52 + 2 ^ 51)%Z
  | S754_finite s m e =>
      if (Zpos m <? 2 ^ 52)%Z then (sign s + Zpos m)%Z
      else (sign s + (e + 1075) * 2 ^ 52 + (Zpos m - 2 ^ 52))%Z
  end.

Definition f64_add (a b : f64) : f64 := f64_encode (SFadd 53 1024 (f64_decode a) (f64_decode b)).
Definition f64_div (a b : f64) : f64 := f64_encode (SFdiv 53 1024 (f64_decode a) (f64_decode b)).
(** [n as f64] *)
Definition f64_of_nat (n : nat) : f64 := f64_encode (binary_normalize 53 1024 (Z.of_nat n) 0 false).

Definition f64_neg_zero : f64 := (2 ^ 63)%Z.
Definition f64_infinity : f64 := (2047 * 2 ^ 52)%Z.
Definition f64_neg_infinity : f64 := (2 ^ 63 + 2047 * 2 ^ 52)%Z.

(** [f64::min] and [f64::max]: a NaN loses. *)
Definition f64_min (a b : f64) : f64 :=
  if f64_is_nan a then b
  else match f64_partial_cmp b a with Some Lt => b | _ => a end.
Definition f64_max (a b : f64) : f64 :=
  if f64_is_nan a then b
  else match f64_partial_cmp b a with Some Gt => b | _ => a end.

(** [iter().sum()], which starts at negative zero. *)
Definition f64_sum (values : list f64) : f64 := fold_left f64_add values f64_neg_zero.

(** ** Aggregates *)

Inductive AggregateFunction : Type := AggSum | AggAvg | AggMin | AggMax.

Definition compute_aggregate (func : AggregateFunction) (values : list f64) : f64 :=
  match func with
  | AggSum => f64_sum values
  | AggAvg => f64_div (f64_sum values) (f64_of_nat (length values))
  | AggMin => fold_left f64_min values f64_infinity
  | AggMax => fold_left f64_max values f64_neg_infinity
  end.

Section Reads.
Context `{RuleEnv}.

Record AggregateRequest : Type := {
  ag_collection : CollectionId;
  ag_function : AggregateFunction;
  ag_field : string;
  ag_filter : option FilterNode;
  ag_group_by : option string
}.
Record AggregateGroup : Type := { agg_key : Value; agg_value : f64; agg_count : nat }.
Record AggregateResponse : Type := { agr_results : list AggregateGroup }.

(** The value of the aggregated field, if it is a number. *)
Definition numeric_field (field : string) (e : Entity) : option f64 :=
  get_field_value (e_data e) field ≫= as_f64.

Definition is_number (v : Value) : bool := match v with Number _ => true | _ => false end.

Definition has_non_numeric (field : string) (matched : list Entity) : bool :=
  existsb (fun e => match get_field_value (e_data e) field with
                    | Some v => negb (is_number v) && negb (is_null v)
                    | None => false
                    end) matched.

(** The groups of the [BTreeMap], in the order of their keys; groups without a
    number are left out. *)
Definition aggregate_groups (func : AggregateFunction) (field group_by : string) (matched : list Entity)
    : list AggregateGroup :=
  omap (fun key =>
      let vals := omap (numeric_field field)
                    (List.filter (fun e => bool_decide (group_key group_by e = key)) matched) in
      match vals with
      | [] => None
      | _ => Some {| agg_key := if bool_decide (key = "null") then Null else JString key;
                     agg_value := compute_aggregate func vals; agg_count := length vals |}
      end)
    (ids_in_order (list_to_set (map (group_key group_by) matched))).

Section Storage.
Context {S : Type} `{!StorageReads S}.
Variable fuel depth : nat.
Variable reserved_payload : string -> string -> string.
Variable to_lowercase : string -> string.
Variable s : S.

Definition aggregate (req : AggregateRequest) : result AggregateResponse AxonError :=
  let? _ := ensure_generic_collection_access reserved_payload (ag_collection req) OP_QUERY in
  let? schema := sr_get_schema s (ag_collection req) in
  let? candidates := try_index_lookup s (ag_collection req) (ag_filter req) schema in
  let? all := fetch_candidates s (ag_collection req) candidates in
  let matched := List.filter (fun e => when_some (ag_filter req) (fun f => apply_filter f (e_data e))) all in
  match ag_group_by req with
  | Some group_by => Ok {| agr_results := aggregate_groups (ag_function req) (ag_field req) group_by matched |}
  | None =>
      let values := omap (numeric_field (ag_field req)) matched in
      if is_nil values && negb (is_nil matched) && has_non_numeric (ag_field req) matched
      then Err (InvalidArgument ("field '" +:+ ag_field req +:+ "' is not numeric"))
      else if is_nil values then Ok {| agr_results := [] |}
      else Ok {| agr_results := [{| agg_key := Null; agg_value := compute_aggregate (ag_function req) values;
                                    agg_count := length values |}] |}
  end.

(** ** Neighbours *)

Record ListNeighborsRequest : Type := {
  ln_collection : CollectionId;
  ln_id : EntityId;
  ln_link_type : option string;
  ln_direction : option TraverseDirection
}.
Record NeighborGroup : Type := { ng_link_type : string; ng_direction : string; ng_entities : list Entity }.
Record ListNeighborsResponse : Type := { lnr_groups : list NeighborGroup; lnr_total_count : nat }.

(** [groups.entry(key).or_default().push(entity)] on a [BTreeMap]. *)
Definition key_compare (a b : string * string) : comparison :=
  then_cmp (String.compare (fst a) (fst b)) (String.compare (snd a) (snd b)).
Fixpoint group_push (key : string * string) (e : Entity) (groups : list ((string * string) * list Entity))
    : list ((string * string) * list Entity) :=
  match groups with
  | [] => [(key, [e])]
  | (k, es) :: rest =>
      match key_compare key k with
      | Eq => (k, es ++ [e]) :: rest
      | Lt => (key, [e]) :: groups
      | Gt => (k, es) :: group_push key e rest
      end
  end.

Definition direction_included (direction : option TraverseDirection) (wanted : TraverseDirection) : bool :=
  match direction, wanted with
  | None, _ | Some Forward, Forward | Some Reverse, Reverse => true
  | _, _ => false
  end.

(** The neighbour at [node] as the caller may see it. *)
Definition visible_neighbor (caller : option CallerIdentity) (attribution : option AuditAttribution)
    (node : CollectionId * EntityId) : result (option Entity) AxonError :=
  traverse_probe fuel depth s None caller attribution node.

(** One side of a link, when [applies]. *)
Definition push_neighbor (caller : option CallerIdentity) (attribution : option AuditAttribution) (applies : bool)
    (key : string * string) (node : CollectionId * EntityId) (groups : list ((string * string) * list Entity))
    : result (list ((string * string) * list Entity)) AxonError :=
  if applies then
    let? found := visible_neighbor caller attribution node in
    Ok (match found with Some e => group_push key e groups | None => groups end)
  else Ok groups.

Fixpoint neighbor_groups (req : ListNeighborsRequest) (caller : option CallerIdentity)
    (attribution : option AuditAttribution) (links : list Link) (groups : list ((string * string) * list Entity))
    : result (list ((string * string) * list Entity)) AxonError :=
  match links with
  | [] => Ok groups
  | l :: rest =>
      if negb (when_some (ln_link_type req) (fun lt => bool_decide (l_link_type l = lt)))
      then neighbor_groups req caller attribution rest groups
      else
        let? groups :=
          push_neighbor caller attribution
            (direction_included (ln_direction req) Forward && bool_decide (l_source_collection l = ln_collection req)
             && bool_decide (l_source_id l = ln_id req))
            (l_link_type l, "outbound") (l_target_collection l, l_target_id l) groups in
        let? groups :=
          push_neighbor caller attribution
            (direction_included (ln_direction req) Reverse && bool_decide (l_target_collection l = ln_collection req)
             && bool_decide (l_target_id l = ln_id req))
            (l_link_type l, "inbound") (l_source_collection l, l_source_id l) groups in
        neighbor_groups req caller attribution rest groups
  end.

Definition list_neighbors_with_read_context (req : ListNeighborsRequest) (caller : option CallerIdentity)
    (attribution : option AuditAttribution) : result ListNeighborsResponse AxonError :=
  let? _ := ensure_generic_collection_access reserved_payload (ln_collection req) OP_LINK in
  let? found := get_visible_entity_for_read_with_context fuel depth s (ln_collection req) (ln_id req)
                  caller attribution in
  match found with
  | None => Err (NotFound (ln_collection req +:+ "/" +:+ ln_id req))
  | Some _ =>
      let? all_links := load_generic_links s in
      let? groups := neighbor_groups req caller attribution all_links [] in
      Ok {| lnr_groups := map (fun g => {| ng_link_type := fst (fst g); ng_direction := snd (fst g);
                                           ng_entities := snd g |}) groups;
            lnr_total_count := list_sum (map (fun g => length (snd g)) groups) |}
  end.

(** ** Candidates for a link *)

Record FindLinkCandidatesRequest : Type := {
  fl_source_collection : CollectionId;
  fl_source_id : EntityId;
  fl_link_type : string;
  fl_filter : option FilterNode;
  fl_limit : option nat
}.
Record LinkCandidate : Type := { lc_entity : Entity; lc_already_linked : bool }.
Record FindLinkCandidatesResponse : Type := {
  flr_target_collection : string;
  flr_link_type : string;
  flr_cardinality : string;
  flr_existing_link_count : nat;
  flr_candidates : list LinkCandidate
}.

(** [format!("{:?}", cardinality).to_lowercase().replace("to", "-to-")] *)
Definition cardinality_text (c : Cardinality) : string :=
  match c with
  | OneToOne => "one-to-one" | OneToMany => "one-to-many" | ManyToOne => "many-to-one" | ManyToMany => "many-to-many"
  end.

Fixpoint visible_targets (caller : option CallerIdentity) (attribution : option AuditAttribution)
    (links : list Link) : result (gset string) AxonError :=
  match links with
  | [] => Ok ∅
  | l :: rest =>
      let? found := get_visible_entity_for_read_with_context fuel depth s (l_target_collection l) (l_target_id l)
                      caller attribution in
      let? others := visible_targets caller attribution rest in
      Ok (match found with Some _ => {[ l_target_id l ]} ∪ others | None => others end)
  end.

(** The loop over the targets; [count] candidates have been found. *)
Fixpoint collect_candidates (target_collection : CollectionId) (filter : option FilterNode)
    (existing_targets : gset string) (limit : nat) (caller : option CallerIdentity)
    (attribution : option AuditAttribution) (count : nat) (targets : list Entity)
    : result (list LinkCandidate) AxonError :=
  match targets with
  | [] => Ok []
  | entity :: rest =>
      if negb (when_some filter (fun f => apply_filter f (e_data entity)))
      then collect_candidates target_collection filter existing_targets limit caller attribution count rest
      else
        let? visible := entity_visible_for_read_with_context fuel depth s target_collection entity caller attribution in
        if negb visible
        then collect_candidates target_collection filter existing_targets limit caller attribution count rest
        else
          let already_linked := bool_decide (e_id entity ∈ existing_targets) in
          let? shown := redact_entity_for_read_with_context fuel depth s target_collection entity caller attribution in
          let candidate := {| lc_entity := shown; lc_already_linked := already_linked |} in
          if (limit <=? count + 1)%nat then Ok [candidate]
          else
            let? more := collect_candidates target_collection filter existing_targets limit caller attribution
                           (count + 1) rest in
            Ok (candidate :: more)
  end.

Definition DEFAULT_CANDIDATE_LIMIT : nat := 50.

Definition find_link_candidates_with_read_context (req : FindLinkCandidatesRequest) (caller : option CallerIdentity)
    (attribution : option AuditAttribution) : result FindLinkCandidatesResponse AxonError :=
  let? _ := ensure_generic_collection_access reserved_payload (fl_source_collection req) OP_LINK in
  let? found := get_visible_entity_for_read_with_context fuel depth s (fl_source_collection req) (fl_source_id req)
                  caller attribution in
  match found with
  | None => Err (NotFound (fl_source_collection req +:+ "/" +:+ fl_source_id req))
  | Some _ =>
      let? source_schema := sr_get_schema s (fl_source_collection req) in
      let link_def := source_schema ≫= fun sc => cs_link_types sc !! fl_link_type req in
      let target_collection :=
        match link_def with Some d => lt_target_collection d | None => fl_source_collection req end in
      let? _ := ensure_generic_collection_access reserved_payload target_collection OP_LINK in
      let? all_links := load_generic_links s in
      let? existing_targets := visible_targets caller attribution (List.filter (fun l =>
          bool_decide (l_source_collection l = fl_source_collection req)
          && bool_decide (l_source_id l = fl_source_id req)
          && bool_decide (l_target_collection l = target_collection)
          && bool_decide (l_link_type l = fl_link_type req)) all_links) in
      let? target_schema := sr_get_schema s target_collection in
      let? candidates := try_index_lookup s target_collection (fl_filter req) target_schema in
      let? all_targets := fetch_candidates s target_collection candidates in
      let? candidates :=
        collect_candidates target_collection (fl_filter req) existing_targets
          (default DEFAULT_CANDIDATE_LIMIT (fl_limit req)) caller attribution 0 all_targets in
      Ok {| flr_target_collection := target_collection; flr_link_type := fl_link_type req;
            flr_cardinality := match link_def with
                               | Some d => cardinality_text (lt_cardinality d)
                               | None => "unknown"
                               end;
            flr_existing_link_count := size existing_targets; flr_candidates := candidates |}
  end.
End Storage.

(** ** Reads recorded in a transaction *)

Section Recorded.
Context {S : Type} `{!StorageReads S} `{!StorageAdapter S}.
Variable fuel depth : nat.
Variable reserved_payload : string -> string -> string.
Variable to_lowercase : string -> string.
Variable s : S.

Abbreviation Recording A := (M Transaction AxonError A) (only parsing).

Definition scan_signature (tx : Transaction) (collection : CollectionId) : result Z AxonError :=
  match tx_isolation tx with
  | SerializableStrict => sa_content_version s collection
  | _ => sa_structural_version s collection
  end.

Definition observe (collection : CollectionId) : Recording Z := fun tx => (tx, scan_signature tx collection).

Definition tx_query_entities_inner (req : QueryEntitiesRequest) (caller : option CallerIdentity)
    (attribution : option AuditAttribution) : Recording QueryEntitiesResponse :=
  do observed <- observe (qe_collection req);
  do resp <- lift (query_entities_with_read_context fuel depth reserved_payload to_lowercase s req caller attribution);
  do! record_scan_read (qe_collection req) observed;
  ret resp.

Definition tx_aggregate (req : AggregateRequest) : Recording AggregateResponse :=
  do observed <- observe (ag_collection req);
  do resp <- lift (aggregate reserved_payload s req);
  do! record_scan_read (ag_collection req) observed;
  ret resp.

Fixpoint record_entities (entities : list Entity) : Recording unit :=
  match entities with
  | [] => ret tt
  | e :: rest =>
      do! record_read (e_collection e) (e_id e) (e_version e);
      record_entities rest
  end.

Definition tx_traverse_inner (req : TraverseRequest) (caller : option CallerIdentity)
    (attribution : option AuditAttribution) : Recording TraverseResponse :=
  do base <- lift (sr_get s (tq_collection req) (tq_id req));
  do links_version <- observe links_collection;
  do resp <- lift (traverse_with_read_context fuel depth reserved_payload s req caller attribution);
  do! record_read (tq_collection req) (tq_id req) (match base with Some e => e_version e | None => 0 end);
  do! record_scan_read links_collection links_version;
  do! record_entities (ts_entities resp);
  ret resp.

Fixpoint tx_record_scan_collections_unchecked (collections : list CollectionId) : Recording unit :=
  match collections with
  | [] => ret tt
  | c :: rest =>
      do observed <- observe c;
      do! record_scan_read c observed;
      tx_record_scan_collections_unchecked rest
  end.

Definition tx_record_scan_collections (collections : list CollectionId) : Recording unit :=
  do! lift (ensure_generic_collection_accesses reserved_payload collections OP_QUERY);
  tx_record_scan_collections_unchecked collections.

Context `{!CypherText}.
Variable cypher_error_text : CypherError -> string.

Definition tx_record_cypher_scan (cypher : string) : Recording unit :=
  do query <- lift (match parse_cypher cypher with
                    | Ok q => Ok q
                    | Err e => Err (InvalidArgument ("invalid cypher: " +:+ cypher_error_text e))
                    | Panic => Panic
                    end);
  let collections := referenced_labels query
                     ++ (if references_relationships query then [links_collection] else []) in
  do! lift (ensure_generic_collection_accesses reserved_payload
              (List.filter (fun c => negb (bool_decide (c = links_collection))) collections) OP_QUERY);
  tx_record_scan_collections_unchecked collections.
End Recorded.
End Reads.

(** ** What neighbours are listed *)

Section Neighbors.
Context `{RuleEnv} {S : Type} `{!StorageReads S}.
Variable fuel depth : nat.
Variable reserved_payload : string -> string -> string.
Variable s : S.
Variable caller : option CallerIdentity.
Variable attribution : option AuditAttribution.

(** The ends that the links of the request lead to, with the group they belong
    to, in the order of the links. *)
Definition link_ends (req : ListNeighborsRequest) (l : Link) : list ((string * string) * Node) :=
  (if direction_included (ln_direction req) Forward && bool_decide (near_end Forward l = (ln_collection req, ln_id req))
   then [((l_link_type l, "outbound"), far_end Forward l)] else []) ++
  (if direction_included (ln_direction req) Reverse && bool_decide (near_end Reverse l = (ln_collection req, ln_id req))
   then [((l_link_type l, "inbound"), far_end Reverse l)] else []).

Definition neighbor_ends (req : ListNeighborsRequest) (links : list Link) : list ((string * string) * Node) :=
  flat_map (link_ends req) (typed_links (ln_link_type req) links).

(** What the caller sees of the ends of one group. *)
Definition seen (node : Node) : option Entity :=
  match visible_neighbor fuel depth s caller attribution node with Ok e => e | _ => None end.
Definition seen_in (key : string * string) (ends : list ((string * string) * Node)) : list Entity :=
  omap (fun e => seen (snd e)) (List.filter (fun e => bool_decide (fst e = key)) ends).

Definition group_entities (key : string * string) (groups : list ((string * string) * list Entity)) : list Entity :=
  flat_map snd (List.filter (fun g => bool_decide (fst g = key)) groups).

Definition keys_increase (groups : list ((string * string) * list Entity)) : Prop :=
  StronglySorted (fun a b => key_compare a b = Lt) (map fst groups).

Lemma key_compare_eq a b : key_compare a b = Eq <-> a = b.
Proof.
  destruct a as [a1 a2], b as [b1 b2]. unfold key_compare. cbn [fst snd].
  destruct (String.compare a1 b1) eqn:E; cbn [then_cmp].
  - apply String.compare_eq_iff in E as ->. split; [intros ->%String.compare_eq_iff; done|]. intros [= ->]. by rewrite string_compare_memcmp, memcmp_refl.
  - split; [done|]. intros [= -> ->]. by rewrite string_compare_memcmp, memcmp_refl in E.
  - split; [done|]. intros [= -> ->]. by rewrite string_compare_memcmp, memcmp_refl in E.
Qed.

Lemma key_compare_trans a b c : key_compare a b = Lt -> key_compare b c = Lt -> key_compare a c = Lt.
Proof.
  destruct a as [a1 a2], b as [b1 b2], c as [c1 c2]. unfold key_compare. cbn [fst snd].
  destruct (String.compare a1 b1) eqn:E1; cbn [then_cmp]; [| |done].
  - apply String.compare_eq_iff in E1 as ->. intros H2. destruct (String.compare b1 c1); cbn [then_cmp]; [|done..].
    by apply string_compare_trans.
  - intros _. destruct (String.compare b1 c1) eqn:E2; cbn [then_cmp]; [| |done].
    + apply String.compare_eq_iff in E2 as ->. by rewrite E1.
    + by rewrite (string_compare_trans _ _ _ E1 E2).
Qed.

Lemma key_compare_gt a b : key_compare a b = Gt -> key_compare b a = Lt.
Proof.
  unfold key_compare. rewrite (String.compare_antisym (fst a) (fst b)), (String.compare_antisym (snd a) (snd b)).
  destruct (String.compare (fst b) (fst a)); cbn [then_cmp CompOpp]; [|done..].
  by destruct (String.compare (snd b) (snd a)).
Qed.

Lemma group_entities_cons k k' es groups :
  group_entities k ((k', es) :: groups) = (if bool_decide (k = k') then es else []) ++ group_entities k groups.
Proof.
  unfold group_entities. cbn. rewrite (bool_decide_ext (k' = k) (k = k')) by naive_solver. by case_bool_decide.
Qed.

(** No later group has a key that comes before. *)
Lemma group_entities_later k groups : Forall (fun k' => key_compare k k' = Lt) (map fst groups) ->
  group_entities k groups = [].
Proof.
  intros Hlt. unfold group_entities. rewrite filter_none; [done|]. intros g Hg. apply bool_decide_eq_false.
  intros Hgk. rewrite List.Forall_forall in Hlt. specialize (Hlt (fst g) (in_map fst _ _ Hg)).
  by rewrite Hgk, (proj2 (key_compare_eq k k) eq_refl) in Hlt.
Qed.

(** Pushing adds to the end of one group and keeps the order of the groups. *)
Lemma group_push_entities key e groups k : keys_increase groups ->
  group_entities k (group_push key e groups) =
  group_entities k groups ++ (if bool_decide (k = key) then [e] else []).
Proof.
  unfold keys_increase. induction groups as [|[k' es] groups IH]; intros Hs; cbn [group_push].
  { rewrite group_entities_cons. cbn. by rewrite app_nil_r. }
  inversion Hs as [|? ? Hs' Hlt]; subst. destruct (key_compare key k') eqn:E.
  - apply key_compare_eq in E as ->. rewrite !group_entities_cons. case_bool_decide as Hk; [|by rewrite app_nil_r].
    subst k. by rewrite group_entities_later, !app_nil_r.
  - rewrite group_entities_cons. case_bool_decide as Hk; [|by rewrite app_nil_r]. subst k.
    rewrite group_entities_later; [done|]. cbn [map fst]. constructor; [done|].
    eapply List.Forall_impl; [|exact Hlt]. intros k. by apply key_compare_trans.
  - by rewrite !group_entities_cons, IH, app_assoc.
Qed.

Lemma group_push_keys key e groups : keys_increase groups -> keys_increase (group_push key e groups).
Proof.
  unfold keys_increase. induction groups as [|[k' es] groups IH]; intros Hs; cbn; [by repeat constructor|].
  inversion Hs as [|? ? Hs' Hlt]; subst. destruct (key_compare key k') eqn:E; cbn; [done| |].
  - constructor; [done|]. constructor; [done|]. eapply List.Forall_impl; [|exact Hlt].
    intros k. by apply key_compare_trans.
  - constructor; [by apply IH|]. apply List.Forall_forall. intros k Hk.
    assert (k = key \/ In k (map fst groups)) as [-> |Hin].
    { clear -Hk. induction groups as [|[k2 es2] groups IHg]; cbn in Hk; [naive_solver|].
      destruct (key_compare key k2); cbn in Hk |- *; naive_solver. }
    + by apply key_compare_gt.
    + by apply (proj1 (List.Forall_forall _ _) Hlt).
Qed.

Lemma group_push_nonempty key e groups : Forall (fun g => snd g <> []) groups ->
  Forall (fun g => snd g <> []) (group_push key e groups).
Proof.
  induction groups as [|[k' es] groups IH]; intros Hne; cbn; [by repeat constructor|].
  inversion Hne; subst. destruct (key_compare key k'); repeat constructor; auto. by destruct es.
Qed.

Definition total (groups : list ((string * string) * list Entity)) : nat :=
  list_sum (map (fun g => length (snd g)) groups).

Lemma total_cons g groups : total (g :: groups) = length (snd g) + total groups.
Proof. done. Qed.

Lemma group_push_total key e groups : total (group_push key e groups) = Datatypes.S (total groups).
Proof.
  induction groups as [|[k' es] groups IH]; cbn [group_push]; [done|].
  destruct (key_compare key k'); rewrite !total_cons; cbn [snd]; [rewrite length_app; cbn; lia|done|rewrite IH; lia].
Qed.

(** What a run of the loop has built from the ends it has passed. *)
Definition groups_show (ends : list ((string * string) * Node)) (groups : list ((string * string) * list Entity))
    : Prop :=
  keys_increase groups /\ Forall (fun g => snd g <> []) groups /\
  (forall key, group_entities key groups = seen_in key ends) /\
  total groups = length (omap (fun e => seen (snd e)) ends).

Lemma seen_in_app key ends ends' : seen_in key (ends ++ ends') = seen_in key ends ++ seen_in key ends'.
Proof. unfold seen_in. by rewrite List.filter_app, omap_app. Qed.

Lemma push_neighbor_shows ends applies key node groups groups' :
  groups_show ends groups ->
  push_neighbor fuel depth s caller attribution applies key node groups = Ok groups' ->
  groups_show (ends ++ if applies then [(key, node)] else []) groups'.
Proof.
  unfold push_neighbor. destruct applies; [|intros ? [= <-]; by rewrite app_nil_r].
  intros (Hk & Hne & Hg & Ht) (found & Hf & [= <-])%result_bind_ok.
  assert (Hs : seen node = found) by (unfold seen; by rewrite Hf).
  assert (Hone : forall k, seen_in k [(key, node)] =
    if bool_decide (k = key) then match found with Some e => [e] | None => [] end else []).
  { intros k. unfold seen_in. cbn. rewrite (bool_decide_ext (key = k) (k = key)) by naive_solver.
    case_bool_decide; [|done]. cbn. rewrite Hs. by destruct found. }
  split_and!.
  - destruct found; [by apply group_push_keys|done].
  - destruct found; [by apply group_push_nonempty|done].
  - intros k. rewrite seen_in_app, Hone, <-Hg. destruct found as [e|]; [by rewrite group_push_entities|].
    case_bool_decide; by rewrite app_nil_r.
  - rewrite omap_app, length_app, <-Ht. cbn. rewrite Hs. destruct found; cbn; [rewrite group_push_total; lia|lia].
Qed.

Lemma near_end_decide (a b : string) c i :
  bool_decide ((a, b) = (c, i)) = bool_decide (a = c) && bool_decide (b = i).
Proof. repeat case_bool_decide; naive_solver. Qed.

Lemma neighbor_groups_show req links : forall ends groups groups',
  groups_show ends groups ->
  neighbor_groups fuel depth s req caller attribution links groups = Ok groups' ->
  groups_show (ends ++ neighbor_ends req links) groups'.
Proof.
  unfold neighbor_ends. induction links as [|l links IH]; intros ends groups groups' Hg; cbn.
  { intros [= <-]. by rewrite app_nil_r. }
  destruct (when_some _ _); cbn; [|by apply IH].
  intros (g1 & H1 & (g2 & H2 & H3)%result_bind_ok)%result_bind_ok.
  unfold link_ends. cbn [near_end far_end]. rewrite !near_end_decide, !andb_assoc, !app_assoc.
  eapply IH; [|exact H3]. eapply push_neighbor_shows; [|exact H2]. by eapply push_neighbor_shows.
Qed.

(** The neighbours of an entity are listed exactly. A request is answered only
    when the caller can see the entity; the groups come in the order of link type
    and direction, no group is empty, and the group of a type and a direction
    holds, in the order of the links, what the caller may see of the other end
    of every link of the entity with that type and direction that satisfies the
    filters; the total is the number of all of them. *)
Theorem neighbors_exact (req : ListNeighborsRequest) (resp : ListNeighborsResponse) :
  list_neighbors_with_read_context fuel depth reserved_payload s req caller attribution = Ok resp ->
  exists links,
    load_generic_links s = Ok links /\
    (exists e, get_visible_entity_for_read_with_context fuel depth s (ln_collection req) (ln_id req)
                 caller attribution = Ok (Some e)) /\
    StronglySorted (fun a b => key_compare (ng_link_type a, ng_direction a) (ng_link_type b, ng_direction b) = Lt)
      (lnr_groups resp) /\
    Forall (fun g => ng_entities g <> [] /\
       ng_entities g = seen_in (ng_link_type g, ng_direction g) (neighbor_ends req links)) (lnr_groups resp) /\
    (forall e, In e (omap (fun x => seen (snd x)) (neighbor_ends req links)) ->
       exists g, In g (lnr_groups resp) /\ In e (ng_entities g)) /\
    lnr_total_count resp = length (omap (fun x => seen (snd x)) (neighbor_ends req links)).
Proof.
  unfold list_neighbors_with_read_context.
  intros (_ & _ & (found & Hf & H1)%result_bind_ok)%result_bind_ok. destruct found as [e0|]; [|done].
  apply result_bind_ok in H1 as (links & Hl & (groups & Hg & [= <-])%result_bind_ok).
  apply (neighbor_groups_show req links [] [] groups) in Hg as (Hk & Hne & Hin & Ht).
  2:{ split; [constructor|]. split; [constructor|]. by split. }
  exists links. split; [done|]. split; [by exists e0|]. cbn [lnr_groups lnr_total_count]. split_and!.
  - unfold keys_increase in Hk. clear -Hk. induction groups as [|[[t d] es] groups IH]; cbn in *; [constructor|].
    inversion Hk as [|? ? Hs Hlt]; subst. constructor; [by apply IH|].
    rewrite List.Forall_map. rewrite List.Forall_map in Hlt. eapply List.Forall_impl; [|exact Hlt]. by intros [[] ?].
  - apply List.Forall_map, List.Forall_forall. intros [[t d] es] Hin'. cbn. split.
    + by apply (proj1 (List.Forall_forall _ _) Hne) in Hin'.
    + rewrite <-Hin. symmetry. clear -Hk Hin'. unfold keys_increase in Hk.
      induction groups as [|[k es'] groups IH]; [done|]. cbn in Hk. inversion Hk as [|? ? Hs Hlt]; subst.
      rewrite group_entities_cons. destruct Hin' as [[= -> ->]|Hin'].
      * rewrite bool_decide_eq_true_2 by done. by rewrite group_entities_later, app_nil_r.
      * rewrite bool_decide_eq_false_2; [by apply IH|].
        rewrite List.Forall_forall in Hlt. apply (in_map fst) in Hin'. apply Hlt in Hin'. cbn in Hin'.
        intros <-. by rewrite (proj2 (key_compare_eq (t, d) (t, d)) eq_refl) in Hin'.
  - intros e (x & Hx & He)%list_elem_of_In%list_elem_of_omap. apply list_elem_of_In in Hx.
    assert (Hs : In e (group_entities (fst x) groups)).
    { rewrite Hin. apply list_elem_of_In, list_elem_of_omap. exists x. split; [|done].
      apply list_elem_of_In, filter_In. split; [done|]. by apply bool_decide_eq_true. }
    apply List.in_flat_map in Hs as ([[t d] es] & [Hg _]%filter_In & He').
    exists {| ng_link_type := t; ng_direction := d; ng_entities := es |}. split; [|done].
    by apply (in_map (fun g => {| ng_link_type := fst (fst g); ng_direction := snd (fst g); ng_entities := snd g |})
      groups (t, d, es)).
  - done.
Qed.
End Neighbors.

(** ** Concrete runs *)

Section Examples.
Local Existing Instance simple_serde_number.

Definition wanted (limit : nat) : FindLinkCandidatesRequest := {|
  fl_source_collection := "docs"; fl_source_id := "d1"; fl_link_type := "in"; fl_filter := None;
  fl_limit := Some limit |}.

Definition ann : option CallerIdentity :=
  Some {| ci_actor := "ann"; ci_role := RoleWrite; ci_entity_filter := None |}.

Definition candidate_ids (r : result FindLinkCandidatesResponse AxonError) : option (list (EntityId * bool)) :=
  match r with
  | Ok r => Some (map (fun c => (e_id (lc_entity c), lc_already_linked c)) (flr_candidates r))
  | _ => None
  end.

(** A request for no candidates gets one: the limit is tested after the push. *)
Theorem zero_limit_returns_one :
  candidate_ids (find_link_candidates_with_read_context (S := MemoryStorageAdapter) 10 5 (fun _ op => op)
    store (wanted 0) ann None) = Some [("f1", true)].
Proof. vm_refl. Qed.

(** The document has one neighbour, its folder. *)
Lemma neighbors_exact_witness :
  exists resp,
    list_neighbors_with_read_context (S := MemoryStorageAdapter) 10 5 (fun _ op => op) store
      {| ln_collection := "docs"; ln_id := "d1"; ln_link_type := None; ln_direction := None |} ann None = Ok resp /\
    map ng_direction (lnr_groups resp) = ["outbound"] /\
    exists links, load_generic_links store = Ok links /\
      lnr_total_count resp = length (omap (fun x => seen 10 5 store ann None (snd x)) (neighbor_ends
        {| ln_collection := "docs"; ln_id := "d1"; ln_link_type := None; ln_direction := None |} links)).
Proof.
  set (req := {| ln_collection := "docs"; ln_id := "d1"; ln_link_type := None; ln_direction := None |}).
  set (run := list_neighbors_with_read_context (S := MemoryStorageAdapter) 10 5 (fun _ op => op) store req ann None).
  assert (Hdirs : match run with Ok r => Some (map ng_direction (lnr_groups r)) | _ => None end = Some ["outbound"])
    by vm_refl.
  destruct run as [resp| |] eqn:E; [|discriminate Hdirs..]. injection Hdirs as Hdirs.
  exists resp. split; [done|]. split.
  - exact Hdirs.
  - destruct (neighbors_exact 10 5 (fun _ op => op) store ann None req resp E) as (links & Hl & _ & _ & _ & _ & Ht).
    exists links. split; [exact Hl|exact Ht].
Defined.

(** Three numbers: 0.1 + 0.2 + 3 is 3.3000000000000003, and the least is 0.1. *)
Definition tenths : list f64 := [4591870180066957722; 4596373779694328218; 4613937818241073152]%Z.

Lemma aggregate_bits :
  map (fun f => compute_aggregate f tenths) [AggSum; AggAvg; AggMin; AggMax] =
    [4614613358185178726; 4607632778762754457; 4591870180066957722; 4613937818241073152]%Z.
Proof. vm_refl. Qed.
End Examples.
