(* ===== verification/CypherTotal.v ===== *)
(** * Cypher: reading a query always ends

    Every iteration of the tokenizer takes a character and every loop and every
    nested call of the parser takes a token, so that the bounds of the model are
    never reached and a text is either a query or an error. *)

From S2P Require Import Prelude Json Datetime CypherAst CypherLexer CypherParser.
Local Open Scope axon_scope.

(** ** The tokenizer *)

Section Lexer.
Context `{CypherText}.

Lemma scan_number_length chars : length (snd (scan_number chars)) <= length chars.
Proof.
  induction chars as [|c rest IH]; simpl; [lia|]. destruct (scan_number rest) as [[text float] others].
  simpl in IH. destruct (is_digit c); simpl; [lia|]. case_bool_decide; simpl; [|lia].
  destruct rest as [|d ?]; simpl in *; [lia|]. destruct (is_digit d); simpl; lia.
Qed.

Lemma scan_number_digit c rest : is_digit c = true -> length (snd (scan_number (c :: rest))) <= length rest.
Proof.
  intros Hc. pose proof (scan_number_length rest) as Hl. simpl. rewrite Hc.
  destruct (scan_number rest) as [[text float] others]. exact Hl.
Qed.

Lemma scan_identifier_length chars : length (snd (scan_identifier chars)) <= length chars.
Proof.
  induction chars as [|c rest IH]; simpl; [lia|]. destruct (identifier_char c); [|simpl; lia].
  destruct (scan_identifier rest) as [text others]. simpl in *. lia.
Qed.

Lemma scan_identifier_char c rest :
  identifier_char c = true -> length (snd (scan_identifier (c :: rest))) <= length rest.
Proof.
  intros Hc. pose proof (scan_identifier_length rest) as Hl. simpl. rewrite Hc.
  by destruct (scan_identifier rest).
Qed.

Lemma skip_line_length chars p : length (fst (skip_line chars p)) <= length chars.
Proof.
  revert p. induction chars as [|c rest IH]; intros p; simpl; [lia|]. case_bool_decide; simpl; [lia|].
  specialize (IH (past c p)). lia.
Qed.

Lemma string_body_length quote start chars p text others p' :
  string_body quote start chars p = Ok (text, others, p') -> length others < length chars.
Proof.
  revert p text. induction chars as [chars IH] using (induction_ltof1 _ (@length _)). unfold ltof in IH.
  intros p text. destruct chars as [|c rest]; simpl; [done|].
  case_bool_decide; [intros [= <- <- <-]; lia|]. case_bool_decide.
  - destruct rest as [|d rest']; [done|].
    destruct (string_body _ _ rest' _) as [[[t o] q]|e|] eqn:E; simpl; [|done..].
    intros [= <- <- <-]. apply IH in E; simpl in *; lia.
  - destruct (string_body _ _ rest _) as [[[t o] q]|e|] eqn:E; simpl; [|done..].
    intros [= <- <- <-]. apply IH in E; simpl in *; lia.
Qed.

Lemma string_body_total quote start chars p : string_body quote start chars p <> Panic.
Proof.
  revert p. induction chars as [chars IH] using (induction_ltof1 _ (@length _)). unfold ltof in IH.
  intros p. destruct chars as [|c rest]; simpl; [done|]. case_bool_decide; [done|]. case_bool_decide.
  - destruct rest as [|d rest']; [done|]. specialize (IH rest'). simpl in IH.
    destruct (string_body _ _ rest' _) as [[[t o] q]|e|] eqn:E; simpl; [done..|].
    exfalso. by eapply IH; [lia|].
  - specialize (IH rest). simpl in IH.
    destruct (string_body _ _ rest _) as [[[t o] q]|e|] eqn:E; simpl; [done..|].
    exfalso. by eapply IH; [lia|].
Qed.

Lemma punctuation_total c next line column :
  match punctuation c next line column with Ok (_, n) => 1 <= n | Err _ => True | Panic => False end.
Proof.
  unfold punctuation. destruct (List.find _ _) as [[? ?]|]; [lia|].
  repeat case_bool_decide; simpl; try done; lia.
Qed.

Definition step_total (n : nat) (r : result LexStep CypherError) : Prop :=
  match r with
  | Ok LexDone => n = 0
  | Ok (LexSkip rest _) => length rest < n
  | Ok (LexToken t rest _) => length rest < n
  | Err _ => True
  | Panic => False
  end.

Lemma lex_step_total chars p : step_total (length chars) (lex_step chars p).
Proof.
  destruct chars as [|c rest]; [done|]. unfold lex_step. cbv zeta.
  destruct (is_whitespace c); [simpl; lia|].
  destruct (bool_decide (c = "/") && _) eqn:Hcomment.
  { apply andb_prop in Hcomment as [Hc _]. apply bool_decide_eq_true in Hc as ->.
    cbn [skip_line]. rewrite bool_decide_false by done.
    pose proof (skip_line_length rest (past "/" p)) as Hl. destruct (skip_line rest _). simpl in *. lia. }
  destruct (is_digit c) eqn:Hd.
  { unfold read_number. pose proof (scan_number_digit c rest Hd) as Hl.
    destruct (scan_number (c :: rest)) as [[text []] others]; simpl in Hl |- *.
    - destruct (parse_f64 text); simpl; [lia|done].
    - destruct (parse_i64 text); simpl; [lia|done]. }
  destruct (_ || _).
  { pose proof (string_body_total c {| sp_line := pl_line p; sp_column := pl_idx p - pl_line_start p + 1 |} rest (past c p)) as Ht.
    destruct (string_body _ _ rest _) as [[[text others] p']|e|] eqn:E; simpl; [|done..].
    apply string_body_length in E. lia. }
  destruct (bool_decide (c = "_") || is_alphabetic c) eqn:Ha.
  { unfold read_identifier_or_keyword.
    assert (Hi : identifier_char c = true).
    { unfold identifier_char, is_alphanumeric. unfold is_alphabetic in Ha.
      destruct (bool_decide (c = "_")); [done|]. simpl in *.
      destruct (ascii_byte c); [by rewrite Ha|by rewrite Ha]. }
    pose proof (scan_identifier_char c rest Hi) as Hl. destruct (scan_identifier (c :: rest)). simpl in *. lia. }
  pose proof (punctuation_total c (head rest) (pl_line p) (pl_idx p - pl_line_start p + 1)) as Hp.
  destruct (punctuation _ _ _ _) as [[kind n]|e|]; simpl; [|done..].
  destruct n as [|n]; [lia|]. simpl. rewrite length_drop. lia.
Qed.

(** The tokens end with the sentinel. *)
Definition ended (ts : list Token) : Prop := exists pre t, ts = pre ++ [t] /\ tk_kind t = Eof.

Lemma lex_total fuel chars p :
  length chars < fuel ->
  match lex fuel chars p with Ok ts => ended ts | Err _ => True | Panic => False end.
Proof.
  revert chars p. induction fuel as [|fuel IH]; intros chars p Hl; [lia|]. cbn [lex].
  pose proof (lex_step_total chars p) as Hs. destruct (lex_step chars p) as [step|e|]; simpl; [|done..].
  destruct step as [|rest p'|t rest p']; simpl in Hs.
  - eexists [], _. by split.
  - apply IH. lia.
  - specialize (IH rest p' ltac:(lia)). destruct (lex fuel rest p') as [ts|e|]; simpl; [|done..].
    destruct IH as (pre & t' & -> & Ht). by exists (t :: pre), t'.
Qed.

Lemma tokenize_total input :
  match tokenize input with Ok ts => ended ts | Err _ => True | Panic => False end.
Proof. apply lex_total. lia. Qed.
End Lexer.

(** ** The parser *)

Lemma ended_cons t ts : ts <> [] -> ended (t :: ts) <-> ended ts.
Proof.
  intros Hne. split; intros (pre & t' & Heq & Ht).
  - destruct pre as [|t0 pre]; [injection Heq as -> ->; done|]. injection Heq as -> ->. by exists pre, t'.
  - exists (t :: pre), t'. by rewrite Heq.
Qed.

(** On fewer than [n] tokens: no panic, and what is left is shorter ([works]) or
    at least not longer ([may]). *)
Definition outcome {A} (left_over : list Token -> Prop) (r : result (A * list Token) CypherError) : Prop :=
  match r with Ok (_, ts') => ended ts' /\ left_over ts' | Err _ => True | Panic => False end.
Definition works (n : nat) {A} (m : P A) : Prop :=
  forall ts, ended ts -> length ts < n -> outcome (fun ts' => length ts' < length ts) (m ts).
Definition may (n : nat) {A} (m : P A) : Prop :=
  forall ts, ended ts -> length ts < n -> outcome (fun ts' => length ts' <= length ts) (m ts).

Create HintDb cypher.

Lemma works_may n {A} (m : P A) : works n m -> may n m.
Proof.
  intros Hm ts He Hl. specialize (Hm ts He Hl). destruct (m ts) as [[a ts']|e|]; simpl in *; [|done..].
  destruct Hm. split; [done|lia].
Qed.

Lemma works_fewer n n' {A} (m : P A) : n' <= n -> works n m -> works n' m.
Proof. intros Hn Hm ts He Hl. apply Hm; [done|lia]. Qed.
Lemma may_fewer n n' {A} (m : P A) : n' <= n -> may n m -> may n' m.
Proof. intros Hn Hm ts He Hl. apply Hm; [done|lia]. Qed.

Lemma may_ret n {A} (a : A) : may n (p_ret a).
Proof. intros ts He _. by split. Qed.

Lemma may_error n {A} msg : may n (error_here (A := A) msg).
Proof. intros ts (pre & t & -> & _) _. by destruct pre. Qed.
Lemma works_error n {A} msg : works n (error_here (A := A) msg).
Proof. intros ts (pre & t & -> & _) _. by destruct pre. Qed.

(** After a token is taken, the rest may use one token less. *)
Lemma works_bind n {A B} (m : P A) (k : A -> P B) :
  works (S n) m -> (forall a, may n (k a)) -> works (S n) (p_bind m k).
Proof.
  intros Hm Hk ts He Hl. unfold p_bind. specialize (Hm ts He Hl).
  destruct (m ts) as [[a ts']|e|]; simpl in *; [|done..]. destruct Hm as [He' Hl'].
  specialize (Hk a ts' He' ltac:(lia)). destruct (k a ts') as [[b ts'']|e|]; simpl in *; [|done..].
  destruct Hk. split; [done|lia].
Qed.

Lemma works_then n {A B} (m : P A) (k : A -> P B) :
  may n m -> (forall a, works n (k a)) -> works n (p_bind m k).
Proof.
  intros Hm Hk ts He Hl. unfold p_bind. specialize (Hm ts He Hl).
  destruct (m ts) as [[a ts']|e|]; simpl in *; [|done..]. destruct Hm as [He' Hl'].
  specialize (Hk a ts' He' ltac:(lia)). destruct (k a ts') as [[b ts'']|e|]; simpl in *; [|done..].
  destruct Hk. split; [done|lia].
Qed.

Lemma may_bind n {A B} (m : P A) (k : A -> P B) :
  may n m -> (forall a, may n (k a)) -> may n (p_bind m k).
Proof.
  intros Hm Hk ts He Hl. unfold p_bind. specialize (Hm ts He Hl).
  destruct (m ts) as [[a ts']|e|]; simpl in *; [|done..]. destruct Hm as [He' Hl'].
  specialize (Hk a ts' He' ltac:(lia)). destruct (k a ts') as [[b ts'']|e|]; simpl in *; [|done..].
  destruct Hk. split; [done|lia].
Qed.

Lemma may_peek n : may n peek.
Proof. intros ts He _. destruct ts as [|t ts]; [by destruct He as ([] & ? & ? & ?)|]. by split. Qed.

Lemma advance_ended t ts : ended (t :: ts) -> tk_kind t <> Eof -> ts <> [] /\ advance (t :: ts) = Ok (tt, ts) /\ ended ts.
Proof.
  intros He Ht. assert (Hne : ts <> []).
  { intros ->. destruct He as (pre & t' & Heq & Ht'). destruct pre as [|? pre]; [by injection Heq as ->|].
    injection Heq as _ Heq. by destruct pre. }
  split; [done|]. split; [by destruct ts|]. by eapply ended_cons.
Qed.

(** A match of a token other than the sentinel shortens the rest. *)
Lemma match_kind_outcome k ts :
  k <> Eof -> ended ts ->
  match match_kind k ts with
  | Ok (true, ts') => ended ts' /\ length ts' < length ts
  | Ok (false, ts') => ts' = ts
  | _ => False
  end.
Proof.
  intros Hk He. destruct ts as [|t ts]; [by destruct He as ([] & ? & ? & ?)|].
  unfold match_kind, p_bind, peek. simpl. destruct (is_kind (tk_kind t) k) eqn:Hi; [|done].
  assert (Ht : tk_kind t <> Eof).
  { intros Ht. rewrite Ht in Hi. by destruct k. }
  destruct (advance_ended t ts He Ht) as (Hne & -> & He'). simpl. split; [done|lia].
Qed.

Lemma may_match n k : k <> Eof -> may n (match_kind k).
Proof.
  intros Hk ts He _. pose proof (match_kind_outcome k ts Hk He) as Hm.
  destruct (match_kind k ts) as [[[] ts']|e|]; simpl; [|subst; by split|done..]. destruct Hm. split; [done|lia].
Qed.

(** A branch on a matched token: the branch taken on a match has one token less. *)
Lemma may_match_then n k {B} (yes no : P B) :
  k <> Eof -> may n yes -> may (S n) no -> may (S n) (p_bind (match_kind k) (fun found => if found : bool then yes else no)).
Proof.
  intros Hk Hy Hn ts He Hl. unfold p_bind. pose proof (match_kind_outcome k ts Hk He) as Hm.
  destruct (match_kind k ts) as [[[] ts']|e|]; simpl; [| |done..].
  - destruct Hm as [He' Hl']. specialize (Hy ts' He' ltac:(lia)).
    destruct (yes ts') as [[b ts'']|e|]; simpl in *; [|done..]. destruct Hy. split; [done|lia].
  - subst ts'. by apply Hn.
Qed.

Lemma works_match_then n k {B} (yes no : P B) :
  k <> Eof -> may n yes -> works (S n) no -> works (S n) (p_bind (match_kind k) (fun found => if found : bool then yes else no)).
Proof.
  intros Hk Hy Hn ts He Hl. unfold p_bind. pose proof (match_kind_outcome k ts Hk He) as Hm.
  destruct (match_kind k ts) as [[[] ts']|e|]; simpl; [| |done..].
  - destruct Hm as [He' Hl']. specialize (Hy ts' He' ltac:(lia)).
    destruct (yes ts') as [[b ts'']|e|]; simpl in *; [|done..]. destruct Hy. split; [done|lia].
  - subst ts'. by apply Hn.
Qed.

Lemma works_expect n k label : k <> Eof -> works n (expect k label).
Proof.
  intros Hk. destruct n as [|n]; [intros ts _ Hl; lia|].
  apply works_match_then; [done|apply may_ret|apply works_error].
Qed.

(** A choice on the next token, where every branch that takes it starts with [advance]. *)
Lemma works_choice n {B} (k : TokenKind -> P B) :
  (forall kind, (exists m : P B, k kind = p_bind advance (fun _ => m) /\ kind <> Eof /\ may n m) \/ works (S n) (k kind)) ->
  works (S n) (p_bind peek k).
Proof.
  intros Hk ts He Hl. destruct ts as [|t ts]; [by destruct He as ([] & ? & ? & ?)|].
  unfold p_bind, peek. simpl. destruct (Hk (tk_kind t)) as [(m & -> & Ht & Hm)|Hw].
  - destruct (advance_ended t ts He Ht) as (Hne & Ha & He'). unfold p_bind. rewrite Ha. simpl.
    specialize (Hm ts He' ltac:(simpl in Hl; lia)). destruct (m ts) as [[b ts'']|e|]; simpl in *; [|done..].
    destruct Hm. split; [done|lia].
  - by apply Hw.
Qed.

Lemma works_zero {A} (m : P A) : works 0 m.
Proof. intros ts _ Hl. lia. Qed.

Lemma works_expect_identifier n label : works n (expect_identifier label).
Proof.
  destruct n as [|n]; [apply works_zero|]. apply works_choice. intros kind. destruct kind; try (right; apply works_error).
  left. eexists. split_and!; [done|done|apply may_ret].
Qed.

Lemma works_parse_u64 n label : works n (parse_u64 label).
Proof.
  destruct n as [|n]; [apply works_zero|]. apply works_choice. intros kind. destruct kind; try (right; apply works_error).
  destruct (0 <=? i)%Z; [|right; apply works_error]. left. eexists. split_and!; [done|done|apply may_ret].
Qed.

Lemma works_expect_u32 n label : works n (expect_u32 label).
Proof.
  destruct n as [|n]; [apply works_zero|]. apply works_choice. intros kind. destruct kind; try (right; apply works_error).
  destruct (_ && _); [|right; apply works_error]. left. eexists. split_and!; [done|done|apply may_ret].
Qed.

Lemma may_identifier_here n : may n identifier_here.
Proof.
  intros ts He Hl. destruct ts as [|t ts]; [by destruct He as ([] & ? & ? & ?)|].
  unfold identifier_here, p_bind, peek. simpl. destruct (tk_kind t) eqn:Ht; try by split.
  destruct (advance_ended t ts He ltac:(congruence)) as (Hne & -> & He'). simpl. split; [done|lia].
Qed.

Lemma more_outcome n {A} sep (item : P A) fuel ts :
  sep <> Eof -> works n item -> ended ts -> length ts < S n -> length ts < fuel ->
  outcome (fun ts' => length ts' <= length ts) (more fuel sep item ts).
Proof.
  intros Hsep Hitem. revert ts. induction fuel as [|fuel IH]; intros ts He Hn Hf; [lia|]. cbn [more].
  unfold p_bind at 1. pose proof (match_kind_outcome sep ts Hsep He) as Hm.
  destruct (match_kind sep ts) as [[[] ts']|e|]; simpl; [| subst; by split|done..].
  destruct Hm as [He' Hl']. unfold p_bind. specialize (Hitem ts' He' ltac:(lia)).
  destruct (item ts') as [[a ts1]|e|]; simpl in *; [|done..]. destruct Hitem as [He1 Hl1].
  specialize (IH ts1 He1 ltac:(lia) ltac:(lia)). destruct (more fuel sep item ts1) as [[l ts2]|e|]; simpl in *; [|done..].
  destruct IH. split; [done|lia].
Qed.

Lemma may_more n {A} sep (item : P A) :
  sep <> Eof -> works n item -> may (S n) (fun ts => more (S (length ts)) sep item ts).
Proof. intros Hs Hi ts He Hl. apply (more_outcome n); [done..|lia]. Qed.

Lemma works_separated n {A} sep (item : P A) : sep <> Eof -> works n item -> works n (separated sep item).
Proof.
  intros Hs Hi. destruct n as [|n]; [apply works_zero|]. apply works_bind; [done|]. intros a.
  apply may_bind; [|intros; apply may_ret]. apply (may_fewer (S n)); [lia|].
  apply may_more; [done|]. apply (works_fewer (S n)); [lia|done].
Qed.

Lemma may_separated_until n {A} stop (item : P A) : works n item -> may n (separated_until stop item).
Proof.
  intros Hi. apply may_bind; [apply may_peek|]. intros k. destruct (is_kind k stop); [apply may_ret|].
  by apply works_may, works_separated.
Qed.

Lemma may_optionally n {A} k (m : P A) : k <> Eof -> may n m -> may (S n) (optionally k m).
Proof.
  intros Hk Hm. apply may_match_then; [done| |apply may_ret]. apply may_bind; [done|intros; apply may_ret].
Qed.

(** Proves [may] and [works] of a composition from the hypotheses and the lemmas above. *)
Ltac total_step :=
  match goal with
  | |- may _ (p_ret _) => apply may_ret
  | |- may _ (error_here _) => apply may_error
  | |- works _ (error_here _) => apply works_error
  | |- may _ peek => apply may_peek
  | |- may _ (match_kind _) => apply may_match; done
  | |- works _ (expect _ _) => apply works_expect; done
  | |- works _ (expect_identifier _) => apply works_expect_identifier
  | |- works _ (parse_u64 _) => apply works_parse_u64
  | |- works _ (expect_u32 _) => apply works_expect_u32
  | |- may _ identifier_here => apply may_identifier_here
  | |- may _ (separated_until _ _) => apply may_separated_until
  | |- works _ (separated _ _) => apply works_separated; [done|]
  | |- may (S _) (optionally _ _) => apply may_optionally; [done|]
  | H : works ?n ?m |- works ?n ?m => exact H
  | H : works ?n ?m |- works ?k ?m => apply (works_fewer n); [lia|exact H]
  | |- may _ (p_bind _ _) => apply may_bind; [|intro]
  | |- may _ (if ?b then _ else _) => destruct b
  | |- may _ (match ?x with _ => _ end) => destruct x
  | |- may _ (let '_ := ?x in _) => destruct x
  | |- may _ _ => apply works_may
  end.
Ltac total := repeat total_step.

Section Grammar.
Variable n : nat.
Variable expr : P Expression.
Hypothesis Hexpr : works n expr.

Lemma works_property_entry : works (S n) (parse_property_entry expr).
Proof. unfold parse_property_entry. apply works_bind; [total|]. intros key. total. Qed.

Lemma works_property_map : works (S n) (parse_property_map expr).
Proof.
  pose proof works_property_entry as He. unfold parse_property_map. apply works_bind; [total|]. intros _. total.
Qed.

Lemma may_property_map_here : may (S n) (property_map_here expr).
Proof. pose proof works_property_map as Hm. unfold property_map_here. total. Qed.

Lemma works_node_pattern : works (S n) (parse_node_pattern expr).
Proof.
  pose proof (may_fewer (S n) n _ ltac:(lia) may_property_map_here) as Hp.
  unfold parse_node_pattern. apply works_bind; [total|]. intros _.
  apply may_bind; [total|intros v]. apply may_bind; [|intros l].
  { apply (may_fewer (S n)); [lia|]. total. }
  apply may_bind; [done|intros p]. total.
Qed.

Lemma may_hop_range m : may m parse_hop_range.
Proof. unfold parse_hop_range. total. Qed.

Lemma may_relationship_detail : may (S n) (parse_relationship_detail expr).
Proof.
  unfold parse_relationship_detail. apply may_bind; [total|intros v]. apply may_bind; [total|intros ty].
  apply may_bind; [apply may_optionally; [done|apply may_hop_range]|intros r].
  apply may_bind; [apply may_property_map_here|intros ps]. total.
Qed.

Lemma works_relationship_pattern : works (S n) (parse_relationship_pattern expr).
Proof.
  unfold parse_relationship_pattern. intros ts He Hl. unfold p_bind at 1.
  pose proof (match_kind_outcome LtDash ts ltac:(done) He) as Hm.
  assert (Hrest : forall b, may n (pdo detail <- optionally LBracket (parse_relationship_detail expr);
    pdo ends_right <- match_kind DashGt;
    pdo! (if ends_right : bool then p_ret tt else expect Dash "- or ->");
    (let '(variable, types, properties, range) := default (None, [], [], None) detail in
     let pattern direction := {|
       rp_variable := variable; rp_direction := direction; rp_types := types; rp_properties := properties;
       rp_range := range |} in
     match b, ends_right with
     | false, true => p_ret (pattern Outgoing)
     | true, false => p_ret (pattern Incoming)
     | false, false => p_ret (pattern Either)
     | true, true => error_here "relationship cannot be both <- and -> directional"
     end))).
  { intros b. apply may_bind; [|intros detail].
    - apply (may_fewer (S (S n))); [lia|]. apply may_optionally; [done|apply may_relationship_detail].
    - apply may_bind; [total|intros er]. apply may_bind; [total|intros _].
      destruct (default _ detail) as [[[v ty] ps] r]. cbv zeta. destruct b, er; total. }
  destruct (match_kind LtDash ts) as [[[] ts1]|e|]; simpl in Hm; [| |done..].
  - destruct Hm as [He1 Hl1]. specialize (Hrest true ts1 He1 ltac:(lia)). simpl.
    unfold p_bind at 1. cbn [p_ret result_bind].
    match goal with |- outcome _ ?x => destruct x as [[a ts2]|e|] end; simpl in *; [|done..].
    destruct Hrest. split; [done|lia].
  - subst ts1. refine (works_bind n (expect Dash "- or <-") _ _ (fun _ => Hrest false) ts He Hl). total.
Qed.

Lemma parse_steps_outcome fuel ts :
  ended ts -> length ts < S n -> length ts < fuel ->
  outcome (fun ts' => length ts' <= length ts) (parse_steps expr fuel ts).
Proof.
  revert ts. induction fuel as [|fuel IH]; intros ts He Hn Hf; [lia|]. cbn [parse_steps].
  unfold p_bind at 1. pose proof (may_peek (S n) ts He Hn) as Hp. destruct (peek ts) as [[k ts0]|e|] eqn:Epeek; simpl in *; [|done..].
  assert (ts0 = ts) as -> by (destruct ts; [done|by injection Epeek as _ <-]). clear Hp.
  destruct (_ || _); [|by split]. unfold p_bind.
  pose proof (works_relationship_pattern ts He Hn) as Hr.
  destruct (parse_relationship_pattern expr ts) as [[r ts1]|e|]; simpl in *; [|done..]. destruct Hr as [He1 Hl1].
  pose proof (works_node_pattern ts1 He1 ltac:(lia)) as Hnode.
  destruct (parse_node_pattern expr ts1) as [[nd ts2]|e|]; simpl in *; [|done..]. destruct Hnode as [He2 Hl2].
  specialize (IH ts2 He2 ltac:(lia) ltac:(lia)). destruct (parse_steps expr fuel ts2) as [[l ts3]|e|]; simpl in *; [|done..].
  destruct IH. split; [done|lia].
Qed.

Lemma works_path_pattern : works (S n) (parse_path_pattern expr).
Proof.
  unfold parse_path_pattern. apply works_bind; [apply works_node_pattern|]. intros start.
  apply may_bind; [|intros; apply may_ret]. intros ts He Hl. apply parse_steps_outcome; [done|lia|lia].
Qed.

Lemma parse_matches_outcome fuel ts :
  ended ts -> length ts < S n -> length ts < fuel ->
  outcome (fun ts' => length ts' <= length ts) (parse_matches expr fuel ts).
Proof.
  revert ts. induction fuel as [|fuel IH]; intros ts He Hn Hf; [lia|]. cbn [parse_matches].
  unfold p_bind at 1. pose proof (may_match (S n) KwOptional ltac:(done) ts He Hn) as Ho.
  destruct (match_kind KwOptional ts) as [[o ts1]|e|]; simpl in *; [|done..]. destruct Ho as [He1 Hl1].
  unfold p_bind at 1. pose proof (match_kind_outcome KwMatch ts1 ltac:(done) He1) as Hm.
  destruct (match_kind KwMatch ts1) as [[[] ts2]|e|]; simpl in *; [| |done..].
  - destruct Hm as [He2 Hl2]. unfold p_bind.
    pose proof (works_separated (S n) Comma (parse_path_pattern expr) ltac:(done) works_path_pattern ts2 He2 ltac:(lia)) as Hp.
    unfold parse_path_patterns. destruct (separated _ _ ts2) as [[ps ts3]|e|]; simpl in *; [|done..].
    destruct Hp as [He3 Hl3]. specialize (IH ts3 He3 ltac:(lia) ltac:(lia)).
    destruct (parse_matches expr fuel ts3) as [[l ts4]|e|]; simpl in *; [|done..]. destruct IH. split; [done|lia].
  - subst ts2. destruct o; [|by split]. destruct He1 as ([] & ? & -> & ?); done.
Qed.

Lemma may_match_clauses missing : may (S n) (parse_match_clauses expr missing).
Proof.
  unfold parse_match_clauses. apply may_bind; [|intros l; total].
  intros ts He Hl. apply parse_matches_outcome; [done|lia|lia].
Qed.

Lemma works_subquery : works (S n) (parse_subquery expr).
Proof.
  unfold parse_subquery. apply works_bind; [total|]. intros _.
  apply may_bind; [|intros matches].
  { apply (may_fewer (S n)); [lia|]. apply may_match_clauses. }
  apply may_bind; [|intros w; total]. apply (may_fewer (S n)); [lia|]. total.
Qed.

(** *** Expressions *)

Context `{CypherText}.

Lemma works_function_arg : works n (parse_function_arg expr).
Proof.
  destruct n as [|m] eqn:En; [apply works_zero|]. unfold parse_function_arg.
  apply works_match_then; [done|apply may_ret|]. apply works_bind; [total|intros; apply may_ret].
Qed.

Lemma may_after_name name : may n
  (pdo call <- match_kind LParen;
   if call : bool then
     (pdo arguments <- separated_until RParen (parse_function_arg expr);
      pdo! expect RParen ")";
      p_ret (EFunctionCall name arguments))
   else
     (pdo path <- optionally Dot (separated Dot (expect_identifier "property"));
      p_ret (match path with Some path => EProperty name path | None => EVariable name end))).
Proof.
  pose proof works_function_arg as Ha. destruct n as [|m] eqn:En; [intros ts _ Hl; lia|].
  apply may_match_then; [done| |].
  - apply (may_fewer (S m)); [lia|]. total.
  - apply may_bind; [|intros; apply may_ret]. apply may_optionally; [done|]. total.
Qed.

Lemma works_primary : works (S n) (parse_primary expr).
Proof.
  unfold parse_primary. apply works_choice. intros kind.
  destruct kind; try (right; apply works_error);
    (left; eexists; split; [reflexivity|]; split; [done|]);
    first [apply may_after_name | total].
Qed.

Lemma works_comparison : works (S n) (parse_comparison expr).
Proof.
  pose proof works_primary as Hp. unfold parse_comparison. apply works_bind; [done|]. intros lhs.
  apply may_bind; [total|intros is_null]. destruct is_null; [total|].
  intros ts He Hl. destruct ts as [|t ts]; [by destruct He as ([] & ? & ? & ?)|].
  unfold p_bind at 1. cbn [peek result_bind].
  destruct (comparison_op (tk_kind t)) eqn:Eop.
  { assert (Ht : tk_kind t <> Eof) by (intros Ht; by rewrite Ht in Eop).
    destruct (advance_ended t ts He Ht) as (_ & Ha & He'). unfold p_bind at 1. rewrite Ha. cbn [result_bind].
    refine ((_ : outcome _ _)). pose proof (works_may _ _ (works_fewer (S n) n _ ltac:(lia) Hp)) as Hp'.
    assert (Hm : may n (pdo rhs <- parse_primary expr; p_ret (EComparison c lhs rhs))) by total.
    specialize (Hm ts He' ltac:(simpl in Hl; lia)).
    match goal with |- outcome _ ?x => destruct x as [[a ts']|e|] end; simpl in *; [|done..]. destruct Hm. split; [done|lia]. }
  assert (Hw : forall op label, tk_kind t <> Eof ->
    outcome (fun ts' => length ts' <= length (t :: ts))
      ((pdo! advance; pdo! expect KwWith label; pdo rhs <- parse_primary expr; p_ret (EComparison op lhs rhs)) (t :: ts))).
  { intros op label Ht. destruct (advance_ended t ts He Ht) as (_ & Ha & He'). unfold p_bind at 1. rewrite Ha.
    cbn [result_bind].
    assert (Hm : may n (pdo! expect KwWith label; pdo rhs <- parse_primary expr; p_ret (EComparison op lhs rhs))) by total.
    specialize (Hm ts He' ltac:(simpl in Hl; lia)).
    match goal with |- outcome _ ?x => destruct x as [[a ts']|e|] end; simpl in *; [|done..]. destruct Hm. split; [done|lia]. }
  destruct (is_kind (tk_kind t) KwStarts) eqn:Es; [apply Hw; intros Ht; by rewrite Ht in Es|].
  destruct (is_kind (tk_kind t) KwEnds) eqn:Ee; [apply Hw; intros Ht; by rewrite Ht in Ee|]. by split.
Qed.

Lemma parse_negation_outcome fuel ts :
  ended ts -> length ts < S n -> length ts < fuel ->
  outcome (fun ts' => length ts' < length ts) (parse_negation expr fuel ts).
Proof.
  revert ts. induction fuel as [|fuel IH]; intros ts He Hn Hf; [lia|]. cbn [parse_negation].
  unfold p_bind at 1. pose proof (match_kind_outcome KwNot ts ltac:(done) He) as Hnot.
  destruct (match_kind KwNot ts) as [[b ts1]|e|]; simpl in *; [|by destruct b + done..].
  assert (He1 : ended ts1 /\ length ts1 <= length ts /\ (b = true -> length ts1 < length ts))
    by (destruct b; [destruct Hnot; split_and!; [done|lia|done]|subst; by split_and!]).
  destruct He1 as (He1 & Hl1 & Hlt). unfold p_bind at 1.
  pose proof (match_kind_outcome KwExists ts1 ltac:(done) He1) as Hex.
  destruct (match_kind KwExists ts1) as [[[] ts2]|e|]; simpl in *; [| |done..].
  - destruct Hex as [He2 Hl2]. unfold p_bind. pose proof (works_subquery ts2 He2 ltac:(lia)) as Hs.
    destruct (parse_subquery expr ts2) as [[sq ts3]|e|]; simpl in *; [|done..]. destruct Hs. split; [done|lia].
  - subst ts2. destruct b.
    + specialize (Hlt eq_refl). unfold p_bind. specialize (IH ts1 He1 ltac:(lia) ltac:(lia)).
      destruct (parse_negation expr fuel ts1) as [[i ts3]|e|]; simpl in *; [|done..]. destruct IH. split; [done|lia].
    + subst ts1. by apply works_comparison.
Qed.

Lemma works_negation : works (S n) (negation expr).
Proof. intros ts He Hl. apply parse_negation_outcome; [done|lia|lia]. Qed.

Lemma separated_nonempty {A} sep (item : P A) ts l ts' : separated sep item ts = Ok (l, ts') -> l <> [].
Proof.
  unfold separated, p_bind. destruct (item ts) as [[a ts1]|e|]; cbn [result_bind]; [|done..].
  destruct (more _ sep item ts1) as [[l2 ts2]|e|]; cbn [result_bind]; [|done..]. by intros [= <- _].
Qed.

Lemma works_folded {A} m sep (item : P A) (f : A -> A -> A) :
  sep <> Eof -> works m item ->
  works m (pdo operands <- separated sep item;
           match operands with [] => fun _ => Panic | first :: rest => p_ret (fold_left f rest first) end).
Proof.
  intros Hs Hi ts He Hl. unfold p_bind. pose proof (works_separated m sep item Hs Hi ts He Hl) as Hw.
  destruct (separated sep item ts) as [[l ts']|e|] eqn:E; simpl in *; [|done..].
  apply separated_nonempty in E. by destruct l.
Qed.

Lemma works_conjunction : works (S n) (parse_conjunction expr).
Proof. apply works_folded; [done|apply works_negation]. Qed.

Lemma works_disjunction : works (S n) (parse_disjunction expr).
Proof. apply works_folded; [done|apply works_conjunction]. Qed.
End Grammar.

Section Query.
Context `{CypherText}.

Lemma works_parse_expression fuel : works fuel (parse_expression fuel).
Proof.
  induction fuel as [|fuel IH]; [apply works_zero|].
  exact (works_disjunction fuel (parse_expression fuel) IH).
Qed.

Lemma works_expression n : works n expression.
Proof. intros ts He _. apply works_parse_expression; [done|lia]. Qed.

Lemma parse_query_total ts : ended ts -> parse_query ts <> Panic.
Proof.
  intros He. assert (Hm : may (S (length ts)) parse_query).
  { pose proof (works_expression (S (length ts))) as Hx. unfold parse_query. apply may_bind; [|intros _].
    { unfold reject_unsupported_top_level. apply may_bind; [total|intros k]. destruct k; total. by intros ? ? ?. }
    apply may_bind; [apply may_match_clauses, works_expression|intros ms].
    apply may_bind; [total|intros w]. apply may_bind; [total|intros _].
    apply may_bind; [|intros rc].
    { unfold parse_return_clause, parse_return_item. apply may_bind; [total|intros d].
      apply may_bind; [|intros; total]. apply works_may, works_separated; [done|].
      apply works_bind; [done|intros e]. apply may_bind; [|intros; total]. apply (may_fewer (S (length ts))); [lia|]. total. }
    apply may_bind; [|intros ob].
    { apply may_optionally; [done|]. unfold parse_sort_items, parse_sort_item. apply may_bind; [total|intros _].
      apply works_may, works_separated; [done|]. destruct (length ts); [apply works_zero|].
      apply works_bind; [apply works_expression|intros e]. total. }
    apply may_bind; [total|intros sk]. apply may_bind; [total|intros li]. total. }
  specialize (Hm ts He ltac:(lia)). by destruct (parse_query ts).
Qed.

(** C40. Every text is answered: reading a query stops and yields either a query
    or an error with its position or clause, never a panic or an endless loop, for
    every text, in particular for unterminated strings, numbers that overflow and
    truncated input; the token bounds of the model's loops and of its recursion
    are never reached.  (The depth of the recursion is the nesting of the text,
    which the stack of the program must hold.) *)
Theorem parsing_terminates (input : string) :
  exists r : Query + CypherError, parse_cypher input = match r with inl q => Ok q | inr e => Err e end.
Proof.
  unfold parse_cypher. pose proof (tokenize_total input) as Ht.
  destruct (tokenize input) as [ts|e|]; cbn [result_bind]; [|by exists (inr e)|done].
  pose proof (parse_query_total ts Ht) as Hp.
  destruct (parse_query ts) as [[q rest]|e|]; cbn [result_bind]; [by exists (inl q)|by exists (inr e)|done].
Qed.
End Query.
