(* ===== verification/CypherPrint.v ===== *)
(** * Cypher: a printer and the round trip through the parser

    Queries are printed with parentheses around operands that are not atoms; the
    parser reads the printed tokens back as the same query. *)

From S2P Require Import Prelude Json Datetime CypherAst CypherLexer CypherParser.
Local Open Scope axon_scope.

(** ** Printing *)

(** Lists of tokens with a separator between them. *)
Definition joined (sep : TokenKind) (l : list (list TokenKind)) : list TokenKind :=
  match l with [] => [] | x :: rest => x ++ flat_map (cons sep) rest end.

Section Patterns.
Context {E : Type} (pr : E -> list TokenKind) (ok : E -> bool).

Definition print_entry (p : PropertyEntry E) : list TokenKind := Identifier (pe_key p) :: Colon :: pr (pe_value p).
Definition print_properties (ps : list (PropertyEntry E)) : list TokenKind :=
  match ps with [] => [] | _ => LBrace :: joined Comma (map print_entry ps) ++ [RBrace] end.
Definition print_name (o : option string) : list TokenKind := match o with Some x => [Identifier x] | None => [] end.
Definition print_node (n : NodePattern E) : list TokenKind :=
  LParen :: print_name (np_variable n)
  ++ match np_label n with Some l => [Colon; Identifier l] | None => [] end
  ++ print_properties (np_properties n) ++ [RParen].
Definition print_types (types : list string) : list TokenKind :=
  match types with [] => [] | _ => Colon :: joined Pipe (map (fun t => [Identifier t]) types) end.
Definition print_range (r : option HopRange) : list TokenKind :=
  match r with Some r => [Star; IntLit (hr_min r); DotDot; IntLit (hr_max r)] | None => [] end.
Definition print_relationship (r : RelationshipPattern E) : list TokenKind :=
  (match rp_direction r with Incoming => LtDash | _ => Dash end) :: LBracket :: print_name (rp_variable r)
  ++ print_types (rp_types r) ++ print_range (rp_range r) ++ print_properties (rp_properties r)
  ++ [RBracket; match rp_direction r with Outgoing => DashGt | _ => Dash end].
Definition print_step (st : PathStep E) : list TokenKind :=
  print_relationship (st_relationship st) ++ print_node (st_node st).
Definition print_path (p : PathPattern E) : list TokenKind := print_node (pt_start p) ++ flat_map print_step (pt_steps p).
Definition print_match (m : MatchClause E) : list TokenKind :=
  (if mc_optional m then [KwOptional] else []) ++ KwMatch :: joined Comma (map print_path (mc_patterns m)).
Definition print_subquery (sq : Subquery E) : list TokenKind :=
  LBrace :: flat_map print_match (sq_matches sq)
  ++ match sq_where_clause sq with Some w => KwWhere :: pr w | None => [] end ++ [RBrace].

(** What the parser can produce. *)
Definition nonempty {A} (l : list A) : bool := match l with [] => false | _ => true end.
Definition range_ok (r : HopRange) : bool :=
  ((1 <=? hr_min r) && (hr_min r <=? hr_max r) && (hr_max r <? 2 ^ 32))%Z.
Definition entries_ok (ps : list (PropertyEntry E)) : bool := forallb (fun p => ok (pe_value p)) ps.
Definition node_ok (n : NodePattern E) : bool := entries_ok (np_properties n).
Definition relationship_ok (r : RelationshipPattern E) : bool :=
  entries_ok (rp_properties r) && match rp_range r with Some r => range_ok r | None => true end.
Definition path_ok (p : PathPattern E) : bool :=
  node_ok (pt_start p) && forallb (fun st => relationship_ok (st_relationship st) && node_ok (st_node st)) (pt_steps p).
Definition match_ok (m : MatchClause E) : bool := nonempty (mc_patterns m) && forallb path_ok (mc_patterns m).
Definition subquery_ok (sq : Subquery E) : bool :=
  nonempty (sq_matches sq) && forallb match_ok (sq_matches sq) &&
  match sq_where_clause sq with Some w => ok w | None => true end.
End Patterns.

Definition atomic_expression (e : Expression) : bool :=
  match e with ELiteral _ | EVariable _ | EProperty _ _ | EParameter _ | EFunctionCall _ _ => true | _ => false end.

Definition print_comparison (op : ComparisonOp) : list TokenKind :=
  match op with
  | CmpEq => [TkEq] | CmpNotEq => [TkNotEq] | CmpLt => [TkLt] | CmpLtEq => [TkLtEq] | CmpGt => [TkGt]
  | CmpGtEq => [TkGtEq] | CmpIn => [KwIn] | CmpContains => [KwContains] | CmpStartsWith => [KwStarts; KwWith]
  | CmpEndsWith => [KwEnds; KwWith]
  end.
Definition print_arg {E} (pr : E -> list TokenKind) (a : FunctionArg E) : list TokenKind :=
  match a with ArgStar => [Star] | ArgExpression e => pr e end.

Fixpoint print_expression (e : Expression) : list TokenKind :=
  let operand e := if atomic_expression e then print_expression e else LParen :: print_expression e ++ [RParen] in
  match e with
  | ELiteral LitNull => [KwNull]
  | ELiteral (LitBool b) => [if b then KwTrue else KwFalse]
  | ELiteral (LitInteger i) => [IntLit i]
  | ELiteral (LitFloat f) => [FloatLit f]
  | ELiteral (LitString s) => [StringLit s]
  | ELiteral (LitList items) => LBracket :: joined Comma (map print_expression items) ++ [RBracket]
  | EVariable x => [Identifier x]
  | EProperty x path => Identifier x :: Dot :: joined Dot (map (fun p => [Identifier p]) path)
  | EParameter x => [Dollar; Identifier x]
  | EExists sq => KwExists :: print_subquery print_expression sq
  | ENotExists sq => KwNot :: KwExists :: print_subquery print_expression sq
  | EBinaryLogical op l r => operand l ++ (match op with LogicalAnd => KwAnd | LogicalOr => KwOr end) :: operand r
  | ENot inner => KwNot :: operand inner
  | EComparison op l r => operand l ++ print_comparison op ++ operand r
  | EIsNull inner negated => operand inner ++ KwIs :: (if negated then [KwNot; KwNull] else [KwNull])
  | EFunctionCall x args => Identifier x :: LParen :: joined Comma (map (print_arg print_expression) args) ++ [RParen]
  end.
Definition print_operand (e : Expression) : list TokenKind :=
  if atomic_expression e then print_expression e else LParen :: print_expression e ++ [RParen].

Fixpoint expression_ok (e : Expression) : bool :=
  match e with
  | ELiteral (LitList items) => forallb expression_ok items
  | ELiteral _ | EVariable _ | EParameter _ => true
  | EProperty _ path => nonempty path
  | EExists sq | ENotExists sq => subquery_ok expression_ok sq
  | EBinaryLogical _ l r | EComparison _ l r => expression_ok l && expression_ok r
  | ENot inner | EIsNull inner _ => expression_ok inner
  | EFunctionCall _ args => forallb (fun a => match a with ArgStar => true | ArgExpression e => expression_ok e end) args
  end.

Definition print_return_item (i : ReturnItem) : list TokenKind :=
  print_expression (ri_expression i) ++ match ri_alias i with Some a => [KwAs; Identifier a] | None => [] end.
Definition print_sort_item (i : SortItem) : list TokenKind :=
  print_expression (si_expression i) ++ [if si_descending i then KwDesc else KwAsc].

Definition print_query (q : Query) : list TokenKind :=
  flat_map (print_match print_expression) (qu_matches q)
  ++ match qu_where_clause q with Some w => KwWhere :: print_expression w | None => [] end
  ++ KwReturn :: (if rc_distinct (qu_return_clause q) then [KwDistinct] else [])
  ++ joined Comma (map print_return_item (rc_items (qu_return_clause q)))
  ++ match qu_order_by q with [] => [] | items => KwOrder :: KwBy :: joined Comma (map print_sort_item items) end
  ++ match qu_skip q with Some n => [KwSkip; IntLit n] | None => [] end
  ++ match qu_limit q with Some n => [KwLimit; IntLit n] | None => [] end.

Definition query_ok (q : Query) : bool :=
  nonempty (qu_matches q) && forallb (match_ok expression_ok) (qu_matches q)
  && match qu_where_clause q with Some w => expression_ok w | None => true end
  && nonempty (rc_items (qu_return_clause q))
  && forallb (fun i => expression_ok (ri_expression i)) (rc_items (qu_return_clause q))
  && forallb (fun i => expression_ok (si_expression i)) (qu_order_by q)
  && match qu_skip q with Some n => 0 <=? n | None => true end%Z
  && match qu_limit q with Some n => 0 <=? n | None => true end%Z.

(** ** Reading tokens *)

(** The tokens [ts] start with tokens of the given kinds, and [rest] follows. *)
Fixpoint kinds_are (ks : list TokenKind) (ts rest : list Token) : Prop :=
  match ks with
  | [] => ts = rest
  | k :: ks' => match ts with t :: ts' => tk_kind t = k /\ kinds_are ks' ts' rest | [] => False end
  end.

(** What follows is a token of a certain kind. *)
Definition follow (F : TokenKind -> bool) (rest : list Token) : Prop :=
  match rest with t :: _ => F (tk_kind t) = true | [] => False end.

(** On fewer than [n] tokens, the parser reads [ks] as [a] when [F] follows. *)
Definition yields (n : nat) {A} (m : P A) (ks : list TokenKind) (a : A) (F : TokenKind -> bool) : Prop :=
  forall ts rest, length ts < n -> kinds_are ks ts rest -> follow F rest -> m ts = Ok (a, rest).

Definition any (_ : TokenKind) : bool := true.
Definition isnt (k k' : TokenKind) : bool := negb (is_kind k' k).

(** The next token after [ks] and [F] is one of [F']. *)
Definition next_in (ks : list TokenKind) (F F' : TokenKind -> bool) : Prop :=
  match ks with k :: _ => F' k = true | [] => forall k, F k = true -> F' k = true end.

Lemma reads_app ks ks' ts rest : kinds_are (ks ++ ks') ts rest -> exists mid, kinds_are ks ts mid /\ kinds_are ks' mid rest.
Proof.
  revert ts. induction ks as [|k ks IH]; intros ts; simpl; [by eauto|].
  destruct ts as [|t ts]; [done|]. intros [Hk (mid & H1 & H2)%IH]. by exists mid.
Qed.

Lemma reads_length ks ts rest : kinds_are ks ts rest -> length ts = length ks + length rest.
Proof.
  revert ts. induction ks as [|k ks IH]; intros ts; simpl; [by intros ->|].
  destruct ts as [|t ts]; [done|]. intros [_ Hr]. simpl. by rewrite (IH ts Hr).
Qed.

Lemma reads_follow ks F F' ts rest : kinds_are ks ts rest -> follow F rest -> next_in ks F F' -> follow F' ts.
Proof.
  destruct ks as [|k ks]; simpl; [intros <- Hf Hn; destruct ts; [done|by apply Hn]|].
  destruct ts as [|t ts]; [done|]. by intros [<- _] _ Hn.
Qed.

Lemma yields_ret n {A} (a : A) F : yields n (p_ret a) [] a F.
Proof. intros ts rest _ Hr _. simpl in Hr. by subst. Qed.

Lemma yields_bind n {A B} (m : P A) (k : A -> P B) ks ks' a b F F' :
  yields n m ks a F -> yields n (k a) ks' b F' -> next_in ks' F' F -> yields n (p_bind m k) (ks ++ ks') b F'.
Proof.
  intros Hm Hk Hn ts rest Hl (mid & H1 & H2)%reads_app Hf. unfold p_bind.
  rewrite (Hm ts mid Hl H1 (reads_follow _ _ _ _ _ H2 Hf Hn)). simpl.
  apply (Hk mid rest); [|done..]. apply reads_length in H1. lia.
Qed.

(** The rest of a parser that has taken a token. *)
Lemma yields_then n {A B} (m : P A) (k : A -> P B) ks ks' a b F F' :
  ks <> [] -> yields (S n) m ks a F -> yields n (k a) ks' b F' -> next_in ks' F' F ->
  yields (S n) (p_bind m k) (ks ++ ks') b F'.
Proof.
  intros Hne Hm Hk Hn ts rest Hl (mid & H1 & H2)%reads_app Hf. unfold p_bind.
  rewrite (Hm ts mid Hl H1 (reads_follow _ _ _ _ _ H2 Hf Hn)). simpl.
  apply (Hk mid rest); [|done..]. apply reads_length in H1. destruct ks; [done|]. simpl in H1. lia.
Qed.

Lemma yields_fewer n n' {A} (m : P A) ks a F : n' <= n -> yields n m ks a F -> yields n' m ks a F.
Proof. intros Hn Hm ts rest Hl. apply Hm. lia. Qed.

Lemma yields_follow n {A} (m : P A) ks a F F' :
  (forall k, F' k = true -> F k = true) -> yields n m ks a F -> yields n m ks a F'.
Proof. intros HF Hm ts rest Hl Hr Hf. apply Hm; [done..|]. destruct rest; [done|]. by apply HF. Qed.

Lemma is_kind_refl k : is_kind k k = true.
Proof. by destruct k. Qed.

Lemma advance_over t ts : ts <> [] -> advance (t :: ts) = Ok (tt, ts).
Proof. by destruct ts. Qed.

Lemma follow_nonempty F rest : follow F rest -> rest <> [].
Proof. by destruct rest. Qed.

Lemma yields_match n k : yields n (match_kind k) [k] true any.
Proof.
  intros ts rest _ Hr Hf. destruct ts as [|t ts]; [done|]. destruct Hr as [Hk Hr]. simpl in Hr. subst ts.
  unfold match_kind, p_bind, peek. simpl. rewrite Hk, is_kind_refl, advance_over by by eapply follow_nonempty. done.
Qed.

Lemma yields_no_match n k : yields n (match_kind k) [] false (isnt k).
Proof.
  intros ts rest _ Hr Hf. simpl in Hr. subst ts. destruct rest as [|t rest]; [done|].
  unfold match_kind, p_bind, peek. simpl in *. unfold isnt in Hf. by destruct (is_kind _ _).
Qed.

Lemma yields_expect n k label : yields n (expect k label) [k] tt any.
Proof.
  unfold expect. change [k] with ([k] ++ []). eapply yields_bind; [apply yields_match|apply yields_ret|done].
Qed.

(** A choice on the next token that takes it. *)
Lemma yields_peek_advance n {A} (k : TokenKind -> P A) (m : P A) kind ks a F :
  k kind = (pdo! advance; m) -> yields n m ks a F -> yields (S n) (p_bind peek k) (kind :: ks) a F.
Proof.
  intros Hk Hm ts rest Hl Hr Hf. destruct ts as [|t ts]; [done|]. destruct Hr as [Ht Hr].
  unfold p_bind at 1. cbn [peek result_bind]. rewrite Ht, Hk. unfold p_bind. rewrite advance_over.
  - apply Hm; [simpl in Hl; lia|done..].
  - apply reads_length in Hr. destruct ts; [|done]. destruct rest; [done|simpl in Hr; lia].
Qed.

Lemma yields_peek n {A} (k : TokenKind -> P A) ks a F :
  (forall kind, (match ks with k0 :: _ => kind = k0 | [] => F kind = true end) -> yields n (k kind) ks a F) ->
  yields n (p_bind peek k) ks a F.
Proof.
  intros Hk ts rest Hl Hr Hf. destruct ts as [|t ts].
  { destruct ks; [simpl in Hr; by subst|done]. }
  unfold p_bind. cbn [peek result_bind]. apply Hk; [|done..].
  destruct ks; simpl in Hr; [by subst|by destruct Hr].
Qed.

Lemma yields_identifier n label x : yields n (expect_identifier label) [Identifier x] x any.
Proof.
  destruct n as [|n]; [intros ts ? Hl; lia|].
  eapply yields_peek_advance; [reflexivity|apply yields_ret].
Qed.

Lemma yields_optionally n {A} k (m : P A) ks a F : yields n m ks a F -> yields n (optionally k m) (k :: ks) (Some a) F.
Proof.
  intros Hm. change (k :: ks) with ([k] ++ ks). eapply yields_bind; [apply yields_match| |by destruct ks].
  rewrite <- (app_nil_r ks). eapply yields_bind; [exact Hm|apply yields_ret|by intros ?].
Qed.

Lemma yields_absent n {A} k (m : P A) : yields n (optionally k m) [] None (isnt k).
Proof. eapply (yields_bind n _ _ [] []); [apply yields_no_match|apply yields_ret|by intros ?]. Qed.

Lemma yields_identifier_here n o F :
  (forall k, F k = true -> isnt (Identifier "") k = true) -> yields n identifier_here (print_name o) o F.
Proof.
  intros HF. destruct n as [|n]; [intros ts ? Hl; lia|]. destruct o as [x|]; simpl.
  - eapply yields_follow; [|eapply yields_peek_advance; [reflexivity|apply yields_ret]]. done.
  - apply yields_peek. intros kind Hk. specialize (HF kind Hk). destruct kind; try apply yields_ret. done.
Qed.

(** ** Lists *)

Section Lists.
Context {A : Type} (n : nat) (sep : TokenKind) (item : P A) (pr : A -> list TokenKind) (FI F : TokenKind -> bool).
Hypothesis HFI : forall k, F k = true -> FI k = true.
Hypothesis Hsep : FI sep = true.
Hypothesis Hstop : forall k, F k = true -> isnt sep k = true.

Lemma next_items (l : list A) : next_in (flat_map (fun x => sep :: pr x) l) F FI.
Proof. destruct l; simpl; [exact HFI|exact Hsep]. Qed.

Lemma more_yields (l : list A) fuel ts rest :
  (forall x, In x l -> yields n item (pr x) x FI) -> length l < fuel -> length ts < n ->
  kinds_are (flat_map (fun x => sep :: pr x) l) ts rest -> follow F rest -> more fuel sep item ts = Ok (l, rest).
Proof.
  intros Hitem. revert fuel ts. induction l as [|x l IH]; intros fuel ts Hf Hl Hr Hfollow;
    (destruct fuel as [|fuel]; [simpl in Hf; lia|]); cbn [more].
  - unfold p_bind at 1. rewrite (yields_no_match n sep ts rest Hl Hr); [done|].
    destruct rest; [done|]. by apply Hstop.
  - cbn [flat_map] in Hr. change (sep :: pr x) with ([sep] ++ pr x) in Hr. rewrite <- app_assoc in Hr.
    apply reads_app in Hr as (ts1 & Hr1 & Hr). apply reads_app in Hr as (ts2 & Hr2 & Hr).
    pose proof (reads_length _ _ _ Hr1). pose proof (reads_length _ _ _ Hr2).
    pose proof (reads_follow _ _ _ _ _ Hr Hfollow (next_items l)) as Hfi.
    unfold p_bind at 1. rewrite (yields_match n sep ts ts1 Hl Hr1).
    2:{ apply follow_nonempty in Hfi. destruct ts1; [|done]. destruct ts2; [done|simpl in *; lia]. }
    cbn [result_bind]. unfold p_bind.
    rewrite (Hitem x (or_introl eq_refl) ts1 ts2); [|simpl in *; lia|done..]. cbn [result_bind].
    rewrite (IH (fun y Hy => Hitem y (or_intror Hy)) fuel ts2); [done|simpl in *; lia|simpl in *; lia|done..].
Qed.

Lemma items_length (l : list A) : length l <= length (flat_map (fun x => sep :: pr x) l).
Proof. induction l as [|x l IH]; simpl; [lia|]. rewrite length_app. lia. Qed.

Lemma joined_cons x (l : list A) : joined sep (map pr (x :: l)) = pr x ++ flat_map (fun y => sep :: pr y) l.
Proof. simpl. f_equal. by rewrite flat_map_concat_map, map_map, <- flat_map_concat_map. Qed.

Lemma yields_separated (l : list A) :
  l <> [] -> (forall x, In x l -> yields n item (pr x) x FI) -> yields n (separated sep item) (joined sep (map pr l)) l F.
Proof.
  destruct l as [|x l]; [done|]. intros _ Hitem. rewrite joined_cons.
  eapply yields_bind; [apply Hitem; by left| |apply next_items].
  rewrite <- (app_nil_r (flat_map _ l)). eapply yields_bind; [|apply yields_ret|].
  - intros ts rest Hl Hr Hf. apply more_yields; [by intros y Hy; apply Hitem; right| |done..].
    pose proof (items_length l). apply reads_length in Hr. lia.
  - by intros ?.
Qed.

Lemma yields_separated_until stop (l : list A) :
  sep = Comma -> F stop = true -> (forall k, F k = true -> is_kind k stop = true) ->
  (forall x, In x l -> yields n item (pr x) x FI) ->
  (forall x, In x l -> match pr x with k :: _ => is_kind k stop = false | [] => False end) ->
  yields n (separated_until stop item) (joined sep (map pr l)) l F.
Proof.
  intros Hcomma HFs Honly Hitem Hfirst. apply yields_peek. intros kind Hk. destruct l as [|x l].
  - rewrite (Honly kind Hk). apply yields_ret.
  - rewrite joined_cons in *. specialize (Hfirst x (or_introl eq_refl)). destruct (pr x) as [|k ks] eqn:Hp; [done|].
    simpl in Hk. subst kind. rewrite Hfirst. rewrite <- Hcomma. change ((k :: ks) ++ ?r) with ((k :: ks) ++ r).
    rewrite <- Hp, <- joined_cons. by apply yields_separated.
Qed.
End Lists.

Lemma yields_last n {A B} (m : P A) (f : A -> B) ks a F : yields n m ks a F -> yields n (p_bind m (fun x => p_ret (f x))) ks (f a) F.
Proof. intros Hm. rewrite <- (app_nil_r ks). eapply yields_bind; [exact Hm|apply yields_ret|by intros ?]. Qed.

(** A token, then the rest on one token less. *)
Lemma yields_token n {A B} (m : P A) (f : A -> P B) k ks a b F :
  yields (S n) m [k] a any -> yields n (f a) ks b F -> yields (S n) (p_bind m f) (k :: ks) b F.
Proof.
  intros Hm Hf. change (k :: ks) with ([k] ++ ks). eapply yields_then; [done|exact Hm|exact Hf|by destruct ks].
Qed.

Lemma yields_token' n {A B} (m : P A) (f : A -> P B) k ks a b F :
  yields n m [k] a any -> yields n (f a) ks b F -> yields n (p_bind m f) (k :: ks) b F.
Proof.
  intros Hm Hf. change (k :: ks) with ([k] ++ ks). eapply yields_bind; [exact Hm|exact Hf|by destruct ks].
Qed.

Definition operand_follow (k : TokenKind) : bool := isnt LParen k && isnt Dot k.
Definition comparison_follow (k : TokenKind) : bool :=
  operand_follow k && isnt KwIs k && match comparison_op k with Some _ => false | None => true end
  && isnt KwStarts k && isnt KwEnds k.
Definition expression_follow (k : TokenKind) : bool := comparison_follow k && isnt KwAnd k && isnt KwOr k.

(** Decides an inclusion of follow sets. *)
Ltac follows := let k := fresh in intros k; destruct k; try done.

Definition starts_expression (k : TokenKind) : bool :=
  isnt RParen k && isnt RBracket k && isnt RBrace k && isnt Star k && isnt KwDistinct k.
Definition starts_operand (k : TokenKind) : bool := starts_expression k && isnt KwNot k && isnt KwExists k.
Definition first_is (F : TokenKind -> bool) (ks : list TokenKind) : Prop :=
  match ks with k :: _ => F k = true | [] => False end.

Lemma first_app F ks ks' : first_is F ks -> first_is F (ks ++ ks').
Proof. by destruct ks. Qed.

Lemma first_operand e : first_is starts_operand (print_operand e).
Proof. unfold print_operand. destruct e; try done. simpl. destruct l; try done. by destruct b. Qed.

Lemma first_expression e : first_is starts_expression (print_expression e).
Proof.
  assert (Ho : forall e, first_is starts_expression (print_operand e)).
  { intros e'. pose proof (first_operand e') as Hf. destruct (print_operand e') as [|k ks]; [done|].
    unfold starts_operand in Hf. simpl in *. by destruct (starts_expression k). }
  destruct e; try done; try (apply first_app, Ho). destruct l; try done. by destruct b.
Qed.

Section Grammar.
Variable n : nat.
Variable expr : P Expression.
Hypothesis IH : forall e, expression_ok e = true -> yields n expr (print_expression e) e expression_follow.

(** *** Patterns *)

Lemma yields_entry p :
  expression_ok (pe_value p) = true ->
  yields n (parse_property_entry expr) (print_entry print_expression p) p expression_follow.
Proof.
  intros Hok. destruct p as [key value]. unfold parse_property_entry, print_entry. simpl in *.
  apply yields_token' with (a := key); [apply yields_identifier|].
  apply yields_token' with (a := tt); [apply yields_expect|].
  apply (yields_last n expr (fun v => {| pe_key := key; pe_value := v |})). by apply IH.
Qed.

Lemma yields_property_map ps :
  ps <> [] -> entries_ok expression_ok ps = true ->
  yields (S n) (parse_property_map expr) (print_properties print_expression ps) ps any.
Proof.
  intros Hne Hok. unfold parse_property_map. destruct ps as [|p ps]; [done|].
  change (print_properties print_expression (p :: ps)) with (LBrace :: joined Comma (map (print_entry print_expression) (p :: ps)) ++ [RBrace]).
  apply yields_token with (a := tt); [apply yields_expect|].
  eapply (yields_bind n _ _ _ [RBrace] (p :: ps) _ (is_kind RBrace)); [| |done].
  - eapply (yields_separated_until n Comma _ (print_entry print_expression) expression_follow); [by follows|done|by follows|done|done|by follows| |].
    + intros x Hx. apply yields_entry. unfold entries_ok in Hok. rewrite forallb_forall in Hok. by apply Hok.
    + done.
  - eapply (yields_last n _ (fun _ => p :: ps)), yields_expect.
Qed.

Lemma yields_properties_here ps F :
  (forall k, F k = true -> isnt LBrace k = true) -> entries_ok expression_ok ps = true ->
  yields (S n) (property_map_here expr) (print_properties print_expression ps) ps F.
Proof.
  intros HF Hok. apply yields_peek. intros kind Hk. destruct ps as [|p ps].
  - specialize (HF kind Hk). unfold isnt in HF. destruct (is_kind kind LBrace); [done|apply yields_ret].
  - simpl in Hk. subst kind. change (is_kind LBrace LBrace) with true. cbv iota.
    eapply yields_follow; [|by apply yields_property_map]. done.
Qed.

Lemma yields_node nd :
  node_ok expression_ok nd = true -> yields (S n) (parse_node_pattern expr) (print_node print_expression nd) nd any.
Proof.
  destruct nd as [v l ps]. unfold node_ok, parse_node_pattern, print_node. simpl. intros Hok.
  apply yields_token with (a := tt); [apply yields_expect|].
  eapply (yields_bind n _ _ _ _ v _ (isnt (Identifier ""))); [by apply yields_identifier_here| |by destruct l, ps].
  eapply (yields_bind n _ _ _ _ l _ (isnt Colon)); [| |by destruct ps].
  { destruct l as [l|]; [|apply yields_absent]. eapply yields_follow; [|apply yields_optionally, yields_identifier]. done. }
  eapply (yields_bind n _ _ _ [RParen] ps _ (isnt LBrace)); [| |done].
  { apply (yields_fewer (S n)); [lia|]. by apply yields_properties_here. }
  eapply (yields_last n _ (fun _ => {| np_variable := v; np_label := l; np_properties := ps |})), yields_expect.
Qed.
Lemma yields_u32 m label i : (0 <=? i)%Z && (i <? 2 ^ 32)%Z = true -> yields m (expect_u32 label) [IntLit i] i any.
Proof.
  intros Hi. destruct m as [|m]; [intros ts ? Hl; lia|].
  eapply yields_peek_advance; [by rewrite Hi|apply yields_ret].
Qed.

Lemma yields_range m r F :
  (forall k, F k = true -> isnt Star k = true) -> match r with Some r => range_ok r | None => true end = true ->
  yields m (optionally Star parse_hop_range) (print_range r) r F.
Proof.
  intros HF Hok. destruct r as [[lo hi]|]; [|by eapply yields_follow; [exact HF|apply yields_absent]].
  unfold range_ok in Hok. simpl in Hok. apply andb_prop in Hok as [[H1 H2]%andb_prop H3].
  assert (Hlo : (0 <=? lo)%Z && (lo <? 2 ^ 32)%Z = true) by lia.
  assert (Hhi : (0 <=? hi)%Z && (hi <? 2 ^ 32)%Z = true) by lia.
  apply yields_optionally. unfold parse_hop_range. simpl.
  eapply yields_token'; [by apply yields_u32|]. eapply yields_token'; [apply yields_expect|].
  eapply yields_token'; [by apply yields_u32|].
  destruct (Z.eqb_spec lo 0); [lia|]. destruct (Z.ltb_spec hi lo); [lia|]. apply yields_ret.
Qed.

Lemma yields_types m types F :
  (forall k, F k = true -> isnt Colon k && isnt Pipe k = true) ->
  exists o, default [] o = types /\
    yields m (optionally Colon (separated Pipe (expect_identifier "relationship type"))) (print_types types) o F.
Proof.
  intros HF. destruct types as [|t types].
  - exists None. split; [done|]. eapply yields_follow; [|apply yields_absent].
    intros k Hk. specialize (HF k Hk). by apply andb_prop in HF as [? _].
  - exists (Some (t :: types)). split; [done|]. apply yields_optionally.
    eapply (yields_separated m Pipe _ (fun t => [Identifier t]) any F).
    + done.
    + done.
    + intros k Hk. specialize (HF k Hk). by apply andb_prop in HF as [_ ?].
    + done.
    + intros x _. apply yields_identifier.
Qed.

Lemma yields_detail v types ps r :
  entries_ok expression_ok ps = true -> match r with Some r => range_ok r | None => true end = true ->
  yields (S n) (parse_relationship_detail expr)
    (print_name v ++ print_types types ++ print_range r ++ print_properties print_expression ps ++ [RBracket])
    (v, types, ps, r) any.
Proof.
  intros Hps Hr. unfold parse_relationship_detail.
  eapply (yields_bind _ _ _ _ _ v _ (isnt (Identifier ""))); [by apply yields_identifier_here| |by destruct types, r, ps].
  destruct (yields_types (S n) types (fun k => isnt Colon k && isnt Pipe k) ltac:(done)) as (o & Ho & Hy).
  eapply yields_bind; [exact Hy| |by destruct r, ps]. cbv beta.
  eapply (yields_bind _ _ _ _ _ r _ (isnt Star)); [by apply yields_range| |by destruct ps].
  eapply (yields_bind _ _ _ _ _ ps _ (isnt LBrace)); [by apply yields_properties_here| |done].
  rewrite Ho. eapply (yields_last _ _ (fun _ => (v, types, ps, r))), yields_expect.
Qed.

Lemma yields_relationship r :
  relationship_ok expression_ok r = true ->
  yields (S n) (parse_relationship_pattern expr) (print_relationship print_expression r) r any.
Proof.
  destruct r as [v d types ps range]. unfold relationship_ok. simpl. intros [Hps Hr]%andb_prop.
  unfold parse_relationship_pattern, print_relationship. cbn [rp_direction rp_variable rp_types rp_range rp_properties].
  set (starts_left := match d with Incoming => true | _ => false end).
  set (ends_right := match d with Outgoing => true | _ => false end).
  (* the rest after the first token *)
  assert (Hrest : yields n (pdo detail <- optionally LBracket (parse_relationship_detail expr);
    pdo er <- match_kind DashGt;
    pdo! (if er : bool then p_ret tt else expect Dash "- or ->");
    (let '(variable, types, properties, range) := default (None, [], [], None) detail in
     let pattern direction := {|
       rp_variable := variable; rp_direction := direction; rp_types := types; rp_properties := properties;
       rp_range := range |} in
     match starts_left, er with
     | false, true => p_ret (pattern Outgoing)
     | true, false => p_ret (pattern Incoming)
     | false, false => p_ret (pattern Either)
     | true, true => error_here "relationship cannot be both <- and -> directional"
     end))
    (LBracket :: print_name v ++ print_types types ++ print_range range ++ print_properties print_expression ps
       ++ [RBracket; match d with Outgoing => DashGt | _ => Dash end])
    {| rp_variable := v; rp_direction := d; rp_types := types; rp_properties := ps; rp_range := range |} any).
  { replace (LBracket :: _) with ((LBracket :: print_name v ++ print_types types ++ print_range range
        ++ print_properties print_expression ps ++ [RBracket]) ++ [match d with Outgoing => DashGt | _ => Dash end])
      by (simpl; by rewrite <- !app_assoc).
    eapply (yields_bind _ _ _ _ _ (Some (v, types, ps, range)) _ any); [| |done].
    { apply yields_optionally, (yields_fewer (S n)); [lia|]. by apply yields_detail. }
    cbn [default]. destruct d; cbn [starts_left].
    - eapply yields_token'; [apply yields_match|]. cbv iota. eapply (yields_bind _ _ _ [] []); [apply yields_ret|apply yields_ret|done].
    - eapply (yields_bind _ _ _ [] [Dash]); [apply yields_no_match| |done]. cbv iota.
      eapply yields_token'; [apply yields_expect|apply yields_ret].
    - eapply (yields_bind _ _ _ [] [Dash]); [apply yields_no_match| |done]. cbv iota.
      eapply yields_token'; [apply yields_expect|apply yields_ret]. }
  destruct d; cbn [starts_left] in Hrest.
  - eapply (yields_bind _ _ _ [] _ false _ (isnt LtDash)); [apply yields_no_match| |done]. cbv iota.
    eapply yields_token; [apply yields_expect|exact Hrest].
  - eapply yields_token; [apply yields_match|]. cbv iota. eapply (yields_bind _ _ _ [] _ tt _ any); [apply yields_ret|exact Hrest|done].
  - eapply (yields_bind _ _ _ [] _ false _ (isnt LtDash)); [apply yields_no_match| |done]. cbv iota.
    eapply yields_token; [apply yields_expect|exact Hrest].
Qed.
Definition path_follow (k : TokenKind) : bool := isnt Dash k && isnt LtDash k.
Definition paths_follow (k : TokenKind) : bool := path_follow k && isnt Comma k.
Definition matches_follow (k : TokenKind) : bool := paths_follow k && isnt KwOptional k && isnt KwMatch k.

Lemma steps_yield l fuel ts rest :
  forallb (fun st => relationship_ok expression_ok (st_relationship st) && node_ok expression_ok (st_node st)) l = true ->
  length l < fuel -> length ts < S n -> kinds_are (flat_map (print_step print_expression) l) ts rest ->
  follow path_follow rest -> parse_steps expr fuel ts = Ok (l, rest).
Proof.
  revert fuel ts. induction l as [|st l IHl]; intros fuel ts Hok Hf Hl Hr Hfollow;
    (destruct fuel as [|fuel]; [simpl in Hf; lia|]); cbn [parse_steps].
  - simpl in Hr. subst ts. destruct rest as [|t rest]; [done|]. unfold p_bind at 1. cbn [peek result_bind].
    simpl in Hfollow. unfold path_follow, isnt in Hfollow.
    by destruct (is_kind _ Dash), (is_kind _ LtDash).
  - simpl in Hok. apply andb_prop in Hok as [[Hrel Hnode]%andb_prop Hok].
    cbn [flat_map] in Hr. unfold print_step in Hr at 1. rewrite <- app_assoc in Hr.
    apply reads_app in Hr as (ts1 & Hr1 & Hr). apply reads_app in Hr as (ts2 & Hr2 & Hr).
    pose proof (reads_length _ _ _ Hr1) as L1. pose proof (reads_length _ _ _ Hr2) as L2.
    assert (Hany : follow any ts2).
    { eapply reads_follow; [exact Hr|exact Hfollow|]. destruct l; [done|]. simpl. by destruct (rp_direction _). }
    assert (Hany1 : follow any ts1) by (destruct ts1; [|done]; destruct ts2; [done|simpl in L2; lia]).
    unfold p_bind at 1. destruct ts as [|t ts]; [done|]. cbn [peek result_bind].
    assert (Hk : is_kind (tk_kind t) Dash || is_kind (tk_kind t) LtDash = true).
    { destruct Hr1 as [-> _]. by destruct (rp_direction _). }
    rewrite Hk. unfold p_bind.
    rewrite (yields_relationship _ Hrel (t :: ts) ts1 Hl Hr1 Hany1). cbn [result_bind].
    rewrite (yields_node _ Hnode ts1 ts2 ltac:(simpl in *; lia) Hr2 Hany). cbn [result_bind].
    rewrite (IHl fuel ts2 Hok); [by destruct st|simpl in *; lia|simpl in *; lia|done..].
Qed.

Lemma yields_path p :
  path_ok expression_ok p = true -> yields (S n) (parse_path_pattern expr) (print_path print_expression p) p path_follow.
Proof.
  destruct p as [start steps]. intros [Hs Hst]%andb_prop. cbn [pt_start pt_steps] in Hs, Hst.
  unfold parse_path_pattern, print_path. cbn [pt_start pt_steps].
  eapply (yields_bind _ _ _ _ _ start _ any); [by apply yields_node| |by destruct steps as [|[[? [] ? ? ?] ?] ?]].
  apply (yields_last _ _ (fun l => {| pt_start := start; pt_steps := l |})).
  intros ts rest Hl Hr Hf. apply steps_yield; [done| |done..].
  assert (length steps <= length (flat_map (print_step print_expression) steps)).
  { clear. induction steps as [|st l IHl]; cbn [flat_map length]; [lia|]. rewrite length_app.
    assert (1 <= length (print_step print_expression st)) by (unfold print_step, print_relationship; simpl; lia). lia. }
  apply reads_length in Hr. lia.
Qed.

Lemma yields_paths ps :
  ps <> [] -> forallb (path_ok expression_ok) ps = true ->
  yields (S n) (parse_path_patterns expr) (joined Comma (map (print_path print_expression) ps)) ps paths_follow.
Proof.
  intros Hne Hok. eapply (yields_separated _ Comma _ (print_path print_expression) path_follow).
  - by follows.
  - done.
  - by follows.
  - done.
  - intros p Hp. rewrite forallb_forall in Hok. apply yields_path. by apply Hok.
Qed.

Lemma first_match_tokens (l : list (MatchClause Expression)) F F' :
  F' KwMatch = true -> F' KwOptional = true -> (forall k, F k = true -> F' k = true) ->
  next_in (flat_map (print_match print_expression) l) F F'.
Proof. intros HM HO HF. destruct l as [|[[] ?] ?]; done. Qed.

Lemma matches_yield l fuel ts rest :
  forallb (match_ok expression_ok) l = true -> length l < fuel -> length ts < S n ->
  kinds_are (flat_map (print_match print_expression) l) ts rest -> follow matches_follow rest ->
  parse_matches expr fuel ts = Ok (l, rest).
Proof.
  revert fuel ts. induction l as [|m l IHl]; intros fuel ts Hok Hf Hl Hr Hfollow;
    (destruct fuel as [|fuel]; [simpl in Hf; lia|]); cbn [parse_matches].
  - simpl in Hr. subst ts. assert (Hno : forall k, follow (isnt k) rest -> match_kind k rest = Ok (false, rest)).
    { intros k Hk. by apply (yields_no_match (S n) k rest rest). }
    destruct rest as [|t rest]; [done|]. simpl in Hfollow. unfold matches_follow in Hfollow.
    apply andb_prop in Hfollow as [[_ Ho]%andb_prop Hm].
    unfold p_bind at 1. rewrite Hno by done. cbn [result_bind]. unfold p_bind at 1. by rewrite Hno.
  - simpl in Hok. apply andb_prop in Hok as [[Hne Hps]%andb_prop Hok]. destruct m as [o ps]. simpl in *.
    unfold print_match in Hr. cbn [mc_optional mc_patterns] in Hr. rewrite <- app_assoc in Hr.
    apply reads_app in Hr as (ts1 & Hr1 & Hr). cbn [app] in Hr.
    destruct ts1 as [|t1 ts1]; [done|]. destruct Hr as [Hk1 Hr]. apply reads_app in Hr as (ts2 & Hr2 & Hr).
    pose proof (reads_length _ _ _ Hr1) as L1. pose proof (reads_length _ _ _ Hr2) as L2.
    assert (Hf2 : follow paths_follow ts2).
    { eapply reads_follow; [exact Hr|exact Hfollow|]. apply first_match_tokens; [done..|by follows]. }
    assert (Hne1 : ts1 <> []) by (apply follow_nonempty in Hf2; destruct ts1; [destruct ts2; [done|simpl in L2; lia]|done]).
    unfold p_bind at 1.
    assert (Hopt : match_kind KwOptional ts = Ok (o, t1 :: ts1)).
    { destruct o; simpl in Hr1.
      - apply (yields_match (S n) KwOptional ts (t1 :: ts1) Hl Hr1). done.
      - subst ts. apply (yields_no_match (S n) KwOptional (t1 :: ts1) (t1 :: ts1) Hl eq_refl). simpl. by rewrite Hk1. }
    rewrite Hopt. cbn [result_bind]. unfold p_bind at 1.
    rewrite (yields_match (S n) KwMatch (t1 :: ts1) ts1); [|simpl in *; lia|done|by destruct ts1].
    cbn [result_bind]. unfold p_bind.
    rewrite (yields_paths ps ltac:(by intros ->) Hps ts1 ts2 ltac:(simpl in *; lia) Hr2 Hf2). cbn [result_bind].
    rewrite (IHl fuel ts2 Hok); [done|lia|simpl in *; lia|done..].
Qed.

Lemma yields_match_clauses missing l :
  l <> [] -> forallb (match_ok expression_ok) l = true ->
  yields (S n) (parse_match_clauses expr missing) (flat_map (print_match print_expression) l) l matches_follow.
Proof.
  intros Hne Hok. unfold parse_match_clauses. rewrite <- (app_nil_r (flat_map _ l)).
  eapply (yields_bind _ _ _ _ _ l _ matches_follow); [| |by intros ?].
  - intros ts rest Hl Hr Hf. apply matches_yield; [done| |done|exact Hr|exact Hf].
    assert (length l <= length (flat_map (print_match print_expression) l)).
    { clear. induction l as [|m l IHl]; cbn [flat_map length]; [lia|]. rewrite length_app.
      assert (1 <= length (print_match print_expression m)) by (unfold print_match; rewrite length_app; simpl; lia). lia. }
    apply reads_length in Hr. lia.
  - destruct l; [done|]. apply yields_ret.
Qed.

Lemma yields_subquery sq :
  subquery_ok expression_ok sq = true ->
  yields (S n) (parse_subquery expr) (print_subquery print_expression sq) sq any.
Proof.
  destruct sq as [ms w]. unfold subquery_ok. simpl. intros [[Hne Hms]%andb_prop Hw]%andb_prop.
  unfold parse_subquery, print_subquery. cbn [sq_matches sq_where_clause].
  eapply yields_token; [apply yields_expect|]. cbv beta.
  eapply (yields_bind n _ _ _ _ ms _ matches_follow); [| |by destruct w].
  { apply (yields_fewer (S n)); [lia|]. apply yields_match_clauses; [by intros ->|done]. }
  eapply (yields_bind n _ _ _ [RBrace] w _ (fun k => is_kind k RBrace)); [| |done].
  { destruct w as [w|].
    - apply yields_optionally. eapply yields_follow; [|by apply IH]. by follows.
    - eapply yields_follow; [|apply yields_absent]. by follows. }
  eapply (yields_last _ _ (fun _ => {| sq_matches := ms; sq_where_clause := w |})), yields_expect.
Qed.
(** *** Expressions *)

Context `{CypherText}.

Lemma yields_arg a :
  match a with ArgStar => true | ArgExpression e => expression_ok e end = true ->
  yields n (parse_function_arg expr) (print_arg print_expression a) a expression_follow.
Proof.
  intros Hok. unfold parse_function_arg. destruct a as [|e]; cbn [print_arg].
  - eapply yields_token'; [apply yields_match|apply yields_ret].
  - pose proof (first_expression e) as Hfirst.
    eapply (yields_bind n _ _ [] (print_expression e) false _ (isnt Star)); [apply yields_no_match| |].
    + cbv iota. apply (yields_last n expr ArgExpression). by apply IH.
    + destruct (print_expression e) as [|k ks]; [done|]. cbn in Hfirst. destruct k; first [reflexivity | discriminate Hfirst].
Qed.

Lemma first_arg a stop :
  stop = RParen -> match print_arg print_expression a with k :: _ => is_kind k stop = false | [] => False end.
Proof.
  intros ->. destruct a as [|e]; [done|]. cbn [print_arg]. pose proof (first_expression e) as Hf.
  destruct (print_expression e) as [|k ks]; [done|]. simpl in Hf. by destruct k.
Qed.

(** A list of expressions in brackets. *)
Lemma yields_items items :
  forallb expression_ok items = true ->
  yields n (separated_until RBracket expr) (joined Comma (map print_expression items)) items (is_kind RBracket).
Proof.
  intros Hok. eapply (yields_separated_until n Comma _ print_expression expression_follow);
    [by follows|done|by follows|done|done|by follows| |].
  - intros x Hx. rewrite forallb_forall in Hok. apply IH. by apply Hok.
  - intros x _. pose proof (first_expression x) as Hf. destruct (print_expression x) as [|k ks]; [done|].
    simpl in Hf. by destruct k.
Qed.

Lemma yields_args args :
  forallb (fun a => match a with ArgStar => true | ArgExpression e => expression_ok e end) args = true ->
  yields n (separated_until RParen (parse_function_arg expr)) (joined Comma (map (print_arg print_expression) args)) args
    (is_kind RParen).
Proof.
  intros Hok. eapply (yields_separated_until n Comma _ (print_arg print_expression) expression_follow);
    [by follows|done|by follows|done|done|by follows| |].
  - intros x Hx. rewrite forallb_forall in Hok. apply yields_arg. by apply (Hok x).
  - intros x _. by apply first_arg.
Qed.

Lemma yields_atom e :
  atomic_expression e = true -> expression_ok e = true ->
  yields (S n) (parse_primary expr) (print_expression e) e operand_follow.
Proof.
  intros Hat Hok. unfold parse_primary. destruct e as [l|x|x path|x| | | | | | |x args]; try done; cbn [print_expression].
  - destruct l as [|[]|i|f|s|items];
      try (eapply yields_peek_advance; [reflexivity|apply yields_ret]).
    eapply yields_peek_advance; [reflexivity|].
    eapply (yields_bind n _ _ _ [RBracket] items _ (is_kind RBracket)); [by apply yields_items| |done].
    eapply (yields_last n _ (fun _ => ELiteral (LitList items))). eapply yields_follow; [|apply yields_expect]. done.
  - eapply yields_peek_advance; [reflexivity|]. cbv beta.
    eapply (yields_bind n _ _ [] [] false _ (isnt LParen)); [apply yields_no_match| |by follows]. cbv iota.
    eapply (yields_last n _ (fun path => match path with Some path => EProperty x path | None => EVariable x end) [] None).
    eapply yields_follow; [|apply yields_absent]. by follows.
  - eapply yields_peek_advance; [reflexivity|]. cbv beta.
    eapply (yields_bind n _ _ [] _ false _ (isnt LParen)); [apply yields_no_match| |done]. cbv iota.
    eapply (yields_last n _ (fun path => match path with Some path => EProperty x path | None => EVariable x end) _ (Some path)).
    apply yields_optionally. eapply (yields_separated n Dot _ (fun p => [Identifier p]) any); [done|done|by follows| |].
    + simpl in Hok. by intros ->.
    + intros y _. apply yields_identifier.
  - eapply yields_peek_advance; [reflexivity|]. eapply (yields_last n _ EParameter).
    eapply yields_follow; [|apply yields_identifier]. done.
  - eapply yields_peek_advance; [reflexivity|]. cbv beta. simpl in Hok.
    eapply yields_token'; [apply yields_match|]. cbv iota.
    eapply (yields_bind n _ _ _ [RParen] args _ (is_kind RParen)); [by apply yields_args| |done].
    eapply (yields_last n _ (fun _ => EFunctionCall x args)). eapply yields_follow; [|apply yields_expect]. done.
Qed.

Lemma yields_operand e :
  expression_ok e = true -> yields (S n) (parse_primary expr) (print_operand e) e operand_follow.
Proof.
  intros Hok. unfold print_operand. destruct (atomic_expression e) eqn:Hat; [by apply yields_atom|].
  eapply yields_peek_advance; [reflexivity|].
  eapply (yields_bind n _ _ _ [RParen] e _ expression_follow); [by apply IH| |done].
  eapply (yields_last n _ (fun _ => e)). eapply yields_follow; [|apply yields_expect]. done.
Qed.

(** A comparison without an operator. *)
Lemma yields_bare m ks e :
  yields m (parse_primary expr) ks e operand_follow -> yields m (parse_comparison expr) ks e comparison_follow.
Proof.
  intros Hp. unfold parse_comparison. rewrite <- (app_nil_r ks).
  eapply (yields_bind m _ _ _ [] e _ operand_follow); [exact Hp| |by follows]. cbv beta.
  eapply (yields_bind m _ _ [] [] false _ (isnt KwIs)); [apply yields_no_match| |by follows]. cbv iota.
  apply yields_peek. intros kind Hk. destruct kind; try done; apply yields_ret.
Qed.

Lemma yields_comparison e :
  expression_ok e = true ->
  match e with EBinaryLogical _ _ _ | ENot _ | EExists _ | ENotExists _ => False | _ => True end ->
  yields (S n) (parse_comparison expr) (print_expression e) e comparison_follow.
Proof.
  intros Hok Hshape. destruct (atomic_expression e) eqn:Hat; [by apply yields_bare, yields_atom|].
  destruct e as [l|x|x path|x|sq|sq|op l r|i|op l r|i neg|x args]; try done; simpl in Hok.
  - apply andb_prop in Hok as [Hl Hr].
    change (print_expression (EComparison op l r)) with (print_operand l ++ print_comparison op ++ print_operand r).
    unfold parse_comparison.
    eapply (yields_bind (S n) _ _ _ _ l _ operand_follow); [by apply yields_operand| |by destruct op]. cbv beta.
    eapply (yields_bind (S n) _ _ [] _ false _ (isnt KwIs)); [apply yields_no_match| |by destruct op]. cbv iota.
    assert (Hrhs : forall op', yields n (pdo rhs <- parse_primary expr; p_ret (EComparison op' l rhs)) (print_operand r)
      (EComparison op' l r) comparison_follow).
    { intros op'. apply (yields_last n _ (EComparison op' l)). apply (yields_fewer (S n)); [lia|].
      eapply yields_follow; [|by apply yields_operand]. by follows. }
    destruct op; (eapply yields_peek_advance; [reflexivity|]); try apply Hrhs;
      (eapply yields_token'; [apply yields_expect|apply Hrhs]).
  - change (print_expression (EIsNull i neg)) with (print_operand i ++ KwIs :: (if neg then [KwNot; KwNull] else [KwNull])).
    unfold parse_comparison.
    eapply (yields_bind (S n) _ _ _ _ i _ operand_follow); [by apply yields_operand| |done]. cbv beta.
    eapply yields_token'; [apply yields_match|]. cbv iota.
    destruct neg.
    + eapply yields_token'; [apply yields_match|]. eapply (yields_last _ _ (fun _ => EIsNull i true)).
      eapply yields_follow; [|apply yields_expect]. done.
    + eapply (yields_bind (S n) _ _ [] _ false _ (isnt KwNot)); [apply yields_no_match| |done].
      eapply (yields_last _ _ (fun _ => EIsNull i false)). eapply yields_follow; [|apply yields_expect]. done.
Qed.

Lemma first_comparison e :
  match e with EBinaryLogical _ _ _ | ENot _ | EExists _ | ENotExists _ => False | _ => True end ->
  first_is starts_operand (print_expression e).
Proof.
  destruct e as [l|x|x path|x|sq|sq|op l r|i|op l r|i neg|x args]; try done; intros _.
  - by destruct l as [|[]| | | |].
  - exact (first_app _ _ _ (first_operand l)).
  - exact (first_app _ _ _ (first_operand i)).
Qed.

(** A negation without [NOT] and [EXISTS]. *)
Lemma negation_bare ks e F fuel ts rest :
  yields (S n) (parse_comparison expr) ks e F -> first_is starts_operand ks -> 0 < fuel -> length ts < S n ->
  kinds_are ks ts rest -> follow F rest -> parse_negation expr fuel ts = Ok (e, rest).
Proof.
  intros Hc Hfirst Hf Hl Hr Hfollow. destruct fuel as [|fuel]; [lia|]. cbn [parse_negation].
  destruct ks as [|k ks]; [done|]. simpl in Hfirst. destruct ts as [|t ts]; [done|].
  assert (Hno : forall k', isnt k' k = true -> match_kind k' (t :: ts) = Ok (false, t :: ts)).
  { intros k' Hk'. apply (yields_no_match (S n) k' (t :: ts) (t :: ts)); [done..|]. destruct Hr as [Hk _]. simpl. by rewrite Hk. }
  unfold starts_operand in Hfirst. apply andb_prop in Hfirst as [[_ H1]%andb_prop H2].
  unfold p_bind at 1. rewrite (Hno KwNot H1). cbn [result_bind]. unfold p_bind at 1. rewrite (Hno KwExists H2).
  cbn [result_bind]. by apply Hc.
Qed.

Lemma yields_negation e :
  expression_ok e = true -> match e with EBinaryLogical _ _ _ => False | _ => True end ->
  yields (S n) (negation expr) (print_expression e) e comparison_follow.
Proof.
  intros Hok Hshape ts rest Hl Hr Hf. unfold negation.
  assert (Hno : forall k0 t tl, isnt k0 (tk_kind t) = true -> match_kind k0 (t :: tl) = Ok (false, t :: tl)).
  { intros k0 t tl Hk. apply (yields_no_match (S (S (length tl))) k0 (t :: tl) (t :: tl)); [simpl; lia|done|done]. }
  destruct e as [l|x|x path|x|sq|sq|op l r|i|op l r|i neg|x args]; try done;
    try (eapply negation_bare; [by apply yields_comparison| |lia|done|exact Hr|exact Hf];
         by apply first_comparison).
  - destruct ts as [|t ts]; [done|]. destruct Hr as [Ht Hr]. cbn [parse_negation length].
    assert (Hne : ts <> []) by (apply reads_length in Hr; destruct ts; [simpl in Hr; lia|done]).
    unfold p_bind at 1. rewrite Hno by by rewrite Ht. cbn [result_bind]. unfold p_bind at 1.
    rewrite (yields_match (S n) KwExists (t :: ts) ts); [|done..|by destruct ts].
    cbn [result_bind]. unfold p_bind. rewrite (yields_subquery sq Hok ts rest); [done|simpl in Hl; lia|done|].
    by destruct rest.
  - destruct ts as [|t ts]; [done|]. destruct Hr as [Ht Hr]. destruct ts as [|t2 ts]; [done|]. destruct Hr as [Ht2 Hr].
    cbn [parse_negation length].
    assert (Hne : ts <> []) by (apply reads_length in Hr; destruct ts; [simpl in Hr; lia|done]).
    unfold p_bind at 1. rewrite (yields_match (S n) KwNot (t :: t2 :: ts) (t2 :: ts)); [|done..].
    cbn [result_bind]. unfold p_bind at 1.
    rewrite (yields_match (S n) KwExists (t2 :: ts) ts); [|simpl in *; lia|done|by destruct ts].
    cbn [result_bind]. unfold p_bind. rewrite (yields_subquery sq Hok ts rest); [done|simpl in Hl; lia|done|].
    by destruct rest.
  - change (print_expression (ENot i)) with (KwNot :: print_operand i) in Hr.
    destruct ts as [|t ts]; [done|]. destruct Hr as [Ht Hr].
    assert (Hfuel : 0 < length (t :: ts)) by (simpl; lia). revert Hfuel. generalize (length (t :: ts)) at 1 2. intros fuel Hfuel.
    cbn [parse_negation]. pose proof (first_operand i) as Hfirst.
    assert (Hne : exists t2 ts2, ts = t2 :: ts2 /\ isnt KwExists (tk_kind t2) = true).
    { destruct (print_operand i) as [|k ks]; [done|]. destruct ts as [|t2 ts2]; [done|]. destruct Hr as [Hk _].
      exists t2, ts2. split; [done|]. rewrite Hk. by apply andb_prop in Hfirst as [_ ?]. }
    destruct Hne as (t2 & ts2 & -> & Hk2).
    unfold p_bind at 1. rewrite (yields_match (S n) KwNot (t :: t2 :: ts2) (t2 :: ts2)); [|done..].
    cbn [result_bind]. unfold p_bind at 1. rewrite Hno by done. cbn [result_bind]. unfold p_bind.
    rewrite (negation_bare (print_operand i) i comparison_follow fuel (t2 :: ts2) rest);
      [done|by apply yields_bare, yields_operand|done|done|simpl in *; lia|done..].
Qed.

(** Operands joined by a logical operator: one, or two. *)
Section Operands.
Context {A : Type} (item : P A) (sep : TokenKind) (f : A -> A -> A) (FI F : TokenKind -> bool).
Hypothesis HFI : forall k, F k = true -> FI k = true.
Hypothesis Hsep : FI sep = true.
Hypothesis Hstop : forall k, F k = true -> isnt sep k = true.
Let folded : P A := pdo operands <- separated sep item;
  match operands with [] => fun _ => Panic | first :: rest => p_ret (fold_left f rest first) end.

Lemma yields_one ks a : yields (S n) item ks a FI -> yields (S n) folded ks a F.
Proof using HFI Hsep Hstop.
  intros Hi. unfold folded. rewrite <- (app_nil_r ks).
  eapply (yields_bind _ _ _ _ [] [a] _ F); [|apply yields_ret|by intros ?].
  replace ks with (joined sep (map (fun _ => ks) [a])) by (simpl; apply app_nil_r).
  eapply (yields_separated _ sep _ (fun _ => ks) FI); [done..|]. by intros x [<-|[]].
Qed.

Lemma yields_two ks ks' a b :
  yields (S n) item ks a FI -> yields (S n) item ks' b FI -> yields (S n) folded (ks ++ sep :: ks') (f a b) F.
Proof using HFI Hsep Hstop.
  intros Ha Hb. unfold folded. rewrite <- (app_nil_r (ks ++ _)).
  eapply (yields_bind _ _ _ _ [] [a; b] _ F); [|apply yields_ret|by intros ?].
  eapply (yields_bind _ _ _ _ _ a _ FI); [exact Ha| |done].
  eapply (yields_last _ _ (fun rest => a :: rest) _ [b]). intros ts rest Hl Hr Hf.
  apply (more_yields (S n) sep item (fun _ => ks') FI F HFI Hsep Hstop [b]); [by intros x [<-|[]]| |done| |done].
  - apply reads_length in Hr. simpl in *. lia.
  - simpl. by rewrite app_nil_r.
Qed.
End Operands.

Definition conjunction_follow (k : TokenKind) : bool := comparison_follow k && isnt KwAnd k.

Lemma operand_negation e :
  expression_ok e = true -> yields (S n) (negation expr) (print_operand e) e comparison_follow.
Proof.
  intros Hok ts rest Hl Hr Hf.
  eapply negation_bare; [by apply yields_bare, yields_operand|apply first_operand|lia|done|exact Hr|exact Hf].
Qed.

Lemma yields_conjunction e :
  expression_ok e = true -> match e with EBinaryLogical LogicalOr _ _ => False | _ => True end ->
  yields (S n) (parse_conjunction expr) (print_expression e) e conjunction_follow.
Proof.
  intros Hok Hshape.
  assert (Hneg : match e with EBinaryLogical _ _ _ => False | _ => True end ->
    yields (S n) (parse_conjunction expr) (print_expression e) e conjunction_follow).
  { intros Hs. apply (yields_one _ KwAnd _ comparison_follow); [by follows|done|by follows|by apply yields_negation]. }
  destruct e as [l|x|x path|x|sq|sq|[] l r|i|op l r|i neg|x args]; try (by apply Hneg).
  simpl in Hok. apply andb_prop in Hok as [Hl Hr].
  change (print_expression (EBinaryLogical LogicalAnd l r)) with (print_operand l ++ KwAnd :: print_operand r).
  apply (yields_two _ KwAnd (EBinaryLogical LogicalAnd) comparison_follow);
    [by follows|done|by follows|by apply operand_negation..].
Qed.

Lemma yields_disjunction e :
  expression_ok e = true -> yields (S n) (parse_disjunction expr) (print_expression e) e expression_follow.
Proof.
  intros Hok.
  assert (Hop : forall e, expression_ok e = true ->
    yields (S n) (parse_conjunction expr) (print_operand e) e conjunction_follow).
  { intros e' He'. apply (yields_one _ KwAnd _ comparison_follow); [by follows|done|by follows|by apply operand_negation]. }
  assert (Hcon : match e with EBinaryLogical LogicalOr _ _ => False | _ => True end ->
    yields (S n) (parse_disjunction expr) (print_expression e) e expression_follow).
  { intros Hs. apply (yields_one _ KwOr _ conjunction_follow); [by follows|done|by follows|by apply yields_conjunction]. }
  destruct e as [l|x|x path|x|sq|sq|[] l r|i|op l r|i neg|x args]; try (by apply Hcon).
  simpl in Hok. apply andb_prop in Hok as [Hl Hr].
  change (print_expression (EBinaryLogical LogicalOr l r)) with (print_operand l ++ KwOr :: print_operand r).
  apply (yields_two _ KwOr (EBinaryLogical LogicalOr) conjunction_follow); [by follows|done|by follows|by apply Hop..].
Qed.
End Grammar.

(** ** Queries *)

Section Queries.
Context `{CypherText}.

Lemma yields_parse_expression fuel e :
  expression_ok e = true -> yields fuel (parse_expression fuel) (print_expression e) e expression_follow.
Proof.
  revert e. induction fuel as [|fuel IH]; intros e Hok; [intros ts ? Hl; lia|].
  exact (yields_disjunction fuel (parse_expression fuel) IH e Hok).
Qed.

Lemma yields_expression n e : expression_ok e = true -> yields n expression (print_expression e) e expression_follow.
Proof. intros Hok ts rest _. apply yields_parse_expression; [done|lia]. Qed.

(** What may follow an item of a [RETURN] or [ORDER BY] list. *)
Definition item_follow (k : TokenKind) : bool := expression_follow k && isnt KwAs k && isnt KwDesc k && isnt KwAsc k.
Definition tail_follow (k : TokenKind) : bool := item_follow k && isnt Comma k.

Lemma yields_return_item n i :
  expression_ok (ri_expression i) = true -> yields n parse_return_item (print_return_item i) i item_follow.
Proof.
  destruct i as [e alias]. unfold parse_return_item, print_return_item. cbn [ri_expression ri_alias]. intros Hok.
  eapply (yields_bind n _ _ _ _ e _ expression_follow); [by apply yields_expression| |].
  - apply (yields_last n _ (fun a => {| ri_expression := e; ri_alias := a |})).
    destruct alias as [a|].
    + apply yields_optionally. eapply yields_follow; [|apply yields_identifier]. done.
    + eapply yields_follow; [|apply yields_absent]. by follows.
  - destruct alias; [done|]. by follows.
Qed.

Lemma yields_sort_item n i :
  expression_ok (si_expression i) = true -> yields n parse_sort_item (print_sort_item i) i item_follow.
Proof.
  destruct i as [e descending]. unfold parse_sort_item, print_sort_item. cbn [si_expression si_descending]. intros Hok.
  eapply (yields_bind n _ _ _ _ e _ expression_follow); [by apply yields_expression| |by destruct descending].
  destruct descending.
  - eapply yields_token'; [apply yields_match|apply yields_ret].
  - eapply (yields_bind n _ _ [] [KwAsc] false _ (isnt KwDesc)); [apply yields_no_match| |done]. cbv iota.
    eapply yields_token'; [apply yields_match|apply yields_ret].
Qed.

Lemma yields_items_list n {A} (item : P A) (pr : A -> list TokenKind) (l : list A) :
  l <> [] -> (forall x, In x l -> yields n item (pr x) x item_follow) ->
  yields n (separated Comma item) (joined Comma (map pr l)) l tail_follow.
Proof.
  intros Hne Hl. eapply (yields_separated n Comma item pr item_follow); [by follows|done|by follows|done|done].
Qed.

Lemma yields_u64 n label i : (0 <=? i)%Z = true -> yields n (parse_u64 label) [IntLit i] i any.
Proof.
  intros Hi. destruct n as [|n]; [intros ts ? Hl; lia|]. eapply yields_peek_advance; [by rewrite Hi|apply yields_ret].
Qed.

Lemma yields_count n k label o F :
  match o with Some i => 0 <=? i | None => true end%Z = true -> (forall k', F k' = true -> isnt k k' = true) ->
  yields n (optionally k (parse_u64 label)) (match o with Some i => [k; IntLit i] | None => [] end) o F.
Proof.
  intros Hi HF. destruct o as [i|].
  - apply yields_optionally. eapply yields_follow; [|by apply yields_u64]. done.
  - eapply yields_follow; [exact HF|apply yields_absent].
Qed.

Lemma yields_query n q : query_ok q = true -> yields n parse_query (print_query q) q (is_kind Eof).
Proof.
  destruct q as [ms w [d items] ob skip lim]. unfold query_ok.
  cbn [qu_matches qu_where_clause qu_return_clause qu_order_by qu_skip qu_limit rc_distinct rc_items].
  rewrite !andb_true_iff. intros (((((((Hne & Hms) & Hw) & Hni) & Hitems) & Hob) & Hskip) & Hlim).
  unfold parse_query, print_query.
  cbn [qu_matches qu_where_clause qu_return_clause qu_order_by qu_skip qu_limit rc_distinct rc_items].
  eapply (yields_bind n _ _ [] _ tt _ (fun k => is_kind k KwMatch || is_kind k KwOptional)).
  { apply yields_peek. intros kind Hk. destruct kind; try done; apply yields_ret. }
  2:{ destruct ms as [|[[] ?] ?]; done. }
  cbv beta. eapply (yields_bind n _ _ _ _ ms _ matches_follow).
  { apply (yields_fewer (S n)); [lia|]. apply yields_match_clauses; [|by intros ->|done].
    intros e He. by apply yields_expression. }
  2:{ by destruct w. }
  eapply (yields_bind n _ _ _ _ w _ (fun k => is_kind k KwReturn)).
  { destruct w as [w|].
    - apply yields_optionally. eapply yields_follow; [|by apply yields_expression]. by follows.
    - eapply yields_follow; [|apply yields_absent]. by follows. }
  2:{ done. }
  eapply yields_token'; [apply yields_expect|]. cbv beta.
  rewrite app_assoc.
  eapply (yields_bind n _ _ _ _ {| rc_distinct := d; rc_items := items |} _ tail_follow).
  { unfold parse_return_clause.
    eapply (yields_bind n _ _ (if d then [KwDistinct] else []) _ d _ (fun k => d || isnt KwDistinct k)).
    - destruct d; [eapply yields_follow; [|apply yields_match]; done|eapply yields_follow; [|apply yields_no_match]; done].
    - apply (yields_last n _ (fun l => {| rc_distinct := d; rc_items := l |})).
      apply yields_items_list; [by intros ->|]. intros x Hx. rewrite forallb_forall in Hitems. apply yields_return_item.
      by apply Hitems.
    - destruct items as [|i items]; [done|]. rewrite joined_cons. pose proof (first_expression (ri_expression i)) as Hf.
      unfold print_return_item at 1. destruct d; [by destruct (print_expression _)|].
      destruct (print_expression (ri_expression i)) as [|k ks]; [done|]. cbn in Hf. by destruct k. }
  2:{ destruct ob, skip, lim; first [done | by follows]. }
  eapply (yields_bind n _ _ _ _ (match ob with [] => None | _ => Some ob end) _ (fun k => tail_follow k && isnt KwOrder k)).
  { destruct ob as [|i ob]; [eapply yields_follow; [|apply yields_absent]; by follows|].
    apply yields_optionally. eapply yields_token'; [apply yields_expect|]. cbv beta.
    eapply yields_follow; [|apply yields_items_list; [done|]].
    - by follows.
    - intros x Hx. rewrite forallb_forall in Hob. apply yields_sort_item. by apply Hob. }
  2:{ destruct skip, lim; first [done | by follows]. }
  eapply (yields_bind n _ _ _ _ skip _ (isnt KwSkip)); [by apply yields_count| |destruct lim; first [done | by follows]].
  rewrite <- (app_nil_r (match lim with Some _ => _ | None => _ end)).
  eapply (yields_bind n _ _ _ _ lim _ (fun k => is_kind k Eof)); [apply yields_count; [done|by follows]| |by follows].
  apply yields_peek. intros kind Hk. destruct kind; try done. by destruct ob; apply yields_ret.
Qed.
End Queries.
