(* ===== verification/CypherRoundtrip.v ===== *)
(** * Cypher: the round trip from queries through text

    The text of a query is read back as the query, through the tokenizer and the
    parser. *)

From S2P Require Import Prelude Json Datetime CypherAst CypherLexer CypherParser CypherPrint.
Local Open Scope axon_scope.

(** ** Characters of a text *)

Lemma chars_head s x xs : chars_of s = x :: xs -> continues x = continues s.
Proof.
  destruct s as [|c rest]; [done|]. simpl. destruct (chars_of rest) as [|y ys]; [by intros [= <- <-]|].
  destruct (continues y); by intros [= <- <-].
Qed.

Lemma chars_nil s : chars_of s = [] -> s = "".
Proof.
  destruct s as [|c rest]; [done|]. simpl. destruct (chars_of rest) as [|y ys]; [done|]. by destruct (continues y).
Qed.

Lemma chars_app s s' : continues s' = false -> chars_of (s +:+ s') = chars_of s ++ chars_of s'.
Proof.
  intros Hs'. induction s as [|c rest IH]; [done|]. change (String c rest +:+ s') with (String c (rest +:+ s')).
  cbn [chars_of]. rewrite IH. destruct (chars_of rest) as [|y ys]; [|simpl; by destruct (continues y)]. simpl.
  destruct (chars_of s') as [|x xs] eqn:E; [done|]. by rewrite (chars_head s' x xs E), Hs'.
Qed.

Lemma concat_cons a l : String.concat "" (a :: l) = a +:+ String.concat "" l.
Proof.
  destruct l as [|b l]; [|done]. simpl. induction a as [|c a IH]; [done|].
  change (String c a +:+ "") with (String c (a +:+ "")). by rewrite <- IH.
Qed.

Lemma chars_concat s : String.concat "" (chars_of s) = s.
Proof.
  induction s as [|c rest IH]; [done|]. cbn [chars_of]. destruct (chars_of rest) as [|y ys].
  - simpl in IH. by rewrite <- IH.
  - destruct (continues y); rewrite !concat_cons in *.
    + change (String c y +:+ ?z) with (String c (y +:+ z)). by rewrite IH.
    + change (String c "" +:+ ?z) with (String c z). by rewrite IH.
Qed.

(** A single character that does not continue another one. *)
Definition proper (x : char) : Prop := chars_of x = [x] /\ continues x = false.

Lemma chars_single s x : In x (chars_of s) -> chars_of x = [x].
Proof.
  revert x. induction s as [|c rest IH]; intros x; [done|]. cbn [chars_of].
  destruct (chars_of rest) as [|y ys]; [by intros [<-|[]]|].
  destruct (continues y) eqn:Ey.
  - intros [<-|Hx]; [|apply IH; by right]. cbn [chars_of]. rewrite (IH y (or_introl eq_refl)). by rewrite Ey.
  - intros [<-|Hx]; [done|by apply IH].
Qed.

Lemma chars_proper s x : continues s = false -> In x (chars_of s) -> proper x.
Proof.
  intros Hs Hx. split; [by eapply chars_single|]. revert Hs x Hx. induction s as [|c rest IH]; intros Hs x; [done|].
  cbn [chars_of]. destruct (chars_of rest) as [|y ys] eqn:E; [by intros [<-|[]]|].
  assert (Hrest : continues rest = false -> forall z, In z (y :: ys) -> continues z = false) by (intros; by eapply IH).
  destruct (continues y) eqn:Ey.
  - intros [<-|Hx]; [done|].
    (* only the first character of a text can be a continuation *)
    assert (Htail : forall s y ys, chars_of s = y :: ys -> forall z, In z ys -> continues z = false).
    { clear. induction s as [|c rest IH]; [done|]. intros y ys. cbn [chars_of].
      destruct (chars_of rest) as [|y' ys'] eqn:E; [by intros [= <- <-]|].
      destruct (continues y') eqn:Ey; intros [= <- <-] z Hz; [by eapply IH|].
      destruct Hz as [<-|Hz]; [done|by eapply IH]. }
    by eapply Htail.
  - intros [<-|Hx]; [done|]. apply Hrest; [|done]. by rewrite <- (chars_head rest y ys E).
Qed.

(** ** Text of tokens *)

Fixpoint decimal (fuel : nat) (n : Z) : string :=
  match fuel with
  | O => ""
  | S fuel' =>
      if (n <? 10)%Z then String (digit_char n) ""
      else decimal fuel' (n / 10) +:+ String (digit_char (n mod 10)) ""
  end.

Definition escape_char (c : char) : string := if bool_decide (c = "'" \/ c = backslash_char) then backslash_char +:+ c else c.
Definition escape_text (s : string) : string := String.concat "" (map escape_char (chars_of s)).

Definition token_text (k : TokenKind) : string :=
  match k with
  | LParen => "(" | RParen => ")" | LBracket => "[" | RBracket => "]" | LBrace => "{" | RBrace => "}" | Comma => ","
  | Colon => ":" | Dot => "." | Pipe => "|" | DotDot => ".." | Star => "*" | Dollar => "$"
  | Dash => "-" | DashGt => "->" | LtDash => "<-"
  | TkEq => "=" | TkNotEq => "<>" | TkLt => "<" | TkLtEq => "<=" | TkGt => ">" | TkGtEq => ">="
  | KwMatch => "MATCH" | KwOptional => "OPTIONAL" | KwWhere => "WHERE" | KwReturn => "RETURN" | KwDistinct => "DISTINCT"
  | KwAs => "AS" | KwOrder => "ORDER" | KwBy => "BY" | KwAsc => "ASC" | KwDesc => "DESC" | KwLimit => "LIMIT"
  | KwSkip => "SKIP" | KwAnd => "AND" | KwOr => "OR" | KwNot => "NOT" | KwExists => "EXISTS" | KwIs => "IS"
  | KwNull => "NULL" | KwTrue => "TRUE" | KwFalse => "FALSE" | KwIn => "IN" | KwContains => "CONTAINS"
  | KwStarts => "STARTS" | KwEnds => "ENDS" | KwWith => "WITH"
  | Identifier s => s
  | StringLit s => "'" +:+ escape_text s +:+ "'"
  | IntLit i => decimal 20 i
  | FloatLit _ | Eof => ""
  end.

(** Every token is followed by a space. *)
Definition tokens_text (ks : list TokenKind) : string := String.concat "" (map (fun k => token_text k +:+ " ") ks).

Definition query_text (q : Query) : string := tokens_text (print_query q).

Section Roundtrip.
Context `{CypherText}.

(** A name that the tokenizer kinds_are as an identifier. *)
Definition identifier_ok (s : string) : bool :=
  negb (continues s) && negb (is_whitespace (default "" (head (chars_of s))))
  && match chars_of s with
     | c :: _ => (bool_decide (c = "_") || is_alphabetic c) && forallb identifier_char (chars_of s)
     | [] => false
     end
  && match word_kind s with Identifier _ => true | _ => false end.

(** A token with a text: fractions have none here. *)
Definition token_ok (k : TokenKind) : bool :=
  match k with
  | Identifier s => identifier_ok s
  | StringLit s => negb (continues s)
  | IntLit i => (0 <=? i)%Z && (i <=? i64_max)%Z
  | FloatLit _ | Eof => false
  | _ => true
  end.
(** *** Numbers *)

Definition digit_text (s : string) : Prop := Forall (fun b => is_ascii_digit b = true) (as_bytes s).

Lemma chars_cons c s : continues s = false -> chars_of (String c s) = String c "" :: chars_of s.
Proof. exact (chars_app (String c "") s). Qed.

Lemma digit_not_continuing s : digit_text s -> continues s = false.
Proof.
  destruct s as [|c s]; [done|]. intros Hd. inversion Hd as [|? ? Hc _]; subst. simpl.
  unfold is_ascii_digit in Hc. lia.
Qed.

Lemma digit_char_one c : is_ascii_digit (byte_of c) = true -> is_digit (String c "") = true.
Proof.
  intros Hc. unfold is_digit, ascii_byte. unfold is_ascii_digit in *.
  destruct (Z.ltb_spec (byte_of c) 128); [done|lia].
Qed.

Lemma scan_digits s rest : digit_text s -> scan_number (chars_of s ++ " " :: rest) = (s, false, " " :: rest).
Proof.
  induction s as [|c s IH]; intros Hd; [done|]. inversion Hd as [|? ? Hc Hs]; subst.
  rewrite chars_cons by by apply digit_not_continuing. cbn [app scan_number].
  rewrite digit_char_one by done. by rewrite IH.
Qed.

Lemma as_bytes_app s s' : as_bytes (s +:+ s') = as_bytes s ++ as_bytes s'.
Proof. induction s as [|c s IH]; [done|]. change (String c s +:+ s') with (String c (s +:+ s')). simpl. by rewrite IH. Qed.

Lemma decimal_digits fuel n :
  (0 <= n < 10 ^ Z.of_nat fuel)%Z -> (0 < fuel)%nat ->
  digit_text (decimal fuel n) /\ digits_value (as_bytes (decimal fuel n)) = n /\ decimal fuel n <> "".
Proof.
  revert n. induction fuel as [|fuel IH]; intros n Hn Hf; [lia|]. cbn [decimal].
  destruct (Z.ltb_spec n 10) as [Hlt|Hge].
  - unfold digit_text, digits_value. simpl. rewrite digit_char_byte by lia. split_and!; [|lia|done].
    constructor; [|constructor]. unfold is_ascii_digit. lia.
  - assert (Hq : (0 <= n / 10 < 10 ^ Z.of_nat fuel)%Z).
    { rewrite Nat2Z.inj_succ, Z.pow_succ_r in Hn by lia. Z.to_euclidean_division_equations; nia. }
    assert (Hm : (0 <= n mod 10 <= 9)%Z) by (Z.to_euclidean_division_equations; lia).
    destruct fuel as [|fuel]; [simpl in Hq; Z.to_euclidean_division_equations; lia|].
    destruct (IH (n / 10)%Z Hq ltac:(lia)) as (Hd & Hv & Hne). revert Hd Hv Hne.
    generalize (decimal (S fuel) (n / 10)). intros q Hd Hv Hne. unfold digit_text, digits_value.
    rewrite as_bytes_app. split_and!.
    + apply Forall_app. split; [done|]. simpl. constructor; [|constructor]. rewrite digit_char_byte by lia.
      unfold is_ascii_digit. lia.
    + rewrite fold_left_app. fold (digits_value (as_bytes q)). rewrite Hv. simpl. rewrite digit_char_byte by lia.
      Z.to_euclidean_division_equations; lia.
    + by destruct q.
Qed.

Lemma parse_decimal i : (0 <= i <= i64_max)%Z -> parse_i64 (decimal 20 i) = Some i /\ digit_text (decimal 20 i) /\ decimal 20 i <> "".
Proof.
  intros Hi. destruct (decimal_digits 20 i) as (Hd & Hv & Hne); [unfold i64_max in Hi; lia|lia|].
  split; [|done]. unfold parse_i64, parse_uint. rewrite Hv.
  replace (forallb is_ascii_digit _) with true by (symmetry; apply forallb_forall, List.Forall_forall, Hd).
  destruct (decimal 20 i) as [|c s]; [done|]. simpl. by rewrite (proj2 (Z.leb_le i i64_max)) by lia.
Qed.

(** *** Strings *)

Lemma string_body_escaped start cs rest p :
  (forall c, In c cs -> proper c) ->
  exists p', string_body "'" start (chars_of (String.concat "" (map escape_char cs)) ++ "'" :: rest) p
    = Ok (String.concat "" cs, rest, p').
Proof.
  revert p. induction cs as [|c cs IH]; intros p Hcs; [by eexists|].
  assert (Hrest : forall l, (forall c, In c l -> proper c) -> continues (String.concat "" (map escape_char l)) = false).
  { intros [|a l] Hl; [done|]. cbn [map]. rewrite concat_cons. destruct (Hl a (or_introl eq_refl)) as [Ha1 Ha2].
    unfold escape_char. case_bool_decide; [done|]. destruct a; [done|]. exact Ha2. }
  cbn [map]. rewrite !concat_cons. rewrite chars_app by (apply Hrest; intros; apply Hcs; by right).
  destruct (Hcs c (or_introl eq_refl)) as [Hc1 Hc2]. unfold escape_char at 1.
  destruct (bool_decide (c = "'" \/ c = backslash_char)) eqn:Ec.
  - apply bool_decide_eq_true in Ec. rewrite (chars_app backslash_char c Hc2), Hc1.
    change (chars_of backslash_char) with [backslash_char]. cbn [app string_body].
    rewrite bool_decide_false by done. rewrite bool_decide_true by done.
    destruct (IH (past c (past backslash_char p)) (fun a Ha => Hcs a (or_intror Ha))) as [p' Hp']. rewrite Hp'.
    exists p'. cbn [result_bind]. by destruct Ec as [-> | ->].
  - apply bool_decide_eq_false in Ec. rewrite Hc1. cbn [app string_body].
    rewrite bool_decide_false by tauto. rewrite bool_decide_false by tauto.
    match goal with |- context [string_body _ _ _ ?q] => destruct (IH q (fun a Ha => Hcs a (or_intror Ha))) as [p' Hp'] end.
    rewrite Hp'. by exists p'.
Qed.

(** *** Tokens *)

Lemma scan_name cs rest :
  forallb identifier_char cs = true -> scan_identifier (cs ++ " " :: rest) = (String.concat "" cs, " " :: rest).
Proof.
  induction cs as [|c cs IH]; [done|]. cbn [forallb]. intros [Hc Hcs]%andb_prop. cbn [app scan_identifier].
  rewrite Hc, IH by done. by rewrite concat_cons.
Qed.

Lemma word_identifier s : match word_kind s with Identifier _ => true | _ => false end = true -> word_kind s = Identifier s.
Proof.
  unfold word_kind. destruct (List.find _ keywords) as [[w k]|] eqn:E; [|done]. apply find_some in E as [Hin _].
  simpl in Hin. intros Hk. repeat destruct Hin as [[= <- <-]|Hin]; done.
Qed.

(** The tokenizer kinds_are the text of a token up to the space behind it. *)
Definition lexes (k : TokenKind) : Prop :=
  forall rest p, exists t p',
    lex_step (chars_of (token_text k) ++ " " :: rest) p = Ok (LexToken t (" " :: rest) p') /\ tk_kind t = k.

Lemma lexes_number i : (0 <= i <= i64_max)%Z -> lexes (IntLit i).
Proof.
  intros Hi rest p. destruct (parse_decimal i Hi) as (Hp & Hd & Hne). cbn [token_text].
  destruct (decimal 20 i) as [|c s] eqn:E; [done|]. pose proof (scan_digits (String c s) rest Hd) as Hscan.
  inversion Hd as [|? ? Hc Hs]; subst. assert (Hch := chars_cons c s (digit_not_continuing s Hs)).
  rewrite Hch in *. cbn [app] in *. cbn [lex_step]. pose proof (digit_char_one c Hc) as Hdigit.
  assert (Hb : (48 <= byte_of c <= 57)%Z) by (unfold is_ascii_digit in Hc; lia).
  replace (is_whitespace (String c "")) with false.
  2:{ unfold is_whitespace, ascii_byte. destruct (Z.ltb_spec (byte_of c) 128); [|lia]. lia. }
  rewrite bool_decide_false by (intros [= ->]; destruct Hb as [Hb _]; vm_compute in Hb; by apply Hb). cbn [andb].
  rewrite Hdigit. unfold read_number. rewrite Hscan, Hp. cbn [result_bind]. by eexists _, _.
Qed.

Lemma lexes_string s : continues s = false -> lexes (StringLit s).
Proof.
  intros Hs rest p. cbn [token_text].
  assert (Hesc : continues (escape_text s +:+ "'") = false).
  { unfold escape_text. destruct (chars_of s) as [|a l] eqn:E; [done|]. cbn [map]. rewrite concat_cons.
    assert (Ha : proper a) by (eapply chars_proper; [exact Hs|rewrite E; by left]).
    unfold escape_char. case_bool_decide; [done|]. destruct Ha as [Ha1 Ha]. destruct a; [done|exact Ha]. }
  rewrite chars_app, chars_app by done. change (chars_of "'") with ["'"]. cbn [app lex_step].
  change (is_whitespace "'") with false. change (bool_decide ("'" = "/")) with false.
  change (is_digit "'") with false. cbn [andb]. rewrite <- app_assoc. cbn [app].
  match goal with |- context [string_body _ ?st _ ?q] =>
    destruct (string_body_escaped st (chars_of s) (" " :: rest) q (fun c => chars_proper s c Hs)) as [p' Hp'] end.
  fold (escape_text s) in Hp'. rewrite chars_concat in Hp'.
  replace (bool_decide ("'" = "'")) with true by (symmetry; by apply bool_decide_eq_true). cbn [orb].
  rewrite Hp'. cbn [result_bind]. by eexists _, _.
Qed.

Lemma lexes_identifier s : identifier_ok s = true -> lexes (Identifier s).
Proof.
  unfold identifier_ok. intros [[[_ Hw]%andb_prop Hc]%andb_prop Hk]%andb_prop rest p. cbn [token_text].
  destruct (chars_of s) as [|c cs] eqn:E; [done|]. apply andb_prop in Hc as [Hstart Hall]. unfold default, from_option, id in Hw. cbn [head] in Hw.
  assert (Hname := scan_name (c :: cs) rest Hall). rewrite <- E, chars_concat, E in Hname.
  cbn [app] in *. cbn [lex_step]. unfold read_identifier_or_keyword. rewrite Hname.
  apply negb_true_iff in Hw. rewrite Hw.
  assert (Hascii : forall b, ascii_byte c = Some b -> ascii_letter b = true \/ b = 95%Z).
  { intros b Hb. apply orb_prop in Hstart as [Hu|Ha].
    - apply bool_decide_eq_true in Hu as ->. injection Hb as <-. by right.
    - left. unfold is_alphabetic in Ha. by rewrite Hb in Ha. }
  assert (Hno : forall b, ascii_byte c = Some b -> b <> 47%Z /\ b <> 39%Z /\ b <> 34%Z /\ is_ascii_digit b = false).
  { intros b Hb. destruct (Hascii b Hb) as [Hl| ->]; [|done]. unfold ascii_letter in Hl. unfold is_ascii_digit. lia. }
  rewrite (bool_decide_false (c = "/")) by (intros ->; by destruct (Hno 47%Z eq_refl)). cbn [andb].
  replace (is_digit c) with false.
  2:{ unfold is_digit. destruct (ascii_byte c) as [b|] eqn:Eb; [|done]. by destruct (Hno b eq_refl) as (_ & _ & _ & ->). }
  rewrite (bool_decide_false (c = "'")) by (intros ->; by destruct (Hno 39%Z eq_refl) as (_ & ? & _)).
  rewrite (bool_decide_false (c = double_quote)) by (intros ->; by destruct (Hno 34%Z eq_refl) as (_ & _ & ? & _)).
  cbn [orb]. rewrite Hstart. eexists _, _. split; [reflexivity|]. by apply word_identifier.
Qed.

Lemma token_lexes k : token_ok k = true -> lexes k.
Proof.
  destruct k; intros Hok; try done; try (intros rest p; eexists _, _; split; reflexivity).
  - by apply lexes_identifier.
  - apply lexes_string. by apply negb_true_iff.
  - apply lexes_number. cbn [token_ok] in Hok. lia.
Qed.

Lemma token_text_shape k : token_ok k = true -> token_text k <> "" /\ continues (token_text k) = false.
Proof.
  destruct k; intros Hok; try done; cbn [token_ok token_text] in *.
  - unfold identifier_ok in Hok. apply andb_prop in Hok as [[[Hc _]%andb_prop Hne]%andb_prop _].
    apply negb_true_iff in Hc. split; [by intros ->|done].
  - destruct (parse_decimal i ltac:(lia)) as (_ & Hd & Hne). split; [done|by apply digit_not_continuing].
Qed.

Lemma chars_token k ks :
  token_ok k = true -> forallb token_ok ks = true ->
  chars_of (tokens_text (k :: ks)) = chars_of (token_text k) ++ " " :: chars_of (tokens_text ks).
Proof.
  intros Hk Hks. unfold tokens_text. cbn [map]. rewrite concat_cons.
  assert (Hassoc : forall a b c : string, (a +:+ b) +:+ c = a +:+ (b +:+ c)).
  { intros a b c. induction a as [|x a IH]; [done|].
    exact (f_equal (String x) IH). }
  rewrite Hassoc, chars_app by done. f_equal.
  rewrite chars_app; [done|]. destruct ks as [|k' ks]; [done|]. cbn [map]. rewrite concat_cons.
  cbn [forallb] in Hks. apply andb_prop in Hks as [Hk' _]. destruct (token_text_shape k' Hk') as [Hne Hc].
  by destruct (token_text k').
Qed.

Lemma lex_tokens ks fuel p :
  forallb token_ok ks = true -> length (chars_of (tokens_text ks)) < fuel ->
  exists ts, lex fuel (chars_of (tokens_text ks)) p = Ok ts /\ map tk_kind ts = ks ++ [Eof].
Proof.
  revert fuel p. induction ks as [|k ks IH]; intros fuel p Hok Hf.
  - destruct fuel as [|fuel]; [lia|]. by eexists.
  - cbn [forallb] in Hok. apply andb_prop in Hok as [Hk Hks]. rewrite chars_token in * by done.
    rewrite length_app in Hf. cbn [length] in Hf.
    assert (Hlen : 0 < length (chars_of (token_text k))).
    { destruct (token_text_shape k Hk) as [Hne _]. destruct (chars_of (token_text k)) eqn:E; [|simpl; lia].
      by apply chars_nil in E. }
    destruct fuel as [|[|fuel]]; [lia|lia|]. cbn [lex].
    destruct (token_lexes k Hk (chars_of (tokens_text ks)) p) as (t & p' & -> & Ht). cbn [result_bind].
    change (lex_step (" " :: chars_of (tokens_text ks)) p') with
      (Ok (LexSkip (chars_of (tokens_text ks)) (past " " p')) : result LexStep CypherError). cbn [result_bind].
    destruct (IH fuel (past " " p') Hks ltac:(lia)) as (ts & -> & Hts). cbn [result_bind].
    eexists. split; [done|]. cbn [map app]. by rewrite Ht, Hts.
Qed.

Lemma map_reads ks ts : map tk_kind ts = ks ++ [Eof] -> exists t, kinds_are ks ts [t] /\ tk_kind t = Eof.
Proof.
  revert ts. induction ks as [|k ks IH]; intros ts Hts.
  - destruct ts as [|t [|? ?]]; [done| |done]. injection Hts as Ht. by exists t.
  - destruct ts as [|t ts]; [done|]. injection Hts as Ht Hts. destruct (IH ts Hts) as (t' & Hr & He). by exists t'.
Qed.

(** C39. Printing and reading a query is the identity: a query of the shape the
    parser produces (clauses and paths are not empty, hop ranges lie between one
    and their upper bound, counts are not negative), whose names are identifiers
    and not keywords and whose literals are strings, booleans, null, lists and
    integers of 64 bits, is read back from its text as the very same query,
    through the tokenizer with its escapes and the precedences of the parser. *)
Theorem cypher_roundtrip (q : Query)
    (Hshape : query_ok q = true) (Htokens : forallb token_ok (print_query q) = true) :
  parse_cypher (query_text q) = Ok q.
Proof.
  unfold parse_cypher, tokenize, query_text.
  match goal with |- context [lex ?f _ ?p] => destruct (lex_tokens (print_query q) f p Htokens ltac:(lia)) as (ts & -> & Hts) end.
  cbn [result_bind]. destruct (map_reads _ _ Hts) as (t & Hr & Ht).
  rewrite (yields_query (S (length ts)) q Hshape ts [t]); [done|lia|done|]. simpl. by rewrite Ht.
Qed.
End Roundtrip.
