(* ===== verification/CypherPlan.v ===== *)
(** * Cypher: validator and planner ([crates/axon-cypher-ast/src/validator.rs], [planner.rs])

    References of a query are checked against a schema snapshot, and a query is
    compiled into a tree of operators with row estimates. *)

From S2P Require Import Prelude Json CypherAst.
From S2P Require Import PolicyPlan Explain.
From stdpp Require Import pretty.
Local Open Scope axon_scope.

(** ** Validation *)

(** Variables and their labels; a variable without a label is bound to [None]. *)
Definition Env : Type := gmap string (option string).

Section Validate.
Variable schema : SchemaSnapshot.

(** [for x in l { f(x)?; }] *)
Definition all_ok {A E} (f : A -> result unit E) : list A -> result unit E :=
  fix go l := match l with [] => Ok tt | x :: rest => let? _ := f x in go rest end.

(** [for x in l { f(x, &mut env)?; }] *)
Definition fold_env {A E} (f : Env -> A -> result Env E) : list A -> Env -> result Env E :=
  fix go l env := match l with [] => Ok env | x :: rest => let? env' := f env x in go rest env' end.

Definition validate_bind_node {E} (env : Env) (node : NodePattern E) : result Env CypherError :=
  let? _ :=
    match np_label node with
    | None => Ok tt
    | Some label =>
        match snapshot_label schema label with
        | None => Err (UnknownName "label" label)
        | Some def =>
            all_ok (fun prop =>
              if bool_decide (is_Some (ld_properties def !! pe_key prop)) then Ok tt
              else Err (UnknownName "property" (label +:+ "." +:+ pe_key prop))) (np_properties node)
        end
    end in
  Ok (match np_variable node with Some var => <[var := np_label node]> env | None => env end).

Definition validate_relationship_pattern {E} (rel : RelationshipPattern E) : result unit CypherError :=
  all_ok (fun ty => if has_relationship schema ty then Ok tt else Err (UnknownName "relationship_type" ty)) (rp_types rel).

Definition validate_step {E} (env : Env) (step : PathStep E) : result Env CypherError :=
  let? _ := validate_relationship_pattern (st_relationship step) in
  let env := match rp_variable (st_relationship step) with Some var => <[var := None]> env | None => env end in
  validate_bind_node env (st_node step).

Definition validate_path {E} (env : Env) (pattern : PathPattern E) : result Env CypherError :=
  let? env := validate_bind_node env (pt_start pattern) in
  fold_env validate_step (pt_steps pattern) env.

Definition validate_match {E} (env : Env) (clause : MatchClause E) : result Env CypherError :=
  fold_env validate_path (mc_patterns clause) env.

Definition supported_functions : list string := ["count"; "sum"; "avg"; "min"; "max"; "collect"; "type"; "id"].

Definition validate_property (env : Env) (variable : string) (path : list string) : result unit CypherError :=
  match env !! variable with
  | None => Err (UnknownName "variable" variable)
  | Some None => Err (UnknownName "untyped variable property access" variable)
  | Some (Some label) =>
      match snapshot_label schema label with
      | None => Err (UnknownName "label" label)
      | Some def =>
          match path with
          | [] => Err (CypherParse 0 0 "property access without a property name")
          | first :: _ =>
              if bool_decide (is_Some (ld_properties def !! first)) then Ok tt
              else Err (UnknownName "property" (label +:+ "." +:+ first))
          end
      end
  end.

(** [validate_expression], [validate_function_call] and [validate_subquery] *)
Fixpoint validate_expression (env : Env) (e : Expression) : result unit CypherError :=
  match e with
  | ELiteral _ | EParameter _ => Ok tt
  | EVariable name => match env !! name with None => Err (UnknownName "variable" name) | Some _ => Ok tt end
  | EProperty variable path => validate_property env variable path
  | EBinaryLogical _ l r | EComparison _ l r =>
      let? _ := validate_expression env l in validate_expression env r
  | ENot inner | EIsNull inner _ => validate_expression env inner
  | EExists sq | ENotExists sq =>
      let? env' := fold_env validate_match (sq_matches sq) env in
      match sq_where_clause sq with Some w => validate_expression env' w | None => Ok tt end
  | EFunctionCall name arguments =>
      if negb (bool_decide (ascii_lowercase name ∈ supported_functions))
      then Err (UnsupportedClause ("function " +:+ name +:+ "()"))
      else all_ok (fun a => match a with ArgStar => Ok tt | ArgExpression e => validate_expression env e end) arguments
  end.

Definition validate (q : Query) : result unit CypherError :=
  let? env := fold_env validate_match (qu_matches q) ∅ in
  let? _ := match qu_where_clause q with Some w => validate_expression env w | None => Ok tt end in
  let? _ := all_ok (fun i => validate_expression env (ri_expression i)) (rc_items (qu_return_clause q)) in
  all_ok (fun i => validate_expression env (si_expression i)) (qu_order_by q).
End Validate.

(** ** Plans *)

Inductive IndexComparison : Type :=
| IdxEq | IdxNotEq | IdxLt | IdxLtEq | IdxGt | IdxGtEq | IdxIn | IdxPrefix.
Record IndexOrder : Type := { io_property : string; io_descending : bool }.
Inductive LinkAccess : Type := OutgoingPrimaryKey | IncomingTargetIndex | BidirectionalIndexProbe.

Record ScanPlan : Type := {
  sc_alias : option string;
  sc_label : string;
  sc_collection : string;
  sc_predicate : option Expression;
  sc_estimated_rows : Z
}.
Record IndexLookupPlan : Type := {
  il_alias : option string;
  il_label : string;
  il_collection : string;
  il_property : string;
  il_comparison : option IndexComparison;
  il_value : option Expression;
  il_ordered_by : list IndexOrder;
  il_unique : bool;
  il_estimated_rows : Z
}.
Record ExpandPlan : Type := {
  xp_source_alias : option string;
  xp_target_alias : option string;
  xp_target_label : option string;
  xp_relationship_types : list string;
  xp_direction : Direction;
  xp_link_access : LinkAccess;
  xp_min_depth : Z;
  xp_max_depth : Z;
  xp_optional : bool;
  xp_estimated_rows : Z
}.
Record LinkProbePlan : Type := {
  lp_source_alias : option string;
  lp_target_alias : option string;
  lp_target_label : option string;
  lp_relationship_types : list string;
  lp_direction : Direction;
  lp_link_access : LinkAccess
}.
Record ExistsSubplan : Type := {
  es_link_probe : LinkProbePlan;
  es_target_index_probe : option IndexLookupPlan;
  es_target_filter : option Expression;
  es_estimated_rows : Z
}.

(** The input of an operator is its first argument; the estimate comes last. *)
Inductive PlanOperator : Type :=
| PlanScan (p : ScanPlan)
| PlanIndexLookup (p : IndexLookupPlan)
| PlanExpand (input : PlanOperator) (p : ExpandPlan)
| PlanFilter (input : PlanOperator) (predicate : Expression) (estimated_rows : Z)
| PlanProject (input : PlanOperator) (return_clause : ReturnClause) (estimated_rows : Z)
| PlanSort (input : PlanOperator) (items : list SortItem) (estimated_rows : Z)
| PlanSkip (input : PlanOperator) (count estimated_rows : Z)
| PlanLimit (input : PlanOperator) (count estimated_rows : Z)
| PlanExistsCheck (input : PlanOperator) (subquery : ExistsSubplan) (negated : bool) (estimated_rows : Z).

Record PlanDiagnostic : Type := { pd_code : string; pd_message : string }.
Record ExecutionPlan : Type := {
  pln_root : PlanOperator;
  pln_estimated_rows : Z;
  pln_diagnostics : list PlanDiagnostic
}.

(** [PlanOperator::estimated_rows] *)
Definition operator_rows (op : PlanOperator) : Z :=
  match op with
  | PlanScan p => sc_estimated_rows p
  | PlanIndexLookup p => il_estimated_rows p
  | PlanExpand _ p => xp_estimated_rows p
  | PlanFilter _ _ n | PlanProject _ _ n | PlanSort _ _ n | PlanSkip _ _ n | PlanLimit _ _ n => n
  | PlanExistsCheck _ _ _ n => n
  end.

Record IndexPredicate : Type := { ipr_property : string; ipr_comparison : IndexComparison; ipr_value : Expression }.

Definition saturating_mul (a b : Z) : Z := Z.min (a * b) u64_max.
Definition saturating_sub (a b : Z) : Z := Z.max (a - b) 0.

(** ** Access to a node *)

Definition estimate_index_rows (index : IndexedProperty) (c : IndexComparison) : Z :=
  match c with
  | IdxEq | IdxIn | IdxPrefix => ip_estimated_equality_rows index
  | _ => ip_estimated_range_rows index
  end.

Definition link_access (d : Direction) : LinkAccess :=
  match d with
  | Outgoing => OutgoingPrimaryKey | Incoming => IncomingTargetIndex | Either => BidirectionalIndexProbe
  end.

Definition index_comparison (op : ComparisonOp) : option IndexComparison :=
  match op with
  | CmpEq => Some IdxEq | CmpNotEq => Some IdxNotEq | CmpLt => Some IdxLt | CmpLtEq => Some IdxLtEq
  | CmpGt => Some IdxGt | CmpGtEq => Some IdxGtEq | CmpIn => Some IdxIn | CmpStartsWith => Some IdxPrefix
  | CmpContains | CmpEndsWith => None
  end.
Definition reverse_index_comparison (op : ComparisonOp) : option IndexComparison :=
  match op with
  | CmpEq => Some IdxEq | CmpNotEq => Some IdxNotEq | CmpLt => Some IdxGt | CmpLtEq => Some IdxGtEq
  | CmpGt => Some IdxLt | CmpGtEq => Some IdxLtEq
  | CmpIn | CmpContains | CmpStartsWith | CmpEndsWith => None
  end.

Definition index_value_supported (e : Expression) : bool :=
  match e with
  | ELiteral (LitBool _) | ELiteral (LitFloat _) | ELiteral (LitInteger _) | ELiteral (LitString _) | EParameter _ => true
  | _ => false
  end.

(** A comparison of an indexed property of [variable], found on the side [prop],
    with a value on the other side. *)
Definition side_predicate (to_index : ComparisonOp -> option IndexComparison) (op : ComparisonOp)
    (prop value : Expression) (variable : string) (def : LabelDef) : option IndexPredicate :=
  match prop with
  | EProperty found (property :: _) =>
      if negb (bool_decide (found = variable)) then None
      else if negb (is_indexed def property) || negb (index_value_supported value) then None
      else option_map (fun c => {| ipr_property := property; ipr_comparison := c; ipr_value := value |}) (to_index op)
  | _ => None
  end.
Definition comparison_predicate (op : ComparisonOp) (l r : Expression) := side_predicate index_comparison op l r.
Definition reversed_comparison_predicate (op : ComparisonOp) (l r : Expression) :=
  side_predicate reverse_index_comparison op r l.

Fixpoint find_indexable_predicate (e : Expression) (variable : string) (def : LabelDef) : option IndexPredicate :=
  match e with
  | EBinaryLogical LogicalAnd l r =>
      match find_indexable_predicate l variable def with
      | Some p => Some p
      | None => find_indexable_predicate r variable def
      end
  | EComparison op l r =>
      match comparison_predicate op l r variable def with
      | Some p => Some p
      | None => reversed_comparison_predicate op l r variable def
      end
  | _ => None
  end.

(** [Planner::indexed_predicate] *)
Definition indexed_predicate (node : NodePattern Expression) (where_clause : option Expression) (def : LabelDef)
    : option IndexPredicate :=
  match List.find (fun p => is_indexed def (pe_key p)) (np_properties node) with
  | Some p => Some {| ipr_property := pe_key p; ipr_comparison := IdxEq; ipr_value := pe_value p |}
  | None =>
      match np_variable node, where_clause with
      | Some var, Some w => find_indexable_predicate w var def
      | _, _ => None
      end
  end.

Definition order_by_property (order_by : list SortItem) : option string :=
  match order_by with [i] => match si_expression i with EProperty _ (p :: _) => Some p | _ => None end | _ => None end.
Definition order_by_variable (order_by : list SortItem) : option string :=
  match order_by with [i] => match si_expression i with EProperty v _ => Some v | _ => None end | _ => None end.
Definition first_descending (order_by : list SortItem) : bool :=
  match order_by with i :: _ => si_descending i | [] => false end.

Definition index_order_for_node (alias : option string) (order_by : list SortItem) (def : LabelDef) : option IndexOrder :=
  match order_by_property order_by, order_by_variable order_by with
  | Some property, Some variable =>
      if negb (bool_decide (Some variable = alias)) || negb (is_indexed def property) then None
      else Some {| io_property := property; io_descending := first_descending order_by |}
  | _, _ => None
  end.

Definition covered_order (alias : option string) (order_by : list SortItem) (property : string) : list IndexOrder :=
  match order_by_property order_by, order_by_variable order_by with
  | Some order_property, Some order_variable =>
      if negb (bool_decide (Some order_variable = alias)) || negb (bool_decide (order_property = property)) then []
      else [{| io_property := order_property; io_descending := first_descending order_by |}]
  | _, _ => []
  end.

Definition order_covered_by_existing_index (root : PlanOperator) (order_by : list SortItem) : bool :=
  match order_by with
  | [] => true
  | _ => match root with PlanIndexLookup p => Nat.eqb (length (il_ordered_by p)) (length order_by) | _ => false end
  end.

Definition node_predicate (node : NodePattern Expression) (where_clause : option Expression) : option Expression :=
  match np_properties node with
  | p :: _ => Some (EComparison CmpEq (EProperty (default "" (np_variable node)) [pe_key p]) (pe_value p))
  | [] => where_clause
  end.

(** ** Parts of a condition *)

Fixpoint exists_checks (e : Expression) : list (bool * Subquery Expression) :=
  match e with
  | EExists sq => [(false, sq)]
  | ENotExists sq => [(true, sq)]
  | EBinaryLogical LogicalAnd l r => exists_checks l ++ exists_checks r
  | _ => []
  end.

Fixpoint non_exists_predicate (e : Expression) : option Expression :=
  match e with
  | EExists _ | ENotExists _ => None
  | EBinaryLogical LogicalAnd l r =>
      match non_exists_predicate l, non_exists_predicate r with
      | Some l', Some r' => Some (EBinaryLogical LogicalAnd l' r')
      | Some e', None | None, Some e' => Some e'
      | None, None => None
      end
  | _ => Some e
  end.

Fixpoint expression_mentions_variable_property (e : Expression) (alias : string) : bool :=
  match e with
  | EProperty variable _ => bool_decide (variable = alias)
  | EBinaryLogical _ l r | EComparison _ l r =>
      expression_mentions_variable_property l alias || expression_mentions_variable_property r alias
  | ENot inner | EIsNull inner _ => expression_mentions_variable_property inner alias
  | _ => false
  end.
Definition contains_target_property_filter (where_clause : option Expression) (alias : option string) : bool :=
  match where_clause, alias with
  | Some e, Some a => expression_mentions_variable_property e a
  | _, _ => false
  end.

(** ** The planner *)

Section Planner.
Variable schema : SchemaSnapshot.
Let config := ss_planner_config schema.

Definition check_cardinality (estimated_rows : Z) : result unit CypherError :=
  if cfg_enforce_cardinality_budget config && (cfg_cardinality_budget config <? estimated_rows)%Z
  then Err (QueryTooLarge ("estimated intermediate rows " +:+ pretty estimated_rows +:+ " exceed budget " +:+
              pretty (cfg_cardinality_budget config)))
  else Ok tt.

Definition check_hop_range (range : option HopRange) : result unit CypherError :=
  match range with
  | Some r =>
      if (cfg_depth_cap config <? hr_max r)%Z
      then Err (UnsupportedPlan ("variable-length path depth " +:+ pretty (hr_max r) +:+
                  " exceeds configured depth cap " +:+ pretty (cfg_depth_cap config)))
      else Ok tt
  | None => Ok tt
  end.

Definition ensure_scan_allowed (label : string) (def : LabelDef) : result unit CypherError :=
  if (cfg_unindexed_scan_threshold config <? ld_estimated_count def)%Z
  then Err (UnsupportedPlan ("missing-index diagnostic: unindexed scan of " +:+ label +:+ " estimates " +:+
              pretty (ld_estimated_count def) +:+ " rows, above threshold " +:+
              pretty (cfg_unindexed_scan_threshold config) +:+
              "; declare an index on the filtered or sorted property"))
  else Ok tt.

Definition lookup_plan (node : NodePattern Expression) (label : string) (def : LabelDef) (predicate : IndexPredicate)
    (index : IndexedProperty) (ordered_by : list IndexOrder) : IndexLookupPlan := {|
  il_alias := np_variable node; il_label := label; il_collection := ld_collection_name def;
  il_property := ipr_property predicate; il_comparison := Some (ipr_comparison predicate);
  il_value := Some (ipr_value predicate); il_ordered_by := ordered_by; il_unique := ip_unique index;
  il_estimated_rows := estimate_index_rows index (ipr_comparison predicate) |}.

Definition plan_node_access (node : NodePattern Expression) (where_clause : option Expression) (order_by : list SortItem)
    : result PlanOperator CypherError :=
  let? label := ok_or (np_label node) (UnsupportedPlan "untyped node scans are not supported by the planner") in
  let? def := ok_or (snapshot_label schema label) (UnknownName "label" label) in
  match indexed_predicate node where_clause def with
  | Some predicate =>
      match label_index def (ipr_property predicate) with
      | None => Panic
      | Some index =>
          let? _ := check_cardinality (estimate_index_rows index (ipr_comparison predicate)) in
          Ok (PlanIndexLookup (lookup_plan node label def predicate index
                (covered_order (np_variable node) order_by (ipr_property predicate))))
      end
  | None =>
      match index_order_for_node (np_variable node) order_by def with
      | Some order =>
          let? _ := check_cardinality (ld_estimated_count def) in
          Ok (PlanIndexLookup {|
                il_alias := np_variable node; il_label := label; il_collection := ld_collection_name def;
                il_property := io_property order; il_comparison := None; il_value := None; il_ordered_by := [order];
                il_unique := unique_index def (io_property order); il_estimated_rows := ld_estimated_count def |})
      | None =>
          let? _ := ensure_scan_allowed label def in
          Ok (PlanScan {|
                sc_alias := np_variable node; sc_label := label; sc_collection := ld_collection_name def;
                sc_predicate := node_predicate node where_clause; sc_estimated_rows := ld_estimated_count def |})
      end
  end.

Definition plan_bind_node (node : NodePattern Expression) (bindings : Env) : Env :=
  match np_variable node with Some var => <[var := np_label node]> bindings | None => bindings end.

(** The steps of a path. *)
Fixpoint plan_steps (source_alias : option string) (optional : bool) (steps : list (PathStep Expression))
    (root : PlanOperator) (bindings : Env) : result (PlanOperator * Env) CypherError :=
  match steps with
  | [] => Ok (root, bindings)
  | step :: rest =>
      let rel := st_relationship step in
      let? _ := check_hop_range (rp_range rel) in
      let max_depth := match rp_range rel with Some r => hr_max r | None => 1%Z end in
      let min_depth := match rp_range rel with Some r => hr_min r | None => 1%Z end in
      let estimated_rows := saturating_mul (operator_rows root) (Z.max max_depth 1) in
      let expand := PlanExpand root {|
        xp_source_alias := source_alias; xp_target_alias := np_variable (st_node step);
        xp_target_label := np_label (st_node step); xp_relationship_types := rp_types rel;
        xp_direction := rp_direction rel; xp_link_access := link_access (rp_direction rel);
        xp_min_depth := min_depth; xp_max_depth := max_depth; xp_optional := optional;
        xp_estimated_rows := estimated_rows |} in
      let? _ := check_cardinality estimated_rows in
      plan_steps source_alias optional rest expand (plan_bind_node (st_node step) bindings)
  end.

Definition plan_path_pattern (current : option PlanOperator) (optional : bool) (pattern : PathPattern Expression)
    (q : Query) (bindings : Env) : result (PlanOperator * Env) CypherError :=
  let access := plan_node_access (pt_start pattern) (qu_where_clause q) (qu_order_by q) in
  let? root :=
    match np_variable (pt_start pattern), current with
    | Some var, Some plan => if bool_decide (is_Some (bindings !! var)) then Ok plan else access
    | _, _ => access
    end in
  plan_steps (np_variable (pt_start pattern)) optional (pt_steps pattern) root (plan_bind_node (pt_start pattern) bindings).

Fixpoint plan_patterns (current : option PlanOperator) (optional : bool) (patterns : list (PathPattern Expression))
    (q : Query) (bindings : Env) : result (option PlanOperator * Env) CypherError :=
  match patterns with
  | [] => Ok (current, bindings)
  | pattern :: rest =>
      let? (root, bindings) := plan_path_pattern current optional pattern q bindings in
      plan_patterns (Some root) optional rest q bindings
  end.

Definition plan_match_clause (current : option PlanOperator) (clause : MatchClause Expression) (q : Query) (bindings : Env)
    : result (PlanOperator * Env) CypherError :=
  let? (root, bindings) := plan_patterns current (mc_optional clause) (mc_patterns clause) q bindings in
  let? root := ok_or root (UnsupportedPlan "empty MATCH clause") in
  Ok (root, bindings).

Fixpoint plan_matches (current : option PlanOperator) (clauses : list (MatchClause Expression)) (q : Query) (bindings : Env)
    : result (option PlanOperator * Env) CypherError :=
  match clauses with
  | [] => Ok (current, bindings)
  | clause :: rest =>
      let? (root, bindings) := plan_match_clause current clause q bindings in
      plan_matches (Some root) rest q bindings
  end.

(** *** Conditions *)

Definition exists_target_index_probe (target : NodePattern Expression) (where_clause : option Expression)
    : result (option IndexLookupPlan) CypherError :=
  match np_label target with
  | None => Ok None
  | Some label =>
      let? def := ok_or (snapshot_label schema label) (UnknownName "label" label) in
      match indexed_predicate target where_clause def with
      | Some predicate =>
          match label_index def (ipr_property predicate) with
          | None => Panic
          | Some index => Ok (Some (lookup_plan target label def predicate index []))
          end
      | None =>
          let? _ := if contains_target_property_filter where_clause (np_variable target)
                    then ensure_scan_allowed label def else Ok tt in
          Ok None
      end
  end.

Definition plan_exists_subquery (sq : Subquery Expression) : result ExistsSubplan CypherError :=
  match sq_matches sq with
  | [] => Err (UnsupportedPlan "EXISTS subquery without MATCH cannot be planned")
  | clause :: _ =>
      match mc_patterns clause with
      | [] => Err (UnsupportedPlan "EXISTS subquery without a path pattern cannot be planned")
      | pattern :: _ =>
          match pt_steps pattern with
          | [] => Err (UnsupportedPlan "EXISTS subquery must contain a relationship pattern")
          | step :: _ =>
              let rel := st_relationship step in
              let? _ := check_hop_range (rp_range rel) in
              let? probe := exists_target_index_probe (st_node step) (sq_where_clause sq) in
              let estimated_rows := match probe with Some p => il_estimated_rows p | None => 1%Z end in
              let? _ := check_cardinality estimated_rows in
              Ok {| es_link_probe := {|
                      lp_source_alias := np_variable (pt_start pattern); lp_target_alias := np_variable (st_node step);
                      lp_target_label := np_label (st_node step); lp_relationship_types := rp_types rel;
                      lp_direction := rp_direction rel; lp_link_access := link_access (rp_direction rel) |};
                    es_target_index_probe := probe; es_target_filter := sq_where_clause sq;
                    es_estimated_rows := estimated_rows |}
          end
      end
  end.

Fixpoint plan_exists_checks (root : PlanOperator) (checks : list (bool * Subquery Expression))
    : result PlanOperator CypherError :=
  match checks with
  | [] => Ok root
  | (negated, sq) :: rest =>
      let? subplan := plan_exists_subquery sq in
      plan_exists_checks (PlanExistsCheck root subplan negated (operator_rows root)) rest
  end.

Definition apply_where (root : PlanOperator) (where_clause : Expression) : result PlanOperator CypherError :=
  let? root := plan_exists_checks root (exists_checks where_clause) in
  Ok (match non_exists_predicate where_clause with
      | Some predicate => PlanFilter root predicate (operator_rows root)
      | None => root
      end).

(** *** Queries *)

Definition plan_query (q : Query) : result ExecutionPlan CypherError :=
  let? (current, _) := plan_matches None (qu_matches q) q ∅ in
  let? root := ok_or current (UnsupportedPlan "query has no MATCH clause") in
  let? root := match qu_where_clause q with Some w => apply_where root w | None => Ok root end in
  let root := if negb (order_covered_by_existing_index root (qu_order_by q))
              then PlanSort root (qu_order_by q) (operator_rows root) else root in
  let root := match qu_skip q with
              | Some n => PlanSkip root n (saturating_sub (operator_rows root) n) | None => root end in
  let root := match qu_limit q with
              | Some n => PlanLimit root n (Z.min (operator_rows root) n) | None => root end in
  let root := PlanProject root (qu_return_clause q) (operator_rows root) in
  let? _ := check_cardinality (operator_rows root) in
  Ok {| pln_root := root; pln_estimated_rows := operator_rows root; pln_diagnostics := [] |}.

Definition plan (q : Query) : result ExecutionPlan CypherError :=
  let? _ := validate schema q in
  plan_query q.
End Planner.
