(* ===== verification/CypherLimits.v ===== *)
(** * Cypher: plans stay within the limits of the planner

    A query that is planned scans no large collection without an index, follows
    no path longer than the depth cap and estimates no more rows than the budget. *)

From S2P Require Import Prelude Json CypherAst CypherPlan.
Local Open Scope axon_scope.

(** The result is no panic, and what it holds satisfies [Q]. *)
Definition yields_only {A E} (Q : A -> Prop) (r : result A E) : Prop :=
  match r with Ok a => Q a | Err _ => True | Panic => False end.

Lemma yields_only_bind {A B E} (Q : A -> Prop) (R : B -> Prop) (m : result A E) (f : A -> result B E) :
  yields_only Q m -> (forall a, Q a -> yields_only R (f a)) -> yields_only R (let? a := m in f a).
Proof. destruct m; simpl; auto. Qed.
Lemma yields_only_ok {A E} (Q : A -> Prop) (a : A) : Q a -> yields_only (E := E) Q (Ok a).
Proof. done. Qed.
Lemma yields_only_ok_or {A E} (o : option A) (e : E) : yields_only (fun a => o = Some a) (ok_or o e).
Proof. by destruct o. Qed.

Section Limits.
Variable schema : SchemaSnapshot.
Let config := ss_planner_config schema.

(** Estimates count against the budget only when it is enforced. *)
Definition in_budget (rows : Z) : Prop :=
  cfg_enforce_cardinality_budget config = true -> (rows <= cfg_cardinality_budget config)%Z.

Fixpoint within_limits (op : PlanOperator) : Prop :=
  match op with
  | PlanScan p => (sc_estimated_rows p <= cfg_unindexed_scan_threshold config)%Z
  | PlanIndexLookup p => in_budget (il_estimated_rows p)
  | PlanExpand input p =>
      (xp_max_depth p = 1 \/ xp_max_depth p <= cfg_depth_cap config)%Z /\ in_budget (xp_estimated_rows p)
      /\ within_limits input
  | PlanExistsCheck input sp _ _ => in_budget (es_estimated_rows sp) /\ within_limits input
  | PlanFilter input _ _ | PlanProject input _ _ | PlanSort input _ _ | PlanSkip input _ _ | PlanLimit input _ _ =>
      within_limits input
  end.

Lemma check_cardinality_ok rows : yields_only (fun _ => in_budget rows) (check_cardinality schema rows).
Proof.
  unfold check_cardinality, in_budget. fold config. destruct (cfg_enforce_cardinality_budget config); simpl; [|done].
  destruct (Z.ltb_spec (cfg_cardinality_budget config) rows); simpl; [done|lia].
Qed.

Lemma check_hop_range_ok range : yields_only (fun _ =>
  let depth := match range with Some r => hr_max r | None => 1%Z end in
  (depth = 1 \/ depth <= cfg_depth_cap config)%Z) (check_hop_range schema range).
Proof.
  unfold check_hop_range. fold config. destruct range as [r|]; [|by left].
  destruct (Z.ltb_spec (cfg_depth_cap config) (hr_max r)); simpl; [done|lia].
Qed.

Lemma ensure_scan_allowed_ok label def : yields_only (fun _ =>
  (ld_estimated_count def <= cfg_unindexed_scan_threshold config)%Z) (ensure_scan_allowed schema label def).
Proof. unfold ensure_scan_allowed. fold config. destruct (Z.ltb_spec (cfg_unindexed_scan_threshold config) (ld_estimated_count def)); simpl; [done|lia]. Qed.

(** ** Predicates name indexed properties *)

Lemma is_indexed_index def p : is_indexed def p = true -> is_Some (label_index def p).
Proof.
  unfold is_indexed, label_index. induction (ld_indexed_properties def) as [|i l IH]; simpl; [done|].
  destruct (bool_decide _); simpl; [by eexists|done].
Qed.

Lemma side_predicate_indexed to op prop value v def p :
  side_predicate to op prop value v def = Some p -> is_indexed def (ipr_property p) = true.
Proof.
  unfold side_predicate. destruct prop as [| |found [|property path]| | | | | | | |]; try done.
  destruct (negb _); [done|]. destruct (is_indexed def property) eqn:Hi; simpl; [|done].
  destruct (negb _); [done|]. by destruct (to op); [intros [= <-]|].
Qed.

Lemma find_indexable_indexed e v def p :
  find_indexable_predicate e v def = Some p -> is_indexed def (ipr_property p) = true.
Proof.
  induction e; cbn [find_indexable_predicate]; try done.
  - destruct op; [|done]. destruct (find_indexable_predicate e1 v def); [by intros [= <-]; auto|auto].
  - unfold comparison_predicate, reversed_comparison_predicate.
    destruct (side_predicate index_comparison _ _ _ _ _) eqn:Hs; [intros [= <-]|]; eauto using side_predicate_indexed.
Qed.

Lemma indexed_predicate_index node w def p : indexed_predicate node w def = Some p ->
  exists index, label_index def (ipr_property p) = Some index.
Proof.
  intros Hp. apply is_indexed_index. unfold indexed_predicate in Hp.
  destruct (List.find _ _) as [pr|] eqn:Hf; [injection Hp as <-; by apply find_some in Hf as [_ Hf]|].
  destruct (np_variable node), w; try done. by eapply find_indexable_indexed.
Qed.

(** ** The planner *)

Lemma plan_node_access_ok node w order_by : yields_only within_limits (plan_node_access schema node w order_by).
Proof.
  unfold plan_node_access. eapply yields_only_bind; [apply yields_only_ok_or|intros label _].
  eapply yields_only_bind; [apply yields_only_ok_or|intros def _].
  destruct (indexed_predicate node w def) as [p|] eqn:Hp.
  - destruct (indexed_predicate_index _ _ _ _ Hp) as [index ->].
    eapply yields_only_bind; [apply check_cardinality_ok|by intros [] ?].
  - destruct (index_order_for_node _ _ _).
    + eapply yields_only_bind; [apply check_cardinality_ok|by intros [] ?].
    + eapply yields_only_bind; [apply ensure_scan_allowed_ok|by intros [] ?].
Qed.

Lemma plan_steps_ok source optional steps root bindings :
  within_limits root ->
  yields_only (fun r => within_limits (fst r)) (plan_steps schema source optional steps root bindings).
Proof.
  revert root bindings. induction steps as [|step steps IH]; intros root bindings Hroot; cbn [plan_steps]; [done|].
  eapply yields_only_bind; [apply check_hop_range_ok|intros [] Hdepth].
  eapply yields_only_bind; [apply check_cardinality_ok|intros [] Hrows].
  by apply IH.
Qed.

Definition limited (o : option PlanOperator) : Prop := match o with Some op => within_limits op | None => True end.

Lemma plan_path_pattern_ok current optional pattern q bindings : limited current ->
  yields_only (fun r => within_limits (fst r)) (plan_path_pattern schema current optional pattern q bindings).
Proof.
  intros Hc. unfold plan_path_pattern. eapply (yields_only_bind within_limits); [|intros; by apply plan_steps_ok].
  destruct (np_variable _), current; try apply plan_node_access_ok.
  case_bool_decide; [done|apply plan_node_access_ok].
Qed.

Lemma plan_patterns_ok current optional patterns q bindings : limited current ->
  yields_only (fun r => limited (fst r)) (plan_patterns schema current optional patterns q bindings).
Proof.
  revert current bindings. induction patterns as [|pattern patterns IH]; intros current bindings Hc;
    cbn [plan_patterns]; [done|].
  eapply yields_only_bind; [by apply plan_path_pattern_ok|intros [root b] Hroot]. by apply IH.
Qed.

Lemma plan_matches_ok current clauses q bindings : limited current ->
  yields_only (fun r => limited (fst r)) (plan_matches schema current clauses q bindings).
Proof.
  revert current bindings. induction clauses as [|clause clauses IH]; intros current bindings Hc;
    cbn [plan_matches]; [done|].
  eapply (yields_only_bind (fun r => within_limits (fst r))); [|intros [root b] Hroot; by apply IH].
  unfold plan_match_clause. eapply yields_only_bind; [by apply plan_patterns_ok|intros [[root|] b] Hroot]; done.
Qed.

Lemma plan_exists_subquery_ok sq : yields_only (fun sp => in_budget (es_estimated_rows sp)) (plan_exists_subquery schema sq).
Proof.
  unfold plan_exists_subquery. destruct (sq_matches sq) as [|clause ?]; [done|].
  destruct (mc_patterns clause) as [|pattern ?]; [done|]. destruct (pt_steps pattern) as [|step ?]; [done|].
  eapply yields_only_bind; [apply check_hop_range_ok|intros [] _].
  eapply (yields_only_bind (fun _ => True)); [|intros probe _].
  - unfold exists_target_index_probe. destruct (np_label _); [|done].
    eapply yields_only_bind; [apply yields_only_ok_or|intros def _].
    destruct (indexed_predicate _ _ _) eqn:Hp; [by destruct (indexed_predicate_index _ _ _ _ Hp) as [index ->]|].
    destruct (contains_target_property_filter _ _); [|done].
    eapply yields_only_bind; [apply ensure_scan_allowed_ok|done].
  - eapply yields_only_bind; [apply check_cardinality_ok|by intros [] ?].
Qed.

Lemma plan_exists_checks_ok root checks : within_limits root ->
  yields_only within_limits (plan_exists_checks schema root checks).
Proof.
  revert root. induction checks as [|[negated sq] checks IH]; intros root Hroot; cbn [plan_exists_checks]; [done|].
  eapply yields_only_bind; [apply plan_exists_subquery_ok|intros sp Hsp]. by apply IH.
Qed.

Lemma apply_where_ok root w : within_limits root -> yields_only within_limits (apply_where schema root w).
Proof.
  intros Hroot. unfold apply_where. eapply yields_only_bind; [by apply plan_exists_checks_ok|intros r Hr].
  by destruct (non_exists_predicate w).
Qed.

Lemma plan_query_ok q : yields_only (fun p => within_limits (pln_root p) /\ in_budget (pln_estimated_rows p))
  (plan_query schema q).
Proof.
  unfold plan_query. eapply (yields_only_bind (fun r => limited (fst r))); [by apply plan_matches_ok|intros [current b] Hc].
  eapply (yields_only_bind within_limits); [by destruct current|intros root Hroot].
  eapply (yields_only_bind within_limits); [by destruct (qu_where_clause q); [apply apply_where_ok|]|intros r Hr].
  eapply yields_only_bind; [apply check_cardinality_ok|intros [] Hrows]. split; [|done].
  cbn [within_limits pln_root]. destruct (qu_limit q), (qu_skip q), (negb _); exact Hr.
Qed.

Lemma all_ok_no_panic {A E} (f : A -> result unit E) l :
  (forall a, In a l -> yields_only (fun _ => True) (f a)) -> yields_only (fun _ => True) (all_ok f l).
Proof.
  induction l as [|a l IH]; cbn [all_ok]; intros Hf; [done|].
  eapply yields_only_bind; [by apply Hf; left|intros [] _]. apply IH. intros; apply Hf; by right.
Qed.
Lemma fold_env_no_panic {A E} (f : Env -> A -> result Env E) l env :
  (forall env a, yields_only (fun _ => True) (f env a)) -> yields_only (fun _ => True) (fold_env f l env).
Proof.
  intros Hf. revert env. induction l as [|a l IH]; intros env; cbn [fold_env]; [done|].
  eapply yields_only_bind; [apply Hf|intros env' _]. apply IH.
Qed.

Lemma validate_match_no_panic {E} env (clause : MatchClause E) : yields_only (fun _ => True) (validate_match schema env clause).
Proof.
  assert (Hnode : forall env (node : NodePattern E), yields_only (fun _ => True) (validate_bind_node schema env node)).
  { intros env' node. unfold validate_bind_node. eapply (yields_only_bind (fun _ => True)); [|done].
    destruct (np_label node); [|done]. destruct (snapshot_label _ _); [|done].
    apply all_ok_no_panic. intros. by case_bool_decide. }
  apply fold_env_no_panic. clear env. intros env pattern. unfold validate_path.
  eapply yields_only_bind; [apply Hnode|intros env' _]. apply fold_env_no_panic. clear env'. intros env' step.
  unfold validate_step. eapply (yields_only_bind (fun _ => True)); [|intros [] _; apply Hnode].
  apply all_ok_no_panic. intros ty _. by destruct (has_relationship _ _).
Qed.
End Limits.

(** ** Expressions *)

(** Induction that reaches the items of lists, the arguments of functions and the
    conditions of subqueries. *)
Section ExpressionInduction.
Variable Q : Expression -> Prop.
Definition arg_holds (a : FunctionArg Expression) : Prop :=
  match a with ArgStar => True | ArgExpression e => Q e end.
Definition literal_holds (l : Literal Expression) : Prop :=
  match l with LitList items => Forall Q items | _ => True end.
Definition condition_holds (sq : Subquery Expression) : Prop :=
  match sq_where_clause sq with Some w => Q w | None => True end.
Hypothesis Hlit : forall l, literal_holds l -> Q (ELiteral l).
Hypothesis Hvar : forall name, Q (EVariable name).
Hypothesis Hprop : forall variable path, Q (EProperty variable path).
Hypothesis Hparam : forall name, Q (EParameter name).
Hypothesis Hexists : forall sq, condition_holds sq -> Q (EExists sq).
Hypothesis Hnexists : forall sq, condition_holds sq -> Q (ENotExists sq).
Hypothesis Hbin : forall op l r, Q l -> Q r -> Q (EBinaryLogical op l r).
Hypothesis Hnot : forall e, Q e -> Q (ENot e).
Hypothesis Hcmp : forall op l r, Q l -> Q r -> Q (EComparison op l r).
Hypothesis Hnull : forall e negated, Q e -> Q (EIsNull e negated).
Hypothesis Hcall : forall name arguments, Forall arg_holds arguments -> Q (EFunctionCall name arguments).

Fixpoint expression_induction (e : Expression) : Q e :=
  match e with
  | ELiteral l => Hlit l (match l return literal_holds l with
      | LitList items => (fix go xs : Forall Q xs :=
          match xs with [] => List.Forall_nil _ | x :: rest => @List.Forall_cons _ _ x rest (expression_induction x) (go rest) end) items
      | LitNull | LitBool _ | LitInteger _ | LitFloat _ | LitString _ => I
      end)
  | EVariable name => Hvar name
  | EProperty variable path => Hprop variable path
  | EParameter name => Hparam name
  | EExists sq => Hexists sq (match sq return condition_holds sq with
      | Build_Subquery _ _ (Some w) => expression_induction w | Build_Subquery _ _ None => I end)
  | ENotExists sq => Hnexists sq (match sq return condition_holds sq with
      | Build_Subquery _ _ (Some w) => expression_induction w | Build_Subquery _ _ None => I end)
  | EBinaryLogical op l r => Hbin op l r (expression_induction l) (expression_induction r)
  | ENot inner => Hnot inner (expression_induction inner)
  | EComparison op l r => Hcmp op l r (expression_induction l) (expression_induction r)
  | EIsNull inner negated => Hnull inner negated (expression_induction inner)
  | EFunctionCall name arguments => Hcall name arguments
      ((fix go xs : Forall arg_holds xs :=
          match xs with
          | [] => List.Forall_nil _
          | x :: rest => @List.Forall_cons _ _ x rest (match x return arg_holds x with
              | ArgStar => I | ArgExpression a => expression_induction a end) (go rest)
          end) arguments)
  end.
End ExpressionInduction.

Section Planning.
Variable schema : SchemaSnapshot.

Lemma validate_expression_no_panic e env : yields_only (fun _ => True) (validate_expression schema env e).
Proof.
  assert (Hsub : forall sq, condition_holds (fun e => forall env, yields_only (fun _ => True) (validate_expression schema env e)) sq ->
    forall env, yields_only (fun _ => True) (let? env' := fold_env (validate_match schema) (sq_matches sq) env in
      match sq_where_clause sq with Some w => validate_expression schema env' w | None => Ok tt end)).
  { intros sq Hw env'. eapply yields_only_bind; [apply fold_env_no_panic, validate_match_no_panic|intros env'' _].
    unfold condition_holds in Hw. by destruct (sq_where_clause sq). }
  revert env. induction e as [l|name|variable path|name|sq IH|sq IH|op l r IHl IHr|e IH|op l r IHl IHr|e negated IH|name arguments IH]
    using expression_induction; intros env; cbn [validate_expression].
  - done.
  - by destruct (env !! name).
  - unfold validate_property. destruct (env !! variable) as [[label|]|]; try done.
    destruct (snapshot_label schema label); [|done]. destruct path; [done|]. by case_bool_decide.
  - done.
  - by apply Hsub.
  - by apply Hsub.
  - eapply yields_only_bind; [apply IHl|intros [] _; apply IHr].
  - apply IH.
  - eapply yields_only_bind; [apply IHl|intros [] _; apply IHr].
  - apply IH.
  - destruct (negb _); [done|]. apply all_ok_no_panic. intros a Ha.
    rewrite List.Forall_forall in IH. specialize (IH a Ha). destruct a; [done|apply IH].
Qed.

Lemma validate_no_panic q : yields_only (fun _ => True) (validate schema q).
Proof.
  unfold validate. eapply yields_only_bind; [apply fold_env_no_panic, validate_match_no_panic|intros env _].
  eapply (yields_only_bind (fun _ => True)); [destruct (qu_where_clause q); [apply validate_expression_no_panic|done]|intros [] _].
  eapply (yields_only_bind (fun _ => True)); [|intros [] _]; apply all_ok_no_panic; intros; apply validate_expression_no_panic.
Qed.

Lemma plan_ok q : yields_only (fun p => within_limits schema (pln_root p) /\ in_budget schema (pln_estimated_rows p)) (plan schema q).
Proof.
  unfold plan. eapply yields_only_bind; [apply validate_no_panic|intros [] _]. apply plan_query_ok.
Qed.

(** C38. Planning stays within its limits.  For every query and schema snapshot
    the planner answers with a plan or an error and never panics, although it
    takes for granted that every index predicate it chose has an index.  A plan
    scans only collections that are estimated at no more than the threshold for
    scans without an index; every path it follows is a single hop or within the
    depth cap; and while the budget is enforced no lookup, expansion, subquery or
    whole plan is estimated above it. *)
Theorem planning_bounded (q : Query) :
  match plan schema q with
  | Ok p => within_limits schema (pln_root p) /\ in_budget schema (pln_estimated_rows p)
  | Err _ => True
  | Panic => False
  end.
Proof. apply plan_ok. Qed.
End Planning.
