(* ===== verification/CypherStore.v ===== *)
(** * Cypher: the stores that queries run on
    ([crates/axon-cypher/src/memory_store.rs], [storage_adapter_store.rs])

    The interface of the executor to a graph of labelled entities and typed
    links, the store in memory, and the store over the storage adapter.  A stream
    is the list of its items. *)

From S2P Require Import Prelude Json Datetime Ids Types IndexKeys Schema Storage Catalog CypherAst.
Local Open Scope axon_scope.

Section Data.
Context `{SerdeNumber}.

Definition PropertyMap : Type := gmap string Value.

Record QueryEntity : Type := { qe_id : string; qe_labels : gset string; qe_properties : PropertyMap }.
Record QueryLink : Type := {
  ql_id : string;
  ql_source_id : string;
  ql_target_id : string;
  ql_link_type : string;
  ql_properties : PropertyMap
}.

Inductive PropertyFilterOp : Type := FilterEq.
Record PropertyFilter : Type := { pf_path : list string; pf_op : PropertyFilterOp; pf_value : Value }.
Record EntityScan : Type := { sn_label : option string; sn_property_filters : list PropertyFilter }.
Record LinkTraversal : Type := {
  tr_anchor_id : string;
  tr_direction : Direction;
  tr_relationship_types : list string;
  tr_link_property_filters : list PropertyFilter
}.

(** [value.get(segment)?] for each segment. *)
Fixpoint walk (current : Value) (rest : list string) : option Value :=
  match rest with
  | [] => Some current
  | segment :: rest' => value_get current segment ≫= (fun v => walk v rest')
  end.
Definition property_at (properties : PropertyMap) (path : list string) : option Value :=
  match path with
  | [] => None
  | first :: rest => properties !! first ≫= (fun v => walk v rest)
  end.

(** [QueryEntity::has_label], [QueryEntity::property] *)
Definition entity_has_label (e : QueryEntity) (label : string) : bool := bool_decide (label ∈ qe_labels e).
Definition entity_property (e : QueryEntity) (path : list string) : option Value := property_at (qe_properties e) path.

(** [IntoPropertyPath for &str] *)
Definition into_property_path (path : string) : list string :=
  List.filter (fun segment => negb (bool_decide (segment = ""))) (split_on dot path).
(** [EntityScan::with_property_eq] *)
Definition with_property_eq (scan : EntityScan) (path : string) (value : Value) : EntityScan := {|
  sn_label := sn_label scan;
  sn_property_filters := sn_property_filters scan
    ++ [{| pf_path := into_property_path path; pf_op := FilterEq; pf_value := value |}] |}.

Definition matches_property (properties : PropertyMap) (filter : PropertyFilter) : bool :=
  match pf_op filter with
  | FilterEq => match property_at properties (pf_path filter) with Some v => value_eqb v (pf_value filter) | None => false end
  end.

(** What the executor asks of a store. *)
Class QueryStore (S : Type) : Type := {
  qs_get_entity : S -> string -> option QueryEntity;
  qs_scan_entities : S -> EntityScan -> list (result QueryEntity CypherError);
  qs_get_link : S -> string -> option QueryLink;
  qs_traverse_links : S -> LinkTraversal -> list (result QueryLink CypherError)
}.

(** ** The store in memory *)

Record MemoryQueryStore : Type := {
  mq_entities : gmap string QueryEntity;
  mq_links : gmap string QueryLink;
  mq_outgoing_links : gmap string (gset string);
  mq_incoming_links : gmap string (gset string)
}.
Definition memory_query_store_new : MemoryQueryStore := {|
  mq_entities := ∅; mq_links := ∅; mq_outgoing_links := ∅; mq_incoming_links := ∅ |}.

(** [MemoryQueryStore::insert_entity] *)
Definition mq_insert_entity (entity : QueryEntity) (s : MemoryQueryStore) : MemoryQueryStore * option QueryEntity :=
  ({| mq_entities := <[qe_id entity := entity]> (mq_entities s); mq_links := mq_links s;
      mq_outgoing_links := mq_outgoing_links s; mq_incoming_links := mq_incoming_links s |},
   mq_entities s !! qe_id entity).

(** [if let Some(ids) = map.get_mut(key) { ids.remove(id) }] *)
Definition unindex (key id : string) (m : gmap string (gset string)) : gmap string (gset string) :=
  match m !! key with Some ids => <[key := ids ∖ {[id]}]> m | None => m end.
(** [map.entry(key).or_default().insert(id)] *)
Definition index_link (key id : string) (m : gmap string (gset string)) : gmap string (gset string) :=
  <[key := default ∅ (m !! key) ∪ {[id]}]> m.

Definition remove_link_indexes (link : QueryLink) (s : MemoryQueryStore) : MemoryQueryStore := {|
  mq_entities := mq_entities s; mq_links := mq_links s;
  mq_outgoing_links := unindex (ql_source_id link) (ql_id link) (mq_outgoing_links s);
  mq_incoming_links := unindex (ql_target_id link) (ql_id link) (mq_incoming_links s) |}.

Definition mq_insert_link (link : QueryLink) (s : MemoryQueryStore) : MemoryQueryStore * option QueryLink :=
  let replaced := mq_links s !! ql_id link in
  let s := {| mq_entities := mq_entities s; mq_links := <[ql_id link := link]> (mq_links s);
              mq_outgoing_links := mq_outgoing_links s; mq_incoming_links := mq_incoming_links s |} in
  let s := match replaced with Some old => remove_link_indexes old s | None => s end in
  ({| mq_entities := mq_entities s; mq_links := mq_links s;
      mq_outgoing_links := index_link (ql_source_id link) (ql_id link) (mq_outgoing_links s);
      mq_incoming_links := index_link (ql_target_id link) (ql_id link) (mq_incoming_links s) |}, replaced).

Definition entity_matches_scan (entity : QueryEntity) (scan : EntityScan) : bool :=
  match sn_label scan with Some label => entity_has_label entity label | None => true end
  && forallb (matches_property (qe_properties entity)) (sn_property_filters scan).

Definition types_match (types : list string) (link_type : string) : bool :=
  match types with [] => true | _ => existsb (fun ty => bool_decide (ty = link_type)) types end.
Definition link_matches_traversal (link : QueryLink) (traversal : LinkTraversal) : bool :=
  types_match (tr_relationship_types traversal) (ql_link_type link)
  && forallb (matches_property (ql_properties link)) (tr_link_property_filters traversal).

Definition link_ids_for_direction (s : MemoryQueryStore) (traversal : LinkTraversal) : gset string :=
  let outgoing := default ∅ (mq_outgoing_links s !! tr_anchor_id traversal) in
  let incoming := default ∅ (mq_incoming_links s !! tr_anchor_id traversal) in
  match tr_direction traversal with
  | Outgoing => outgoing
  | Incoming => incoming
  | Either => outgoing ∪ incoming
  end.

(** Values of a map, in the order of the keys. *)
Definition values_in_order {A} (m : gmap string A) : list A :=
  map snd (sort_by (fun a b => String.compare (fst a) (fst b)) (map_to_list m)).

#[global] Instance memory_query_store : QueryStore MemoryQueryStore := {|
  qs_get_entity s id := mq_entities s !! id;
  qs_scan_entities s scan :=
    map Ok (List.filter (fun entity => entity_matches_scan entity scan) (values_in_order (mq_entities s)));
  qs_get_link s id := mq_links s !! id;
  qs_traverse_links s traversal :=
    map Ok (List.filter (fun link => link_matches_traversal link traversal)
              (somes (map (fun id => mq_links s !! id)
                          (sort_by String.compare (elements (link_ids_for_direction s traversal)))))) |}.
End Data.

(** ** The store over the storage adapter *)

(** The ASCII unit separator. *)
Definition SEP : ascii := Eval compute in Stdlib.Strings.Ascii.ascii_of_nat 31.

Definition encode_entity_id (collection raw_id : string) : string := collection +:+ String SEP raw_id.

(** The text before and after the first separator. *)
Fixpoint decode_entity_id (encoded : string) : option (CollectionId * EntityId) :=
  match encoded with
  | "" => None
  | String c rest =>
      if decide (c = SEP) then Some ("", rest)
      else match decode_entity_id rest with Some (collection, id) => Some (String c collection, id) | None => None end
  end.

Section Adapter.
Context `{SerdeNumber}.
(** [AxonError::to_string] *)
Variable error_text : AxonError -> string.

Record StorageAdapterQueryStore : Type := {
  sq_storage : MemoryStorageAdapter;
  sq_label_to_collection : gmap string string;
  sq_collection_to_labels : gmap string (list string)
}.

Definition query_store_new (storage : MemoryStorageAdapter) (schema : SchemaSnapshot) : StorageAdapterQueryStore :=
  let labels := sort_by (fun a b => String.compare (fst a) (fst b)) (map_to_list (ss_labels schema)) in
  {| sq_storage := storage;
     sq_label_to_collection := fold_left (fun m '(label, def) => <[label := ld_collection_name def]> m) labels ∅;
     sq_collection_to_labels := fold_left (fun m '(label, def) =>
       <[ld_collection_name def := default [] (m !! ld_collection_name def) ++ [label]]> m) labels ∅ |}.

Definition object_properties (v : Value) : PropertyMap :=
  match v with Object fields => list_to_map fields | _ => ∅ end.

Definition build_query_entity (st : StorageAdapterQueryStore) (entity : Entity) : QueryEntity := {|
  qe_id := encode_entity_id (e_collection entity) (e_id entity);
  qe_labels := list_to_set (default [] (sq_collection_to_labels st !! e_collection entity));
  qe_properties := object_properties (e_data entity) |}.

Definition build_query_link (link : Link) : QueryLink := {|
  ql_id := storage_id (l_source_collection link) (l_source_id link) (l_link_type link)
             (l_target_collection link) (l_target_id link);
  ql_source_id := encode_entity_id (l_source_collection link) (l_source_id link);
  ql_target_id := encode_entity_id (l_target_collection link) (l_target_id link);
  ql_link_type := l_link_type link;
  ql_properties := object_properties (l_metadata link) |}.

Definition resolve_json_path (data : Value) (path : list string) : option Value :=
  match path with
  | [] => None
  | first :: rest => value_get data first ≫= (fun v => walk v rest)
  end.

Definition data_matches_filters (data : Value) (filters : list PropertyFilter) : bool :=
  forallb (fun filter =>
    match pf_op filter with
    | FilterEq => match resolve_json_path data (pf_path filter) with Some v => value_eqb v (pf_value filter) | None => false end
    end) filters.

(** The keys under which an index may hold a value; reading a timestamp can
    panic on text that is not ASCII. *)
Definition json_to_index_values (value : Value) : result (list IndexValue) CypherError :=
  match value with
  | JString s =>
      match coerce_datetime_nanos value with
      | Ok nanos => Ok [IVString s; IVDatetime nanos]
      | Err _ => Ok [IVString s]
      | Panic => Panic
      end
  | Number n =>
      Ok (somes [option_map IVInteger (number_as_i64 n); option_map IVFloat (number_as_f64 n)])
  | Bool b => Ok [IVBoolean b]
  | _ => Ok []
  end.

Definition range_scan_collection (st : StorageAdapterQueryStore) (collection_id : CollectionId) (scan : EntityScan)
    : list (result QueryEntity CypherError) :=
  match range_scan (sq_storage st) collection_id None None None with
  | Ok entities =>
      map (fun entity => Ok (build_query_entity st entity))
          (List.filter (fun entity => data_matches_filters (e_data entity) (sn_property_filters scan)) entities)
  | Err err => [Err (StorageFailure (error_text err))]
  | Panic => [Panic]
  end.

(** The ids under each of the keys; [None] when a lookup fails. *)
Fixpoint lookup_all (st : StorageAdapterQueryStore) (collection_id : CollectionId) (property : string)
    (candidates : list IndexValue) : option (list EntityId) :=
  match candidates with
  | [] => Some []
  | value :: rest =>
      match index_lookup (sq_storage st) collection_id property value with
      | Ok found => option_map (app found) (lookup_all st collection_id property rest)
      | _ => None
      end
  end.

(** [ids.sort(); ids.dedup()] *)
Definition sorted_distinct (ids : list EntityId) : list EntityId :=
  sort_by String.compare (elements (list_to_set ids : gset EntityId)).

Definition get_ok (s : MemoryStorageAdapter) (collection_id : CollectionId) (id : EntityId) : option Entity :=
  match get s collection_id id with Ok entity => entity | _ => None end.

(** Candidates from an index, checked against the filters. *)
Definition indexed_scan (st : StorageAdapterQueryStore) (collection_id : CollectionId) (scan : EntityScan)
    (filter : PropertyFilter) : list (result QueryEntity CypherError) :=
  match json_to_index_values (pf_value filter) with
  | Ok [] => range_scan_collection st collection_id scan
  | Ok candidates =>
      match lookup_all st collection_id (join_with dot (pf_path filter)) candidates with
      | None => range_scan_collection st collection_id scan
      | Some ids =>
          map (fun entity => Ok (build_query_entity st entity))
              (List.filter (fun entity => data_matches_filters (e_data entity) (sn_property_filters scan))
                 (somes (map (get_ok (sq_storage st) collection_id) (sorted_distinct ids))))
      end
  | _ => [Panic]
  end.

Definition scan_entities (st : StorageAdapterQueryStore) (scan : EntityScan) : list (result QueryEntity CypherError) :=
  match sn_label scan ≫= (fun label => sq_label_to_collection st !! label) with
  | None => []
  | Some collection_id =>
      match List.find (fun f => match pf_op f with FilterEq => true end) (sn_property_filters scan) with
      | Some filter => indexed_scan st collection_id scan filter
      | None => range_scan_collection st collection_id scan
      end
  end.

(** Listing links does not fail in the adapter in memory. *)
Definition traverse_links (st : StorageAdapterQueryStore) (traversal : LinkTraversal)
    : list (result QueryLink CypherError) :=
  match decode_entity_id (tr_anchor_id traversal) with
  | None => []
  | Some (collection_id, entity_id) =>
      let type_hint := match tr_relationship_types traversal with [ty] => Some ty | _ => None end in
      let outbound := list_outbound_links (sq_storage st) collection_id entity_id type_hint in
      let inbound := list_inbound_links (sq_storage st) collection_id entity_id type_hint in
      let raw := match tr_direction traversal with
                 | Outgoing => outbound | Incoming => inbound | Either => outbound ++ inbound end in
      map (fun link => Ok (build_query_link link))
          (List.filter (fun link => types_match (tr_relationship_types traversal) (l_link_type link)) raw)
  end.

Definition get_query_entity (st : StorageAdapterQueryStore) (id : string) : option QueryEntity :=
  match decode_entity_id id with
  | Some (collection_id, entity_id) => option_map (build_query_entity st) (get_ok (sq_storage st) collection_id entity_id)
  | None => None
  end.

#[global] Instance storage_adapter_query_store : QueryStore StorageAdapterQueryStore := {|
  qs_get_entity := get_query_entity;
  qs_scan_entities := scan_entities;
  qs_get_link _ _ := None;
  qs_traverse_links := traverse_links |}.
End Adapter.
