(* ===== verification/CypherExec.v ===== *)
(** * Cypher: the executor ([crates/axon-cypher/src/executor.rs])

    The operators of a plan over a store.  A stream is the list of the items it
    would yield when pulled to its end; the operators have no effects, so pulling
    fewer items yields a prefix.  The deadline is checked by [row_next], which
    models one pull. *)

From S2P Require Import Prelude Json Rules JsonOps EntityReads CypherAst CypherLexer CypherPlan CypherStore.
From S2P Require Import PolicyPlan Explain.
Local Open Scope axon_scope.

Section Exec.
Context `{SerdeNumber} `{!RuleEnv}.
Context {S : Type} `{!QueryStore S}.

Inductive BindingValue : Type := BoundEntity (e : QueryEntity) | BoundNull.
Definition BindingRow : Type := gmap string BindingValue.
Definition Row : Type := gmap string Value.

Definition exec_bind_entity (row : BindingRow) (alias : option string) (entity : QueryEntity) : BindingRow :=
  match alias with Some a => <[a := BoundEntity entity]> row | None => row end.
Definition bound_entity (row : BindingRow) (alias : string) : option QueryEntity :=
  match row !! alias with Some (BoundEntity entity) => Some entity | _ => None end.
Definition target_label_matches (entity : QueryEntity) (label : option string) : bool :=
  match label with Some l => entity_has_label entity l | None => true end.
Definition other_entity_id (link : QueryLink) (direction : Direction) : string :=
  match direction with
  | Outgoing => ql_target_id link
  | Incoming => ql_source_id link
  | Either => ql_target_id link
  end.

(** ** Values *)

(** Fields of a map, in the order of the keys. *)
Definition fields_in_order (m : gmap string Value) : list (string * Value) :=
  sort_by (fun a b => String.compare (fst a) (fst b)) (map_to_list m).

Definition entity_to_json (entity : QueryEntity) : Value :=
  Object [("id", JString (qe_id entity));
          ("labels", Array (map JString (sort_by String.compare (elements (qe_labels entity)))));
          ("properties", Object (fields_in_order (qe_properties entity)))].
Definition binding_to_json (binding : BindingValue) : Value :=
  match binding with BoundEntity entity => entity_to_json entity | BoundNull => Null end.
Definition binding_property (binding : BindingValue) (path : list string) : option Value :=
  match binding with BoundEntity entity => entity_property entity path | BoundNull => None end.

Definition value_ordering (left right : Value) : option comparison :=
  match left, right with
  | Number l, Number r =>
      match number_as_f64 l, number_as_f64 r with Some a, Some b => f64_partial_cmp a b | _, _ => None end
  | JString l, JString r => Some (String.compare l r)
  | Bool l, Bool r => Some (bool_compare l r)
  | _, _ => None
  end.

Definition string_pair (left right : Value) : option (string * string) :=
  match as_str left, as_str right with Some l, Some r => Some (l, r) | _, _ => None end.
Definition str_starts_with (s prefix : string) : bool := bool_decide (is_Some (str_strip_prefix prefix s)).
(** [str::ends_with] *)
Fixpoint str_ends_with (s suffix : string) : bool :=
  bool_decide (s = suffix) || match s with "" => false | String _ rest => str_ends_with rest suffix end.

Definition exec_compare_values (op : ComparisonOp) (left right : Value) : bool :=
  let ordered (p : comparison -> bool) := match value_ordering left right with Some c => p c | None => false end in
  let strings (p : string -> string -> bool) := match string_pair left right with Some (l, r) => p l r | None => false end in
  match op with
  | CmpEq => value_eqb left right
  | CmpNotEq => negb (value_eqb left right)
  | CmpLt => ordered (fun c => match c with Lt => true | _ => false end)
  | CmpLtEq => ordered (fun c => match c with Gt => false | _ => true end)
  | CmpGt => ordered (fun c => match c with Gt => true | _ => false end)
  | CmpGtEq => ordered (fun c => match c with Lt => false | _ => true end)
  | CmpIn => match right with Array values => existsb (fun v => value_eqb v left) values | _ => false end
  | CmpContains => strings str_contains
  | CmpStartsWith => strings str_starts_with
  | CmpEndsWith => strings str_ends_with
  end.

Definition value_rank (v : Value) : Z :=
  match v with Null => 0 | Bool _ => 1 | Number _ => 2 | JString _ => 3 | Array _ => 4 | Object _ => 5 end.
Definition total_value_ordering (left right : Value) : comparison :=
  then_cmp (Z.compare (value_rank left) (value_rank right))
    (match left, right with
     | Null, Null => Eq
     | Bool l, Bool r => bool_compare l r
     | Number l, Number r =>
         match number_as_f64 l, number_as_f64 r with Some a, Some b => default Eq (f64_partial_cmp a b) | _, _ => Eq end
     | JString l, JString r => String.compare l r
     | _, _ => String.compare (value_text left) (value_text right)
     end).

(** ** Expressions *)

Definition eval_function (name : string) (arguments : list (FunctionArg Expression)) (row : BindingRow)
    : result Value CypherError :=
  let lower := ascii_lowercase name in
  match arguments with
  | [argument] =>
      if bool_decide (lower = "id") then
        match argument with
        | ArgExpression (EVariable variable) =>
            Ok (match bound_entity row variable with Some entity => JString (qe_id entity) | None => Null end)
        | _ => Err (UnsupportedPlan "id() requires a variable argument")
        end
      else if bool_decide (lower = "type") then
        match argument with
        | ArgExpression (EVariable _) => Ok Null
        | _ => Err (UnsupportedPlan "type() requires a relationship variable argument")
        end
      else if bool_decide (lower ∈ ["count"; "sum"; "avg"; "min"; "max"; "collect"])
      then Err (UnsupportedPlan ("materializing aggregate function " +:+ name +:+
                  "() is out of scope for the streaming executor core"))
      else Err (UnsupportedPlan ("unsupported function " +:+ name +:+ "()"))
  | _ =>
      if bool_decide (lower ∈ ["count"; "sum"; "avg"; "min"; "max"; "collect"])
      then Err (UnsupportedPlan ("materializing aggregate function " +:+ name +:+
                  "() is out of scope for the streaming executor core"))
      else Err (UnsupportedPlan ("unsupported function " +:+ name +:+ "()"))
  end.

(** [f64] text in an error message. *)
Variable f64_text : f64 -> string.

(** [eval_json], [eval_literal] and [eval_truthy] *)
Fixpoint eval_json (e : Expression) (row : BindingRow) : result Value CypherError :=
  match e with
  | ELiteral LitNull => Ok Null
  | ELiteral (LitBool b) => Ok (Bool b)
  | ELiteral (LitInteger i) => Ok (Number (number_of_i64 i))
  | ELiteral (LitFloat f) =>
      match number_of_f64 f with
      | Some n => Ok (Number n)
      | None => Err (UnsupportedPlan ("non-finite float literal " +:+ f64_text f))
      end
  | ELiteral (LitString s) => Ok (JString s)
  | ELiteral (LitList items) =>
      let? values :=
        (fix go l := match l with
                     | [] => Ok []
                     | x :: rest => let? v := eval_json x row in let? vs := go rest in Ok (v :: vs)
                     end) items in
      Ok (Array values)
  | EVariable name => Ok (match row !! name with Some binding => binding_to_json binding | None => Null end)
  | EProperty variable path => Ok (default Null (row !! variable ≫= (fun binding => binding_property binding path)))
  | EParameter name => Err (UnsupportedPlan ("execution parameters are not available for $" +:+ name))
  | EExists _ | ENotExists _ =>
      Err (UnsupportedPlan "EXISTS expressions must be planned as ExistsCheck operators")
  | EBinaryLogical op l r =>
      let? lv := eval_json l row in
      let left := default false (as_bool lv) in
      match op, left with
      | LogicalAnd, false => Ok (Bool false)
      | LogicalOr, true => Ok (Bool true)
      | _, _ => let? rv := eval_json r row in Ok (Bool (default false (as_bool rv)))
      end
  | ENot inner => let? v := eval_json inner row in Ok (Bool (negb (default false (as_bool v))))
  | EComparison op l r =>
      let? lv := eval_json l row in
      let? rv := eval_json r row in
      Ok (Bool (exec_compare_values op lv rv))
  | EIsNull inner negated =>
      let? v := eval_json inner row in Ok (Bool (if negated then negb (is_null v) else is_null v))
  | EFunctionCall name arguments => eval_function name arguments row
  end.
Definition eval_truthy (e : Expression) (row : BindingRow) : result bool CypherError :=
  let? v := eval_json e row in Ok (default false (as_bool v)).

Definition exec_predicate_matches (predicate : option Expression) (row : BindingRow) : result bool CypherError :=
  match predicate with Some e => eval_truthy e row | None => Ok true end.
Definition literal_only (e : Expression) : result Value CypherError := eval_json e ∅.

Definition compare_item (item : SortItem) (left right : BindingRow) : comparison :=
  let ordering :=
    match eval_json (si_expression item) left, eval_json (si_expression item) right with
    | Ok l, Ok r => total_value_ordering l r
    | Ok _, _ => Lt
    | _, Ok _ => Gt
    | _, _ => Eq
    end in
  if si_descending item then CompOpp ordering else ordering.
Fixpoint compare_rows (items : list SortItem) (left right : BindingRow) : comparison :=
  match items with
  | [] => Eq
  | item :: rest => then_cmp (compare_item item left right) (compare_rows rest left right)
  end.

(** ** Streams *)

Definition Stream (A : Type) : Type := list (result A CypherError).

(** Keeps the rows that satisfy a check; an error of the check takes the place of
    its row. *)
Definition filter_rows (check : BindingRow -> result bool CypherError) (rows : Stream BindingRow) : Stream BindingRow :=
  flat_map (fun item =>
    match item with
    | Ok row => match check row with Ok true => [Ok row] | Ok false => [] | Err e => [Err e] | Panic => [Panic] end
    | other => [other]
    end) rows.

(** The rows of entities under an alias. *)
Definition entity_rows (alias : option string) (entities : Stream QueryEntity) : Stream BindingRow :=
  map (fun item => match item with Ok entity => Ok (exec_bind_entity ∅ alias entity) | Err e => Err e | Panic => Panic end)
      entities.

(** The first failure of a stream, or all its rows. *)
Fixpoint collect_rows {A} (rows : Stream A) : result (list A) CypherError :=
  match rows with
  | [] => Ok []
  | item :: rest => let? row := item in let? others := collect_rows rest in Ok (row :: others)
  end.

Definition materialize_sorted (rows : Stream BindingRow) (items : list SortItem) : Stream BindingRow :=
  match collect_rows rows with
  | Ok rs => map Ok (sort_by (compare_rows items) rs)
  | Err e => [Err e]
  | Panic => [Panic]
  end.

Definition op_of_index (c : IndexComparison) : ComparisonOp :=
  match c with
  | IdxEq => CmpEq | IdxNotEq => CmpNotEq | IdxLt => CmpLt | IdxLtEq => CmpLtEq
  | IdxGt => CmpGt | IdxGtEq => CmpGtEq | IdxIn => CmpIn | IdxPrefix => CmpStartsWith
  end.
Definition index_predicate_expression (p : IndexLookupPlan) : option Expression :=
  match il_comparison p, il_value p, il_alias p with
  | Some comparison, Some value, Some alias =>
      Some (EComparison (op_of_index comparison) (EProperty alias [il_property p]) value)
  | _, _, _ => None
  end.

Definition label_scan (label : string) : EntityScan := {| sn_label := Some label; sn_property_filters := [] |}.
(** The scan of an index lookup: an equality with a value that does not depend on
    the row is handed to the store. *)
Definition index_scan (p : IndexLookupPlan) : EntityScan :=
  match il_comparison p, option_map literal_only (il_value p) with
  | Some IdxEq, Some (Ok value) => with_property_eq (label_scan (il_label p)) (il_property p) value
  | _, _ => label_scan (il_label p)
  end.
Definition index_sort_items (p : IndexLookupPlan) : list SortItem :=
  map (fun order => {| si_expression := EProperty (default "" (il_alias p)) [io_property order];
                       si_descending := io_descending order |}) (il_ordered_by p).

Variable store : S.

Definition index_lookup_stream (p : IndexLookupPlan) : Stream BindingRow :=
  let rows := filter_rows (exec_predicate_matches (index_predicate_expression p))
                (entity_rows (il_alias p) (qs_scan_entities store (index_scan p))) in
  match il_ordered_by p with [] => rows | _ => materialize_sorted rows (index_sort_items p) end.

(** ** Expansion *)

(** The rows and the next anchors that the links of one anchor give, at the depth
    after it; [true] when an error ends the expansion. *)
Fixpoint expand_links (p : ExpandPlan) (input : BindingRow) (next_depth : Z) (links : Stream QueryLink)
    : Stream BindingRow * list string * bool :=
  match links with
  | [] => ([], [], false)
  | Ok link :: rest =>
      match qs_get_entity store (other_entity_id link (xp_direction p)) with
      | Some entity =>
          if target_label_matches entity (xp_target_label p) then
            let '(rows, anchors, failed) := expand_links p input next_depth rest in
            ((if (xp_min_depth p <=? next_depth)%Z then [Ok (exec_bind_entity input (xp_target_alias p) entity)] else [])
               ++ rows,
             (if (next_depth <? xp_max_depth p)%Z then [qe_id entity] else []) ++ anchors, failed)
          else expand_links p input next_depth rest
      | None => expand_links p input next_depth rest
      end
  | Err e :: _ => ([Err e], [], true)
  | Panic :: _ => ([Panic], [], true)
  end.

Definition expand_anchor (p : ExpandPlan) (input : BindingRow) (next_depth : Z) (anchor_id : string)
    : Stream BindingRow * list string * bool :=
  expand_links p input next_depth (qs_traverse_links store {|
    tr_anchor_id := anchor_id; tr_direction := xp_direction p;
    tr_relationship_types := xp_relationship_types p; tr_link_property_filters := [] |}).

Fixpoint expand_level (p : ExpandPlan) (input : BindingRow) (next_depth : Z) (frontier : list string)
    : Stream BindingRow * list string * bool :=
  match frontier with
  | [] => ([], [], false)
  | anchor_id :: rest =>
      let '(rows, anchors, failed) := expand_anchor p input next_depth anchor_id in
      if failed : bool then (rows, [], true)
      else let '(rows', anchors', failed') := expand_level p input next_depth rest in
           (rows ++ rows', anchors ++ anchors', failed')
  end.

(** The queue of the search holds anchors of one depth followed by anchors of the
    next; the two parts are the arguments of a level and what it returns. *)
Fixpoint expand_levels (remaining : nat) (p : ExpandPlan) (input : BindingRow) (depth : Z) (frontier : list string)
    : Stream BindingRow * bool :=
  match remaining with
  | O => ([], false)
  | Datatypes.S remaining' =>
      let '(rows, next, failed) := expand_level p input (depth + 1) frontier in
      if failed : bool then (rows, true)
      else let '(rows', failed') := expand_levels remaining' p input (depth + 1) next in (rows ++ rows', failed')
  end.

Definition expand_row (p : ExpandPlan) (input : BindingRow) : Stream BindingRow :=
  match xp_source_alias p with
  | None => [Err (UnsupportedPlan "Expand requires a source alias")]
  | Some source_alias =>
      match bound_entity input source_alias with
      | None => [Err (UnsupportedPlan ("Expand source alias " +:+ source_alias +:+ " is not bound to an entity"))]
      | Some source =>
          let '(rows, failed) := expand_levels (Z.to_nat (xp_max_depth p)) p input 0 [qe_id source] in
          if failed : bool then rows
          else if xp_optional p && Nat.eqb (length rows) 0
          then [Ok (match xp_target_alias p with Some alias => <[alias := BoundNull]> input | None => input end)]
          else rows
      end
  end.

(** ** EXISTS *)

Fixpoint exists_link (sp : ExistsSubplan) (input : BindingRow) (links : Stream QueryLink) : result bool CypherError :=
  match links with
  | [] => Ok false
  | item :: rest =>
      let? link := item in
      match qs_get_entity store (other_entity_id link (lp_direction (es_link_probe sp))) with
      | Some target =>
          if target_label_matches target (lp_target_label (es_link_probe sp)) then
            let? found := exec_predicate_matches (es_target_filter sp)
                            (exec_bind_entity input (lp_target_alias (es_link_probe sp)) target) in
            if found : bool then Ok true else exists_link sp input rest
          else exists_link sp input rest
      | None => exists_link sp input rest
      end
  end.

Definition exists_for_row (sp : ExistsSubplan) (input : BindingRow) : result bool CypherError :=
  match lp_source_alias (es_link_probe sp) with
  | None => Err (UnsupportedPlan "EXISTS link probe requires a source alias")
  | Some source_alias =>
      match bound_entity input source_alias with
      | None => Ok false
      | Some source =>
          exists_link sp input (qs_traverse_links store {|
            tr_anchor_id := qe_id source; tr_direction := lp_direction (es_link_probe sp);
            tr_relationship_types := lp_relationship_types (es_link_probe sp); tr_link_property_filters := [] |})
      end
  end.

(** ** Operators *)

Fixpoint binding_stream (op : PlanOperator) : Stream BindingRow :=
  match op with
  | PlanScan p =>
      filter_rows (exec_predicate_matches (sc_predicate p))
        (entity_rows (sc_alias p) (qs_scan_entities store (label_scan (sc_label p))))
  | PlanIndexLookup p => index_lookup_stream p
  | PlanExpand input p =>
      flat_map (fun item => match item with Ok row => expand_row p row | other => [other] end) (binding_stream input)
  | PlanFilter input predicate _ => filter_rows (eval_truthy predicate) (binding_stream input)
  | PlanProject input _ _ => binding_stream input
  | PlanSort input items _ => materialize_sorted (binding_stream input) items
  | PlanSkip input count _ => drop (Z.to_nat count) (binding_stream input)
  | PlanLimit input count _ => take (Z.to_nat count) (binding_stream input)
  | PlanExistsCheck input sp negated _ =>
      filter_rows (fun row => let? found := exists_for_row sp row in Ok (xorb found negated)) (binding_stream input)
  end.

(** ** Projection *)

Definition expression_name (e : Expression) : string :=
  match e with
  | EVariable name => name
  | EProperty variable path => variable +:+ "." +:+ join_with Ids.dot path
  | EFunctionCall name _ => name
  | ELiteral _ => "literal"
  | EParameter name => "$" +:+ name
  | EExists _ => "exists"
  | ENotExists _ => "not_exists"
  | EBinaryLogical _ _ _ | ENot _ | EComparison _ _ _ | EIsNull _ _ => "expression"
  end.
Definition column_name (item : ReturnItem) : string := default (expression_name (ri_expression item)) (ri_alias item).

Definition is_count_star (e : Expression) : bool :=
  match e with
  | EFunctionCall name [ArgStar] => bool_decide (ascii_lowercase name = "count")
  | _ => false
  end.

Fixpoint project_items (items : list ReturnItem) (row : BindingRow) (projected : Row) : result Row CypherError :=
  match items with
  | [] => Ok projected
  | item :: rest =>
      let? value := eval_json (ri_expression item) row in
      project_items rest row (<[column_name item := value]> projected)
  end.

(** [DistinctRows]: the JSON text of a row identifies it. *)
Fixpoint distinct_rows (seen : gset string) (rows : Stream Row) : Stream Row :=
  match rows with
  | [] => []
  | Ok row :: rest =>
      let key := value_text (Object (fields_in_order row)) in
      if bool_decide (key ∈ seen) then distinct_rows seen rest else Ok row :: distinct_rows ({[key]} ∪ seen) rest
  | other :: rest => other :: distinct_rows seen rest
  end.

Definition count_star_rows (clause : ReturnClause) (rows : Stream BindingRow) : Stream Row :=
  if negb (forallb (fun item => is_count_star (ri_expression item)) (rc_items clause))
  then [Err (UnsupportedPlan "count(*) cannot be mixed with non-aggregate return items yet")]
  else
    match collect_rows rows with
    | Ok rs =>
        let count := Number (number_of_i64 (Z.of_nat (length rs))) in
        [Ok (fold_left (fun m item => <[column_name item := count]> m) (rc_items clause) ∅)]
    | Err e => [Err e]
    | Panic => [Panic]
    end.

(** The projection of the rows of the input. *)
Definition project_rows (clause : ReturnClause) (rows : Stream BindingRow) : Stream Row :=
  if existsb (fun item => is_count_star (ri_expression item)) (rc_items clause) then count_star_rows clause rows
  else
    let projected := map (fun item => let? row := item in project_items (rc_items clause) row ∅) rows in
    if rc_distinct clause then distinct_rows ∅ projected else projected.

Definition project_stream (input : PlanOperator) (clause : ReturnClause) : Stream Row :=
  project_rows clause (binding_stream input).

Definition project_all_bindings (row : BindingRow) : Row := binding_to_json <$> row.

Definition row_stream (op : PlanOperator) : Stream Row :=
  match op with
  | PlanProject input clause _ => project_stream input clause
  | other => map (fun item => let? row := item in Ok (project_all_bindings row)) (binding_stream other)
  end.

(** ** Deadlines *)

(** Instants are counted from an epoch; [None] is the outcome of [checked_add]
    beyond the last instant of the platform. *)
Record RowStream : Type := { rs_inner : Stream Row; rs_deadline : Z }.
Definition DEFAULT_EXECUTION_TIMEOUT : Z := 30.
Definition execute_with_options (checked_add : Z -> Z -> option Z) (p : ExecutionPlan) (start timeout : Z) : RowStream :=
  {| rs_inner := row_stream (pln_root p); rs_deadline := default start (checked_add start timeout) |}.
Definition execute_plan (checked_add : Z -> Z -> option Z) (p : ExecutionPlan) (start : Z) : RowStream :=
  execute_with_options checked_add p start DEFAULT_EXECUTION_TIMEOUT.

(** [Iterator::next] of a row stream. *)
Definition row_next (now : Z) (stream : RowStream) : option (result Row CypherError) * RowStream :=
  if (rs_deadline stream <=? now)%Z
  then (Some (Err (QueryTimeout "execution exceeded 30-second wall-clock budget")), stream)
  else
    match rs_inner stream with
    | [] => (None, stream)
    | item :: rest => (Some item, {| rs_inner := rest; rs_deadline := rs_deadline stream |})
    end.
End Exec.
