(* ===== verification/CypherProofs.v ===== *)
(** * Cypher: planned queries return what they ask for

    On the store over the in-memory adapter, the plan of a query on one node
    pattern yields the rows of the collection that satisfy the pattern and the
    condition, whichever access path the planner chooses. *)

From S2P Require Import Prelude Json Ids Types IndexKeys Schema Rules Storage Catalog MemoryRows JsonOps PolicyEval EntityReads QueryPlan.
From S2P Require Import IndexQueries CypherAst CypherPlan CypherLimits CypherStore CypherExec Explain.
Local Open Scope axon_scope.

(** Documented behaviour of [serde_json::Number]: equality is symmetric. *)
Class SerdeNumberSym `{SerdeNumber} : Prop := {
  number_eqb_sym : forall a b, number_eqb a b = number_eqb b a
}.

Section Eval.
Context `{RuleEnv}.
Variable f64_text : f64 -> string.
Abbreviation eval := (eval_json f64_text).

(** ** Expressions that evaluate without errors *)

Fixpoint evaluable (e : Expression) : bool :=
  match e with
  | ELiteral (LitFloat f) => match number_of_f64 f with Some _ => true | None => false end
  | ELiteral (LitList items) => forallb evaluable items
  | ELiteral _ | EVariable _ | EProperty _ _ => true
  | EBinaryLogical _ l r | EComparison _ l r => evaluable l && evaluable r
  | ENot inner | EIsNull inner _ => evaluable inner
  | EFunctionCall name [ArgExpression (EVariable _)] => bool_decide (ascii_lowercase name ∈ ["id"; "type"])
  | EFunctionCall _ _ | EParameter _ | EExists _ | ENotExists _ => false
  end.

Lemma evaluable_ok e row : evaluable e = true -> exists v, eval e row = Ok v.
Proof.
  induction e as [l IH|name|variable path|name|sq IH|sq IH|op l r IHl IHr|e IH|op l r IHl IHr|e negated IH|name arguments IH]
    using expression_induction; cbn [evaluable eval_json]; try done; try by eexists.
  - destruct l as [| | |f| |items]; try by eexists.
    + destruct (number_of_f64 f); [by eexists|done].
    + cbn [literal_holds] in IH. intros Hall. cut (exists vs, (fix go l := match l with
        | [] => Ok [] | x :: rest => let? v := eval x row in let? vs := go rest in Ok (v :: vs) end) items = Ok vs).
      { intros [vs ->]. by eexists. }
      induction IH as [|x items Hx Hitems IHi]; [by eexists|]. cbn [forallb] in Hall.
      apply andb_true_iff in Hall as [Hex Hall]. destruct (Hx Hex) as [v ->]. destruct (IHi Hall) as [vs ->]. by eexists.
  - intros [Hl Hr]%andb_true_iff. destruct (IHl Hl) as [lv ->]. destruct (IHr Hr) as [rv ->]. cbn [result_bind].
    destruct op, (default false (as_bool lv)); by eexists.
  - intros Hi. destruct (IH Hi) as [v ->]. by eexists.
  - intros [Hl Hr]%andb_true_iff. destruct (IHl Hl) as [lv ->]. destruct (IHr Hr) as [rv ->]. by eexists.
  - intros Hi. destruct (IH Hi) as [v ->]. by eexists.
  - destruct arguments as [|[|[]] [|]]; try done. intros Hn%bool_decide_eq_true.
    unfold eval_function. case_bool_decide; [by eexists|]. case_bool_decide; [by eexists|]. set_solver.
Qed.

(** Whether a condition holds on a row. *)
Definition holds (e : Expression) (row : BindingRow) : bool :=
  match eval_truthy f64_text e row with Ok b => b | _ => false end.
Definition holds_opt (e : option Expression) (row : BindingRow) : bool :=
  match e with Some w => holds w row | None => true end.

Lemma eval_truthy_holds e row : evaluable e = true -> eval_truthy f64_text e row = Ok (holds e row).
Proof. intros He. unfold holds, eval_truthy. by destruct (evaluable_ok e row He) as [v ->]. Qed.

Lemma holds_and l r row : evaluable l = true -> evaluable r = true ->
  holds (EBinaryLogical LogicalAnd l r) row = holds l row && holds r row.
Proof.
  intros Hl Hr. unfold holds, eval_truthy. cbn [eval_json].
  destruct (evaluable_ok l row Hl) as [lv ->]. destruct (evaluable_ok r row Hr) as [rv ->]. cbn [result_bind].
  by destruct (default false (as_bool lv)).
Qed.

(** ** Constants *)

(** Expressions whose value does not depend on the row. *)
Fixpoint constant (e : Expression) : bool :=
  match e with
  | ELiteral (LitFloat f) => match number_of_f64 f with Some _ => true | None => false end
  | ELiteral (LitList items) => forallb constant items
  | ELiteral _ => true
  | _ => false
  end.

Lemma constant_eval e row : constant e = true -> exists v, literal_only f64_text e = Ok v /\ eval e row = Ok v.
Proof.
  unfold literal_only.
  induction e as [l IH|name|variable path|name|sq IH|sq IH|op l r IHl IHr|e IH|op l r IHl IHr|e negated IH|name arguments IH]
    using expression_induction; cbn [constant eval_json]; try done.
  destruct l as [| | |f| |items]; try by eexists.
  - destruct (number_of_f64 f); [by eexists|done].
  - cbn [literal_holds] in IH. intros Hall. cut (exists vs, (fix go l := match l with
        | [] => Ok [] | x :: rest => let? v := eval x ∅ in let? vs := go rest in Ok (v :: vs) end) items = Ok vs /\
        (fix go l := match l with
        | [] => Ok [] | x :: rest => let? v := eval x row in let? vs := go rest in Ok (v :: vs) end) items = Ok vs).
    { intros (vs & -> & ->). by eexists. }
    induction IH as [|x items Hx Hitems IHi]; [by eexists|]. cbn [forallb] in Hall.
    apply andb_true_iff in Hall as [Hex Hall]. destruct (Hx Hex) as (v & -> & ->).
    destruct (IHi Hall) as (vs & -> & ->). by eexists.
Qed.

Lemma constant_evaluable e : constant e = true -> evaluable e = true.
Proof.
  induction e as [l IH|name|variable path|name|sq IH|sq IH|op l r IHl IHr|e IH|op l r IHl IHr|e negated IH|name arguments IH]
    using expression_induction; cbn [constant evaluable]; try done.
  destruct l as [| | |f| |items]; try done. cbn [literal_holds] in IH. intros Hall.
  induction IH as [|x items Hx Hitems IHi]; [done|]. cbn [forallb] in *. apply andb_true_iff in Hall as [Ha Hb].
  by rewrite (Hx Ha), IHi.
Qed.

(** ** Comparisons with the sides exchanged *)

Context `{!SerdeNumberSym}.

Lemma value_eqb_sym a b : value_eqb a b = value_eqb b a.
Proof.
  revert b. induction a as [a IH] using (well_founded_induction (well_founded_ltof _ (fix size (v : Value) : nat :=
    S (match v with
       | Array items => (fix go l := match l with [] => 0 | x :: rest => size x + go rest end) items
       | Object fields => (fix go l := match l with [] => 0 | (_, x) :: rest => size x + go rest end) fields
       | _ => 0
       end)))).
  unfold ltof in IH. intros b. destruct a as [|x|n|s|xs|xs], b as [|y|m|t|ys|ys]; cbn [value_eqb]; try done.
  - by destruct x, y.
  - apply number_eqb_sym.
  - by apply bool_decide_ext.
  - revert ys. induction xs as [|x xs IHxs]; intros [|y ys]; try done.
    rewrite (IH x) by (simpl; lia). f_equal. apply IHxs. intros v Hv. apply IH. simpl in *. lia.
  - revert ys. induction xs as [|[k x] xs IHxs]; intros [|[l y] ys]; try done.
    rewrite (IH x) by (simpl; lia). f_equal; [f_equal; by apply bool_decide_ext|].
    apply IHxs. intros v Hv. apply IH. simpl in *. lia.
Qed.

Lemma value_ordering_opp a b : value_ordering a b = option_map CompOpp (value_ordering b a).
Proof.
  destruct a as [|x|n|s|xs|xs], b as [|y|m|t|ys|ys]; cbn [value_ordering option_map]; try done.
  - by destruct x, y.
  - destruct (number_as_f64 n) as [p|], (number_as_f64 m) as [q|]; try done. unfold f64_partial_cmp.
    rewrite (orb_comm (f64_is_nan p)). destruct (f64_is_nan q || f64_is_nan p); [done|]. simpl. f_equal. apply Z.compare_antisym.
  - f_equal. apply String.compare_antisym.
Qed.

Lemma reversed_compare op c a b : reverse_index_comparison op = Some c ->
  exec_compare_values op a b = exec_compare_values (op_of_index c) b a.
Proof.
  destruct op; cbn [reverse_index_comparison]; try done; intros [= <-]; unfold exec_compare_values; cbn [op_of_index];
    rewrite 1?(value_eqb_sym a b), 1?(value_ordering_opp a b); try done; by destruct (value_ordering b a) as [[]|].
Qed.

(** ** The conjunct that an index answers *)

Definition flat_side (e : Expression) : bool := match e with EProperty _ path => Nat.eqb (length path) 1 | _ => true end.
(** Comparisons at the top of a condition name properties, not paths into them. *)
Fixpoint flat_conjuncts (e : Expression) : bool :=
  match e with
  | EBinaryLogical LogicalAnd l r => flat_conjuncts l && flat_conjuncts r
  | EComparison _ l r => flat_side l && flat_side r
  | _ => true
  end.

Definition predicate_expression (v : string) (p : IndexPredicate) : Expression :=
  EComparison (op_of_index (ipr_comparison p)) (EProperty v [ipr_property p]) (ipr_value p).

Lemma index_comparison_op op c : index_comparison op = Some c -> op_of_index c = op.
Proof. by destruct op; intros [= <-]. Qed.

Lemma side_predicate_spec to op prop value v def p :
  side_predicate to op prop value v def = Some p -> flat_side prop = true -> evaluable value = true ->
  prop = EProperty v [ipr_property p] /\ to op = Some (ipr_comparison p) /\ ipr_value p = value /\ constant value = true.
Proof.
  unfold side_predicate. destruct prop as [| |found [|property path]| | | | | | | |]; try done.
  case_bool_decide as Hv; simpl; [|done]. destruct (is_indexed def property); simpl; [|done].
  destruct (index_value_supported value) eqn:Hs; simpl; [|done]. destruct (to op) as [c|]; simpl; [|done].
  intros [= <-]. subst found. cbn [ipr_property ipr_comparison ipr_value]. intros Hl%Nat.eqb_eq. simpl in Hl.
  destruct path; [|done]. intros He. split_and!; try done.
  destruct value as [[]| | | | | | | | | |]; try done.
Qed.

Lemma conjunct_holds w v def p row :
  find_indexable_predicate w v def = Some p -> flat_conjuncts w = true -> evaluable w = true ->
  constant (ipr_value p) = true /\ (holds w row = true -> holds (predicate_expression v p) row = true).
Proof.
  induction w; cbn [find_indexable_predicate flat_conjuncts evaluable]; try done.
  - destruct op; [|done]. intros Hf [Hf1 Hf2]%andb_true_iff [He1 He2]%andb_true_iff. rewrite holds_and by done.
    destruct (find_indexable_predicate w1 v def) as [p1|].
    + injection Hf as ->. destruct (IHw1 eq_refl Hf1 He1) as [Hc Hh]. split; [done|]. intros [? ?]%andb_true_iff. auto.
    + destruct (IHw2 Hf Hf2 He2) as [Hc Hh]. split; [done|]. intros [? ?]%andb_true_iff. auto.
  - intros Hf [Hf1 Hf2]%andb_true_iff [He1 He2]%andb_true_iff.
    destruct (comparison_predicate op w1 w2 v def) as [p1|] eqn:Hp.
    + injection Hf as ->. destruct (side_predicate_spec _ _ _ _ _ _ _ Hp Hf1 He2) as (-> & Hop & <- & Hc).
      split; [done|]. unfold predicate_expression. by rewrite (index_comparison_op _ _ Hop).
    + destruct (side_predicate_spec _ _ _ _ _ _ _ Hf Hf2 He1) as (-> & Hop & <- & Hc). split; [done|].
      unfold holds, predicate_expression, eval_truthy. cbn [eval_json]. destruct (constant_eval _ row Hc) as (x & _ & ->).
      cbn [result_bind as_bool default]. by rewrite (reversed_compare _ _ _ _ Hop).
Qed.
End Eval.

(** ** Streams of rows *)

Section Streams.
Context `{RuleEnv}.
Variable f64_text : f64 -> string.

Lemma filter_rows_total check (p : BindingRow -> bool) rows :
  (forall row, In row rows -> check row = Ok (p row)) -> filter_rows check (map Ok rows) = map Ok (List.filter p rows).
Proof.
  unfold filter_rows. induction rows as [|row rows IH]; intros Hc; [done|]. cbn [map flat_map List.filter].
  rewrite (Hc row) by (by left). rewrite IH by (intros; apply Hc; by right). by destruct (p row).
Qed.

Lemma filter_rows_holds e rows : evaluable e = true ->
  filter_rows (eval_truthy f64_text e) (map Ok rows) = map Ok (List.filter (holds f64_text e) rows).
Proof. intros He. apply filter_rows_total. intros row _. by apply eval_truthy_holds. Qed.

Lemma collect_rows_ok {A} (rows : list A) : collect_rows (map Ok rows) = Ok rows.
Proof. induction rows as [|r rows IH]; cbn [map collect_rows result_bind]; [done|]. by rewrite IH. Qed.

Lemma materialize_sorted_ok rows items :
  materialize_sorted f64_text (map Ok rows) items = map Ok (sort_by (compare_rows f64_text items) rows).
Proof. unfold materialize_sorted. by rewrite collect_rows_ok. Qed.
End Streams.

(** ** Access to the rows of a collection *)

Lemma fold_insert_lookup {A B} (g : A -> B) (l : list (string * A)) (m : gmap string B) x a :
  NoDup (map fst l) -> In (x, a) l -> fold_left (fun m '(y, b) => <[y := g b]> m) l m !! x = Some (g a).
Proof.
  assert (Hout : forall l (m : gmap string B), ~ In x (map fst l) ->
    fold_left (fun m '(y, b) => <[y := g b]> m) l m !! x = m !! x).
  { clear. induction l as [|[y b] l IH]; intros m Hx; [done|]. cbn [fold_left]. rewrite IH by (simpl in Hx; tauto).
    apply lookup_insert_ne. simpl in Hx. intros ->. tauto. }
  revert m. induction l as [|[y b] l IH]; intros m Hnd Hin; [done|]. cbn [fold_left].
  inversion_clear Hnd as [|? ? Hy Hnd']. destruct Hin as [[= -> ->]|Hin]; [|by apply IH].
  rewrite Hout; [by rewrite lookup_insert_eq|]. by rewrite <-list_elem_of_In.
Qed.

Lemma sort_by_NoDup_map {A B} (cmp : A -> A -> comparison) (f : A -> B) (l : list A) :
  NoDup (map f l) -> NoDup (map f (sort_by cmp l)).
Proof.
  assert (Hp : forall l, Permutation (sort_by cmp l) l).
  { assert (Hi : forall a l, Permutation (insert_by cmp a l) (a :: l)).
    { intros a. induction l0 as [|b l0 IH]; cbn [insert_by]; [done|]. destruct (cmp a b); try done;
        (etransitivity; [apply Permutation_cons, IH; done|]; apply Permutation_swap). }
    induction l0 as [|a l0 IH]; [done|]. unfold sort_by in *. cbn [fold_right]. by rewrite Hi, IH. }
  intros Hnd. by rewrite (Permutation_map f (Hp l)).
Qed.

Lemma list_to_map_assoc {A} (fields : list (string * A)) k :
  (list_to_map fields : gmap string A) !! k = assoc_get k fields.
Proof.
  induction fields as [|[k' a] fields IH]; cbn [assoc_get]; [apply lookup_empty|]. rewrite list_to_map_cons.
  case_decide as Hk; [subst; apply lookup_insert_eq|]. by rewrite lookup_insert_ne by done.
Qed.

Section Access.
Context `{RuleEnv} `{!SerdeNumberEq} `{!SerdeNumberSym}.
Variable error_text : AxonError -> string.
Variable f64_text : f64 -> string.
Variable s : MemoryStorageAdapter.
Variable snapshot : SchemaSnapshot.
Variables (label : string) (def : LabelDef).
Hypothesis Hlabel : snapshot_label snapshot label = Some def.
Abbreviation c := (ld_collection_name def).
Variable k : QualifiedCollectionId.
Hypothesis Hkey : resolve_catalog_key s c = Ok k.
Hypothesis Hrows : forall id e, stored s k id = Some e -> e_id e = id.
Variables (single : list IndexDef) (compound : list CompoundIndexDef).
Hypothesis Hindexed : indexed s.
Hypothesis Hdefs : fixed_defs s k single compound.

Abbreviation st := (query_store_new s snapshot).
#[local] Instance query_store : QueryStore StorageAdapterQueryStore := storage_adapter_query_store error_text.

Lemma label_collection : sq_label_to_collection st !! label = Some c.
Proof.
  cbn [query_store_new sq_label_to_collection].
  apply (fold_insert_lookup ld_collection_name _ _ label def).
  - apply sort_by_NoDup_map, NoDup_fst_map_to_list.
  - apply sort_by_In, list_elem_of_In, elem_of_map_to_list. done.
Qed.

(** The stored rows of the collection, in the order of their ids. *)
Variable rows : list Entity.
Hypothesis Hscan : range_scan s c None None None = Ok rows.

Lemma rows_spec : StronglySorted row_lt rows /\ forall e, In e rows <-> stored s k (e_id e) = Some e.
Proof.
  destruct (scan_rows s c k Hkey Hrows) as (rows' & Hs & Hsort & Hin). cbn [sr_range_scan memory_reads] in Hs.
  rewrite Hscan in Hs. by injection Hs as <-.
Qed.

Lemma label_scan_rows : qs_scan_entities st (label_scan label) = map (fun e => Ok (build_query_entity st e)) rows.
Proof.
  cbn [qs_scan_entities query_store storage_adapter_query_store]. unfold scan_entities. cbn [label_scan sn_label sn_property_filters].
  cbn [mbind option_bind]. rewrite label_collection. unfold range_scan_collection.
  change (sq_storage st) with s. rewrite Hscan. f_equal. apply filter_all. done.
Qed.
(** Indexes on a property itself, not on a path into it or on its elements. *)
Definition simple_index (d : IndexDef) : bool :=
  plain_type (ix_type d) && bool_decide (split_on dot (ix_field d) = [ix_field d])
  && bool_decide (IndexKeys.strip_brackets (ix_field d) = None) && negb (bool_decide (ix_field d = "")).

(** The value has the type of a declared index of the property. *)
Definition index_ready (property : string) (value : Value) : Prop :=
  exists d iv candidates, In d single /\ ix_field d = property /\ simple_index d = true /\
    extract_index_value (E := AxonError) value (ix_type d) = Ok (Some iv) /\ json_to_index_values value = Ok candidates.

Definition has_value (property : string) (value : Value) (e : Entity) : bool :=
  match value_get (e_data e) property with Some w => value_eqb w value | None => false end.

Lemma lookup_all_ids property candidates :
  exists ids, lookup_all st c property candidates = Some ids /\
    forall id, In id ids <-> exists iv, In iv candidates /\ id ∈ ids_at (s_indexes s) (k, property, iv).
Proof.
  induction candidates as [|iv candidates (ids & Hl & Hids)]; cbn [lookup_all].
  - exists []. split; [done|]. intros id. split; [done|by intros (? & ? & _)].
  - change (sq_storage st) with s. unfold index_lookup. rewrite Hkey. cbn [result_bind]. rewrite Hl. eexists. split; [done|].
    intros id. rewrite in_app_iff, Hids.
    assert (Hiv : In id (match s_indexes s !! (k, property, iv) with Some ids => ids_in_order ids | None => [] end) <->
      id ∈ ids_at (s_indexes s) (k, property, iv)).
    { unfold ids_at. destruct (s_indexes s !! _); simpl; [apply ids_in_order_In|set_solver]. }
    rewrite Hiv. split.
    + intros [?|(iv' & ? & ?)]; [exists iv|exists iv']; by split; [by (left + right)|].
    + intros (iv' & [->|?] & ?); [by left|right; by exists iv'].
Qed.

(** The keys tried include the one that an index of the type of the value has. *)
Lemma candidate_keys value ty iv candidates : plain_type ty = true ->
  extract_index_value (E := AxonError) value ty = Ok (Some iv) -> json_to_index_values value = Ok candidates -> In iv candidates.
Proof.
  intros Hty Hx Hc. destruct ty; try discriminate Hty; destruct value as [|b|n|t| |]; try discriminate Hx.
  - injection Hx as <-. cbn [json_to_index_values] in Hc. destruct (coerce_datetime_nanos _); simplify_eq; by left.
  - injection Hc as <-. cbn in Hx. destruct (number_as_i64 n); [|done]. injection Hx as <-. by left.
  - injection Hx as <-. injection Hc as <-. by left.
Qed.

Lemma sorted_distinct_spec ids : StronglySorted id_lt (sorted_distinct ids) /\ forall id, In id (sorted_distinct ids) <-> In id ids.
Proof.
  split; [apply ids_in_order_sorted|]. intros id. unfold sorted_distinct.
  by rewrite sort_by_In, <-list_elem_of_In, elem_of_elements, elem_of_list_to_set, list_elem_of_In.
Qed.

Lemma has_value_indexed property value d iv e :
  In d single -> ix_field d = property -> simple_index d = true ->
  extract_index_value (E := AxonError) value (ix_type d) = Ok (Some iv) ->
  stored s k (e_id e) = Some e -> has_value property value e = true -> e_id e ∈ ids_at (s_indexes s) (k, property, iv).
Proof.
  intros Hd <- Hsimple Hiv Hs Hv. unfold simple_index in Hsimple. rewrite !andb_true_iff in Hsimple.
  destruct Hsimple as [[[Hty Hsplit%bool_decide_eq_true] Hplain%bool_decide_eq_true] _].
  destruct (Hindexed k single compound Hdefs) as (Hexact & _ & _ & _ & Hrix). destruct (Hrix _ _ Hs) as [[keys Hkeys] _].
  apply Hexact. exists e, keys. split_and!; [done|done|]. unfold has_value in Hv.
  destruct (value_get (e_data e) (ix_field d)) as [w|] eqn:Hw; [|done].
  eapply (index_keys_in (e_data e) single d keys [iv]); [done|done| |by left].
  unfold extract_index_values. rewrite Hsplit. cbn [collect_index_json_values]. rewrite Hplain, Hw. cbn [result_map].
  by rewrite (extract_eq w value _ (Some iv)).
Qed.

Lemma equality_scan_rows property value : index_ready property value ->
  qs_scan_entities st (with_property_eq (label_scan label) property value) =
  map (fun e => Ok (build_query_entity st e)) (List.filter (has_value property value) rows).
Proof.
  intros (d & iv & candidates & Hd & Hf & Hsimple & Hiv & Hc).
  assert (Hpath : into_property_path property = [property] /\ join_with dot [property] = property /\ plain_type (ix_type d) = true).
  { unfold simple_index in Hsimple. rewrite !andb_true_iff in Hsimple. destruct Hsimple as [[[Hty Hs%bool_decide_eq_true] _] Hne].
    rewrite Hf in Hs, Hne. unfold into_property_path. rewrite Hs. cbn [List.filter]. by rewrite Hne. }
  destruct Hpath as (Hpath & Hjoin & Hty). pose proof (candidate_keys _ _ _ _ Hty Hiv Hc) as Hin.
  cbn [qs_scan_entities query_store storage_adapter_query_store]. unfold scan_entities, with_property_eq.
  cbn [label_scan sn_label sn_property_filters app mbind option_bind List.find pf_op]. rewrite label_collection.
  unfold indexed_scan. cbn [pf_value pf_path]. rewrite Hc, Hpath, Hjoin.
  destruct candidates as [|iv0 candidates]; [done|].
  destruct (lookup_all_ids property (iv0 :: candidates)) as (ids & -> & Hids). f_equal.
  destruct (sorted_distinct_spec ids) as [Hsort Hsd].
  change (sq_storage st) with s. rewrite (map_ext (get_ok s c) (stored s k)) by (intros i; unfold get_ok, get; by rewrite Hkey).
  destruct (fetched_rows s k Hrows _ Hsort) as [Hfs Hfin]. destruct rows_spec as [Hrs Hrin].
  assert (Hm : forall e, data_matches_filters (e_data e) [{| pf_path := [property]; pf_op := FilterEq; pf_value := value |}]
    = has_value property value e).
  { intros e. unfold data_matches_filters, has_value. cbn [forallb pf_op pf_path pf_value resolve_json_path walk mbind option_bind].
    destruct (value_get (e_data e) property); [by rewrite andb_true_r|done]. }
  apply (sorted_unique row_lt row_lt_trans row_lt_irrefl); [by apply sorted_filter..|].
  intros e. rewrite !filter_In, Hm, Hfin, Hrin, Hsd, Hids. split; [naive_solver|]. intros [Hs Hv]. split_and!; try done.
  exists iv. split; [done|]. by eapply has_value_indexed.
Qed.
(** *** Rows of one variable *)

Variable v : string.
Definition row_of (e : Entity) : BindingRow := <[v := BoundEntity (build_query_entity st e)]> ∅.
Definition all_rows : list BindingRow := map row_of rows.
Abbreviation holds_on := (holds f64_text).
Abbreviation stream := (binding_stream f64_text st).

Lemma filter_map {A B} (f : A -> B) (p : B -> bool) l : List.filter p (map f l) = map f (List.filter (fun a => p (f a)) l).
Proof. induction l as [|a l IH]; cbn [map List.filter]; [done|]. rewrite IH. by destruct (p (f a)). Qed.

Lemma entity_rows_ok es : entity_rows (Some v) (map (fun e => Ok (build_query_entity st e)) es) = map Ok (map row_of es).
Proof. unfold entity_rows. by rewrite !map_map. Qed.

Lemma eval_property e p : eval_json f64_text (EProperty v [p]) (row_of e) = Ok (default Null (value_get (e_data e) p)).
Proof.
  assert (Hl : row_of e !! v = Some (BoundEntity (build_query_entity st e))) by apply (lookup_insert_eq (M:=gmap string)).
  cbn [eval_json]. rewrite Hl. cbn [mbind option_bind binding_property entity_property property_at walk
    build_query_entity qe_properties]. destruct (e_data e); try done. cbn [object_properties value_get].
  match goal with |- context [default Null ?x] => assert (Hp : x = assoc_get p fields ≫= Some) by (by rewrite <-list_to_map_assoc) end.
  rewrite Hp. by destruct (assoc_get p fields).
Qed.

Lemma equality_holds e p ve value : constant ve = true -> literal_only f64_text ve = Ok value -> index_ready p value ->
  holds_on (EComparison CmpEq (EProperty v [p]) ve) (row_of e) = has_value p value e.
Proof.
  intros Hc Hl (d & iv & cs & _ & _ & Hs & Hx & _). destruct (constant_eval f64_text ve (row_of e) Hc) as (x & Hx' & Hev).
  rewrite Hl in Hx'. injection Hx' as <-. unfold holds, eval_truthy.
  change (eval_json f64_text (EComparison CmpEq (EProperty v [p]) ve) (row_of e)) with
    (let? lv := eval_json f64_text (EProperty v [p]) (row_of e) in let? rv := eval_json f64_text ve (row_of e) in
     Ok (Bool (exec_compare_values CmpEq lv rv))).
  rewrite eval_property, Hev. cbn [result_bind as_bool default exec_compare_values]. unfold has_value.
  destruct (value_get (e_data e) p) as [w|]; [done|]. cbn [default].
  unfold simple_index in Hs. rewrite !andb_true_iff in Hs. destruct Hs as [[[Hty _] _] _].
  by destruct value, (ix_type d).
Qed.

(** The rows of an index lookup, before they are ordered. *)
Lemma lookup_rows (p : IndexLookupPlan) cmp ve :
  il_alias p = Some v -> il_label p = label -> il_comparison p = Some cmp -> il_value p = Some ve -> constant ve = true ->
  (cmp = IdxEq -> forall value, literal_only f64_text ve = Ok value -> index_ready (il_property p) value) ->
  filter_rows (exec_predicate_matches f64_text (index_predicate_expression p))
    (entity_rows (il_alias p) (qs_scan_entities st (index_scan f64_text p))) =
  map Ok (List.filter (holds_on (EComparison (op_of_index cmp) (EProperty v [il_property p]) ve)) all_rows).
Proof.
  intros Ha Hl Hcmp Hval Hc Hready. unfold index_predicate_expression, index_scan. rewrite Ha, Hcmp, Hval, Hl.
  cbn [exec_predicate_matches option_map]. unfold all_rows.
  assert (Hev : evaluable (EComparison (op_of_index cmp) (EProperty v [il_property p]) ve) = true)
    by (cbn [evaluable]; by rewrite (constant_evaluable _ Hc)).
  assert (Hplain : forall es, filter_rows (eval_truthy f64_text (EComparison (op_of_index cmp) (EProperty v [il_property p]) ve))
      (entity_rows (Some v) (map (fun e => Ok (build_query_entity st e)) es)) =
    map Ok (List.filter (holds_on (EComparison (op_of_index cmp) (EProperty v [il_property p]) ve)) (map row_of es))).
  { intros es. by rewrite entity_rows_ok, filter_rows_holds. }
  assert (Hlabel_rows : filter_rows (eval_truthy f64_text (EComparison (op_of_index cmp) (EProperty v [il_property p]) ve))
      (entity_rows (Some v) (qs_scan_entities st (label_scan label))) =
    map Ok (List.filter (holds_on (EComparison (op_of_index cmp) (EProperty v [il_property p]) ve)) (map row_of rows)))
    by (by rewrite label_scan_rows, Hplain).
  destruct (constant_eval f64_text ve ∅ Hc) as (value & Hlit & _). rewrite Hlit. destruct cmp; try exact Hlabel_rows.
  rewrite equality_scan_rows, Hplain by (by apply Hready). f_equal. cbn [op_of_index].
  rewrite !filter_map. f_equal. rewrite <-filter_and. apply filter_ext. intros e.
  rewrite (equality_holds e _ _ value) by auto. by destruct (has_value _ _ e).
Qed.
(** *** The access path of a node *)

Variable node : NodePattern Expression.
Variable where_clause : option Expression.
Variable order_by : list SortItem.
Hypothesis Hvariable : np_variable node = Some v.
Hypothesis Hnode_label : np_label node = Some label.

(** The condition of the inline property. *)
Definition inline_condition : option Expression :=
  match np_properties node with p :: _ => Some (EComparison CmpEq (EProperty v [pe_key p]) (pe_value p)) | [] => None end.

(** At most one inline property, with a constant value; it is indexed, or no
    index is used at all. *)
Definition inline_ok : Prop :=
  match np_properties node with
  | [] => True
  | [p] => constant (pe_value p) = true /\
      (is_indexed def (pe_key p) = true \/
       (indexed_predicate node where_clause def = None /\ index_order_for_node (Some v) order_by def = None))
  | _ => False
  end.
Definition where_ok : Prop :=
  match where_clause with Some w => evaluable w = true /\ flat_conjuncts w = true | None => True end.
(** Values looked up in an index have its type. *)
Definition lookup_ok : Prop :=
  forall p value, indexed_predicate node where_clause def = Some p -> ipr_comparison p = IdxEq ->
    literal_only f64_text (ipr_value p) = Ok value -> index_ready (ipr_property p) value.
(** Rows are sorted by an index only if there is no condition to check after it. *)
Definition order_ok : Prop :=
  index_order_for_node (Some v) order_by def = None \/
  (where_clause = None /\ forallb (fun item => flat_side (si_expression item)) order_by = true).
Hypothesis Hinline : inline_ok.
Hypothesis Hwhere : where_ok.
Hypothesis Hlookup : lookup_ok.
Hypothesis Horder : order_ok.

Definition sorted_rows (items : list SortItem) (l : list BindingRow) : list BindingRow :=
  match items with [] => l | _ => sort_by (compare_rows f64_text items) l end.
Abbreviation wanted row := (holds_opt f64_text inline_condition row && holds_opt f64_text where_clause row).

Lemma inline_evaluable : match inline_condition with Some e => evaluable e = true | None => True end.
Proof.
  unfold inline_condition. pose proof Hinline as Hi. unfold inline_ok in Hi. destruct (np_properties node) as [|p [|]]; try done.
  cbn [evaluable]. destruct Hi as [Hc _]. by rewrite (constant_evaluable _ Hc).
Qed.

(** The chosen predicate is implied by the pattern and the condition, and makes
    the inline condition superfluous. *)
Lemma chosen_predicate p : indexed_predicate node where_clause def = Some p ->
  constant (ipr_value p) = true /\
  forall row, holds_on (predicate_expression v p) row && holds_opt f64_text where_clause row = wanted row.
Proof.
  intros Hp. pose proof Hinline as Hi. unfold inline_ok in Hi. unfold inline_condition.
  unfold indexed_predicate in Hp. rewrite Hvariable in Hp. destruct (np_properties node) as [|pr [|]] eqn:Hn; try done.
  - cbn [List.find] in Hp. pose proof Hwhere as Hw. unfold where_ok in Hw. destruct where_clause as [w|]; [|done].
    destruct Hw as [He Hf]. split; [by destruct (conjunct_holds f64_text w v def p ∅ Hp Hf He)|]. intros row. cbn [holds_opt andb].
    destruct (conjunct_holds f64_text w v def p row Hp Hf He) as [_ Himp].
    destruct (holds_on w row) eqn:Hh; [by rewrite Himp|by rewrite andb_false_r].
  - cbn [List.find] in Hp. destruct Hi as [Hc Hi]. destruct (is_indexed def (pe_key pr)) eqn:Hix.
    + injection Hp as <-. split; [done|]. intros row. done.
    + destruct Hi as [?|[Hnone _]]; [done|]. unfold indexed_predicate in Hnone. rewrite Hn in Hnone. cbn [List.find] in Hnone.
      rewrite Hix, Hvariable in Hnone. congruence.
Qed.

Lemma covered_order_indexed property : is_indexed def property = true ->
  covered_order (Some v) order_by property = [] \/
  (where_clause = None /\ exists descending,
     order_by = [{| si_expression := EProperty v [property]; si_descending := descending |}] /\
     covered_order (Some v) order_by property = [{| io_property := property; io_descending := descending |}]).
Proof.
  intros Hix. pose proof Horder as Ho. unfold order_ok, index_order_for_node in Ho. unfold covered_order, order_by_property, order_by_variable in *.
  destruct order_by as [|[e desc] [|]]; try by left. cbn [si_expression first_descending si_descending forallb] in *.
  destruct e as [| |x [|p path]| | | | | | | |]; try by left.
  case_bool_decide as Hv; cbn [negb orb] in *; [|by left]. case_bool_decide as Hp; cbn [negb] in *; [|by left].
  injection Hv as ->. subst p. rewrite Hix in Ho. destruct Ho as [Ho|[Hw Hf]]; [done|]. right. split; [done|].
  exists desc. cbn [flat_side length] in Hf. by destruct path.
Qed.

Lemma index_order_flat order : index_order_for_node (Some v) order_by def = Some order ->
  where_clause = None /\ order_by = [{| si_expression := EProperty v [io_property order]; si_descending := io_descending order |}].
Proof.
  intros Hi. pose proof Horder as [Ho|[Hw Hf]]; [congruence|]. split; [done|].
  unfold index_order_for_node, order_by_property, order_by_variable in Hi.
  destruct order_by as [|[e desc] [|]]; try done. cbn [si_expression first_descending si_descending forallb] in *.
  destruct e as [| |x [|p path]| | | | | | | |]; try done. case_bool_decide as Hv; cbn [negb orb] in *; [|done].
  destruct (is_indexed def p); cbn [negb] in Hi; [|done]. injection Hi as <-. injection Hv as ->.
  cbn [io_property io_descending]. by destruct path.
Qed.

(** What the access path yields: rows [p], in the order of [items]; together with
    the condition these are the rows that are wanted, and either the rows are in
    the order that the query asks for, or no order is claimed. *)
Definition accessed (op : PlanOperator) : Prop := exists (p : BindingRow -> bool) (items : list SortItem),
  stream op = map Ok (sorted_rows items (List.filter p all_rows)) /\
  (forall row, p row && holds_opt f64_text where_clause row = wanted row) /\
  ((items = [] /\ (order_by <> [] -> order_covered_by_existing_index op order_by = false)) \/
   (items = order_by /\ order_covered_by_existing_index op order_by = true /\ where_clause = None)).

Lemma access_rows op : plan_node_access snapshot node where_clause order_by = Ok op -> accessed op.
Proof.
  unfold plan_node_access. rewrite Hnode_label. cbn [ok_or result_bind]. rewrite Hlabel. cbn [ok_or result_bind].
  destruct (indexed_predicate node where_clause def) as [p|] eqn:Hp.
  - destruct (indexed_predicate_index _ _ _ _ Hp) as [index Hix]. rewrite Hix.
    intros ([] & _ & [= <-])%result_bind_ok. rewrite Hvariable. destruct (chosen_predicate p Hp) as [Hc Hw].
    set (plan := lookup_plan node label def p index _).
    assert (Hrows' := lookup_rows plan (ipr_comparison p) (ipr_value p) Hvariable eq_refl eq_refl eq_refl Hc
      (fun Heq value Hl => Hlookup p value Hp Heq Hl)).
    exists (holds_on (predicate_expression v p)). unfold predicate_expression in *.
    assert (Hpi : is_indexed def (ipr_property p) = true).
    { unfold label_index in Hix. apply find_some in Hix as [Hin Hb]. unfold is_indexed. apply existsb_exists. by exists index. }
    unfold accessed, binding_stream, index_lookup_stream. rewrite Hrows'.
    destruct (covered_order_indexed (ipr_property p) Hpi) as [Hno|(Hnw & desc & Hob & Hco)].
    + exists []. split_and!; [subst plan; cbn [lookup_plan il_ordered_by]; by rewrite Hno|done|left].
      split; [done|]. intros Hne. subst plan. cbn [order_covered_by_existing_index lookup_plan il_ordered_by]. rewrite Hno. by destruct order_by.
    + exists order_by. split_and!; [|done|right].
      * subst plan. cbn [lookup_plan il_ordered_by]. rewrite Hco. rewrite materialize_sorted_ok.
        unfold index_sort_items. cbn [lookup_plan il_alias il_ordered_by map io_property io_descending]. rewrite Hvariable. cbn [map io_property io_descending default].
        by rewrite Hob.
      * subst plan. cbn [order_covered_by_existing_index lookup_plan il_ordered_by]. rewrite Hco. by rewrite Hob.
  - rewrite Hvariable. destruct (index_order_for_node (Some v) order_by def) as [order|] eqn:Ho.
    + intros ([] & _ & [= <-])%result_bind_ok. destruct (index_order_flat order Ho) as [Hnw Hob].
      pose proof Hinline as Hi. unfold inline_ok in Hi. rewrite Hp, Ho in Hi. unfold accessed, inline_condition.
      destruct (np_properties node) as [|pr [|]] eqn:Hn; [|destruct Hi as [_ [Hix|[_ ?]]]; [|done]|done].
      * exists (fun _ => true), order_by. split_and!; [|by intros row; rewrite Hnw|].
        -- cbn [binding_stream]. unfold index_lookup_stream, index_predicate_expression, index_scan.
           cbn [il_comparison il_value il_alias il_label il_ordered_by index_sort_items map exec_predicate_matches].
           rewrite label_scan_rows, entity_rows_ok, (filter_rows_total _ (fun _ => true)) by done.
           rewrite materialize_sorted_ok. by rewrite Hob.
        -- right. by rewrite Hob.
      * unfold indexed_predicate in Hp. rewrite Hn in Hp. cbn [List.find] in Hp. by rewrite Hix in Hp.
    + intros ([] & _ & [= <-])%result_bind_ok. unfold accessed.
      exists (holds_opt f64_text (node_predicate node where_clause)), [].
      assert (Hev : match node_predicate node where_clause with Some e => evaluable e = true | None => True end).
      { pose proof inline_evaluable as Hi. unfold node_predicate, inline_condition in *. rewrite Hvariable. cbn [default].
        destruct (np_properties node); [|done]. pose proof Hwhere as Hw. unfold where_ok in Hw. destruct where_clause; [by destruct Hw|done]. }
      split_and!.
      * cbn [binding_stream sc_predicate sc_alias sc_label]. rewrite label_scan_rows, entity_rows_ok.
        apply filter_rows_total. intros row _. unfold exec_predicate_matches, holds_opt.
        destruct (node_predicate node where_clause); [by apply eval_truthy_holds|done].
      * intros row. unfold node_predicate, inline_condition. rewrite Hvariable. cbn [default].
        destruct (np_properties node); [|done]. cbn [holds_opt andb]. apply andb_diag.
      * left. split; [done|]. by destruct order_by.
Qed.
(** *** Whole queries *)

Lemma evaluable_no_exists e : evaluable e = true -> exists_checks e = [] /\ non_exists_predicate e = Some e.
Proof.
  induction e; cbn [evaluable exists_checks non_exists_predicate]; try done.
  destruct op; [|done]. intros [Hl Hr]%andb_true_iff. destruct (IHe1 Hl) as [-> ->]. by destruct (IHe2 Hr) as [-> ->].
Qed.

(** The operators above the access path: condition and order. *)
Lemma where_and_order op root : accessed op ->
  (match where_clause with Some w => apply_where snapshot op w | None => Ok op end) = Ok root ->
  stream (if negb (order_covered_by_existing_index root order_by) then PlanSort root order_by (operator_rows root) else root) =
  map Ok (sorted_rows order_by (List.filter (fun row => wanted row) all_rows)).
Proof.
  intros (p & items & Hs & Hp & Hitems) Hroot.
  assert (Hfilter : List.filter (fun row => p row && holds_opt f64_text where_clause row) all_rows = List.filter (fun row => wanted row) all_rows)
    by (apply filter_ext; intros; apply Hp).
  revert Hfilter. generalize (List.filter (fun row => wanted row) all_rows) as wanted_rows. intros wanted_rows Hfilter.
  pose proof Hwhere as Hw. unfold where_ok in Hw. clear Hp. destruct where_clause as [w|].
  - destruct Hw as [He _]. unfold apply_where in Hroot. destruct (evaluable_no_exists w He) as [Hex Hne]. rewrite Hex, Hne in Hroot.
    cbn [plan_exists_checks result_bind] in Hroot. injection Hroot as <-.
    destruct Hitems as [[-> _]|(_ & _ & ?)]; [|done]. cbn [sorted_rows] in Hs.
    assert (Hf : stream (PlanFilter op w (operator_rows op)) = map Ok wanted_rows).
    { cbn [binding_stream]. rewrite Hs, filter_rows_holds by done. rewrite <-Hfilter. f_equal. cbn [holds_opt].
      rewrite <-(filter_and (holds_on w) p). apply filter_ext. intros. apply andb_comm. }
    unfold sorted_rows. destruct order_by as [|i l]; cbn [order_covered_by_existing_index negb]; [exact Hf|].
    cbn [binding_stream] in *. by rewrite Hf, materialize_sorted_ok.
  - injection Hroot as <-. cbn [holds_opt] in Hfilter.
    rewrite (filter_ext _ p) in Hfilter by (intros; apply andb_true_r). rewrite Hfilter in Hs.
    destruct Hitems as [[-> Hcov]|(-> & -> & _)]; [|exact Hs]. cbn [sorted_rows] in Hs.
    destruct order_by as [|i l]; [exact Hs|]. rewrite Hcov by done. cbn [negb binding_stream sorted_rows].
    by rewrite Hs, materialize_sorted_ok.
Qed.
End Access.

(** Rows of a query in its order, cut to its page, and projected. *)
Definition query_answer `{RuleEnv} (f64_text : f64 -> string) (q : Query) (rows : list BindingRow) : Stream Row :=
  let ordered := sorted_rows f64_text (qu_order_by q) rows in
  let skipped := match qu_skip q with Some n => drop (Z.to_nat n) ordered | None => ordered end in
  let page := match qu_limit q with Some n => take (Z.to_nat n) skipped | None => skipped end in
  project_rows f64_text (qu_return_clause q) (map Ok page).

(** C36. A planned query returns what it asks for, whichever index it uses.  For a
    query with one node pattern, on a collection in memory whose indexes are exact
    (as its writes keep them), the plan over the storage adapter yields exactly
    the stored rows of the label that satisfy the inline property and the
    condition, in the order of the query, cut to its page and projected: an index
    lookup, an index order and a scan give the same answer.  The query has at most
    one inline property, which is constant and served by an index if any is used;
    the condition is evaluable and compares properties, not paths; values looked up
    by equality have the type of their index, a declared index of a single
    property; and rows come sorted from an index only without a condition. *)
Theorem cypher_query_exact `{RuleEnv} `{!SerdeNumberEq} `{!SerdeNumberSym} (error_text : AxonError -> string)
    (f64_text : f64 -> string) (s : MemoryStorageAdapter) (snapshot : SchemaSnapshot) (label : string) (def : LabelDef)
    (k : QualifiedCollectionId) (single : list IndexDef) (compound : list CompoundIndexDef) (rows : list Entity)
    (q : Query) (optional : bool) (node : NodePattern Expression) (v : string) (p : ExecutionPlan)
    (Hlabel : snapshot_label snapshot label = Some def)
    (Hkey : resolve_catalog_key s (ld_collection_name def) = Ok k)
    (Hrows : forall id e, stored s k id = Some e -> e_id e = id)
    (Hindexed : indexed s) (Hdefs : fixed_defs s k single compound)
    (Hscan : range_scan s (ld_collection_name def) None None None = Ok rows)
    (Hquery : qu_matches q = [{| mc_optional := optional; mc_patterns := [{| pt_start := node; pt_steps := [] |}] |}])
    (Hvariable : np_variable node = Some v) (Hnode : np_label node = Some label)
    (Hinline : inline_ok def v node (qu_where_clause q) (qu_order_by q)) (Hwhere : where_ok (qu_where_clause q))
    (Hlookup : lookup_ok f64_text def single node (qu_where_clause q))
    (Horder : order_ok def v (qu_where_clause q) (qu_order_by q))
    (Hplan : plan snapshot q = Ok p) :
  let store := query_store_new s snapshot in
  @row_stream _ _ _ (storage_adapter_query_store error_text) f64_text store (pln_root p) =
  query_answer f64_text q
    (List.filter (fun row => holds_opt f64_text (inline_condition v node) row && holds_opt f64_text (qu_where_clause q) row)
       (map (row_of s snapshot v) rows)).
Proof.
  intros store. unfold plan in Hplan. apply result_bind_ok in Hplan as ([] & _ & Hplan).
  unfold plan_query in Hplan. rewrite Hquery in Hplan. cbn [plan_matches] in Hplan. unfold plan_match_clause in Hplan.
  cbn [mc_patterns mc_optional plan_patterns] in Hplan. unfold plan_path_pattern in Hplan. cbn [pt_start pt_steps plan_steps] in Hplan.
  rewrite Hvariable in Hplan.
  destruct (plan_node_access snapshot node (qu_where_clause q) (qu_order_by q)) as [op|e|] eqn:Haccess; [|done|done].
  cbn [result_bind ok_or] in Hplan. apply result_bind_ok in Hplan as (root & Hroot & Hplan).
  apply result_bind_ok in Hplan as ([] & _ & [= <-]). cbn [pln_root].
  pose proof (access_rows error_text f64_text s snapshot label def Hlabel k Hkey Hrows single compound Hindexed Hdefs rows Hscan v node
    (qu_where_clause q) (qu_order_by q) Hvariable Hnode Hinline Hwhere Hlookup Horder op Haccess) as Hacc.
  pose proof (where_and_order error_text f64_text s snapshot rows v node (qu_where_clause q) (qu_order_by q) Hwhere op root Hacc Hroot) as Hs.
  cbn [row_stream]. unfold project_stream, query_answer. f_equal. unfold all_rows, store in *.
  unfold query_store in Hs. revert Hs. generalize (if negb (order_covered_by_existing_index root (qu_order_by q))
    then PlanSort root (qu_order_by q) (operator_rows root) else root) as base. intros base Hs.
  destruct (qu_skip q), (qu_limit q); cbn [binding_stream]; rewrite Hs; by rewrite ?skipn_map, ?firstn_map.
Qed.
