(* ===== verification/NamedQueries.v ===== *)
(** * Named queries and the check against read policies *)

From S2P Require Import Prelude Json Ids Types Datetime IndexKeys Schema PolicyPlan Rules PolicyEval.
From S2P Require Import Collections CypherAst CypherLexer CypherParser CypherPlan CypherLimits CypherStore.
From S2P Require Import CypherExec CypherProofs.
Local Open Scope axon_scope.

(** ** Named queries ([crates/axon-schema/src/named_queries.rs])

    The schema snapshot that the schemas of collections give rise to, the check
    that a query does not test redacted fields, and the compilation of the
    queries that a schema declares. *)

Definition letter_s : ascii := Eval compute in Stdlib.Strings.Ascii.ascii_of_nat 115.
Definition open_bracket : ascii := Eval compute in Stdlib.Strings.Ascii.ascii_of_nat 91.

(** ** Labels of collections *)

(** [str::split] at the bytes that satisfy a predicate. *)
Fixpoint split_where (sep : ascii -> bool) (s : string) : list string :=
  match s with
  | "" => [""]
  | String c rest =>
      match split_where sep rest with
      | piece :: others => if sep c then "" :: piece :: others else String c piece :: others
      | [] => [String c ""]
      end
  end.

(** The words of a name, without the empty ones. *)
Definition words (name : string) : list string :=
  List.filter (fun part => negb (bool_decide (part = ""))) (split_where (fun c => negb (is_ascii_alphanumeric c)) name).

(** [strip_suffix('s').unwrap_or(part)] *)
Fixpoint strip_s (part : string) : string :=
  match part with
  | "" => ""
  | String c "" => if bool_decide (c = letter_s) then "" else part
  | String c rest => String c (strip_s rest)
  end.

Definition capitalize (part : string) : string :=
  match part with "" => "" | String c rest => String (ascii_upper c) rest end.

Definition pascal_singular (name : string) : string :=
  fold_right (fun part out => capitalize (strip_s part) +:+ out) "" (words name).

Definition cypher_relationship_alias (name : string) : string := join_with underscore (map ascii_uppercase (words name)).

(** The name after the last dot, and its singular in camel case. *)
Definition label_aliases (collection : string) : list string :=
  let bare := List.last (split_on dot collection) collection in
  let singular := pascal_singular bare in
  if bool_decide (bare = singular) then [bare] else sort_by String.compare [bare; singular].

Section NamedQueries.
Context `{SerdeNumber}.

Definition label_collection_map (schemas : list CollectionSchema) : gmap string string :=
  fold_left (fun m schema =>
    fold_left (fun m alias => <[alias := cs_collection schema]> m) (label_aliases (cs_collection schema)) m) schemas ∅.

Definition collection_label_map (schemas : list CollectionSchema) : gmap string (list string) :=
  fold_left (fun m schema => <[cs_collection schema := label_aliases (cs_collection schema)]> m) schemas ∅.

(** ** The snapshot *)

Definition property_kind_from_json_schema (def : Value) : PropertyKind :=
  match value_get def "type" ≫= as_str with
  | Some ty =>
      if bool_decide (ty = "string") then
        if bool_decide ((value_get def "format" ≫= as_str) = Some "date-time") then KindDateTime else KindString
      else if bool_decide (ty = "integer") then KindInteger
      else if bool_decide (ty = "number") then KindFloat
      else if bool_decide (ty = "boolean") then KindBoolean
      else KindOther
  | None => KindOther
  end.

Definition property_kind_from_index (t : IndexType) : PropertyKind :=
  match t with
  | TString => KindString | TInteger => KindInteger | TFloat => KindFloat
  | TDatetime => KindDateTime | TBoolean => KindBoolean
  end.

Definition entity_properties (schema : CollectionSchema) : gmap string PropertyKind :=
  let properties : gmap string PropertyKind := <["_id" := KindString]> (<["id" := KindString]> ∅) in
  match (cs_entity_schema schema ≫= (fun s => value_get s "properties")) ≫= as_object with
  | Some object => fold_left (fun m '(name, def) => <[name := property_kind_from_json_schema def]> m) object properties
  | None => properties
  end.

(** [properties.entry(field).or_insert(kind)] *)
Definition or_insert (field : string) (kind : PropertyKind) (m : gmap string PropertyKind) : gmap string PropertyKind :=
  match m !! field with Some _ => m | None => <[field := kind]> m end.

Definition label_def (schema : CollectionSchema) (estimated_counts : gmap string Z) : LabelDef :=
  let count := default 0%Z (estimated_counts !! cs_collection schema) in
  let indexed field ty unique := {|
    ip_property := field; ip_kind := property_kind_from_index ty; ip_unique := unique;
    ip_estimated_equality_rows := 1; ip_estimated_range_rows := count |} in
  let fields := map (fun i => (ix_field i, ix_type i, ix_unique i)) (cs_indexes schema)
    ++ somes (map (fun c => match ci_fields c with f :: _ => Some (cf_field f, cf_type f, ci_unique c) | [] => None end)
                  (cs_compound_indexes schema)) in
  {| ld_collection_name := cs_collection schema;
     ld_estimated_count := count;
     ld_properties := fold_left (fun m '(field, ty, _) => or_insert field (property_kind_from_index ty) m) fields
                                (entity_properties schema);
     ld_indexed_properties := map (fun '(field, ty, unique) => indexed field ty unique) fields |}.

(** The source iterates over a hash map, in an unspecified order, here that of
    [map_to_list]; the order decides only which definition a name has that is
    declared twice, and not which names there are. *)
Definition relationship_entries (labels : gmap string (list string)) (schema : CollectionSchema)
    : list (string * RelationshipDef) :=
  flat_map (fun '(name, link_type) =>
      let def := {|
        rd_source_labels := label_aliases (cs_collection schema);
        rd_target_labels := default (label_aliases (lt_target_collection link_type))
                                    (labels !! lt_target_collection link_type) |} in
      [(name, def); (cypher_relationship_alias name, def)]) (map_to_list (cs_link_types schema)).

Definition schema_snapshot_from_schemas (schemas : list CollectionSchema) (estimated_counts : gmap string Z)
    : SchemaSnapshot := {|
  ss_labels := fold_left (fun m schema =>
    fold_left (fun m alias => <[alias := label_def schema estimated_counts]> m)
              (label_aliases (cs_collection schema)) m) schemas ∅;
  ss_relationships := fold_left (fun m '(name, def) => <[name := def]> m)
    (flat_map (relationship_entries (collection_label_map schemas)) schemas) ∅;
  ss_planner_config := planner_config_default;
  ss_queries := ∅ |}.

(** ** Redacted fields *)

(** [field.split(['.', '[']).next()] *)
Definition field_root (field : string) : string :=
  match split_where (fun c => bool_decide (c = dot \/ c = open_bracket)) field with
  | "" :: _ | [] => field
  | part :: _ => part
  end.

Definition denies_reads (p : FieldPolicy) : bool :=
  match fp_read p with Some read => negb (Nat.eqb (length (fa_deny read)) 0) | None => false end.

(** The roots of the fields whose read policy has a deny rule. *)
Definition redacted_fields (schema : CollectionSchema) : gset string :=
  match cs_access_control schema with
  | Some policy =>
      list_to_set (map (fun kv => field_root (fst kv))
                       (List.filter (fun kv => denies_reads (snd kv)) (map_to_list (ac_fields policy))))
  | None => ∅
  end.

Definition redacted_fields_by_label (schemas : list CollectionSchema) : gmap string (gset string) :=
  fold_left (fun m schema =>
    if bool_decide (redacted_fields schema = ∅) then m else <[cs_collection schema := redacted_fields schema]> m)
    schemas ∅.

(** ** Variables and the properties a query tests *)

Definition bind_node (node : NodePattern Expression) (bindings : gmap string string) : gmap string string :=
  match np_variable node, np_label node with
  | Some variable, Some label => <[variable := label]> bindings
  | _, _ => bindings
  end.
Definition bind_path_pattern (pattern : PathPattern Expression) (bindings : gmap string string) : gmap string string :=
  fold_left (fun m step => bind_node (st_node step) m) (pt_steps pattern) (bind_node (pt_start pattern) bindings).
Definition bind_match_clause (clause : MatchClause Expression) (bindings : gmap string string) : gmap string string :=
  fold_left (fun m pattern => bind_path_pattern pattern m) (mc_patterns clause) bindings.

Fixpoint bind_expression_subqueries (e : Expression) (bindings : gmap string string) : gmap string string :=
  match e with
  | EExists sq | ENotExists sq =>
      let bindings := fold_left (fun m clause => bind_match_clause clause m) (sq_matches sq) bindings in
      match sq_where_clause sq with Some w => bind_expression_subqueries w bindings | None => bindings end
  | EBinaryLogical _ l r | EComparison _ l r => bind_expression_subqueries r (bind_expression_subqueries l bindings)
  | ENot inner | EIsNull inner _ => bind_expression_subqueries inner bindings
  | EFunctionCall _ arguments =>
      (fix go args m := match args with
       | [] => m
       | ArgExpression a :: rest => go rest (bind_expression_subqueries a m)
       | ArgStar :: rest => go rest m
       end) arguments bindings
  | ELiteral _ | EVariable _ | EProperty _ _ | EParameter _ => bindings
  end.

Definition bindings_for_query (q : Query) : gmap string string :=
  let bindings := fold_left (fun m clause => bind_match_clause clause m) (qu_matches q) ∅ in
  match qu_where_clause q with Some w => bind_expression_subqueries w bindings | None => bindings end.

Definition collect_node_inline_properties (node : NodePattern Expression) : list (string * string) :=
  match np_variable node with
  | Some variable => map (fun entry => (variable, pe_key entry)) (np_properties node)
  | None => []
  end.
Definition collect_match_inline_properties (clause : MatchClause Expression) : list (string * string) :=
  flat_map (fun pattern => collect_node_inline_properties (pt_start pattern)
    ++ flat_map (fun step => collect_node_inline_properties (st_node step)) (pt_steps pattern)) (mc_patterns clause).

(** [collect_property_refs] and [collect_subquery_property_refs] *)
Fixpoint collect_property_refs (e : Expression) : list (string * string) :=
  match e with
  | EProperty variable path => match path with first :: _ => [(variable, first)] | [] => [] end
  | EBinaryLogical _ l r | EComparison _ l r => collect_property_refs l ++ collect_property_refs r
  | ENot inner | EIsNull inner _ => collect_property_refs inner
  | EExists sq | ENotExists sq =>
      flat_map collect_match_inline_properties (sq_matches sq)
        ++ match sq_where_clause sq with Some w => collect_property_refs w | None => [] end
  | EFunctionCall _ arguments =>
      flat_map (fun a => match a with ArgExpression e => collect_property_refs e | ArgStar => [] end) arguments
  | ELiteral _ | EVariable _ | EParameter _ => []
  end.

Definition collect_aggregation_property_refs (e : Expression) : list (string * string) :=
  match e with
  | EFunctionCall _ arguments =>
      flat_map (fun a => match a with ArgExpression e => collect_property_refs e | ArgStar => [] end) arguments
  | _ => []
  end.

Definition policy_sensitive_property_refs (q : Query) : list (string * string) :=
  flat_map collect_match_inline_properties (qu_matches q)
    ++ match qu_where_clause q with Some w => collect_property_refs w | None => [] end
    ++ flat_map (fun item => collect_property_refs (si_expression item)) (qu_order_by q)
    ++ flat_map (fun item => collect_aggregation_property_refs (ri_expression item)) (rc_items (qu_return_clause q)).

Definition validate_policy_compatibility (q : Query) (label_to_collection : gmap string string)
    (redacted : gmap string (gset string)) : result unit CypherError :=
  let bindings := bindings_for_query q in
  all_ok (fun '(variable, property) =>
    match bindings !! variable with
    | None => Ok tt
    | Some label =>
        match label_to_collection !! label ≫= (fun collection => redacted !! collection) with
        | Some fields =>
            if bool_decide (property ∈ fields)
            then Err (RequiresBypass ("query predicates or aggregations reference redacted field " +:+
                        label +:+ "." +:+ property))
            else Ok tt
        | None => Ok tt
        end
    end) (policy_sensitive_property_refs q).

Definition validate_query_policy_compatibility (q : Query) (schemas : list CollectionSchema) : result unit CypherError :=
  validate_policy_compatibility q (label_collection_map schemas) (redacted_fields_by_label schemas).

(** ** Compilation *)

Context `{CypherText}.

Definition diagnostic_status (e : CypherError) : NamedQueryStatus :=
  match e with
  | CypherParse _ _ _ => ParseError
  | UnknownName _ _ => UnknownIdentifier
  | RequiresBypass _ => PolicyRequiredBypass
  | UnsupportedClause _ | UnsupportedPlan _ | QueryTooLarge _ | QueryTimeout _ | StorageFailure _ => UnsupportedQueryPlan
  end.
Definition query_status_code (s : NamedQueryStatus) : string :=
  match s with
  | StatusOk => "ok"
  | ParseError => "parse_error"
  | UnknownIdentifier => "unknown_identifier"
  | UnsupportedQueryPlan => "unsupported_query_plan"
  | PolicyRequiredBypass => "policy_required_bypass"
  end.
Definition diagnostic_from_error (name : string) (e : CypherError) : NamedQueryDiagnostic := {|
  nd_name := name; nd_status := diagnostic_status e; nd_code := query_status_code (diagnostic_status e);
  nd_message := cypher_error_display e |}.

(** The checks of one query, in their order. *)
Definition check_query (cypher : string) (snapshot : SchemaSnapshot) (label_to_collection : gmap string string)
    (redacted : gmap string (gset string)) : result unit CypherError :=
  let? q := parse_cypher cypher in
  let? _ := validate snapshot q in
  let? _ := validate_policy_compatibility q label_to_collection redacted in
  let? _ := plan snapshot q in
  Ok tt.

Definition compile_one (name cypher : string) (snapshot : SchemaSnapshot) (label_to_collection : gmap string string)
    (redacted : gmap string (gset string)) : result NamedQueryDiagnostic CypherError :=
  match check_query cypher snapshot label_to_collection redacted with
  | Ok _ => Ok {| nd_name := name; nd_status := StatusOk; nd_code := "ok"; nd_message := "ok" |}
  | Err e => Ok (diagnostic_from_error name e)
  | Panic => Panic
  end.

Definition compile_named_queries (candidate : CollectionSchema) (active_schemas : list CollectionSchema)
    (estimated_counts : gmap string Z) : result CompileReport CypherError :=
  let schemas := List.filter (fun s => negb (bool_decide (cs_collection s = cs_collection candidate))) active_schemas
                   ++ [candidate] in
  let snapshot := schema_snapshot_from_schemas schemas estimated_counts in
  let label_to_collection := label_collection_map schemas in
  let redacted := redacted_fields_by_label schemas in
  let names := sort_by String.compare (map fst (map_to_list (cs_queries candidate))) in
  let? queries := result_map (fun name =>
      match cs_queries candidate !! name with
      | Some query => compile_one name (nq_cypher query) snapshot label_to_collection redacted
      | None => Panic
      end) names in
  Ok {| rep_queries := queries |}.

(** ** Activation ([axon-cypher/src/schema.rs]) *)

Definition relaxed (s : SchemaSnapshot) : SchemaSnapshot := {|
  ss_labels := ss_labels s; ss_relationships := ss_relationships s;
  ss_planner_config := {|
    cfg_unindexed_scan_threshold := cfg_unindexed_scan_threshold (ss_planner_config s);
    cfg_depth_cap := cfg_depth_cap (ss_planner_config s);
    cfg_cardinality_budget := cfg_cardinality_budget (ss_planner_config s);
    cfg_enforce_cardinality_budget := false |};
  ss_queries := ss_queries s |}.

(** Plans in the order of the names; the first error ends the activation. *)
Definition activate_named_queries (s : SchemaSnapshot) : result (list (string * ExecutionPlan)) CypherError :=
  result_map (fun '(name, named_query) =>
      let? parsed := parse_cypher (snq_cypher named_query) in
      let? p := plan (relaxed s) parsed in
      Ok (name, p))
    (sort_by (fun a b => String.compare (fst a) (fst b)) (map_to_list (ss_queries s))).
End NamedQueries.

(** ** Named queries: redacted fields do not decide what a query returns

    The check that a query is compatible with the read policies is sound for
    conditions and orders that read fields of labelled variables: on rows that
    differ only in redacted fields the query selects the same rows in the same
    order. *)

Section Redaction.
Context `{RuleEnv}.
Variable f64_text : f64 -> string.
Variable schemas : list CollectionSchema.

(** The field of the entity is redacted for some reader. *)
Definition redacted_field (e : QueryEntity) (f : string) : Prop :=
  exists label collection fields, label ∈ qe_labels e /\ label_collection_map schemas !! label = Some collection /\
    redacted_fields_by_label schemas !! collection = Some fields /\ f ∈ fields.

(** Entities that look the same to a reader from whom the redacted fields are
    hidden, and rows that bind such entities. *)
Definition looks_like (a b : QueryEntity) : Prop :=
  qe_id a = qe_id b /\ forall f, ~ redacted_field a f -> qe_properties a !! f = qe_properties b !! f.
Definition same_binding (a b : option BindingValue) : Prop :=
  match a, b with
  | Some (BoundEntity x), Some (BoundEntity y) => looks_like x y
  | Some BoundNull, Some BoundNull | None, None => True
  | _, _ => False
  end.
Definition rows_agree (r1 r2 : BindingRow) : Prop := forall x, same_binding (r1 !! x) (r2 !! x).

(** Variables whose fields are read are bound to entities of their label, all of
    whose labels are names of one collection. *)
Definition labelled (q : Query) (row : BindingRow) : Prop :=
  forall x f e, In (x, f) (policy_sensitive_property_refs q) -> row !! x = Some (BoundEntity e) ->
    exists label, bindings_for_query q !! x = Some label /\ label ∈ qe_labels e /\
      forall other, other ∈ qe_labels e -> label_collection_map schemas !! other = label_collection_map schemas !! label.

(** Expressions that read fields of variables, not whole entities, and whose
    lists hold constants. *)
Fixpoint field_only (e : Expression) : bool :=
  match e with
  | ELiteral (LitList items) => forallb constant items
  | ELiteral _ | EProperty _ _ | EParameter _ | EExists _ | ENotExists _ | EFunctionCall _ _ => true
  | EVariable _ => false
  | EBinaryLogical _ l r | EComparison _ l r => field_only l && field_only r
  | ENot inner | EIsNull inner _ => field_only inner
  end.

Variable q : Query.
Hypothesis Hcheck : validate_query_policy_compatibility q schemas = Ok tt.

Lemma all_ok_In {A E} (f : A -> result unit E) l a : all_ok f l = Ok tt -> In a l -> f a = Ok tt.
Proof.
  induction l as [|b l IH]; [done|]. cbn [all_ok]. intros ([] & Hb & Hl)%result_bind_ok [->|Hin]; auto.
Qed.

(** A field that the query tests is not redacted for the entity it is read from. *)
Lemma tested_not_redacted row x f e :
  labelled q row -> In (x, f) (policy_sensitive_property_refs q) -> row !! x = Some (BoundEntity e) -> ~ redacted_field e f.
Proof.
  intros Hl Hin Hx (label' & collection & fields & Hlab & Hcol & Hred & Hf).
  destruct (Hl x f e Hin Hx) as (label & Hb & Hlabel & Hsame). rewrite (Hsame _ Hlab) in Hcol.
  pose proof (all_ok_In _ _ _ Hcheck Hin) as Hok. cbn beta iota in Hok. rewrite Hb, Hcol in Hok.
  cbn [mbind option_bind] in Hok. rewrite Hred in Hok. by rewrite bool_decide_true in Hok.
Qed.

Section Rows.
Variables r1 r2 : BindingRow.
Hypothesis Hagree : rows_agree r1 r2.
Hypothesis Hlabelled : labelled q r1.

Lemma same_property x path f : In (x, f) (policy_sensitive_property_refs q) ->
  r1 !! x ≫= (fun b => binding_property b (f :: path)) = r2 !! x ≫= (fun b => binding_property b (f :: path)).
Proof.
  intros Hin. specialize (Hagree x). unfold same_binding in Hagree.
  destruct (r1 !! x) as [[a|]|] eqn:H1, (r2 !! x) as [[b|]|] eqn:H2; try done.
  destruct Hagree as [_ Hp]. cbn [mbind option_bind binding_property entity_property property_at].
  unfold entity_property, property_at. by rewrite (Hp f (tested_not_redacted r1 x f a Hlabelled Hin H1)).
Qed.

Lemma same_function name arguments : eval_function name arguments r1 = eval_function name arguments r2.
Proof.
  unfold eval_function. destruct arguments as [|[|[]] [|]]; try done. repeat case_bool_decide; try done.
  specialize (Hagree name0). unfold bound_entity, same_binding in *.
  destruct (r1 !! name0) as [[a|]|], (r2 !! name0) as [[b|]|]; try done. by destruct Hagree as [-> _].
Qed.

Lemma same_value e : field_only e = true -> incl (collect_property_refs e) (policy_sensitive_property_refs q) ->
  eval_json f64_text e r1 = eval_json f64_text e r2.
Proof.
  induction e as [l IH|name|x path|name|sq IH|sq IH|op l r IHl IHr|e IH|op l r IHl IHr|e negated IH|name arguments IH]
    using expression_induction; cbn [field_only collect_property_refs]; try done.
  - destruct l as [| | | | |items]; try done. intros Hc _.
    assert (Hconst : constant (ELiteral (LitList items)) = true) by exact Hc.
    destruct (constant_eval f64_text _ r1 Hconst) as (v1 & Hv & ->).
    destruct (constant_eval f64_text _ r2 Hconst) as (v2 & Hv' & ->). congruence.
  - intros _ Hincl. cbn [eval_json]. destruct path as [|f path].
    + specialize (Hagree x). unfold same_binding in Hagree. by destruct (r1 !! x) as [[]|], (r2 !! x) as [[]|].
    + by rewrite (same_property x path f) by (apply Hincl; by left).
  - intros [Hl Hr]%andb_true_iff [Hil Hir]%incl_app_inv. cbn [eval_json]. by rewrite IHl, IHr.
  - intros Hi Hincl. cbn [eval_json]. by rewrite IH.
  - intros [Hl Hr]%andb_true_iff [Hil Hir]%incl_app_inv. cbn [eval_json]. by rewrite IHl, IHr.
  - intros Hi Hincl. cbn [eval_json]. by rewrite IH.
  - intros _ _. cbn [eval_json]. apply same_function.
Qed.
End Rows.

(** ** Selecting and sorting rows *)

Lemma Forall2_filter {A} (R : A -> A -> Prop) (p : A -> bool) l1 l2 :
  (forall a b, R a b -> p a = p b) -> Forall2 R l1 l2 -> Forall2 R (List.filter p l1) (List.filter p l2).
Proof.
  intros Hp. induction 1 as [|a b l1 l2 Hab _ IH]; [constructor|]. cbn [List.filter]. rewrite (Hp a b Hab).
  destruct (p b); [by constructor|done].
Qed.

Lemma Forall2_sort {A} (R : A -> A -> Prop) (cmp : A -> A -> comparison) l1 l2 :
  (forall a b a' b', R a a' -> R b b' -> cmp a b = cmp a' b') -> Forall2 R l1 l2 -> Forall2 R (sort_by cmp l1) (sort_by cmp l2).
Proof.
  intros Hcmp. assert (Hins : forall a a' l l', R a a' -> Forall2 R l l' -> Forall2 R (insert_by cmp a l) (insert_by cmp a' l')).
  { intros a a' l l' Ha. induction 1 as [|b b' l l' Hb Hl IH]; cbn [insert_by]; [by repeat constructor|].
    rewrite (Hcmp a b a' b' Ha Hb). destruct (cmp a' b'); by repeat constructor. }
  induction 1 as [|a b l1 l2 Hab _ IH]; [constructor|]. unfold sort_by in *. cbn [foldr]. by apply Hins.
Qed.

Definition agree_labelled (r1 r2 : BindingRow) : Prop := rows_agree r1 r2 /\ labelled q r1.

Lemma same_order items a b a' b' :
  forallb (fun i => field_only (si_expression i)) items = true ->
  incl (flat_map (fun i => collect_property_refs (si_expression i)) items) (policy_sensitive_property_refs q) ->
  agree_labelled a a' -> agree_labelled b b' -> compare_rows f64_text items a b = compare_rows f64_text items a' b'.
Proof.
  intros Hf Hi [Ha Hla] [Hb Hlb]. induction items as [|i items IH]; [done|]. cbn [forallb flat_map] in *.
  apply andb_true_iff in Hf as [Hf1 Hf2]. apply incl_app_inv in Hi as [Hi1 Hi2]. cbn [compare_rows]. rewrite IH by done.
  f_equal. unfold compare_item. by rewrite (same_value a a'), (same_value b b').
Qed.

Lemma selected_agree l1 l2 :
  match qu_where_clause q with Some w => field_only w = true | None => True end ->
  forallb (fun i => field_only (si_expression i)) (qu_order_by q) = true ->
  Forall2 agree_labelled l1 l2 ->
  Forall2 agree_labelled
    (sorted_rows f64_text (qu_order_by q) (List.filter (holds_opt f64_text (qu_where_clause q)) l1))
    (sorted_rows f64_text (qu_order_by q) (List.filter (holds_opt f64_text (qu_where_clause q)) l2)).
Proof.
  intros Hw Ho Hl.
  assert (Hselected : Forall2 agree_labelled (List.filter (holds_opt f64_text (qu_where_clause q)) l1)
                                             (List.filter (holds_opt f64_text (qu_where_clause q)) l2)).
  { apply Forall2_filter; [|done]. intros a b [Hab Hla]. destruct (qu_where_clause q) as [w|] eqn:Hwc; [|done].
    cbn [holds_opt]. unfold holds, eval_truthy. assert (Hi : incl (collect_property_refs w) (policy_sensitive_property_refs q)).
    { unfold policy_sensitive_property_refs. rewrite Hwc. intros x Hx. rewrite !in_app_iff. tauto. }
    by rewrite (same_value a b Hab Hla w Hw Hi). }
  unfold sorted_rows. destruct (qu_order_by q) as [|i items] eqn:Hob; [done|]. rewrite <-Hob in *.
  apply Forall2_sort; [|done]. intros a b a' b' Ha Hb. apply same_order; try done.
  unfold policy_sensitive_property_refs. rewrite Hob. intros x Hx. rewrite !in_app_iff. tauto.
Qed.
End Redaction.

(** What the check against the read policies does for the clauses it looks at: on
    two lists of matched rows whose entities differ only in fields that some rule
    redacts, the WHERE clause of a query that passes selects the same rows and its
    ORDER BY arranges them in the same way.  The two clauses read fields of
    variables (not whole entities, no subqueries, no fields inside of list
    literals), and each variable is bound to entities of the label that the check
    has for it.  What MATCH selects through inline properties is not protected:
    see [policy_check_bypassed] of the file CypherExamples. *)
Theorem policy_check_sound `{RuleEnv} (f64_text : f64 -> string) (schemas : list CollectionSchema) (q : Query)
    (l1 l2 : list BindingRow)
    (Hcheck : validate_query_policy_compatibility q schemas = Ok tt)
    (Hwhere : match qu_where_clause q with Some w => field_only w = true | None => True end)
    (Horder : forallb (fun i => field_only (si_expression i)) (qu_order_by q) = true)
    (Hrows : Forall2 (agree_labelled schemas q) l1 l2) :
  Forall2 (rows_agree schemas)
    (sorted_rows f64_text (qu_order_by q) (List.filter (holds_opt f64_text (qu_where_clause q)) l1))
    (sorted_rows f64_text (qu_order_by q) (List.filter (holds_opt f64_text (qu_where_clause q)) l2)).
Proof.
  eapply (List.Forall2_impl (R1 := agree_labelled schemas q)); [by intros ? ? [? _]|]. by apply selected_agree.
Qed.
