(* ===== verification/CypherExamples.v ===== *)
(** * Cypher: concrete queries

    Instances of the theorems on queries, on the named queries of the
    repository's own test schema, and runs of plans that do not return what the
    query asks for. *)

From S2P Require Import Prelude Json Ids Types IndexKeys Schema Rules Gates Storage Catalog MemoryRows IndexQueries.
From S2P Require Import CypherAst CypherLexer CypherParser CypherPrint CypherRoundtrip CypherPlan CypherStore CypherExec.
From S2P Require Import CypherProofs NamedQueries.
Local Open Scope axon_scope.

(** Texts in ASCII, without decimal fractions. *)
#[global] Instance ascii_text : CypherText := {|
  wide_whitespace _ := false; wide_alphabetic _ := false; wide_numeric _ := false;
  parse_f64 s := inr "invalid float literal";
  char_debug c := c; token_debug _ := "token" |}.

(** The query [ready_beads]:
    [MATCH (b:DdxBead {status: 'open'})
     WHERE NOT EXISTS { MATCH (b)-[:DEPENDS_ON]->(d:DdxBead) WHERE d.status <> 'closed' }
     RETURN b ORDER BY b.priority DESC, b.updated_at DESC]. *)
Definition node (v : string) (l : option string) (ps : list (PropertyEntry Expression)) : NodePattern Expression :=
  {| np_variable := Some v; np_label := l; np_properties := ps |}.
Definition arrow (ty : string) : RelationshipPattern Expression :=
  {| rp_variable := None; rp_direction := Outgoing; rp_types := [ty]; rp_properties := []; rp_range := None |}.
Definition matching_one (p : PathPattern Expression) : list (MatchClause Expression) :=
  [{| mc_optional := false; mc_patterns := [p] |}].
Definition open_dependency : Subquery Expression := {|
  sq_matches := matching_one {| pt_start := node "b" None [];
                                pt_steps := [{| st_relationship := arrow "DEPENDS_ON"; st_node := node "d" (Some "DdxBead") [] |}] |};
  sq_where_clause := Some (EComparison CmpNotEq (EProperty "d" ["status"]) (ELiteral (LitString "closed"))) |}.
Definition ready_beads : Query := {|
  qu_matches := matching_one {|
    pt_start := node "b" (Some "DdxBead") [{| pe_key := "status"; pe_value := ELiteral (LitString "open") |}];
    pt_steps := [] |};
  qu_where_clause := Some (ENotExists open_dependency);
  qu_return_clause := {| rc_distinct := false; rc_items := [{| ri_expression := EVariable "b"; ri_alias := None |}] |};
  qu_order_by := [{| si_expression := EProperty "b" ["priority"]; si_descending := true |};
                  {| si_expression := EProperty "b" ["updated_at"]; si_descending := true |}];
  qu_skip := None;
  qu_limit := None |}.

Lemma cypher_roundtrip_witness : parse_cypher (query_text ready_beads) = Ok ready_beads.
Proof. apply (cypher_roundtrip ready_beads); vm_compute; reflexivity. Defined.

(** ** Runs *)

Section Runs.
Local Existing Instance simple_serde_number.

Definition empty_query : Query := {|
  qu_matches := []; qu_where_clause := None; qu_return_clause := {| rc_distinct := false; rc_items := [] |};
  qu_order_by := []; qu_skip := None; qu_limit := None |}.
Definition parsed (text : string) : Query := match parse_cypher text with Ok q => q | _ => empty_query end.
Definition no_f64 (_ : f64) : string := "<float>".
Definition no_text (_ : AxonError) : string := "<error>".

(** The ids in the first column of an answer, or the error. *)
Definition column (name : string) (rows : Stream Row) : result (list string) CypherError :=
  let? rs := collect_rows rows in
  Ok (map (fun row => match row !! name with Some (JString t) => t | _ => "?" end) rs).
Definition run_memory (schema : SchemaSnapshot) (store : MemoryQueryStore) (text name : string) : result (list string) CypherError :=
  let? q := parse_cypher text in
  let? p := plan schema q in
  column name (row_stream no_f64 store (pln_root p)).
Definition run_adapter (s : MemoryStorageAdapter) (schema : SchemaSnapshot) (text name : string) : result (list string) CypherError :=
  let? q := parse_cypher text in
  let? p := plan schema q in
  column name (@row_stream _ _ _ (storage_adapter_query_store no_text) no_f64 (query_store_new s schema) (pln_root p)).

(** *** An indexed query on stored rows *)

Definition users_snapshot : SchemaSnapshot :=
  schema_snapshot_from_schemas [users_schema [email_index; name_index] [name_team_index]] (<["users" := 2%Z]> ∅).
Definition ann_query : Query := parsed "MATCH (u:User) WHERE u.name = 'ann' AND u.email = 'b@x' RETURN u.email".

#[local] Instance simple_eq : SerdeNumberEq.
Proof. split. intros [x|x] [y|y] E; try discriminate E; [|done]. by apply Z.eqb_eq in E as ->. Qed.
#[local] Instance simple_sym : SerdeNumberSym.
Proof. split. intros [x|x] [y|y]; try done; apply Z.eqb_sym. Qed.
Definition planned (schema : SchemaSnapshot) (q : Query) : ExecutionPlan :=
  match plan schema q with
  | Ok p => p
  | _ => {| pln_root := PlanScan {| sc_alias := None; sc_label := ""; sc_collection := ""; sc_predicate := None; sc_estimated_rows := 0 |};
            pln_estimated_rows := 0; pln_diagnostics := [] |}
  end.
Definition ann_node : NodePattern Expression := {| np_variable := Some "u"; np_label := Some "User"; np_properties := [] |}.
Definition users_def : LabelDef := label_def (users_schema [email_index; name_index] [name_team_index]) (<["users" := 2%Z]> ∅).
Definition user_rows : list Entity := match range_scan full_users "users" None None None with Ok rows => rows | _ => [] end.

Lemma rows_under_ids : forall id e, stored full_users users_key id = Some e -> e_id e = id.
Proof.
  intros i e. unfold stored. destruct (s_data full_users !! users_key) as [col|] eqn:Hc; [|done]. intros He.
  assert (Hall : match s_data full_users !! users_key with
    | Some col => forallb (fun row => bool_decide (e_id (snd row) = fst row)) (map_to_list col) | None => true end = true) by vm_refl.
  rewrite Hc in Hall. rewrite forallb_forall in Hall. cbn in He.
  by apply elem_of_map_to_list, list_elem_of_In, Hall, bool_decide_eq_true in He.
Qed.

Lemma ann_condition : qu_where_clause ann_query =
  Some (EBinaryLogical LogicalAnd (EComparison CmpEq (EProperty "u" ["name"]) (ELiteral (LitString "ann")))
                                  (EComparison CmpEq (EProperty "u" ["email"]) (ELiteral (LitString "b@x")))).
Proof. vm_refl. Qed.

Lemma ann_lookup : lookup_ok no_f64 users_def [email_index; name_index] ann_node (qu_where_clause ann_query).
Proof.
  intros p value Hp _ Hv.
  assert (Hpred : indexed_predicate ann_node (qu_where_clause ann_query) users_def =
    Some {| ipr_property := "name"; ipr_comparison := IdxEq; ipr_value := ELiteral (LitString "ann") |}) by vm_refl.
  rewrite Hp in Hpred. injection Hpred as ->. injection Hv as <-.
  exists name_index, (IVString "ann"), [IVString "ann"]. split_and!; [by right; left|done|vm_refl|vm_refl|vm_refl].
Qed.

Lemma cypher_query_exact_witness :
  column "u.email" (query_answer no_f64 ann_query
    (List.filter (fun row => holds_opt no_f64 (inline_condition "u" ann_node) row && holds_opt no_f64 (qu_where_clause ann_query) row)
       (map (row_of full_users users_snapshot "u") user_rows))) = Ok ["b@x"].
Proof.
  assert (E : column "u.email" (@row_stream _ _ _ (storage_adapter_query_store no_text) no_f64
    (query_store_new full_users users_snapshot) (pln_root (planned users_snapshot ann_query))) = Ok ["b@x"]) by vm_refl.
  rewrite (cypher_query_exact no_text no_f64 full_users users_snapshot "User" users_def users_key [email_index; name_index]
    [name_team_index] user_rows ann_query false ann_node "u" (planned users_snapshot ann_query)) in E; [exact E|..].
  - vm_refl.
  - vm_refl.
  - exact rows_under_ids.
  - apply (run_rows_indexed two_users empty_users); [apply indexed_no_rows; reflexivity|exact full_users_run].
  - exact full_users_fixed.
  - vm_refl.
  - vm_refl.
  - reflexivity.
  - reflexivity.
  - exact I.
  - rewrite ann_condition. split; reflexivity.
  - exact ann_lookup.
  - left. vm_refl.
  - vm_refl.
Defined.
(** *** Plans that lose parts of a query *)

Definition indexed_text (p : string) : IndexedProperty := {|
  ip_property := p; ip_kind := KindString; ip_unique := false; ip_estimated_equality_rows := 1; ip_estimated_range_rows := 3 |}.
Definition graph_schema : SchemaSnapshot := {|
  ss_labels := <["Bead" := {| ld_collection_name := "beads"; ld_estimated_count := 3;
                              ld_properties := <["status" := KindString]> (<["title" := KindString]> ∅);
                              ld_indexed_properties := [indexed_text "status"] |}]>
               (<["Note" := {| ld_collection_name := "notes"; ld_estimated_count := 1;
                               ld_properties := <["text" := KindString]> ∅; ld_indexed_properties := [] |}]> ∅);
  ss_relationships := <["DEPENDS_ON" := {| rd_source_labels := ["Bead"]; rd_target_labels := ["Bead"] |}]>
                      (<["ABOUT" := {| rd_source_labels := ["Note"]; rd_target_labels := ["Bead"] |}]> ∅);
  ss_planner_config := planner_config_default;
  ss_queries := ∅ |}.

Definition bead (id status title : string) : QueryEntity := {|
  qe_id := id; qe_labels := {["Bead"]}; qe_properties := <["status" := JString status]> (<["title" := JString title]> ∅) |}.
Definition edge (source ty target : string) : QueryLink := {|
  ql_id := source +:+ "/" +:+ ty +:+ "/" +:+ target; ql_source_id := source; ql_target_id := target; ql_link_type := ty;
  ql_properties := ∅ |}.
(** Beads [a] and [b] are open and [c] is closed; [a] depends on [b] and [b] on
    [c]; a note is about [a]. *)
Definition graph : MemoryQueryStore :=
  let add e s := fst (mq_insert_entity e s) in
  let link l s := fst (mq_insert_link l s) in
  link (edge "n" "ABOUT" "a") (link (edge "b" "DEPENDS_ON" "c") (link (edge "a" "DEPENDS_ON" "b")
    (add {| qe_id := "n"; qe_labels := {["Note"]}; qe_properties := <["text" := JString "t"]> ∅ |}
      (add (bead "c" "closed" "x") (add (bead "b" "open" "y") (add (bead "a" "open" "x") memory_query_store_new)))))).
Abbreviation run := (run_memory graph_schema graph).

(** Of several inline properties only one is checked. *)
Theorem second_property_ignored :
  run "MATCH (n:Bead {status: 'open', title: 'x'}) RETURN id(n) AS id" "id" = Ok ["a"; "b"].
Proof. vm_refl. Qed.

(** An inline property without an index is dropped when the condition has one. *)
Theorem inline_property_dropped :
  run "MATCH (n:Bead {title: 'x'}) WHERE n.status = 'open' RETURN id(n) AS id" "id" = Ok ["a"; "b"] /\
  run "MATCH (n:Bead) WHERE n.title = 'x' AND n.status = 'open' RETURN id(n) AS id" "id" = Ok ["a"].
Proof. split; vm_refl. Qed.

(** Inline properties of the end of a step are not checked. *)
Theorem target_property_ignored :
  run "MATCH (n:Note)-[:ABOUT]->(m:Bead {status: 'closed'}) RETURN id(m) AS id" "id" = Ok ["a"].
Proof. vm_refl. Qed.

(** The second step of a path starts from the first node again. *)
Theorem second_hop_restarts :
  run "MATCH (x:Bead {status: 'open'})-[:DEPENDS_ON]->(y:Bead)-[:DEPENDS_ON]->(z:Bead) RETURN id(z) AS id" "id" = Ok ["b"; "c"].
Proof. vm_refl. Qed.

(** Against the direction of a link, a step without a direction stays where it is. *)
Theorem undirected_step_returns_itself :
  run "MATCH (x:Bead {status: 'closed'})-[:DEPENDS_ON]-(y:Bead) RETURN id(y) AS id" "id" = Ok ["c"] /\
  run "MATCH (x:Bead {status: 'closed'})<-[:DEPENDS_ON]-(y:Bead) RETURN id(y) AS id" "id" = Ok ["b"].
Proof. split; vm_refl. Qed.

(** A scan evaluates the whole condition before the other variables are bound, and
    fails when the condition has a subquery. *)
Theorem condition_pushed_below_expansion :
  run "MATCH (n:Note)-[:ABOUT]->(m:Bead) WHERE m.status = 'open' RETURN id(m) AS id" "id" = Ok [] /\
  run "MATCH (n:Note) WHERE EXISTS { MATCH (n)-[:ABOUT]->(m:Bead) } RETURN id(n) AS id" "id" =
    Err (UnsupportedPlan "EXISTS expressions must be planned as ExistsCheck operators").
Proof. split; vm_refl. Qed.

(** Of two patterns without a common variable only the last is planned. *)
Theorem first_pattern_dropped :
  run "MATCH (n:Note), (m:Bead {status: 'closed'}) RETURN id(n) AS id" "id" = Ok ["?"].
Proof. vm_refl. Qed.

(** The page is cut before duplicates are removed. *)
Theorem page_before_distinct :
  run "MATCH (n:Bead) RETURN DISTINCT n.status AS s LIMIT 2" "s" = Ok ["open"].
Proof. vm_refl. Qed.

(** The first field of a compound index counts as indexed, but there is no index
    to look it up in: the query finds nothing. *)
Definition compound_users : MemoryStorageAdapter := fst (for_each run_row two_users (users_store [] [name_team_index])).
Theorem compound_index_hides_rows :
  run_adapter compound_users (schema_snapshot_from_schemas [users_schema [] [name_team_index]] ∅)
    "MATCH (u:User {name: 'ann'}) RETURN u.name AS name" "name" = Ok [] /\
  run_adapter compound_users (schema_snapshot_from_schemas [users_schema [] [name_team_index]] ∅)
    "MATCH (u:User) WHERE u.name CONTAINS 'ann' RETURN u.name AS name" "name" = Ok ["ann"; "ann"].
Proof. split; vm_refl. Qed.
(** *** The check against read policies *)

(** A collection [beads] whose field [secret] is redacted for some readers, and one
    of notes without policies. *)
Definition guarded_schema : CollectionSchema :=
  let s := collection_schema_new "beads" in
  {| cs_collection := "beads"; cs_description := None; cs_version := 1; cs_entity_schema := None; cs_link_types := ∅;
     cs_access_control := Some {|
       ac_identity := None; ac_read := None; ac_create := None; ac_update := None; ac_delete := None; ac_write := None; ac_admin := None;
       ac_fields := <["secret" := {| fp_read := Some {| fa_allow := []; fa_deny := [{| fr_name := None; fr_when := None; fr_where := None;
                                                                                    fr_redact_as := None |}] |};
                                     fp_write := None |}]> ∅;
       ac_transitions := ∅; ac_envelopes := ∅ |};
     cs_gates := cs_gates s; cs_validation_rules := []; cs_indexes := []; cs_compound_indexes := []; cs_queries := ∅; cs_lifecycles := ∅ |}.
Definition guarded : list CollectionSchema := [guarded_schema; collection_schema_new "notes"].
Definition checked (text : string) : result unit CypherError := validate_query_policy_compatibility (parsed text) guarded.

(** Inline properties of anonymous nodes, fields inside of list literals, and
    fields of variables that a subquery binds to another label escape the check. *)
Theorem policy_check_bypassed :
  checked "MATCH (b:Bead) WHERE b.secret = 'x' RETURN b" =
    Err (RequiresBypass "query predicates or aggregations reference redacted field Bead.secret") /\
  checked "MATCH (:Bead {secret: 'x'}) RETURN count(*)" = Ok tt /\
  checked "MATCH (b:Bead) WHERE 'x' IN [b.secret] RETURN b" = Ok tt /\
  checked "MATCH (b:Bead) WHERE b.secret = 'x' AND EXISTS { MATCH (b:Note)-[]->(c) } RETURN b" = Ok tt.
Proof. split_and!; vm_refl. Qed.

Definition guarded_bead (secret : string) : QueryEntity := {|
  qe_id := "b1"; qe_labels := {["Bead"]};
  qe_properties := <["secret" := JString secret]> (<["status" := JString "open"]> ∅) |}.
Definition guarded_row (secret : string) : BindingRow := <["b" := BoundEntity (guarded_bead secret)]> ∅.
Definition open_beads : Query := parsed "MATCH (b:Bead) WHERE b.status = 'open' RETURN b ORDER BY b.status".

Lemma open_beads_shape :
  qu_where_clause open_beads = Some (EComparison CmpEq (EProperty "b" ["status"]) (ELiteral (LitString "open"))) /\
  qu_order_by open_beads = [{| si_expression := EProperty "b" ["status"]; si_descending := false |}] /\
  policy_sensitive_property_refs open_beads = [("b", "status"); ("b", "status")] /\
  bindings_for_query open_beads !! "b" = Some "Bead".
Proof. split_and!; vm_refl. Qed.

Lemma guarded_rows_agree : agree_labelled guarded open_beads (guarded_row "x") (guarded_row "y").
Proof.
  split.
  - intros v. destruct (decide (v = "b")) as [->|Hne].
    + change (looks_like guarded (guarded_bead "x") (guarded_bead "y")). split; [done|]. intros f Hf.
      destruct (decide (f = "secret")) as [->|Hs].
      * destruct Hf. exists "Bead", "beads", {["secret"]}. split_and!; [set_solver|vm_refl|vm_refl|set_solver].
      * etransitivity; [|symmetry]; apply (lookup_insert_ne (M := gmap string)); done.
    + assert (Hnone : forall secret, guarded_row secret !! v = None).
      { intros secret. etransitivity; [by apply (lookup_insert_ne (M := gmap string))|apply (lookup_empty (M := gmap string))]. }
      by rewrite !Hnone.
  - intros x f e Hin Hx. destruct open_beads_shape as (_ & _ & Hr & Hb). rewrite Hr in Hin.
    assert (x = "b") as -> by (destruct Hin as [[= <-]|[[= <-]|[]]]; done).
    assert (Hrow : guarded_row "x" !! "b" = Some (BoundEntity (guarded_bead "x"))) by apply (lookup_insert_eq (M := gmap string)).
    rewrite Hrow in Hx. assert (e = guarded_bead "x") as -> by congruence. clear Hx Hrow.
    exists "Bead". split_and!; [done|set_solver|]. intros other Ho. cbn [guarded_bead qe_labels] in Ho.
    by apply elem_of_singleton in Ho as ->.
Qed.

Lemma policy_check_sound_witness :
  Forall2 (rows_agree guarded)
    (sorted_rows no_f64 (qu_order_by open_beads) (List.filter (holds_opt no_f64 (qu_where_clause open_beads)) [guarded_row "x"]))
    (sorted_rows no_f64 (qu_order_by open_beads) (List.filter (holds_opt no_f64 (qu_where_clause open_beads)) [guarded_row "y"])).
Proof.
  apply (policy_check_sound no_f64 guarded open_beads).
  - vm_refl.
  - destruct open_beads_shape as (-> & _). reflexivity.
  - destruct open_beads_shape as (_ & -> & _). reflexivity.
  - repeat constructor; apply guarded_rows_agree.
Defined.
End Runs.
